(* ===== verification/_CoqProject ===== *)
-Q . S2P
Prelude.v
Utf8.v
Decimal.v
Http.v
WsProto.v
WsMask.v
WsFrame.v
WsCodec.v
WsStream.v
WsHandshake.v
RateGcra.v
RateState.v
RateLimit.v
H1Codec.v
H1Head.v
HpackInt.v
HpackHuffTable.v
HpackHuffman.v
HpackHeader.v
HpackTable.v
HpackDecoder.v
HpackEncoder.v
HpackIndex.v
HpackProbe.v
HpackSync.v
H2Frame.v
H2Headers.v
H2Conn.v
H2Flow.v
H2Bodies.v
RouterRoute.v
RouterTree.v
RouterInsert.v
RouterMatch.v
RouterRemove.v
RouterSpec.v
ServiceRouter.v
BoundQueue.v
BufList.v
WriteBuffers.v
H1Body.v
H1Dispatch.v
H1Server.v
H1Pipeline.v
ClientPool.v
ContentCoding.v
ContentCoder.v
HttpFile.v
Multipart.v
MultipartSpec.v
PgDriver.v
