(* ===== verification/Prelude.v ===== *)
(** * A verification development for xitca-web

    xitca-web is a family of Rust crates: protocol crates that know nothing of I/O
    ([http-ws], [http-rate], [http-multipart], [http-encoding]), the server's own HTTP/1 and
    HTTP/2 implementations ([http]), a path router ([router]), and the web framework, client,
    PostgreSQL driver and I/O layers around them.  This library models the parts that decide
    what bytes and messages mean -- parsers, encoders, state machines, limiters, tables -- as
    executable functions and step relations, and proves what makes them correct.

    ** Conventions

    - Bytes and machine integers are [Z]; a byte list is [bytes], and [bytes_ok] says every
      element fits in eight bits.  Where the source truncates, wraps, saturates or checks, the
      definition does so explicitly ([wrap], [sub_chk], [nanos_saturating_sub], ...).  [usize]
      is 64 bits wide.
    - [outcome E A] is a [Result<A, E>] with a third case [Panic] for what the source would
      panic on (a failed assertion, [unwrap], an index out of range, [unreachable!], [todo!]
      and checked arithmetic).  Theorems that call a function total exclude [Panic] too.
    - [M S E A] is code that mutates a state [S] and may fail: it returns the state it leaves
      behind on every path, the failing ones included.
    - Code that is not in the repository (httparse, the http crate's [HeaderMap] and types,
      SHA-1, base64, the random number generator, hash functions, compressors, the file system,
      the parser of PostgreSQL messages) is a field of a class, with
      its documented behaviour as class laws; every theorem against such a class comes with an
      instance of it that computes.

    ** Files, and the sources they model

    - [Prelude]: outcomes, the state monad, cursors over bytes, byte order, automation and the
      generic lemmas.  [Utf8], [Decimal], [Http]: UTF-8 validation, decimal printing and
      parsing and the header map interface, as the standard library and the http crate have
      them.
    - [WsProto], [WsMask], [WsFrame], [WsCodec] (http-ws/src/{proto,mask,frame,codec}.rs): op
      codes, close codes, masking, frames, messages.  [WsStream] (http-ws/src/stream.rs): the
      request stream over a body stream, the response sender and its channel.  [WsHandshake]
      (http-ws/src/lib.rs): both sides of the opening handshake.
    - [RateGcra], [RateState], [RateLimit] (http-rate/src): the GCRA decision, its atomic
      state cell and keyed store, and the limiter as a request handler sees it.
    - [H1Codec], [H1Head], [H1Body] (http/src/h1/proto, http/src/h1/body.rs): transfer coding,
      message heads, the request body channel.
    - [HpackInt], [HpackHuffTable], [HpackHuffman], [HpackHeader], [HpackTable],
      [HpackDecoder], [HpackEncoder] (http/src/h2/proto/hpack): the integer code, the Huffman
      tables and code, header fields, the decoder's tables, decoder and encoder.
      [HpackIndex] (hpack/table.rs): the encoder's Robin Hood index over its ring of entries;
      [HpackProbe]: what probing, shifting and converging do to the index; [HpackSync]: the
      index refines a plain list of entries, and both ends of a connection stay in step.
    - [H2Frame] (http/src/h2/proto): frame heads, the frames other than HEADERS and
      PUSH_PROMISE, and the frame reader.  [H2Headers] (h2/proto/headers.rs): pseudo headers,
      HEADERS and CONTINUATION frames and the header blocks they carry.
    - [H2Conn] (http/src/h2/mod.rs, h2/body.rs): one connection as a state ([Conn]: decoder,
      flow control, body channels, message queue), one definition per frame handler, the
      response task's steps and the writer; [Sys] puts them together and [Event] lists what
      can happen next, so that a run is any interleaving of reads, body polls, response
      chunks and writes.  [H2Flow]: segmentation, windows, order and completion of responses.
      [H2Bodies]: the receive windows of request bodies.
    - [RouterRoute], [RouterTree] (router/src): escaped routes and the normalisation of their
      parameters; the radix tree with insertion, removal, lookup, traversal and merging.
      [RouterInsert], [RouterMatch], [RouterRemove] hold the invariant of the tree and what
      each operation does to the table of routes it stands for; [RouterSpec] has the theorems
      about whole routers and the behaviours worth knowing.  [ServiceRouter]
      (http/src/util/service/{router,route}.rs): services chosen by method and by path over that
      tree, and routers mounted in routers.
    - [ClientPool] (client/src/pool): Module [Exclusive], a pool of connections that serve one
      request at a time, and Module [Shared], a pool of one connection per key, with tasks that
      run the critical sections of their mutex in any order.
    - [BoundQueue], [BufList] (unsafe_collection/src): the bounded ring buffer over stack and
      heap storage; lists of buffers on top of it.  [WriteBuffers] (io/src/bytes.rs,
      http/src/util/buffered/buffer.rs, http/src/h1/proto/buf_write.rs): the flat and the
      listed write buffer, draining into a socket, and the body encoder over either of them.
    - [H1Dispatch] (http/src/h1/dispatcher.rs, util/timer.rs, util/buffered/buffered_io.rs,
      h1/error.rs): the task that serves one HTTP/1 connection, as a state ([Disp]: socket,
      timer, context, both buffers, body reader and the phase the task awaits in) and one step
      per thing that can wake it ([Event]: readiness of the socket, the service, an item of the
      response body, the request body, the clock); a run is any sequence of events.
      [H1Server]: the invariant of the task and what each step keeps of it.  [H1Pipeline]:
      runs of the task together with the service's end of the body channel, and the theorems.
    - [ContentCoding] (http-encoding/src/{coding,error}.rs): the codings a client accepts and the
      one that is chosen.  [ContentCoder] (the other files of http-encoding/src, and
      web/src/middleware/{compress,decompress,limit}.rs): bodies run through a coder, the choice
      of encoder and decoder, the middlewares, and the body with a limit.
    - [HttpFile] (http-file/src): the path of a request made into a path below a directory,
      conditional and range requests, and the file read in chunks.
    - [PgDriver] (postgres/src/driver/{generic,codec}.rs): the task that serves one PostgreSQL
      connection and the client's handle as a state ([World]) and one step per thing either of them
      does ([Action]); the message parser of the wire-format crate is a class ([Backend]).
    - [Multipart] (http-multipart/src): boundary, part headers, content disposition, the field
      decoder and the search for the next field.  [MultipartSpec]: what a body is read as.

    ** What is proved

    - Parsers are total and do not depend on segmentation: however the bytes are cut into
      reads, the same messages come out ([WsFrame], [WsStream], [H1Codec], [H2Frame]).
    - What the writers write, the readers read back: frames, sessions, chunked bodies, HPACK
      integers, strings, header lists, HTTP/2 frames.
    - Optimised routines equal a reference: word-wise masking, the four-bit Huffman automaton,
      the batched limiter check.
    - Stateful components refine an abstract specification: the HPACK dynamic table is the
      longest prefix that fits; the HPACK decoder is a pure parser; the compare-and-swap loop
      is linearizable; the body channel and the sender keep their invariants in every
      interleaving.
    - HPACK tables: the encoder's index, with its evictions and resizes, always finds what a
      list of entries would, and a peer that decodes the blocks in order has the same table
      and reads the same header fields after every block.
    - An HTTP/2 connection, for every sequence of events: bytes sent never exceed the windows
      the peer has granted; DATA of a stream follows its head and nothing follows its end; the
      task of a response that waits for window is woken when the peer grants what is left of its
      chunk, to the connection first and then to its stream, and finishes once polled (in the other
      order the wakeup is lost, [wakeup_lost]); what a request body consumes is what is given back
      to the peer.
    - The router is its table of routes: insertion adds the route or refuses it and keeps the
      others, removal takes one out, every match found is a match of a route in the table with
      its parameters, and a literal route is found by its text whatever other such routes are
      inserted.
      Routes are assumed [tidy] (after normalisation the escape marks still sit on braces, as
      the source may displace the mark after a parameter, and no two parameters adjoin) and [rooted] (the root's prefix is not left over from routes
      that were removed or refused); lookup theorems are about ASCII paths, since the source panics when a route's
      node ends inside a UTF-8 character.
    - A service inserted at a literal path answers the requests for it, a mounted router resolves
      the rest of a path as it would on its own, and a request whose method has no service is
      refused with the list of those that have.
    - A pooled connection is with one task or in one queue, the permits of a semaphore are neither
      lost nor exceeded, and one task at a time opens the shared connection of a key.
    - The PostgreSQL driver writes the requests in the order they were made, gives each its own
      response, in order, and loses no wakeup, for every interleaving of client and driver.
    - The ring buffer is a list of at most its capacity; whatever is written into either write
      buffer reaches the socket in order, once, however the socket accepts it; the body encoder
      writes the same bytes through every buffer that keeps the [WriteBuffer] contract.
    - An HTTP/1 connection, for every sequence of events, any httparse that obeys its laws and
      either write buffer: the requests handed to the service and their bodies are the bytes
      received, cut where the framing of each head says, with nothing skipped and nothing read
      twice; what goes out is the answers, whole and in the order of the requests, with at most
      one unfinished answer at the end; each request body is given to its service up to the
      part that is still in the buffer; and no event makes the task panic with a flat buffer, heads
      that can be encoded, bodies of their declared length and no [expect: 100-continue] without a
      body (the panics outside these conditions are lemmas of [H1Pipeline]).
    - A multipart body is read back as the parts it was made of, whichever way the stream is
      cut outside the four bytes before a boundary (the source looks for the two bytes of the
      line end in the item that has the boundary) and as long as the data of a part without a
      length has no two hyphens in a row (the source skips a boundary's length after them);
      on any input a parser that has not failed before stops with a field, the end or an error
      (after an error the source may assert, [multipart_retry_panics]).
    - The coding of a response is the client's best offer by the grammar of RFC 7231, and what the
      compression middleware sends is turned back into the body by the decoder its head selects,
      for every compressor that keeps its contract and however the body and the coded bytes are
      cut, for bodies that may be polled after their end; a limited body is the body until the limit
      is reached and an error from then on.
    - No request path leads out of a served directory, and a file or a range of it is sent exactly as
      the headers announce, however short the reads are, unless its time cannot be written as a date.
    - Error paths: which requests are refused, with which error, and what is left behind.
    - The limiter's rate guarantee and exact burst size, over every sequence of checks.

    ** Fuel

    Loops that are not structural take fuel, computed from the input by the caller: the
    remaining length plus one for byte loops (each turn consumes a byte or stops), the number
    of entries for eviction loops, twice the height plus two for the router's insertion (at
    most one fork per level), twice the number of nodes for its lookup (a node is visited again
    only after backtracking to it), the queued bytes plus two for a drain (a turn writes a byte,
    flushes or stops), the room left in the read buffer plus one for a read (a turn reads a byte
    or stops), the polls left plus one for an item of a coded body
    (a turn takes a poll or stops), the buffered bytes plus three for handing out a request body (a chunk, the end
    of the body, a dropped receiver), one re-arming for the timer, the bytes read plus one for the
    PostgreSQL message loops (a message has at least five), the number of stream items plus one for the multipart loops (a turn
    reads an item or stops; the search for a boundary line may also consume a line of the
    buffer).  The theorems are about the functions with that fuel, so
    running out of it cannot make them vacuous.

    ** Not modelled

    Asynchronous tasks and sockets (the HTTP/1 dispatchers over
    io-uring and compio, the dispatcher over the h2 crate,
    the reads and writes and the shutdown around the HTTP/2 connection, servers, TLS, io-uring, the client's
    protocols and the PostgreSQL client around its driver), the type-level composition of services and extractors, the
    compressors, procedural macros. *)

From Stdlib Require Export ZArith Lia.
From stdpp Require Export base decidable list numbers option strings relations gmap.

#[global] Open Scope Z_scope.

(** ** Fallible code

    A Rust [Result<A, E>] together with the possibility of a panic: [Panic]
    stands for an [unwrap] on [None]/[Err], an index out of range, a failed
    [assert!], [unreachable!] and (as in a build with overflow checks) an
    integer overflow. *)
Inductive outcome (E A : Type) : Type :=
| Ok (a : A)
| Err (e : E)
| Panic.
Arguments Ok {E A} a.
Arguments Err {E A} e.
Arguments Panic {E A}.

#[global] Instance outcome_ret E : MRet (outcome E) := fun A a => Ok a.
#[global] Instance outcome_bind E : MBind (outcome E) := fun A B k m =>
  match m with Ok a => k a | Err e => Err e | Panic => Panic end.
#[global] Instance outcome_fmap E : FMap (outcome E) := fun A B f m =>
  match m with Ok a => Ok (f a) | Err e => Err e | Panic => Panic end.

#[global] Instance outcome_eq_dec {E A} `{EqDecision E, EqDecision A} :
  EqDecision (outcome E A).
Proof. solve_decision. Defined.

(** Code that mutates a state [S] on every path, the failing ones included: a step returns
    the state it leaves behind together with its outcome. *)
Definition M (S E A : Type) : Type := S -> S * outcome E A.
#[global] Instance M_ret S E : MRet (M S E) := fun A a s => (s, Ok a).
#[global] Instance M_bind S E : MBind (M S E) := fun A B k m s =>
  match m s with
  | (s', Ok a) => k a s'
  | (s', Err e) => (s', Err e)
  | (s', Panic) => (s', Panic)
  end.
Definition get {S E} : M S E S := fun s => (s, Ok s).
Definition put {S E} (s' : S) : M S E unit := fun _ => (s', Ok tt).
Definition lift {S E A} (o : outcome E A) : M S E A := fun s => (s, o).
Definition fail {S E A} (e : E) : M S E A := lift (Err e).
Definition panic {S E A} : M S E A := lift Panic.

Lemma bind_ok {S E A B} (m : M S E A) (k : A -> M S E B) s s1 a :
  m s = (s1, Ok a) -> mbind k m s = k a s1.
Proof. intros H. unfold mbind, M_bind. by rewrite H. Qed.
Lemma bind_err {S E A B} (m : M S E A) (k : A -> M S E B) s s1 e :
  m s = (s1, Err e) -> mbind k m s = (s1, Err e).
Proof. intros H. unfold mbind, M_bind. by rewrite H. Qed.

(** Started in a state that satisfies [P], [m] does not panic, and where it returns a value,
    [Q] holds of the value and the state left behind. *)
Definition triple {S E A} (P : S -> Prop) (m : M S E A) (Q : A -> S -> Prop) : Prop :=
  forall s, P s -> match m s with (s', Ok a) => Q a s' | (_, Err _) => True | (_, Panic) => False end.
Lemma triple_bind {S E A B} (P : S -> Prop) (m : M S E A) (k : A -> M S E B) Q R :
  triple P m Q -> (forall a, triple (Q a) (k a) R) -> triple P (mbind k m) R.
Proof.
  intros Hm Hk s Hs. specialize (Hm s Hs). unfold mbind, M_bind. destruct (m s) as [s' [a|e|]]; [|done|done].
  exact (Hk a s' Hm).
Qed.
Lemma triple_ret {S E A} (a : A) (P : S -> Prop) : triple (E := E) P (mret a) (fun b s => b = a /\ P s).
Proof. intros s Hs. by split. Qed.
Lemma triple_weaken {S E A} (P P' : S -> Prop) (m : M S E A) Q Q' :
  triple P m Q -> (forall s, P' s -> P s) -> (forall a s, Q a s -> Q' a s) -> triple P' m Q'.
Proof.
  intros Hm HP HQ s Hs. specialize (Hm s (HP s Hs)). destruct (m s) as [s' [a|e|]]; [|done|done]. by apply HQ.
Qed.

(** [Result::map_err]. *)
Definition map_err {E F A} (f : E -> F) (m : outcome E A) : outcome F A :=
  match m with Ok a => Ok a | Err e => Err (f e) | Panic => Panic end.

(** [Option::ok_or] and [Option::unwrap]. *)
Definition ok_or {E A} (e : E) (o : option A) : outcome E A :=
  match o with Some a => Ok a | None => Err e end.
Definition unwrap {E A} (o : option A) : outcome E A :=
  match o with Some a => Ok a | None => Panic end.

(** ** Machine integers

    A [w]-bit unsigned integer is a [Z] in [0, 2^w); wrap-around, checked and
    saturating operations are written out where the source uses them. *)
Definition fits (w z : Z) : Prop := 0 <= z < 2 ^ w.
Abbreviation is_u8 := (fits 8).
Abbreviation is_u16 := (fits 16).
Abbreviation is_u32 := (fits 32).
Abbreviation is_u64 := (fits 64).

Definition fitsb (w z : Z) : bool := (0 <=? z) && (z <? 2 ^ w).

Definition wrap (w z : Z) : Z := z mod 2 ^ w.

(** Arithmetic of a build with overflow checks. *)
Definition add_chk {E} (w a b : Z) : outcome E Z :=
  if a + b <? 2 ^ w then Ok (a + b) else Panic.
Definition sub_chk {E} (a b : Z) : outcome E Z :=
  if b <=? a then Ok (a - b) else Panic.
Definition mul_chk {E} (w a b : Z) : outcome E Z :=
  if a * b <? 2 ^ w then Ok (a * b) else Panic.

(** [uN::checked_add], [uN::checked_mul], [uN::saturating_sub]. *)
Definition checked_add (w a b : Z) : option Z :=
  if a + b <? 2 ^ w then Some (a + b) else None.
Definition checked_mul (w a b : Z) : option Z :=
  if a * b <? 2 ^ w then Some (a * b) else None.
Definition saturating_sub (a b : Z) : Z := Z.max 0 (a - b).

#[global] Instance fits_dec w z : Decision (fits w z).
Proof. unfold fits. apply _. Defined.

(** ** Byte strings *)
Abbreviation byte := Z (only parsing).
Abbreviation bytes := (list Z).
Definition bytes_ok (l : bytes) : Prop := Forall is_u8 l.
#[global] Instance bytes_ok_dec l : Decision (bytes_ok l).
Proof. unfold bytes_ok. apply _. Defined.

(** [slice.len()] as a machine integer. *)
Definition len {A} (l : list A) : Z := Z.of_nat (length l).

(** [&l[a..b]]: [None] is the out-of-range panic. *)
Definition slice {A} (a b : Z) (l : list A) : option (list A) :=
  if (0 <=? a) && (a <=? b) && (b <=? len l)
  then Some (take (Z.to_nat (b - a)) (drop (Z.to_nat a) l)) else None.

(** [BytesMut::split_to n] and [Buf::advance n] on the buffer a function holds. *)
Definition m_split_to {E} (n : Z) : M bytes E bytes := fun src =>
  if n <=? len src then (drop (Z.to_nat n) src, Ok (take (Z.to_nat n) src)) else (src, Panic).
Definition m_advance {E} (n : Z) : M bytes E unit := fun src =>
  if n <=? len src then (drop (Z.to_nat n) src, Ok tt) else (src, Panic).

(** String literals as bytes: [b"..."]. *)
Definition bs (s : string) : bytes :=
  (fun a => Z.of_N (Ascii.N_of_ascii a)) <$> String.list_ascii_of_string s.

(** Big-endian integers: [to_be_bytes], [from_be_bytes], [put_uint(_, n)]. *)
Fixpoint be_encode (n : nat) (z : Z) : bytes :=
  match n with
  | O => []
  | S k => be_encode k (z / 256) ++ [z mod 256]
  end.
Definition be_decode (l : bytes) : Z := fold_left (fun acc b => acc * 256 + b) l 0.

(** Little-endian integers: [to_le_bytes], [from_le_bytes]. *)
Fixpoint le_decode (l : bytes) : Z :=
  match l with [] => 0 | b :: t => b + 256 * le_decode t end.
Fixpoint le_encode (n : nat) (z : Z) : bytes :=
  match n with O => [] | S k => z mod 256 :: le_encode k (z / 256) end.

(** ** ASCII text, as the header parsers use it *)
Definition ascii_lower (b : Z) : Z := if (65 <=? b) && (b <=? 90) then b + 32 else b.
Definition to_ascii_lowercase (l : bytes) : bytes := ascii_lower <$> l.
Definition eq_ignore_ascii_case (a b : bytes) : bool :=
  bool_decide (to_ascii_lowercase a = to_ascii_lowercase b).

(** [char::is_whitespace] on the ASCII range, and [str::trim] on ASCII text. *)
Definition is_space (b : Z) : bool := ((9 <=? b) && (b <=? 13)) || (b =? 32).
Fixpoint trim_start (l : bytes) : bytes :=
  match l with
  | [] => []
  | b :: t => if is_space b then trim_start t else l
  end.
Definition trim (l : bytes) : bytes := rev (trim_start (rev (trim_start l))).

(** [str::split(c)]: always at least one piece. *)
Fixpoint split_on (c : Z) (l : bytes) : list bytes :=
  match l with
  | [] => [[]]
  | b :: t =>
      match split_on c t with
      | [] => [[]]
      | p :: ps => if b =? c then [] :: p :: ps else (b :: p) :: ps
      end
  end.

(** [splitn(2, c)]: the text before the first [c] and, if there is one, the text after it. *)
Fixpoint split_once (c : Z) (l : bytes) : bytes * option bytes :=
  match l with
  | [] => ([], None)
  | b :: t => if b =? c then ([], Some t) else let '(p, r) := split_once c t in (b :: p, r)
  end.

(** Pieces joined by a separator none of them contains split up again. *)
Fixpoint join (c : Z) (parts : list bytes) : bytes :=
  match parts with [] => [] | [p] => p | p :: ps => p ++ c :: join c ps end.
Lemma split_on_clean c p : c ∉ p -> split_on c p = [p].
Proof.
  induction p as [|b p IH]; intros Hc; [done|]. apply not_elem_of_cons in Hc as [Hb Hc].
  simpl. rewrite IH by done. by rewrite (proj2 (Z.eqb_neq b c)).
Qed.
Lemma split_on_cons c p l : c ∉ p -> split_on c (p ++ c :: l) = p :: split_on c l.
Proof.
  induction p as [|b p IH]; intros Hc; simpl.
  - rewrite Z.eqb_refl. assert (Hs : split_on c l <> []) by (destruct l; simpl; repeat case_match; done).
    by destruct (split_on c l).
  - apply not_elem_of_cons in Hc as [Hb Hc]. rewrite IH by done. by rewrite (proj2 (Z.eqb_neq b c)).
Qed.
Lemma split_on_join c parts :
  parts <> [] -> Forall (fun h => c ∉ h) parts -> split_on c (join c parts) = parts.
Proof.
  induction parts as [|p [|q ps] IH]; intros Hne Hc; [done| |]; inversion_clear Hc as [|? ? Hp Hps].
  - by apply split_on_clean.
  - change (join c (p :: q :: ps)) with (p ++ c :: join c (q :: ps)).
    by rewrite split_on_cons, IH.
Qed.

(** [str::contains] for a byte-string needle. *)
Fixpoint starts_with (p l : bytes) : bool :=
  match p, l with
  | [], _ => true
  | _, [] => false
  | a :: p', b :: l' => (a =? b) && starts_with p' l'
  end.
Fixpoint contains (p l : bytes) : bool :=
  starts_with p l || match l with [] => false | _ :: t => contains p t end.

(** ** Automation *)
Create HintDb xitca.
Create Rewrite HintDb len.

(** Split every boolean test of the goal or of a hypothesis into its arithmetic meaning. *)
Ltac zb_step :=
  match goal with
  | H : context [?a =? ?b] |- _ => destruct (Z.eqb_spec a b)
  | H : context [?a <=? ?b] |- _ => destruct (Z.leb_spec a b)
  | H : context [?a <? ?b] |- _ => destruct (Z.ltb_spec a b)
  | |- context [?a =? ?b] => destruct (Z.eqb_spec a b)
  | |- context [?a <=? ?b] => destruct (Z.leb_spec a b)
  | |- context [?a <? ?b] => destruct (Z.ltb_spec a b)
  end.
Ltac zb := repeat zb_step; simpl in *; try lia; try done.

(** Case analysis on the scrutinee of every match in a hypothesis, discarding absurd branches. *)
Ltac break_in H :=
  repeat match type of H with
  | context [match ?x with _ => _ end] =>
      let E := fresh "E" in destruct x eqn:E; simpl in H; try discriminate H
  end.
Ltac break_goal :=
  repeat match goal with
  | |- context [match ?x with _ => _ end] => let E := fresh "E" in destruct x eqn:E; simpl
  end.

(** ** Lengths and slices *)
Lemma len_nonneg {A} (l : list A) : 0 <= len l.
Proof. unfold len. lia. Qed.
Lemma len_nil {A} : len (@nil A) = 0.
Proof. done. Qed.
Lemma len_cons {A} (x : A) l : len (x :: l) = 1 + len l.
Proof. unfold len. simpl. lia. Qed.
Lemma len_app {A} (l k : list A) : len (l ++ k) = len l + len k.
Proof. unfold len. rewrite length_app. lia. Qed.
Lemma len_zero_nil {A} (l : list A) : len l = 0 -> l = [].
Proof. destruct l; [done|]. rewrite len_cons. pose proof (len_nonneg l). lia. Qed.
Lemma len_take {A} n (l : list A) : 0 <= n <= len l -> len (take (Z.to_nat n) l) = n.
Proof. unfold len. intros. rewrite length_take. lia. Qed.
Lemma len_drop {A} n (l : list A) :
  0 <= n <= len l -> len (drop (Z.to_nat n) l) = len l - n.
Proof. unfold len. intros. rewrite length_drop. lia. Qed.
#[export] Hint Rewrite @len_nil @len_cons @len_app : len.
#[export] Hint Resolve len_nonneg : xitca.

Lemma slice_app_mid {A} (p m r : list A) a b :
  len p = a -> b = a + len m -> slice a b (p ++ m ++ r) = Some m.
Proof.
  intros <- ->. unfold slice. rewrite !len_app.
  pose proof (len_nonneg p). pose proof (len_nonneg m). pose proof (len_nonneg r).
  rewrite !(proj2 (Z.leb_le _ _)) by lia. simpl.
  f_equal. unfold len. rewrite Nat2Z.id, drop_app_length.
  replace (Z.to_nat _) with (length m) by lia. apply take_app_length.
Qed.

(** A slice that is in range does not see what is appended after it. *)
Lemma slice_app_l {A} (l r : list A) a b s :
  slice a b l = Some s -> slice a b (l ++ r) = Some s.
Proof.
  unfold slice. rewrite len_app. pose proof (len_nonneg r).
  destruct (0 <=? a) eqn:Ha, (a <=? b) eqn:Hb, (b <=? len l) eqn:Hl; try done.
  apply Z.leb_le in Ha, Hb, Hl. rewrite (proj2 (Z.leb_le _ _)) by lia.
  simpl. intros [= <-]. f_equal. unfold len in *.
  rewrite drop_app_le by lia. rewrite take_app_le; [done|].
  rewrite length_drop. lia.
Qed.

Lemma slice_Some {A} (l : list A) a b s :
  slice a b l = Some s ->
  0 <= a <= b /\ b <= len l /\ len s = b - a /\ s = take (Z.to_nat (b - a)) (drop (Z.to_nat a) l).
Proof.
  unfold slice. destruct (0 <=? a) eqn:Ha, (a <=? b) eqn:Hb, (b <=? len l) eqn:Hl; try done.
  apply Z.leb_le in Ha, Hb, Hl. simpl. intros [= <-]. repeat split; try lia.
  apply len_take. rewrite len_drop; lia.
Qed.
Lemma slice_in_range {A} (l : list A) a b : 0 <= a <= b -> b <= len l -> is_Some (slice a b l).
Proof. intros. unfold slice. rewrite !(proj2 (Z.leb_le _ _)) by lia. by eexists. Qed.

Lemma m_split_to_app {E} (p r : bytes) n :
  len p = n -> m_split_to (E := E) n (p ++ r) = (r, Ok p).
Proof.
  intros <-. unfold m_split_to. rewrite len_app. pose proof (len_nonneg r).
  rewrite (proj2 (Z.leb_le _ _)) by lia. unfold len.
  by rewrite Nat2Z.id, take_app_length, drop_app_length.
Qed.
Lemma m_advance_app {E} (p r : bytes) n :
  len p = n -> m_advance (E := E) n (p ++ r) = (r, Ok tt).
Proof.
  intros <-. unfold m_advance. rewrite len_app. pose proof (len_nonneg r).
  rewrite (proj2 (Z.leb_le _ _)) by lia. unfold len. by rewrite Nat2Z.id, drop_app_length.
Qed.

(** ** Bytes *)
Lemma bytes_ok_app l k : bytes_ok (l ++ k) <-> bytes_ok l /\ bytes_ok k.
Proof. apply Forall_app. Qed.
Lemma bytes_ok_take n l : bytes_ok l -> bytes_ok (take n l).
Proof. apply Forall_take. Qed.
Lemma bytes_ok_drop n l : bytes_ok l -> bytes_ok (drop n l).
Proof. apply Forall_drop. Qed.
#[export] Hint Resolve bytes_ok_take bytes_ok_drop : xitca.

Lemma slice_ok l a b s : slice a b l = Some s -> bytes_ok l -> bytes_ok s.
Proof. intros (_ & _ & _ & ->)%slice_Some ?. auto with xitca. Qed.
#[export] Hint Resolve slice_ok : xitca.

Lemma u8_mod z : is_u8 (z mod 256).
Proof. unfold fits. change (2 ^ 8) with 256. apply Z.mod_pos_bound. lia. Qed.
#[export] Hint Resolve u8_mod : xitca.

Lemma be_encode_length n z : length (be_encode n z) = n.
Proof. revert z; induction n as [|n IH]; intros; simpl; [done|]. rewrite length_app, IH. simpl. lia. Qed.
Lemma be_encode_ok n z : bytes_ok (be_encode n z).
Proof.
  revert z; induction n as [|n IH]; intros; simpl; [constructor|].
  apply bytes_ok_app. split; [apply IH|]. repeat constructor; apply u8_mod.
Qed.
Lemma be_decode_snoc l b : be_decode (l ++ [b]) = be_decode l * 256 + b.
Proof. unfold be_decode. by rewrite fold_left_app. Qed.

Lemma be_decode_encode n z : 0 <= z -> be_decode (be_encode n z) = z mod 2 ^ (8 * Z.of_nat n).
Proof.
  revert z; induction n as [|n IH]; intros z Hz.
  - simpl. by rewrite Z.mod_1_r.
  - cbn [be_encode]. rewrite be_decode_snoc, IH by (apply Z.div_pos; lia).
    replace (8 * Z.of_nat (S n)) with (8 + 8 * Z.of_nat n) by lia.
    rewrite Z.pow_add_r by lia. change (2 ^ 8) with 256.
    rewrite Z.rem_mul_r by lia. lia.
Qed.
Lemma be_decode_encode_small n z :
  0 <= z < 2 ^ (8 * Z.of_nat n) -> be_decode (be_encode n z) = z.
Proof. intros H. rewrite be_decode_encode by lia. by apply Z.mod_small. Qed.

Lemma be_decode_bound l : bytes_ok l -> 0 <= be_decode l < 2 ^ (8 * len l).
Proof.
  induction l as [|b l IH] using rev_ind; intros H; [done|].
  apply bytes_ok_app in H as [Hl Hb]. specialize (IH Hl).
  inversion Hb as [|? ? Hb' _]; subst. unfold fits in Hb'. change (2 ^ 8) with 256 in Hb'.
  rewrite be_decode_snoc, len_app. change (len [b]) with 1.
  replace (8 * (len l + 1)) with (8 * len l + 8) by lia.
  rewrite Z.pow_add_r by (pose proof (len_nonneg l); lia). change (2 ^ 8) with 256. lia.
Qed.

Lemma be_encode_decode l : bytes_ok l -> be_encode (length l) (be_decode l) = l.
Proof.
  induction l as [|b l IH] using rev_ind; intros H; [done|].
  apply bytes_ok_app in H as [Hl Hb]. inversion Hb as [|? ? Hb' _]; subst.
  unfold fits in Hb'. change (2 ^ 8) with 256 in Hb'.
  rewrite length_app, Nat.add_comm. cbn [length Nat.add be_encode].
  rewrite be_decode_snoc, Z.div_add_l, (Z.div_small b) by lia.
  rewrite Z.add_0_r, IH by done.
  rewrite (Z.add_comm _ b), Z.mod_add, Z.mod_small by lia. done.
Qed.

Lemma bs_ok s : bytes_ok (bs s).
Proof.
  unfold bs, bytes_ok. apply Forall_fmap, Forall_true. intros a. unfold fits. simpl.
  pose proof (Ascii.N_ascii_bounded a). change (2 ^ 8) with 256. lia.
Qed.

(** ** Bit masks *)
Lemma land_pow2_testbit x k : 0 <= k -> (Z.land x (2 ^ k) =? 0) = negb (Z.testbit x k).
Proof.
  intros Hk. destruct (Z.testbit x k) eqn:E; simpl.
  - apply Z.eqb_neq. intros H. apply (f_equal (fun z => Z.testbit z k)) in H.
    rewrite Z.land_spec, E, Z.pow2_bits_true, Z.bits_0 in H by lia. done.
  - apply Z.eqb_eq, Z.bits_inj'. intros i Hi. rewrite Z.land_spec, Z.bits_0.
    destruct (Z.eq_dec i k) as [->|Hne]; [by rewrite E|].
    rewrite Z.pow2_bits_false by lia. apply andb_false_r.
Qed.

Lemma testbit_small x w i : fits w x -> 0 <= w <= i -> Z.testbit x i = false.
Proof.
  intros Hx Hi. rewrite <- (Z.mod_small x (2 ^ w)) by exact Hx.
  apply Z.mod_pow2_bits_high. lia.
Qed.

Lemma bits_fits x w : 0 <= w -> 0 <= x -> (forall i, w <= i -> Z.testbit x i = false) -> fits w x.
Proof.
  intros Hw Hx Hb. split; [done|].
  destruct (Z.eq_dec x 0) as [->|Hx0]; [apply Z.pow_pos_nonneg; lia|].
  apply Z.log2_lt_pow2; [lia|]. destruct (Z.lt_ge_cases (Z.log2 x) w) as [?|Hge]; [done|].
  specialize (Hb (Z.log2 x) Hge). rewrite Z.bit_log2 in Hb by lia. done.
Qed.

Lemma lxor_fits w x y : 0 <= w -> fits w x -> fits w y -> fits w (Z.lxor x y).
Proof.
  intros Hw Hx Hy. apply bits_fits; [done|apply Z.lxor_nonneg; unfold fits in *; lia|].
  intros i Hi. by rewrite Z.lxor_spec, (testbit_small x w), (testbit_small y w) by (done || lia).
Qed.
Lemma lor_fits w x y : 0 <= w -> fits w x -> fits w y -> fits w (Z.lor x y).
Proof.
  intros Hw Hx Hy. apply bits_fits; [done|apply Z.lor_nonneg; unfold fits in *; lia|].
  intros i Hi. by rewrite Z.lor_spec, (testbit_small x w), (testbit_small y w) by (done || lia).
Qed.
Lemma lxor_u8 x y : is_u8 x -> is_u8 y -> is_u8 (Z.lxor x y).
Proof. apply lxor_fits. lia. Qed.
#[export] Hint Resolve lxor_u8 : xitca.

(** Adding numbers whose bits are disjoint is or-ing them. *)
Lemma add_high_lor a b k : 0 <= k -> fits k a -> a + 2 ^ k * b = Z.lor a (Z.shiftl b k).
Proof.
  intros Hk Ha. rewrite <- Z.lxor_lor, <- Z.add_nocarry_lxor.
  - rewrite Z.shiftl_mul_pow2 by done. lia.
  - apply Z.bits_inj'. intros i Hi. rewrite Z.land_spec, Z.shiftl_spec, Z.bits_0 by done.
    destruct (Z.lt_ge_cases i k).
    + rewrite (Z.testbit_neg_r b) by lia. apply andb_false_r.
    + by rewrite (testbit_small a k).
  - apply Z.bits_inj'. intros i Hi. rewrite Z.land_spec, Z.shiftl_spec, Z.bits_0 by done.
    destruct (Z.lt_ge_cases i k).
    + rewrite (Z.testbit_neg_r b) by lia. apply andb_false_r.
    + by rewrite (testbit_small a k).
Qed.

Lemma testbit_add_high a b k i :
  0 <= k -> 0 <= i -> fits k a ->
  Z.testbit (a + 2 ^ k * b) i = if i <? k then Z.testbit a i else Z.testbit b (i - k).
Proof.
  intros Hk Hi Ha. rewrite add_high_lor, Z.lor_spec, Z.shiftl_spec by done.
  destruct (Z.ltb_spec i k).
  - by rewrite (Z.testbit_neg_r b), orb_false_r by lia.
  - by rewrite (testbit_small a k).
Qed.
