(* ===== verification/Utf8.v ===== *)
(** * UTF-8 as the Rust standard library reads it

    [String::from_utf8_lossy] and [str::from_utf8] of [core::str::lossy] /
    [core::str::validations], which the WebSocket close frame and the HPACK
    pseudo headers use: one scanning step over a character, the lossy decoder
    and the validity test built on it. *)

From S2P Require Import Prelude.

Definition is_cont (b : Z) : bool := Z.land b 192 =? 128.
Definition byte_at (l : bytes) (i : nat) : Z := default 0 (l !! i).
Definition between (a b z : Z) : bool := (a <=? z) && (z <=? b).

(** One step of [Utf8Chunks::next]: whether the text starts with a well-formed character, and
    how many bytes were inspected (the character, or its maximal ill-formed part). *)
Definition utf8_step (l : bytes) : bool * nat :=
  let b := byte_at l 0 in
  let c1 := byte_at l 1 in
  if b <? 128 then (true, 1%nat)
  else if between 194 223 b then if is_cont c1 then (true, 2%nat) else (false, 1%nat)
  else if between 224 239 b then
    if ((b =? 224) && between 160 191 c1) || (between 225 236 b && between 128 191 c1)
       || ((b =? 237) && between 128 159 c1) || (between 238 239 b && between 128 191 c1)
    then if is_cont (byte_at l 2) then (true, 3%nat) else (false, 2%nat)
    else (false, 1%nat)
  else if between 240 244 b then
    if ((b =? 240) && between 144 191 c1) || (between 241 243 b && between 128 191 c1)
       || ((b =? 244) && between 128 143 c1)
    then if is_cont (byte_at l 2)
         then if is_cont (byte_at l 3) then (true, 4%nat) else (false, 3%nat)
         else (false, 2%nat)
    else (false, 1%nat)
  else (false, 1%nat).

(** U+FFFD REPLACEMENT CHARACTER. *)
Definition replacement : bytes := [239; 191; 189].

Fixpoint lossy_go (fuel : nat) (l : bytes) : bytes :=
  match fuel, l with
  | O, _ | _, [] => []
  | S f, _ =>
      let '(ok, n) := utf8_step l in
      (if ok then take n l else replacement) ++ lossy_go f (drop n l)
  end.

(** The scan consumes at least one byte per step, so [length l] steps suffice. *)
Definition from_utf8_lossy (l : bytes) : bytes := lossy_go (length l) l.

Fixpoint valid_go (fuel : nat) (l : bytes) : bool :=
  match fuel, l with
  | _, [] => true
  | O, _ => false
  | S f, _ => let '(ok, n) := utf8_step l in ok && valid_go f (drop n l)
  end.
Definition utf8_valid (l : bytes) : bool := valid_go (length l) l.

Lemma utf8_step_pos l : (1 <= (utf8_step l).2)%nat.
Proof. unfold utf8_step. repeat case_match; simpl; lia. Qed.

Lemma valid_lossy_go fuel l : valid_go fuel l = true -> lossy_go fuel l = l.
Proof.
  revert l; induction fuel as [|f IH]; intros [|b t]; try done.
  cbn [valid_go lossy_go]. destruct (utf8_step (b :: t)) as [ok n] eqn:E.
  intros [-> H]%andb_prop. rewrite IH by done. apply take_drop.
Qed.

(** On valid text the lossy conversion is the identity. *)
Lemma from_utf8_lossy_valid l : utf8_valid l = true -> from_utf8_lossy l = l.
Proof. apply valid_lossy_go. Qed.

Lemma valid_go_ascii l : Forall (fun b => b < 128) l -> valid_go (length l) l = true.
Proof.
  induction 1 as [|b t Hb Ht IH]; [done|]. cbn [valid_go length].
  unfold utf8_step. unfold byte_at at 1. simpl.
  rewrite (proj2 (Z.ltb_lt _ _) Hb). simpl. by rewrite drop_0.
Qed.

(** ASCII text is valid. *)
Lemma utf8_valid_ascii l : Forall (fun b => b < 128) l -> utf8_valid l = true.
Proof. apply valid_go_ascii. Qed.
