(* ===== verification/Decimal.v ===== *)
(** * Decimal numbers of the standard library

    [u64] printed in decimal (as [itoa] and [HeaderValue::from] do) and [str::parse::<u64>],
    which accepts one leading [+] and rejects the empty string, other characters and overflow. *)

From S2P Require Import Prelude.

Definition is_digit (b : Z) : bool := (48 <=? b) && (b <=? 57).

(** Digits from the least significant one; 20 digits hold every [u64]. *)
Fixpoint dec_go (fuel : nat) (n : Z) (acc : bytes) : bytes :=
  match fuel with
  | O => acc
  | S k => if n <? 10 then (48 + n) :: acc else dec_go k (n / 10) ((48 + n mod 10) :: acc)
  end.
Definition decimal (n : Z) : bytes := dec_go 20 n [].

Fixpoint digits_value (acc : Z) (l : bytes) : option Z :=
  match l with
  | [] => Some acc
  | b :: t =>
      if is_digit b
      then m ← checked_mul 64 acc 10; a ← checked_add 64 m (b - 48); digits_value a t
      else None
  end.
Definition parse_u64 (l : bytes) : option Z :=
  match l with
  | [] => None
  | 43 :: t => match t with [] => None | _ => digits_value 0 t end
  | _ => digits_value 0 l
  end.

Lemma digits_value_nonneg acc l n : 0 <= acc -> digits_value acc l = Some n -> 0 <= n.
Proof.
  revert acc. induction l as [|b l IH]; intros acc Ha; cbn [digits_value]; [by intros [= <-]|].
  unfold is_digit. destruct (Z.leb_spec 48 b), (Z.leb_spec b 57); simpl; try done.
  unfold checked_mul, checked_add. repeat (case_match; simpl; [|done]). apply IH. lia.
Qed.
Lemma parse_u64_nonneg l n : parse_u64 l = Some n -> 0 <= n.
Proof. unfold parse_u64. repeat case_match; try done; apply digits_value_nonneg; lia. Qed.

Lemma digits_value_app acc l k :
  digits_value acc (l ++ k) = digits_value acc l ≫= fun a => digits_value a k.
Proof.
  revert acc. induction l as [|b l IH]; intros acc; [done|]. cbn [digits_value app].
  destruct (is_digit b); [|done]. destruct (checked_mul 64 acc 10) as [m|]; [|done]. cbn [mbind option_bind].
  destruct (checked_add 64 m (b - 48)); [apply IH|done].
Qed.

Lemma dec_go_acc fuel n acc : dec_go fuel n acc = dec_go fuel n [] ++ acc.
Proof.
  revert n acc. induction fuel as [|f IH]; intros n acc; [done|]. cbn [dec_go].
  destruct (n <? 10); [done|]. rewrite IH, (IH _ [_]). by rewrite <- app_assoc.
Qed.

Lemma digits_value_one acc d :
  0 <= acc -> 0 <= d < 10 -> acc * 10 + d < 2 ^ 64 -> digits_value acc [48 + d] = Some (acc * 10 + d).
Proof.
  intros Ha Hd Hb. cbn [digits_value]. unfold is_digit, checked_mul, checked_add.
  rewrite (proj2 (Z.leb_le _ _)), (proj2 (Z.leb_le _ _)) by lia. cbn [andb].
  rewrite (proj2 (Z.ltb_lt _ _)) by lia. cbn [mbind option_bind].
  replace (48 + d - 48) with d by lia. by rewrite (proj2 (Z.ltb_lt _ _)) by lia.
Qed.

Lemma digits_value_dec fuel n :
  0 <= n < 10 ^ Z.of_nat fuel -> n < 2 ^ 64 -> digits_value 0 (dec_go fuel n []) = Some n.
Proof.
  revert n. induction fuel as [|f IH]; intros n Hn Hb; [simpl in *; f_equal; lia|]. cbn [dec_go].
  destruct (Z.ltb_spec n 10); [by rewrite digits_value_one by lia|].
  rewrite dec_go_acc, digits_value_app. pose proof (Z.div_mod n 10 ltac:(lia)).
  pose proof (Z.mod_pos_bound n 10 ltac:(lia)).
  rewrite Nat2Z.inj_succ, Z.pow_succ_r in Hn by lia.
  rewrite IH; [|split; [apply Z.div_pos; lia|apply Z.div_lt_upper_bound; lia]|nia].
  cbn [mbind option_bind]. rewrite digits_value_one; [f_equal|..]; lia.
Qed.

Lemma dec_go_head fuel n : (0 < fuel)%nat -> 0 <= n < 10 ^ Z.of_nat fuel ->
  exists d t, dec_go fuel n [] = d :: t /\ is_digit d = true.
Proof.
  revert n. induction fuel as [|f IH]; intros n Hf Hn; [lia|]. cbn [dec_go]. unfold is_digit.
  destruct (Z.ltb_spec n 10); [exists (48 + n), []; split; [done|]; lia|].
  rewrite Nat2Z.inj_succ, Z.pow_succ_r in Hn by lia. rewrite dec_go_acc.
  destruct f as [|f]; [simpl in Hn; lia|].
  destruct (IH (n / 10)) as (d & t & -> & Hd); [lia| |].
  - split; [apply Z.div_pos; lia|apply Z.div_lt_upper_bound; lia].
  - by exists d, (t ++ [48 + n mod 10]).
Qed.

(** A printed number parses back to itself. *)
Lemma parse_decimal n : is_u64 n -> parse_u64 (decimal n) = Some n.
Proof.
  intros [Hn Hb]. unfold decimal.
  assert (H20 : 0 <= n < 10 ^ Z.of_nat 20) by (split; [done|]; eapply Z.lt_trans; [exact Hb|done]).
  destruct (dec_go_head 20 n ltac:(lia) H20) as (d & t & Hd & Hdig).
  pose proof (digits_value_dec 20 n H20 Hb) as Hv. rewrite Hd in *. unfold parse_u64.
  unfold is_digit in Hdig. repeat case_match; done || lia.
Qed.

Lemma dec_go_ok fuel n acc : 0 <= n -> bytes_ok acc -> bytes_ok (dec_go fuel n acc).
Proof.
  revert n acc. induction fuel as [|f IH]; intros n acc Hn Ha; [done|]. cbn [dec_go].
  pose proof (Z.mod_pos_bound n 10 ltac:(lia)).
  destruct (Z.ltb_spec n 10); [|apply IH; [apply Z.div_pos; lia|]];
    (constructor; [unfold fits; change (2 ^ 8) with 256; lia|done]).
Qed.
Lemma dec_go_digits fuel n acc : 0 <= n -> Forall (fun b => 48 <= b <= 57) acc -> Forall (fun b => 48 <= b <= 57) (dec_go fuel n acc).
Proof.
  revert n acc. induction fuel as [|f IH]; intros n acc Hn Ha; [done|]. cbn [dec_go].
  pose proof (Z.mod_pos_bound n 10 ltac:(lia)).
  destruct (Z.ltb_spec n 10); [constructor; [lia|done]|]. apply IH; [apply Z.div_pos; lia|]. constructor; [lia|done].
Qed.
(** A printed number holds digits only. *)
Lemma decimal_digits n : 0 <= n -> Forall (fun b => 48 <= b <= 57) (decimal n).
Proof. intros Hn. apply dec_go_digits; [done|constructor]. Qed.
Lemma decimal_no_byte n c : 0 <= n -> c < 48 -> c ∉ decimal n.
Proof. intros Hn Hc Hin. pose proof (decimal_digits n Hn) as H. rewrite Forall_forall in H. apply H in Hin. lia. Qed.
