(* ===== verification/Http.v ===== *)
(** * What the components use of the [http] crate

    Methods, versions and status codes as far as the sources name them, and the header map:
    the crate is not part of the repository, so the map is an interface (class [HeaderMap]) with
    the operations the components call and the laws its documentation states, and the components'
    theorems hold for every implementation of it.  [assoc_map] is one. *)

From S2P Require Import Prelude.

Inductive Method := GET | POST | PUT | DELETE | HEAD | OPTIONS | CONNECT | PATCH | TRACE | Extension (m : bytes).
#[global] Instance Method_eq_dec : EqDecision Method.
Proof. solve_decision. Defined.

Inductive Version := HTTP_09 | HTTP_10 | HTTP_11 | HTTP_2 | HTTP_3.
#[global] Instance Version_eq_dec : EqDecision Version.
Proof. solve_decision. Defined.

(** Status codes are their numbers. *)
Module StatusCode.
Definition SWITCHING_PROTOCOLS : Z := 101.
Definition OK : Z := 200.
Definition NO_CONTENT : Z := 204.
Definition NOT_MODIFIED : Z := 304.
Definition BAD_REQUEST : Z := 400.
Definition METHOD_NOT_ALLOWED : Z := 405.
Definition TOO_MANY_REQUESTS : Z := 429.
End StatusCode.

(** Visible ASCII, the characters of a header value that [HeaderValue::to_str] accepts. *)
Definition visible (b : Z) : Prop := 32 <= b < 127.

(** Header names are compared after lower-casing: a name is its lower-case spelling. *)
Class HeaderMap := {
  hmap : Type;
  hm_empty : hmap;
  (** [HeaderMap::get_all]: the values of a name in insertion order. *)
  hm_get_all : bytes -> hmap -> list bytes;
  (** [HeaderMap::insert]: the new value replaces all values of the name. *)
  hm_insert : bytes -> bytes -> hmap -> hmap;
  (** [HeaderMap::append]: the new value is added to those of the name. *)
  hm_append : bytes -> bytes -> hmap -> hmap;
  (** [HeaderMap::remove]: takes out all values of the name. *)
  hm_remove : bytes -> hmap -> hmap;
  (** [HeaderMap::is_empty]. *)
  hm_is_empty : hmap -> bool;
  (** [HeaderValue::to_str(..).ok()]. *)
  to_str : bytes -> option bytes;
  (** [HeaderValue::from_bytes(..).ok()]. *)
  from_bytes : bytes -> option bytes;
  hm_get_all_empty k : hm_get_all k hm_empty = [];
  hm_get_all_insert k v m : hm_get_all k (hm_insert k v m) = [v];
  hm_get_all_insert_ne k k' v m : k <> k' -> hm_get_all k' (hm_insert k v m) = hm_get_all k' m;
  hm_get_all_append k v m : hm_get_all k (hm_append k v m) = hm_get_all k m ++ [v];
  hm_get_all_append_ne k k' v m : k <> k' -> hm_get_all k' (hm_append k v m) = hm_get_all k' m;
  hm_get_all_remove k m : hm_get_all k (hm_remove k m) = [];
  hm_get_all_remove_ne k k' m : k <> k' -> hm_get_all k' (hm_remove k m) = hm_get_all k' m;
  hm_is_empty_empty : hm_is_empty hm_empty = true;
  hm_is_empty_spec m : hm_is_empty m = true <-> forall k, hm_get_all k m = [];
  to_str_same v s : to_str v = Some s -> s = v;
  to_str_visible v : Forall visible v -> to_str v = Some v;
  from_bytes_visible v : Forall visible v -> from_bytes v = Some v;
}.

Section HeaderMap.
Context `{H : HeaderMap}.

(** [HeaderMap::get]: the first value of a name. *)
Definition hm_get (k : bytes) (m : hmap) : option bytes := head (hm_get_all k m).

Lemma hm_get_insert k v m : hm_get k (hm_insert k v m) = Some v.
Proof. unfold hm_get. by rewrite hm_get_all_insert. Qed.
Lemma hm_get_insert_ne k k' v m : k <> k' -> hm_get k' (hm_insert k v m) = hm_get k' m.
Proof. intros. unfold hm_get. by rewrite hm_get_all_insert_ne. Qed.
Lemma hm_get_remove_ne k k' m : k <> k' -> hm_get k' (hm_remove k m) = hm_get k' m.
Proof. intros. unfold hm_get. by rewrite hm_get_all_remove_ne. Qed.
Lemma hm_get_append_none k v m : hm_get_all k m = [] -> hm_get k (hm_append k v m) = Some v.
Proof. intros Hm. unfold hm_get. by rewrite hm_get_all_append, Hm. Qed.
Lemma hm_get_append_ne k k' v m : k <> k' -> hm_get k' (hm_append k v m) = hm_get k' m.
Proof. intros. unfold hm_get. by rewrite hm_get_all_append_ne. Qed.
End HeaderMap.

(** An implementation: the list of name/value pairs. *)
Definition visibleb (b : Z) : bool := (32 <=? b) && (b <? 127).
Lemma filter_other_same (k : bytes) (m : list (bytes * bytes)) : filter (fun p => p.1 = k) (filter (fun p => p.1 <> k) m) = [].
Proof.
  induction m as [|p m IH]; [done|]. rewrite (filter_cons (fun p => p.1 <> k)).
  case_decide; [|done]. rewrite filter_cons_False; done.
Qed.
Lemma filter_other_ne (k k' : bytes) (m : list (bytes * bytes)) : k <> k' -> filter (fun p => p.1 = k') (filter (fun p => p.1 <> k) m) = filter (fun p => p.1 = k') m.
Proof.
  intros Hk. induction m as [|p m IH]; [done|].
  rewrite (filter_cons (fun p => p.1 <> k)), !(filter_cons (fun p => p.1 = k')).
  repeat case_decide; rewrite ?filter_cons_True, ?filter_cons_False by done; congruence.
Qed.
Lemma visible_forallb v : Forall visible v -> forallb visibleb v = true.
Proof.
  intros Hv. apply forallb_forall. intros b Hb. rewrite Forall_forall in Hv. specialize (Hv b).
  rewrite list_elem_of_In in Hv. specialize (Hv Hb). unfold visible in Hv. unfold visibleb. lia.
Qed.
#[global] Instance assoc_map : HeaderMap.
Proof.
  refine {| hmap := list (bytes * bytes);
    hm_empty := [];
    hm_get_all := fun k m => snd <$> filter (fun p => p.1 = k) m;
    hm_insert := fun k v m => filter (fun p => p.1 <> k) m ++ [(k, v)];
    hm_append := fun k v m => m ++ [(k, v)];
    hm_remove := fun k m => filter (fun p => p.1 <> k) m;
    hm_is_empty := fun m => match m with [] => true | _ => false end;
    to_str := fun v => if forallb visibleb v then Some v else None;
    from_bytes := fun v => if forallb visibleb v then Some v else None |}.
  - done.
  - intros k v m. by rewrite filter_app, fmap_app, filter_cons_True, filter_other_same.
  - intros k k' v m Hk. rewrite filter_app, fmap_app, (filter_cons_False _ (k, v)) by done.
    simpl. by rewrite app_nil_r, filter_other_ne.
  - intros k v m. by rewrite filter_app, fmap_app, filter_cons_True.
  - intros k k' v m Hk. rewrite filter_app, fmap_app, (filter_cons_False _ (k, v)) by done.
    simpl. by rewrite app_nil_r.
  - intros k m. by rewrite filter_other_same.
  - intros k k' m Hk. by rewrite filter_other_ne.
  - done.
  - intros [|[k v] m]; split; try done. intros H. specialize (H k). by rewrite filter_cons_True in H.
  - intros v s. case_match; by intros [= <-].
  - intros v Hv. by rewrite visible_forallb.
  - intros v Hv. by rewrite visible_forallb.
Defined.

(** Header names, as the [http] crate's constants. *)
Module Hdr.
Definition ALLOW := bs "allow".
Definition CONNECTION := bs "connection".
Definition CONTENT_LENGTH := bs "content-length".
Definition TRANSFER_ENCODING := bs "transfer-encoding".
Definition ACCEPT_ENCODING := bs "accept-encoding".
Definition CONTENT_ENCODING := bs "content-encoding".
Definition DATE := bs "date".
Definition SET_COOKIE := bs "set-cookie".
Definition EXPECT := bs "expect".
Definition UPGRADE := bs "upgrade".
Definition SEC_WEBSOCKET_ACCEPT := bs "sec-websocket-accept".
Definition SEC_WEBSOCKET_KEY := bs "sec-websocket-key".
Definition SEC_WEBSOCKET_VERSION := bs "sec-websocket-version".
Definition FORWARDED := bs "forwarded".
End Hdr.

(** The request and response heads the components read and write. *)
Record RequestHead `{HeaderMap} := mkRequest { method : Method; version : Version; headers : hmap }.
Record Builder `{HeaderMap} := mkBuilder { status : Z; res_headers : hmap }.
