(* ===== verification/WsProto.v ===== *)
(** * WebSocket protocol vocabulary (http-ws/src/proto.rs, error.rs)

    Op codes and close codes with their wire values, close reasons and protocol errors. *)

From S2P Require Import Prelude.

Inductive OpCode := Continue | Text | Binary | Close | Ping | Pong | Bad.
#[global] Instance OpCode_eq_dec : EqDecision OpCode.
Proof. solve_decision. Defined.

(** [impl From<OpCode> for u8]. *)
Definition u8_from_OpCode (op : OpCode) : Z :=
  match op with
  | Continue => 0
  | Text => 1
  | Binary => 2
  | Close => 8
  | Ping => 9
  | Pong => 10
  | Bad => 8
  end.

(** [impl From<u8> for OpCode]. *)
Definition OpCode_from_u8 (b : Z) : OpCode :=
  match b with
  | 0 => Continue
  | 1 => Text
  | 2 => Binary
  | 8 => Close
  | 9 => Ping
  | 10 => Pong
  | _ => Bad
  end.

Inductive CloseCode :=
| CNormal | CAway | CProtocol | CUnsupported | CAbnormal | CInvalid | CPolicy | CSize
| CExtension | CError | CRestart | CAgain | CTls | COther (code : Z).
#[global] Instance CloseCode_eq_dec : EqDecision CloseCode.
Proof. solve_decision. Defined.

(** [impl From<CloseCode> for u16]. *)
Definition u16_from_CloseCode (c : CloseCode) : Z :=
  match c with
  | CNormal => 1000
  | CAway => 1001
  | CProtocol => 1002
  | CUnsupported => 1003
  | CAbnormal => 1006
  | CInvalid => 1007
  | CPolicy => 1008
  | CSize => 1009
  | CExtension => 1010
  | CError => 1011
  | CRestart => 1012
  | CAgain => 1013
  | CTls => 1015
  | COther code => code
  end.

(** [impl From<u16> for CloseCode]. *)
Definition CloseCode_from_u16 (code : Z) : CloseCode :=
  match code with
  | 1000 => CNormal
  | 1001 => CAway
  | 1002 => CProtocol
  | 1003 => CUnsupported
  | 1006 => CAbnormal
  | 1007 => CInvalid
  | 1008 => CPolicy
  | 1009 => CSize
  | 1010 => CExtension
  | 1011 => CError
  | 1012 => CRestart
  | 1013 => CAgain
  | 1015 => CTls
  | _ => COther code
  end.

Record CloseReason := mkCloseReason { code : CloseCode; description : option bytes }.
#[global] Instance CloseReason_eq_dec : EqDecision CloseReason.
Proof. solve_decision. Defined.

(** [impl From<CloseCode> for CloseReason], [impl From<(CloseCode, T)> for CloseReason]. *)
Definition CloseReason_from_code (c : CloseCode) : CloseReason := mkCloseReason c None.
Definition CloseReason_from_pair (info : CloseCode * bytes) : CloseReason :=
  mkCloseReason info.1 (Some info.2).

Inductive ProtocolError :=
| UnmaskedFrame
| MaskedFrame
| InvalidOpcode (b : Z)
| InvalidLength (n : Z)
| BadOpCode
| Overflow
| ContinuationNotStarted
| ContinuationStarted
| ContinuationFragment (op : OpCode)
| Closed.
#[global] Instance ProtocolError_eq_dec : EqDecision ProtocolError.
Proof. solve_decision. Defined.

(** The close codes the wire can carry in canonical form: a named code never travels as [COther]. *)
Definition close_code_canonical (c : CloseCode) : Prop := CloseCode_from_u16 (u16_from_CloseCode c) = c.

(** Every [u16] survives the trip through [CloseCode]. *)
Lemma u16_CloseCode_u16 n : u16_from_CloseCode (CloseCode_from_u16 n) = n.
Proof.
  unfold CloseCode_from_u16.
  repeat match goal with |- context [match ?x with _ => _ end] => destruct x; try reflexivity end.
Qed.

Lemma OpCode_u8_OpCode op : op <> Bad -> OpCode_from_u8 (u8_from_OpCode op) = op.
Proof. by destruct op. Qed.
