(* ===== verification/WsMask.v ===== *)
(** * WebSocket payload masking (http-ws/src/mask.rs)

    The byte loop and the word-at-a-time routine that the frame codec calls.
    [slice::align_to_mut] may cut the buffer anywhere as long as the middle is
    whole words, so the prefix length [p] and the number of words [n] are
    arguments of the model, as is the target's endianness. *)

From S2P Require Import Prelude.

(** *** The code *)

(** [fn apply_mask_fallback]: [*byte ^= mask[i & 3]]. *)
Definition apply_mask_fallback (buf mask : bytes) : bytes :=
  imap (fun i b => Z.lxor b (nth (Nat.land i 3) mask 0)) buf.

(** [u32::from_ne_bytes], [u32::to_ne_bytes]. *)
Definition from_ne_bytes (big : bool) (l : bytes) : Z := if big then be_decode l else le_decode l.
Definition to_ne_bytes (big : bool) (w : Z) : bytes := if big then be_encode 4 w else le_encode 4 w.

(** [u32::rotate_left], [u32::rotate_right]. *)
Definition rotate_left32 (x n : Z) : Z := Z.lor (wrap 32 (Z.shiftl x n)) (Z.shiftr x (32 - n)).
Definition rotate_right32 (x n : Z) : Z := Z.lor (Z.shiftr x n) (wrap 32 (Z.shiftl x (32 - n))).

(** The words of the aligned middle part. *)
Fixpoint chunks4 (n : nat) (l : bytes) : list bytes :=
  match n with O => [] | S k => take 4 l :: chunks4 k (drop 4 l) end.

(** [fn apply_mask_fast32]. *)
Definition apply_mask_fast32 (big : bool) (p n : nat) (buf mask : bytes) : bytes :=
  let mask_u32 := from_ne_bytes big mask in
  let prefix := take p buf in
  let words := from_ne_bytes big <$> chunks4 n (drop p buf) in
  let suffix := drop (p + 4 * n) buf in
  let head := Z.land (len prefix) 3 in
  let mask_u32 :=
    if 0 <? head then
      if big then rotate_left32 mask_u32 (8 * head) else rotate_right32 mask_u32 (8 * head)
    else mask_u32 in
  apply_mask_fallback prefix mask
    ++ concat (to_ne_bytes big <$> ((fun w => Z.lxor w mask_u32) <$> words))
    ++ apply_mask_fallback suffix (to_ne_bytes big mask_u32).

(** [fn apply_mask]: the cut that [align_to_mut] makes is the environment's choice. *)
Definition apply_mask (big : bool) (p n : nat) (buf mask : bytes) : bytes :=
  apply_mask_fast32 big p n buf mask.

(** *** The byte loop, from an offset *)

Definition xor_from (k : nat) (buf mask : bytes) : bytes :=
  imap (fun i b => Z.lxor b (nth ((k + i) mod 4) mask 0)) buf.
Definition rot (k : nat) (mask : bytes) : bytes :=
  (fun i => nth ((k + i) mod 4) mask 0) <$> [0; 1; 2; 3]%nat.

Lemma land3_mod i : Nat.land i 3 = (i mod 4)%nat.
Proof. change 3%nat with (Nat.ones 2). by rewrite Nat.land_ones. Qed.

Lemma fallback_xor_from buf mask : apply_mask_fallback buf mask = xor_from 0 buf mask.
Proof. apply imap_ext. intros. by rewrite land3_mod. Qed.

Lemma xor_from_app k a b mask :
  xor_from k (a ++ b) mask = xor_from k a mask ++ xor_from (k + length a) b mask.
Proof.
  unfold xor_from. rewrite imap_app. f_equal. apply imap_ext. intros. unfold compose.
  by rewrite Nat.add_assoc.
Qed.

Lemma rot_nth k mask i : (i < 4)%nat -> nth i (rot k mask) 0 = nth ((k + i) mod 4) mask 0.
Proof. intros. unfold rot. simpl. by destruct i as [|[|[|[|?]]]]; try lia. Qed.

Lemma xor_from_rot k buf mask : xor_from k buf mask = apply_mask_fallback buf (rot k mask).
Proof.
  unfold xor_from, apply_mask_fallback. apply imap_ext. intros i x _. rewrite land3_mod.
  rewrite rot_nth by (apply Nat.mod_upper_bound; lia).
  f_equal. f_equal. symmetry. rewrite Nat.Div0.add_mod_idemp_r. done.
Qed.

Lemma xor_from_period k buf mask : xor_from k buf mask = xor_from (k mod 4) buf mask.
Proof.
  unfold xor_from. apply imap_ext. intros. do 2 f_equal. by rewrite Nat.Div0.add_mod_idemp_l.
Qed.

Lemma fallback_length buf mask : length (apply_mask_fallback buf mask) = length buf.
Proof. apply length_imap. Qed.

Lemma fallback_ok buf mask :
  bytes_ok buf -> bytes_ok mask -> bytes_ok (apply_mask_fallback buf mask).
Proof.
  intros Hb Hm. apply Forall_lookup_2. intros i x Hx.
  apply list_lookup_imap_Some in Hx as (y & Hy & ->).
  apply lxor_u8; [by eapply Forall_lookup_1 in Hy|].
  destruct (nth_in_or_default (Nat.land i 3) mask 0) as [Hin| ->]; [|done].
  apply list_elem_of_In in Hin. by eapply Forall_forall in Hin.
Qed.

(** *** Words *)

Lemma lxor_add_high a b x y :
  is_u8 a -> is_u8 b -> Z.lxor (a + 256 * x) (b + 256 * y) = Z.lxor a b + 256 * Z.lxor x y.
Proof.
  intros Ha Hb. change 256 with (2 ^ 8). apply Z.bits_inj'. intros i Hi.
  rewrite Z.lxor_spec, !testbit_add_high by (try lia; auto with xitca).
  rewrite !Z.lxor_spec. by destruct (i <? 8).
Qed.

Lemma le_decode_lxor l m :
  bytes_ok l -> bytes_ok m -> length l = length m ->
  Z.lxor (le_decode l) (le_decode m) = le_decode (zip_with Z.lxor l m).
Proof.
  intros Hl. revert m; induction Hl as [|a l Ha Hl IH]; intros [|b m] Hm Hlen; simplify_eq/=; [done|].
  inversion Hm; subst. cbn [le_decode zip_with]. rewrite lxor_add_high, IH by done. done.
Qed.

Lemma le_encode_decode l : bytes_ok l -> le_encode (length l) (le_decode l) = l.
Proof.
  induction 1 as [|b l Hb Hl IH]; [done|]. cbn [le_encode le_decode length].
  unfold fits in Hb. change (2 ^ 8) with 256 in Hb.
  rewrite (Z.mul_comm 256), Z.mod_add, Z.mod_small by lia.
  rewrite Z.div_add, Z.div_small by lia. by rewrite Z.add_0_l, IH.
Qed.

Lemma be_decode_le l : be_decode l = le_decode (rev l).
Proof.
  induction l as [|b l IH] using rev_ind; [done|].
  rewrite be_decode_snoc, IH, rev_app_distr. simpl. lia.
Qed.

Lemma zip_with_rev_lxor l m :
  length l = length m -> zip_with Z.lxor (rev l) (rev m) = rev (zip_with Z.lxor l m).
Proof.
  revert m; induction l as [|a l IH]; intros [|b m] H; simplify_eq/=; [done|].
  rewrite zip_with_app by (by rewrite !length_rev). by rewrite IH.
Qed.

Lemma bytes_ok_rev l : bytes_ok l -> bytes_ok (rev l).
Proof. intros. by apply Forall_rev. Qed.

Lemma from_ne_lxor big l m :
  bytes_ok l -> bytes_ok m -> length l = length m ->
  Z.lxor (from_ne_bytes big l) (from_ne_bytes big m) = from_ne_bytes big (zip_with Z.lxor l m).
Proof.
  intros. destruct big; cbn [from_ne_bytes]; [|by apply le_decode_lxor].
  rewrite !be_decode_le, <- zip_with_rev_lxor by done.
  apply le_decode_lxor; [by apply bytes_ok_rev..|by rewrite !length_rev].
Qed.

Lemma to_from_ne big l : bytes_ok l -> length l = 4%nat -> to_ne_bytes big (from_ne_bytes big l) = l.
Proof.
  intros Hl H4. destruct big; cbn [to_ne_bytes from_ne_bytes]; rewrite <- H4.
  - by apply be_encode_decode.
  - by apply le_encode_decode.
Qed.

(** Rotating a word split at bit [n] swaps its halves. *)
Lemma rotate_right32_split a y n :
  0 < n < 32 -> fits n a -> fits (32 - n) y ->
  rotate_right32 (a + 2 ^ n * y) n = y + 2 ^ (32 - n) * a.
Proof.
  intros Hn Ha Hy. unfold rotate_right32, wrap. unfold fits in Ha.
  assert (Hp : 2 ^ 32 = 2 ^ n * 2 ^ (32 - n)) by (rewrite <- Z.pow_add_r by lia; f_equal; lia).
  rewrite Z.shiftr_div_pow2, (Z.mul_comm (2 ^ n)), Z.div_add, Z.div_small, Z.add_0_l by lia.
  rewrite Z.shiftl_mul_pow2, Z.mul_add_distr_r by lia.
  replace (y * 2 ^ n * 2 ^ (32 - n)) with (y * 2 ^ 32) by (rewrite Hp; ring).
  assert (0 < 2 ^ (32 - n)) by (apply Z.pow_pos_nonneg; lia).
  rewrite Z.mod_add by done. rewrite (Z.mod_small (a * _)) by nia.
  rewrite add_high_lor by (done || lia). by rewrite Z.shiftl_mul_pow2 by lia.
Qed.

Lemma rotate_left32_split a y n :
  0 < n < 32 -> fits (32 - n) y -> fits n a ->
  rotate_left32 (y + 2 ^ (32 - n) * a) n = a + 2 ^ n * y.
Proof.
  intros Hn Hy Ha. pose proof (rotate_right32_split y a (32 - n)) as H.
  unfold rotate_right32 in H. replace (32 - (32 - n)) with n in H by lia.
  rewrite <- H by (done || lia). apply Z.lor_comm.
Qed.

(** The rotation of the mask word is the word of the rotated mask. *)
Lemma rotate_mask (big : bool) mask h :
  bytes_ok mask -> length mask = 4%nat -> (0 < h < 4)%nat ->
  (if big then rotate_left32 (from_ne_bytes big mask) (8 * Z.of_nat h)
   else rotate_right32 (from_ne_bytes big mask) (8 * Z.of_nat h)) = from_ne_bytes big (rot h mask).
Proof.
  intros Hm H4 Hh. destruct mask as [|a [|b [|c [|d [|]]]]]; try done.
  assert (is_u8 a /\ is_u8 b /\ is_u8 c /\ is_u8 d) as (Ha & Hb & Hc & Hd).
  { unfold bytes_ok in Hm. rewrite !Forall_cons in Hm. tauto. }
  unfold fits in *. change (2 ^ 8) with 256 in *.
  destruct h as [|[|[|[|?]]]]; try lia; destruct big; unfold from_ne_bytes, rot, be_decode; simpl.
  - transitivity (a + 2 ^ 8 * (d + 256 * (c + 256 * b))); [|lia].
    rewrite <- rotate_left32_split by (unfold fits; simpl; lia). f_equal. simpl. lia.
  - transitivity (b + 256 * (c + 256 * d) + 2 ^ (32 - 8) * a); [|simpl; lia].
    rewrite <- rotate_right32_split by (unfold fits; simpl; lia). f_equal. simpl. lia.
  - transitivity ((b + 256 * a) + 2 ^ 16 * (d + 256 * c)); [|lia].
    rewrite <- rotate_left32_split by (unfold fits; simpl; lia). f_equal. simpl. lia.
  - transitivity (c + 256 * d + 2 ^ (32 - 16) * (a + 256 * b)); [|simpl; lia].
    rewrite <- rotate_right32_split by (unfold fits; simpl; lia). f_equal. simpl. lia.
  - transitivity ((c + 256 * (b + 256 * a)) + 2 ^ 24 * d); [|lia].
    rewrite <- rotate_left32_split by (unfold fits; simpl; lia). f_equal. simpl. lia.
  - transitivity (d + 2 ^ (32 - 24) * (a + 256 * (b + 256 * c))); [|simpl; lia].
    rewrite <- rotate_right32_split by (unfold fits; simpl; lia). f_equal. simpl. lia.
Qed.

Lemma xor4 mask l :
  length mask = 4%nat -> length l = 4%nat -> apply_mask_fallback l mask = zip_with Z.lxor l mask.
Proof.
  intros Hm Hl. destruct mask as [|? [|? [|? [|? [|]]]]]; try done.
  by destruct l as [|? [|? [|? [|? [|]]]]].
Qed.

Lemma rot_length k mask : length (rot k mask) = 4%nat.
Proof. done. Qed.
Lemma rot_ok k mask : bytes_ok mask -> bytes_ok (rot k mask).
Proof.
  intros Hm. apply Forall_fmap, Forall_true. intros i. unfold compose.
  destruct (nth_in_or_default ((k + i) mod 4) mask 0) as [Hin| ->]; [|done].
  apply list_elem_of_In in Hin. by eapply Forall_forall in Hin.
Qed.
Lemma rot_zero mask : length mask = 4%nat -> rot 0 mask = mask.
Proof. by destruct mask as [|? [|? [|? [|? [|]]]]]. Qed.

(** Masking the words is masking the bytes they hold. *)
Lemma xor_words big mask n l :
  bytes_ok l -> bytes_ok mask -> length mask = 4%nat -> (4 * n <= length l)%nat ->
  concat (to_ne_bytes big <$> ((fun w => Z.lxor w (from_ne_bytes big mask))
                               <$> (from_ne_bytes big <$> chunks4 n l)))
  = apply_mask_fallback (take (4 * n) l) mask.
Proof.
  intros Hl Hm H4. revert l Hl; induction n as [|n IH]; intros l Hl Hn; [done|].
  cbn [chunks4 fmap list_fmap concat].
  assert (Ht : length (take 4 l) = 4%nat) by (rewrite length_take; lia).
  rewrite IH; [|by apply bytes_ok_drop|rewrite length_drop; lia].
  assert (bytes_ok (take 4 l)) by auto with xitca.
  assert (bytes_ok (zip_with Z.lxor (take 4 l) mask))
    by (rewrite <- xor4 by done; by apply fallback_ok).
  rewrite from_ne_lxor by (done || lia).
  rewrite to_from_ne by (try done; rewrite length_zip_with; lia).
  replace (4 * S n)%nat with (4 + 4 * n)%nat by lia.
  rewrite <- take_take_drop, <- (xor4 mask) by done.
  rewrite !fallback_xor_from, xor_from_app, Ht. f_equal. by rewrite (xor_from_period (0 + 4)).
Qed.

Lemma land3_mod_Z n : Z.land (Z.of_nat n) 3 = Z.of_nat (n mod 4).
Proof. change 3 with (Z.ones 2). rewrite Z.land_ones by lia. by rewrite Nat2Z.inj_mod. Qed.

Lemma rot_period (k k' : nat) mask : (k mod 4 = k' mod 4)%nat -> rot k mask = rot k' mask.
Proof.
  intros H. unfold rot. apply list_fmap_ext. intros i x _.
  by rewrite <- Nat.Div0.add_mod_idemp_l, H, Nat.Div0.add_mod_idemp_l.
Qed.

(** The mask word the routine uses after an unaligned prefix of [p] bytes. *)
Lemma rotated_mask_word (big : bool) (p : nat) mask :
  bytes_ok mask -> length mask = 4%nat ->
  (if 0 <? Z.land (Z.of_nat p) 3
   then if big then rotate_left32 (from_ne_bytes big mask) (8 * Z.land (Z.of_nat p) 3)
        else rotate_right32 (from_ne_bytes big mask) (8 * Z.land (Z.of_nat p) 3)
   else from_ne_bytes big mask) = from_ne_bytes big (rot p mask).
Proof.
  intros Hm H4. rewrite land3_mod_Z, (rot_period p (p mod 4)) by (by rewrite Nat.Div0.mod_mod).
  pose proof (Nat.mod_upper_bound p 4).
  destruct (Z.ltb_spec 0 (Z.of_nat (p mod 4))) as [Hh|Hh].
  - apply rotate_mask; [done|done|lia].
  - replace (p mod 4)%nat with 0%nat by lia. by rewrite rot_zero.
Qed.

(** The word-at-a-time routine is the byte loop. *)
Lemma apply_mask_spec big p n buf mask :
  bytes_ok buf -> bytes_ok mask -> length mask = 4%nat -> (p + 4 * n <= length buf)%nat ->
  apply_mask big p n buf mask = apply_mask_fallback buf mask.
Proof.
  intros Hb Hm H4 Hpn. unfold apply_mask, apply_mask_fast32.
  assert (Hlp : length (take p buf) = p) by (rewrite length_take; lia).
  unfold len. rewrite Hlp, rotated_mask_word by done.
  rewrite xor_words, to_from_ne by
    (try (by apply bytes_ok_drop); try (by apply rot_ok); try done; rewrite length_drop; lia).
  rewrite <- (take_drop p buf) at 4. rewrite <- (take_drop (4 * n) (drop p buf)) at 2.
  rewrite drop_drop, !(fallback_xor_from _ mask), !xor_from_app, Hlp, length_take, length_drop.
  rewrite !(xor_from_rot _ (take (4 * n) _)), !(xor_from_rot _ (drop _ _)). do 3 f_equal.
  apply rot_period. rewrite Nat.min_l by lia.
  replace (0 + p + 4 * n)%nat with (p + n * 4)%nat by lia. by rewrite Nat.Div0.mod_add.
Qed.

(** Masking twice with the same key is the identity. *)
Lemma fallback_involutive buf mask : apply_mask_fallback (apply_mask_fallback buf mask) mask = buf.
Proof.
  apply list_eq. intros i. unfold apply_mask_fallback. rewrite !list_lookup_imap.
  destruct (buf !! i) as [b|]; simpl; [|done].
  by rewrite Z.lxor_assoc, Z.lxor_nilpotent, Z.lxor_0_r.
Qed.

(** *** Properties *)

(** C28: the word-at-a-time masking routine computes, for either endianness and
    for every cut of the buffer into an unaligned prefix, whole words and a
    suffix, exactly what the byte loop computes; in particular applying it twice,
    under two unrelated cuts and endiannesses, restores the buffer. *)
Theorem ws_mask_fast32_is_byte_loop big p n buf mask :
  bytes_ok buf -> bytes_ok mask -> length mask = 4%nat -> (p + 4 * n <= length buf)%nat ->
  apply_mask big p n buf mask = apply_mask_fallback buf mask /\
  forall big' p' n', (p' + 4 * n' <= length buf)%nat ->
    apply_mask big' p' n' (apply_mask big p n buf mask) mask = buf.
Proof.
  intros Hb Hm H4 Hpn. rewrite apply_mask_spec by done. split; [done|]. intros big' p' n' Hpn'.
  rewrite apply_mask_spec; [apply fallback_involutive|by apply fallback_ok|done|done|].
  by rewrite fallback_length.
Qed.

Lemma ws_mask_fast32_is_byte_loop_witness :
  apply_mask false 1 1 [1; 2; 3; 4; 5; 6; 7] [109; 182; 178; 128]
  = apply_mask_fallback [1; 2; 3; 4; 5; 6; 7] [109; 182; 178; 128].
Proof.
  apply (ws_mask_fast32_is_byte_loop false 1 1 [1; 2; 3; 4; 5; 6; 7] [109; 182; 178; 128]);
    [apply (bool_decide_unpack _); vm_compute; exact I..|reflexivity|simpl; lia].
Defined.
