(* ===== verification/WsFrame.v ===== *)
(** * WebSocket frames (http-ws/src/frame.rs)

    The frame parser and writer over byte buffers.  [BytesMut] is the list of
    the bytes it holds; [parse] threads the source buffer through the [M] monad,
    so the bytes left in it are part of its result on every path.  [usize] is
    64 bits wide. *)

From S2P Require Import Prelude Utf8 WsProto WsMask.

(** What the masking routine relies on: the platform's endianness and the cut
    [align_to_mut] makes of a buffer, which covers no more than the buffer. *)
Class Platform := {
  big_endian : bool;
  align_cut : bytes -> nat * nat;
  align_cut_fits : forall l, ((align_cut l).1 + 4 * (align_cut l).2 <= length l)%nat;
}.

(** A little-endian machine whose buffers are word-aligned. *)
#[global] Instance aligned_le : Platform.
Proof.
  refine {| big_endian := false; align_cut := fun l => (0%nat, (length l / 4)%nat) |}.
  intros l. cbn [fst snd]. pose proof (Nat.Div0.mul_div_le (length l) 4). lia.
Defined.

Section Frame.
Context `{P : Platform}.

Definition mask_bytes (buf mask : bytes) : bytes :=
  apply_mask big_endian (align_cut buf).1 (align_cut buf).2 buf mask.

(** [type MetaData]. *)
Definition MetaData : Type := Z * bool * OpCode * Z * option bytes.

(** The payload length field: [None] when more bytes are needed, otherwise the index after
    the field and the length. *)
Definition parse_length (src : bytes) (max_size : Z) (len7 : Z) :
  outcome ProtocolError (option (Z * Z)) :=
  let idx := 2 in
  if len7 =? 126 then
    if len src <? 4 then Ok None
    else s ← unwrap (slice idx (idx + 2) src); Ok (Some (idx + 2, be_decode s))
  else if len7 =? 127 then
    if len src <? 10 then Ok None
    else
      s ← unwrap (slice idx (idx + 8) src);
      if max_size <? be_decode s then Err Overflow else Ok (Some (idx + 8, be_decode s))
  else Ok (Some (idx, len7)).

(** [Parser::parse_metadata]. *)
Definition parse_metadata (src : bytes) (server : bool) (max_size : Z) :
  outcome ProtocolError (option MetaData) :=
  let chunk_len := len src in
  if chunk_len <? 2 then Ok None
  else
    first ← unwrap (src !! 0%nat);
    second ← unwrap (src !! 1%nat);
    let finished := negb (Z.land first 128 =? 0) in
    let masked := negb (Z.land second 128 =? 0) in
    if negb masked && server then Err UnmaskedFrame
    else if masked && negb server then Err MaskedFrame
    else
      let opcode := OpCode_from_u8 (Z.land first 15) in
      if bool_decide (opcode = Bad) then Err (InvalidOpcode (Z.land first 15))
      else
        r ← parse_length src max_size (Z.land second 127);
        match r with
        | None => Ok None
        | Some (idx, length) =>
            if max_size <? length then Err Overflow
            else if server then
              if chunk_len <? idx + 4 then Ok None
              else
                mask ← unwrap (slice idx (idx + 4) src);
                Ok (Some (idx + 4, finished, opcode, length, Some mask))
            else Ok (Some (idx, finished, opcode, length, None))
        end.

Definition Frame : Type := bool * OpCode * option bytes.

(** [Parser::parse]. *)
Definition parse (server : bool) (max_size : Z) : M bytes ProtocolError (option Frame) :=
  src ← get;
  md ← lift (parse_metadata src server max_size);
  match md with
  | None => mret None
  | Some (idx, finished, opcode, length, mask) =>
      total ← lift (add_chk 64 idx length);
      if len src <? total then mret None
      else
        _ ← m_advance idx;
        if length =? 0 then mret (Some (finished, opcode, None))
        else
          data ← m_split_to length;
          match opcode with
          | Ping | Pong =>
              if 125 <? length then fail (InvalidLength length)
              else mret (Some (finished, opcode, Some (from_option (mask_bytes data) data mask)))
          | Close =>
              if 125 <? length then mret (Some (true, Close, None))
              else mret (Some (finished, opcode, Some (from_option (mask_bytes data) data mask)))
          | _ => mret (Some (finished, opcode, Some (from_option (mask_bytes data) data mask)))
          end
  end.

(** [Parser::parse_close_payload]. *)
Definition parse_close_payload (payload : bytes) : option CloseReason :=
  if 2 <=? len payload then
    Some (mkCloseReason (CloseCode_from_u16 (be_decode (take 2 payload)))
            (if 2 <? len payload then Some (from_utf8_lossy (drop 2 payload)) else None))
  else None.

(** [Parser::write_message]; [rnd] is what [rand::random::<[u8; 4]>()] returns. *)
Definition write_message (rnd dst pl : bytes) (op : OpCode) (fin mask : bool) : bytes :=
  let one := if fin then Z.lor 128 (u8_from_OpCode op) else u8_from_OpCode op in
  let length := len pl in
  let two := if mask then 128 else 0 in
  let dst :=
    if length <? 126 then dst ++ [one; Z.lor two (wrap 8 length)]
    else if length <=? 65535 then dst ++ [one; Z.lor two 126] ++ be_encode 2 (wrap 16 length)
    else dst ++ [one; Z.lor two 127] ++ be_encode 8 length in
  if mask then
    let dst := dst ++ rnd ++ pl in
    let pos := Z.to_nat (len dst - length) in
    take pos dst ++ mask_bytes (drop pos dst) rnd
  else dst ++ pl.

(** [Parser::write_close]. *)
Definition close_payload (reason : option CloseReason) : bytes :=
  match reason with
  | Some r => be_encode 2 (u16_from_CloseCode (code r)) ++ default [] (description r)
  | None => []
  end.
Definition write_close (rnd dst : bytes) (reason : option CloseReason) (mask : bool) : bytes :=
  write_message rnd dst (close_payload reason) Close true mask.

(** *** The shape of a written frame *)

Definition len_field (n : Z) : Z := if n <? 126 then n else if n <=? 65535 then 126 else 127.
Definition len_ext (n : Z) : bytes :=
  if n <? 126 then [] else if n <=? 65535 then be_encode 2 n else be_encode 8 n.
Definition first_byte (op : OpCode) (fin : bool) : Z :=
  if fin then Z.lor 128 (u8_from_OpCode op) else u8_from_OpCode op.
Definition second_byte (n : Z) (mask : bool) : Z := Z.lor (if mask then 128 else 0) (len_field n).
Definition frame_body (rnd pl : bytes) (mask : bool) : bytes :=
  if mask then rnd ++ apply_mask_fallback pl rnd else pl.

Lemma mask_bytes_fallback buf mask :
  bytes_ok buf -> bytes_ok mask -> length mask = 4%nat ->
  mask_bytes buf mask = apply_mask_fallback buf mask.
Proof. intros. apply apply_mask_spec; try done. apply align_cut_fits. Qed.

Lemma write_message_shape rnd dst pl op fin mask :
  bytes_ok rnd -> length rnd = 4%nat -> bytes_ok pl -> len pl < 2 ^ 64 ->
  write_message rnd dst pl op fin mask
  = dst ++ [first_byte op fin; second_byte (len pl) mask] ++ len_ext (len pl)
        ++ frame_body rnd pl mask.
Proof.
  intros Hr Hr4 Hp Hlen. pose proof (len_nonneg pl). unfold write_message.
  set (d := if len pl <? 126 then _ else _).
  assert (Hd : d = dst ++ [first_byte op fin; second_byte (len pl) mask] ++ len_ext (len pl)).
  { unfold d, second_byte, len_field, len_ext, wrap.
    destruct (Z.ltb_spec (len pl) 126); [by rewrite Z.mod_small by lia|].
    destruct (Z.leb_spec (len pl) 65535); [by rewrite Z.mod_small by lia|done]. }
  clearbody d. unfold frame_body.
  transitivity (d ++ (if mask then rnd ++ apply_mask_fallback pl rnd else pl));
    [|by rewrite Hd, <- !app_assoc].
  destruct mask; [|done]. replace (Z.to_nat _) with (length (d ++ rnd)).
  - rewrite !app_assoc, take_app_length, drop_app_length. by rewrite mask_bytes_fallback.
  - rewrite !len_app. unfold len. rewrite !length_app. lia.
Qed.

Lemma first_byte_fin op fin : negb (Z.land (first_byte op fin) 128 =? 0) = fin.
Proof. by destruct op, fin. Qed.
Lemma first_byte_op op fin : op <> Bad -> OpCode_from_u8 (Z.land (first_byte op fin) 15) = op.
Proof. by destruct op, fin. Qed.

Lemma len_field_bound n : 0 <= n -> 0 <= len_field n < 128.
Proof. intros. unfold len_field. zb. Qed.
Lemma second_byte_add n mask :
  0 <= n -> second_byte n mask = len_field n + 2 ^ 7 * (if mask then 1 else 0).
Proof.
  intros Hn. pose proof (len_field_bound n Hn). rewrite add_high_lor by (unfold fits; simpl; lia).
  unfold second_byte. rewrite Z.lor_comm. by destruct mask.
Qed.
Lemma first_byte_ok op fin : is_u8 (first_byte op fin).
Proof. destruct op, fin; split; vm_compute; congruence. Qed.
Lemma second_byte_ok n mask : 0 <= n -> is_u8 (second_byte n mask).
Proof.
  intros Hn. rewrite second_byte_add by done. pose proof (len_field_bound n Hn).
  unfold fits. change (2 ^ 8) with 256. change (2 ^ 7) with 128. destruct mask; lia.
Qed.
Lemma second_byte_mask n mask : 0 <= n -> negb (Z.land (second_byte n mask) 128 =? 0) = mask.
Proof.
  intros Hn. pose proof (len_field_bound n Hn). rewrite second_byte_add by done.
  change 128 with (2 ^ 7). rewrite land_pow2_testbit, negb_involutive by lia.
  rewrite testbit_add_high by (unfold fits; simpl; lia). by destruct mask.
Qed.
Lemma second_byte_len n mask : 0 <= n -> Z.land (second_byte n mask) 127 = len_field n.
Proof.
  intros Hn. pose proof (len_field_bound n Hn). rewrite second_byte_add by done.
  change 127 with (Z.ones 7). rewrite Z.land_ones by lia.
  rewrite (Z.mul_comm (2 ^ 7)), Z.mod_add by done. by apply Z.mod_small.
Qed.

Lemma parse_length_written n f s tail max_size :
  0 <= n < 2 ^ 64 -> n <= max_size ->
  parse_length (f :: s :: len_ext n ++ tail) max_size (len_field n)
  = Ok (Some (2 + len (len_ext n), n)).
Proof.
  intros Hn Hm. pose proof (len_nonneg tail). unfold parse_length, len_field, len_ext.
  destruct (Z.ltb_spec n 126) as [H1|H1].
  { rewrite !(proj2 (Z.eqb_neq _ _)) by lia. done. }
  destruct (Z.leb_spec n 65535) as [H2|H2]; simpl (_ =? _); cbn [negb].
  - rewrite (proj2 (Z.ltb_ge _ _)) by (rewrite !len_cons, len_app; unfold len at 1; rewrite be_encode_length; lia).
    change (f :: s :: be_encode 2 n ++ tail) with ([f; s] ++ be_encode 2 n ++ tail).
    rewrite (slice_app_mid [f; s]) by (unfold len; rewrite ?be_encode_length; done).
    cbn [unwrap mbind outcome_bind]. rewrite be_decode_encode_small by (simpl; lia).
    unfold len. by rewrite be_encode_length.
  - rewrite (proj2 (Z.ltb_ge _ _)) by (rewrite !len_cons, len_app; unfold len at 1; rewrite be_encode_length; lia).
    change (f :: s :: be_encode 8 n ++ tail) with ([f; s] ++ be_encode 8 n ++ tail).
    rewrite (slice_app_mid [f; s]) by (unfold len; rewrite ?be_encode_length; done).
    cbn [unwrap mbind outcome_bind]. rewrite be_decode_encode_small by (simpl; lia).
    rewrite (proj2 (Z.ltb_ge max_size n)) by lia. unfold len. by rewrite be_encode_length.
Qed.

(** The header of a frame: its first two bytes, the extended length and the mask key. *)
Definition frame_header (rnd : bytes) (n : Z) (op : OpCode) (fin mask : bool) : bytes :=
  [first_byte op fin; second_byte n mask] ++ len_ext n ++ (if mask then rnd else []).

Lemma frame_header_len rnd n op fin mask :
  length rnd = 4%nat -> len (frame_header rnd n op fin mask) <= 14.
Proof.
  intros Hr. unfold frame_header, len_ext, len. rewrite !length_app.
  repeat case_match; rewrite ?be_encode_length; simpl length; lia.
Qed.

Lemma parse_metadata_written rnd n op fin mask tail max_size :
  length rnd = 4%nat -> op <> Bad -> 0 <= n < 2 ^ 64 -> n <= max_size ->
  parse_metadata (frame_header rnd n op fin mask ++ tail) mask max_size
  = Ok (Some (len (frame_header rnd n op fin mask), fin, op, n, if mask then Some rnd else None)).
Proof.
  intros Hr Hop Hn Hm. unfold frame_header. rewrite <- !app_assoc.
  unfold parse_metadata. cbn [app]. rewrite !len_cons.
  pose proof (len_nonneg (len_ext n ++ (if mask then rnd else []) ++ tail)).
  rewrite (proj2 (Z.ltb_ge _ _)) by lia. cbn [lookup list_lookup unwrap mbind outcome_bind].
  rewrite first_byte_fin, second_byte_mask, second_byte_len by lia.
  rewrite first_byte_op by done. rewrite (bool_decide_eq_false_2 (op = Bad)) by done.
  rewrite parse_length_written by lia. cbn [mbind outcome_bind].
  rewrite (proj2 (Z.ltb_ge max_size n)) by lia.
  destruct mask; simpl negb; cbn [andb]; [|by rewrite app_nil_r; do 6 f_equal; unfold len; simpl; lia].
  assert (Hr' : len rnd = 4) by (unfold len; lia). pose proof (len_nonneg tail).
  rewrite (proj2 (Z.ltb_ge _ _)) by (rewrite !len_app; lia).
  change (first_byte op fin :: second_byte n true :: len_ext n ++ rnd ++ tail)
    with (([first_byte op fin; second_byte n true] ++ len_ext n) ++ rnd ++ tail).
  rewrite slice_app_mid by (autorewrite with len; lia). cbn [unwrap mbind outcome_bind].
  do 6 f_equal. autorewrite with len. lia.
Qed.

(** *** Every input *)

Lemma parse_length_cases src max_size l :
  0 <= l < 128 -> 2 <= len src -> bytes_ok src ->
  match parse_length src max_size l with
  | Ok (Some (idx, n)) => 2 <= idx <= 10 /\ idx <= len src /\ 0 <= n /\
      forall more, parse_length (src ++ more) max_size l = Ok (Some (idx, n))
  | Ok None => True
  | Err e => forall more, parse_length (src ++ more) max_size l = Err e
  | Panic => False
  end.
Proof.
  intros Hl H2 Hok. unfold parse_length.
  destruct (Z.eqb_spec l 126) as [->|H126].
  { destruct (Z.ltb_spec (len src) 4) as [?|H4]; [done|].
    destruct (slice_in_range src 2 4) as [s Hs]; [lia..|].
    change (2 + 2) with 4. rewrite Hs. cbn [unwrap mbind outcome_bind].
    pose proof (be_decode_bound s (slice_ok _ _ _ _ Hs Hok)). repeat split; try lia.
    intros more. pose proof (len_nonneg more). rewrite len_app.
    rewrite (proj2 (Z.ltb_ge _ _)) by lia. by rewrite (slice_app_l _ _ _ _ _ Hs). }
  destruct (Z.eqb_spec l 127) as [->|H127].
  { destruct (Z.ltb_spec (len src) 10) as [?|H10]; [done|].
    destruct (slice_in_range src 2 10) as [s Hs]; [lia..|].
    change (2 + 8) with 10. rewrite Hs. cbn [unwrap mbind outcome_bind].
    pose proof (be_decode_bound s (slice_ok _ _ _ _ Hs Hok)).
    assert (Happ : forall more, (len (src ++ more) <? 10) = false).
    { intros more. pose proof (len_nonneg more). rewrite len_app. apply Z.ltb_ge. lia. }
    destruct (Z.ltb_spec max_size (be_decode s)); repeat split; try lia; intros more;
      rewrite Happ, (slice_app_l _ _ _ _ _ Hs); cbn [unwrap mbind outcome_bind].
    - by rewrite (proj2 (Z.ltb_lt _ _)).
    - by rewrite (proj2 (Z.ltb_ge _ _)). }
  repeat split; lia.
Qed.

Lemma land_mask7 z : 0 <= Z.land z 127 < 128.
Proof. change 127 with (Z.ones 7). rewrite Z.land_ones by lia. apply Z.mod_pos_bound. lia. Qed.

Lemma parse_metadata_cases src server max_size :
  bytes_ok src ->
  match parse_metadata src server max_size with
  | Ok (Some (idx, fin, op, n, m)) =>
      2 <= idx <= 14 /\ idx <= len src /\ op <> Bad /\ 0 <= n <= max_size /\
      (if server then exists k, m = Some k /\ length k = 4%nat /\ bytes_ok k else m = None) /\
      forall more, parse_metadata (src ++ more) server max_size = Ok (Some (idx, fin, op, n, m))
  | Ok None => True
  | Err e => forall more, parse_metadata (src ++ more) server max_size = Err e
  | Panic => False
  end.
Proof.
  intros Hok. destruct src as [|a [|b t]]; [done..|].
  pose proof (len_nonneg t) as Ht. unfold parse_metadata.
  assert (Hsmall : forall more, (len ((a :: b :: t) ++ more) <? 2) = false).
  { intros. apply Z.ltb_ge. pose proof (len_nonneg more). autorewrite with len. lia. }
  pose proof (Hsmall []) as H0. rewrite app_nil_r in H0. rewrite H0.
  cbn [lookup list_lookup unwrap mbind outcome_bind app] in *.
  destruct (negb (negb (Z.land b 128 =? 0)) && server) eqn:E1; [intros more; by rewrite Hsmall|].
  destruct (negb (Z.land b 128 =? 0) && negb server) eqn:E2; [intros more; by rewrite Hsmall|].
  case_bool_decide as E3; [intros more; by rewrite Hsmall|].
  pose proof (parse_length_cases (a :: b :: t) max_size (Z.land b 127) (land_mask7 b)) as Hpl.
  specialize (Hpl ltac:(autorewrite with len; lia) Hok).
  destruct (parse_length _ _ _) as [[[idx n]|]|e|] eqn:EL; cbn [mbind outcome_bind]; try done;
    [|intros more; rewrite Hsmall; cbn [app] in Hpl; by rewrite Hpl].
  destruct Hpl as (Hidx & Hle & Hn & Hpl). cbn [app] in Hpl.
  destruct (Z.ltb_spec max_size n) as [Hx|Hx].
  { intros more. rewrite Hsmall, Hpl. cbn [mbind outcome_bind].
    by rewrite (proj2 (Z.ltb_lt max_size n)). }
  destruct server.
  - destruct (Z.ltb_spec (len (a :: b :: t)) (idx + 4)) as [?|H4]; [done|].
    destruct (slice_in_range (a :: b :: t) idx (idx + 4)) as [k Hk]; [lia..|].
    rewrite Hk. cbn [unwrap mbind outcome_bind]. destruct (slice_Some _ _ _ _ Hk) as (_ & _ & Hkl & _).
    repeat split; try lia; try done.
    + exists k. repeat split; [unfold len in Hkl; lia|by eapply slice_ok].
    + intros more. rewrite Hsmall, Hpl. cbn [mbind outcome_bind].
      rewrite (proj2 (Z.ltb_ge max_size n)) by lia. pose proof (len_nonneg more).
      pose proof (len_app (a :: b :: t) more) as Hla. cbn [app] in Hla. rewrite Hla.
      rewrite (proj2 (Z.ltb_ge _ _)) by lia.
      pose proof (slice_app_l _ more _ _ _ Hk) as Hs. cbn [app] in Hs. by rewrite Hs.
  - repeat split; try lia; try done. intros more. rewrite Hsmall, Hpl. cbn [mbind outcome_bind].
    by rewrite (proj2 (Z.ltb_ge max_size n)) by lia.
Qed.

(** What [parse] returns once the whole frame is in the buffer. *)
Definition frame_result (fin : bool) (op : OpCode) (data : bytes) (m : option bytes) :
  outcome ProtocolError (option Frame) :=
  let whole := Ok (Some (fin, op, Some (from_option (mask_bytes data) data m))) in
  if decide (data = []) then Ok (Some (fin, op, None))
  else match op with
       | Ping | Pong => if 125 <? len data then Err (InvalidLength (len data)) else whole
       | Close => if 125 <? len data then Ok (Some (true, Close, None)) else whole
       | _ => whole
       end.

Lemma parse_complete server max_size hdr data rest fin op n m :
  parse_metadata (hdr ++ data ++ rest) server max_size = Ok (Some (len hdr, fin, op, n, m)) ->
  len data = n -> len hdr + n < 2 ^ 64 ->
  parse server max_size (hdr ++ data ++ rest) = (rest, frame_result fin op data m).
Proof.
  intros Hmd <- H64. pose proof (len_nonneg rest). unfold parse, get, lift.
  unfold mbind at 1, M_bind at 1. unfold mbind at 1, M_bind at 1. rewrite Hmd.
  unfold mbind at 1, M_bind at 1. unfold add_chk. rewrite (proj2 (Z.ltb_lt _ _)) by lia.
  rewrite !len_app, (proj2 (Z.ltb_ge _ _)) by lia.
  unfold mbind at 1, M_bind at 1. rewrite m_advance_app by done. unfold frame_result.
  destruct (decide (data = [])) as [->|Hne]; [done|].
  rewrite (proj2 (Z.eqb_neq _ _)) by (intros ?%len_zero_nil; done).
  unfold mbind at 1, M_bind at 1. rewrite m_split_to_app by done.
  by destruct op; try done; destruct (125 <? len data).
Qed.

Definition is_control (op : OpCode) : bool := match op with Ping | Pong | Close => true | _ => false end.

(** A written frame is its header followed by its (masked) payload. *)
Definition sent_payload (rnd pl : bytes) (mask : bool) : bytes :=
  if mask then apply_mask_fallback pl rnd else pl.

Lemma sent_payload_len rnd pl mask : len (sent_payload rnd pl mask) = len pl.
Proof. unfold sent_payload, len. destruct mask; by rewrite ?fallback_length. Qed.

Lemma write_message_split rnd dst pl op fin mask :
  bytes_ok rnd -> length rnd = 4%nat -> bytes_ok pl -> len pl < 2 ^ 64 ->
  write_message rnd dst pl op fin mask
  = dst ++ frame_header rnd (len pl) op fin mask ++ sent_payload rnd pl mask.
Proof.
  intros. rewrite write_message_shape by done. unfold frame_header, frame_body, sent_payload.
  destruct mask; by rewrite <- !app_assoc.
Qed.

Lemma write_message_ok rnd pl op fin mask :
  bytes_ok rnd -> length rnd = 4%nat -> bytes_ok pl -> len pl < 2 ^ 64 ->
  bytes_ok (write_message rnd [] pl op fin mask).
Proof.
  intros. rewrite write_message_split by done. pose proof (len_nonneg pl).
  unfold frame_header. rewrite !bytes_ok_app. split_and!.
  - constructor.
  - constructor; [apply first_byte_ok|]. constructor; [by apply second_byte_ok|constructor].
  - unfold len_ext. repeat case_match; try apply be_encode_ok. constructor.
  - destruct mask; [done|constructor].
  - unfold sent_payload. destruct mask; [by apply fallback_ok|done].
Qed.

Lemma unmask_sent rnd pl mask :
  bytes_ok rnd -> length rnd = 4%nat -> bytes_ok pl ->
  from_option (mask_bytes (sent_payload rnd pl mask)) (sent_payload rnd pl mask)
    (if mask then Some rnd else None) = pl.
Proof.
  intros. destruct mask; [|done]. simpl.
  rewrite mask_bytes_fallback by (try apply fallback_ok; done). apply fallback_involutive.
Qed.

Lemma parse_written rnd pl op fin mask rest max_size :
  bytes_ok rnd -> length rnd = 4%nat -> bytes_ok pl -> op <> Bad ->
  len pl <= max_size -> len pl + 14 < 2 ^ 64 ->
  parse mask max_size (write_message rnd [] pl op fin mask ++ rest)
  = (rest, frame_result fin op (sent_payload rnd pl mask) (if mask then Some rnd else None)).
Proof.
  intros Hr Hr4 Hpl Hop Hmax H64. pose proof (len_nonneg pl).
  rewrite write_message_split, app_nil_l, <- app_assoc by (done || lia).
  pose proof (frame_header_len rnd (len pl) op fin mask Hr4).
  apply (parse_complete _ _ _ _ _ _ _ (len pl));
    [apply parse_metadata_written; done || lia|apply sent_payload_len|lia].
Qed.

(** Parsing a written frame gives the frame back and leaves what follows it. *)
Lemma frame_result_written rnd pl op fin mask :
  bytes_ok rnd -> length rnd = 4%nat -> bytes_ok pl ->
  (is_control op = true -> len pl <= 125) ->
  frame_result fin op (sent_payload rnd pl mask) (if mask then Some rnd else None)
  = Ok (Some (fin, op, if decide (pl = []) then None else Some pl)).
Proof.
  intros Hr Hr4 Hpl Hctl. unfold frame_result. rewrite unmask_sent, sent_payload_len by done.
  assert (Hnil : sent_payload rnd pl mask = [] <-> pl = []).
  { pose proof (sent_payload_len rnd pl mask) as Hl. split; intros H; apply len_zero_nil.
    - by rewrite <- Hl, H.
    - by rewrite Hl, H. }
  repeat case_decide; try (by exfalso; tauto); try done.
  destruct op; try done; rewrite (proj2 (Z.ltb_ge _ _)) by (by apply Hctl); done.
Qed.

Lemma parse_short server max_size src :
  match parse_metadata src server max_size with
  | Ok (Some (idx, _, _, n, _)) => idx + n < 2 ^ 64 -> len src < idx + n ->
      parse server max_size src = (src, Ok None)
  | Ok None => parse server max_size src = (src, Ok None)
  | Err e => parse server max_size src = (src, Err e)
  | Panic => parse server max_size src = (src, Panic)
  end.
Proof.
  destruct (parse_metadata src server max_size) as [[[[[[idx fin] op] n] m]|]|e|] eqn:E;
    try (by unfold parse, mbind, M_bind, get, lift; rewrite E).
  intros H64 Hlt. unfold parse, get, lift.
  unfold mbind at 1, M_bind at 1. unfold mbind at 1, M_bind at 1. rewrite E.
  unfold mbind at 1, M_bind at 1. unfold add_chk. rewrite (proj2 (Z.ltb_lt _ _)) by lia.
  by rewrite (proj2 (Z.ltb_lt _ _)) by lia.
Qed.

(** What the codec may assume of a frame it is handed. *)
Definition frame_ok (max_size : Z) (f : Frame) : Prop :=
  let '(_, op, pl) := f in
  op <> Bad /\
  match pl with
  | None => True
  | Some d => 0 < len d <= max_size /\ bytes_ok d /\ (is_control op = true -> len d <= 125)
  end.

Lemma frame_result_ok max_size fin op data m :
  op <> Bad -> len data <= max_size -> bytes_ok data ->
  match m with Some k => length k = 4%nat /\ bytes_ok k | None => True end ->
  match frame_result fin op data m with
  | Ok (Some f) => frame_ok max_size f
  | Ok None | Panic => False
  | Err _ => True
  end.
Proof.
  intros Hop Hlen Hok Hm. unfold frame_result. destruct (decide (data = [])) as [->|Hne]; [done|].
  assert (Hl : 0 < len data).
  { pose proof (len_nonneg data). destruct (Z.eq_dec (len data) 0) as [?%len_zero_nil|]; [done|lia]. }
  assert (Hun : len (from_option (mask_bytes data) data m) = len data
                /\ bytes_ok (from_option (mask_bytes data) data m)).
  { destruct m as [k|]; simpl; [|done]. destruct Hm. rewrite mask_bytes_fallback by done.
    split; [unfold len; by rewrite fallback_length|by apply fallback_ok]. }
  destruct Hun as [Hul Huo].
  destruct op; try done; try destruct (Z.ltb_spec 125 (len data)); try done;
    repeat split; simpl; rewrite ?Hul; try done; lia.
Qed.

(** [parse] on every input: it never panics, it leaves a suffix of the buffer, an incomplete
    frame leaves the buffer untouched, and its verdict does not change when more bytes arrive. *)
Lemma parse_cases server max_size src :
  bytes_ok src -> 0 <= max_size -> max_size + 14 < 2 ^ 64 ->
  let '(rest, r) := parse server max_size src in
  exists used, src = used ++ rest /\
  match r with
  | Ok None => used = []
  | Ok (Some f) => 2 <= len used /\ frame_ok max_size f /\
      forall more, parse server max_size (src ++ more) = (rest ++ more, Ok (Some f))
  | Err e => forall more, parse server max_size (src ++ more) = (rest ++ more, Err e)
  | Panic => False
  end.
Proof.
  intros Hok Hmx H64. pose proof (parse_short server max_size src) as Hs.
  pose proof (parse_metadata_cases src server max_size Hok) as Hmd.
  destruct (parse_metadata src server max_size) as [[[[[[idx fin] op] n] m]|]|e|] eqn:E; try done.
  - destruct Hmd as (Hidx & Hle & Hop & Hn & Hm & Hmore).
    destruct (Z.lt_ge_cases (len src) (idx + n)) as [Hlt|Hge].
    { rewrite Hs by lia. by exists []. }
    set (hdr := take (Z.to_nat idx) src). set (data := take (Z.to_nat n) (drop (Z.to_nat idx) src)).
    set (rest := drop (Z.to_nat n) (drop (Z.to_nat idx) src)).
    assert (Hsrc : src = hdr ++ data ++ rest) by (unfold hdr, data, rest; by rewrite !take_drop).
    assert (Hhl : len hdr = idx) by (apply len_take; lia).
    assert (Hdl : len data = n) by (apply len_take; rewrite len_drop; lia).
    assert (Hpc : forall more, parse server max_size (src ++ more) = (rest ++ more, frame_result fin op data m)).
    { intros more. rewrite Hsrc, <- !app_assoc. apply (parse_complete _ _ _ _ _ _ _ n); try lia.
      rewrite Hhl, !app_assoc, <- (app_assoc hdr), <- Hsrc. apply Hmore. }
    pose proof (Hpc []) as Hp0. rewrite !app_nil_r in Hp0. rewrite Hp0.
    exists (hdr ++ data). split; [by rewrite <- app_assoc|].
    pose proof (frame_result_ok max_size fin op data m Hop) as Hfr.
    specialize (Hfr ltac:(lia) ltac:(unfold data; auto with xitca)).
    specialize (Hfr ltac:(destruct server; [destruct Hm as (k & -> & ? & ?)|subst m]; done)).
    destruct (frame_result fin op data m) as [[f|]|e|]; try done.
    repeat split; try done. rewrite len_app. pose proof (len_nonneg data). lia.
  - rewrite Hs. by exists [].
  - rewrite Hs. exists []. split; [done|]. intros more.
    pose proof (parse_short server max_size (src ++ more)) as Hs'. by rewrite Hmd in Hs'.
Qed.

(** *** Properties *)

(** [Parser::parse] on every buffer of bytes and every configured maximum below the
    address space: it never panics; it removes from the front of the buffer exactly the frame
    it returns (nothing when the frame is incomplete); a returned frame has a known op code, a
    payload within [max_size] and, for control frames, within 125 bytes; and its verdict on a
    buffer is final, whatever arrives later. *)
Theorem ws_parse_total server max_size src :
  bytes_ok src -> 0 <= max_size -> max_size + 14 < 2 ^ 64 ->
  let '(rest, r) := parse server max_size src in
  exists used, src = used ++ rest /\
  match r with
  | Ok None => used = []
  | Ok (Some f) => 2 <= len used /\ frame_ok max_size f /\
      forall more, parse server max_size (src ++ more) = (rest ++ more, Ok (Some f))
  | Err e => forall more, parse server max_size (src ++ more) = (rest ++ more, Err e)
  | Panic => False
  end.
Proof. apply parse_cases. Qed.

(** A frame written by one peer is parsed by the other (a client masks and the server
    unmasks, or neither does) to the same op code, fin bit and payload, whatever random key was
    drawn and wherever the two peers' buffers are aligned, and the bytes that follow the frame
    stay in the buffer. *)
Theorem ws_frame_roundtrip rnd pl op fin mask rest max_size :
  bytes_ok rnd -> length rnd = 4%nat -> bytes_ok pl -> op <> Bad ->
  len pl <= max_size -> len pl + 14 < 2 ^ 64 ->
  (is_control op = true -> len pl <= 125) ->
  parse mask max_size (write_message rnd [] pl op fin mask ++ rest)
  = (rest, Ok (Some (fin, op, if decide (pl = []) then None else Some pl))).
Proof.
  intros. rewrite parse_written by done. f_equal. by apply frame_result_written.
Qed.
End Frame.

Lemma ws_parse_total_witness :
  parse true 65536 [129; 129; 48; 48; 48; 49; 49; 7] = ([7], Ok (Some (true, Text, Some [1]))) /\
  let '(rest, r) := parse true 65536 [129; 129; 48; 48; 48; 49; 49; 7] in
  exists used, [129; 129; 48; 48; 48; 49; 49; 7] = used ++ rest.
Proof.
  split; [reflexivity|].
  assert (H := ws_parse_total true 65536 [129; 129; 48; 48; 48; 49; 49; 7]).
  destruct (parse true 65536 _) as [rest r]. destruct H as (used & Hu & _).
  - apply (bool_decide_unpack _). vm_compute. exact I.
  - lia.
  - lia.
  - by exists used.
Defined.

Lemma ws_frame_roundtrip_witness :
  parse true 65536 (write_message [109; 182; 178; 128] [] [104; 105] Text true true ++ [9])
  = ([9], Ok (Some (true, Text, Some [104; 105]))).
Proof.
  apply (ws_frame_roundtrip [109; 182; 178; 128] [104; 105] Text true true [9] 65536);
    try (apply (bool_decide_unpack _); vm_compute; exact I); try reflexivity; try discriminate;
    unfold len; simpl; lia.
Defined.
