(* ===== verification/WsCodec.v ===== *)
(** * WebSocket codec (http-ws/src/codec.rs)

    The flag byte, the [Codec] with its builder methods, and [encode]/[decode]
    as steps on the codec together with the buffer they are lent. *)

From S2P Require Import Prelude Utf8 WsProto WsMask WsFrame.

Inductive Item :=
| FirstText (data : bytes)
| FirstBinary (data : bytes)
| ContinueItem (data : bytes)
| Last (data : bytes).

Inductive Message :=
| MText (data : bytes)
| MBinary (data : bytes)
| MContinuation (item : Item)
| MPing (data : bytes)
| MPong (data : bytes)
| MClose (reason : option CloseReason)
| MNop.

#[global] Instance Item_eq_dec : EqDecision Item.
Proof. solve_decision. Defined.
#[global] Instance Message_eq_dec : EqDecision Message.
Proof. solve_decision. Defined.

(** [struct Flags(u8)] and its bit operations. *)
Module Flags.
Definition SERVER : Z := 1.
Definition CONTINUATION : Z := 2.
Definition CLOSED : Z := 4.
Definition remove (f other : Z) : Z := Z.land f (Z.lxor 255 other).
Definition insert (f other : Z) : Z := Z.lor f other.
Definition contains (f other : Z) : bool := Z.land f other =? other.
End Flags.

Record Codec := mkCodec { flags : Z; capacity : Z; max_size : Z }.

(** [Codec::new]. *)
Definition codec_new : Codec :=
  {| max_size := 65536; capacity := 128; flags := Flags.SERVER |}.
Definition set_flags (f : Z) (c : Codec) : Codec :=
  {| flags := f; capacity := capacity c; max_size := max_size c |}.
Definition set_max_size (size : Z) (c : Codec) : Codec :=
  {| flags := flags c; capacity := capacity c; max_size := size |}.
Definition set_capacity (size : Z) (c : Codec) : Codec :=
  {| flags := flags c; capacity := size; max_size := max_size c |}.
Definition client_mode (c : Codec) : Codec :=
  set_flags (Flags.remove (Flags.remove (flags c) Flags.SERVER) Flags.CONTINUATION) c.
Definition duplicate (c : Codec) : Codec :=
  set_flags (Flags.remove (flags c) Flags.CONTINUATION) c.

Abbreviation has c f := (Flags.contains (flags c) f).

Section Codec.
Context `{P : Platform}.

(** A codec step works on the codec and on the buffer it was lent. *)
Abbreviation CM := (M (Codec * bytes) ProtocolError).
Definition get_codec : CM Codec := s ← get; mret s.1.
Definition set_codec (c : Codec) : CM unit := s ← get; put (c, s.2).
Definition on_buf {A} (m : M bytes ProtocolError A) : CM A := fun s =>
  let '(b, r) := m s.2 in ((s.1, b), r).

(** [Codec::try_start_continue]. *)
Definition try_start_continue : CM unit :=
  c ← get_codec;
  if negb (has c Flags.CONTINUATION)
  then set_codec (set_flags (Flags.insert (flags c) Flags.CONTINUATION) c)
  else fail ContinuationStarted.

Definition write (rnd : bytes) (pl : bytes) (op : OpCode) (fin mask : bool) : CM unit :=
  on_buf (dst ← get; put (write_message rnd dst pl op fin mask)).

(** [Codec::encode]; [rnd] is the mask key [write_message] draws. *)
Definition encode (rnd : bytes) (item : Message) : CM unit :=
  c ← get_codec;
  if has c Flags.CLOSED then fail Closed
  else
    let mask := negb (has c Flags.SERVER) in
    match item with
    | MText b => write rnd b Text true mask
    | MBinary b => write rnd b Binary true mask
    | MPing b => write rnd b Ping true mask
    | MPong b => write rnd b Pong true mask
    | MClose reason =>
        _ ← on_buf (dst ← get; put (write_close rnd dst reason mask));
        set_codec (set_flags (Flags.insert (flags c) Flags.CLOSED) c)
    | MContinuation cont =>
        match cont with
        | ContinueItem data =>
            if negb (has c Flags.CONTINUATION) then fail ContinuationNotStarted
            else write rnd data Continue false mask
        | Last data =>
            if negb (has c Flags.CONTINUATION) then fail ContinuationNotStarted
            else
              _ ← set_codec (set_flags (Flags.remove (flags c) Flags.CONTINUATION) c);
              write rnd data Continue true mask
        | FirstText data => _ ← try_start_continue; write rnd data Text false mask
        | FirstBinary data => _ ← try_start_continue; write rnd data Binary false mask
        end
    | MNop => mret tt
    end.

(** [Codec::decode]: what it makes of a parsed frame, and the whole. *)
Definition decode_frame (f : Frame) : CM (option Message) :=
  c ← get_codec;
  let '(finished, opcode, payload) := f in
  let data := default [] payload in
  match opcode with
  | Continue =>
      if negb (has c Flags.CONTINUATION) then fail ContinuationNotStarted
      else
        _ ← (if finished : bool
             then set_codec (set_flags (Flags.remove (flags c) Flags.CONTINUATION) c)
             else mret tt);
        mret (Some (MContinuation (ContinueItem data)))
  | Binary =>
      if negb finished then
        _ ← try_start_continue; mret (Some (MContinuation (FirstBinary data)))
      else mret (Some (MBinary data))
  | Text =>
      if negb finished then
        _ ← try_start_continue; mret (Some (MContinuation (FirstText data)))
      else mret (Some (MText data))
  | Close =>
      if negb finished then fail (ContinuationFragment opcode)
      else mret (Some (MClose (payload ≫= parse_close_payload)))
  | Ping => mret (Some (MPing data))
  | Pong => mret (Some (MPong data))
  | Bad => fail BadOpCode
  end.
Definition decode : CM (option Message) :=
  c ← get_codec;
  f ← on_buf (parse (has c Flags.SERVER) (max_size c));
  match f with
  | None => mret None
  | Some f => decode_frame f
  end.

(** *** What the peer sees *)

(** A close reason after the trip: a named code sent as [COther] is named again and an empty
    description is dropped; a close payload over 125 bytes is dropped whole. *)
Definition view_reason (r : CloseReason) : CloseReason :=
  mkCloseReason (CloseCode_from_u16 (u16_from_CloseCode (code r)))
    (match description r with Some [] => None | d => d end).
Definition view (m : Message) : option Message :=
  match m with
  | MContinuation (Last d) => Some (MContinuation (ContinueItem d))
  | MClose r =>
      Some (MClose (if 125 <? len (close_payload r) then None else view_reason <$> r))
  | MNop => None
  | _ => Some m
  end.

Definition payload_of (m : Message) : bytes :=
  match m with
  | MText d | MBinary d | MPing d | MPong d
  | MContinuation (FirstText d | FirstBinary d | ContinueItem d | Last d) => d
  | MClose r => close_payload r
  | MNop => []
  end.

(** The messages a peer with maximum frame size [max] accepts.  Descriptions are Rust
    [String]s, so they are UTF-8. *)
Definition message_ok (max : Z) (m : Message) : Prop :=
  bytes_ok (payload_of m) /\ len (payload_of m) <= max /\
  match m with
  | MPing d | MPong d => len d <= 125
  | MClose (Some r) =>
      is_u16 (u16_from_CloseCode (code r)) /\
      match description r with Some d => utf8_valid d = true | None => True end
  | _ => True
  end.

Definition key_ok (rnd : bytes) : Prop := bytes_ok rnd /\ length rnd = 4%nat.

(** The flags a codec can have. *)
Definition codec_ok (c : Codec) : Prop := 0 <= flags c < 8.

(** Two ends of one direction of a connection. *)
Definition peers (enc dec : Codec) : Prop :=
  codec_ok enc /\ codec_ok dec /\ has dec Flags.SERVER = negb (has enc Flags.SERVER) /\
  has dec Flags.CONTINUATION = has enc Flags.CONTINUATION.

(** *** Codec lemmas *)

Lemma codec_ok_cases c :
  codec_ok c -> exists f, c = mkCodec f (capacity c) (max_size c) /\ In f [0; 1; 2; 3; 4; 5; 6; 7].
Proof.
  intros H. exists (flags c). split; [by destruct c|]. unfold codec_ok in H. simpl.
  assert (flags c = 0 \/ flags c = 1 \/ flags c = 2 \/ flags c = 3 \/ flags c = 4 \/ flags c = 5
          \/ flags c = 6 \/ flags c = 7) by lia. intuition.
Qed.

Lemma codec_new_ok : codec_ok codec_new.
Proof. unfold codec_ok, codec_new, Flags.SERVER. simpl. lia. Qed.

(** The flag bits are independent. *)
Definition is_flag (x : Z) : Prop := x = Flags.SERVER \/ x = Flags.CONTINUATION \/ x = Flags.CLOSED.
Lemma has_insert c x y :
  codec_ok c -> is_flag x -> is_flag y ->
  Flags.contains (Flags.insert (flags c) x) y = (x =? y) || has c y.
Proof.
  intros (f & -> & Hf)%codec_ok_cases Hx Hy. simpl in *.
  destruct Hx as [-> | [-> | ->]], Hy as [-> | [-> | ->]]; intuition (subst; done).
Qed.
Lemma has_remove c x y :
  codec_ok c -> is_flag x -> is_flag y ->
  Flags.contains (Flags.remove (flags c) x) y = negb (x =? y) && has c y.
Proof.
  intros (f & -> & Hf)%codec_ok_cases Hx Hy. simpl in *.
  destruct Hx as [-> | [-> | ->]], Hy as [-> | [-> | ->]]; intuition (subst; done).
Qed.
Lemma insert_codec_ok c x :
  codec_ok c -> is_flag x -> codec_ok (set_flags (Flags.insert (flags c) x) c).
Proof.
  intros (f & -> & Hf)%codec_ok_cases Hx. unfold codec_ok. simpl in *.
  destruct Hx as [-> | [-> | ->]]; intuition (subst; cbv -[Z.le Z.lt]; lia).
Qed.
Lemma remove_codec_ok c x :
  codec_ok c -> is_flag x -> codec_ok (set_flags (Flags.remove (flags c) x) c).
Proof.
  intros (f & -> & Hf)%codec_ok_cases Hx. unfold codec_ok. simpl in *.
  destruct Hx as [-> | [-> | ->]]; intuition (subst; cbv -[Z.le Z.lt]; lia).
Qed.
Lemma peers_start enc dec :
  peers enc dec ->
  peers (set_flags (Flags.insert (flags enc) Flags.CONTINUATION) enc)
        (set_flags (Flags.insert (flags dec) Flags.CONTINUATION) dec).
Proof.
  intros (He & Hd & Hs & Hk). unfold peers. cbn [flags set_flags]. rewrite !has_insert by (unfold is_flag; auto).
  rewrite Hs, Hk. split_and!; try done; try apply insert_codec_ok; unfold is_flag; auto.
Qed.
Lemma peers_last enc dec :
  peers enc dec ->
  peers (set_flags (Flags.remove (flags enc) Flags.CONTINUATION) enc)
        (set_flags (Flags.remove (flags dec) Flags.CONTINUATION) dec).
Proof.
  intros (He & Hd & Hs & Hk). unfold peers. cbn [flags set_flags]. rewrite !has_remove by (unfold is_flag; auto).
  rewrite Hs, Hk. split_and!; try done; try apply remove_codec_ok; unfold is_flag; auto.
Qed.
Lemma peers_close enc dec :
  peers enc dec -> peers (set_flags (Flags.insert (flags enc) Flags.CLOSED) enc) dec.
Proof.
  intros (He & Hd & Hs & Hk). unfold peers. cbn [flags set_flags]. rewrite !has_insert by (unfold is_flag; auto).
  rewrite Hs, Hk. split_and!; try done; try apply insert_codec_ok; unfold is_flag; auto.
Qed.

Lemma decode_run c buf :
  decode (c, buf) =
  let '(rest, r) := parse (has c Flags.SERVER) (max_size c) buf in
  match r with
  | Ok None => ((c, rest), Ok None)
  | Ok (Some f) => decode_frame f (c, rest)
  | Err e => ((c, rest), Err e)
  | Panic => ((c, rest), Panic)
  end.
Proof.
  unfold decode, get_codec, on_buf, get, mbind, M_bind. simpl.
  by destruct (parse _ _ buf) as [rest [[f|]|e|]].
Qed.

(** [decode_frame] never touches the buffer. *)
Lemma decode_frame_buf f c b1 b2 :
  decode_frame f (c, b1) =
  ((fun s => (s.1, b1)) (decode_frame f (c, b2)).1, (decode_frame f (c, b2)).2).
Proof.
  destruct f as [[fin op] pl]. unfold decode_frame, try_start_continue, set_codec, get_codec, get, put,
    mbind, M_bind, fail, lift. simpl.
  destruct op, fin; simpl; try done; by destruct (has c _).
Qed.

Lemma write_append rnd dst pl op fin mask :
  key_ok rnd -> bytes_ok pl -> len pl < 2 ^ 64 ->
  write_message rnd dst pl op fin mask = dst ++ write_message rnd [] pl op fin mask.
Proof. intros [??] ??. by rewrite !write_message_split. Qed.

Lemma written_ok rnd pl op fin mask :
  key_ok rnd -> bytes_ok pl -> len pl < 2 ^ 64 -> bytes_ok (write_message rnd [] pl op fin mask).
Proof. intros [??] ??. by apply write_message_ok. Qed.

Lemma decode_written dec rnd pl op fin mask rest :
  key_ok rnd -> bytes_ok pl -> op <> Bad -> has dec Flags.SERVER = mask ->
  len pl <= max_size dec -> max_size dec + 14 < 2 ^ 64 -> (is_control op = true -> len pl <= 125) ->
  decode (dec, write_message rnd [] pl op fin mask ++ rest)
  = decode_frame (fin, op, if decide (pl = []) then None else Some pl) (dec, rest).
Proof.
  intros [??] ?? <- ???. rewrite decode_run, parse_written by (done || lia).
  by rewrite frame_result_written.
Qed.

Lemma default_decide (pl : bytes) : default [] (if decide (pl = []) then None else Some pl) = pl.
Proof. by case_decide. Qed.

Lemma parse_close_payload_written r :
  is_u16 (u16_from_CloseCode (code r)) ->
  match description r with Some d => utf8_valid d = true | None => True end ->
  parse_close_payload (close_payload (Some r)) = Some (view_reason r).
Proof.
  intros Hc Hd. unfold parse_close_payload, close_payload.
  pose proof (be_encode_length 2 (u16_from_CloseCode (code r))) as H2.
  pose proof (len_nonneg (default [] (description r))).
  assert (Hl : len (be_encode 2 (u16_from_CloseCode (code r))) = 2) by (unfold len; by rewrite H2).
  rewrite len_app, Hl. rewrite (proj2 (Z.leb_le _ _)) by lia.
  rewrite take_app_length' by done. rewrite drop_app_length' by done.
  rewrite be_decode_encode_small by exact Hc. f_equal. unfold view_reason. f_equal.
  destruct (description r) as [[|x d]|]; simpl in *; [done| |done].
  rewrite from_utf8_lossy_valid by done. rewrite (proj2 (Z.ltb_lt _ _)); [done|].
  rewrite len_cons. pose proof (len_nonneg d). lia.
Qed.

Lemma close_payload_some r : close_payload (Some r) <> [].
Proof.
  intros H%(f_equal length). unfold close_payload in H.
  rewrite length_app, be_encode_length in H. simpl in H. lia.
Qed.

Lemma decode_frame_close pl c b :
  decode_frame (true, Close, pl) (c, b) = ((c, b), Ok (Some (MClose (pl ≫= parse_close_payload)))).
Proof. done. Qed.

Lemma decode_close_written dec rnd r mask rest :
  key_ok rnd -> message_ok (max_size dec) (MClose r) -> has dec Flags.SERVER = mask ->
  max_size dec + 14 < 2 ^ 64 ->
  decode (dec, write_close rnd [] r mask ++ rest) = ((dec, rest), Ok (view (MClose r))).
Proof.
  intros [Hr Hr4] (Hb & Hl & Hm) <- H64. simpl in Hb, Hl. unfold write_close, view.
  destruct (Z.ltb_spec 125 (len (close_payload r))) as [Hgt|Hle].
  - rewrite decode_run, parse_written by (done || lia). unfold frame_result.
    rewrite sent_payload_len, (proj2 (Z.ltb_lt _ _)) by lia.
    case_decide as Hnil; [|done]. exfalso.
    rewrite <- (sent_payload_len rnd _ (has dec Flags.SERVER)), Hnil in Hgt. done.
  - rewrite decode_written by (done || by split).
    rewrite decode_frame_close. do 4 f_equal. destruct r as [r|]; [|done]. destruct Hm as [Hc Hd].
    rewrite decide_False by apply close_payload_some.
    by apply parse_close_payload_written.
Qed.

(** Discharge a data or ping/pong frame: the frame is decoded and leaves codec [d']. *)
Ltac by_frame d' :=
  eexists _, d'; split_and!; [reflexivity| | |done|];
  [apply written_ok; done || lia|auto using peers_start, peers_last
  |intros rest; rewrite decode_written by (done || lia);
   unfold decode_frame, try_start_continue, set_codec, get_codec, get, put, mbind, M_bind, mret, M_ret;
   simpl; rewrite ?default_decide; try done].

(** One message through [encode] and the peer's [decode]. *)
Lemma encode_decode_step enc dec rnd m dst enc' dst' :
  peers enc dec -> key_ok rnd -> message_ok (max_size dec) m -> max_size dec + 14 < 2 ^ 64 ->
  encode rnd m (enc, dst) = ((enc', dst'), Ok tt) ->
  exists w dec', dst' = dst ++ w /\ bytes_ok w /\ peers enc' dec' /\ max_size dec' = max_size dec /\
    match view m with
    | None => w = [] /\ dec' = dec
    | Some v => forall rest, decode (dec, w ++ rest) = ((dec', rest), Ok (Some v))
    end.
Proof.
  intros Hp Hkey Hm H64 Henc. pose proof Hp as (He & Hd & Hs & Hk).
  pose proof Hm as (Hb & Hl & Hc).
  unfold encode, write, write_close, try_start_continue, set_codec, get_codec, on_buf, get, put, fail,
    lift, mbind, M_bind, mret, M_ret in Henc. simpl in Henc.
  destruct (has enc Flags.CLOSED); [done|].
  assert (Hw : forall pl op fin, bytes_ok pl -> len pl <= max_size dec ->
    write_message rnd dst pl op fin (negb (has enc Flags.SERVER))
    = dst ++ write_message rnd [] pl op fin (has dec Flags.SERVER)).
  { intros. rewrite write_append by (done || lia). by rewrite Hs. }
  destruct m as [d|d|[d|d|d|d]|d|d|r|]; cbn [payload_of] in Hb, Hl; cbn -[close_payload] in Henc;
    try lazymatch type of Henc with context [has enc Flags.CONTINUATION] =>
      destruct (has enc Flags.CONTINUATION) eqn:Ek in Henc; simpl in Henc; try discriminate Henc end;
    rewrite ?Hw in Henc by done; injection Henc as <- <-.
  - by_frame dec.
  - by_frame dec.
  - by_frame (set_flags (Flags.insert (flags dec) Flags.CONTINUATION) dec). by rewrite Hk, Ek.
  - by_frame (set_flags (Flags.insert (flags dec) Flags.CONTINUATION) dec). by rewrite Hk, Ek.
  - by_frame dec. by rewrite Hk, Ek.
  - by_frame (set_flags (Flags.remove (flags dec) Flags.CONTINUATION) dec). by rewrite Hk, Ek.
  - by_frame dec.
  - by_frame dec.
  - exists (write_close rnd [] r (has dec Flags.SERVER)), dec. split_and!; try done.
    + apply written_ok; done || lia.
    + by apply peers_close.
    + intros rest. by apply decode_close_written.
  - exists [], dec. rewrite app_nil_r. split_and!; done || constructor.
Qed.

(** *** The fragment discipline *)

(** The step of the RFC 6455 fragmentation automaton a decoded message takes: [None] when the
    message may not occur in that state.  [fin] tells the end of a fragmented message. *)
Definition fragment_step (open fin : bool) (m : Message) : option bool :=
  match m with
  | MContinuation (FirstText _ | FirstBinary _) => if open then None else Some true
  | MContinuation (ContinueItem _ | Last _) => if open then Some (negb fin) else None
  | _ => Some open
  end.

(** The [Err] an outgoing message meets, given whether the codec is closed and inside a
    fragmented message. *)
Definition encode_error (closed open : bool) (m : Message) : option ProtocolError :=
  if closed then Some Closed
  else match m with
       | MContinuation (FirstText _ | FirstBinary _) => if open then Some ContinuationStarted else None
       | MContinuation (ContinueItem _ | Last _) => if open then None else Some ContinuationNotStarted
       | _ => None
       end.
Definition is_last (m : Message) : bool := match m with MContinuation (Last _) => true | _ => false end.
Definition is_close (m : Message) : bool := match m with MClose _ => true | _ => false end.

Ltac run_codec :=
  unfold encode, write, write_close, decode_frame, try_start_continue, set_codec, get_codec, on_buf, get, put, fail,
    lift, mbind, M_bind, mret, M_ret; simpl.

Lemma decode_frame_discipline f c buf max :
  codec_ok c -> frame_ok max f ->
  match decode_frame f (c, buf) with
  | ((c', b), Ok (Some m)) => b = buf /\ codec_ok c' /\
      max_size c' = max_size c /\ capacity c' = capacity c /\
      has c' Flags.SERVER = has c Flags.SERVER /\ has c' Flags.CLOSED = has c Flags.CLOSED /\
      fragment_step (has c Flags.CONTINUATION) (f.1.1) m = Some (has c' Flags.CONTINUATION) /\
      is_last m = false /\ m <> MNop
  | ((c', b), Err e) => c' = c /\ b = buf /\
      (e = ContinuationStarted \/ e = ContinuationNotStarted \/ e = ContinuationFragment Close)
  | (_, Ok None) | (_, Panic) => False
  end.
Proof.
  intros Hc Hf. destruct f as [[fin op] pl]. destruct Hf as [Hop _].
  assert (is_flag Flags.SERVER /\ is_flag Flags.CONTINUATION /\ is_flag Flags.CLOSED) as (? & ? & ?)
    by (unfold is_flag; auto).
  run_codec. destruct op, fin; simpl; try done; try tauto;
    try (destruct (has c Flags.CONTINUATION) eqn:Ek; simpl; try tauto);
    rewrite ?has_insert, ?has_remove, ?Ek by done; simpl;
    split_and!; auto using insert_codec_ok, remove_codec_ok.
Qed.

(** What a decoded message did to the codec. *)
Definition decode_step_ok (c c' : Codec) (m : Message) : Prop :=
  codec_ok c' /\ max_size c' = max_size c /\ capacity c' = capacity c /\
  has c' Flags.SERVER = has c Flags.SERVER /\ has c' Flags.CLOSED = has c Flags.CLOSED /\
  (exists fin, fragment_step (has c Flags.CONTINUATION) fin m = Some (has c' Flags.CONTINUATION)) /\
  is_last m = false /\ m <> MNop.

Lemma decode_cases c buf :
  codec_ok c -> bytes_ok buf -> 0 <= max_size c -> max_size c + 14 < 2 ^ 64 ->
  let '((c', rest), r) := decode (c, buf) in
  exists used, buf = used ++ rest /\
  match r with
  | Ok None => used = [] /\ c' = c
  | Ok (Some m) => 2 <= len used /\ decode_step_ok c c' m /\
      forall more, decode (c, buf ++ more) = ((c', rest ++ more), Ok (Some m))
  | Err e => c' = c /\ forall more, decode (c, buf ++ more) = ((c', rest ++ more), Err e)
  | Panic => False
  end.
Proof.
  intros Hc Hb Hm H64. rewrite decode_run.
  pose proof (parse_cases (has c Flags.SERVER) (max_size c) buf Hb Hm H64) as Hp.
  destruct (parse _ _ buf) as [rest [[f|]|e|]] eqn:E; destruct Hp as (used & Hu & Hp); try done.
  - destruct Hp as (H2 & Hf & Hmore).
    pose proof (decode_frame_discipline f c rest (max_size c) Hc Hf) as Hd.
    assert (Hdec : forall more, decode (c, buf ++ more) = decode_frame f (c, rest ++ more))
      by (intros; rewrite decode_run; by rewrite Hmore).
    destruct (decode_frame f (c, rest)) as [[c' b] r] eqn:Ed.
    assert (Hbuf : forall more, decode_frame f (c, rest ++ more) = ((c', rest ++ more), r))
      by (intros; rewrite (decode_frame_buf f c _ rest); by rewrite Ed).
    destruct r as [[m|]|e|]; try done.
    + destruct Hd as (-> & H). exists used. split_and!; try done.
      * unfold decode_step_ok. destruct H as (? & ? & ? & ? & ? & ? & ? & ?). eauto 10.
      * intros. by rewrite Hdec, Hbuf.
    + destruct Hd as (-> & -> & _). exists used. split_and!; try done. intros. by rewrite Hdec, Hbuf.
  - exists used. done.
  - exists used. split_and!; try done. intros. rewrite decode_run. by rewrite Hp.
Qed.

(** *** Properties *)

(** [Codec::decode] on every buffer and in every state of the codec: it never panics, takes
    exactly the decoded frame off the front of the buffer and leaves an incomplete frame and the
    codec untouched; a decoded message is a legal step of the fragmentation automaton kept in the
    CONTINUATION flag, an error leaves the codec as it was, and neither result depends on bytes
    that have not arrived yet. *)
Theorem ws_decode_total c buf :
  codec_ok c -> bytes_ok buf -> 0 <= max_size c -> max_size c + 14 < 2 ^ 64 ->
  let '((c', rest), r) := decode (c, buf) in
  exists used, buf = used ++ rest /\
  match r with
  | Ok None => used = [] /\ c' = c
  | Ok (Some m) => 2 <= len used /\ decode_step_ok c c' m /\
      forall more, decode (c, buf ++ more) = ((c', rest ++ more), Ok (Some m))
  | Err e => c' = c /\ forall more, decode (c, buf ++ more) = ((c', rest ++ more), Err e)
  | Panic => False
  end.
Proof. apply decode_cases. Qed.

(** [Codec::encode] in every state: a closed codec refuses every message, a continuation
    item that does not fit the fragmentation state is refused, and a refusal changes neither the
    codec nor the buffer; an accepted message is appended to the buffer, only [Close] closes the
    codec and the CONTINUATION flag follows the fragmentation automaton. *)
Theorem ws_encode_discipline c rnd m dst :
  codec_ok c -> key_ok rnd -> bytes_ok (payload_of m) -> len (payload_of m) < 2 ^ 64 ->
  match encode_error (has c Flags.CLOSED) (has c Flags.CONTINUATION) m with
  | Some e => encode rnd m (c, dst) = ((c, dst), Err e)
  | None => exists c' w, encode rnd m (c, dst) = ((c', dst ++ w), Ok tt) /\
      codec_ok c' /\ has c' Flags.CLOSED = is_close m /\ has c' Flags.SERVER = has c Flags.SERVER /\
      fragment_step (has c Flags.CONTINUATION) (is_last m) m = Some (has c' Flags.CONTINUATION)
  end.
Proof.
  intros Hc Hk Hb Hl.
  assert (is_flag Flags.SERVER /\ is_flag Flags.CONTINUATION /\ is_flag Flags.CLOSED) as (? & ? & ?)
    by (unfold is_flag; auto).
  assert (Hw : forall op fin mask, write_message rnd dst (payload_of m) op fin mask
    = dst ++ write_message rnd [] (payload_of m) op fin mask) by (intros; by apply write_append).
  unfold encode_error. run_codec. destruct (has c Flags.CLOSED) eqn:Ex; [done|].
  destruct m as [d|d|[d|d|d|d]|d|d|r|]; cbn [payload_of] in Hw;
    (destruct (has c Flags.CONTINUATION) eqn:Ek; simpl; rewrite ?Ek; simpl; try done);
    (eexists; eexists; split; [rewrite ?Hw; try done; by rewrite app_nil_r|]);
    simpl; rewrite ?has_insert, ?has_remove, ?Ex, ?Ek by done;
    split_and!; auto using insert_codec_ok, remove_codec_ok.
Qed.
End Codec.

Lemma ws_decode_total_witness :
  decode (codec_new, [129; 129; 48; 48; 48; 49; 49; 7]) = ((codec_new, [7]), Ok (Some (MText [1]))) /\
  let '((c', rest), r) := decode (codec_new, [129; 129; 48; 48; 48; 49; 49; 7]) in
  exists used, [129; 129; 48; 48; 48; 49; 49; 7] = used ++ rest.
Proof.
  split; [reflexivity|].
  assert (H := ws_decode_total codec_new [129; 129; 48; 48; 48; 49; 49; 7]).
  destruct (decode (codec_new, _)) as [[c' rest] r]. destruct H as (used & Hu & _).
  - apply codec_new_ok.
  - apply (bool_decide_unpack _). vm_compute. exact I.
  - simpl. lia.
  - simpl. lia.
  - by exists used.
Defined.

Lemma ws_encode_discipline_witness :
  encode [1; 2; 3; 4] (MContinuation (Last [104])) (codec_new, [])
  = ((codec_new, []), Err ContinuationNotStarted).
Proof.
  apply (ws_encode_discipline codec_new [1; 2; 3; 4] (MContinuation (Last [104])) []).
  - apply codec_new_ok.
  - split; [apply (bool_decide_unpack _); vm_compute; exact I|reflexivity].
  - apply (bool_decide_unpack _). vm_compute. exact I.
  - unfold len. simpl. lia.
Defined.
