(* ===== verification/WsStream.v ===== *)
(** * WebSocket message streams (http-ws/src/stream.rs)

    [RequestStream] turns a stream of byte chunks into a stream of messages;
    [ResponseSender] encodes messages into a bounded channel.  The chunk stream is the list of
    what its [poll_next] will return; the channel is its queue with its capacity. *)

From S2P Require Import Prelude Utf8 WsProto WsMask WsFrame WsCodec.

Inductive Poll (A : Type) : Type := Ready (a : A) | Pending.
Arguments Ready {A} a.
Arguments Pending {A}.

Inductive WsError (E : Type) : Type := Protocol (e : ProtocolError) | Stream (e : E).
Arguments Protocol {E} e.
Arguments Stream {E} e.

(** One [poll_next] of the inner stream, as long as it has not ended. *)
Inductive Event (E : Type) : Type := Chunk (b : bytes) | ChunkErr (e : E) | NotReady.
Arguments Chunk {E} b.
Arguments ChunkErr {E} e.
Arguments NotReady {E}.

Record RequestStream (E : Type) := mkRequestStream {
  stream : list (Event E);
  rbuf : bytes;
  rcodec : Codec;
}.
Arguments mkRequestStream {E} stream rbuf rcodec.
Arguments stream {E} r.
Arguments rbuf {E} r.
Arguments rcodec {E} r.

(** The bounded channel: its capacity, what is queued, and whether the receiver is alive. *)
Record Channel (X : Type) := mkChannel { cap : Z; queue : list (X + bytes); alive : bool }.
Arguments mkChannel {X} cap queue alive.
Arguments cap {X} _.
Arguments queue {X} _.
Arguments alive {X} _.

(** [_ResponseSender]: the encoder behind the mutex and the channel. *)
Record ResponseSender (X : Type) := mkSender { encoder : Codec * bytes; tx : Channel X }.
Arguments mkSender {X} encoder tx.
Arguments encoder {X} _.
Arguments tx {X} _.

Section Stream.
Context `{P : Platform} {E : Type}.

Definition with_codec (s : list (Event E)) (c : Codec) : RequestStream E := mkRequestStream s [] c.
Definition request_stream_new (s : list (Event E)) : RequestStream E := with_codec s codec_new.

(** [RequestStream::poll_next]; [None] inside is a panic. *)
Abbreviation Polled := (RequestStream E * option (Poll (option (WsError E + Message))))%type.
Fixpoint poll_loop (c : Codec) (buf : bytes) (s : list (Event E)) : Polled :=
  match decode (c, buf) with
  | ((c', buf'), Ok (Some m)) => (mkRequestStream s buf' c', Some (Ready (Some (inr m))))
  | ((c', buf'), Err e) => (mkRequestStream s buf' c', Some (Ready (Some (inl (Protocol e)))))
  | ((c', buf'), Panic) => (mkRequestStream s buf' c', None)
  | ((c', buf'), Ok None) =>
      match s with
      | [] => (mkRequestStream [] buf' c', Some (Ready None))
      | NotReady :: s' => (mkRequestStream s' buf' c', Some Pending)
      | ChunkErr e :: s' => (mkRequestStream s' buf' c', Some (Ready (Some (inl (Stream e)))))
      | Chunk b :: s' => poll_loop c' (buf' ++ b) s'
      end
  end.
Definition poll_next (r : RequestStream E) : Polled := poll_loop (rcodec r) (rbuf r) (stream r).

(** A consumer that polls until the stream ends or fails. *)
Inductive Ending := Ended | Failed (e : WsError E) | Panicked | OutOfFuel.
Fixpoint consume (fuel : nat) (r : RequestStream E) : list Message * Ending :=
  match fuel with
  | O => ([], OutOfFuel)
  | S n =>
      match poll_next r with
      | (r', Some (Ready (Some (inr m)))) => let '(ms, e) := consume n r' in (m :: ms, e)
      | (_, Some (Ready (Some (inl e)))) => ([], Failed e)
      | (_, Some (Ready None)) => ([], Ended)
      | (r', Some Pending) => consume n r'
      | (_, None) => ([], Panicked)
      end
  end.

(** The bytes the inner stream still delivers, and the polls that are always enough. *)
Definition chunk_bytes (ev : Event E) : bytes := match ev with Chunk b => b | _ => [] end.
Definition incoming (s : list (Event E)) : bytes := mjoin (chunk_bytes <$> s).
Definition no_error (s : list (Event E)) : Prop :=
  Forall (fun ev => match ev with ChunkErr _ => False | _ => True end) s.
Definition polls (r : RequestStream E) : nat :=
  S (length (rbuf r) + length (incoming (stream r)) + length (stream r)).

(** The reference: decode one buffer that holds everything. *)
Fixpoint decode_all (fuel : nat) (c : Codec) (buf : bytes) : list Message * Ending :=
  match fuel with
  | O => ([], OutOfFuel)
  | S n =>
      match decode (c, buf) with
      | ((c', buf'), Ok (Some m)) => let '(ms, e) := decode_all n c' buf' in (m :: ms, e)
      | (_, Ok None) => ([], Ended)
      | (_, Err e) => ([], Failed (Protocol e))
      | (_, Panic) => ([], Panicked)
      end
  end.
Definition decode_buffer (c : Codec) (buf : bytes) : list Message * Ending :=
  decode_all (S (length buf)) c buf.

Definition stream_codec_ok (c : Codec) : Prop :=
  codec_ok c /\ 0 <= max_size c /\ max_size c + 14 < 2 ^ 64.

Lemma decode_step_stream_ok c c' m : stream_codec_ok c -> decode_step_ok c c' m -> stream_codec_ok c'.
Proof. intros (? & ? & ?) (? & Hm & _). unfold stream_codec_ok. rewrite Hm. done. Qed.

(** Enough fuel is enough. *)
Lemma decode_all_fuel n c buf :
  stream_codec_ok c -> bytes_ok buf -> (length buf < n)%nat ->
  decode_all n c buf = decode_buffer c buf /\ (decode_buffer c buf).2 <> OutOfFuel
  /\ (decode_buffer c buf).2 <> Panicked.
Proof.
  unfold decode_buffer. remember (length buf) as k eqn:Hk. revert n c buf Hk.
  induction k as [k IH] using lt_wf_ind. intros n c buf -> Hc Hb Hn.
  destruct n as [|n]; [lia|]. destruct Hc as (Hok & Hm & H64). simpl.
  pose proof (decode_cases c buf Hok Hb Hm H64) as Hd.
  destruct (decode (c, buf)) as [[c' rest] r]. destruct Hd as (used & -> & Hd).
  destruct r as [[m|]|e|]; try done. destruct Hd as (H2 & Hst & _).
  apply bytes_ok_app in Hb as [_ Hb]. unfold len in H2. rewrite length_app in *.
  assert (Hc' : stream_codec_ok c') by (eapply decode_step_stream_ok; [|done]; done).
  destruct (IH (length rest) ltac:(lia) n c' rest eq_refl Hc' Hb ltac:(lia)) as (-> & Hf & Hp).
  destruct (IH (length rest) ltac:(lia) (length used + length rest)%nat c' rest eq_refl Hc' Hb ltac:(lia))
    as (-> & _).
  by destruct (decode_all _ c' rest).
Qed.

Lemma decode_buffer_step c buf :
  stream_codec_ok c -> bytes_ok buf ->
  match decode (c, buf) with
  | ((c', rest), Ok (Some m)) =>
      decode_buffer c buf = (m :: (decode_buffer c' rest).1, (decode_buffer c' rest).2)
  | (_, Ok None) => decode_buffer c buf = ([], Ended)
  | (_, Err e) => decode_buffer c buf = ([], Failed (Protocol e))
  | (_, Panic) => False
  end.
Proof.
  intros Hc Hb. unfold decode_buffer at 1 4 5. simpl. pose proof Hc as (Hok & Hm & H64).
  pose proof (decode_cases c buf Hok Hb Hm H64) as Hd.
  destruct (decode (c, buf)) as [[c' rest] r]. destruct Hd as (used & -> & Hd).
  destruct r as [[m|]|e|]; try done. destruct Hd as (H2 & Hst & _).
  apply bytes_ok_app in Hb as [_ Hb]. unfold len in H2.
  destruct (decode_all_fuel (length (used ++ rest)) c' rest) as (-> & _);
    [by eapply decode_step_stream_ok|done|rewrite length_app; lia|].
  by destruct (decode_buffer c' rest).
Qed.

(** The messages still to come out of a stream. *)
Definition pending_result (r : RequestStream E) : list Message * Ending :=
  decode_buffer (rcodec r) (rbuf r ++ incoming (stream r)).
Definition stream_ok (r : RequestStream E) : Prop :=
  stream_codec_ok (rcodec r) /\ bytes_ok (rbuf r) /\ bytes_ok (incoming (stream r)) /\ no_error (stream r).

Lemma poll_loop_spec c buf s :
  stream_ok (mkRequestStream s buf c) ->
  match poll_loop c buf s with
  | (r', Some (Ready (Some (inr m)))) => stream_ok r' /\
      (polls r' < polls (mkRequestStream s buf c))%nat /\
      pending_result (mkRequestStream s buf c) = (m :: (pending_result r').1, (pending_result r').2)
  | (_, Some (Ready (Some (inl e)))) => pending_result (mkRequestStream s buf c) = ([], Failed e)
  | (_, Some (Ready None)) => pending_result (mkRequestStream s buf c) = ([], Ended)
  | (r', Some Pending) => stream_ok r' /\
      (polls r' < polls (mkRequestStream s buf c))%nat /\
      pending_result r' = pending_result (mkRequestStream s buf c)
  | (_, None) => False
  end.
Proof.
  revert c buf. induction s as [|ev s IH]; intros c buf (Hc & Hb & Hi & Hn);
    pose proof Hc as (Hok & Hm & H64); simpl in Hok, Hm, H64, Hb.
  - pose proof (decode_buffer_step c buf Hc Hb) as Hs. pose proof (decode_cases c buf Hok Hb Hm H64) as Hd.
    unfold pending_result, polls. simpl. rewrite app_nil_r.
    destruct (decode (c, buf)) as [[c' rest] r]. destruct Hd as (used & -> & Hd).
    destruct r as [[m|]|e|]; try done. destruct Hd as (H2 & Hst & _).
    apply bytes_ok_app in Hb as [_ Hb]. simpl. rewrite Hs, app_nil_r.
    split_and!; try done.
    + unfold stream_ok. simpl. split_and!; try done. by eapply decode_step_stream_ok.
    + rewrite length_app. unfold len in H2. lia.
  - assert (Hall : bytes_ok (buf ++ incoming (ev :: s))) by by apply bytes_ok_app.
    pose proof (decode_buffer_step c _ Hc Hall) as Hs. simpl in Hall, Hs.
    pose proof (decode_cases c buf Hok Hb Hm H64) as Hd.
    inversion_clear Hn as [|? ? Hev Hn'].
    cbn [poll_loop]. destruct (decode (c, buf)) as [[c' rest] r]. destruct Hd as (used & -> & Hd).
    destruct r as [[m|]|e|]; try done.
    + destruct Hd as (H2 & Hst & Hmore). rewrite Hmore in Hs. unfold pending_result. simpl. rewrite Hs.
      apply bytes_ok_app in Hb as [_ Hb]. split_and!; try done.
      * unfold stream_ok. simpl. split_and!; try done; [by eapply decode_step_stream_ok|by constructor].
      * unfold polls. simpl. rewrite !length_app. unfold len in H2. lia.
    + destruct Hd as [-> ->]. simpl in *. destruct ev as [b|e|]; try done.
      * change (incoming (Chunk b :: s)) with (b ++ incoming s) in *.
        apply bytes_ok_app in Hi as [Hbb Hi].
        specialize (IH c (rest ++ b)). unfold pending_result, polls in IH |- *. simpl in IH |- *.
        change (incoming (Chunk b :: s)) with (b ++ incoming s).
        rewrite <- app_assoc in IH. rewrite !length_app in IH. rewrite length_app.
        specialize (IH ltac:(unfold stream_ok; simpl; split_and!; try done; by apply bytes_ok_app)).
        destruct (poll_loop c (rest ++ b) s) as [r' [[[[e|m]|]|]|]]; try done;
          destruct IH as (H1 & H2 & H3); (split_and!; [done|lia|done]).
      * change (incoming (NotReady :: s)) with (incoming s) in *.
        unfold pending_result, polls, stream_ok. simpl.
        change (incoming (NotReady :: s)) with (incoming s). split_and!; try done; lia.
    + destruct Hd as [-> Hmore]. rewrite Hmore in Hs. unfold pending_result. simpl. exact Hs.
Qed.

Lemma consume_spec n r : stream_ok r -> (polls r <= n)%nat -> consume n r = pending_result r.
Proof.
  revert r. induction n as [|n IH]; intros r Hr Hn; [unfold polls in Hn; lia|]. simpl.
  destruct r as [s b c]. pose proof (poll_loop_spec c b s Hr) as Hp. unfold poll_next. simpl.
  destruct (poll_loop c b s) as [r' [[[[e|m]|]|]|]]; try done.
  - destruct Hp as (Hr' & Hlt & ->). rewrite IH by (done || lia). by destruct (pending_result r').
  - destruct Hp as (Hr' & Hlt & <-). apply IH; [done|lia].
Qed.

(** *** The sending side *)

Context {X : Type}.

(** [RequestStream::response_stream] and [ResponseSender::new]. *)
Definition response_stream (r : RequestStream E) : ResponseSender X :=
  let codec := duplicate (rcodec r) in
  mkSender (codec, []) (mkChannel (capacity codec) [] true).

(** [_ResponseSender::send]: [Pending] while the channel has no free slot. *)
Definition send (rnd : bytes) (msg : Message) (s : ResponseSender X) :
  ResponseSender X * Poll (outcome ProtocolError unit) :=
  if negb (alive (tx s)) then (s, Ready (Err Closed))
  else if len (queue (tx s)) <? cap (tx s) then
    match encode rnd msg (encoder s) with
    | ((c, buf), Ok _) =>
        (mkSender (c, []) (mkChannel (cap (tx s)) (queue (tx s) ++ [inr buf]) (alive (tx s))),
         Ready (Ok tt))
    | (enc, Err e) => (mkSender enc (tx s), Ready (Err e))
    | (enc, Panic) => (mkSender enc (tx s), Ready Panic)
    end
  else (s, Pending).

(** [_ResponseSender::send_error]. *)
Definition send_error (err : X) (s : ResponseSender X) :
  ResponseSender X * Poll (outcome ProtocolError unit) :=
  if negb (alive (tx s)) then (s, Ready (Err Closed))
  else if len (queue (tx s)) <? cap (tx s) then
    (mkSender (encoder s) (mkChannel (cap (tx s)) (queue (tx s) ++ [inl err]) (alive (tx s))),
     Ready (Ok tt))
  else (s, Pending).

(** [ResponseStream::poll_next]: the receiving half of the channel. *)
Definition response_poll (s : ResponseSender X) : ResponseSender X * Poll (X + bytes) :=
  match queue (tx s) with
  | [] => (s, Pending)
  | item :: q => (mkSender (encoder s) (mkChannel (cap (tx s)) q (alive (tx s))), Ready item)
  end.

(** One task that sends messages while the connection drains the channel: what ends up on the
    wire, or the first refusal. *)
Fixpoint send_all (msgs : list (bytes * Message)) (s : ResponseSender X) :
  ResponseSender X * bytes * outcome ProtocolError unit :=
  match msgs with
  | [] => (s, [], Ok tt)
  | (rnd, m) :: rest =>
      match send rnd m s with
      | (s', Ready (Ok _)) =>
          match response_poll s' with
          | (s'', Ready (inr b)) =>
              let '(z, w, r) := send_all rest s'' in (z, b ++ w, r)
          | (s'', _) => (s'', [], Panic)
          end
      | (s', Ready (Err e)) => (s', [], Err e)
      | (s', _) => (s', [], Panic)
      end
  end.

(** A task that starts with an empty channel. *)
Definition sender_idle (s : ResponseSender X) : Prop :=
  (encoder s).2 = [] /\ queue (tx s) = [] /\ 0 < cap (tx s) /\ alive (tx s) = true.

Lemma send_all_step rnd m msgs c n :
  0 < n ->
  send_all ((rnd, m) :: msgs) (mkSender (c, []) (mkChannel n [] true)) =
  match encode rnd m (c, []) with
  | ((c', b), Ok _) =>
      let '(z, w, r) := send_all msgs (mkSender (c', []) (mkChannel n [] true)) in (z, b ++ w, r)
  | (enc, Err e) => (mkSender enc (mkChannel n [] true), [], Err e)
  | (enc, Panic) => (mkSender enc (mkChannel n [] true), [], Panic)
  end.
Proof.
  intros Hn. simpl. unfold send. simpl. rewrite len_nil, (proj2 (Z.ltb_lt _ _)) by done.
  by destruct (encode rnd m (c, [])) as [[c' b] [u|e|]].
Qed.

(** Everything one task managed to send comes out at the peer. *)
Lemma send_all_decoded msgs enc dec n s' wire :
  0 < n -> peers enc dec -> stream_codec_ok dec ->
  Forall (fun km => key_ok km.1 /\ message_ok (max_size dec) km.2) msgs ->
  send_all msgs (mkSender (enc, []) (mkChannel n [] true)) = (s', wire, Ok tt) ->
  bytes_ok wire /\ decode_buffer dec wire = (omap (view ∘ snd) msgs, Ended).
Proof.
  intros Hn. revert enc dec wire. induction msgs as [|[rnd m] msgs IH]; intros enc dec wire Hp Hc Hall Hs.
  { simpl in Hs. simplify_eq. split; [constructor|done]. }
  rewrite send_all_step in Hs by done. inversion_clear Hall as [|? ? [Hk Hm] Hall'].
  destruct (encode rnd m (enc, [])) as [[enc' b] [[]|e|]] eqn:Ee; try done.
  destruct (send_all msgs _) as [[z w] r] eqn:Es. simplify_eq.
  destruct (encode_decode_step enc dec rnd m [] enc' b) as (w0 & dec' & -> & Hb & Hp' & Hmax & Hv);
    try done; [apply Hc|]. simpl app in *. simpl omap.
  assert (Hc' : stream_codec_ok dec').
  { destruct Hp' as (_ & ? & _). destruct Hc as (_ & ? & ?). unfold stream_codec_ok. by rewrite Hmax. }
  rewrite <- Hmax in Hall'. destruct (IH enc' dec' w Hp' Hc' Hall' Es) as [Hw IH'].
  split; [by apply bytes_ok_app|].
  unfold compose at 1. simpl. destruct (view m) as [v|] eqn:Ev.
  - pose proof (decode_buffer_step dec (w0 ++ w) Hc) as Hst.
    rewrite Hv in Hst. rewrite Hst by by apply bytes_ok_app. by rewrite IH'.
  - destruct Hv as [-> ->]. done.
Qed.

(** *** Senders on several threads

    [send] gives up the mutex before it fills the slot it reserved, so its three steps
    interleave with those of other threads that share the sender. *)
Inductive Sending :=
| Reserving (rnd : bytes) (m : Message)
| Reserved (rnd : bytes) (m : Message)
| Encoded (m : Message) (buf : bytes)
| Sent (m : Message)
| Refused (e : ProtocolError).

Record Shared := mkShared {
  sh_codec : Codec; sh_cap : Z; sh_queue : list bytes; sh_tasks : list Sending }.

Definition holds_permit (t : Sending) : bool :=
  match t with Reserved _ _ | Encoded _ _ => true | _ => false end.
Definition permits (ts : list Sending) : Z := len (filter (fun t => holds_permit t = true) ts).

Inductive sh_step : Shared -> Shared -> Prop :=
| step_reserve c n q ts1 ts2 rnd m :
    len q + permits (ts1 ++ Reserving rnd m :: ts2) < n ->
    sh_step (mkShared c n q (ts1 ++ Reserving rnd m :: ts2))
            (mkShared c n q (ts1 ++ Reserved rnd m :: ts2))
| step_encode c n q ts1 ts2 rnd m c' buf :
    encode rnd m (c, []) = ((c', buf), Ok tt) ->
    sh_step (mkShared c n q (ts1 ++ Reserved rnd m :: ts2))
            (mkShared c' n q (ts1 ++ Encoded m buf :: ts2))
| step_refuse c n q ts1 ts2 rnd m c' buf e :
    encode rnd m (c, []) = ((c', buf), Err e) ->
    sh_step (mkShared c n q (ts1 ++ Reserved rnd m :: ts2))
            (mkShared c' n q (ts1 ++ Refused e :: ts2))
| step_push c n q ts1 ts2 m buf :
    sh_step (mkShared c n q (ts1 ++ Encoded m buf :: ts2))
            (mkShared c n (q ++ [buf]) (ts1 ++ Sent m :: ts2))
| step_receive c n q b ts :
    sh_step (mkShared c n (b :: q) ts) (mkShared c n q ts).

Lemma permits_middle t u ts1 ts2 :
  permits (ts1 ++ t :: ts2) =
  permits (ts1 ++ u :: ts2) + (if holds_permit t then 1 else 0) - (if holds_permit u then 1 else 0).
Proof.
  unfold permits. rewrite !filter_app, !filter_cons.
  destruct (holds_permit t), (holds_permit u); simpl; autorewrite with len; lia.
Qed.

Definition bounded (s : Shared) : Prop := len (sh_queue s) + permits (sh_tasks s) <= sh_cap s.

Lemma sh_step_bounded s s' : sh_step s s' -> bounded s -> bounded s'.
Proof.
  unfold bounded. destruct 1; simpl; intros Hb.
  - rewrite (permits_middle (Reserved rnd m) (Reserving rnd m)). simpl. lia.
  - rewrite (permits_middle (Encoded m buf) (Reserved rnd m)). simpl. lia.
  - rewrite (permits_middle (Refused e) (Reserved rnd m)). simpl. lia.
  - rewrite (permits_middle (Sent m) (Encoded m buf)), len_app. simpl. unfold len at 2. simpl. lia.
  - rewrite len_cons in Hb. lia.
Qed.

(** *** Properties *)

(** C24: a [RequestStream] yields the same messages and the same end however the bytes are cut
    into chunks and wherever the inner stream is not ready: polling it to the end gives what
    decoding the whole input at once gives, it ends after at most one poll per byte and event,
    and never by a panic. *)
Theorem ws_stream_segmentation (r : RequestStream E) (n : nat) :
  stream_ok r -> (polls r <= n)%nat ->
  consume n r = decode_buffer (rcodec r) (rbuf r ++ incoming (stream r)) /\
  (consume n r).2 <> OutOfFuel /\ (consume n r).2 <> Panicked.
Proof.
  intros Hr Hn. pose proof Hr as (Hc & Hb & Hi & _). rewrite consume_spec by done. split; [done|].
  apply (decode_all_fuel (S (length (rbuf r ++ incoming (stream r))))); [done| |lia].
  by apply bytes_ok_app.
Qed.


(** With any number of threads sharing a [ResponseSender], the frames queued and the slots
    reserved never exceed the channel's capacity, in every interleaving of their steps. *)
Theorem ws_sender_backpressure s s' :
  rtc sh_step s s' -> bounded s -> len (sh_queue s') <= sh_cap s'.
Proof.
  intros Hs Hb. enough (H : bounded s').
  { unfold bounded, permits in H. pose proof (len_nonneg (filter (fun t => holds_permit t = true) (sh_tasks s'))).
    lia. }
  induction Hs as [|x y z Hxy _ IH]; [done|]. apply IH. by eapply sh_step_bounded.
Qed.
End Stream.

Lemma ws_stream_segmentation_witness :
  let r := request_stream_new (E := unit) [Chunk [129; 129; 48]; NotReady; Chunk [48; 48; 49; 49]] in
  consume 20 r = ([MText [1]], Ended) /\ (consume 20 r).2 <> OutOfFuel.
Proof.
  intros r. split; [reflexivity|].
  apply (ws_stream_segmentation r 20); [|apply (bool_decide_unpack _); vm_compute; exact I].
  split_and!; try apply codec_new_ok; simpl; try lia;
    try (apply (bool_decide_unpack _); vm_compute; exact I). repeat constructor.
Defined.

Definition peer_input : list (Event unit) := [Chunk [129; 1]; NotReady; Chunk [104; 136; 0]].

(** Two threads that share a sender: the text is encoded first, yet the close frame is queued
    (and so sent) before it, and both sends succeed. *)
Definition race_start : Shared :=
  mkShared codec_new 128 [] [Reserving [] (MText [104]); Reserving [] (MClose None)].
Definition race_end : Shared :=
  mkShared (mkCodec 5 128 65536) 128 [[136; 0]; [129; 1; 104]] [Sent (MText [104]); Sent (MClose None)].
Lemma ws_send_race : rtc sh_step race_start race_end.
Proof.
  eapply rtc_l; [apply (step_reserve codec_new 128 [] [] [_]); reflexivity|].
  eapply rtc_l; [apply (step_reserve codec_new 128 [] [Reserved _ _] []); reflexivity|].
  eapply rtc_l; [apply (step_encode codec_new 128 [] [] [_]); vm_compute; reflexivity|].
  eapply rtc_l; [apply (step_encode codec_new 128 [] [_] []); vm_compute; reflexivity|].
  eapply rtc_l; [apply (step_push _ 128 [] [_] [])|].
  eapply rtc_l; [apply (step_push _ 128 [[136; 0]] [] [_])|].
  apply rtc_refl.
Qed.

Lemma ws_sender_backpressure_witness : bounded race_start /\ len (sh_queue race_end) <= sh_cap race_end.
Proof.
  split; [vm_compute; congruence|].
  apply (ws_sender_backpressure _ _ ws_send_race). vm_compute. congruence.
Defined.
