(* ===== verification/WsHandshake.v ===== *)
(** * The WebSocket handshake (http-ws/src/lib.rs, proto.rs)

    The client's request, the server's checks and its response, over HTTP/1.1 and HTTP/2.
    SHA-1, base64 and the header map are libraries, hence parameters. *)

From S2P Require Import Prelude Utf8 Http WsProto WsMask WsFrame WsCodec WsStream.

(** The [sha1] and [base64] crates: a digest has 20 bytes; the standard alphabet with padding
    turns [n] bytes into [4 * ceil(n / 3)] visible characters. *)
Class Digest := {
  sha1 : bytes -> bytes;
  base64 : bytes -> bytes;
  sha1_len m : len (sha1 m) = 20;
  base64_len m : len (base64 m) = 4 * ((len m + 2) / 3);
  base64_visible m : Forall visible (base64 m);
}.

Inductive HandshakeError :=
| GetMethodRequired
| ConnectMethodRequired
| NoWebsocketUpgrade
| NoConnectionUpgrade
| NoVersionHeader
| UnsupportedVersion
| BadWebsocketKey.
#[global] Instance HandshakeError_eq_dec : EqDecision HandshakeError.
Proof. solve_decision. Defined.

Definition PROTOCOL := bs "protocol".
Definition WEBSOCKET := bs "websocket".
Definition UPGRADE_VALUE := bs "upgrade".
Definition SEC_WEBSOCKET_VERSION_VALUE := bs "13".
Definition WS_GUID := bs "258EAFA5-E914-47DA-95CA-C5AB0DC85B11".

Section Handshake.
Context `{HM : HeaderMap} `{D : Digest}.

(** [encode_slice] of the base64 engine: it fails when the output buffer is too small. *)
Definition encode_slice (input : bytes) (output_len : Z) : option bytes :=
  if len (base64 input) <=? output_len then Some (base64 input) else None.

(** [hash_key]: the [unwrap] and the [assert_eq!] are panics. *)
Definition hash_key {X} (key : bytes) : outcome X bytes :=
  h ← unwrap (encode_slice (sha1 (key ++ WS_GUID)) 28);
  if len h =? 28 then Ok h else Panic.

(** [impl From<HandshakeError> for Builder]. *)
Definition Builder_from_error (e : HandshakeError) : Builder :=
  match e with
  | GetMethodRequired =>
      mkBuilder _ StatusCode.METHOD_NOT_ALLOWED (hm_append Hdr.ALLOW (bs "GET") hm_empty)
  | _ => mkBuilder _ StatusCode.BAD_REQUEST hm_empty
  end.

(** [client_request_extend]; [rnd] is the 16 random bytes. *)
Definition client_request_extend (rnd : bytes) (req : RequestHead) : outcome HandshakeError RequestHead :=
  req ← match version req with
        | HTTP_11 =>
            let hs := hm_insert Hdr.UPGRADE WEBSOCKET (headers req) in
            let hs := hm_insert Hdr.CONNECTION UPGRADE_VALUE hs in
            output ← unwrap (encode_slice rnd 24);
            if len output =? 24 then
              v ← unwrap (from_bytes output);
              Ok (mkRequest _ (method req) HTTP_11 (hm_insert Hdr.SEC_WEBSOCKET_KEY v hs))
            else Panic
        | HTTP_2 => Ok (mkRequest _ CONNECT HTTP_2 (hm_insert PROTOCOL WEBSOCKET (headers req)))
        | _ => Ok req
        end;
  Ok (mkRequest _ (method req) (version req)
        (hm_insert Hdr.SEC_WEBSOCKET_VERSION SEC_WEBSOCKET_VERSION_VALUE (headers req))).

(** [ws_version_check]. *)
Definition ws_version_check (hs : hmap) : outcome HandshakeError unit :=
  value ← ok_or NoVersionHeader (hm_get Hdr.SEC_WEBSOCKET_VERSION hs);
  if negb (bool_decide (value = bs "13")) && negb (bool_decide (value = bs "8"))
     && negb (bool_decide (value = bs "7"))
  then Err UnsupportedVersion else Ok tt.

(** The header test [verify_handshake] makes twice. *)
Definition header_contains (name needle : bytes) (hs : hmap) : bool :=
  match hm_get name hs ≫= to_str with
  | Some s => contains needle (to_ascii_lowercase s)
  | None => false
  end.

(** [verify_handshake]. *)
Definition verify_handshake (m : Method) (hs : hmap) : outcome HandshakeError bytes :=
  if negb (bool_decide (m = GET)) then Err GetMethodRequired
  else if negb (header_contains Hdr.UPGRADE (bs "websocket") hs) then Err NoWebsocketUpgrade
  else if negb (header_contains Hdr.CONNECTION (bs "upgrade") hs) then Err NoConnectionUpgrade
  else
    _ ← ws_version_check hs;
    ok_or BadWebsocketKey (hm_get Hdr.SEC_WEBSOCKET_KEY hs).

(** [handshake_response]. *)
Definition handshake_response (key : bytes) : outcome HandshakeError Builder :=
  key ← hash_key key;
  v ← unwrap (from_bytes key);
  Ok (mkBuilder _ StatusCode.SWITCHING_PROTOCOLS
        (hm_append Hdr.SEC_WEBSOCKET_ACCEPT v
          (hm_append Hdr.CONNECTION UPGRADE_VALUE (hm_append Hdr.UPGRADE WEBSOCKET hm_empty)))).

(** [handshake] and [handshake_h2]. *)
Definition handshake (m : Method) (hs : hmap) : outcome HandshakeError Builder :=
  key ← verify_handshake m hs; handshake_response key.
Definition handshake_h2 (m : Method) (hs : hmap) : outcome HandshakeError Builder :=
  if negb (bool_decide (m = CONNECT)) then Err ConnectMethodRequired
  else _ ← ws_version_check hs; Ok (mkBuilder _ StatusCode.OK hm_empty).

(** [ws]: the message stream, the response and the sender. *)
Definition ws {E X} (req : RequestHead) (body : list (Event E)) :
  outcome HandshakeError (RequestStream E * Builder * ResponseSender X) :=
  builder ← match version req with
            | HTTP_2 => handshake_h2 (method req) (headers req)
            | _ => handshake (method req) (headers req)
            end;
  let decode := request_stream_new body in
  Ok (decode, builder, response_stream decode).

(** *** Lemmas *)

Lemma hash_key_total {X} key : hash_key (X := X) key = Ok (base64 (sha1 (key ++ WS_GUID))).
Proof.
  unfold hash_key, encode_slice.
  assert (Hl : len (base64 (sha1 (key ++ WS_GUID))) = 28) by by rewrite base64_len, sha1_len.
  rewrite Hl. cbn [unwrap mbind outcome_bind Z.leb Z.compare Pos.compare Pos.compare_cont]. by rewrite Hl.
Qed.

Lemma handshake_response_total key :
  handshake_response key = Ok (mkBuilder _ StatusCode.SWITCHING_PROTOCOLS
    (hm_append Hdr.SEC_WEBSOCKET_ACCEPT (base64 (sha1 (key ++ WS_GUID)))
      (hm_append Hdr.CONNECTION UPGRADE_VALUE (hm_append Hdr.UPGRADE WEBSOCKET hm_empty)))).
Proof.
  unfold handshake_response. rewrite hash_key_total. cbn [mbind outcome_bind].
  by rewrite from_bytes_visible by apply base64_visible.
Qed.

Lemma visible_bs s : forallb visibleb (bs s) = true -> Forall visible (bs s).
Proof.
  intros H. apply Forall_forall. intros b Hb%list_elem_of_In. rewrite forallb_forall in H.
  specialize (H b Hb). unfold visibleb in H. unfold visible. lia.
Qed.

Lemma header_contains_get name needle hs v :
  hm_get name hs = Some v -> Forall visible v ->
  header_contains name needle hs = contains needle (to_ascii_lowercase v).
Proof. intros Hg Hv. unfold header_contains. rewrite Hg. simpl. by rewrite to_str_visible. Qed.

(** The request the client prepares, header by header. *)
Lemma client_request_h1 rnd req :
  version req = HTTP_11 -> len rnd = 16 ->
  exists req', client_request_extend rnd req = Ok req' /\ method req' = method req /\
    version req' = HTTP_11 /\ hm_get Hdr.UPGRADE (headers req') = Some WEBSOCKET /\
    hm_get Hdr.CONNECTION (headers req') = Some UPGRADE_VALUE /\
    hm_get Hdr.SEC_WEBSOCKET_KEY (headers req') = Some (base64 rnd) /\
    hm_get Hdr.SEC_WEBSOCKET_VERSION (headers req') = Some SEC_WEBSOCKET_VERSION_VALUE.
Proof.
  intros Hv Hr. unfold client_request_extend, encode_slice. rewrite Hv.
  assert (Hl : len (base64 rnd) = 24) by by rewrite base64_len, Hr.
  rewrite Hl. cbn [unwrap mbind outcome_bind Z.leb Z.compare Pos.compare Pos.compare_cont].
  rewrite Hl, (from_bytes_visible (base64 rnd)) by apply base64_visible.
  cbn [unwrap mbind outcome_bind Z.eqb Pos.eqb method version headers].
  eexists. split; [done|]. cbn [method version headers].
  split_and!; try done; repeat (rewrite hm_get_insert_ne by done); by rewrite hm_get_insert.
Qed.

Lemma ws_version_check_13 hs :
  hm_get Hdr.SEC_WEBSOCKET_VERSION hs = Some SEC_WEBSOCKET_VERSION_VALUE -> ws_version_check hs = Ok tt.
Proof. intros H. unfold ws_version_check. by rewrite H. Qed.

(** *** Properties *)

(** The server's HTTP/1.1 handshake in full: which of the six errors a request meets and
    in which order, and for a request that passes, the 101 response with the upgrade headers and
    the accept key computed from the request's key; it never panics. *)
Theorem ws_handshake_decision m hs :
  handshake m hs =
  (if negb (bool_decide (m = GET)) then Err GetMethodRequired
  else if negb (header_contains Hdr.UPGRADE WEBSOCKET hs) then Err NoWebsocketUpgrade
  else if negb (header_contains Hdr.CONNECTION UPGRADE_VALUE hs) then Err NoConnectionUpgrade
  else match hm_get Hdr.SEC_WEBSOCKET_VERSION hs, hm_get Hdr.SEC_WEBSOCKET_KEY hs with
       | None, _ => Err NoVersionHeader
       | Some v, k =>
           if bool_decide (v ∈ [bs "13"; bs "8"; bs "7"])
           then match k with
                | None => Err BadWebsocketKey
                | Some key => handshake_response key
                end
           else Err UnsupportedVersion
       end)
  /\ handshake m hs <> Panic.
Proof.
  assert (Heq : forall r, handshake m hs = r -> r <> Panic -> handshake m hs = r /\ handshake m hs <> Panic)
    by (intros ? -> ?; done).
  apply Heq; clear Heq; unfold handshake, verify_handshake, ws_version_check.
  - fold WEBSOCKET UPGRADE_VALUE. case_bool_decide; [|done]. simpl negb. cbv iota.
    destruct (header_contains Hdr.UPGRADE _ hs); [|done].
    destruct (header_contains Hdr.CONNECTION _ hs); [|done]. simpl negb. cbv iota.
    destruct (hm_get Hdr.SEC_WEBSOCKET_VERSION hs) as [v|]; [|done]. cbn [ok_or mbind outcome_bind].
    assert (Hin : bool_decide (v ∈ [bs "13"; bs "8"; bs "7"])
      = bool_decide (v = bs "13") || bool_decide (v = bs "8") || bool_decide (v = bs "7")).
    { apply eq_true_iff_eq. rewrite !orb_true_iff, !bool_decide_eq_true, !elem_of_cons, elem_of_nil. tauto. }
    rewrite Hin. destruct (bool_decide (v = bs "13")), (bool_decide (v = bs "8")), (bool_decide (v = bs "7"));
      simpl; try done; by destruct (hm_get Hdr.SEC_WEBSOCKET_KEY hs).
  - repeat case_match; try done; rewrite handshake_response_total; done.
Qed.

(** Client and server agree on the handshake: a GET request over HTTP/1.1 that
    [client_request_extend] prepared is accepted by [ws], whose response switches protocols and
    carries the digest of the very key the client drew. *)
Theorem ws_handshake_agreement {E X} rnd req (body : list (Event E)) :
  version req = HTTP_11 -> method req = GET -> len rnd = 16 ->
  exists req' builder tx,
    client_request_extend rnd req = Ok req' /\
    ws (X := X) req' body = Ok (request_stream_new body, builder, tx) /\
    status builder = StatusCode.SWITCHING_PROTOCOLS /\
    hm_get Hdr.SEC_WEBSOCKET_ACCEPT (res_headers builder)
    = Some (base64 (sha1 (base64 rnd ++ WS_GUID))).
Proof.
  intros Hv Hm Hr. destruct (client_request_h1 rnd req Hv Hr) as (req' & Hreq & Hm' & Hv' & Hu & Hc & Hk & Hver).
  rewrite Hm in Hm'. eexists req', _, _. split; [done|].
  unfold ws, handshake, verify_handshake. rewrite Hv', Hm'.
  rewrite (header_contains_get _ _ _ _ Hu), (header_contains_get _ _ _ _ Hc) by by apply visible_bs.
  rewrite (ws_version_check_13 _ Hver), Hk.
  change (contains (bs "websocket") (to_ascii_lowercase WEBSOCKET)) with true.
  change (contains (bs "upgrade") (to_ascii_lowercase UPGRADE_VALUE)) with true.
  cbn [negb ok_or mbind outcome_bind]. rewrite bool_decide_eq_true_2 by done. cbn [negb].
  cbn [mbind outcome_bind]. rewrite handshake_response_total. cbn [mbind outcome_bind]. split; [done|]. split; [done|].
  cbn [res_headers]. apply hm_get_append_none.
  rewrite !hm_get_all_append_ne by done. apply hm_get_all_empty.
Qed.
End Handshake.

(** A digest and an encoding of the right sizes, to run the handshake on. *)
Definition sextets (m : bytes) : bytes := replicate (Z.to_nat (4 * ((len m + 2) / 3))) 65.
Definition toy_digest : Digest.
Proof.
  refine {| sha1 := fun _ => replicate 20 0; base64 := sextets |}.
  - done.
  - intros m. unfold sextets, len at 1. rewrite length_replicate. pose proof (len_nonneg m).
    rewrite Z2Nat.id; [done|]. assert (0 <= (len m + 2) / 3) by (apply Z.div_pos; lia). lia.
  - intros m. apply Forall_replicate. unfold visible. lia.
Defined.

Lemma ws_handshake_agreement_witness :
  exists builder, status (H := assoc_map) builder = StatusCode.SWITCHING_PROTOCOLS.
Proof.
  destruct (ws_handshake_agreement (D := toy_digest) (E := unit) (X := unit) (replicate 16 7)
              (mkRequest assoc_map GET HTTP_11 hm_empty) []) as (r & b & t & _ & _ & H & _);
    [reflexivity..|]. by exists b.
Defined.
