(* ===== verification/RateGcra.v ===== *)
(** * The rate limiting algorithm (http-rate/src/nanos.rs, quota.rs, gcra.rs, snapshot.rs, timer.rs)

    Nanosecond counts are 64-bit; a [Duration] is its number of nanoseconds.  The generic cell
    rate algorithm is the pure decision [gcra_decide] / [gcra_decide_n] the closures of
    [test_and_update] / [test_n_all_and_update] compute, handed to a state store through the
    interface [StateStore]. *)

From S2P Require Import Prelude Http.

(** [Nanos(u64)] and its operators; a failed [expect], an overflow or a division by zero panics. *)
Abbreviation Nanos := Z (only parsing).
Abbreviation Duration := Z (only parsing).
Definition nanos_from_duration {E} (d : Duration) : outcome E Nanos := if d <? 2 ^ 64 then Ok d else Panic.
Definition nanos_add {E} (a b : Nanos) : outcome E Nanos := add_chk 64 a b.
Definition nanos_mul {E} (a : Nanos) (n : Z) : outcome E Nanos := mul_chk 64 a n.
Definition nanos_div {E} (a b : Nanos) : outcome E Z := if b =? 0 then Panic else Ok (a / b).
Definition nanos_saturating_sub (a b : Nanos) : Nanos := saturating_sub a b.
Definition nanos_add_duration {E} (a : Nanos) (d : Duration) : outcome E Nanos :=
  n ← nanos_from_duration d; nanos_add a n.

(** The longest [Duration]: [u64::MAX] seconds and 999,999,999 nanoseconds. *)
Definition duration_limit : Z := 2 ^ 64 * 10 ^ 9.
Definition duration_mul {E} (d : Duration) (n : Z) : outcome E Duration :=
  if d * n <? duration_limit then Ok (d * n) else Panic.
Definition duration_add {E} (a b : Duration) : outcome E Duration :=
  if a + b <? duration_limit then Ok (a + b) else Panic.
Definition as_secs (d : Duration) : Z := d / 10 ^ 9.

(** [trait Reference]: a point in time.  [later_by] is [Add<Nanos>], [ref_le] the order. *)
Class Reference (P : Type) := {
  duration_since {E} : P -> P -> outcome E Nanos;
  ref_saturating_sub : P -> Nanos -> P;
  later_by {E} : P -> Nanos -> outcome E P;
  ref_le : P -> P -> bool;
}.
Definition ref_min {P} `{Reference P} (a b : P) : P := if ref_le a b then a else b.

(** Points in time as a number of nanoseconds since some origin, one type per implementation. *)
Record RNanos := mkRNanos { rn : Z }.
Record RDuration := mkRDuration { rd : Z }.
Record RInstant := mkRInstant { ri : Z }.

#[global] Instance Reference_Nanos : Reference RNanos := {
  duration_since E self earlier := Ok (nanos_saturating_sub (rn self) (rn earlier));
  ref_saturating_sub self d := mkRNanos (nanos_saturating_sub (rn self) d);
  later_by E self d := mkRNanos <$> nanos_add (rn self) d;
  ref_le a b := rn a <=? rn b;
}.
(** [Duration::checked_sub] is [None] below zero. *)
Definition checked_sub (a b : Z) : option Z := if b <=? a then Some (a - b) else None.
#[global] Instance Reference_Duration : Reference RDuration := {
  duration_since E self earlier :=
    nanos_from_duration (default 0 (checked_sub (rd self) (rd earlier)));
  ref_saturating_sub self d := mkRDuration (default (rd self) (checked_sub (rd self) d));
  later_by E self d := mkRDuration <$> duration_add (rd self) d;
  ref_le a b := rd a <=? rd b;
}.
(** An [Instant] counts 64-bit signed seconds; adding past that range panics. *)
Definition instant_add {E} (a : Z) (b : Duration) : outcome E Z :=
  if a + b <? 2 ^ 63 * 10 ^ 9 then Ok (a + b) else Panic.
#[global] Instance Reference_Instant : Reference RInstant := {
  duration_since E self earlier :=
    if ri earlier <? ri self then nanos_from_duration (ri self - ri earlier) else nanos_from_duration 0;
  ref_saturating_sub self d := mkRInstant (default (ri self) (checked_sub (ri self) d));
  later_by E self d := mkRInstant <$> instant_add (ri self) d;
  ref_le a b := ri a <=? ri b;
}.

(** *** Quotas *)
Record Quota := mkQuota { max_burst : Z; replenish_1_per : Duration }.
#[global] Instance Quota_eq_dec : EqDecision Quota.
Proof. solve_decision. Defined.

(** [NonZeroU32::try_from(..).unwrap()]. *)
Definition non_zero_u32 {E} (b : Z) : outcome E Z := if (0 <? b) && (b <? 2 ^ 32) then Ok b else Panic.

(** [Quota::new]: [dur_ns as u64]. *)
Definition quota_new (max_burst dur_ns : Z) : Quota := mkQuota max_burst (wrap 64 dur_ns).
Definition per_second {E} (b : Z) : outcome E Quota :=
  max_burst ← non_zero_u32 b; Ok (quota_new max_burst (10 ^ 9 / max_burst)).
Definition per_minute {E} (b : Z) : outcome E Quota :=
  max_burst ← non_zero_u32 b; Ok (quota_new max_burst (60 * 10 ^ 9 / max_burst)).
Definition per_hour {E} (b : Z) : outcome E Quota :=
  max_burst ← non_zero_u32 b; Ok (quota_new max_burst (60 * 60 * 10 ^ 9 / max_burst)).
Definition with_period (replenish_1_per : Duration) : option Quota :=
  if replenish_1_per =? 0 then None else Some (mkQuota 1 replenish_1_per).
Definition allow_burst {E} (b : Z) (q : Quota) : outcome E Quota :=
  max_burst ← non_zero_u32 b; Ok (mkQuota max_burst (replenish_1_per q)).
(** [Quota::from_gcra_parameters]: [as u32] truncates. *)
Definition from_gcra_parameters {E} (t tau : Nanos) : outcome E Quota :=
  q ← nanos_div tau t;
  max_burst ← non_zero_u32 (wrap 32 q);
  Ok (mkQuota max_burst t).

(** *** Snapshots *)
Record RateSnapshot := mkSnapshot { s_t : Nanos; s_tau : Nanos; time_of_measurement : Nanos; tat : Nanos }.
#[global] Instance RateSnapshot_eq_dec : EqDecision RateSnapshot.
Proof. solve_decision. Defined.
Definition snapshot_quota {E} (s : RateSnapshot) : outcome E Quota := from_gcra_parameters (s_t s) (s_tau s).
Definition remaining_burst_capacity {E} (s : RateSnapshot) : outcome E Z :=
  t0 ← nanos_add (time_of_measurement s) (s_t s);
  full ← nanos_add t0 (s_tau s);
  q ← nanos_div (Z.min (nanos_saturating_sub full (tat s)) (s_tau s)) (s_t s);
  Ok (wrap 32 q).

(** *** Refusals *)
Record NotUntil (P : Type) := mkNotUntil { n_state : RateSnapshot; n_start : P }.
Arguments mkNotUntil {P} n_state n_start.
Arguments n_state {P} _.
Arguments n_start {P} _.
Definition earliest_possible {E P} `{Reference P} (n : NotUntil P) : outcome E P :=
  later_by (n_start n) (tat (n_state n)).
Definition wait_time_from {E P} `{Reference P} (from : P) (n : NotUntil P) : outcome E Duration :=
  earliest ← earliest_possible n;
  duration_since earliest (ref_min earliest from).
Definition not_until_quota {E P} (n : NotUntil P) : outcome E Quota := snapshot_quota (n_state n).

Record InsufficientCapacity := mkInsufficient { capacity_left : Z }.

(** *** The store interface *)

(** [trait StateStore]: [measure_and_replace] hands the arrival time kept for the key to the
    decision [f] and keeps the new one when [f] accepts.  [stored] is what a store keeps for a
    key; a key with no (or a zero) arrival time reads as [None]. *)
Class StateStore (S K : Type) := {
  measure_and_replace {T E} : K -> (option Nanos -> outcome E (T * Nanos)) -> M S E T;
  stored : S -> K -> option Nanos;
  measure_and_replace_spec {T E} k (f : option Nanos -> outcome E (T * Nanos)) s :
    let '(s', r) := measure_and_replace k f s in
    match f (stored s k) with
    | Ok (x, new) => r = Ok x /\ stored s' k = (if new =? 0 then None else Some new)
    | Err e => r = Err e /\ stored s' k = stored s k
    | Panic => r = Panic /\ stored s' k = stored s k
    end /\ forall k', k' <> k -> stored s' k' = stored s k';
}.

(** *** The algorithm *)
Record Gcra := mkGcra { g_t : Nanos; g_tau : Nanos }.
#[global] Instance Gcra_eq_dec : EqDecision Gcra.
Proof. solve_decision. Defined.

(** [Gcra::new]. *)
Definition gcra_new {E} (quota : Quota) : outcome E Gcra :=
  d ← duration_mul (Z.max (replenish_1_per quota) 1) (max_burst quota);
  tau ← nanos_from_duration d;
  t ← nanos_from_duration (replenish_1_per quota);
  Ok (mkGcra t tau).
Definition starting_state {E} (g : Gcra) (t0 : Nanos) : outcome E Nanos := nanos_add t0 (g_t g).

Section Gcra.
Context {P : Type} `{Reference P}.

(** The closure of [test_and_update]. *)
Definition gcra_decide (g : Gcra) (start : P) (t0 : Nanos) (tat : option Nanos) :
  outcome (NotUntil P) (RateSnapshot * Nanos) :=
  tat ← match tat with Some x => Ok x | None => starting_state g t0 end;
  let earliest_time := nanos_saturating_sub tat (g_tau g) in
  if t0 <? earliest_time then
    Err (mkNotUntil (mkSnapshot (g_t g) (g_tau g) earliest_time earliest_time) start)
  else
    next ← nanos_add (Z.max tat t0) (g_t g);
    Ok (mkSnapshot (g_t g) (g_tau g) t0 next, next).

(** The closure of [test_n_all_and_update]. *)
Definition gcra_decide_n (g : Gcra) (start : P) (additional_weight t0 : Nanos) (tat : option Nanos) :
  outcome (NotUntil P) (RateSnapshot * Nanos) :=
  tat ← match tat with Some x => Ok x | None => starting_state g t0 end;
  weighted ← nanos_add tat additional_weight;
  let earliest_time := nanos_saturating_sub weighted (g_tau g) in
  if t0 <? earliest_time then
    Err (mkNotUntil (mkSnapshot (g_t g) (g_tau g) earliest_time earliest_time) start)
  else
    one ← nanos_add (Z.max tat t0) (g_t g);
    next ← nanos_add one additional_weight;
    Ok (mkSnapshot (g_t g) (g_tau g) t0 next, next).

Context {S K : Type} `{Store : StateStore S K}.

(** [Gcra::test_and_update]. *)
Definition test_and_update (g : Gcra) (start : P) (key : K) (t0 : P) : M S (NotUntil P) RateSnapshot :=
  t0 ← lift (duration_since t0 start);
  measure_and_replace key (gcra_decide g start t0).

(** [Gcra::test_n_all_and_update]: refused for good when the bucket is too small. *)
Definition test_n_all_and_update (g : Gcra) (start : P) (key : K) (n : Z) (t0 : P) :
  M S (NotUntil P) (RateSnapshot + InsufficientCapacity) :=
  t0 ← lift (duration_since t0 start);
  additional_weight ← lift (nanos_mul (g_t g) (n - 1));
  whole ← lift (nanos_add additional_weight (g_t g));
  if g_tau g <? whole then
    c ← lift (nanos_div (g_tau g) (g_t g));
    mret (inr (mkInsufficient (wrap 32 c)))
  else
    s ← measure_and_replace key (gcra_decide_n g start additional_weight t0);
    mret (inl s).

(** *** Sequences of checks *)

(** The requests a limiter sees, one after the other: the time (since [start]) of those of key
    [k] that it admits. *)
Fixpoint admitted (g : Gcra) (start : P) `{EqDecision K} (k : K) (reqs : list (K * P)) (s : S) : list Nanos :=
  match reqs with
  | [] => []
  | (k', p) :: rest =>
      let '(s', r) := test_and_update g start k' p s in
      match r with
      | Ok snap => if decide (k' = k) then time_of_measurement snap :: admitted g start k rest s'
                   else admitted g start k rest s'
      | _ => admitted g start k rest s'
      end
  end.

(** Any [n + 1] consecutive admissions take at least [n * t - tau]. *)
Definition conforming (t tau : Z) (l : list Nanos) : Prop :=
  forall i j ai aj, (i < j)%nat -> l !! i = Some ai -> l !! j = Some aj ->
  (Z.of_nat j - Z.of_nat i) * t <= tau + (aj - ai).

Lemma gcra_decide_ok g start t0 st snap next :
  gcra_decide g start t0 st = Ok (snap, next) ->
  let x := default (t0 + g_t g) st in
  time_of_measurement snap = t0 /\ tat snap = next /\ s_t snap = g_t g /\ s_tau snap = g_tau g /\
  x - g_tau g <= t0 /\ next = Z.max x t0 + g_t g.
Proof.
  unfold gcra_decide, starting_state, nanos_add, add_chk, nanos_saturating_sub, saturating_sub.
  intros Hd. destruct st as [x|]; cbn [mbind outcome_bind default] in *.
  - break_in Hd. apply Z.ltb_ge in E. simplify_eq. simpl. repeat split; lia.
  - destruct (t0 + g_t g <? 2 ^ 64); [|done]. cbn [mbind outcome_bind] in Hd. break_in Hd.
    apply Z.ltb_ge in E. simplify_eq. simpl. repeat split; lia.
Qed.

(** One check, through the store's interface. *)
Lemma test_and_update_spec g start k p s :
  let '(s', r) := test_and_update g start k p s in
  match duration_since p start with
  | Ok t0 =>
      match gcra_decide g start t0 (stored s k) with
      | Ok (snap, new) => r = Ok snap /\ stored s' k = (if new =? 0 then None else Some new)
      | Err e => r = Err e /\ stored s' k = stored s k
      | Panic => r = Panic /\ stored s' k = stored s k
      end
  | Err e => r = Err e /\ stored s' k = stored s k
  | Panic => r = Panic /\ stored s' k = stored s k
  end /\ forall k', k' <> k -> stored s' k' = stored s k'.
Proof.
  unfold test_and_update, lift, mbind, M_bind. destruct (duration_since p start) as [t0|e|]; try done.
  pose proof (measure_and_replace_spec k (gcra_decide g start t0) s) as Hm.
  by destruct (measure_and_replace _ _ s).
Qed.

Lemma admitted_after g start `{EqDecision K} k reqs s x j aj :
  0 < g_t g -> 0 <= x -> stored s k = Some x -> admitted g start k reqs s !! j = Some aj ->
  x + Z.of_nat j * g_t g <= aj + g_tau g.
Proof.
  intros Ht. revert s x j. induction reqs as [|[k' p] reqs IH]; intros s x j Hx Hs Hj; [done|].
  simpl in Hj. pose proof (test_and_update_spec g start k' p s) as Ht'.
  destruct (test_and_update g start k' p s) as [s' r]. destruct Ht' as [Hk Hother].
  destruct (decide (k' = k)) as [->|Hne].
  - destruct (duration_since p start) as [t0|e|];
      [|destruct Hk as [-> Hk]; rewrite Hs in Hk; eauto..].
    destruct (gcra_decide g start t0 (stored s k)) as [[snap new]|e|] eqn:Ed;
      [|destruct Hk as [-> Hk]; rewrite Hs in Hk; eauto..].
    apply gcra_decide_ok in Ed. rewrite Hs in Ed. simpl in Ed. destruct Ed as (Hm & _ & _ & _ & Hle & ->).
    destruct Hk as [-> Hk]. rewrite (proj2 (Z.eqb_neq _ _)) in Hk by lia.
    destruct j as [|j]; simpl in Hj; [injection Hj as <-; lia|].
    specialize (IH s' (Z.max x t0 + g_t g) j ltac:(lia) Hk Hj). lia.
  - assert (Hs' : stored s' k = Some x) by (rewrite Hother; done).
    destruct r; eauto.
Qed.

Lemma admitted_conforming g start `{EqDecision K} k reqs s :
  0 < g_t g -> (forall x, stored s k = Some x -> 0 <= x) ->
  (forall p t0, duration_since p start = Ok (E := NotUntil P) t0 -> 0 <= t0) ->
  conforming (g_t g) (g_tau g) (admitted g start k reqs s).
Proof.
  intros Ht Hs0 Hd. revert s Hs0. induction reqs as [|[k' p] reqs IH]; intros s Hs0; [by intros ???????|].
  simpl. pose proof (test_and_update_spec g start k' p s) as Ht'.
  destruct (test_and_update g start k' p s) as [s' r]. destruct Ht' as [Hk Hother].
  destruct (decide (k' = k)) as [->|Hne].
  - specialize (Hd p). destruct (duration_since p start) as [t0|e|];
      [|destruct Hk as [-> Hk]; rewrite <- Hk in Hs0; eauto..]. specialize (Hd t0 eq_refl).
    destruct (gcra_decide g start t0 (stored s k)) as [[snap new]|e|] eqn:Ed;
      [|destruct Hk as [-> Hk]; rewrite <- Hk in Hs0; eauto..].
    apply gcra_decide_ok in Ed. destruct Ed as (Hm & _ & _ & _ & Hle & Hn).
    destruct Hk as [-> Hk]. rewrite (proj2 (Z.eqb_neq _ _)) in Hk by lia.
    intros i j ai aj Hij Hi Hj. destruct j as [|j]; [lia|]. simpl in Hj.
    pose proof (admitted_after g start k reqs s' new j aj Ht ltac:(lia) Hk Hj) as Ha.
    destruct i as [|i]; simpl in Hi; [injection Hi as <-; lia|].
    assert (IH' := IH s' ltac:(intros y; rewrite Hk; intros [= <-]; lia) i j ai aj ltac:(lia) Hi Hj). lia.
  - rewrite <- (Hother k) in Hs0 by done. destruct r; eauto.
Qed.
End Gcra.

(** *** Decisions within a time horizon *)

(** A limiter whose clock stays within [h] nanoseconds of its start never overflows. *)
Definition gcra_ok (g : Gcra) (h : Z) : Prop :=
  0 < g_t g <= g_tau g /\ 0 <= h /\ h + g_tau g + g_t g < 2 ^ 64.
Definition tat_ok (g : Gcra) (h : Z) (st : option Nanos) : Prop :=
  forall x, st = Some x -> 0 < x <= h + g_tau g + g_t g.

Section Horizon.
Context {P : Type} `{Reference P} (g : Gcra) (start : P) (h : Z) (Hg : gcra_ok g h).

Lemma gcra_decide_total t0 st :
  0 <= t0 <= h -> tat_ok g h st ->
  gcra_decide g start t0 st =
  let x := default (t0 + g_t g) st in
  if t0 <? x - g_tau g
  then Err (mkNotUntil (mkSnapshot (g_t g) (g_tau g) (x - g_tau g) (x - g_tau g)) start)
  else Ok (mkSnapshot (g_t g) (g_tau g) t0 (Z.max x t0 + g_t g), Z.max x t0 + g_t g).
Proof.
  intros Ht0 Hst. destruct Hg as (Ht & Hh & H64).
  unfold gcra_decide, starting_state, nanos_add, add_chk, nanos_saturating_sub, saturating_sub.
  assert (Hx : match st with Some x => Ok (E := NotUntil P) x | None => if t0 + g_t g <? 2 ^ 64 then Ok (t0 + g_t g) else Panic end
               = Ok (default (t0 + g_t g) st)).
  { destruct st; [done|]. by rewrite (proj2 (Z.ltb_lt _ _)) by lia. }
  rewrite Hx. cbn [mbind outcome_bind]. clear Hx.
  assert (Hb : 0 < default (t0 + g_t g) st <= h + g_tau g + g_t g)
    by (destruct st as [x|]; [by apply Hst|simpl; lia]).
  set (x := default _ st) in *. clearbody x.
  replace (t0 <? Z.max 0 (x - g_tau g)) with (t0 <? x - g_tau g)
    by (destruct (Z.ltb_spec t0 (x - g_tau g)), (Z.ltb_spec t0 (Z.max 0 (x - g_tau g))); try done; lia).
  destruct (Z.ltb_spec t0 (x - g_tau g)).
  - by rewrite Z.max_r by lia.
  - by rewrite (proj2 (Z.ltb_lt _ _)) by lia.
Qed.

(** [n] admissions in a row at one instant. *)
Fixpoint admit_n (t0 : Nanos) (n : nat) (st : option Nanos) : outcome (NotUntil P) (option Nanos) :=
  match n with
  | O => Ok st
  | S k => r ← gcra_decide g start t0 st; admit_n t0 k (Some r.2)
  end.

Lemma admit_n_later t0 n y :
  0 <= t0 <= h -> t0 <= y -> tat_ok g h (Some y) ->
  match admit_n t0 n (Some y) with
  | Ok st => st = Some (y + Z.of_nat n * g_t g) /\ (n = O \/ y + (Z.of_nat n - 1) * g_t g <= t0 + g_tau g)
  | Err _ => n <> O /\ t0 + g_tau g < y + (Z.of_nat n - 1) * g_t g
  | Panic => False
  end.
Proof.
  intros Ht0. destruct Hg as (Ht & Hh & H64). revert y. induction n as [|n IH]; intros y Hy Hok.
  { simpl. split; [f_equal; lia|auto]. }
  simpl. rewrite gcra_decide_total by done. simpl.
  destruct (Z.ltb_spec t0 (y - g_tau g)); cbn [mbind outcome_bind snd]; [split; [done|nia]|].
  rewrite Z.max_l by lia. specialize (IH (y + g_t g) ltac:(lia) ltac:(intros ? [= <-]; lia)).
  destruct (admit_n t0 n (Some (y + g_t g))); [|destruct IH; split; [done|lia]|done].
  destruct IH as [-> [->|?]]; (split; [f_equal; lia|right; lia]).
Qed.

(** From any state: the first admission looks at the stored time, the others at the new one. *)
Lemma admit_n_any t0 n st :
  0 <= t0 <= h -> tat_ok g h st ->
  let x := default (t0 + g_t g) st in
  match admit_n t0 (S n) st with
  | Ok st' => st' = Some (Z.max x t0 + Z.of_nat (S n) * g_t g) /\
      Z.max x t0 + Z.of_nat n * g_t g <= t0 + g_tau g
  | Err _ => t0 + g_tau g < Z.max x t0 + Z.of_nat n * g_t g
  | Panic => False
  end.
Proof.
  intros Ht0 Hst x. pose proof Hg as (Ht & Hh & H64). cbn [admit_n]. rewrite gcra_decide_total by done.
  fold x. cbv zeta. assert (Hx : 0 < x <= h + g_tau g + g_t g)
    by (unfold x; destruct st as [y|]; [by apply Hst|simpl; lia]).
  destruct (Z.ltb_spec t0 (x - g_tau g)); cbn [mbind outcome_bind snd]; [nia|].
  pose proof (admit_n_later t0 n (Z.max x t0 + g_t g) Ht0 ltac:(lia) ltac:(intros ? [= <-]; lia)) as Hl.
  destruct (admit_n t0 n _); [|destruct Hl; lia|done].
  destruct Hl as [-> [->|?]]; (split; [f_equal; lia|lia]).
Qed.
End Horizon.

(** *** Properties *)

(** C21: the rate guarantee.  Over any sequence of checks of any keys, whatever the state the
    store starts in and whatever store implements the interface, any [n + 1] consecutive
    admissions of one key span at least [n * t - tau] nanoseconds: at most [burst + 1] at once and
    one per replenish interval in the long run. *)
Theorem rate_guarantee {P S K} `{Reference P, EqDecision K, StateStore S K} g (start : P) (k : K) reqs (s : S) :
  0 < g_t g -> (forall x, stored s k = Some x -> 0 <= x) ->
  (forall p t0, duration_since p start = Ok (E := NotUntil P) t0 -> 0 <= t0) ->
  conforming (g_t g) (g_tau g) (admitted g start k reqs s).
Proof. apply admitted_conforming. Qed.

(** How many cells pass at one instant: a key never seen before passes exactly its burst
    size, a key that has been idle until its arrival time passes exactly one more. *)
Theorem burst_size_exact {P} `{Reference P} g (start : P) h b t0 st n :
  gcra_ok g h -> g_tau g = b * g_t g -> 0 <= t0 <= h -> tat_ok g h st ->
  match st with None => True | Some x => x <= t0 end ->
  (exists st', admit_n g start t0 n st = Ok st')
  <-> Z.of_nat n <= (match st with None => b | Some _ => b + 1 end).
Proof.
  intros Hg Htau Ht0 Hst Hidle. pose proof Hg as (Ht & Hh & H64).
  destruct n as [|n].
  { split; [intros _; destruct st; nia|intros _; by eexists]. }
  pose proof (admit_n_any g start h Hg t0 n st Ht0 Hst) as Hn. cbv zeta in Hn.
  destruct (admit_n g start t0 (S n) st) as [st'|e|]; [| |done].
  - split; [intros _|intros _; by eexists]. destruct Hn as [_ Hn].
    destruct st as [x|]; simpl in Hn; nia.
  - split; [by intros [? ?]|]. destruct st as [x|]; simpl in Hn; nia.
Qed.

(** The [x-ratelimit-remaining] value of an admitted request is exact: it is the number of
    further requests of that key that would be admitted at the same instant. *)
Theorem remaining_capacity_exact {P} `{Reference P} g (start : P) h t0 st snap new :
  gcra_ok g h -> g_tau g / g_t g < 2 ^ 32 -> 0 <= t0 <= h -> tat_ok g h st ->
  gcra_decide g start t0 st = Ok (snap, new) ->
  exists r, remaining_burst_capacity (E := NotUntil P) snap = Ok r /\
  forall n, (exists st', admit_n g start t0 n (Some new) = Ok st') <-> Z.of_nat n <= r.
Proof.
  intros Hg Hb Ht0 Hst Hd. pose proof Hg as (Ht & Hh & H64).
  apply gcra_decide_ok in Hd. destruct Hd as (Hm & Htat & Hst' & Htau & Hle & Hn). cbv zeta in *.
  set (x := default (t0 + g_t g) st) in *.
  assert (Hx : 0 < x <= h + g_tau g + g_t g) by (unfold x; destruct st as [y|]; [by apply Hst|simpl; lia]).
  exists ((t0 + g_t g + g_tau g - new) / g_t g).
  assert (Hnew : t0 + g_t g <= new <= t0 + g_tau g + g_t g) by lia. split.
  - unfold remaining_burst_capacity, nanos_add, add_chk, nanos_div, nanos_saturating_sub, saturating_sub.
    rewrite Hm, Htat, Hst', Htau. rewrite !(proj2 (Z.ltb_lt _ _)) by lia. cbn [mbind outcome_bind].
    rewrite (proj2 (Z.ltb_lt _ _)) by lia. cbn [mbind outcome_bind].
    rewrite (proj2 (Z.eqb_neq _ _)) by lia. cbn [mbind outcome_bind].
    rewrite Z.max_r, Z.min_l by lia. f_equal. unfold wrap. apply Z.mod_small. split; [apply Z.div_pos; lia|].
    eapply Z.le_lt_trans; [|exact Hb]. apply Z.div_le_mono; lia.
  - intros n. pose proof (admit_n_later g start h Hg t0 n new Ht0 ltac:(lia) ltac:(intros ? [= <-]; lia)) as Hl.
    destruct n as [|n].
    { split; [intros _; simpl; apply Z.div_pos; lia|intros _; by eexists]. }
    assert (Hdiv : Z.of_nat (S n) <= (t0 + g_t g + g_tau g - new) / g_t g
                   <-> new + (Z.of_nat (S n) - 1) * g_t g <= t0 + g_tau g).
    { split; intros Hle'.
      - pose proof (Z.mul_div_le (t0 + g_t g + g_tau g - new) (g_t g) ltac:(lia)). nia.
      - apply Z.div_le_lower_bound; nia. }
    rewrite Hdiv. destruct (admit_n g start t0 (S n) (Some new)); [|destruct Hl|done].
    + split; [intros _; destruct Hl; lia|intros _; by eexists].
    + split; [by intros [? ?]|lia].
Qed.

(** The wait time a refusal reports is exact: the key is refused at every instant before it
    is over and admitted when it is. *)
Theorem wait_time_exact g (start now : RInstant) h st n :
  gcra_ok g h -> ri start <= ri now -> 0 <= ri start -> ri now - ri start <= h ->
  ri start + 2 ^ 64 < 2 ^ 63 * 10 ^ 9 -> tat_ok g h st ->
  gcra_decide g start (ri now - ri start) st = Err n ->
  exists w, wait_time_from (E := NotUntil RInstant) now n = Ok w /\ 0 < w /\
  forall d, 0 <= d <= w -> ri now - ri start + d <= h ->
    (exists r, gcra_decide g start (ri now - ri start + d) st = Ok r) <-> d = w.
Proof.
  intros Hg Hsn Hs0 Hnh Hi Hst Hd. pose proof Hg as (Ht & Hh & H64).
  rewrite (gcra_decide_total g start h Hg) in Hd by (done || lia). cbv zeta in Hd.
  destruct st as [x|]; simpl in Hd.
  2: { exfalso. rewrite (proj2 (Z.ltb_ge _ _)) in Hd by lia. done. }
  specialize (Hst x eq_refl) as Hx.
  destruct (Z.ltb_spec (ri now - ri start) (x - g_tau g)) as [Hlt|]; [|done]. injection Hd as <-.
  exists (x - g_tau g - (ri now - ri start)). split; [|split; [lia|]].
  - unfold wait_time_from, earliest_possible, later_by, Reference_Instant, instant_add. cbn [n_start n_state tat].
    rewrite (proj2 (Z.ltb_lt _ _)) by lia. cbn [fmap outcome_fmap mbind outcome_bind].
    unfold ref_min, ref_le. cbn [ri]. rewrite (proj2 (Z.leb_gt _ _)) by lia.
    unfold duration_since, nanos_from_duration. cbn [ri].
    rewrite (proj2 (Z.ltb_lt _ _)) by lia. rewrite (proj2 (Z.ltb_lt _ _)) by lia. f_equal. lia.
  - intros d Hd Hdh. rewrite (gcra_decide_total g start h Hg) by (done || lia). simpl.
    destruct (Z.ltb_spec (ri now - ri start + d) (x - g_tau g)).
    + split; [by intros [? ?]|lia].
    + split; [lia|intros _; by eexists].
Qed.

(** A limiter's parameters determine its quota: building the algorithm from a quota whose
    replenish interval is positive and whose burst fits 64-bit nanoseconds never panics, and
    [Quota::from_gcra_parameters] gives the quota back. *)
Theorem quota_roundtrip {E} q :
  0 < max_burst q < 2 ^ 32 -> 0 < replenish_1_per q -> replenish_1_per q * max_burst q < 2 ^ 64 ->
  exists g, gcra_new (E := E) q = Ok g /\ from_gcra_parameters (E := E) (g_t g) (g_tau g) = Ok q /\
    g_tau g = max_burst q * g_t g.
Proof.
  intros Hb Ht H64. destruct q as [b t]; simpl in *. exists (mkGcra t (t * b)).
  unfold gcra_new, duration_mul, nanos_from_duration, from_gcra_parameters, nanos_div, non_zero_u32, duration_limit.
  simpl max_burst. simpl replenish_1_per. rewrite Z.max_l by lia.
  rewrite (proj2 (Z.ltb_lt (t * b) (2 ^ 64 * 10 ^ 9))) by lia. cbn [mbind outcome_bind].
  rewrite (proj2 (Z.ltb_lt (t * b) (2 ^ 64))) by lia. cbn [mbind outcome_bind].
  rewrite (proj2 (Z.ltb_lt t (2 ^ 64))) by nia. cbn [mbind outcome_bind g_t g_tau]. split; [done|].
  rewrite (proj2 (Z.eqb_neq t 0)) by lia. cbn [mbind outcome_bind].
  rewrite Z.mul_comm, Z.div_mul by lia. unfold wrap. rewrite Z.mod_small by lia.
  rewrite (proj2 (Z.ltb_lt 0 b)), (proj2 (Z.ltb_lt b (2 ^ 32))) by lia. simpl. split; [done|lia].
Qed.

(** Checking [n] cells at once is checking them one by one, all or none: it admits exactly
    when [n] single checks at that instant all would, and leaves the same state. *)
Theorem check_n_is_n_checks {P} `{Reference P} g (start : P) h n t0 st :
  gcra_ok g h -> Z.of_nat (S n) * g_t g <= g_tau g -> h + 2 * g_tau g + 2 * g_t g < 2 ^ 64 ->
  0 <= t0 <= h -> tat_ok g h st ->
  match gcra_decide_n g start (Z.of_nat n * g_t g) t0 st, admit_n g start t0 (S n) st with
  | Ok (snap, new), Ok st' => st' = Some new /\ tat snap = new
  | Err _, Err _ => True
  | _, _ => False
  end.
Proof.
  intros Hg Hn H2 Ht0 Hst. pose proof Hg as (Ht & Hh & H64).
  pose proof (admit_n_any g start h Hg t0 n st Ht0 Hst) as Ha. cbv zeta in Ha.
  unfold gcra_decide_n, starting_state, nanos_add, add_chk, nanos_saturating_sub, saturating_sub.
  assert (Hx : match st with Some x => Ok (E := NotUntil P) x | None => if t0 + g_t g <? 2 ^ 64 then Ok (t0 + g_t g) else Panic end
               = Ok (default (t0 + g_t g) st)).
  { destruct st; [done|]. by rewrite (proj2 (Z.ltb_lt _ _)) by lia. }
  rewrite Hx. cbn [mbind outcome_bind]. clear Hx.
  assert (Hb : 0 < default (t0 + g_t g) st <= h + g_tau g + g_t g)
    by (destruct st as [x|]; [by apply Hst|simpl; lia]).
  set (x := default _ st) in *. clearbody x.
  rewrite (proj2 (Z.ltb_lt (x + Z.of_nat n * g_t g) _)) by lia. cbn [mbind outcome_bind].
  destruct (Z.ltb_spec t0 (Z.max 0 (x + Z.of_nat n * g_t g - g_tau g))) as [Hlt|Hge].
  - destruct (admit_n g start t0 (S n) st); [destruct Ha; lia|done|done].
  - rewrite (proj2 (Z.ltb_lt (Z.max x t0 + g_t g) _)) by lia. cbn [mbind outcome_bind].
    rewrite (proj2 (Z.ltb_lt (_ + _ * _) _)) by lia. cbn [mbind outcome_bind].
    destruct (admit_n g start t0 (S n) st); [|lia|done]. destruct Ha as [-> _].
    split; [f_equal; lia|done].
Qed.

(** *** Concrete limiters *)

(** Five cells per second. *)
Definition five_per_second : Gcra := mkGcra 200000000 1000000000.
Lemma five_per_second_ok : gcra_ok five_per_second (10 ^ 12).
Proof. unfold gcra_ok, five_per_second. simpl. lia. Qed.
Lemma five_per_second_built : per_second (E := unit) 5 ≫= gcra_new = Ok five_per_second.
Proof. reflexivity. Qed.

Lemma burst_size_exact_witness :
  (exists st', admit_n five_per_second (mkRNanos 0) 7 5 None = Ok st') /\
  ~ (exists st', admit_n five_per_second (mkRNanos 0) 7 6 None = Ok st') /\
  (exists st', admit_n five_per_second (mkRNanos 0) 7 6 (Some 3) = Ok st').
Proof.
  split_and!.
  - apply (burst_size_exact five_per_second (mkRNanos 0) (10 ^ 12) 5 7 None 5); try apply five_per_second_ok; try done; try lia.
  - rewrite (burst_size_exact five_per_second (mkRNanos 0) (10 ^ 12) 5 7 None 6); try apply five_per_second_ok; try done; try lia.
  - apply (burst_size_exact five_per_second (mkRNanos 0) (10 ^ 12) 5 7 (Some 3) 6); try apply five_per_second_ok; try done; try lia.
    intros x [= <-]. simpl. lia.
Defined.

Lemma remaining_capacity_exact_witness :
  exists r, remaining_burst_capacity (E := NotUntil RNanos)
              (mkSnapshot 200000000 1000000000 7 400000007) = Ok r /\
  forall n, (exists st', admit_n five_per_second (mkRNanos 0) 7 n (Some 400000007) = Ok st') <-> Z.of_nat n <= r.
Proof.
  apply (remaining_capacity_exact five_per_second (mkRNanos 0) (10 ^ 12) 7 None); try apply five_per_second_ok; try done; try lia.
Defined.

Lemma wait_time_exact_witness :
  exists w, wait_time_from (E := NotUntil RInstant) (mkRInstant 7)
    (mkNotUntil (mkSnapshot 200000000 1000000000 200000007 200000007) (mkRInstant 0)) = Ok w /\ 0 < w.
Proof.
  destruct (wait_time_exact five_per_second (mkRInstant 0) (mkRInstant 7) (10 ^ 12) (Some 1200000007)
    (mkNotUntil (mkSnapshot 200000000 1000000000 200000007 200000007) (mkRInstant 0)))
    as (w & Hw & Hpos & _); simpl; try apply five_per_second_ok; try lia; try reflexivity.
  - intros x [= <-]. simpl. lia.
  - by exists w.
Defined.

Lemma quota_roundtrip_witness :
  exists g, gcra_new (E := unit) (mkQuota 5 200000000) = Ok g /\
    from_gcra_parameters (E := unit) (g_t g) (g_tau g) = Ok (mkQuota 5 200000000).
Proof.
  destruct (quota_roundtrip (E := unit) (mkQuota 5 200000000)) as (g & H1 & H2 & _); simpl; try lia.
  by exists g.
Defined.

Lemma check_n_is_n_checks_witness :
  match gcra_decide_n five_per_second (mkRNanos 0) (Z.of_nat 2 * 200000000) 7 None,
        admit_n five_per_second (mkRNanos 0) 7 3 None with
  | Ok (snap, new), Ok st' => st' = Some new /\ tat snap = new
  | Err _, Err _ => True
  | _, _ => False
  end.
Proof.
  apply (check_n_is_n_checks five_per_second (mkRNanos 0) (10 ^ 12) 2 7 None); simpl; try apply five_per_second_ok; try lia; try done.
Defined.

(** A quota of more than one cell per nanosecond has a zero replenish interval: the limiter is
    built and admits, but the quota and the remaining capacity its snapshots report divide by
    zero. *)
Lemma fast_quota_panics :
  per_second (E := unit) 1000000001 = Ok (mkQuota 1000000001 0) /\
  gcra_new (E := unit) (mkQuota 1000000001 0) = Ok (mkGcra 0 1000000001) /\
  (exists snap new, gcra_decide (mkGcra 0 1000000001) (mkRNanos 0) 7 None = Ok (snap, new) /\
    snapshot_quota (E := unit) snap = Panic /\ remaining_burst_capacity (E := unit) snap = Panic).
Proof. split_and!; [reflexivity..|]. do 2 eexists. split_and!; reflexivity. Qed.
