(* ===== verification/RateState.v ===== *)
(** * Rate limiter state (http-rate/src/state.rs, state/)

    The lock-free cell [InMemoryState], the keyed store behind a mutex, and the limiter that
    ties a store, the algorithm and a clock together.  [now] is what the clock returns. *)

From S2P Require Import Prelude Http RateGcra.

(** [NonZeroU64::new(v).map(..)]: zero means no arrival time. *)
Definition non_zero (v : Z) : option Nanos := if v =? 0 then None else Some v.

(** [InMemoryState::measure_and_replace_one] when no other thread writes the cell:
    [compare_exchange_weak] may still fail [spurious] times. *)
Fixpoint measure_and_replace_one {T E} (spurious : nat) (f : option Nanos -> outcome E (T * Nanos)) :
  M Z E T := fun cell =>
  match f (non_zero cell) with
  | Ok (result, new_data) =>
      match spurious with
      | O => (new_data, Ok result)
      | S n => measure_and_replace_one n f cell
      end
  | Err e => (cell, Err e)
  | Panic => (cell, Panic)
  end.
Definition is_older_than (nanos : Nanos) (cell : Z) : bool := cell <=? nanos.

(** What a measurement does when nothing interferes. *)
Definition atomic {T E} (f : option Nanos -> outcome E (T * Nanos)) : M Z E T := fun cell =>
  match f (non_zero cell) with
  | Ok (result, new_data) => (new_data, Ok result)
  | Err e => (cell, Err e)
  | Panic => (cell, Panic)
  end.
Lemma measure_one_atomic {T E} n (f : option Nanos -> outcome E (T * Nanos)) cell :
  measure_and_replace_one n f cell = atomic f cell.
Proof.
  unfold atomic. induction n as [|n IH]; simpl; [done|].
  destruct (f (non_zero cell)) as [[r new]|e|] eqn:E1; try done.
Qed.

(** [impl StateStore for InMemoryState]. *)
Inductive NotKeyed := NonKey.
#[global] Instance NotKeyed_eq_dec : EqDecision NotKeyed.
Proof. solve_decision. Defined.
#[global] Instance InMemory_store (spurious : nat) : StateStore Z NotKeyed.
Proof.
  refine {| measure_and_replace := fun T E (_ : NotKeyed) f => measure_and_replace_one spurious f;
            stored := fun cell _ => non_zero cell |}.
  intros T E [] f s. rewrite measure_one_atomic. unfold atomic.
  destruct (f (non_zero s)) as [[r new]|e|]; (split; [done|]); by intros [].
Defined.

(** *** The keyed store *)

(** [Mutex<HashMap<K, InMemoryState>>]; every operation holds the lock. *)
Abbreviation HashMapStateStore K := (gmap K Z).

Section Keyed.
Context {K : Type} `{Countable K}.

(** [measure_and_replace]: the fast path, or a fresh entry that is then measured. *)
Definition keyed_measure (spurious : nat) {T E} (key : K) (f : option Nanos -> outcome E (T * Nanos)) :
  M (HashMapStateStore K) E T := fun map =>
  match map !! key with
  | Some v => let '(v', r) := measure_and_replace_one spurious f v in (<[key := v']> map, r)
  | None =>
      let map := <[key := 0]> map in
      let '(v', r) := measure_and_replace_one spurious f 0 in (<[key := v']> map, r)
  end.
Definition keyed_stored (map : HashMapStateStore K) (key : K) : option Nanos :=
  map !! key ≫= non_zero.
#[global] Instance HashMap_store (spurious : nat) : StateStore (HashMapStateStore K) K.
Proof.
  refine {| measure_and_replace := fun T E => keyed_measure spurious;
            stored := keyed_stored |}.
  intros T E k f s. unfold keyed_measure, keyed_stored.
  destruct (s !! k) as [v|] eqn:Ek; simpl; rewrite measure_one_atomic; unfold atomic.
  - destruct (f (non_zero v)) as [[r new]|e|]; simpl;
      rewrite ?lookup_insert_eq; (split; [done|]); intros k' Hk; by rewrite lookup_insert_ne.
  - change (non_zero 0) with (@None Z).
    destruct (f None) as [[r new]|e|]; simpl;
      rewrite ?lookup_insert_eq; (split; [done|]); intros k' Hk; by rewrite !lookup_insert_ne.
Defined.

(** [ShrinkableKeyedStateStore]. *)
Definition retain_recent_store (drop_below : Nanos) (map : HashMapStateStore K) : HashMapStateStore K :=
  filter (fun kv => negb (is_older_than drop_below kv.2) = true) map.
Definition store_len (map : HashMapStateStore K) : Z := Z.of_nat (size map).
Definition store_is_empty (map : HashMapStateStore K) : bool := Nat.eqb (size map) 0.
End Keyed.

(** *** The limiter *)
Record RateLimiter (S P : Type) := mkLimiter { l_state : S; l_gcra : Gcra; l_start : P }.
Arguments mkLimiter {S P} l_state l_gcra l_start.
Arguments l_state {S P} _.
Arguments l_gcra {S P} _.
Arguments l_start {S P} _.

Section Limiter.
Context {P : Type} `{Reference P}.

(** [RateLimiter::new]; [now] is the clock's time at construction. *)
Definition limiter_new {E S} (quota : Quota) (state : S) (now : P) : outcome E (RateLimiter S P) :=
  gcra ← gcra_new quota;
  Ok (mkLimiter state gcra now).
Definition direct_with_clock {E} (quota : Quota) (now : P) : outcome E (RateLimiter Z P) :=
  limiter_new quota 0 now.
Definition hashmap {E K} `{Countable K} (quota : Quota) (now : P) :
  outcome E (RateLimiter (HashMapStateStore K) P) := limiter_new quota ∅ now.

(** Run a store operation inside the limiter. *)
Definition on_state {S E A} (m : M S E A) : M (RateLimiter S P) E A := fun lim =>
  let '(s, r) := m (l_state lim) in (mkLimiter s (l_gcra lim) (l_start lim), r).

Context {S K : Type} `{StateStore S K}.

Definition check_key (key : K) (now : P) : M (RateLimiter S P) (NotUntil P) RateSnapshot := fun lim =>
  on_state (test_and_update (l_gcra lim) (l_start lim) key now) lim.
Definition check_key_n (key : K) (n : Z) (now : P) :
  M (RateLimiter S P) (NotUntil P) (RateSnapshot + InsufficientCapacity) := fun lim =>
  on_state (test_n_all_and_update (l_gcra lim) (l_start lim) key n now) lim.
End Limiter.

(** [RateLimiter<NotKeyed, ..>::check] and [check_n]. *)
Definition check {P} `{Reference P} (spurious : nat) (now : P) :
  M (RateLimiter Z P) (NotUntil P) RateSnapshot :=
  check_key (H0 := InMemory_store spurious) NonKey now.
Definition check_n {P} `{Reference P} (spurious : nat) (n : Z) (now : P) :
  M (RateLimiter Z P) (NotUntil P) (RateSnapshot + InsufficientCapacity) :=
  check_key_n (H0 := InMemory_store spurious) NonKey n now.

(** [RateLimiter::retain_recent]. *)
Definition retain_recent {P K} `{Reference P} `{Countable K} (now : P) :
  M (RateLimiter (HashMapStateStore K) P) (NotUntil P) unit := fun lim =>
  match duration_since now (l_start lim) with
  | Ok drop_below =>
      (mkLimiter (retain_recent_store drop_below (l_state lim)) (l_gcra lim) (l_start lim), Ok tt)
  | Err e => (lim, Err e)
  | Panic => (lim, Panic)
  end.

(** *** Many threads on one cell

    The loop of [measure_and_replace_one] step by step: a thread loads the cell and decides, then
    tries to exchange; a failed exchange (the cell changed, or a spurious failure) hands it the
    current value to decide on again. *)
Section Cas.
Context {T E : Type} (fs : list (option Nanos -> outcome E (T * Nanos))).

Inductive Pc :=
| Load
| Exchange (prev : Z) (result : T) (new_data : Z)
| Done (r : outcome E T).

(** Where a thread goes after it saw [v]. *)
Definition decided (f : option Nanos -> outcome E (T * Nanos)) (v : Z) : Pc :=
  match f (non_zero v) with
  | Ok (result, new_data) => Exchange v result new_data
  | Err e => Done (Err e)
  | Panic => Done Panic
  end.

Inductive cas_step : Z * list Pc -> Z * list Pc -> Prop :=
| cas_load cell pcs i f :
    fs !! i = Some f -> pcs !! i = Some Load ->
    cas_step (cell, pcs) (cell, <[i := decided f cell]> pcs)
| cas_success cell pcs i result new_data :
    pcs !! i = Some (Exchange cell result new_data) ->
    cas_step (cell, pcs) (new_data, <[i := Done (Ok result)]> pcs)
| cas_failure cell pcs i f prev result new_data :
    fs !! i = Some f -> pcs !! i = Some (Exchange prev result new_data) ->
    cas_step (cell, pcs) (cell, <[i := decided f cell]> pcs).

(** The same measurements one after the other: the cell and who got which result. *)
Definition seq_step (st : Z * list (nat * outcome E T)) (i : nat) : Z * list (nat * outcome E T) :=
  match fs !! i with
  | Some f => let '(cell, r) := atomic f st.1 in (cell, st.2 ++ [(i, r)])
  | None => st
  end.
Definition seq_run (order : list nat) (cell : Z) : Z * list (nat * outcome E T) :=
  fold_left seq_step order (cell, []).

Lemma seq_run_snoc order i f cell :
  fs !! i = Some f ->
  seq_run (order ++ [i]) cell =
  let '(c, log) := seq_run order cell in let '(c', r) := atomic f c in (c', log ++ [(i, r)]).
Proof.
  intros Hf. unfold seq_run. rewrite fold_left_app. simpl. unfold seq_step at 1. rewrite Hf.
  by destruct (fold_left _ _ _).
Qed.

(** What a reachable state amounts to: a sequential history [order] of the finished threads. *)
Definition linearized (cell0 : Z) (st : Z * list Pc) (order : list nat) : Prop :=
  length st.2 = length fs /\ NoDup order /\
  (seq_run order cell0).1 = st.1 /\
  (forall i r, st.2 !! i = Some (Done r) <-> (i, r) ∈ (seq_run order cell0).2) /\
  (forall i, i ∈ order <-> exists r, (i, r) ∈ (seq_run order cell0).2) /\
  (forall i f prev result new, fs !! i = Some f -> st.2 !! i = Some (Exchange prev result new) ->
     f (non_zero prev) = Ok (result, new)).

Lemma linearized_same cell0 cell pcs order i p :
  linearized cell0 (cell, pcs) order ->
  (forall r, pcs !! i <> Some (Done r)) -> (forall r, p <> Done r) ->
  (forall f prev result new, fs !! i = Some f -> p = Exchange prev result new -> f (non_zero prev) = Ok (result, new)) ->
  linearized cell0 (cell, <[i := p]> pcs) order.
Proof.
  intros (Hl & Hn & Hc & Hd & Ho & He) Hnd Hp Hx. unfold linearized. simpl in *.
  rewrite length_insert. split_and!; try done.
  - intros j r. rewrite <- Hd. destruct (decide (i = j)) as [->|Hne]; [|by rewrite list_lookup_insert_ne].
    split; intros Hj; [|by apply Hnd in Hj].
    apply list_lookup_insert_Some in Hj as [(_ & Hj & _)|(? & _)]; [by apply Hp in Hj|done].
  - intros j f prev result new Hf Hj.
    apply list_lookup_insert_Some in Hj as [(<- & Hj & _)|(_ & Hj)]; eauto.
Qed.

Lemma linearized_finish cell0 cell pcs order i f r cell' :
  linearized cell0 (cell, pcs) order -> fs !! i = Some f ->
  (forall r', pcs !! i <> Some (Done r')) -> atomic f cell = (cell', r) ->
  linearized cell0 (cell', <[i := Done r]> pcs) (order ++ [i]).
Proof.
  intros (Hl & Hn & Hc & Hd & Ho & He) Hf Hnd Ha. unfold linearized. simpl in *.
  rewrite (seq_run_snoc _ _ f) by done. destruct (seq_run order cell0) as [c log]. simpl in *. subst c.
  rewrite Ha. simpl. rewrite length_insert.
  assert (Hi : (i < length pcs)%nat) by (rewrite Hl; by eapply lookup_lt_Some).
  split_and!; try done.
  - apply NoDup_app. split_and!; [done| |apply NoDup_singleton].
    intros j Hj Hji. apply list_elem_of_singleton in Hji as ->.
    apply Ho in Hj as [r' Hr']. by apply Hd, Hnd in Hr'.
  - intros j r'. rewrite elem_of_app, list_elem_of_singleton.
    destruct (decide (i = j)) as [->|Hne].
    + rewrite list_lookup_insert_eq by done. rewrite <- Hd. split; [intros [= <-]; auto|].
      intros [Hj|[= ->]]; [by apply Hnd in Hj|done].
    + rewrite list_lookup_insert_ne by done. rewrite Hd. split; [auto|].
      intros [?|[= ? ?]]; [done|congruence].
  - intros j. rewrite elem_of_app, list_elem_of_singleton, Ho. split.
    + intros [[r' ?]| ->]; [exists r'|exists r]; rewrite elem_of_app, list_elem_of_singleton; auto.
    + intros [r' Hr']. rewrite elem_of_app, list_elem_of_singleton in Hr'.
      destruct Hr' as [?|[= -> ->]]; [left; eauto|auto].
  - intros j g prev result new Hg Hj.
    apply list_lookup_insert_Some in Hj as [(_ & [=] & _)|(_ & Hj)]; eauto.
Qed.

Lemma decided_linearized cell0 cell pcs order i f :
  linearized cell0 (cell, pcs) order -> fs !! i = Some f -> (forall r, pcs !! i <> Some (Done r)) ->
  exists order', linearized cell0 (cell, <[i := decided f cell]> pcs) order'.
Proof.
  intros Hlin Hf Hnd. unfold decided. destruct (f (non_zero cell)) as [[r new]|e|] eqn:Ef.
  - exists order. apply linearized_same; try done. intros f' ??? Hf' [= <- <- <-].
    rewrite Hf in Hf'. by injection Hf' as <-.
  - exists (order ++ [i]). eapply linearized_finish; try done. unfold atomic. by rewrite Ef.
  - exists (order ++ [i]). eapply linearized_finish; try done. unfold atomic. by rewrite Ef.
Qed.

Lemma cas_step_linearized cell0 st st' order :
  cas_step st st' -> linearized cell0 st order -> exists order', linearized cell0 st' order'.
Proof.
  intros Hs Hlin. destruct Hs as [cell pcs i f Hf Hi|cell pcs i r new Hi|cell pcs i f prev r new Hf Hi].
  - eapply decided_linearized; try done. intros r. by rewrite Hi.
  - assert (is_Some (fs !! i)) as [f Hf].
    { apply lookup_lt_is_Some. destruct Hlin as (Hl & _). simpl in Hl. rewrite <- Hl. by eapply lookup_lt_Some. }
    exists (order ++ [i]). eapply linearized_finish; try done; [intros r'; by rewrite Hi|].
    destruct Hlin as (_ & _ & _ & _ & _ & He). unfold atomic. by rewrite (He i f cell r new Hf Hi).
  - eapply decided_linearized; try done. intros r'. by rewrite Hi.
Qed.

Lemma start_linearized cell : linearized cell (cell, replicate (length fs) Load) [].
Proof.
  unfold linearized. simpl. rewrite length_replicate. split_and!; try done; [apply NoDup_nil_2|..].
  - intros i r. rewrite elem_of_nil. split; [|done]. intros Hi%lookup_replicate. by destruct Hi.
  - intros i. rewrite elem_of_nil. split; [done|]. intros [r Hr]. by rewrite elem_of_nil in Hr.
  - intros i f p r n _ Hi%lookup_replicate. by destruct Hi.
Qed.

(** C22: the lock-free measurement is linearizable: whatever the interleaving of the threads'
    loads and exchanges and however often an exchange fails, the cell and the results of the
    threads that have finished are those of running these threads' measurements one after the
    other, each exactly once. *)
Theorem measure_linearizable cell0 cell pcs :
  rtc cas_step (cell0, replicate (length fs) Load) (cell, pcs) ->
  exists order, NoDup order /\ (seq_run order cell0).1 = cell /\
    forall i r, pcs !! i = Some (Done r) <-> (i, r) ∈ (seq_run order cell0).2.
Proof.
  intros Hs. enough (Hx : exists order, linearized cell0 (cell, pcs) order).
  { destruct Hx as (order & _ & ? & ? & ? & _). by exists order. }
  remember (cell, pcs) as st eqn:Est. clear Est.
  revert Hs. generalize (start_linearized cell0). generalize (@nil nat).
  generalize (cell0, replicate (length fs) Load). intros st0 order Hlin Hs. revert order Hlin.
  induction Hs as [x|x y z Hxy _ IH]; intros order Hlin; [by exists order|].
  destruct (cas_step_linearized cell0 x y order Hxy Hlin) as [order' Hlin']. eauto.
Qed.
End Cas.

(** Two threads that each count one up; the second one's first exchange fails. *)
Definition count_up : option Nanos -> outcome unit (unit * Nanos) := fun v => Ok (tt, default 0 v + 1).
Lemma measure_linearizable_witness :
  exists order, NoDup order /\ (seq_run [count_up; count_up] order 0).1 = 2.
Proof.
  assert (H : rtc (cas_step [count_up; count_up]) (0, replicate 2 Load) (2, [Done (Ok tt); Done (Ok tt)])).
  { eapply rtc_l; [by eapply (cas_load _ _ _ 0)|]. eapply rtc_l; [by eapply (cas_load _ _ _ 1)|].
    eapply rtc_l; [by apply (cas_success _ _ _ 0 tt 1)|]. eapply rtc_l; [by eapply (cas_failure _ _ _ 1)|].
    eapply rtc_l; [by apply (cas_success _ _ _ 1 tt 2)|]. apply rtc_refl. }
  destruct (measure_linearizable [count_up; count_up] 0 2 _ H) as (order & Hn & Hc & _). by exists order.
Defined.

Lemma rate_guarantee_witness :
  let reqs := (fun z => (NonKey, mkRNanos z)) <$> [0; 1; 2; 3; 4; 5; 6; 300000000; 300000001] in
  admitted (Store := InMemory_store 1) five_per_second (mkRNanos 0) NonKey reqs 0
    = [0; 1; 2; 3; 4; 300000000] /\
  conforming 200000000 1000000000 (admitted (Store := InMemory_store 1) five_per_second (mkRNanos 0) NonKey reqs 0).
Proof.
  intros reqs. split; [vm_compute; reflexivity|].
  apply (rate_guarantee five_per_second (mkRNanos 0) NonKey reqs 0).
  - simpl. lia.
  - intros x [=].
  - simpl. unfold nanos_saturating_sub, saturating_sub. intros p t0 [= <-]. lia.
Defined.

(** *** Keys do not interfere *)
Section Isolation.
Context {P S K : Type} `{Reference P, EqDecision K, StateStore S K} (g : Gcra) (start : P).

Lemma admitted_filter k reqs s1 s2 :
  stored s1 k = stored s2 k ->
  admitted g start k reqs s1 = admitted g start k (filter (fun kp => kp.1 = k) reqs) s2.
Proof.
  revert s1 s2. induction reqs as [|[k' p] reqs IH]; intros s1 s2 Hs; [done|].
  rewrite filter_cons. simpl. pose proof (test_and_update_spec g start k' p s1) as Ht1.
  destruct (test_and_update g start k' p s1) as [s1' r1]. destruct Ht1 as [Hk1 Ho1].
  case_decide as Hk.
  - simpl in Hk. subst k'. simpl. pose proof (test_and_update_spec g start k p s2) as Ht2.
    destruct (test_and_update g start k p s2) as [s2' r2]. destruct Ht2 as [Hk2 _]. rewrite <- Hs in Hk2.
    destruct (duration_since p start) as [t0|e|];
      [destruct (gcra_decide g start t0 (stored s1 k)) as [[sn nw]|e|]|..];
      destruct Hk1 as [-> Hs1], Hk2 as [-> Hs2];
      (rewrite (IH s1' s2') by (rewrite Hs1, Hs2; done)); try done. by rewrite decide_True.
  - simpl in Hk. destruct r1; by rewrite (IH s1' s2) by (rewrite Ho1; done).
Qed.
End Isolation.

(** Keys are isolated: which requests of a key the limiter admits does not depend on the
    requests of other keys that are checked in between. *)
Theorem keyed_isolation {P S K} `{Reference P, EqDecision K, StateStore S K} g (start : P) (k : K) reqs (s : S) :
  admitted g start k reqs s = admitted g start k (filter (fun kp => kp.1 = k) reqs) s.
Proof. by apply admitted_filter. Qed.

(** Dropping a key whose arrival time has passed is not neutral: five cells per second, key idle
    until its arrival time 1; kept, it admits six cells at time 2, dropped, five. *)
Lemma retain_recent_not_neutral :
  keyed_stored (K := nat) (<[0%nat := 1]> ∅) 0%nat = Some 1 /\
  keyed_stored (retain_recent_store 2 (K := nat) (<[0%nat := 1]> ∅)) 0%nat = None /\
  (exists st, admit_n five_per_second (mkRNanos 0) 2 6 (Some 1) = Ok st) /\
  (exists n, admit_n five_per_second (mkRNanos 0) 2 6 None = Err n).
Proof. split_and!; [vm_compute; reflexivity..| |]; eexists; vm_compute; reflexivity. Qed.
