(* ===== verification/RateLimit.v ===== *)
(** * Rate limiting of requests (http-rate/src/lib.rs, error.rs, snapshot.rs)

    Which address a request is accounted to, the check itself and the headers of its answer.
    [IpAddr] and its parsers are those of the standard library, kept abstract: [parse_ip] and
    [parse_socket] stand for [str::parse::<IpAddr>().ok()] and [str::parse::<SocketAddr>().ok()]. *)

From S2P Require Import Prelude Decimal Http RateGcra RateState.

Definition X_REAL_IP := bs "x-real-ip".
Definition X_FORWARDED_FOR := bs "x-forwarded-for".
Definition X_RT_LIMIT := bs "x-ratelimit-limit".
Definition X_RT_REMAINING := bs "x-ratelimit-remaining".
Definition X_RT_AFTER := bs "x-ratelimit-after".

Record TooManyRequests := mkTooMany { after_seconds : Z }.

(** [Iterator::find_map]. *)
Fixpoint find_map {A B} (f : A -> option B) (l : list A) : option B :=
  match l with [] => None | a :: t => match f a with Some b => Some b | None => find_map f t end end.

Section RateLimit.
Context `{HM : HeaderMap} {IpAddr SocketAddr : Type} `{Countable IpAddr}.
Context (parse_ip : bytes -> option IpAddr) (parse_socket : bytes -> option SocketAddr)
        (ip : SocketAddr -> IpAddr).

Definition maybe_x_forwarded_for (hs : hmap) : option IpAddr :=
  hv ← hm_get X_FORWARDED_FOR hs;
  s ← to_str hv;
  find_map (fun s => parse_ip (trim s)) (split_on 44 s).

Definition maybe_x_real_ip (hs : hmap) : option IpAddr :=
  hv ← hm_get X_REAL_IP hs;
  s ← to_str hv;
  parse_ip s.

Definition forwarded_pair (p : bytes) : option IpAddr :=
  match split_once 61 (trim p) with
  | (name, Some val) =>
      if eq_ignore_ascii_case (trim name) (bs "for") then
        let val := trim val in
        match parse_ip val with
        | Some a => Some a
        | None => ip <$> parse_socket val
        end
      else None
  | (_, None) => None
  end.
Definition maybe_forwarded (hs : hmap) : option IpAddr :=
  let vals := omap to_str (hm_get_all Hdr.FORWARDED hs) in
  let parts := vals ≫= split_on 59 in
  let pairs := parts ≫= split_on 44 in
  find_map forwarded_pair pairs.

(** The key [rate_limit] uses. *)
Definition client_addr (hs : hmap) (addr : SocketAddr) : IpAddr :=
  match maybe_x_forwarded_for hs with
  | Some a => a
  | None =>
      match maybe_x_real_ip hs with
      | Some a => a
      | None => default (ip addr) (maybe_forwarded hs)
      end
  end.

(** [impl From<NotUntil<Instant>> for TooManyRequests]; [now] is the time it is built at. *)
Definition TooManyRequests_from {E} (now : RInstant) (e : NotUntil RInstant) : outcome E TooManyRequests :=
  w ← wait_time_from now e; Ok (mkTooMany (as_secs w)).

(** [RateLimit::new] and [RateLimit::rate_limit]; [spurious], [now] and [later] are what the
    atomics and the clock do during the call. *)
Definition RateLimit : Type := RateLimiter (HashMapStateStore IpAddr) RInstant.
Definition RateLimit_new {E} (quota : Quota) (now : RInstant) : outcome E RateLimit := hashmap quota now.
Definition rate_limit (spurious : nat) (now later : RInstant) (hs : hmap) (addr : SocketAddr) :
  M RateLimit TooManyRequests RateSnapshot := fun lim =>
  let addr := client_addr hs addr in
  match check_key (H0 := HashMap_store spurious) addr now lim with
  | (lim', Ok s) => (lim', Ok s)
  | (lim', Err e) =>
      (lim', match TooManyRequests_from (E := TooManyRequests) later e with
             | Ok t => Err t | Err t => Err t | Panic => Panic end)
  | (lim', Panic) => (lim', Panic)
  end.

(** [RateSnapshot::extend_response] and [TooManyRequests::extend_response]. *)
Definition snapshot_extend_response {E} (s : RateSnapshot) (res : Builder) : outcome E Builder :=
  q ← snapshot_quota s;
  remaining ← remaining_burst_capacity s;
  Ok (mkBuilder _ (status res)
        (hm_insert X_RT_REMAINING (decimal remaining) (hm_insert X_RT_LIMIT (decimal (max_burst q)) (res_headers res)))).
Definition too_many_extend_response (t : TooManyRequests) (res : Builder) : Builder :=
  mkBuilder _ StatusCode.TOO_MANY_REQUESTS
    (hm_insert X_RT_AFTER (decimal (after_seconds t)) (res_headers res)).

(** *** Properties *)

(** One [rate_limit] call in full, against the key's stored arrival time: admitted exactly
    when the algorithm admits, with the snapshot it took, the new arrival time kept for that
    address and every other address untouched; refused with the whole seconds of the wait and
    nothing changed. *)
Theorem rate_limit_spec spurious now later hs addr (lim : RateLimit) h :
  gcra_ok (l_gcra lim) h -> 0 <= ri (l_start lim) <= ri now -> ri now <= ri later ->
  ri now - ri (l_start lim) <= h -> ri (l_start lim) + 2 ^ 64 < 2 ^ 63 * 10 ^ 9 ->
  (forall a, tat_ok (l_gcra lim) h (keyed_stored (l_state lim) a)) ->
  let k := client_addr hs addr in
  let t0 := ri now - ri (l_start lim) in
  let g := l_gcra lim in
  let x := default (t0 + g_t g) (keyed_stored (l_state lim) k) in
  let '(lim', r) := rate_limit spurious now later hs addr lim in
  l_gcra lim' = g /\ l_start lim' = l_start lim /\
  (forall a, a <> k -> keyed_stored (l_state lim') a = keyed_stored (l_state lim) a) /\
  (if x - g_tau g <=? t0
   then r = Ok (mkSnapshot (g_t g) (g_tau g) t0 (Z.max x t0 + g_t g)) /\
        keyed_stored (l_state lim') k = Some (Z.max x t0 + g_t g)
   else r = Err (mkTooMany (Z.max 0 (ri (l_start lim) + (x - g_tau g) - ri later) / 10 ^ 9)) /\
        keyed_stored (l_state lim') k = keyed_stored (l_state lim) k).
Proof.
  intros Hg Hs Hl Hh Hi Hok k t0 g x. pose proof Hg as (Ht & Hh0 & H64). fold g in Hg, Ht, Hh0, H64.
  unfold rate_limit, check_key, on_state. fold k g.
  pose proof (test_and_update_spec (Store := HashMap_store spurious) g (l_start lim) k now (l_state lim)) as Hsp.
  destruct (test_and_update g (l_start lim) k now (l_state lim)) as [s' r]. destruct Hsp as [Hk Hother].
  assert (Hd : duration_since now (l_start lim) = Ok (E := NotUntil RInstant) t0).
  { unfold duration_since, Reference_Instant, nanos_from_duration. unfold t0 in *.
    destruct (Z.ltb_spec (ri (l_start lim)) (ri now)).
    - by rewrite (proj2 (Z.ltb_lt _ _)) by lia.
    - simpl. f_equal. lia. }
  rewrite Hd in Hk. change (stored (l_state lim) k) with (keyed_stored (l_state lim) k) in Hk.
  rewrite (gcra_decide_total g (l_start lim) h Hg) in Hk by (apply Hok || lia). cbv zeta in Hk. fold x in Hk.
  assert (Hx : 0 < x <= h + g_tau g + g_t g).
  { unfold x. specialize (Hok k). fold g in Hok. destruct (keyed_stored (l_state lim) k) as [y|]; [by apply Hok|simpl; lia]. }
  destruct (Z.ltb_spec t0 (x - g_tau g)) as [Hlt|Hge]; destruct Hk as [-> Hk].
  - rewrite (proj2 (Z.leb_gt _ _)) by lia. cbn [l_gcra l_start l_state]. split_and!; try done. do 2 f_equal.
    unfold TooManyRequests_from, wait_time_from, earliest_possible, later_by, Reference_Instant, instant_add.
    cbn [n_start n_state tat]. rewrite (proj2 (Z.ltb_lt _ _)) by lia.
    cbn [fmap outcome_fmap mbind outcome_bind]. unfold ref_min, ref_le, duration_since, nanos_from_duration, as_secs.
    cbn [ri]. destruct (Z.leb_spec (ri (l_start lim) + (x - g_tau g)) (ri later)).
    + cbn [ri]. rewrite Z.ltb_irrefl. cbn [mbind outcome_bind]. by rewrite Z.max_l by lia.
    + rewrite (proj2 (Z.ltb_lt _ _)) by lia. rewrite (proj2 (Z.ltb_lt _ _)) by lia.
      cbn [mbind outcome_bind]. by rewrite Z.max_r by lia.
  - rewrite (proj2 (Z.leb_le _ _)) by lia. cbn [l_gcra l_start l_state]. split_and!; try done.
    change (stored s' k) with (keyed_stored s' k) in Hk. rewrite Hk.
    by rewrite (proj2 (Z.eqb_neq _ _)) by lia.
Qed.

(** A request that went through several proxies is accounted to the first hop of
    [x-forwarded-for] that is an address, whatever [x-real-ip] and [forwarded] say. *)
Theorem forwarded_for_first_hop hs addr hops a :
  hops <> [] -> Forall (fun h => 44 ∉ h) hops -> Forall visible (join 44 hops) ->
  hm_get X_FORWARDED_FOR hs = Some (join 44 hops) ->
  find_map (fun h => parse_ip (trim h)) hops = Some a ->
  client_addr hs addr = a.
Proof.
  intros Hne Hc Hv Hg Hf. unfold client_addr, maybe_x_forwarded_for. rewrite Hg. cbn [mbind option_bind].
  rewrite to_str_visible by done. cbn [mbind option_bind]. by rewrite split_on_join, Hf.
Qed.

(** The headers an admitted response carries are the decimal spelling of the quota's burst
    size and of the remaining capacity: they parse back to those numbers. *)
Theorem rate_headers_parse_back {E} s res q r :
  snapshot_quota (E := E) s = Ok q -> remaining_burst_capacity (E := E) s = Ok r ->
  exists res', snapshot_extend_response (E := E) s res = Ok res' /\ status res' = status res /\
    (hm_get X_RT_LIMIT (res_headers res') ≫= parse_u64) = Some (max_burst q) /\
    (hm_get X_RT_REMAINING (res_headers res') ≫= parse_u64) = Some r.
Proof.
  intros Hq Hr. unfold snapshot_extend_response. rewrite Hq, Hr. cbn [mbind outcome_bind].
  eexists. split; [done|]. cbn [res_headers status]. split; [done|].
  rewrite hm_get_insert_ne, !hm_get_insert by done. cbn [mbind option_bind].
  unfold snapshot_quota, from_gcra_parameters, non_zero_u32 in Hq.
  unfold remaining_burst_capacity in Hr. split; apply parse_decimal.
  - destruct (nanos_div (s_tau s) (s_t s)) as [v|e|]; cbn [mbind outcome_bind] in Hq; try done.
    destruct ((0 <? wrap 32 v) && (wrap 32 v <? 2 ^ 32)) eqn:E1; cbn [mbind outcome_bind] in Hq; [|done].
    injection Hq as <-. simpl. unfold fits. lia.
  - unfold nanos_add, add_chk, nanos_div in Hr.
    destruct (time_of_measurement s + s_t s <? 2 ^ 64); cbn [mbind outcome_bind] in Hr; [|done].
    destruct (_ + s_tau s <? 2 ^ 64); cbn [mbind outcome_bind] in Hr; [|done].
    destruct (s_t s =? 0); cbn [mbind outcome_bind] in Hr; [done|]. injection Hr as <-.
    unfold fits, wrap. pose proof (Z.mod_pos_bound (Z.min (nanos_saturating_sub (time_of_measurement s + s_t s + s_tau s) (tat s)) (s_tau s) / s_t s) (2 ^ 32) ltac:(lia)). lia.
Qed.
End RateLimit.

(** Addresses as numbers, to run the limiter on. *)
Definition toy_limiter : RateLimit (IpAddr := Z) := mkLimiter ∅ five_per_second (mkRInstant 0).
Definition toy_headers : list (bytes * bytes) :=
  [(X_REAL_IP, bs "9"); (X_FORWARDED_FOR, bs "unknown, 7,8")].

Lemma forwarded_for_first_hop_witness :
  client_addr (HM := assoc_map) (SocketAddr := unit) parse_u64 (fun _ => None) (fun _ => 0) toy_headers tt = 7.
Proof.
  apply (forwarded_for_first_hop (HM := assoc_map) parse_u64 (fun _ => None) (fun _ => 0) toy_headers tt
           [bs "unknown"; bs " 7"; bs "8"]); try done.
  - repeat constructor; apply (bool_decide_unpack _); vm_compute; exact I.
  - repeat constructor; vm_compute; congruence.
Defined.

Lemma rate_limit_spec_witness :
  let '(lim', r) := rate_limit (HM := assoc_map) (SocketAddr := unit) parse_u64 (fun _ => None) (fun _ => 0)
                      1 (mkRInstant 5) (mkRInstant 6) toy_headers tt toy_limiter in
  l_gcra lim' = five_per_second /\ r = Ok (mkSnapshot 200000000 1000000000 5 400000005).
Proof.
  assert (H := rate_limit_spec (HM := assoc_map) (SocketAddr := unit) parse_u64 (fun _ => None) (fun _ => 0)
    1 (mkRInstant 5) (mkRInstant 6) toy_headers tt toy_limiter (10 ^ 12) five_per_second_ok
    ltac:(simpl; lia) ltac:(simpl; lia) ltac:(simpl; lia) ltac:(simpl; lia) ltac:(intros a x; done)).
  cbv zeta in H. destruct (rate_limit _ _ _ _ _ _ _ _ _) as [lim' r].
  destruct H as (Hg & _ & _ & Hr). split; [done|]. by destruct Hr as [-> _].
Defined.

Lemma rate_headers_parse_back_witness :
  exists res', snapshot_extend_response (HM := assoc_map) (E := unit)
    (mkSnapshot 200000000 1000000000 5 400000005) (mkBuilder assoc_map 200 []) = Ok res' /\ status res' = 200.
Proof.
  destruct (rate_headers_parse_back (HM := assoc_map) (E := unit) (mkSnapshot 200000000 1000000000 5 400000005)
    (mkBuilder assoc_map 200 []) (mkQuota 5 200000000) 4) as (res' & H1 & H2 & _); [reflexivity..|].
  by exists res'.
Defined.

(** A refusal 0.6 seconds before the next admission tells the client to wait zero seconds. *)
Lemma wait_rounds_down :
  TooManyRequests_from (E := unit) (mkRInstant 0)
    (mkNotUntil (mkSnapshot 200000000 1000000000 600000000 600000000) (mkRInstant 0)) = Ok (mkTooMany 0).
Proof. reflexivity. Qed.
