(* ===== verification/H1Codec.v ===== *)
(** * HTTP/1 body coding (http/src/h1/proto/codec.rs, buf_write.rs)

    [TransferCoding] with the chunked state machine, [encode]/[encode_eof]/[decode] and
    [try_set].  A write buffer is the bytes it holds. *)

From S2P Require Import Prelude.

Inductive ChunkedState :=
| Size | SizeLws | Extension | SizeLf | Body | BodyCr | BodyLf
| Trailer | TrailerLf | EndCr | EndLf | End_.
#[global] Instance ChunkedState_eq_dec : EqDecision ChunkedState.
Proof. solve_decision. Defined.

Inductive TransferCoding :=
| Eof
| Corrupted
| Length (n : Z)
| DecodeChunked (st : ChunkedState) (size : Z)
| EncodeChunked
| Upgrade.
#[global] Instance TransferCoding_eq_dec : EqDecision TransferCoding.
Proof. solve_decision. Defined.

Inductive ProtoError :=
| EHeaderName | EHeaderValue | EHeaderTooLarge | EMethod | EUri | ENewLine | EStatus | EToken | EVersion.
#[global] Instance ProtoError_eq_dec : EqDecision ProtoError.
Proof. solve_decision. Defined.

(** [io::Error] of the decoder: its kind and message. *)
Inductive IoError := InvalidData (msg : string) | InvalidInput (msg : string).
#[global] Instance IoError_eq_dec : EqDecision IoError.
Proof. solve_decision. Defined.

(** [ChunkResult]. *)
Inductive ChunkResult :=
| COk (b : bytes)
| CErr (e : IoError)
| InsufficientData
| OnEof
| AlreadyEof
| CCorrupted.

(** Constructors and [is_eof]. *)
Definition eof : TransferCoding := Eof.
Definition tc_length (len : Z) : TransferCoding := Length len.
Definition decode_chunked : TransferCoding := DecodeChunked Size 0.
Definition encode_chunked : TransferCoding := EncodeChunked.
Definition upgrade : TransferCoding := Upgrade.
Definition is_eof {E} (c : TransferCoding) : outcome E bool :=
  match c with Eof => Ok true | EncodeChunked => Panic | _ => Ok false end.
Definition is_upgrade (c : TransferCoding) : bool := match c with Upgrade => true | _ => false end.

(** *** The chunked state machine *)

(** What a [step] leaves: the rest of the input, the size register, the data it produced, and
    the next state ([None] when it needs more input). *)
Record Stepped := mkStepped {
  st_src : bytes; st_size : Z; st_buf : option bytes; st_res : outcome IoError (option ChunkedState) }.
Definition stay (src : bytes) (size : Z) (r : outcome IoError (option ChunkedState)) : Stepped :=
  mkStepped src size None r.

(** The [byte!] macro: take one byte, or ask for more. *)
Definition with_byte (src : bytes) (size : Z) (k : Z -> bytes -> Stepped) : Stepped :=
  match src with
  | [] => stay [] size (Ok None)
  | b :: rest => k b rest
  end.

(** [bounded_split]: what is taken, what remains of the buffer, and the remaining count. *)
Definition bounded_split (rem : Z) (buf : bytes) : bytes * bytes * Z :=
  let n := len buf in
  if n <=? rem then (buf, [], rem - n)
  else (take (Z.to_nat rem) buf, drop (Z.to_nat rem) buf, 0).

Definition size_digit (d size : Z) (rest : bytes) : Stepped :=
  match checked_mul 64 size 16 with
  | None => stay rest size (Err (InvalidData "invalid chunk size: overflow"))
  | Some s =>
      match checked_add 64 s d with
      | None => stay rest s (Err (InvalidData "invalid chunk size: overflow"))
      | Some s' => stay rest s' (Ok (Some Size))
      end
  end.
Definition read_size (src : bytes) (size : Z) : Stepped :=
  with_byte src size (fun b rest =>
    if (48 <=? b) && (b <=? 57) then size_digit (b - 48) size rest
    else if (97 <=? b) && (b <=? 102) then size_digit (b + 10 - 97) size rest
    else if (65 <=? b) && (b <=? 70) then size_digit (b + 10 - 65) size rest
    else if (b =? 9) || (b =? 32) then stay rest size (Ok (Some SizeLws))
    else if b =? 59 then stay rest size (Ok (Some Extension))
    else if b =? 13 then stay rest size (Ok (Some SizeLf))
    else stay rest size (Err (InvalidInput "Invalid chunk size line: Invalid Size"))).
Definition read_size_lws (src : bytes) (size : Z) : Stepped :=
  with_byte src size (fun b rest =>
    if (b =? 9) || (b =? 32) then stay rest size (Ok (Some SizeLws))
    else if b =? 59 then stay rest size (Ok (Some Extension))
    else if b =? 13 then stay rest size (Ok (Some SizeLf))
    else stay rest size (Err (InvalidInput "Invalid chunk size linear white space"))).
Definition read_extension (src : bytes) (size : Z) : Stepped :=
  with_byte src size (fun b rest =>
    if b =? 13 then stay rest size (Ok (Some SizeLf))
    else if b =? 10 then stay rest size (Err (InvalidData "invalid chunk extension contains newline"))
    else stay rest size (Ok (Some Extension))).
Definition read_size_lf (src : bytes) (size : Z) : Stepped :=
  with_byte src size (fun b rest =>
    if (b =? 10) && (0 <? size) then stay rest size (Ok (Some Body))
    else if (b =? 10) && (size =? 0) then stay rest size (Ok (Some EndCr))
    else stay rest size (Err (InvalidInput "Invalid chunk size LF"))).
Definition read_body (src : bytes) (rem : Z) : Stepped :=
  match src with
  | [] => stay [] rem (Ok None)
  | _ =>
      let '(buf, rest, rem') := bounded_split rem src in
      mkStepped rest rem' (Some buf) (Ok (Some (if 0 <? rem' then Body else BodyCr)))
  end.
Definition read_body_cr (src : bytes) (size : Z) : Stepped :=
  with_byte src size (fun b rest =>
    if b =? 13 then stay rest size (Ok (Some BodyLf))
    else stay rest size (Err (InvalidInput "Invalid chunk body CR"))).
Definition read_body_lf (src : bytes) (size : Z) : Stepped :=
  with_byte src size (fun b rest =>
    if b =? 10 then stay rest size (Ok (Some Size))
    else stay rest size (Err (InvalidInput "Invalid chunk body LF"))).
Definition read_trailer (src : bytes) (size : Z) : Stepped :=
  with_byte src size (fun b rest =>
    if b =? 13 then stay rest size (Ok (Some TrailerLf)) else stay rest size (Ok (Some Trailer))).
Definition read_trailer_lf (src : bytes) (size : Z) : Stepped :=
  with_byte src size (fun b rest =>
    if b =? 10 then stay rest size (Ok (Some EndCr))
    else stay rest size (Err (InvalidInput "Invalid trailer end LF"))).
Definition read_end_cr (src : bytes) (size : Z) : Stepped :=
  with_byte src size (fun b rest =>
    if b =? 13 then stay rest size (Ok (Some EndLf)) else stay rest size (Ok (Some Trailer))).
Definition read_end_lf (src : bytes) (size : Z) : Stepped :=
  with_byte src size (fun b rest =>
    if b =? 10 then stay rest size (Ok (Some End_))
    else stay rest size (Err (InvalidInput "Invalid chunk end LF"))).

(** [ChunkedState::step]. *)
Definition step (st : ChunkedState) (src : bytes) (size : Z) : Stepped :=
  match st with
  | Size => read_size src size
  | SizeLws => read_size_lws src size
  | Extension => read_extension src size
  | SizeLf => read_size_lf src size
  | Body => read_body src size
  | BodyCr => read_body_cr src size
  | BodyLf => read_body_lf src size
  | Trailer => read_trailer src size
  | TrailerLf => read_trailer_lf src size
  | EndCr => read_end_cr src size
  | EndLf => read_end_lf src size
  | End_ => stay src size (Ok (Some End_))
  end.

(** *** Setting, encoding, decoding *)

(** [TransferCoding::try_set]. *)
Definition try_set (self other : TransferCoding) : outcome ProtoError TransferCoding :=
  match self, other with
  | Upgrade, Upgrade => Ok self
  | _, Length 0 => Ok self
  | Upgrade, _ | DecodeChunked _ _, _ | Length _, _ => Err EHeaderName
  | _, _ => Ok other
  end.

(** [{:X}]: upper-case hexadecimal; 16 digits hold every [u64]. *)
Definition hex_digit (d : Z) : Z := if d <? 10 then 48 + d else 55 + d.
Fixpoint hex_go (fuel : nat) (n : Z) : bytes :=
  match fuel with
  | O => []
  | S k => if n <? 16 then [hex_digit n] else hex_go k (n / 16) ++ [hex_digit (n mod 16)]
  end.
Definition hex_upper (n : Z) : bytes := hex_go 16 n.

Definition CRLF : bytes := [13; 10].
(** [H1BufWrite::write_buf_bytes_chunked]. *)
Definition write_buf_bytes_chunked (buf b : bytes) : bytes :=
  buf ++ hex_upper (len b) ++ CRLF ++ b ++ CRLF.

(** [TransferCoding::encode] on a write buffer. *)
Definition encode {E} (bytes : bytes) : M (TransferCoding * list Z) E unit := fun s =>
  let '(self, buf) := s in
  if bool_decide (bytes = []) then (s, Ok tt)
  else match self with
       | Upgrade => ((self, buf ++ bytes), Ok tt)
       | EncodeChunked => ((self, write_buf_bytes_chunked buf bytes), Ok tt)
       | Length rem =>
           let n := len bytes in
           if n <=? rem then ((Length (rem - n), buf ++ bytes), Ok tt)
           else ((Length 0, buf ++ take (Z.to_nat rem) bytes), Ok tt)
       | Eof => (s, Ok tt)
       | Corrupted | DecodeChunked _ _ => (s, Panic)
       end.
(** [TransferCoding::encode_eof]. *)
Definition encode_eof {E} : M (TransferCoding * list Z) E unit := fun s =>
  let '(self, buf) := s in
  match self with
  | Eof | Upgrade | Length 0 => (s, Ok tt)
  | EncodeChunked => ((self, buf ++ bs "0" ++ CRLF ++ CRLF), Ok tt)
  | _ => (s, Panic)
  end.

(** The loop of [TransferCoding::decode]; every iteration but the last takes input, so fuel for
    one more iteration than there are bytes is enough ([None] would be running out). *)
Fixpoint decode_loop (fuel : nat) (st : ChunkedState) (size : Z) (src : bytes) :
  option (TransferCoding * bytes * ChunkResult) :=
  match fuel with
  | O => None
  | S n =>
      let r := step st src size in
      match st_res r with
      | Ok None => Some (DecodeChunked st (st_size r), st_src r, InsufficientData)
      | Err e => Some (DecodeChunked st (st_size r), st_src r, CErr e)
      | Panic => None
      | Ok (Some st') =>
          if decide (st' = End_) then Some (Eof, st_src r, OnEof)
          else match st_buf r with
               | Some buf => Some (DecodeChunked st' (st_size r), st_src r, COk buf)
               | None => decode_loop n st' (st_size r) (st_src r)
               end
      end
  end.

(** [TransferCoding::decode]: the coder and the input it leaves, and the result; [None] is a
    panic. *)
Definition decode (self : TransferCoding) (src : bytes) : option (TransferCoding * bytes * ChunkResult) :=
  match self with
  | Length 0 | DecodeChunked End_ _ => Some (Eof, src, OnEof)
  | Eof => Some (self, src, AlreadyEof)
  | Corrupted => Some (self, src, CCorrupted)
  | _ =>
      if bool_decide (src = []) then Some (self, src, InsufficientData)
      else match self with
           | Length rem =>
               let '(buf, rest, rem') := bounded_split rem src in Some (Length rem', rest, COk buf)
           | Upgrade => Some (self, [], COk src)
           | DecodeChunked st size => decode_loop (S (length src)) st size src
           | _ => None
           end
  end.

(** *** The decoder as a byte automaton *)

Definition byte_step (c : ChunkedState * Z) (b : Z) : outcome IoError ((ChunkedState * Z) * bytes) :=
  let r := step c.1 [b] c.2 in
  match st_res r with
  | Ok (Some st') => Ok ((st', st_size r), default [] (st_buf r))
  | Err e => Err e
  | _ => Panic
  end.

(** Bytes one by one until the end state or an error: the state, the data, what was not read, and
    the error. *)
Fixpoint run (c : ChunkedState * Z) (l : bytes) : (ChunkedState * Z) * bytes * bytes * option IoError :=
  match l with
  | [] => (c, [], [], None)
  | b :: t =>
      if decide (c.1 = End_) then (c, [], l, None)
      else match byte_step c b with
           | Ok (c', o) => let '(c'', o', rest, e) := run c' t in (c'', o ++ o', rest, e)
           | Err e => (c, [], t, Some e)
           | Panic => (c, [], t, None)
           end
  end.

Definition chunk_ok (c : ChunkedState * Z) : Prop := 0 <= c.2 /\ (c.1 = Body -> 0 < c.2).

Lemma run_end size l : run (End_, size) l = ((End_, size), [], l, None).
Proof. by destruct l. Qed.

(** Outside a chunk's data a step looks at one byte. *)
Lemma step_one st b t size :
  st <> Body -> st <> End_ ->
  let r := step st [b] size in
  step st (b :: t) size = mkStepped t (st_size r) None (st_res r) /\
  st_buf r = None /\ st_res r <> Ok None /\ st_res r <> Panic.
Proof.
  intros Hb He. destruct st; try done; cbn -[Z.leb Z.ltb Z.eqb];
    unfold read_size, read_size_lws, read_extension, read_size_lf, read_body_cr, read_body_lf, read_trailer,
      read_trailer_lf, read_end_cr, read_end_lf, with_byte, size_digit, stay;
    repeat case_match; simpl in *; simplify_eq; done.
Qed.

Lemma byte_step_total c b : byte_step c b <> Panic.
Proof.
  destruct c as [st size]. unfold byte_step. simpl. destruct (decide (st = Body)) as [->|Hb].
  { simpl. destruct (bounded_split size [b]) as [[? ?] ?]. done. }
  destruct (decide (st = End_)) as [->|He]; [done|].
  destruct (step_one st b [] size Hb He) as (_ & _ & Hn & Hp).
  by destruct (st_res (step st [b] size)) as [[?|]|e|].
Qed.

Lemma run_app c l1 l2 c' o :
  run c l1 = (c', o, [], None) ->
  run c (l1 ++ l2) = (let '(c'', o', rest, e) := run c' l2 in (c'', o ++ o', rest, e)).
Proof.
  revert c c' o. induction l1 as [|b l1 IH]; intros c c' o Hr; simpl in *.
  - injection Hr as <- <-. by destruct (run c l2) as [[[? ?] ?] ?].
  - case_decide as Hend; [done|]. pose proof (byte_step_total c b).
    destruct (byte_step c b) as [[c1 o1]|e|]; try done.
    destruct (run c1 l1) as [[[c2 o2] r2] e2] eqn:E2. injection Hr as -> <- -> ->.
    rewrite (IH c1 c' o2 E2). destruct (run c' l2) as [[[? ?] ?] ?]. by rewrite app_assoc.
Qed.

Lemma checked_add_eq a b s : checked_add 64 a b = Some s -> s = a + b.
Proof. unfold checked_add. by case_match; intros [= <-]. Qed.
Lemma checked_mul_eq a b s : checked_mul 64 a b = Some s -> s = a * b.
Proof. unfold checked_mul. by case_match; intros [= <-]. Qed.

Lemma size_digit_ok d size rest st' :
  0 <= d -> 0 <= size -> st_res (size_digit d size rest) = Ok (Some st') ->
  chunk_ok (st', st_size (size_digit d size rest)).
Proof.
  intros Hd Hs. unfold size_digit, stay. destruct (checked_mul 64 size 16) as [s|] eqn:Em; [|done].
  destruct (checked_add 64 s d) as [s'|] eqn:Ea; [|done]. simpl. intros [= <-].
  apply checked_add_eq in Ea. apply checked_mul_eq in Em. split; [simpl; lia|done].
Qed.

(** The size register stays a count, and is positive inside a chunk. *)
Lemma step_ok st b t size st' :
  chunk_ok (st, size) -> st_res (step st (b :: t) size) = Ok (Some st') ->
  chunk_ok (st', st_size (step st (b :: t) size)).
Proof.
  intros [Hs Hb]. simpl in Hs, Hb. unfold step. destruct st; cbn [st_res st_size];
    unfold read_size, read_size_lws, read_extension, read_size_lf, read_body_cr, read_body_lf, read_trailer,
      read_trailer_lf, read_end_cr, read_end_lf, with_byte.
  5: { unfold read_body, bounded_split. pose proof (len_nonneg (b :: t)). specialize (Hb eq_refl).
       destruct (Z.leb_spec (len (b :: t)) size); simpl; intros [= <-];
         (split; [simpl; lia|]); simpl; intros; destruct (Z.ltb_spec 0 (size - len (b :: t))); simpl in *; done || lia. }
  all: repeat match goal with
    | |- context [if ?c then _ else _] => destruct c eqn:?
    end; try (apply size_digit_ok; lia); unfold stay; simpl; intros [= <-]; split; simpl; done || lia.
Qed.

Lemma run_body size l :
  0 < size -> l <> [] -> len l <= size ->
  run (Body, size) l = ((if 0 <? size - len l then Body else BodyCr, size - len l), l, [], None).
Proof.
  revert size. induction l as [|b l IH]; intros size Hs Hne Hl; [done|].
  rewrite len_cons in *. pose proof (len_nonneg l). cbn [run]. rewrite decide_False by done.
  unfold byte_step. cbn [fst snd step read_body]. unfold bounded_split. change (len [b]) with 1.
  rewrite (proj2 (Z.leb_le _ _)) by lia. cbn [st_res st_size st_buf default].
  destruct (Z.ltb_spec 0 (size - 1)) as [Hp|Hp].
  - destruct l as [|x l'].
    + change (run (Body, size - 1) []) with ((Body, size - 1), @nil Z, @nil Z, @None IoError).
      change (len []) with 0. rewrite (proj2 (Z.ltb_lt _ _)) by lia. repeat f_equal; lia.
    + rewrite IH by (done || lia). replace (size - 1 - len (x :: l')) with (size - (1 + len (x :: l'))) by lia. done.
  - assert (l = []) as -> by (apply len_zero_nil; lia).
    change (run (BodyCr, size - 1) []) with ((BodyCr, size - 1), @nil Z, @nil Z, @None IoError).
    change (len []) with 0. rewrite (proj2 (Z.ltb_ge _ _)) by lia. repeat f_equal; lia.
Qed.

(** One step of the real decoder is a run of the automaton over what it took. *)
Lemma step_run st b t size :
  chunk_ok (st, size) -> st <> End_ ->
  let r := step st (b :: t) size in
  match st_res r with
  | Ok (Some st') => exists used, used <> [] /\ b :: t = used ++ st_src r /\
      run (st, size) used = ((st', st_size r), default [] (st_buf r), [], None) /\
      (st' = End_ -> st_buf r = None)
  | Err e => st_buf r = None /\ run (st, size) (b :: t) = ((st, size), [], st_src r, Some e)
  | _ => False
  end.
Proof.
  intros [Hs Hb] He. destruct (decide (st = Body)) as [->|Hnb].
  - specialize (Hb eq_refl). simpl in Hs, Hb. simpl step. unfold read_body, bounded_split.
    destruct (Z.leb_spec (len (b :: t)) size) as [Hle|Hgt]; cbn [st_res st_src st_buf st_size default].
    + exists (b :: t). rewrite app_nil_r. split_and!; try done; [by rewrite run_body|by case_match].
    + exists (take (Z.to_nat size) (b :: t)). rewrite take_drop.
      assert (Hl : len (take (Z.to_nat size) (b :: t)) = size) by (apply len_take; lia).
      assert (Hne : take (Z.to_nat size) (b :: t) <> []).
      { intros Hn. rewrite Hn in Hl. change (len []) with 0 in Hl. lia. }
      split_and!; try done. rewrite run_body by (done || lia). rewrite Hl.
      by replace (size - size) with 0 by lia.
  - destruct (step_one st b t size Hnb He) as (Hst & Hbuf & Hn & Hp). cbv zeta. rewrite Hst.
    cbn [st_res st_src st_buf st_size default]. cbn [run fst]. rewrite decide_False by done.
    unfold byte_step. cbn [fst snd]. rewrite Hbuf.
    destruct (st_res (step st [b] size)) as [[st'|]|e|] eqn:Er; try done.
    exists [b]. split_and!; try done. simpl run. rewrite decide_False by done. unfold byte_step.
    cbn [fst snd]. by rewrite Er, Hbuf.
Qed.

Lemma decode_loop_run fuel st size src :
  chunk_ok (st, size) -> st <> End_ -> (length src < fuel)%nat ->
  match decode_loop fuel st size src with
  | Some (DecodeChunked st' size', rest, COk buf) => st' <> End_ /\ chunk_ok (st', size') /\
      exists used, used <> [] /\ src = used ++ rest /\ run (st, size) used = ((st', size'), buf, [], None)
  | Some (DecodeChunked st' size', rest, InsufficientData) => st' <> End_ /\ chunk_ok (st', size') /\
      rest = [] /\ run (st, size) src = ((st', size'), [], [], None)
  | Some (DecodeChunked _ _, rest, CErr e) => exists c, run (st, size) src = (c, [], rest, Some e)
  | Some (Eof, rest, OnEof) => exists used sz, src = used ++ rest /\
      run (st, size) used = ((End_, sz), [], [], None)
  | _ => False
  end.
Proof.
  revert st size src. induction fuel as [|n IH]; intros st size src Hok He Hf; [lia|]. cbn [decode_loop].
  destruct src as [|b t].
  { replace (step st [] size) with (stay [] size (Ok None)) by (by destruct st). simpl. done. }
  pose proof (step_run st b t size Hok He) as Hr. pose proof (step_ok st b t size) as Hsok. cbv zeta in Hr.
  set (r := step st (b :: t) size) in *. clearbody r.
  destruct (st_res r) as [[st'|]|e|]; try done.
  2: { destruct Hr as [_ Hr]. by exists (st, size). }
  destruct Hr as (used & Hne & Hsrc & Hrun & Hbuf). specialize (Hsok st' Hok eq_refl).
  assert (Hlen : (length (st_src r) < length (b :: t))%nat).
  { rewrite Hsrc, length_app. destruct used; [done|]. simpl. lia. }
  case_decide as Hend.
  { subst st'. rewrite (Hbuf eq_refl) in Hrun. by exists used, (st_size r). }
  destruct (st_buf r) as [buf|]; simpl in Hrun; [split_and!; eauto|].
  specialize (IH st' (st_size r) (st_src r) Hsok Hend ltac:(lia)).
  destruct (decode_loop n st' (st_size r) (st_src r)) as [[[c rest] res]|]; [|done].
  assert (Happ := fun l => run_app (st, size) used l _ _ Hrun). rewrite Hsrc.
  destruct c, res; try done.
  - destruct IH as (used' & sz & Hs' & Hr'). exists (used ++ used'), sz.
    split; [by rewrite Hs', app_assoc|]. by rewrite Happ, Hr'.
  - destruct IH as (? & ? & used' & Hne' & Hs' & Hr'). split_and!; try done. exists (used ++ used').
    split_and!; [by destruct used|by rewrite Hs', app_assoc|]. by rewrite Happ, Hr'.
  - destruct IH as [c Hr']. exists c. by rewrite Happ, Hr'.
  - destruct IH as (? & ? & ? & Hr'). split_and!; try done. by rewrite Happ, Hr'.
Qed.

(** *** Reading a whole body *)

(** A reader that decodes what it has and reads the next segment when the decoder asks for more:
    the data, how it ended and the input left for the next message. *)
Inductive BodyEnd := Complete | Truncated | BadBody (e : IoError) | Stuck.
Fixpoint drain (fuel : nat) (self : TransferCoding) (src : bytes) (segs : list bytes) :
  bytes * BodyEnd * bytes :=
  match fuel with
  | O => ([], Stuck, src)
  | S n =>
      match decode self src with
      | Some (self', src', COk b) => let '(o, e, rest) := drain n self' src' segs in (b ++ o, e, rest)
      | Some (self', src', InsufficientData) =>
          match segs with
          | [] => ([], Truncated, src')
          | s :: segs' => drain n self' (src' ++ s) segs'
          end
      | Some (_, src', OnEof) => ([], Complete, src' ++ mjoin segs)
      | Some (_, src', CErr e) => ([], BadBody e, src' ++ mjoin segs)
      | _ => ([], Stuck, src)
      end
  end.
Definition drain_fuel (src : bytes) (segs : list bytes) : nat :=
  S (length src + length (mjoin segs) + length segs).

(** What the automaton says about the whole input. *)
Definition run_result (c : ChunkedState * Z) (l : bytes) : bytes * BodyEnd * bytes :=
  let '(c', o, rest, e) := run c l in
  match e with
  | Some e => (o, BadBody e, rest)
  | None => if decide (c'.1 = End_) then (o, Complete, rest) else (o, Truncated, rest)
  end.

Lemma run_result_app c l1 l2 c' o :
  run c l1 = (c', o, [], None) ->
  run_result c (l1 ++ l2) = (let '(o', e, rest) := run_result c' l2 in (o ++ o', e, rest)).
Proof.
  intros Hr. unfold run_result. rewrite (run_app _ _ _ _ _ Hr).
  destruct (run c' l2) as [[[c'' o'] rest] [e|]]; [done|]. by case_decide.
Qed.

Lemma run_error_app c l1 l2 c' o rest e :
  run c l1 = (c', o, rest, Some e) -> run c (l1 ++ l2) = (c', o, rest ++ l2, Some e).
Proof.
  revert c o. induction l1 as [|b l1 IH]; intros c o Hr; simpl in *; [done|].
  case_decide; [done|]. destruct (byte_step c b) as [[c1 o1]|e1|]; try done.
  - destruct (run c1 l1) as [[[c2 o2] r2] e2] eqn:E2. injection Hr as -> <- -> ->.
    by rewrite (IH c1 o2 E2).
  - by injection Hr as -> <- -> ->.
Qed.

Lemma drain_run n st size src segs :
  chunk_ok (st, size) -> st <> End_ -> (drain_fuel src segs <= n)%nat ->
  drain n (DecodeChunked st size) src segs = run_result (st, size) (src ++ mjoin segs).
Proof.
  revert st size src segs. induction n as [|n IH]; intros st size src segs Hok He Hf;
    [unfold drain_fuel in Hf; lia|].
  assert (Hins : forall st' size', chunk_ok (st', size') -> st' <> End_ ->
    run (st, size) src = ((st', size'), [], [], None) ->
    match segs with [] => ([], Truncated, []) | s :: segs' => drain n (DecodeChunked st' size') s segs' end
    = run_result (st, size) (src ++ mjoin segs)).
  { intros st' size' Hok' He' Hr. rewrite (run_result_app _ _ _ _ _ Hr).
    destruct segs as [|s segs']; simpl mjoin.
    - unfold run_result. simpl. by rewrite decide_False.
    - unfold drain_fuel in Hf. change (mjoin (s :: segs')) with (s ++ mjoin segs') in *.
      rewrite length_app in Hf. simpl in Hf.
      rewrite IH by (done || unfold drain_fuel; lia). by destruct (run_result _ _) as [[? ?] ?]. }
  cbn [drain]. destruct src as [|b t].
  { replace (decode (DecodeChunked st size) []) with (Some (DecodeChunked st size, @nil Z, InsufficientData))
      by (by destruct st).
    apply (Hins st size); done. }
  replace (decode (DecodeChunked st size) (b :: t)) with (decode_loop (S (length (b :: t))) st size (b :: t))
    by (by destruct st).
  pose proof (decode_loop_run (S (length (b :: t))) st size (b :: t) Hok He ltac:(lia)) as Hd.
  destruct (decode_loop _ st size (b :: t)) as [[[c rest] res]|]; [|done].
  destruct c as [| | |st' size'| |], res as [buf|e| | | |]; try done.
  - destruct Hd as (used & sz & -> & Hr). rewrite <- app_assoc, (run_result_app _ _ _ _ _ Hr).
    unfold run_result. by rewrite run_end.
  - destruct Hd as (He' & Hok' & used & Hne & Hsrc & Hr). rewrite Hsrc in *. rewrite <- app_assoc, (run_result_app _ _ _ _ _ Hr).
    rewrite IH; [by destruct (run_result _ _) as [[? ?] ?]|done|done|].
    unfold drain_fuel in *. rewrite length_app in Hf. destruct used; [done|]. simpl in Hf. lia.
  - destruct Hd as [c Hr]. unfold run_result. by rewrite (run_error_app _ _ _ _ _ _ _ Hr).
  - destruct Hd as (He' & Hok' & -> & Hr). by apply Hins.
Qed.

(** *** What the encoder writes *)

Lemma digit_step d size b :
  0 <= size -> size * 16 + d < 2 ^ 64 -> 0 <= d < 16 -> b = hex_digit d ->
  byte_step (Size, size) b = Ok ((Size, size * 16 + d), []).
Proof.
  intros Hs Hb Hd ->. unfold byte_step, hex_digit. cbn [fst snd step]. unfold read_size, with_byte, size_digit.
  unfold checked_mul, checked_add. rewrite (proj2 (Z.ltb_lt (size * 16) _)) by lia.
  destruct (Z.ltb_spec d 10).
  - rewrite (proj2 (Z.leb_le 48 _)), (proj2 (Z.leb_le _ 57)) by lia. simpl.
    replace (48 + d - 48) with d by lia. rewrite (proj2 (Z.ltb_lt (size * 16 + d) _)) by lia. done.
  - rewrite (proj2 (Z.leb_le 48 _)), (proj2 (Z.leb_gt _ 57)), (proj2 (Z.leb_gt 97 _)),
      (proj2 (Z.leb_le 65 _)), (proj2 (Z.leb_le _ 70)) by lia. simpl.
    replace (55 + d + 10 - 65) with d by lia. rewrite (proj2 (Z.ltb_lt (size * 16 + d) _)) by lia. done.
Qed.

Lemma run_hex fuel n :
  0 <= n < 16 ^ Z.of_nat fuel -> n < 2 ^ 64 -> (0 < fuel)%nat ->
  run (Size, 0) (hex_go fuel n) = ((Size, n), [], [], None).
Proof.
  revert n. induction fuel as [|f IH]; intros n Hn Hb Hf; [lia|]. cbn [hex_go].
  assert (Hone : forall size d, 0 <= size -> 0 <= d < 16 -> size * 16 + d < 2 ^ 64 ->
    run (Size, size) [hex_digit d] = ((Size, size * 16 + d), [], [], None)).
  { intros size d Hs Hd Hsd. cbn [run]. rewrite decide_False by done. by rewrite (digit_step d). }
  destruct (Z.ltb_spec n 16); [rewrite Hone by lia; done|].
  pose proof (Z.div_mod n 16 ltac:(lia)). pose proof (Z.mod_pos_bound n 16 ltac:(lia)).
  rewrite Nat2Z.inj_succ, Z.pow_succ_r in Hn by lia.
  destruct f as [|f]; [simpl in Hn; lia|].
  erewrite run_app; [|apply IH; [split; [apply Z.div_pos; lia|apply Z.div_lt_upper_bound; lia]|nia|lia]].
  rewrite Hone by (lia || apply Z.div_pos; lia). simpl. repeat f_equal. lia.
Qed.

Lemma run_chunk b :
  b <> [] -> len b < 2 ^ 64 ->
  run (Size, 0) (hex_upper (len b) ++ CRLF ++ b ++ CRLF) = ((Size, 0), b, [], None).
Proof.
  intros Hne Hl. pose proof (len_nonneg b).
  assert (Hpos : 0 < len b) by (destruct (Z.eq_dec (len b) 0) as [?%len_zero_nil|]; [done|lia]).
  erewrite run_app; [|apply run_hex; [split; [lia|change (16 ^ Z.of_nat 16) with (2 ^ 64); lia]|lia|lia]].
  erewrite (run_app _ CRLF).
  2: { cbn [run CRLF]. rewrite decide_False by done. unfold byte_step. cbn [fst snd step].
       unfold read_size, with_byte. simpl (_ && _). cbn [stay st_res st_size st_buf].
       cbn -[Z.ltb]. rewrite (proj2 (Z.ltb_lt _ _)) by lia. cbn -[Z.ltb]. done. }
  erewrite (run_app _ b); [|apply run_body; done || lia].
  replace (len b - len b) with 0 by lia. simpl. by rewrite app_nil_r.
Qed.

(** The bytes [encode] and [encode_eof] produce for a body handed over piece by piece. *)
Fixpoint encode_all {E} (chunks : list bytes) : M (TransferCoding * list Z) E unit :=
  match chunks with
  | [] => encode_eof
  | c :: rest => _ ← encode c; encode_all rest
  end.
Fixpoint chunked_wire (chunks : list bytes) : bytes :=
  match chunks with
  | [] => bs "0" ++ CRLF ++ CRLF
  | c :: rest =>
      (if decide (c = []) then [] else hex_upper (len c) ++ CRLF ++ c ++ CRLF) ++ chunked_wire rest
  end.

Lemma encode_all_chunked {E} chunks buf :
  encode_all (E := E) chunks (EncodeChunked, buf) = ((EncodeChunked, buf ++ chunked_wire chunks), Ok tt).
Proof.
  revert buf. induction chunks as [|c chunks IH]; intros buf; [done|].
  cbn [encode_all chunked_wire]. unfold mbind, M_bind. unfold encode.
  case_bool_decide as Hc.
  - subst c. rewrite IH. done.
  - rewrite IH. unfold write_buf_bytes_chunked.
    rewrite decide_False by done. by rewrite <- !app_assoc.
Qed.

Lemma run_wire chunks tail :
  Forall (fun c => len c < 2 ^ 64) chunks ->
  run_result (Size, 0) (chunked_wire chunks ++ tail) = (mjoin chunks, Complete, tail).
Proof.
  induction chunks as [|c chunks IH]; intros Hl.
  { assert (He : run (Size, 0) (chunked_wire []) = ((End_, 0), [], [], None)) by reflexivity.
    rewrite (run_result_app _ _ _ _ _ He). unfold run_result. by rewrite run_end. }
  inversion_clear Hl as [|? ? Hc Hl']. cbn [chunked_wire]. change (mjoin (c :: chunks)) with (c ++ mjoin chunks).
  rewrite <- app_assoc. case_decide as Hne; [subst c; by apply IH|].
  erewrite run_result_app; [|by apply run_chunk]. by rewrite IH.
Qed.

(** *** Bodies of a declared length *)

Lemma len_pos {A} (l : list A) : l <> [] -> 0 < len l.
Proof. destruct l; [done|]. intros _. rewrite len_cons. pose proof (len_nonneg l). lia. Qed.

Definition length_result (n : Z) (l : bytes) : bytes * BodyEnd * bytes :=
  if n <=? len l then (take (Z.to_nat n) l, Complete, drop (Z.to_nat n) l) else (l, Truncated, []).

Lemma decode_length rem src :
  0 < rem -> src <> [] ->
  decode (Length rem) src =
  let '(b, rest, rem') := bounded_split rem src in Some (Length rem', rest, COk b).
Proof.
  intros Hr Hs. unfold decode. destruct rem; try lia. rewrite bool_decide_eq_false_2 by done. done.
Qed.

Lemma length_result_app rem src l :
  len src <= rem -> length_result rem (src ++ l) =
  (let '(o, e, rest) := length_result (rem - len src) l in (src ++ o, e, rest)).
Proof.
  intros Hr. unfold length_result. rewrite len_app. pose proof (len_nonneg src).
  replace (rem <=? len src + len l) with (rem - len src <=? len l)
    by (destruct (Z.leb_spec (rem - len src) (len l)), (Z.leb_spec rem (len src + len l)); lia || done).
  destruct (Z.leb_spec (rem - len src) (len l)); [|done].
  assert (Hn : Z.to_nat rem = (length src + Z.to_nat (rem - len src))%nat) by (unfold len in *; lia).
  by rewrite Hn, take_app_add, drop_app_add.
Qed.

Lemma drain_length n rem src segs :
  0 <= rem -> (S (drain_fuel src segs) <= n)%nat ->
  drain n (Length rem) src segs = length_result rem (src ++ mjoin segs).
Proof.
  revert rem src segs. induction n as [|n IH]; intros rem src segs Hr Hf; [lia|].
  cbn [drain]. destruct (Z.eq_dec rem 0) as [->|Hrem].
  { simpl. unfold length_result. rewrite (proj2 (Z.leb_le _ _)) by apply len_nonneg. done. }
  unfold drain_fuel in Hf. destruct src as [|b t].
  - replace (decode (Length rem) []) with (Some (Length rem, @nil Z, InsufficientData)) by (by destruct rem).
    destruct segs as [|s segs'].
    + simpl. unfold length_result. by rewrite (proj2 (Z.leb_gt _ _)) by (simpl; unfold len; simpl; lia).
    + change (mjoin (s :: segs')) with (s ++ mjoin segs') in *. rewrite length_app in Hf. simpl in Hf.
      rewrite IH; [done|done|]. unfold drain_fuel. simpl. lia.
  - rewrite decode_length by (done || lia). unfold bounded_split.
    destruct (Z.leb_spec (len (b :: t)) rem) as [Hle|Hgt].
    + rewrite length_result_app by done. rewrite IH; [done|lia|]. unfold drain_fuel. simpl in *. lia.
    + rewrite IH; [|lia|unfold drain_fuel; rewrite length_drop; simpl in *; lia].
      unfold length_result. rewrite len_app. pose proof (len_nonneg (mjoin segs)).
      rewrite !(proj2 (Z.leb_le _ _)) by (rewrite ?len_app; pose proof (len_nonneg (drop (Z.to_nat rem) (b :: t) ++ mjoin segs)); try rewrite len_app in *; lia).
      rewrite drop_0, app_nil_r. unfold len in Hgt.
      by rewrite take_app_le, drop_app_le by lia.
Qed.

Lemma encode_all_length {E} chunks n buf :
  0 <= n ->
  encode_all (E := E) chunks (Length n, buf) =
  ((Length (Z.max 0 (n - len (mjoin chunks))), buf ++ take (Z.to_nat n) (mjoin chunks)),
   if n <=? len (mjoin chunks) then Ok tt else Panic).
Proof.
  revert n buf. induction chunks as [|c chunks IH]; intros n buf Hn.
  { cbn [encode_all]. unfold encode_eof. change (len (mjoin [])) with 0.
    simpl mjoin. rewrite take_nil, app_nil_r, Z.sub_0_r, Z.max_r by lia.
    destruct n; try lia; done. }
  cbn [encode_all]. unfold mbind, M_bind, encode. change (mjoin (c :: chunks)) with (c ++ mjoin chunks).
  rewrite len_app. pose proof (len_nonneg (mjoin chunks)). pose proof (len_nonneg c).
  case_bool_decide as Hc; [subst c; simpl; by rewrite IH|].
  destruct (Z.leb_spec (len c) n) as [Hle|Hgt].
  - rewrite IH by lia.
    assert (Hnat : Z.to_nat n = (length c + Z.to_nat (n - len c))%nat) by (unfold len in *; lia).
    rewrite Hnat, take_app_add, <- app_assoc.
    replace (n - len c <=? len (mjoin chunks)) with (n <=? len c + len (mjoin chunks))
      by (destruct (Z.leb_spec n (len c + len (mjoin chunks))), (Z.leb_spec (n - len c) (len (mjoin chunks))); lia || done).
    do 4 f_equal. lia.
  - rewrite IH by lia. rewrite take_0, app_nil_r. rewrite !(proj2 (Z.leb_le _ _)) by lia.
    rewrite !Z.max_l by lia. unfold len in Hgt. by rewrite take_app_le by lia.
Qed.

(** *** Properties *)

(** Chunked decoding does not depend on how the network cuts the body: reading a body in
    any segments produces the data, the end and the bytes left for the next request that the
    byte-by-byte automaton produces on the whole input; it needs at most one [decode] per byte
    and segment and never panics. *)
Theorem h1_chunked_segmentation st size src segs n :
  chunk_ok (st, size) -> st <> End_ -> (drain_fuel src segs <= n)%nat ->
  drain n (DecodeChunked st size) src segs = run_result (st, size) (src ++ mjoin segs) /\
  (drain n (DecodeChunked st size) src segs).1.2 <> Stuck.
Proof.
  intros Hok He Hn. rewrite drain_run by done. split; [done|].
  unfold run_result. destruct (run _ _) as [[[c o] r] [e|]]; [done|]. by case_decide.
Qed.

(** C29: a body written through [encode]/[encode_eof] with chunked coding in any pieces is read
    back by [decode] as the same bytes in any segmentation, and what follows the body (a pipelined
    message) is left in the buffer. *)
Theorem h1_chunked_roundtrip {E} chunks tail segs n :
  Forall (fun c => len c < 2 ^ 64) chunks ->
  mjoin segs = (encode_all (E := E) chunks (encode_chunked, [])).1.2 ++ tail ->
  (drain_fuel [] segs <= n)%nat ->
  drain n decode_chunked [] segs = (mjoin chunks, Complete, tail).
Proof.
  intros Hl Hs Hn. unfold encode_chunked in Hs. rewrite encode_all_chunked in Hs. simpl in Hs.
  unfold decode_chunked. rewrite drain_run by (done || (split; simpl; [lia|done])).
  simpl app. rewrite Hs. by apply run_wire.
Qed.

(** With a declared length the encoder writes exactly the first [n] bytes of what it is
    given, however it is cut (and panics at the end if that is less than [n]), and the decoder
    returns exactly the next [n] bytes of the input in any segmentation and leaves the rest. *)
Theorem h1_length_exact {E} n chunks segs buf fuel :
  0 <= n -> (S (drain_fuel [] segs) <= fuel)%nat ->
  encode_all (E := E) chunks (tc_length n, buf) =
    ((Length (Z.max 0 (n - len (mjoin chunks))), buf ++ take (Z.to_nat n) (mjoin chunks)),
     if n <=? len (mjoin chunks) then Ok tt else Panic) /\
  drain fuel (tc_length n) [] segs = length_result n (mjoin segs).
Proof.
  intros Hn Hf. unfold tc_length. split; [by apply encode_all_length|]. by rewrite drain_length.
Qed.

Lemma h1_chunked_segmentation_witness :
  drain 40 decode_chunked (bs "3;x") [CRLF ++ bs "a"; bs "bc" ++ CRLF ++ bs "0" ++ CRLF; CRLF ++ bs "G"]
  = (bs "abc", Complete, bs "G") /\
  (drain 40 decode_chunked (bs "3;x") [CRLF ++ bs "a"; bs "bc" ++ CRLF ++ bs "0" ++ CRLF; CRLF ++ bs "G"]).1.2 <> Stuck.
Proof.
  split; [reflexivity|].
  apply (h1_chunked_segmentation Size 0 (bs "3;x")); [split; simpl; [lia|done]|done|vm_compute; lia].
Defined.

Lemma h1_chunked_roundtrip_witness :
  drain 40 decode_chunked [] [bs "2" ++ CRLF ++ bs "h"; bs "i" ++ CRLF ++ bs "0" ++ CRLF ++ CRLF ++ bs "GET"]
  = (bs "hi", Complete, bs "GET").
Proof.
  apply (h1_chunked_roundtrip (E := unit) [bs "hi"] (bs "GET")); [|reflexivity|vm_compute; lia].
  repeat constructor.
Defined.

Lemma h1_length_exact_witness :
  drain 40 (tc_length 3) [] [bs "ab"; bs "cde"] = (bs "abc", Complete, bs "de").
Proof.
  apply (h1_length_exact (E := unit) 3 [] [bs "ab"; bs "cde"] [] 40); [lia|vm_compute; lia].
Defined.

(** A chunk-size line without a single digit is read as the terminating chunk. *)
Lemma h1_empty_chunk_size_is_last :
  drain 10 decode_chunked [] [CRLF ++ CRLF] = ([], Complete, []).
Proof. reflexivity. Qed.
