(* ===== verification/H1Head.v ===== *)
(** * HTTP/1 message heads (http/src/h1/proto/context.rs, decode.rs, encode.rs, header.rs, error.rs)

    The per-connection [Context], the decoding of a request head into a request and a body
    decoder, and the encoding of a response head into bytes and a body encoder.  The tokenizer
    ([httparse]) and the [http] crate's parsers are parameters. *)

From S2P Require Import Prelude Decimal Http H1Codec.

(** *** Context *)

(** [ContextState(u8)]. *)
Module CtxState.
Definition EXPECT : Z := 1.
Definition CONNECT : Z := 2.
Definition HEAD : Z := 4.
Definition CLOSE : Z := 8.
Definition new : Z := 0.
Definition insert (s other : Z) : Z := Z.lor s other.
Definition remove (s other : Z) : Z := Z.land s (Z.lxor 255 other).
Definition contains (s other : Z) : bool := Z.land s other =? other.
End CtxState.

(** The flag byte and the header map kept for the next request; the address, the extensions and
    the clock reference play no part in the decisions. *)
Record Context `{HeaderMap} := mkContext { state : Z; header : option hmap }.

Section Context.
Context `{HM : HeaderMap}.
Definition context_new : Context := mkContext _ CtxState.new None.
Definition with_state (c : Context) (s : Z) : Context := mkContext _ s (header c).
Definition take_headers (c : Context) : Context * hmap := (mkContext _ (state c) None, default hm_empty (header c)).
Definition replace_headers (c : Context) (hs : hmap) : Context := mkContext _ (state c) (Some hs).
Definition reset (c : Context) : Context := with_state c CtxState.new.
Definition set_expect_header (c : Context) : Context := with_state c (CtxState.insert (state c) CtxState.EXPECT).
Definition set_connect_method (c : Context) : Context := with_state c (CtxState.insert (state c) CtxState.CONNECT).
Definition set_head_method (c : Context) : Context := with_state c (CtxState.insert (state c) CtxState.HEAD).
Definition set_close (c : Context) : Context := with_state c (CtxState.insert (state c) CtxState.CLOSE).
Definition remove_close (c : Context) : Context := with_state c (CtxState.remove (state c) CtxState.CLOSE).
Definition is_expect_header (c : Context) : bool := CtxState.contains (state c) CtxState.EXPECT.
Definition is_connect_method (c : Context) : bool := CtxState.contains (state c) CtxState.CONNECT.
Definition is_head_method (c : Context) : bool := CtxState.contains (state c) CtxState.HEAD.
Definition is_connection_closed (c : Context) : bool := CtxState.contains (state c) CtxState.CLOSE.
End Context.

(** *** Header fields *)

Record HeaderIndex := mkIndex { idx_name : Z * Z; idx_value : Z * Z }.

(** [From<httparse::Error> for ProtoError]. *)
Inductive HttparseError := HpHeaderName | HpHeaderValue | HpNewLine | HpStatus | HpToken | HpTooManyHeaders | HpVersion.
Definition ProtoError_from_httparse (e : HttparseError) : ProtoError :=
  match e with
  | HpHeaderName => EHeaderName
  | HpHeaderValue => EHeaderValue
  | HpTooManyHeaders => EHeaderTooLarge
  | HpNewLine => ENewLine
  | HpStatus => EStatus
  | HpToken => EToken
  | HpVersion => EVersion
  end.

(** What the tokenizer finds in a complete head: its length, the method, the offsets of the path
    and of the header fields in the buffer, and the minor version. *)
Record Parsed := mkParsed {
  p_len : Z; p_method : bytes; p_path : Z * Z; p_version : Z; p_headers : list HeaderIndex }.

Definition in_range (n : Z) (r : Z * Z) : Prop := 0 <= r.1 <= r.2 /\ r.2 <= n.

(** [httparse::Request::parse_with_uninit_headers] ([Ok None] is [Status::Partial]) and the [http]
    crate's conversions.  The tokenizer hands out slices of the head it delimits, and header
    fields whose names and values the [http] crate accepts. *)
Class Httparse `{HM : HeaderMap} := {
  parse_request : bytes -> outcome HttparseError (option Parsed);
  method_from_bytes : bytes -> option Method;
  Uri : Type;
  uri_from : bytes -> option Uri;
  header_name_from : bytes -> option bytes;
  header_value_from : bytes -> option bytes;
  parse_request_total l : parse_request l <> Panic;
  parse_request_bounds l p : parse_request l = Ok (Some p) ->
    0 < p_len p <= len l /\ in_range (p_len p) (p_path p) /\
    Forall (fun i => in_range (p_len p) (idx_name i) /\ in_range (p_len p) (idx_value i)) (p_headers p);
  parse_request_fields l p i n v : parse_request l = Ok (Some p) -> i ∈ p_headers p ->
    slice (idx_name i).1 (idx_name i).2 l = Some n -> slice (idx_value i).1 (idx_value i).2 l = Some v ->
    is_Some (header_name_from n) /\ is_Some (header_value_from v);
}.

Section Head.
Context `{HP : Httparse}.

(** [header::parse_content_length]. *)
Definition parse_content_length (val : bytes) : outcome ProtoError Z :=
  ok_or EHeaderValue (to_str val ≫= parse_u64).

(** The comma-separated tokens of a value. *)
Definition tokens (val : bytes) : outcome ProtoError (list bytes) :=
  s ← ok_or EHeaderValue (to_str val); Ok (trim <$> split_on 44 s).

(** [Context::try_set_close_from_header]. *)
Definition close_token (c : Context) (val : bytes) : Context :=
  if eq_ignore_ascii_case val (bs "keep-alive") then remove_close c
  else if eq_ignore_ascii_case val (bs "close") then set_close c
  else c.
Definition try_set_close_from_header (c : Context) (val : bytes) : outcome ProtoError Context :=
  ts ← tokens val; Ok (fold_left close_token ts c).

(** The [transfer-encoding] loop of [try_write_header]. *)
Fixpoint set_chunked (decoder : TransferCoding) (ts : list bytes) : outcome ProtoError TransferCoding :=
  match ts with
  | [] => Ok decoder
  | t :: rest =>
      if eq_ignore_ascii_case t (bs "chunked")
      then d ← try_set decoder decode_chunked; set_chunked d rest
      else set_chunked decoder rest
  end.

(** [Context::try_write_header] once the field's name and value are at hand: the context, the
    header map and the body decoder it leaves. *)
Definition write_field (version : Version) (name value : bytes) (st : Context * hmap * TransferCoding) :
  outcome ProtoError (Context * hmap * TransferCoding) :=
  let '(c, hs, decoder) := st in
  st' ← (if decide (name = Hdr.TRANSFER_ENCODING) then
           if bool_decide (version <> HTTP_11) then Err EHeaderName
           else ts ← tokens value; d ← set_chunked decoder ts; Ok (c, d)
         else if decide (name = Hdr.CONTENT_LENGTH) then
           n ← parse_content_length value; d ← try_set decoder (tc_length n); Ok (c, d)
         else if decide (name = Hdr.CONNECTION) then
           c' ← try_set_close_from_header c value; Ok (c', decoder)
         else if decide (name = Hdr.EXPECT) then
           if eq_ignore_ascii_case value (bs "100-continue") then Ok (set_expect_header c, decoder)
           else Err EHeaderValue
         else if decide (name = Hdr.UPGRADE) then
           if bool_decide (version <> HTTP_11) then Err EHeaderName
           else d ← try_set decoder upgrade; Ok (c, d)
         else Ok (c, decoder));
  Ok (st'.1, hm_append name value hs, st'.2).
Definition try_write_header (version : Version) (idx : HeaderIndex) (slice_ : bytes)
  (st : Context * hmap * TransferCoding) : outcome ProtoError (Context * hmap * TransferCoding) :=
  n ← unwrap (slice (idx_name idx).1 (idx_name idx).2 slice_);
  name ← unwrap (header_name_from n);
  v ← unwrap (slice (idx_value idx).1 (idx_value idx).2 slice_);
  value ← unwrap (header_value_from v);
  write_field version name value st.
Fixpoint write_headers (version : Version) (idxs : list HeaderIndex) (slice_ : bytes) :
  M (Context * hmap * TransferCoding) ProtoError unit := fun st =>
  match idxs with
  | [] => (st, Ok tt)
  | i :: rest =>
      match try_write_header version i slice_ st with
      | Ok st' => write_headers version rest slice_ st'
      | Err e => (st, Err e)
      | Panic => (st, Panic)
      end
  end.

Record Request := mkReq { rq_method : Method; rq_version : Version; rq_uri : Uri; rq_headers : hmap }.

(** What the request line decides: the context flags, the default body decoder and the version. *)
Definition request_line (m : Method) (minor : Z) (c : Context) : Context * TransferCoding * Version :=
  let '(c, decoder) :=
    match m with
    | CONNECT => (set_connect_method c, upgrade)
    | HEAD => (set_head_method c, eof)
    | _ => (c, eof)
    end in
  let '(c, version) := if minor =? 1 then (c, HTTP_11) else (set_close c, HTTP_10) in
  (c, decoder, version).

(** [Context::decode_head]: the context and the buffer it leaves on every path. *)
Definition decode_head (READ_BUF_LIMIT : Z) :
  M (Context * bytes) ProtoError (option (Request * TransferCoding)) := fun s =>
  let '(c, buf) := s in
  match parse_request buf with
  | Err e => (s, Err (ProtoError_from_httparse e))
  | Panic => (s, Panic)
  | Ok None => if READ_BUF_LIMIT <=? len buf then (s, Err EHeaderTooLarge) else (s, Ok None)
  | Ok (Some req) =>
      let c := reset c in
      match method_from_bytes (p_method req) with
      | None => ((c, buf), Err EMethod)
      | Some method =>
          let '(c, decoder, version) := request_line method (p_version req) c in
          match m_split_to (E := ProtoError) (p_len req) buf with
          | (rest, Ok slice_) =>
              match slice (p_path req).1 (p_path req).2 slice_ with
              | None => ((c, rest), Panic)
              | Some path =>
                  match uri_from path with
                  | None => ((c, rest), Err EUri)
                  | Some uri =>
                      let '(c, hs) := take_headers c in
                      match write_headers version (p_headers req) slice_ (c, hs, decoder) with
                      | ((c, hs, decoder), Ok _) =>
                          ((c, rest), Ok (Some (mkReq method version uri hs, decoder)))
                      | ((c, _, _), Err e) => ((c, rest), Err e)
                      | ((c, _, _), Panic) => ((c, rest), Panic)
                      end
                  end
              end
          | (rest, _) => ((c, rest), Panic)
          end
      end
  end.

(** *** Encoding a response head *)

Inductive BodySize := BNone | BStream | BSized (size : Z).

Definition CHUNKED_HEADER : bytes := CRLF ++ bs "transfer-encoding: chunked".
Definition CLOSE_HEADER : bytes := CRLF ++ bs "connection: close".
Definition write_length_header (buf : bytes) (size : Z) : bytes :=
  buf ++ CRLF ++ bs "content-length: " ++ decimal size.

(** [encode_version_status_reason]; [reason] is [StatusCode::canonical_reason]. *)
Definition encode_version_status_reason (reason : Z -> option bytes) (buf : bytes) (version : Version) (status : Z) : bytes :=
  let prefix :=
    match version with
    | HTTP_10 => bs "HTTP/1.0 "
    | _ => bs "HTTP/1.1 "
    end in
  if bool_decide (version = HTTP_11) && (status =? StatusCode.OK) then buf ++ bs "HTTP/1.1 200 OK"
  else buf ++ prefix ++ decimal status ++ bs " " ++ default (bs "<none>") (reason status).

(** The loop variables of [encode_headers]. *)
Record Enc := mkEnc { e_ctx : Context; e_name : bytes; e_encoding : TransferCoding;
                      e_skip_date : bool; e_skip_ct_te : bool; e_buf : bytes }.

(** Whether a [transfer-encoding] value of a response asks for chunked. *)
Definition has_chunked (ts : list bytes) : bool :=
  existsb (fun t => eq_ignore_ascii_case t (bs "chunked")) ts.

(** One item of [headers.drain()]: the name is [None] for a further value of the last name. *)
Definition encode_field (item : option bytes * bytes) (e : Enc) : outcome ProtoError Enc :=
  let '(next_name, value) := item in
  let '(name, multi) := match next_name with Some n => (n, false) | None => (e_name e, true) end in
  let line (multi : bool) (e : Enc) : Enc :=
    mkEnc (e_ctx e) name (e_encoding e) (e_skip_date e) (e_skip_ct_te e)
      (if multi then e_buf e ++ bs ", " ++ value else e_buf e ++ CRLF ++ name ++ bs ": " ++ value) in
  let keep (c : Context) (enc : TransferCoding) (date ct : bool) : Enc := mkEnc c name enc date ct (e_buf e) in
  if decide (name = Hdr.CONNECTION) then
    if is_connection_closed (e_ctx e)
    then Ok (keep (e_ctx e) (e_encoding e) (e_skip_date e) (e_skip_ct_te e))
    else c ← try_set_close_from_header (e_ctx e) value;
         Ok (line multi (keep c (e_encoding e) (e_skip_date e) (e_skip_ct_te e)))
  else if decide (name = Hdr.UPGRADE) then
    Ok (line multi (keep (e_ctx e) upgrade (e_skip_date e) (e_skip_ct_te e)))
  else if decide (name = Hdr.DATE) then
    Ok (line multi (keep (e_ctx e) (e_encoding e) true (e_skip_ct_te e)))
  else if decide (name = Hdr.CONTENT_LENGTH) then
    if e_skip_ct_te e then Panic
    else n ← parse_content_length value;
         Ok (line multi (keep (e_ctx e) (tc_length n) (e_skip_date e) true))
  else if decide (name = Hdr.TRANSFER_ENCODING) then
    if e_skip_ct_te e then Panic
    else ts ← tokens value;
         Ok (line multi (if has_chunked ts then keep (e_ctx e) encode_chunked (e_skip_date e) true
                         else keep (e_ctx e) (e_encoding e) (e_skip_date e) (e_skip_ct_te e)))
  else if decide (name = Hdr.SET_COOKIE) then
    Ok (line false (keep (e_ctx e) (e_encoding e) (e_skip_date e) (e_skip_ct_te e)))
  else Ok (line multi (keep (e_ctx e) (e_encoding e) (e_skip_date e) (e_skip_ct_te e))).
Fixpoint encode_fields (items : list (option bytes * bytes)) : M Enc ProtoError unit := fun e =>
  match items with
  | [] => (e, Ok tt)
  | i :: rest =>
      match encode_field i e with
      | Ok e' => encode_fields rest e'
      | Err er => (e, Err er)
      | Panic => (e, Panic)
      end
  end.

(** [try_remove_body]. *)
Definition try_remove_body (buf : bytes) (skip_ct_te : bool) (size : BodySize) : bytes * TransferCoding :=
  (match size with
   | BNone => buf
   | BStream => if negb skip_ct_te then buf ++ CHUNKED_HEADER else buf
   | BSized n => if negb skip_ct_te then write_length_header buf n else buf
   end, eof).

(** [Context::encode_headers]; [date] is what the clock writes. *)
Definition encode_headers (date : bytes) (items : list (option bytes * bytes)) (size : BodySize)
  (skip_ct_te : bool) : M (Context * bytes) ProtoError TransferCoding := fun s =>
  match encode_fields items (mkEnc s.1 (bs "te") eof false skip_ct_te s.2) with
  | (e, Ok _) =>
      let c := e_ctx e in
      let '(buf, encoding) :=
        if is_head_method c then try_remove_body (e_buf e) (e_skip_ct_te e) size
        else if negb (e_skip_ct_te e) then
          match size with
          | BNone => (e_buf e, eof)
          | BStream => (e_buf e ++ CHUNKED_HEADER, encode_chunked)
          | BSized n => (write_length_header (e_buf e) n, tc_length n)
          end
        else (e_buf e, e_encoding e) in
      let buf := if is_connection_closed c then buf ++ CLOSE_HEADER else buf in
      let buf := if e_skip_date e then buf else buf ++ CRLF ++ bs "date: " ++ date in
      ((c, buf ++ CRLF ++ CRLF), Ok encoding)
  | (e, Err er) => ((e_ctx e, e_buf e), Err er)
  | (e, Panic) => ((e_ctx e, e_buf e), Panic)
  end.

(** [Context::encode_head] and [encode_head_inner]; [write_buf_head] reverts the buffer when the
    closure fails. *)
Definition encode_head (reason : Z -> option bytes) (date : bytes) (version : Version) (status : Z)
  (items : list (option bytes * bytes)) (size : BodySize) :
  M (Context * bytes) ProtoError TransferCoding := fun s =>
  let '(c, buf) := s in
  let success := (200 <=? status) && (status <? 300) in
  let informational := (100 <=? status) && (status <? 200) in
  let go (skip_ct_te : bool) :=
    match encode_headers date items size skip_ct_te
            (c, encode_version_status_reason reason buf version status) with
    | ((c', buf'), Ok encoding) => ((replace_headers c' hm_empty, buf'), Ok encoding)
    | ((c', _), Err e) => ((c', buf), Err e)
    | ((c', _), Panic) => ((c', buf), Panic)
    end in
  if status =? StatusCode.SWITCHING_PROTOCOLS then go true
  else if is_connect_method c && success then go true
  else if informational then (s, Err EStatus)
  else go false.

(** *** Context flags *)

Definition ctx_ok (c : Context) : Prop := 0 <= state c < 16.
Definition is_ctx_flag (x : Z) : Prop :=
  x = CtxState.EXPECT \/ x = CtxState.CONNECT \/ x = CtxState.HEAD \/ x = CtxState.CLOSE.

Lemma ctx_cases n : 0 <= n < 16 -> In n [0; 1; 2; 3; 4; 5; 6; 7; 8; 9; 10; 11; 12; 13; 14; 15].
Proof.
  intros H. assert (Hn : n = Z.of_nat (Z.to_nat n)) by lia. rewrite Hn.
  assert (Hlt : (Z.to_nat n < 16)%nat) by lia. revert Hlt. generalize (Z.to_nat n). clear. intros m Hm.
  do 16 (destruct m as [|m]; [simpl; tauto|]). lia.
Qed.
Lemma ctx_insert s x y :
  0 <= s < 16 -> is_ctx_flag x -> is_ctx_flag y ->
  0 <= CtxState.insert s x < 16 /\ CtxState.contains (CtxState.insert s x) y = (x =? y) || CtxState.contains s y.
Proof.
  intros Hs%ctx_cases Hx Hy.
  destruct Hx as [-> | [-> | [-> | ->]]], Hy as [-> | [-> | [-> | ->]]]; simpl in Hs;
    repeat (destruct Hs as [<-|Hs]; [split; [split; by vm_compute|reflexivity]|]); done.
Qed.
Lemma ctx_remove s x y :
  0 <= s < 16 -> is_ctx_flag x -> is_ctx_flag y ->
  0 <= CtxState.remove s x < 16 /\
  CtxState.contains (CtxState.remove s x) y = negb (x =? y) && CtxState.contains s y.
Proof.
  intros Hs%ctx_cases Hx Hy.
  destruct Hx as [-> | [-> | [-> | ->]]], Hy as [-> | [-> | [-> | ->]]]; simpl in Hs;
    repeat (destruct Hs as [<-|Hs]; [split; [split; by vm_compute|reflexivity]|]); done.
Qed.

(** *** What the header fields decide *)

(** The codings a field asks for, in order. *)
Definition chunked_setting (t : bytes) : option TransferCoding :=
  if eq_ignore_ascii_case t (bs "chunked") then Some decode_chunked else None.
Definition field_settings (f : bytes * bytes) : list TransferCoding :=
  if decide (f.1 = Hdr.TRANSFER_ENCODING) then
    match tokens f.2 with Ok ts => omap chunked_setting ts | _ => [] end
  else if decide (f.1 = Hdr.CONTENT_LENGTH) then
    match parse_content_length f.2 with Ok n => [Length n] | _ => [] end
  else if decide (f.1 = Hdr.UPGRADE) then [Upgrade]
  else [].

(** What a [connection] field says about closing, in order. *)
Definition directive (t : bytes) : option bool :=
  if eq_ignore_ascii_case t (bs "keep-alive") then Some false
  else if eq_ignore_ascii_case t (bs "close") then Some true
  else None.
Definition field_directives (f : bytes * bytes) : list bool :=
  if decide (f.1 = Hdr.CONNECTION) then
    match tokens f.2 with Ok ts => omap directive ts | _ => [] end
  else [].
Definition is_expect (f : bytes * bytes) : bool := bool_decide (f.1 = Hdr.EXPECT).

Fixpoint set_all (d : TransferCoding) (ss : list TransferCoding) : outcome ProtoError TransferCoding :=
  match ss with
  | [] => Ok d
  | x :: rest => d' ← try_set d x; set_all d' rest
  end.
Lemma set_all_app d ss1 ss2 : set_all d (ss1 ++ ss2) = d' ← set_all d ss1; set_all d' ss2.
Proof.
  revert d. induction ss1 as [|x ss1 IH]; intros d; [done|]. cbn [app set_all].
  destruct (try_set d x); cbn [mbind outcome_bind]; done.
Qed.
Lemma set_chunked_all d ts : set_chunked d ts = set_all d (omap chunked_setting ts).
Proof.
  revert d. induction ts as [|t ts IH]; intros d; [done|]. cbn [set_chunked omap list_omap].
  unfold chunked_setting at 1. destruct (eq_ignore_ascii_case t (bs "chunked")); [|apply IH].
  cbn [set_all]. destruct (try_set d decode_chunked); cbn [mbind outcome_bind]; done.
Qed.

(** The flags a context ends up with. *)
Definition flags_after (c c' : Context) (fs : list (bytes * bytes)) : Prop :=
  ctx_ok c' /\
  is_connection_closed c' = default (is_connection_closed c) (last (fs ≫= field_directives)) /\
  is_expect_header c' = is_expect_header c || existsb is_expect fs /\
  is_connect_method c' = is_connect_method c /\ is_head_method c' = is_head_method c /\
  header c' = header c.

Lemma is_ctx_flags : is_ctx_flag CtxState.EXPECT /\ is_ctx_flag CtxState.CONNECT /\
  is_ctx_flag CtxState.HEAD /\ is_ctx_flag CtxState.CLOSE.
Proof. unfold is_ctx_flag. tauto. Qed.

Lemma close_tokens_flags ts c :
  ctx_ok c ->
  let c' := fold_left close_token ts c in
  ctx_ok c' /\ is_connection_closed c' = default (is_connection_closed c) (last (omap directive ts)) /\
  is_expect_header c' = is_expect_header c /\ is_connect_method c' = is_connect_method c /\
  is_head_method c' = is_head_method c /\ header c' = header c.
Proof.
  destruct is_ctx_flags as (Fe & Fc & Fh & Fx).
  revert c. induction ts as [|t ts IH]; intros c Hc; [done|]. cbn [fold_left omap list_omap].
  assert (Hstep : ctx_ok (close_token c t) /\
    is_connection_closed (close_token c t) = default (is_connection_closed c) (directive t) /\
    is_expect_header (close_token c t) = is_expect_header c /\
    is_connect_method (close_token c t) = is_connect_method c /\
    is_head_method (close_token c t) = is_head_method c /\ header (close_token c t) = header c).
  { clear IH. pose proof (fun y => ctx_remove (state c) CtxState.CLOSE y Hc Fx) as Hrm.
    pose proof (fun y => ctx_insert (state c) CtxState.CLOSE y Hc Fx) as Hin.
    unfold close_token, directive. unfold is_connection_closed, is_expect_header, is_connect_method,
      is_head_method, remove_close, set_close, with_state, ctx_ok.
    destruct (eq_ignore_ascii_case t (bs "keep-alive")); [|destruct (eq_ignore_ascii_case t (bs "close"))];
      cbn [state header]; try done.
    - rewrite (proj2 (Hrm _ Fx)), (proj2 (Hrm _ Fe)), (proj2 (Hrm _ Fc)), (proj2 (Hrm _ Fh)).
      split; [exact (proj1 (Hrm _ Fx))|done].
    - rewrite (proj2 (Hin _ Fx)), (proj2 (Hin _ Fe)), (proj2 (Hin _ Fc)), (proj2 (Hin _ Fh)).
      split; [exact (proj1 (Hin _ Fx))|done]. }
  destruct Hstep as (H1 & H2 & H3 & H4 & H5 & H6). specialize (IH (close_token c t) H1).
  destruct IH as (I1 & I2 & I3 & I4 & I5 & I6). cbv zeta.
  rewrite I2, I3, I4, I5, I6, H2, H3, H4, H5, H6. split_and!; try done.
  destruct (directive t) as [b|]; simpl; [|done].
  rewrite last_cons. by destruct (last (omap directive ts)).
Qed.

Lemma flags_after_refl c : ctx_ok c -> flags_after c c [].
Proof. intros Hc. unfold flags_after. simpl. by rewrite orb_false_r. Qed.
Lemma last_app_default {A} (l k : list A) (d : A) : default d (last (l ++ k)) = default (default d (last l)) (last k).
Proof.
  destruct k as [|x k] using rev_ind; [by rewrite app_nil_r|].
  by rewrite app_assoc, !last_snoc.
Qed.
Lemma flags_after_trans c1 c2 c3 fs1 fs2 :
  flags_after c1 c2 fs1 -> flags_after c2 c3 fs2 -> flags_after c1 c3 (fs1 ++ fs2).
Proof.
  intros (A1 & A2 & A3 & A4 & A5 & A6) (B1 & B2 & B3 & B4 & B5 & B6). unfold flags_after.
  rewrite B2, B3, B4, B5, B6, A2, A3, A4, A5, A6. split_and!; try done.
  - by rewrite bind_app, last_app_default.
  - by rewrite existsb_app, orb_assoc.
Qed.

(** One field: the flags, the body decoder and the header map it leaves. *)
Lemma write_field_spec version name value c hs d c' hs' d' :
  ctx_ok c -> write_field version name value (c, hs, d) = Ok (c', hs', d') ->
  flags_after c c' [(name, value)] /\ set_all d (field_settings (name, value)) = Ok d' /\
  hs' = hm_append name value hs.
Proof.
  intros Hc. destruct is_ctx_flags as (Fe & Fc & Fh & Fx).
  unfold write_field, field_settings. cbn [fst snd].
  assert (Hkeep : name <> Hdr.CONNECTION -> name <> Hdr.EXPECT ->
    flags_after c c [(name, value)]).
  { intros H1 H2. unfold flags_after, field_directives, is_expect. simpl.
    rewrite decide_False, bool_decide_eq_false_2 by done. simpl. by rewrite !orb_false_r. }
  destruct (decide (name = Hdr.TRANSFER_ENCODING)) as [->|N1].
  { case_bool_decide; [done|]. destruct (tokens value) as [ts|e|]; cbn [mbind outcome_bind]; try done.
    rewrite set_chunked_all. destruct (set_all d (omap chunked_setting ts)) as [d0|e|]; cbn [mbind outcome_bind]; try done.
    intros [= <- <- <-]. split; [by apply Hkeep|done]. }
  destruct (decide (name = Hdr.CONTENT_LENGTH)) as [->|N2].
  { destruct (parse_content_length value) as [n|e|]; cbn [mbind outcome_bind]; try done. unfold tc_length.
    cbn [set_all]. destruct (try_set d (Length n)) as [d0|e|]; cbn [mbind outcome_bind]; try done.
    intros [= <- <- <-]. split; [by apply Hkeep|done]. }
  destruct (decide (name = Hdr.CONNECTION)) as [->|N3].
  { unfold try_set_close_from_header. destruct (tokens value) as [ts|e|] eqn:Et; cbn [mbind outcome_bind]; try done.
    intros [= <- <- <-]. destruct (close_tokens_flags ts c Hc) as (I1 & I2 & I3 & I4 & I5 & I6). split; [|done].
    unfold flags_after, field_directives, is_expect. simpl. rewrite Et, app_nil_r, orb_false_r.
    split_and!; done. }
  destruct (decide (name = Hdr.EXPECT)) as [->|N4].
  { destruct (eq_ignore_ascii_case value (bs "100-continue")); [|done]. cbn [mbind outcome_bind].
    intros [= <- <- <-]. split; [|done].
    unfold flags_after, field_directives, is_expect, set_expect_header, with_state, ctx_ok, is_connection_closed,
      is_expect_header, is_connect_method, is_head_method in *. cbn [state header].
    pose proof (fun y => ctx_insert (state c) CtxState.EXPECT y Hc Fe) as Hin.
    rewrite (proj2 (Hin _ Fx)), (proj2 (Hin _ Fe)), (proj2 (Hin _ Fc)), (proj2 (Hin _ Fh)).
    split_and!; try done; try apply (Hin _ Fx). simpl. by rewrite orb_true_r. }
  destruct (decide (name = Hdr.UPGRADE)) as [->|N5].
  { case_bool_decide; [done|]. unfold upgrade. cbn [set_all].
    destruct (try_set d Upgrade) as [d0|e|]; cbn [mbind outcome_bind]; try done.
    intros [= <- <- <-]. split; [by apply Hkeep|done]. }
  intros [= <- <- <-]. split; [by apply Hkeep|done].
Qed.

Lemma try_set_total d x : try_set d x <> Panic.
Proof. by destruct d, x as [| |[]| | |]. Qed.
Lemma set_all_total d ss : set_all d ss <> Panic.
Proof.
  revert d. induction ss as [|x ss IH]; intros d; [done|]. cbn [set_all].
  pose proof (try_set_total d x). by destruct (try_set d x); cbn [mbind outcome_bind].
Qed.
Lemma tokens_total v : tokens v <> Panic.
Proof. unfold tokens. by destruct (to_str v). Qed.
Lemma write_field_total version name value st : write_field version name value st <> Panic.
Proof.
  destruct st as [[c hs] d]. unfold write_field, parse_content_length, try_set_close_from_header.
  pose proof (tokens_total value). 
  repeat case_decide; repeat case_bool_decide; try done.
  - destruct (tokens value) as [ts|e|]; cbn [mbind outcome_bind]; try done. rewrite set_chunked_all.
    pose proof (set_all_total d (omap chunked_setting ts)). by destruct (set_all _ _).
  - destruct (to_str value ≫= parse_u64) as [n|]; cbn [ok_or mbind outcome_bind]; [|done].
    pose proof (try_set_total d (tc_length n)). by destruct (try_set _ _).
  - by destruct (tokens value).
  - by case_match.
  - pose proof (try_set_total d upgrade). by destruct (try_set _ _).
Qed.

(** The field a header index points at. *)
Definition field_at (slice_ : bytes) (i : HeaderIndex) : option (bytes * bytes) :=
  n ← slice (idx_name i).1 (idx_name i).2 slice_;
  name ← header_name_from n;
  v ← slice (idx_value i).1 (idx_value i).2 slice_;
  value ← header_value_from v;
  Some (name, value).
Lemma try_write_header_field version i slice_ st :
  try_write_header version i slice_ st =
  match field_at slice_ i with Some (n, v) => write_field version n v st | None => Panic end.
Proof.
  unfold try_write_header, field_at.
  destruct (slice (idx_name i).1 _ _) as [n|]; cbn [mbind outcome_bind option_bind unwrap]; [|done].
  destruct (header_name_from n); cbn [mbind outcome_bind option_bind unwrap]; [|done].
  destruct (slice (idx_value i).1 _ _) as [v|]; cbn [mbind outcome_bind option_bind unwrap]; [|done].
  by destruct (header_value_from v).
Qed.

Definition add_fields (fs : list (bytes * bytes)) (hs : hmap) : hmap :=
  fold_left (fun hs f => hm_append f.1 f.2 hs) fs hs.

Lemma write_headers_spec version idxs slice_ c hs d :
  ctx_ok c ->
  match write_headers version idxs slice_ (c, hs, d) with
  | ((c', hs', d'), Ok _) => exists fs, mapM (field_at slice_) idxs = Some fs /\ flags_after c c' fs /\
      set_all d (fs ≫= field_settings) = Ok d' /\ hs' = add_fields fs hs
  | (_, Err _) => True
  | (_, Panic) => mapM (field_at slice_) idxs = None
  end.
Proof.
  revert c hs d. induction idxs as [|i idxs IH]; intros c hs d Hc.
  { simpl. exists []. split_and!; try done. by apply flags_after_refl. }
  cbn [write_headers]. rewrite try_write_header_field. cbn [mapM].
  destruct (field_at slice_ i) as [[n v]|]; [|done]. cbn [mbind option_bind].
  destruct (write_field version n v (c, hs, d)) as [[[c1 hs1] d1]|e|] eqn:Ew; [|done|].
  2: by apply write_field_total in Ew.
  apply write_field_spec in Ew as (Hf & Hs & ->); [|done].
  specialize (IH c1 (hm_append n v hs) d1 ltac:(apply Hf)).
  destruct (write_headers version idxs slice_ _) as [[[c' hs'] d'] [u|e|]]; [|done|by rewrite IH].
  destruct IH as (fs & -> & Hf2 & Hs2 & ->). exists ((n, v) :: fs). split_and!; try done.
  - by apply (flags_after_trans _ c1 _ [(n, v)]).
  - cbn [mbind list_bind]. rewrite set_all_app, Hs. done.
Qed.

(** The codings that count: a zero content length is skipped. *)
Definition framing (ss : list TransferCoding) : list TransferCoding := filter (fun x => x <> Length 0) ss.

Lemma framing_all ss : Length 0 ∉ ss -> framing ss = ss.
Proof.
  unfold framing. induction ss as [|x ss IH]; [done|]. intros [Hx Hs]%not_elem_of_cons. rewrite filter_cons_True by congruence. by rewrite IH.
Qed.
Lemma set_all_upgrade ss d : set_all Upgrade ss = Ok d -> d = Upgrade /\ Forall (fun x => x = Upgrade) (framing ss).
Proof.
  unfold framing. induction ss as [|x ss IH]; intros Hs; [simpl in *; simplify_eq; split; [done|constructor]|].
  cbn [set_all] in Hs. rewrite filter_cons.
  destruct x as [| |[|n|n]| | |]; try done; simpl in Hs; cbn [mbind outcome_bind] in Hs; destruct (IH Hs) as [-> Hf];
    case_decide; try done; (split; [done|]); constructor; done.
Qed.
Lemma set_all_fixed d0 ss d :
  match d0 with Length _ | DecodeChunked _ _ => True | _ => False end ->
  set_all d0 ss = Ok d -> d = d0 /\ framing ss = [].
Proof.
  intros Hd0. unfold framing. induction ss as [|x ss IH]; intros Hs; [simpl in *; by simplify_eq|].
  cbn [set_all] in Hs. rewrite filter_cons.
  destruct d0 as [| |m|st m| |]; try done; destruct x as [| |[|n|n]| | |]; try done; simpl in Hs;
    cbn [mbind outcome_bind] in Hs; destruct (IH Hs) as [-> Hf]; case_decide; try done.
Qed.

(** Exactly one coding, or none: two that differ, or two of a kind other than upgrade, are refused. *)
Lemma set_all_eof ss d :
  Forall (fun x => x <> Eof /\ x <> Corrupted /\ x <> EncodeChunked) ss ->
  set_all Eof ss = Ok d ->
  match framing ss with
  | [] => d = Eof
  | x :: rest => d = x /\ (rest = [] \/ (x = Upgrade /\ Forall (fun y => y = Upgrade) rest))
  end.
Proof.
  intros Hall. unfold framing. induction Hall as [|x ss (H1 & H2 & H3) _ IH]; intros Hs; [simpl in *; by simplify_eq|].
  cbn [set_all] in Hs. rewrite filter_cons.
  destruct x as [| |[|n|n]|st n| |]; try done; simpl in Hs; cbn [mbind outcome_bind] in Hs; case_decide; try done.
  - by apply IH.
  - destruct (fun H => set_all_fixed _ _ _ H Hs) as [-> Hf]; [done|]. unfold framing in Hf. rewrite Hf. auto.
  - destruct (fun H => set_all_fixed _ _ _ H Hs) as [-> Hf]; [done|]. unfold framing in Hf. rewrite Hf. auto.
  - destruct (fun H => set_all_fixed _ _ _ H Hs) as [-> Hf]; [done|]. unfold framing in Hf. rewrite Hf. auto.
  - destruct (set_all_upgrade _ _ Hs) as [-> Hf]. auto.
Qed.

Lemma field_settings_kind f : Forall (fun x => x <> Eof /\ x <> Corrupted /\ x <> EncodeChunked) (field_settings f).
Proof.
  unfold field_settings, chunked_setting. repeat case_match; try constructor; try done; try by repeat constructor.
  apply Forall_forall. intros x Hx. apply list_elem_of_omap in Hx as (t & _ & Ht). by repeat case_match; simplify_eq.
Qed.

(** *** Request heads *)

Lemma slice_take {A} (l : list A) n a b : 0 <= n <= len l -> b <= n -> slice a b (take (Z.to_nat n) l) = slice a b l.
Proof.
  intros Hn Hb. rewrite <- (take_drop (Z.to_nat n) l) at 2.
  destruct (slice a b (take (Z.to_nat n) l)) as [x|] eqn:E; [by rewrite (slice_app_l _ _ _ _ _ E)|].
  unfold slice in *. rewrite take_drop. rewrite len_take in E by done.
  destruct (Z.leb_spec 0 a), (Z.leb_spec a b), (Z.leb_spec b n), (Z.leb_spec b (len l)); simpl in *; done || lia.
Qed.

Lemma fields_found l p :
  parse_request l = Ok (Some p) ->
  is_Some (mapM (field_at (take (Z.to_nat (p_len p)) l)) (p_headers p)).
Proof.
  intros Hp. destruct (parse_request_bounds l p Hp) as (Hl & _ & Hr).
  apply mapM_is_Some. apply Forall_forall. intros i Hi. rewrite Forall_forall in Hr.
  destruct (Hr i Hi) as [(Hn1 & Hn2) (Hv1 & Hv2)]. unfold compose, field_at.
  destruct (slice_in_range l (idx_name i).1 (idx_name i).2) as [n Hn]; [lia..|].
  destruct (slice_in_range l (idx_value i).1 (idx_value i).2) as [v Hv]; [lia..|].
  destruct (parse_request_fields l p i n v Hp Hi Hn Hv) as [[n' En] [v' Ev]].
  rewrite (slice_take l _ (idx_name i).1), Hn by lia. cbn [mbind option_bind]. rewrite En. cbn [mbind option_bind].
  rewrite (slice_take l _ (idx_value i).1), Hv by lia. cbn [mbind option_bind]. rewrite Ev. by eexists.
Qed.

Lemma reset_ok c : ctx_ok (reset c).
Proof. unfold ctx_ok, reset, with_state. simpl. unfold CtxState.new. lia. Qed.

Lemma request_line_flags m minor c :
  let '(c', d, v) := request_line m minor (reset c) in
  ctx_ok c' /\ v = (if minor =? 1 then HTTP_11 else HTTP_10) /\
  d = (if bool_decide (m = CONNECT) then Upgrade else Eof) /\
  is_connection_closed c' = negb (minor =? 1) /\ is_expect_header c' = false /\
  is_connect_method c' = bool_decide (m = CONNECT) /\ is_head_method c' = bool_decide (m = HEAD) /\
  header c' = header c.
Proof.
  unfold request_line. destruct (minor =? 1), m; simpl; (split; [split; by vm_compute|done]).
Qed.

(** [decode_head] on a complete head, in one piece. *)
Lemma decode_head_complete limit c buf p :
  parse_request buf = Ok (Some p) ->
  let '((c', rest), r) := decode_head limit (c, buf) in
  match r with
  | Ok None => False
  | Panic => False
  | Err _ => True
  | Ok (Some (req, decoder)) => exists m fs head d0 v c0,
      method_from_bytes (p_method p) = Some m /\ buf = head ++ rest /\ len head = p_len p /\
      request_line m (p_version p) (reset c) = (c0, d0, v) /\
      mapM (field_at head) (p_headers p) = Some fs /\
      flags_after (mkContext _ (state c0) None) c' fs /\ set_all d0 (fs ≫= field_settings) = Ok decoder /\
      rq_method req = m /\ rq_version req = v /\
      rq_headers req = add_fields fs (default hm_empty (header c))
  end.
Proof.
  intros Hp. destruct (parse_request_bounds buf p Hp) as (Hl & Hpath & _).
  unfold decode_head. rewrite Hp. destruct (method_from_bytes (p_method p)) as [m|] eqn:Em; [|done].
  pose proof (request_line_flags m (p_version p) c) as Hrl.
  destruct (request_line m (p_version p) (reset c)) as [[c2 d1] v] eqn:Erl.
  destruct Hrl as (Hok & Hv & Hd & _ & _ & _ & _ & Hhd).
  unfold m_split_to. rewrite (proj2 (Z.leb_le _ _)) by lia.
  destruct (slice_in_range buf (p_path p).1 (p_path p).2) as [path Hps]; [apply Hpath|destruct Hpath; lia|].
  rewrite slice_take, Hps by (destruct Hpath; lia). destruct (uri_from path) as [uri|]; [|done].
  unfold take_headers. cbv beta iota.
  pose proof (write_headers_spec v (p_headers p) (take (Z.to_nat (p_len p)) buf)
    (mkContext _ (state c2) None) (default hm_empty (header c2)) d1 Hok) as Hw.
  destruct (fields_found buf p Hp) as [fs0 Hfs0].
  destruct (write_headers v (p_headers p) _ _) as [[[c3 hs3] d3] [u|e|]]; [|done|by rewrite Hfs0 in Hw].
  destruct Hw as (fs & Hfs & Hfl & Hset & Hhs). rewrite Hhd in Hhs.
  exists m, fs, (take (Z.to_nat (p_len p)) buf), d1, v, c2. cbn [rq_method rq_version rq_headers].
  split_and!; try done; [by rewrite take_drop|apply len_take; lia].
Qed.

(** *** Response heads *)

(** What the fields of a response say about its body: the last coding they name, and whether
    they name one at all. *)
Fixpoint named (name : bytes) (items : list (option bytes * bytes)) : list (bytes * bytes) :=
  match items with
  | [] => []
  | (n, v) :: rest => let name := default name n in (name, v) :: named name rest
  end.

Definition plain (name : bytes) : Prop :=
  name ∉ [Hdr.CONNECTION; Hdr.UPGRADE; Hdr.DATE; Hdr.CONTENT_LENGTH; Hdr.TRANSFER_ENCODING; Hdr.SET_COOKIE].

(** The lines of a header map whose names have no special meaning: one line per name, its values
    joined by commas. *)
Fixpoint plain_lines (items : list (option bytes * bytes)) : bytes :=
  match items with
  | [] => []
  | (Some n, v) :: rest => CRLF ++ n ++ bs ": " ++ v ++ plain_lines rest
  | (None, v) :: rest => bs ", " ++ v ++ plain_lines rest
  end.

Lemma encode_plain items e :
  Forall (fun f => plain f.1) (named (e_name e) items) ->
  exists name, encode_fields items e =
  (mkEnc (e_ctx e) name (e_encoding e) (e_skip_date e) (e_skip_ct_te e) (e_buf e ++ plain_lines items), Ok tt).
Proof.
  revert e. induction items as [|[n v] items IH]; intros e Hp.
  { exists (e_name e). simpl. rewrite app_nil_r. by destruct e. }
  cbn [named] in Hp. inversion_clear Hp as [|? ? Hn Hp']. cbn [fst] in Hn.
  cbn [encode_fields]. unfold encode_field.
  assert (Hne : forall x, x ∈ [Hdr.CONNECTION; Hdr.UPGRADE; Hdr.DATE; Hdr.CONTENT_LENGTH; Hdr.TRANSFER_ENCODING; Hdr.SET_COOKIE] ->
    default (e_name e) n <> x) by (intros x Hx Heq; apply Hn; by rewrite Heq).
  destruct n as [n|]; cbn [default] in *;
    rewrite !decide_False by (apply Hne; rewrite !elem_of_cons; tauto); cbn [e_ctx e_name e_encoding e_skip_date e_skip_ct_te e_buf].
  - edestruct IH as [name ->]; [exact Hp'|]. exists name. cbn [e_ctx e_name e_encoding e_skip_date e_skip_ct_te e_buf plain_lines].
    by rewrite <- !app_assoc.
  - edestruct IH as [name ->]; [exact Hp'|]. exists name. cbn [e_ctx e_name e_encoding e_skip_date e_skip_ct_te e_buf plain_lines].
    by rewrite <- !app_assoc.
Qed.

(** The framing header and the coding a body size gets. *)
Definition size_header (size : BodySize) : bytes :=
  match size with
  | BNone => []
  | BStream => CHUNKED_HEADER
  | BSized n => CRLF ++ bs "content-length: " ++ decimal n
  end.
Definition size_coding (size : BodySize) : TransferCoding :=
  match size with BNone => Eof | BStream => EncodeChunked | BSized n => Length n end.

Lemma encode_headers_plain date items size skip c buf :
  Forall (fun f => plain f.1) (named (bs "te") items) ->
  encode_headers date items size skip (c, buf) =
  ((c, buf ++ plain_lines items ++ (if skip then [] else size_header size)
         ++ (if is_connection_closed c then CLOSE_HEADER else [])
         ++ CRLF ++ bs "date: " ++ date ++ CRLF ++ CRLF),
   Ok (if is_head_method c || skip then Eof else size_coding size)).
Proof.
  intros Hp. unfold encode_headers. cbn [fst snd].
  destruct (encode_plain items (mkEnc c (bs "te") eof false skip buf)) as [name ->]; [exact Hp|].
  cbn [e_ctx e_buf e_skip_ct_te e_skip_date e_encoding].
  unfold try_remove_body, write_length_header, size_header, size_coding, encode_chunked, tc_length, eof.
  destruct (is_head_method c), skip, size, (is_connection_closed c); cbn [negb orb];
    rewrite <- ?app_assoc, ?app_nil_l; done.
Qed.

(** A field changes the context only by its [connection] tokens. *)
Lemma encode_field_ctx item e e' :
  encode_field item e = Ok e' -> exists ts, e_ctx e' = fold_left close_token ts (e_ctx e).
Proof.
  destruct item as [n v]. unfold encode_field.
  destruct (match n with Some n0 => (n0, false) | None => (e_name e, true) end) as [name multi].
  destruct (decide (name = Hdr.CONNECTION)).
  { destruct (is_connection_closed (e_ctx e)); [intros [= <-]; by exists []|].
    unfold try_set_close_from_header.
    destruct (tokens v) as [ts|?|]; cbn [mbind outcome_bind]; try done. intros [= <-]. by exists ts. }
  destruct (decide (name = Hdr.UPGRADE)); [intros [= <-]; by exists []|].
  destruct (decide (name = Hdr.DATE)); [intros [= <-]; by exists []|].
  destruct (decide (name = Hdr.CONTENT_LENGTH)).
  { destruct (e_skip_ct_te e); [done|]. destruct (parse_content_length v); cbn [mbind outcome_bind]; try done.
    intros [= <-]. by exists []. }
  destruct (decide (name = Hdr.TRANSFER_ENCODING)).
  { destruct (e_skip_ct_te e); [done|]. destruct (tokens v) as [ts|?|]; cbn [mbind outcome_bind]; try done.
    intros [= <-]. exists []. by destruct (has_chunked ts). }
  destruct (decide (name = Hdr.SET_COOKIE)); intros [= <-]; by exists [].
Qed.

Lemma encode_fields_ctx items e e' :
  encode_fields items e = (e', Ok tt) -> exists ts, e_ctx e' = fold_left close_token ts (e_ctx e).
Proof.
  revert e. induction items as [|i items IH]; intros e He; [injection He as <-; by exists []|].
  cbn [encode_fields] in He. destruct (encode_field i e) as [e1|er|] eqn:E1; try done.
  apply encode_field_ctx in E1 as [ts1 H1]. destruct (IH e1 He) as [ts2 H2].
  exists (ts1 ++ ts2). by rewrite fold_left_app, H2, H1.
Qed.

(** *** Properties *)

(** C30: a request head is framed unambiguously.  Whenever [decode_head] accepts a head none of
    whose content lengths is zero, the body decoder it returns is the single coding its fields ask
    for: no body when they ask for none; otherwise the one coding they name (a content length, or
    chunked), two different codings or two lengths being refused; repeated upgrades, and only
    these, may coincide; a CONNECT request is always passed through.  A content length of zero is
    not counted as a coding, so that a second one is accepted beside it
    ([h1_zero_length_skipped]). *)
Theorem h1_request_framing limit c buf c' rest req decoder :
  decode_head limit (c, buf) = ((c', rest), Ok (Some (req, decoder))) ->
  exists p fs, parse_request buf = Ok (Some p) /\
    mapM (field_at (take (Z.to_nat (p_len p)) buf)) (p_headers p) = Some fs /\
    let ss := fs ≫= field_settings in
    (Length 0 ∉ ss ->
     if bool_decide (rq_method req = CONNECT)
     then decoder = Upgrade /\ Forall (fun x => x = Upgrade) ss
     else match ss with
          | [] => decoder = Eof
          | x :: more => decoder = x /\ (more = [] \/ (x = Upgrade /\ Forall (fun y => y = Upgrade) more))
          end).
Proof.
  intros Hd. destruct (parse_request buf) as [[p|]|e|] eqn:Hp;
    [|unfold decode_head in Hd; rewrite Hp in Hd; try case_match; done..].
  pose proof (decode_head_complete limit c buf p Hp) as Hc. rewrite Hd in Hc.
  destruct Hc as (m & fs & head & d0 & v & c0 & Hm & Hbuf & Hl & Hrl & Hfs & Hfl & Hset & Hrm & Hrv & _).
  pose proof (request_line_flags m (p_version p) c) as Hr. rewrite Hrl in Hr. destruct Hr as (_ & _ & -> & _).
  exists p, fs. split; [done|]. split.
  { rewrite <- Hfs. f_equal. f_equal. rewrite Hbuf, <- Hl. unfold len. by rewrite Nat2Z.id, take_app_length. }
  rewrite Hrm. cbv zeta. intros Hz. apply framing_all in Hz. case_bool_decide.
  - rewrite <- Hz at 1. by apply set_all_upgrade.
  - rewrite <- Hz. apply set_all_eof in Hset; [done|]. apply Forall_bind, Forall_forall. intros f _. apply field_settings_kind.
Qed.

(** [decode_head] on every buffer and context: it never panics; an incomplete head leaves
    context and buffer as they were and is refused once the buffer reaches the limit; a complete
    head is taken off the front of the buffer and nothing else; and its result does not depend on
    the flags the previous request left behind. *)
Theorem h1_decode_head_total limit c buf s :
  let '((c', rest), r) := decode_head limit (c, buf) in
  match r with
  | Ok None => c' = c /\ rest = buf /\ len buf < limit /\ parse_request buf = Ok None
  | Ok (Some _) => exists p, parse_request buf = Ok (Some p) /\ rest = drop (Z.to_nat (p_len p)) buf /\
      decode_head limit (with_state c s, buf) = decode_head limit (c, buf)
  | Err e => parse_request buf = Ok None -> e = EHeaderTooLarge /\ limit <= len buf
  | Panic => False
  end.
Proof.
  destruct (parse_request buf) as [[p|]|e|] eqn:Hp.
  - pose proof (decode_head_complete limit c buf p Hp) as Hc.
    assert (Hsame : decode_head limit (with_state c s, buf) = decode_head limit (c, buf)).
    { unfold decode_head. rewrite Hp. unfold reset, with_state. done. }
    rewrite Hsame. destruct (decode_head limit (c, buf)) as [[c' rest] [[[req dec]|]|er|]]; try done.
    destruct Hc as (m & fs & head & d0 & v & c0 & Hm & Hbuf & Hl & _). exists p. split_and!; try done.
    rewrite Hbuf, <- Hl. unfold len. by rewrite Nat2Z.id, drop_app_length.
  - unfold decode_head. rewrite Hp. destruct (Z.leb_spec limit (len buf)); [done|]. split_and!; done || lia.
  - unfold decode_head. by rewrite Hp.
  - by apply parse_request_total in Hp.
Qed.

(** What the connection keeps of an accepted request: it is to be closed exactly when the
    last [keep-alive]/[close] token says so, by default for HTTP/1.0 only; the CONNECT, HEAD and
    EXPECT flags are those of this request. *)
Theorem h1_request_flags limit c buf c' rest req decoder p fs :
  decode_head limit (c, buf) = ((c', rest), Ok (Some (req, decoder))) ->
  parse_request buf = Ok (Some p) ->
  mapM (field_at (take (Z.to_nat (p_len p)) buf)) (p_headers p) = Some fs ->
  is_connection_closed c' = default (negb (p_version p =? 1)) (last (fs ≫= field_directives)) /\
  is_connect_method c' = bool_decide (rq_method req = CONNECT) /\
  is_head_method c' = bool_decide (rq_method req = HEAD) /\
  is_expect_header c' = existsb is_expect fs.
Proof.
  intros Hd Hp Hfs. pose proof (decode_head_complete limit c buf p Hp) as Hc. rewrite Hd in Hc.
  destruct Hc as (m & fs' & head & d0 & v & c0 & Hm & Hbuf & Hl & Hrl & Hfs' & Hfl & Hset & Hrm & _).
  assert (Hhead : take (Z.to_nat (p_len p)) buf = head)
    by (rewrite Hbuf, <- Hl; unfold len; by rewrite Nat2Z.id, take_app_length).
  rewrite Hhead, Hfs' in Hfs. injection Hfs as ->.
  pose proof (request_line_flags m (p_version p) c) as Hr. rewrite Hrl in Hr.
  destruct Hr as (_ & _ & _ & R1 & R2 & R3 & R4 & _).
  destruct Hfl as (_ & F1 & F2 & F3 & F4 & _).
  unfold is_connection_closed, is_expect_header, is_connect_method, is_head_method in *. cbn [state] in *.
  rewrite F1, F2, F3, F4, R1, R2, R3, R4, Hrm. done.
Qed.

(** The head of a response whose headers leave the framing to the server: status line, one
    line per header name with its values joined by commas, the framing header for the body's size,
    [connection: close] exactly when the connection is to be closed, the date, an empty line; and
    the body coding that matches the framing header, except that a response to HEAD has none. *)
Theorem h1_response_head reason date version st items size c buf :
  Forall (fun f => plain f.1) (named (bs "te") items) ->
  200 <= st -> (is_connect_method c = true -> 300 <= st) ->
  encode_head reason date version st items size (c, buf) =
  ((replace_headers c hm_empty,
    encode_version_status_reason reason buf version st ++ plain_lines items ++ size_header size
      ++ (if is_connection_closed c then CLOSE_HEADER else [])
      ++ CRLF ++ bs "date: " ++ date ++ CRLF ++ CRLF),
   Ok (if is_head_method c then Eof else size_coding size)).
Proof.
  intros Hp Hst Hcon. unfold encode_head. unfold StatusCode.SWITCHING_PROTOCOLS.
  rewrite (proj2 (Z.eqb_neq st 101)) by lia.
  assert (Hc : is_connect_method c && ((200 <=? st) && (st <? 300)) = false).
  { destruct (is_connect_method c); [|done]. specialize (Hcon eq_refl).
    rewrite (proj2 (Z.ltb_ge st 300)) by lia. simpl. apply andb_false_r. }
  rewrite Hc. rewrite (proj2 (Z.ltb_ge st 200)) by lia. rewrite andb_false_r.
  rewrite encode_headers_plain by done. cbn [fst snd]. by rewrite orb_false_r.
Qed.

(** Whatever headers the service sets, a response to a HEAD request gets the empty body
    coding, so no body byte is written after it. *)
Theorem h1_head_has_no_body reason date version st items size c buf c' buf' encoding :
  ctx_ok c -> is_head_method c = true ->
  encode_head reason date version st items size (c, buf) = ((c', buf'), Ok encoding) -> encoding = Eof.
Proof.
  intros Hok Hh. unfold encode_head, encode_headers. cbn [fst snd].
  set (b0 := encode_version_status_reason _ _ _ _).
  assert (Hgo : forall skip e u, encode_fields items (mkEnc c (bs "te") eof false skip b0) = (e, Ok u) ->
    is_head_method (e_ctx e) = true).
  { intros skip e [] He. apply encode_fields_ctx in He as [ts ->]. cbn [e_ctx].
    destruct (close_tokens_flags ts c Hok) as (_ & _ & _ & _ & -> & _). done. }
  repeat case_match; simplify_eq; intros Heq; simplify_eq;
    repeat match goal with
    | H : encode_fields items ?x = (?e, Ok ?u), H' : is_head_method (e_ctx ?e) = false |- _ =>
        rewrite (Hgo _ _ _ H) in H'; discriminate H'
    | H : try_remove_body _ _ _ = _ |- _ => unfold try_remove_body in H; simplify_eq
    end; done.
Qed.
End Head.

(** A tokenizer that knows one request, to run the head decoder on. *)
Definition toy_request : bytes :=
  bs "POST /x HTTP/1.1" ++ CRLF ++ bs "content-length: 3" ++ CRLF ++ CRLF ++ bs "abc".
Definition toy_parsed : Parsed := mkParsed 39 (bs "POST") (5, 7) 1 [mkIndex (18, 32) (34, 35)].
Definition toy_httparse : Httparse (HM := assoc_map).
Proof.
  refine {| parse_request := fun l => if decide (l = toy_request) then Ok (Some toy_parsed) else Ok None;
    method_from_bytes := fun m => if decide (m = bs "POST") then Some POST else None;
    Uri := bytes; uri_from := Some; header_name_from := Some; header_value_from := Some |}.
  - intros l. by case_decide.
  - intros l p. case_decide as Hl; [|done]. intros [= <-]. subst l.
    split_and!; try (vm_compute; split; congruence); repeat constructor; vm_compute; congruence.
  - intros l p i n v _ _ _ _. split; by eexists.
Defined.
Definition toy_decoded := decode_head (HP := toy_httparse) 4096 (context_new, toy_request).
Definition toy_req := mkReq (HP := toy_httparse) POST HTTP_11 (bs "/x") [(bs "content-length", bs "3")].
Lemma toy_decoded_eq : toy_decoded = ((mkContext assoc_map 0 None, bs "abc"), Ok (Some (toy_req, Length 3))).
Proof. reflexivity. Qed.

Lemma h1_request_framing_witness :
  exists p fs, parse_request (Httparse := toy_httparse) toy_request = Ok (Some p) /\
    mapM (field_at (HP := toy_httparse) (take (Z.to_nat (p_len p)) toy_request)) (p_headers p) = Some fs /\
    match fs ≫= field_settings with [x] => x = Length 3 | _ => False end.
Proof.
  destruct (h1_request_framing (HP := toy_httparse) 4096 context_new toy_request _ _ _ _ toy_decoded_eq)
    as (p & fs & H1 & H2 & H3). pose proof H1 as Hp. vm_compute in Hp. injection Hp as <-. pose proof H2 as Hf. vm_compute in Hf. injection Hf as <-.
  eexists. eexists. split; [exact H1|]. split; [exact H2|]. cbv zeta in H3.
  destruct H3 as [H3 _]; [apply (bool_decide_unpack _); vm_compute; exact I|]. vm_compute. exact (eq_sym H3).
Defined.

Lemma h1_request_flags_witness : is_connection_closed (mkContext assoc_map 0 None) = false.
Proof.
  destruct (h1_request_flags (HP := toy_httparse) 4096 context_new toy_request _ _ _ _ toy_parsed
    [(bs "content-length", bs "3")] toy_decoded_eq) as (H & _).
  - reflexivity.
  - vm_compute. reflexivity.
  - exact H.
Defined.

Lemma h1_response_head_witness :
  exists buf, encode_head (HM := assoc_map) (fun _ => None) (bs "now") HTTP_11 200 [(Some (bs "a"), bs "1"); (None, bs "2")]
    (BSized 5) (context_new, []) = ((mkContext assoc_map 0 (Some []), buf), Ok (Length 5)).
Proof.
  eexists. apply (h1_response_head (HM := assoc_map) (fun _ => None) (bs "now") HTTP_11 200
    [(Some (bs "a"), bs "1"); (None, bs "2")] (BSized 5) context_new []).
  - repeat constructor; apply (bool_decide_unpack _); vm_compute; exact I.
  - lia.
  - done.
Defined.

Lemma h1_head_has_no_body_witness :
  exists encoding, (encode_head (HM := assoc_map) (fun _ => None) (bs "now") HTTP_11 200
    [(Some (bs "content-length"), bs "7")] BStream (set_head_method context_new, [])).2 = Ok encoding /\
    encoding = Eof.
Proof.
  destruct (encode_head (HM := assoc_map) (fun _ => None) (bs "now") HTTP_11 200
    [(Some (bs "content-length"), bs "7")] BStream (set_head_method context_new, [])) as [[c' buf'] r] eqn:E.
  assert (Hr : r = Ok Eof) by (apply (f_equal snd) in E; simpl snd in E at 2; rewrite <- E; reflexivity). subst r.
  exists Eof. split; [done|].
  apply (h1_head_has_no_body (HM := assoc_map) (fun _ => None) (bs "now") HTTP_11 200
    [(Some (bs "content-length"), bs "7")] BStream (set_head_method context_new) [] c' buf' Eof); [|reflexivity|exact E].
  split; vm_compute; congruence.
Defined.

(** Two content lengths, or a length and chunked, pass when the length is zero. *)
Lemma h1_zero_length_skipped :
  set_all Eof [Length 5; Length 0] = Ok (Length 5) /\
  set_all Eof [Length 0; decode_chunked] = Ok decode_chunked /\
  set_all Eof [Length 5; Length 5] = Err EHeaderName.
Proof. done. Qed.

(** A signed content length is accepted. *)
Lemma h1_signed_length : parse_content_length (HM := assoc_map) (bs "+5") = Ok 5.
Proof. reflexivity. Qed.

(** A service that sets [connection: close] itself gets the header written twice. *)
Lemma h1_close_written_twice :
  (encode_headers (HM := assoc_map) (bs "now") [(Some (bs "connection"), bs "close")] BNone false (context_new, [])).1.2
  = CRLF ++ bs "connection: close" ++ CRLF ++ bs "connection: close" ++ CRLF ++ bs "date: now" ++ CRLF ++ CRLF.
Proof. vm_compute. reflexivity. Qed.
