(* ===== verification/HpackInt.v ===== *)
(** * HPACK integers and representations (http/src/h2/proto/hpack/decoder.rs, encoder.rs)

    Prefix-coded integers, the kind of a header field block, and the decoder's errors. *)

From S2P Require Import Prelude.

Inductive NeedMore := UnexpectedEndOfStream | IntegerUnderflow | StringUnderflow.
#[global] Instance NeedMore_eq_dec : EqDecision NeedMore.
Proof. solve_decision. Defined.
Inductive DecoderError :=
| InvalidRepresentation
| InvalidIntegerPrefix
| InvalidTableIndex
| InvalidHuffmanCode
| InvalidUtf8
| InvalidStatusCode
| InvalidPseudoheader
| InvalidMaxDynamicSize
| IntegerOverflow
| ENeedMore (n : NeedMore).
#[global] Instance DecoderError_eq_dec : EqDecision DecoderError.
Proof. solve_decision. Defined.

Inductive Representation :=
| Indexed | LiteralWithIndexing | LiteralWithoutIndexing | LiteralNeverIndexed | SizeUpdate.
#[global] Instance Representation_eq_dec : EqDecision Representation.
Proof. solve_decision. Defined.

(** [Representation::load]. *)
Definition load (byte : Z) : outcome DecoderError Representation :=
  if Z.land byte 128 =? 128 then Ok Indexed
  else if Z.land byte 64 =? 64 then Ok LiteralWithIndexing
  else if Z.land byte 240 =? 0 then Ok LiteralWithoutIndexing
  else if Z.land byte 240 =? 16 then Ok LiteralNeverIndexed
  else if Z.land byte 224 =? 32 then Ok SizeUpdate
  else Err InvalidRepresentation.

(** The continuation bytes of [decode_int]; [n] bytes have been read so far. *)
Fixpoint decode_rest (n shift ret : Z) (src : bytes) : bytes * outcome DecoderError Z :=
  match src with
  | [] => ([], Err (ENeedMore IntegerUnderflow))
  | b :: t =>
      let n := n + 1 in
      let ret := ret + Z.shiftl (Z.land b 127) shift in
      let shift := shift + 7 in
      if Z.land b 128 =? 0 then (t, Ok ret)
      else if n =? 5 then (t, Err IntegerOverflow)
      else decode_rest n shift ret t
  end.

(** [decode_int]. *)
Definition prefix_mask (prefix_size : Z) : Z :=
  if prefix_size =? 8 then 255 else wrap 8 (Z.shiftl 1 prefix_size - 1).
Definition decode_int (prefix_size : Z) : M bytes DecoderError Z := fun src =>
  if negb ((1 <=? prefix_size) && (prefix_size <=? 8)) then (src, Err InvalidIntegerPrefix)
  else match src with
       | [] => ([], Err (ENeedMore IntegerUnderflow))
       | b :: t =>
           let mask := prefix_mask prefix_size in
           let ret := Z.land b mask in
           if ret <? mask then (t, Ok ret) else decode_rest 1 0 ret t
       end.

(** [encode_int_one_byte] and [encode_int]; a 64-bit value has at most ten groups of 7 bits. *)
Definition encode_int_one_byte (value prefix_bits : Z) : bool := value <? Z.shiftl 1 prefix_bits - 1.
Fixpoint encode_rest (fuel : nat) (value : Z) : bytes :=
  match fuel with
  | O => []
  | S n =>
      if 128 <=? value then Z.lor 128 (wrap 8 value) :: encode_rest n (Z.shiftr value 7)
      else [wrap 8 value]
  end.
Definition encode_int (value prefix_bits first_byte : Z) (dst : bytes) : bytes :=
  if encode_int_one_byte value prefix_bits then dst ++ [Z.lor first_byte (wrap 8 value)]
  else
    let low := Z.shiftl 1 prefix_bits - 1 in
    dst ++ Z.lor first_byte (wrap 8 low) :: encode_rest 10 (value - low).

(** *** Lemmas *)

(** The 28 bits of the four continuation bytes the decoder reads. *)
Definition int_limit (prefix : Z) : Z := 2 ^ prefix - 1 + 2 ^ 28.

Lemma cont_byte v : 0 <= v ->
  Z.land (Z.lor 128 (wrap 8 v)) 127 = v mod 128 /\ Z.land (Z.lor 128 (wrap 8 v)) 128 = 128.
Proof.
  intros Hv. rewrite !(Z.land_lor_distr_l 128). split.
  - change (Z.land 128 127) with 0. rewrite Z.lor_0_l. change 127 with (Z.ones 7).
    rewrite Z.land_ones by lia. unfold wrap. change (2 ^ 8) with (2 ^ 7 * 2). change 128 with (2 ^ 7).
    rewrite Z.rem_mul_r by lia. rewrite Z.mul_comm, Z.mod_add by lia. apply Z.mod_mod. lia.
  - change (Z.land 128 128) with 128. apply Z.bits_inj'. intros i Hi. rewrite Z.lor_spec, Z.land_spec.
    destruct (Z.testbit 128 i); [done|]. by rewrite andb_false_r.
Qed.
Lemma last_byte v : 0 <= v < 128 -> Z.land (wrap 8 v) 127 = v /\ Z.land (wrap 8 v) 128 = 0.
Proof.
  intros Hv. unfold wrap. rewrite Z.mod_small by lia. split.
  - change 127 with (Z.ones 7). rewrite Z.land_ones by lia. apply Z.mod_small. lia.
  - apply Z.eqb_eq. change 128 with (2 ^ 7). rewrite land_pow2_testbit by lia.
    by rewrite (testbit_small v 7) by (unfold fits; simpl; lia).
Qed.

Lemma decode_encode_rest fuel v n shift ret rest :
  0 <= v -> 1 <= n <= 4 -> 0 <= shift -> v < 2 ^ (7 * (5 - n)) -> (Z.to_nat (5 - n) <= fuel)%nat ->
  decode_rest n shift ret (encode_rest fuel v ++ rest) = (rest, Ok (ret + v * 2 ^ shift)).
Proof.
  revert v n shift ret. induction fuel as [|f IH]; intros v n shift ret Hv Hn Hs Hb Hf; [lia|].
  cbn [encode_rest]. destruct (Z.leb_spec 128 v) as [Hbig|Hsmall].
  - cbn [app decode_rest]. destruct (cont_byte v Hv) as [-> ->]. change (128 =? 0) with false. cbv iota.
    assert (Hn4 : n + 1 <> 5).
    { intros Heq. replace n with 4 in Hb by lia. simpl in Hb. lia. }
    rewrite (proj2 (Z.eqb_neq _ _)) by done. rewrite Z.shiftr_div_pow2 by lia.
    rewrite IH; [| | | | |].
    + f_equal. f_equal. rewrite Z.shiftl_mul_pow2 by lia. rewrite Z.pow_add_r by lia.
      change (2 ^ 7) with 128. pose proof (Z.div_mod v 128 ltac:(lia)). nia.
    + apply Z.div_pos; lia.
    + lia.
    + lia.
    + apply Z.div_lt_upper_bound; [lia|]. rewrite <- Z.pow_add_r by lia.
      replace (7 + 7 * (5 - (n + 1))) with (7 * (5 - n)) by lia. done.
    + lia.
  - cbn [app decode_rest]. destruct (last_byte v) as [-> ->]; [lia|]. change (0 =? 0) with true. cbv iota.
    by rewrite Z.shiftl_mul_pow2 by lia.
Qed.

(** The first byte keeps its flag bits apart from the prefix. *)
Definition flag_byte (prefix first_byte : Z) : Prop :=
  is_u8 first_byte /\ Z.land first_byte (2 ^ prefix - 1) = 0.

Lemma first_byte_prefix p first v :
  1 <= p <= 8 -> flag_byte p first -> 0 <= v <= 2 ^ p - 1 ->
  Z.land (Z.lor first (wrap 8 v)) (2 ^ p - 1) = v.
Proof.
  intros Hp [_ Hf] Hv. rewrite Z.land_lor_distr_l, Hf, Z.lor_0_l.
  assert (H8 : 2 ^ p <= 2 ^ 8) by (apply Z.pow_le_mono_r; lia).
  unfold wrap. rewrite Z.mod_small by lia.
  replace (2 ^ p - 1) with (Z.ones p) by (rewrite Z.ones_equiv; lia).
  rewrite Z.land_ones by lia. apply Z.mod_small. lia.
Qed.

Lemma prefix_mask_eq p : 1 <= p <= 8 -> prefix_mask p = 2 ^ p - 1.
Proof.
  intros Hp. unfold prefix_mask. destruct (Z.eqb_spec p 8) as [->|Hne]; [done|].
  rewrite Z.shiftl_mul_pow2, Z.mul_1_l by lia. unfold wrap. apply Z.mod_small.
  assert (H8 : 2 ^ p <= 2 ^ 8) by (apply Z.pow_le_mono_r; lia). assert (2 ^ 1 <= 2 ^ p) by (apply Z.pow_le_mono_r; lia). lia.
Qed.

Lemma decode_encode_int v p first dst rest :
  1 <= p <= 8 -> flag_byte p first -> 0 <= v < int_limit p ->
  exists w, encode_int v p first dst = dst ++ w /\ w <> [] /\ decode_int p (w ++ rest) = (rest, Ok v).
Proof.
  intros Hp Hf Hv. unfold int_limit in Hv. unfold encode_int, encode_int_one_byte.
  rewrite Z.shiftl_mul_pow2, Z.mul_1_l by lia. pose proof (prefix_mask_eq p Hp) as Hm.
  assert (2 ^ 1 <= 2 ^ p) by (apply Z.pow_le_mono_r; lia).
  assert (Hpre : (negb ((1 <=? p) && (p <=? 8))) = false)
    by (rewrite !(proj2 (Z.leb_le _ _)) by lia; done).
  destruct (Z.ltb_spec v (2 ^ p - 1)).
  - eexists. split_and!; [done|done|]. unfold decode_int. rewrite Hpre. cbn [app]. rewrite Hm.
    rewrite first_byte_prefix by (done || lia). by rewrite (proj2 (Z.ltb_lt _ _)) by lia.
  - eexists. split_and!; [done|done|]. unfold decode_int. rewrite Hpre. cbn [app]. rewrite Hm.
    rewrite first_byte_prefix by (done || lia). rewrite (proj2 (Z.ltb_ge _ _)) by lia.
    rewrite decode_encode_rest by (simpl; lia). f_equal. f_equal. simpl. lia.
Qed.

Lemma shiftl_bound x s : 0 <= s -> 0 <= x < 128 -> 0 <= Z.shiftl x s <= 127 * 2 ^ s.
Proof. intros. rewrite Z.shiftl_mul_pow2 by lia. assert (0 < 2 ^ s) by (apply Z.pow_pos_nonneg; lia). nia. Qed.

Lemma land127 b : 0 <= Z.land b 127 < 128.
Proof. change 127 with (Z.ones 7). rewrite Z.land_ones by lia. apply Z.mod_pos_bound. lia. Qed.

(** A decoded integer is bounded, and a decision never changes with more input. *)
Lemma decode_rest_cases n ret src :
  1 <= n <= 4 -> 0 <= ret ->
  let '(rest, r) := decode_rest n (7 * (n - 1)) ret src in
  exists used, src = used ++ rest /\ 0 <= len used /\
  match r with
  | Ok v => ret <= v < ret + 2 ^ 28 /\ forall more, decode_rest n (7 * (n - 1)) ret (src ++ more) = (rest ++ more, Ok v)
  | Err (ENeedMore IntegerUnderflow) => rest = []
  | Err IntegerOverflow => forall more, decode_rest n (7 * (n - 1)) ret (src ++ more) = (rest ++ more, Err IntegerOverflow)
  | _ => False
  end.
Proof.
  intros Hn Hr.
  assert (Hgen : forall src n ret, 1 <= n <= 4 ->
    let '(rest, r) := decode_rest n (7 * (n - 1)) ret src in
    exists used, src = used ++ rest /\ 0 <= len used /\
    match r with
    | Ok v => ret <= v < ret + 2 ^ 28 - 2 ^ (7 * (n - 1)) + 1 /\
        forall more, decode_rest n (7 * (n - 1)) ret (src ++ more) = (rest ++ more, Ok v)
    | Err (ENeedMore IntegerUnderflow) => rest = []
    | Err IntegerOverflow => forall more, decode_rest n (7 * (n - 1)) ret (src ++ more) = (rest ++ more, Err IntegerOverflow)
    | _ => False
    end).
  { clear. induction src as [|b t IH]; intros n ret Hn; [by exists []|].
    cbn [decode_rest app]. pose proof (shiftl_bound (Z.land b 127) (7 * (n - 1)) ltac:(lia) (land127 b)) as Hb.
    assert (Hp : 2 ^ (7 * (n - 1)) * 128 = 2 ^ (7 * n)).
    { change 128 with (2 ^ 7). rewrite <- Z.pow_add_r by lia. f_equal. lia. }
    assert (H28 : 2 ^ (7 * n) <= 2 ^ 28) by (apply Z.pow_le_mono_r; lia).
    destruct (Z.land b 128 =? 0).
    - exists [b]. split_and!; [done|apply len_nonneg|lia|lia|done].
    - destruct (Z.eqb_spec (n + 1) 5).
      + exists [b]. split_and!; [done|apply len_nonneg|done].
      + replace (7 * (n - 1) + 7) with (7 * ((n + 1) - 1)) by lia.
        specialize (IH (n + 1) (ret + Z.shiftl (Z.land b 127) (7 * (n - 1))) ltac:(lia)).
        destruct (decode_rest (n + 1) _ _ t) as [rest r]. destruct IH as (used & -> & _ & Hr).
        exists (b :: used). split_and!; [done|apply len_nonneg|].
        destruct r as [v|[]|]; try done.
        destruct Hr as [Hv Hm]. split; [|done]. replace (n + 1 - 1) with n in Hv by lia. lia. }
  specialize (Hgen src n ret Hn). destruct (decode_rest _ _ ret src) as [rest r].
  destruct Hgen as (used & Hu & H0 & Hg). exists used. split_and!; try done.
  destruct r as [v|[]|]; try done. destruct Hg as [Hg Hm]. split; [|done].
  assert (0 < 2 ^ (7 * (n - 1))) by (apply Z.pow_pos_nonneg; lia). lia.
Qed.

Lemma decode_int_cases p src :
  1 <= p <= 8 -> bytes_ok src ->
  let '(rest, r) := decode_int p src in
  exists used, src = used ++ rest /\
  match r with
  | Ok v => used <> [] /\ 0 <= v < int_limit p /\
      forall more, decode_int p (src ++ more) = (rest ++ more, Ok v)
  | Err (ENeedMore IntegerUnderflow) => rest = []
  | Err IntegerOverflow => used <> [] /\ forall more, decode_int p (src ++ more) = (rest ++ more, Err IntegerOverflow)
  | _ => False
  end.
Proof.
  intros Hp Hok. unfold decode_int, int_limit.
  assert (Hpre : (negb ((1 <=? p) && (p <=? 8))) = false)
    by (rewrite !(proj2 (Z.leb_le _ _)) by lia; done).
  rewrite Hpre. destruct src as [|b t]; [by exists []|]. rewrite prefix_mask_eq by done. cbn [app].
  set (ret := Z.land b (2 ^ p - 1)).
  assert (Hret : 0 <= ret <= 2 ^ p - 1).
  { unfold ret. replace (2 ^ p - 1) with (Z.ones p) by (rewrite Z.ones_equiv; lia). rewrite Z.land_ones by lia.
    pose proof (Z.mod_pos_bound b (2 ^ p) ltac:(apply Z.pow_pos_nonneg; lia)). rewrite Z.ones_equiv. lia. }
  destruct (Z.ltb_spec ret (2 ^ p - 1)).
  - exists [b]. split_and!; [done|done|lia|lia|done].
  - pose proof (decode_rest_cases 1 ret t ltac:(lia) ltac:(lia)) as Hd. change (7 * (1 - 1)) with 0 in Hd.
    destruct (decode_rest 1 0 ret t) as [rest r]. destruct Hd as (used & -> & _ & Hd).
    exists (b :: used). split_and!; [done|]. destruct r as [v|[]|]; try done.
    destruct Hd as [Hv Hm]. split_and!; [done|lia|lia|done].
Qed.

(** *** Properties *)

(** HPACK integers: what [encode_int] appends for a value decodes back to that value under
    every prefix width and flag bits, and leaves what follows it. *)
Theorem hpack_int_roundtrip v p first dst rest :
  1 <= p <= 8 -> flag_byte p first -> 0 <= v < int_limit p ->
  exists w, encode_int v p first dst = dst ++ w /\ decode_int p (w ++ rest) = (rest, Ok v).
Proof.
  intros Hp Hf Hv. destruct (decode_encode_int v p first dst rest Hp Hf Hv) as (w & H1 & _ & H2). by exists w.
Qed.

(** [decode_int] on every input: no panic, a suffix of the input is left, a value below
    [2^prefix - 1 + 2^28], and a result other than an underflow does not change when more bytes
    arrive. *)
Theorem hpack_int_total p src :
  1 <= p <= 8 -> bytes_ok src ->
  let '(rest, r) := decode_int p src in
  exists used, src = used ++ rest /\
  match r with
  | Ok v => used <> [] /\ 0 <= v < int_limit p /\
      forall more, decode_int p (src ++ more) = (rest ++ more, Ok v)
  | Err (ENeedMore IntegerUnderflow) => rest = []
  | Err IntegerOverflow => used <> [] /\ forall more, decode_int p (src ++ more) = (rest ++ more, Err IntegerOverflow)
  | _ => False
  end.
Proof. apply decode_int_cases. Qed.

(** Every byte starts some representation: [InvalidRepresentation] is never reported. *)
Lemma load_total b : is_u8 b -> exists r, load b = Ok r.
Proof.
  intros Hb. assert (Hall : forallb (fun n => match load (Z.of_nat n) with Ok _ => true | _ => false end) (seq 0 256) = true)
    by (vm_compute; reflexivity).
  rewrite forallb_forall in Hall. specialize (Hall (Z.to_nat b)).
  unfold fits in Hb. change (2 ^ 8) with 256 in Hb. rewrite Z2Nat.id in Hall by lia.
  specialize (Hall ltac:(apply in_seq; lia)). destruct (load b) as [r|e|]; [by exists r|done..].
Qed.

Lemma hpack_int_roundtrip_witness :
  exists w, encode_int 1337 5 0 [7] = [7] ++ w /\ decode_int 5 (w ++ [9]) = ([9], Ok 1337).
Proof.
  apply (hpack_int_roundtrip 1337 5 0 [7] [9]); [lia| |unfold int_limit; lia].
  split; [split; vm_compute; congruence|reflexivity].
Defined.

Lemma hpack_int_total_witness :
  let '(rest, r) := decode_int 5 [31; 154; 10; 9] in exists used, [31; 154; 10; 9] = used ++ rest.
Proof.
  assert (H := hpack_int_total 5 [31; 154; 10; 9] ltac:(lia)).
  destruct (decode_int 5 _) as [rest r]. destruct H as (used & Hu & _); [|by exists used].
  apply (bool_decide_unpack _). vm_compute. exact I.
Defined.
