(* ===== verification/HpackHuffman.v ===== *)
(** * Huffman coding of HPACK strings (http/src/h2/proto/hpack/huffman/mod.rs)

    The table-driven encoder with its 64-bit register and the decoder that reads four bits at a
    time, proved against the bit-level meaning of the code. *)

From S2P Require Import Prelude HpackInt HpackHuffTable.

(** *** The coder *)

Definition MAYBE_EOS : Z := 1.
Definition DECODED : Z := 2.
Definition ERROR : Z := 4.

Record HDecoder := mkHDecoder { h_state : Z; maybe_eos : bool }.
Definition hdecoder_new : HDecoder := mkHDecoder 0 false.

(** [Decoder::decode4]. *)
Definition decode4 (input : Z) : M HDecoder DecoderError (option Z) := fun d =>
  match DECODE_TABLE !! Z.to_nat (h_state d) ≫= fun row => row !! Z.to_nat input with
  | None => (d, Panic)
  | Some (next, byte, flags) =>
      if Z.land flags ERROR =? ERROR then (d, Err InvalidHuffmanCode)
      else
        let ret := if Z.land flags DECODED =? DECODED then Some byte else None in
        (mkHDecoder next (Z.land flags MAYBE_EOS =? MAYBE_EOS), Ok ret)
  end.
Definition is_final (d : HDecoder) : bool := (h_state d =? 0) || maybe_eos d.

(** The loop of [decode]: the decoder and the output buffer, which keeps what was decoded when a
    code is invalid. *)
Definition put_opt (buf : bytes) (o : option Z) : bytes := match o with Some b => buf ++ [b] | None => buf end.
Fixpoint decode_bytes (src : bytes) : M (HDecoder * bytes) DecoderError unit := fun s =>
  match src with
  | [] => (s, Ok tt)
  | b :: t =>
      let '(d, buf) := s in
      match decode4 (Z.shiftr b 4) d with
      | (d, Ok o) =>
          let buf := put_opt buf o in
          match decode4 (Z.land b 15) d with
          | (d, Ok o) => decode_bytes t (d, put_opt buf o)
          | (d, Err e) => ((d, buf), Err e)
          | (d, Panic) => ((d, buf), Panic)
          end
      | (d, Err e) => ((d, buf), Err e)
      | (d, Panic) => ((d, buf), Panic)
      end
  end.
(** [huffman::decode]: the output buffer is the caller's; it is emptied by a success. *)
Definition huff_decode (src : bytes) : M bytes DecoderError bytes := fun buf =>
  match decode_bytes src (hdecoder_new, buf) with
  | ((d, buf), Ok _) => if negb (is_final d) then (buf, Err InvalidHuffmanCode) else ([], Ok buf)
  | ((_, buf), Err e) => (buf, Err e)
  | ((_, buf), Panic) => (buf, Panic)
  end.

(** The [while bits_left <= 32] loop; the register never holds more than five bytes. *)
Fixpoint flush (fuel : nat) (bits bits_left : Z) (dst : bytes) : Z * Z * bytes :=
  match fuel with
  | O => (bits, bits_left, dst)
  | S n =>
      if bits_left <=? 32
      then flush n (wrap 64 (Z.shiftl bits 8)) (bits_left + 8) (dst ++ [wrap 8 (Z.shiftr bits 32)])
      else (bits, bits_left, dst)
  end.
Fixpoint encode_go (src : bytes) (bits bits_left : Z) (dst : bytes) : Z * Z * bytes :=
  match src with
  | [] => (bits, bits_left, dst)
  | b :: t =>
      let '(nbits, code) := default (0, 0) (ENCODE_TABLE !! Z.to_nat b) in
      let bits := Z.lor bits (wrap 64 (Z.shiftl code (bits_left - nbits))) in
      let '(bits, bits_left, dst) := flush 5 bits (bits_left - nbits) dst in
      encode_go t bits bits_left dst
  end.
(** [huffman::encode]. *)
Definition huff_encode (src dst : bytes) : bytes :=
  let '(bits, bits_left, dst) := encode_go src 0 40 dst in
  if negb (bits_left =? 40) then
    let bits := Z.lor bits (Z.shiftl 1 bits_left - 1) in dst ++ [wrap 8 (Z.shiftr bits 32)]
  else dst.

(** *** Bits *)

Fixpoint bits_of (n : nat) (z : Z) : list bool :=
  match n with O => [] | S k => bits_of k (z / 2) ++ [Z.odd z] end.
Definition val (l : list bool) : Z := fold_left (fun acc (b : bool) => 2 * acc + (if b then 1 else 0)) l 0.

Lemma val_snoc l b : val (l ++ [b]) = 2 * val l + (if b then 1 else 0).
Proof. unfold val. by rewrite fold_left_app. Qed.
Lemma val_app a b : val (a ++ b) = val a * 2 ^ len b + val b.
Proof.
  induction b as [|x b IH] using rev_ind; [rewrite app_nil_r; change (val []) with 0; change (len (@nil bool)) with 0; lia|].
  rewrite app_assoc, !val_snoc, IH, len_app. change (len [x]) with 1.
  rewrite Z.pow_add_r by (pose proof (len_nonneg b); lia). lia.
Qed.
Lemma val_bound l : 0 <= val l < 2 ^ len l.
Proof.
  induction l as [|x l IH] using rev_ind; [done|]. rewrite val_snoc, len_app. change (len [x]) with 1.
  rewrite Z.pow_add_r by (pose proof (len_nonneg l); lia). destruct x; lia.
Qed.
Lemma bits_of_length n z : length (bits_of n z) = n.
Proof. revert z. induction n as [|n IH]; intros z; [done|]. simpl. rewrite length_app, IH. simpl. lia. Qed.
Lemma val_bits_of n z : 0 <= z < 2 ^ Z.of_nat n -> val (bits_of n z) = z.
Proof.
  revert z. induction n as [|n IH]; intros z Hz; [simpl in *; unfold val; simpl; lia|].
  rewrite Nat2Z.inj_succ, Z.pow_succ_r in Hz by lia. cbn [bits_of]. rewrite val_snoc.
  rewrite IH by (split; [apply Z.div_pos; lia|apply Z.div_lt_upper_bound; lia]).
  pose proof (Z.div_mod z 2 ltac:(lia)). rewrite Zmod_odd in H. destruct (Z.odd z); lia.
Qed.
Lemma bits_of_val l : bits_of (length l) (val l) = l.
Proof.
  induction l as [|x l IH] using rev_ind; [done|]. rewrite length_app, Nat.add_comm. cbn [length Nat.add bits_of].
  rewrite val_snoc. replace ((2 * val l + (if x then 1 else 0)) / 2) with (val l).
  - rewrite IH. f_equal. f_equal. rewrite Z.add_comm, Z.odd_add_mul_2. by destruct x.
  - apply (Z.div_unique _ _ _ (if x then 1 else 0)); destruct x; lia.
Qed.
Lemma val_ones n : val (replicate n true) = 2 ^ Z.of_nat n - 1.
Proof.
  induction n as [|n IH]; [done|]. replace (replicate (S n) true) with (replicate n true ++ [true]).
  - rewrite val_snoc, IH, Nat2Z.inj_succ, Z.pow_succ_r by lia. lia.
  - change [true] with (replicate 1 true). rewrite <- replicate_add. f_equal. lia.
Qed.

(** The code of a byte. *)
Definition code (b : Z) : list bool :=
  let '(n, c) := default (0, 0) (ENCODE_TABLE !! Z.to_nat b) in bits_of (Z.to_nat n) c.
Definition codes (s : bytes) : list bool := mjoin (code <$> s).

(** The bits of bytes, most significant first. *)
Definition byte_bits (l : bytes) : list bool := mjoin (bits_of 8 <$> l).
Lemma byte_bits_app a b : byte_bits (a ++ b) = byte_bits a ++ byte_bits b.
Proof. unfold byte_bits. by rewrite fmap_app, join_app. Qed.

(** *** The encoder writes the codes, padded with ones *)

(** The register: its low 40 bits hold the pending bits [pb], left-aligned. *)
Definition reg_ok (bits bits_left : Z) (pb : list bool) : Prop :=
  0 <= bits < 2 ^ 64 /\ bits_left = 40 - len pb /\ 0 <= bits_left /\
  bits mod 2 ^ 40 = val pb * 2 ^ bits_left.

Lemma reg_byte bits bits_left pb :
  reg_ok bits bits_left pb -> 8 <= len pb ->
  bits_of 8 (wrap 8 (Z.shiftr bits 32)) = take 8 pb /\
  reg_ok (wrap 64 (Z.shiftl bits 8)) (bits_left + 8) (drop 8 pb).
Proof.
  intros (Hb & Hl & H0 & Hm) H8.
  assert (Hlen : (8 <= length pb)%nat) by (unfold len in H8; lia).
  assert (Hd : len (drop 8 pb) = len pb - 8) by (unfold len; rewrite length_drop; lia).
  assert (Hsplit : val pb = val (take 8 pb) * 2 ^ len (drop 8 pb) + val (drop 8 pb))
    by (rewrite <- val_app, take_drop; done).
  pose proof (val_bound (take 8 pb)) as Ht. pose proof (val_bound (drop 8 pb)) as Hdb.
  assert (Ht8 : len (take 8 pb) = 8) by (unfold len; rewrite length_take; lia). rewrite Ht8 in Ht.
  set (q := len (drop 8 pb)) in *.
  assert (Hq : q + bits_left = 32) by lia.
  assert (Hpow : 2 ^ q * 2 ^ bits_left = 2 ^ 32) by (rewrite <- Z.pow_add_r by (try lia; apply len_nonneg); f_equal; lia).
  assert (Hlow : 0 <= val (drop 8 pb) * 2 ^ bits_left < 2 ^ 32).
  { assert (0 < 2 ^ bits_left) by (apply Z.pow_pos_nonneg; lia). rewrite <- Hpow. nia. }
  assert (Hw : bits mod 2 ^ 40 = val (take 8 pb) * 2 ^ 32 + val (drop 8 pb) * 2 ^ bits_left)
    by (rewrite Hm, Hsplit, <- Hpow; ring).
  split.
  - assert (Hbyte : wrap 8 (Z.shiftr bits 32) = val (take 8 pb)).
    { unfold wrap. rewrite Z.shiftr_div_pow2 by lia.
      replace (bits / 2 ^ 32 mod 2 ^ 8) with ((bits mod 2 ^ 40) / 2 ^ 32).
      - rewrite Hw, Z.div_add_l by lia. rewrite (Z.div_small (_ * _)) by lia. lia.
      - change (2 ^ 40) with (2 ^ 32 * 2 ^ 8). rewrite Z.rem_mul_r by lia.
        rewrite Z.add_comm, Z.mul_comm, Z.div_add_l by lia.
        rewrite (Z.div_small (bits mod 2 ^ 32)) by (apply Z.mod_pos_bound; lia). lia. }
    rewrite Hbyte. replace 8%nat with (length (take 8 pb)) at 1 by (rewrite length_take; lia). apply bits_of_val.
  - unfold reg_ok. fold q.
    assert (H64 : 0 <= wrap 64 (Z.shiftl bits 8) < 2 ^ 64) by (apply Z.mod_pos_bound; lia).
    split_and!; try lia.
    + unfold wrap. rewrite Z.shiftl_mul_pow2 by lia.
      assert (Hmm : forall x, (x mod 2 ^ 64) mod 2 ^ 40 = x mod 2 ^ 40).
      { intros x. change (2 ^ 64) with (2 ^ 40 * 2 ^ 24). rewrite Z.rem_mul_r by lia.
        rewrite Z.add_comm, Z.mul_comm, Z.add_comm, Z.mod_add by lia. apply Z.mod_mod. lia. }
      rewrite Hmm. rewrite <- Z.mul_mod_idemp_l by lia. rewrite Hw.
      replace ((val (take 8 pb) * 2 ^ 32 + val (drop 8 pb) * 2 ^ bits_left) * 2 ^ 8)
        with (val (drop 8 pb) * 2 ^ bits_left * 2 ^ 8 + val (take 8 pb) * 2 ^ 40) by ring.
      rewrite Z.mod_add by lia. rewrite Z.pow_add_r by lia. rewrite Z.mod_small; [ring|lia].
Qed.

Lemma flush_spec fuel bits bits_left pb dst :
  reg_ok bits bits_left pb -> len pb < 8 * Z.of_nat fuel + 8 ->
  let '(bits', left', dst') := flush fuel bits bits_left dst in
  exists w pb', dst' = dst ++ w /\ bytes_ok w /\ pb = byte_bits w ++ pb' /\ reg_ok bits' left' pb' /\ len pb' < 8.
Proof.
  revert bits bits_left pb dst. induction fuel as [|f IH]; intros bits bits_left pb dst Hr Hl.
  { exists [], pb. rewrite app_nil_r. split_and!; done || lia || constructor. }
  cbn [flush]. pose proof Hr as (_ & Hleft & _).
  destruct (Z.leb_spec bits_left 32).
  - destruct (reg_byte bits bits_left pb Hr ltac:(lia)) as [Hb Hr'].
    specialize (IH _ _ _ (dst ++ [wrap 8 (Z.shiftr bits 32)]) Hr').
    assert (Hd : len (drop 8 pb) = len pb - 8) by (unfold len in *; rewrite length_drop; lia).
    specialize (IH ltac:(lia)).
    destruct (flush f _ _ _) as [[bits' left'] dst']. destruct IH as (w & pb' & -> & Hw & Hpb & Hr2 & Hl2).
    exists (wrap 8 (Z.shiftr bits 32) :: w), pb'. rewrite <- app_assoc. split_and!; try done.
    + constructor; [apply u8_mod|done].
    + rewrite <- (take_drop 8 pb), Hpb, <- Hb. unfold byte_bits. by rewrite app_assoc.
  - exists [], pb. rewrite app_nil_r. split_and!; done || lia || constructor.
Qed.

(** Every code fits: 5 to 30 bits. *)
Lemma encode_table_ok b : is_u8 b ->
  exists n c, ENCODE_TABLE !! Z.to_nat b = Some (n, c) /\ 5 <= n <= 30 /\ 0 <= c < 2 ^ n.
Proof.
  intros Hb. assert (Hall : forallb (fun p : Z * Z => (5 <=? p.1) && (p.1 <=? 30) && (0 <=? p.2) && (p.2 <? 2 ^ p.1))
    (take 256 ENCODE_TABLE) = true) by (vm_compute; reflexivity).
  assert (Hlen : length ENCODE_TABLE = 257%nat) by (vm_compute; reflexivity).
  unfold fits in Hb. change (2 ^ 8) with 256 in Hb.
  destruct (ENCODE_TABLE !! Z.to_nat b) as [[n c]|] eqn:E; [|apply lookup_ge_None in E; lia].
  exists n, c. split; [done|]. rewrite forallb_forall in Hall. specialize (Hall (n, c)).
  assert (Hin : In (n, c) (take 256 ENCODE_TABLE)).
  { apply list_elem_of_In, (list_elem_of_lookup_2 _ (Z.to_nat b)). rewrite <- E. apply lookup_take_lt. lia. }
  specialize (Hall Hin). simpl in Hall. lia.
Qed.

(** What is left in the register below the pending bits is zero. *)
Lemma reg_low bits bits_left pb : reg_ok bits bits_left pb -> bits mod 2 ^ bits_left = 0.
Proof.
  intros (Hb & Hl & H0 & Hm). pose proof (len_nonneg pb).
  assert (0 < 2 ^ bits_left) by (apply Z.pow_pos_nonneg; lia).
  assert (0 < 2 ^ (40 - bits_left)) by (apply Z.pow_pos_nonneg; lia).
  assert (Hmod : bits mod 2 ^ bits_left = (bits mod 2 ^ 40) mod 2 ^ bits_left).
  { replace (2 ^ 40) with (2 ^ bits_left * 2 ^ (40 - bits_left)) by (rewrite <- Z.pow_add_r by lia; f_equal; lia).
    rewrite Z.rem_mul_r by lia. rewrite Z.mul_comm, Z.mod_add by lia. by rewrite Z.mod_mod by lia. }
  rewrite Hmod, Hm. apply Z.mod_mul. lia.
Qed.
Lemma reg_lor bits bits_left pb x :
  reg_ok bits bits_left pb -> 0 <= x < 2 ^ bits_left -> Z.lor bits x = bits + x.
Proof.
  intros Hr Hx. pose proof (reg_low _ _ _ Hr) as Hlow. destruct Hr as (Hb & Hl & H0 & Hm).
  assert (0 < 2 ^ bits_left) by (apply Z.pow_pos_nonneg; lia).
  pose proof (Z.div_mod bits (2 ^ bits_left) ltac:(lia)) as Hdm. rewrite Hlow in Hdm.
  rewrite Hdm at 2. rewrite Z.add_0_r, Z.add_comm, add_high_lor by (done || lia).
  rewrite Z.lor_comm. f_equal. rewrite Z.shiftl_mul_pow2 by lia. lia.
Qed.

Lemma reg_push bits bits_left pb n c :
  reg_ok bits bits_left pb -> 0 <= c < 2 ^ n -> 0 <= n -> n + len pb <= 40 -> n <= 30 ->
  reg_ok (Z.lor bits (wrap 64 (Z.shiftl c (bits_left - n)))) (bits_left - n) (pb ++ bits_of (Z.to_nat n) c).
Proof.
  intros (Hb & Hl & H0 & Hm) Hc Hn Hfit Hn30.
  assert (Hbl : len (bits_of (Z.to_nat n) c) = n) by (unfold len; rewrite bits_of_length; lia).
  assert (Hp : 2 ^ n * 2 ^ (bits_left - n) = 2 ^ bits_left) by (rewrite <- Z.pow_add_r by lia; f_equal; lia).
  assert (Hlp : 0 < 2 ^ (bits_left - n)) by (apply Z.pow_pos_nonneg; lia).
  assert (Hle40 : 2 ^ bits_left <= 2 ^ 40) by (apply Z.pow_le_mono_r; pose proof (len_nonneg pb); lia).
  assert (Hsh : wrap 64 (Z.shiftl c (bits_left - n)) = c * 2 ^ (bits_left - n)).
  { rewrite Z.shiftl_mul_pow2 by lia. unfold wrap. apply Z.mod_small. nia. }
  rewrite Hsh. set (x := c * 2 ^ (bits_left - n)).
  assert (Hx : 0 <= x < 2 ^ bits_left) by (unfold x; nia).
  pose proof (reg_low _ _ _ (conj Hb (conj Hl (conj H0 Hm)))) as Hlow.
  pose proof (reg_lor _ _ _ x (conj Hb (conj Hl (conj H0 Hm))) Hx) as Hlor.
  rewrite Hlor. unfold reg_ok. rewrite len_app, Hbl, val_app, val_bits_of, Hbl by (rewrite Z2Nat.id; lia).
  assert (H64 : bits + x < 2 ^ 64).
  { assert (Hd64 : bits <= 2 ^ 64 - 2 ^ bits_left).
    { pose proof (Z.div_mod bits (2 ^ bits_left) ltac:(lia)) as Hdm. rewrite Hlow in Hdm.
      assert (Hq : bits / 2 ^ bits_left < 2 ^ (64 - bits_left)).
      { apply Z.div_lt_upper_bound; [lia|]. rewrite <- Z.pow_add_r by (pose proof (len_nonneg pb); lia).
        replace (bits_left + (64 - bits_left)) with 64 by lia. lia. }
      assert (2 ^ bits_left * 2 ^ (64 - bits_left) = 2 ^ 64) by (rewrite <- Z.pow_add_r by (pose proof (len_nonneg pb); lia); f_equal; lia).
      nia. }
    lia. }
  split_and!; try lia.
  rewrite <- Z.add_mod_idemp_l, Hm by lia. rewrite Z.mod_small.
  - unfold x. rewrite <- Hp. ring.
  - pose proof (val_bound pb) as Hv. assert (Hpp : 2 ^ len pb * 2 ^ bits_left = 2 ^ 40)
      by (rewrite <- Z.pow_add_r by (try lia; apply len_nonneg); f_equal; lia). nia.
Qed.

Lemma encode_go_spec src bits bits_left pb dst :
  bytes_ok src -> reg_ok bits bits_left pb -> len pb < 8 ->
  let '(bits', left', dst') := encode_go src bits bits_left dst in
  exists w pb', dst' = dst ++ w /\ bytes_ok w /\ pb ++ codes src = byte_bits w ++ pb' /\
    reg_ok bits' left' pb' /\ len pb' < 8.
Proof.
  intros Hok. revert bits bits_left pb dst. induction Hok as [|b src Hb Hok IH]; intros bits bits_left pb dst Hr Hl.
  { exists [], pb. rewrite app_nil_r. split_and!; done || constructor || (unfold codes; simpl; by rewrite app_nil_r). }
  cbn [encode_go]. destruct (encode_table_ok b Hb) as (n & c & Et & Hn & Hc).
  change (codes (b :: src)) with (code b ++ codes src). unfold code. rewrite !Et. cbn [from_option]. unfold id. cbv zeta.
  pose proof Hr as (_ & Hleft & _).
  pose proof (reg_push bits bits_left pb n c Hr Hc ltac:(lia) ltac:(lia) ltac:(lia)) as Hr'.
  pose proof (flush_spec 5 _ _ _ dst Hr') as Hf. rewrite len_app in Hf.
  assert (Hbl : len (bits_of (Z.to_nat n) c) = n) by (unfold len; rewrite bits_of_length; lia).
  specialize (Hf ltac:(lia)). destruct (flush 5 _ _ dst) as [[bits1 left1] dst1].
  destruct Hf as (w & pb1 & -> & Hw & Hpb & Hr1 & Hl1).
  specialize (IH bits1 left1 pb1 (dst ++ w) Hr1 Hl1). destruct (encode_go src bits1 left1 (dst ++ w)) as [[bits2 left2] dst2].
  destruct IH as (w2 & pb2 & -> & Hw2 & Hpb2 & Hr2 & Hl2). exists (w ++ w2), pb2.
  split_and!; try done; [by rewrite app_assoc|by apply bytes_ok_app|].
  by rewrite app_assoc, Hpb, <- app_assoc, Hpb2, byte_bits_app, <- app_assoc.
Qed.

(** The last byte: the pending bits, filled up with ones. *)
Lemma reg_last bits bits_left pb k :
  reg_ok bits bits_left pb -> len pb = 8 - Z.of_nat k ->
  bits_of 8 (wrap 8 (Z.shiftr (Z.lor bits (Z.shiftl 1 bits_left - 1)) 32)) = pb ++ replicate k true.
Proof.
  intros Hr Hk. pose proof Hr as (Hb & Hl & H0 & Hm).
  assert (Hp : 0 < 2 ^ bits_left) by (apply Z.pow_pos_nonneg; lia).
  rewrite Z.shiftl_mul_pow2, Z.mul_1_l, (reg_lor _ _ _ _ Hr) by lia.
  assert (Hlen : length (pb ++ replicate k true) = 8%nat) by (rewrite length_app, length_replicate; unfold len in Hk; lia).
  rewrite <- (bits_of_val (pb ++ replicate k true)), Hlen. f_equal.
  rewrite val_app, val_ones. unfold len at 1. rewrite length_replicate. unfold wrap.
  rewrite Z.shiftr_div_pow2 by lia.
  assert (Hpow : 2 ^ bits_left = 2 ^ Z.of_nat k * 2 ^ 32) by (rewrite <- Z.pow_add_r by lia; f_equal; lia).
  pose proof (Z.div_mod bits (2 ^ 40) ltac:(lia)) as Hdm. rewrite Hm in Hdm.
  set (v := val pb) in *. set (p := 2 ^ Z.of_nat k) in *. set (h := bits / 2 ^ 40) in *.
  assert (Hv : 0 <= v * p + (p - 1) < 2 ^ 8).
  { pose proof (val_bound pb) as Hvb. fold v in Hvb. assert (0 < p) by (apply Z.pow_pos_nonneg; lia).
    assert (2 ^ len pb * p = 2 ^ 8) by (unfold p; rewrite <- Z.pow_add_r by (try lia; apply len_nonneg); f_equal; lia). nia. }
  replace (bits + (2 ^ bits_left - 1)) with ((h * 2 ^ 8 + (v * p + (p - 1))) * 2 ^ 32 + (2 ^ 32 - 1)).
  - rewrite Z.div_add_l by lia. rewrite (Z.div_small (2 ^ 32 - 1)) by lia. rewrite Z.add_0_r.
    rewrite Z.add_comm, Z.mod_add by lia. rewrite Z.mod_small by lia. done.
  - rewrite Hdm, Hpow. change (2 ^ 40) with (2 ^ 8 * 2 ^ 32). ring.
Qed.

Lemma huff_encode_bits src dst :
  bytes_ok src ->
  exists w k, huff_encode src dst = dst ++ w /\ bytes_ok w /\ (k < 8)%nat /\
    byte_bits w = codes src ++ replicate k true.
Proof.
  intros Hok. unfold huff_encode.
  assert (H0 : reg_ok 0 40 []) by (unfold reg_ok; split_and!; vm_compute; congruence).
  pose proof (encode_go_spec src 0 40 [] dst Hok H0 ltac:(done)) as He.
  destruct (encode_go src 0 40 dst) as [[bits left] dst']. destruct He as (w & pb & -> & Hw & Hc & Hr & Hl).
  simpl in Hc. pose proof Hr as (Hb & Hleft & Hl0 & Hm). pose proof (len_nonneg pb).
  destruct (Z.eqb_spec left 40) as [->|Hne]; simpl negb; cbv iota.
  - exists w, O. assert (pb = []) as -> by (apply len_zero_nil; lia).
    rewrite app_nil_r in Hc. simpl. rewrite app_nil_r. split_and!; done || lia.
  - set (k := (8 - length pb)%nat). assert (Hk : len pb = 8 - Z.of_nat k) by (unfold k, len in *; lia).
    assert (Hk8 : (k < 8)%nat) by (unfold k, len in *; lia).
    exists (w ++ [wrap 8 (Z.shiftr (Z.lor bits (Z.shiftl 1 left - 1)) 32)]), k.
    rewrite <- app_assoc. split_and!; try done.
    + apply bytes_ok_app. split; [done|]. constructor; [apply u8_mod|constructor].
    + rewrite byte_bits_app, Hc, <- app_assoc. f_equal.
      unfold byte_bits. rewrite fmap_cons, fmap_nil. cbn [mjoin list_join]. rewrite app_nil_r.
      apply reg_last; done.
Qed.

(** *** The code as a tree, and what the decoder's table does *)

Inductive tree := Empty | Leaf (sym : Z) | Node (zero one : tree).
Fixpoint insert_code (bits : list bool) (sym : Z) (t : tree) : tree :=
  match bits with
  | [] => Leaf sym
  | b :: bits =>
      let '(z, o) := match t with Node z o => (z, o) | _ => (Empty, Empty) end in
      if b then Node z (insert_code bits sym o) else Node (insert_code bits sym z) o
  end.
Definition code_tree : tree :=
  fold_left (fun t b => insert_code (code b) b t) (Z.of_nat <$> seq 0 257) Empty.

(** Follow bits through the tree. *)
Inductive walked := Pending | Reached (sym : Z) (rest : list bool) | Lost.
Fixpoint walk (t : tree) (bits : list bool) : walked :=
  match t with
  | Empty => Lost
  | Leaf sym => Reached sym bits
  | Node z o => match bits with [] => Pending | b :: bits => walk (if b then o else z) bits end
  end.
Fixpoint leaves (t : tree) (path : list bool) : list (list bool * Z) :=
  match t with
  | Empty => []
  | Leaf sym => [(path, sym)]
  | Node z o => leaves z (path ++ [false]) ++ leaves o (path ++ [true])
  end.

(** Between 1 and 7 ones may be padding. *)
Definition eos_path (p : list bool) : bool :=
  negb (bool_decide (p = [])) && forallb id p && (length p <=? 7)%nat.
Definition entry_ok (path : list bool) (n : Z) (e : Z * Z * Z) : bool :=
  let '(next, byte, flags) := e in
  let w := path ++ bits_of 4 n in
  let to p := bool_decide (STATE_PATH !! Z.to_nat next = Some p) && (0 <=? next)
              && eqb (Z.land flags MAYBE_EOS =? MAYBE_EOS) (eos_path p) in
  match walk code_tree w with
  | Lost => Z.land flags ERROR =? ERROR
  | Pending => negb (Z.land flags ERROR =? ERROR) && negb (Z.land flags DECODED =? DECODED) && to w
  | Reached sym rest =>
      if sym =? 256 then Z.land flags ERROR =? ERROR
      else negb (Z.land flags ERROR =? ERROR) && (Z.land flags DECODED =? DECODED) && (byte =? sym) && to rest
  end.
Definition path_ok (i : nat) (p : list bool) : bool :=
  match walk code_tree p with Pending => true | _ => false end &&
  (negb (bool_decide (p = [])) || (i =? 0)%nat).
Definition nibbles : list Z := Z.of_nat <$> seq 0 16.

Lemma decode_table_ok :
  forallb (fun ip => match STATE_PATH !! ip, DECODE_TABLE !! ip with
    | Some p, Some row => path_ok ip p && (length row =? 16)%nat &&
        forallb (fun ne : Z * (Z * Z * Z) => entry_ok p ne.1 ne.2) (zip nibbles row)
    | _, _ => false end) (seq 0 256) = true.
Proof. vm_compute. reflexivity. Qed.
Lemma tree_sound :
  forallb (fun ps : list bool * Z => bool_decide (ps.1 = code ps.2) && (0 <=? ps.2) && (ps.2 <=? 256)) (leaves code_tree []) = true.
Proof. vm_compute. reflexivity. Qed.
Lemma tree_complete :
  forallb (fun b => match walk code_tree (code b) with Reached sym [] => sym =? b | _ => false end)
    (Z.of_nat <$> seq 0 256) = true.
Proof. vm_compute. reflexivity. Qed.

#[local] Opaque code_tree code ENCODE_TABLE DECODE_TABLE STATE_PATH.

Lemma walk_leaf t path bits sym rest :
  walk t bits = Reached sym rest -> exists p, (path ++ p, sym) ∈ leaves t path /\ bits = p ++ rest.
Proof.
  revert path bits. induction t as [|s|z IHz o IHo]; intros path bits H; simpl in H; [done| |].
  - injection H as <- <-. exists []. rewrite app_nil_r. split; [by apply list_elem_of_singleton|done].
  - destruct bits as [|b bits]; [done|]. destruct b.
    + destruct (IHo (path ++ [true]) bits H) as (p & Hp & ->). exists (true :: p). simpl.
      rewrite <- app_assoc in Hp. split; [apply elem_of_app; by right|done].
    + destruct (IHz (path ++ [false]) bits H) as (p & Hp & ->). exists (false :: p). simpl.
      rewrite <- app_assoc in Hp. split; [apply elem_of_app; by left|done].
Qed.
Lemma walk_app t a b :
  walk t (a ++ b) = match walk t a with
                    | Reached sym rest => Reached sym (rest ++ b)
                    | Lost => Lost
                    | Pending => walk t (a ++ b)
                    end.
Proof.
  revert t. induction a as [|x a IH]; intros [|s|z o]; try done. simpl.
  rewrite IH. by destruct (walk _ a) eqn:E.
Qed.

(** A code read off the tree is the code of its symbol, and conversely. *)
Lemma walk_sound bits sym rest :
  walk code_tree bits = Reached sym rest -> bits = code sym ++ rest /\ 0 <= sym <= 256.
Proof.
  intros H. destruct (walk_leaf _ [] _ _ _ H) as (p & Hp & ->). change ([] ++ p) with p in Hp.
  pose proof tree_sound as Hall. rewrite forallb_forall in Hall.
  apply list_elem_of_In, Hall in Hp. cbn [fst snd] in Hp.
  apply andb_prop in Hp as [[Hp%bool_decide_eq_true H0]%andb_prop H1]. rewrite Hp. split; [done|lia].
Qed.
Lemma walk_code b rest : is_u8 b -> walk code_tree (code b ++ rest) = Reached b rest.
Proof.
  intros Hb. unfold fits in Hb. change (2 ^ 8) with 256 in Hb.
  pose proof tree_complete as Hall. rewrite forallb_forall in Hall.
  assert (Hin : In b (Z.of_nat <$> seq 0 256)).
  { apply list_elem_of_In, list_elem_of_fmap. exists (Z.to_nat b). split; [lia|]. apply elem_of_seq. lia. }
  specialize (Hall b Hin). clear Hin. rewrite walk_app.
  destruct (walk code_tree (code b)) as [|sym [|r0 r]|]; [discriminate| |discriminate..].
  apply Z.eqb_eq in Hall as ->. done.
Qed.
Lemma walk_ones k : (k < 8)%nat -> walk code_tree (replicate k true) = Pending.
Proof. intros Hk. do 8 (destruct k as [|k]; [vm_compute; reflexivity|]). lia. Qed.

Lemma forallb_seq_lookup (f : nat -> bool) n i : forallb f (seq 0 n) = true -> (i < n)%nat -> f i = true.
Proof. rewrite forallb_forall. intros H Hi. apply H, in_seq. lia. Qed.

(** One step of the table, from the state whose pending bits are [p]. *)
Definition at_path (d : HDecoder) (p : list bool) : Prop :=
  0 <= h_state d /\ STATE_PATH !! Z.to_nat (h_state d) = Some p /\ maybe_eos d = eos_path p.

Lemma state_path_row st p :
  STATE_PATH !! st = Some p ->
  exists row, DECODE_TABLE !! st = Some row /\ path_ok st p = true /\ length row = 16%nat /\
    forallb (fun ne : Z * (Z * Z * Z) => entry_ok p ne.1 ne.2) (zip nibbles row) = true.
Proof.
  intros Hp. pose proof decode_table_ok as Hall.
  assert (Hst : (st < 256)%nat).
  { apply lookup_lt_Some in Hp. assert (length STATE_PATH = 256%nat) by (vm_compute; reflexivity). lia. }
  apply (forallb_seq_lookup _ _ st) in Hall; [|done]. cbv beta in Hall. rewrite Hp in Hall.
  destruct (DECODE_TABLE !! st) as [row|]; [|done]. exists row.
  apply andb_prop in Hall as [[H1 H2%Nat.eqb_eq]%andb_prop H3].
  exact (conj eq_refl (conj H1 (conj H2 H3))).
Qed.
Lemma entry_checked d p n :
  at_path d p -> 0 <= n < 16 ->
  exists e, (DECODE_TABLE !! Z.to_nat (h_state d) ≫= fun row => row !! Z.to_nat n) = Some e /\ entry_ok p n e = true.
Proof.
  intros (H0 & Hp & _) Hn. destruct (state_path_row _ _ Hp) as (row & Hr & _ & Hl & Hall).
  rewrite Hr. cbn [mbind option_bind]. destruct (row !! Z.to_nat n) as [e|] eqn:He; [|apply lookup_ge_None in He; lia].
  exists e. split; [done|]. rewrite forallb_forall in Hall. apply (Hall (n, e)).
  apply list_elem_of_In, (list_elem_of_lookup_2 _ (Z.to_nat n)).
  apply lookup_zip_with_Some. exists n, e. split_and!; try done.
  unfold nibbles. rewrite list_lookup_fmap, lookup_seq_lt by lia. simpl. f_equal. lia.
Qed.

Lemma decode4_step d p n :
  at_path d p -> 0 <= n < 16 ->
  match walk code_tree (p ++ bits_of 4 n) with
  | Pending => exists d', decode4 n d = (d', Ok None) /\ at_path d' (p ++ bits_of 4 n)
  | Reached sym rest =>
      if sym =? 256 then decode4 n d = (d, Err InvalidHuffmanCode)
      else exists d', decode4 n d = (d', Ok (Some sym)) /\ at_path d' rest
  | Lost => decode4 n d = (d, Err InvalidHuffmanCode)
  end.
Proof.
  intros Hd Hn. destruct (entry_checked d p n Hd Hn) as ([[next byte] flags] & He & Hok).
  unfold decode4. rewrite He. unfold entry_ok in Hok. cbv zeta in Hok.
  destruct (walk code_tree _) as [|sym rest|].
  - apply andb_prop in Hok as [[H1 H2]%andb_prop [[H3%bool_decide_eq_true H4]%andb_prop H5%eqb_prop]%andb_prop].
    apply negb_true_iff in H1, H2. rewrite H1, H2. eexists. split; [done|]. unfold at_path. simpl. split_and!; done || lia.
  - destruct (sym =? 256); [by rewrite Hok|].
    apply andb_prop in Hok as [[[H1 H2]%andb_prop Hb]%andb_prop [[H3%bool_decide_eq_true H4]%andb_prop H5%eqb_prop]%andb_prop].
    apply negb_true_iff in H1. rewrite H1, H2. apply Z.eqb_eq in Hb as ->.
    eexists. split; [done|]. unfold at_path. simpl. split_and!; done || lia.
  - by rewrite Hok.
Qed.

(** *** Decoding is exactly the inverse of the code *)

Lemma byte_nibbles b : is_u8 b ->
  bits_of 8 b = bits_of 4 (Z.shiftr b 4) ++ bits_of 4 (Z.land b 15) /\
  0 <= Z.shiftr b 4 < 16 /\ 0 <= Z.land b 15 < 16.
Proof.
  intros Hb. unfold fits in Hb. change (2 ^ 8) with 256 in Hb.
  assert (Hall : forallb (fun n => let b := Z.of_nat n in
    bool_decide (bits_of 8 b = bits_of 4 (Z.shiftr b 4) ++ bits_of 4 (Z.land b 15)) &&
    (0 <=? Z.shiftr b 4) && (Z.shiftr b 4 <? 16) && (0 <=? Z.land b 15) && (Z.land b 15 <? 16)) (seq 0 256) = true)
    by (vm_compute; reflexivity).
  apply (forallb_seq_lookup _ _ (Z.to_nat b)) in Hall; [|lia]. cbv beta zeta in Hall. rewrite Z2Nat.id in Hall by lia.
  apply andb_prop in Hall as [[[[H1%bool_decide_eq_true H2]%andb_prop H3]%andb_prop H4]%andb_prop H5].
  split; [done|lia].
Qed.

(** The decoder at nibble granularity. *)
Fixpoint run_nibbles (ns : list Z) : M (HDecoder * bytes) DecoderError unit := fun s =>
  match ns with
  | [] => (s, Ok tt)
  | n :: t =>
      let '(d, buf) := s in
      match decode4 n d with
      | (d, Ok o) => run_nibbles t (d, put_opt buf o)
      | (d, Err e) => ((d, buf), Err e)
      | (d, Panic) => ((d, buf), Panic)
      end
  end.
Definition nibbles_of (l : bytes) : list Z := mjoin ((fun b => [Z.shiftr b 4; Z.land b 15]) <$> l).
Lemma decode_bytes_nibbles l s : decode_bytes l s = run_nibbles (nibbles_of l) s.
Proof.
  revert s. induction l as [|b l IH]; intros [d buf]; [done|]. cbn [decode_bytes].
  change (nibbles_of (b :: l)) with (Z.shiftr b 4 :: Z.land b 15 :: nibbles_of l). cbn [run_nibbles].
  destruct (decode4 (Z.shiftr b 4) d) as [d1 [o| |]]; try done.
  destruct (decode4 (Z.land b 15) d1) as [d2 [o2| |]]; [apply IH|done..].
Qed.
Definition nibble_bits (ns : list Z) : list bool := mjoin (bits_of 4 <$> ns).
Lemma nibbles_of_bits l : bytes_ok l ->
  byte_bits l = nibble_bits (nibbles_of l) /\ Forall (fun n => 0 <= n < 16) (nibbles_of l).
Proof.
  induction 1 as [|b l Hb _ [IH1 IH2]]; [split; [done|constructor]|].
  destruct (byte_nibbles b Hb) as (Hbits & H1 & H2).
  change (byte_bits (b :: l)) with (bits_of 8 b ++ byte_bits l).
  change (nibbles_of (b :: l)) with (Z.shiftr b 4 :: Z.land b 15 :: nibbles_of l).
  change (nibble_bits (?x :: ?y :: ?t)) with (bits_of 4 x ++ bits_of 4 y ++ nibble_bits t).
  rewrite Hbits, IH1, <- app_assoc. split; [done|]. constructor; [exact H1|]. constructor; [exact H2|done].
Qed.

Lemma codes_app a b : codes (a ++ b) = codes a ++ codes b.
Proof. unfold codes. by rewrite fmap_app, join_app. Qed.

(** Soundness: what is consumed is the codes of what is produced, then the pending bits. *)
Lemma run_nibbles_sound ns d p buf :
  at_path d p -> Forall (fun n => 0 <= n < 16) ns ->
  match run_nibbles ns (d, buf) with
  | ((d', buf'), Ok _) => exists out p', buf' = buf ++ out /\ bytes_ok out /\ at_path d' p' /\
      p ++ nibble_bits ns = codes out ++ p'
  | ((d', buf'), Err e) => e = InvalidHuffmanCode
  | (_, Panic) => False
  end.
Proof.
  intros Hd Hns. revert d p buf Hd. induction Hns as [|n ns Hn Hns IH]; intros d p buf Hd.
  { exists [], p. rewrite app_nil_r. change (nibble_bits []) with (@nil bool). rewrite app_nil_r.
    split; [done|]. split; [constructor|]. split; [exact Hd|done]. }
  cbn [run_nibbles]. change (nibble_bits (n :: ns)) with (bits_of 4 n ++ nibble_bits ns).
  pose proof (decode4_step d p n Hd Hn) as Hstep.
  destruct (walk code_tree _) as [|sym rest|] eqn:Ew.
  - destruct Hstep as (d' & -> & Hd'). specialize (IH d' _ (put_opt buf None) Hd').
    rewrite <- app_assoc in IH. done.
  - destruct (Z.eqb_spec sym 256) as [->|Hne]; [by rewrite Hstep|].
    destruct Hstep as (d' & -> & Hd'). specialize (IH d' _ (put_opt buf (Some sym)) Hd').
    destruct (run_nibbles ns _) as [[d2 buf2] [u|e|]]; [|done..].
    destruct IH as (out & p' & -> & Hout & Hp' & Hbits). exists (sym :: out), p'.
    apply walk_sound in Ew as [Hw Hsym]. simpl put_opt. rewrite <- app_assoc.
    split; [done|]. split; [|split; [exact Hp'|]].
    + constructor; [|done]. unfold fits. change (2 ^ 8) with 256. lia.
    + change (codes (sym :: out)) with (code sym ++ codes out). rewrite app_assoc, Hw, <- !app_assoc. by f_equal.
  - by rewrite Hstep.
Qed.

Lemma at_path_pending d p : at_path d p -> walk code_tree p = Pending /\ (p = [] -> h_state d = 0).
Proof.
  intros (H0 & Hp & _). destruct (state_path_row _ _ Hp) as (row & _ & Hok & _).
  unfold path_ok in Hok. apply andb_prop in Hok as [H1 H2]. split; [by destruct (walk code_tree p)|].
  intros ->. rewrite bool_decide_true in H2 by done. simpl in H2. apply Nat.eqb_eq in H2. lia.
Qed.

(** Completeness: codes followed by fewer than eight ones are accepted. *)
Lemma run_nibbles_complete ns d p buf s k :
  at_path d p -> Forall (fun n => 0 <= n < 16) ns -> bytes_ok s -> (k < 8)%nat ->
  p ++ nibble_bits ns = codes s ++ replicate k true ->
  exists d', run_nibbles ns (d, buf) = ((d', buf ++ s), Ok tt) /\ at_path d' (replicate k true).
Proof.
  intros Hd Hns. revert d p buf s Hd. induction Hns as [|n ns Hn Hns IH]; intros d p buf s Hd Hs Hk Hbits.
  { change (nibble_bits []) with (@nil bool) in Hbits. rewrite app_nil_r in Hbits. subst p.
    destruct s as [|b s].
    - exists d. rewrite app_nil_r. done.
    - exfalso. apply at_path_pending in Hd as [Hw _]. inversion Hs as [|? ? Hb _]; subst.
      change (codes (b :: s)) with (code b ++ codes s) in Hw. rewrite <- app_assoc, walk_code in Hw by done. done. }
  cbn [run_nibbles]. change (nibble_bits (n :: ns)) with (bits_of 4 n ++ nibble_bits ns) in Hbits.
  rewrite app_assoc in Hbits. pose proof (decode4_step d p n Hd Hn) as Hstep.
  assert (Hfull : walk code_tree ((p ++ bits_of 4 n) ++ nibble_bits ns) =
    match s with [] => Pending | b :: s' => Reached b (codes s' ++ replicate k true) end).
  { rewrite Hbits. destruct Hs as [|b s' Hb Hs']; [by apply walk_ones|].
    change (codes (b :: s')) with (code b ++ codes s'). rewrite <- app_assoc. by apply walk_code. }
  rewrite walk_app in Hfull. destruct (walk code_tree (p ++ bits_of 4 n)) as [|sym rest|] eqn:Ew.
  - destruct Hstep as (d' & -> & Hd'). exact (IH d' _ (put_opt buf None) s Hd' Hs Hk Hbits).
  - destruct Hs as [|b s' Hb Hs']; [done|]. injection Hfull as -> Hrest.
    unfold fits in Hb. change (2 ^ 8) with 256 in Hb. rewrite (proj2 (Z.eqb_neq _ _)) in Hstep by lia.
    destruct Hstep as (d' & -> & Hd').
    destruct (IH d' rest (put_opt buf (Some b)) s' Hd' Hs' Hk Hrest) as (d2 & -> & Hd2).
    exists d2. cbn [put_opt]. rewrite <- app_assoc. split; [reflexivity|exact Hd2].
  - by destruct s.
Qed.

Lemma at_path_new : at_path hdecoder_new [].
Proof. unfold at_path. split_and!; [done|vm_compute; reflexivity..]. Qed.
Lemma eos_path_ones k : (k < 8)%nat -> k <> O -> eos_path (replicate k true) = true.
Proof. intros. do 8 (destruct k as [|k]; [done|]). lia. Qed.
Lemma eos_path_inv p : eos_path p = true -> p = replicate (length p) true /\ (length p < 8)%nat.
Proof.
  unfold eos_path. intros [[_ H]%andb_prop Hl%Nat.leb_le]%andb_prop. split; [|lia].
  clear Hl. induction p as [|b p IH]; [done|]. simpl in H. destruct b; [|done]. simpl. f_equal. by apply IH.
Qed.

Lemma huff_decode_iff w s buf :
  bytes_ok w ->
  huff_decode w buf = ([], Ok (buf ++ s)) <->
  bytes_ok s /\ exists k, (k < 8)%nat /\ byte_bits w = codes s ++ replicate k true.
Proof.
  intros Hw. destruct (nibbles_of_bits w Hw) as [Hbits Hns]. unfold huff_decode. rewrite decode_bytes_nibbles. split.
  - intros H. pose proof (run_nibbles_sound _ _ _ buf at_path_new Hns) as Hs.
    destruct (run_nibbles _ _) as [[d' buf'] [u|e|]]; [|done..].
    destruct Hs as (out & p & -> & Hout & Hp & Hb). destruct (is_final d') eqn:Ef; simpl in H; [|done].
    injection H as ->%app_inv_head. split; [done|]. rewrite Hbits. simpl in Hb. rewrite Hb.
    destruct Hp as (H0 & Hp & He). unfold is_final in Ef. apply orb_prop in Ef as [Ef%Z.eqb_eq|Ef].
    + exists O. split; [lia|]. f_equal. rewrite Ef in Hp. destruct at_path_new as (_ & Hnew & _).
      simpl h_state in Hnew. rewrite Hnew in Hp. by injection Hp as <-.
    + rewrite He in Ef. apply eos_path_inv in Ef as [Hones Hlt]. exists (length p). by rewrite <- Hones.
  - intros (Hs & k & Hk & Hb). rewrite Hbits in Hb.
    destruct (run_nibbles_complete _ _ [] buf s k at_path_new Hns Hs Hk Hb) as (d' & -> & Hd').
    assert (Hfin : is_final d' = true).
    { unfold is_final. destruct k as [|k].
      - destruct (at_path_pending _ _ Hd') as [_ Hz]. by rewrite (Hz eq_refl).
      - destruct Hd' as (_ & _ & ->). rewrite eos_path_ones by done. apply orb_true_r. }
    by rewrite Hfin.
Qed.
Lemma huff_decode_total w buf :
  bytes_ok w -> exists buf' r, huff_decode w buf = (buf', r) /\
    (r = Err InvalidHuffmanCode \/ exists s, r = Ok (buf ++ s) /\ buf' = [] /\ bytes_ok s).
Proof.
  intros Hw. destruct (nibbles_of_bits w Hw) as [_ Hns]. unfold huff_decode. rewrite decode_bytes_nibbles.
  pose proof (run_nibbles_sound _ _ _ buf at_path_new Hns) as Hs.
  destruct (run_nibbles _ _) as [[d' buf'] [u|e|]]; [|subst; eauto|done].
  destruct Hs as (out & p & -> & Hout & _). destruct (is_final d'); simpl; eauto 10.
Qed.

Lemma huff_encode_decode s dst buf :
  bytes_ok s -> exists w, huff_encode s dst = dst ++ w /\ bytes_ok w /\ huff_decode w buf = ([], Ok (buf ++ s)).
Proof.
  intros Hs. destruct (huff_encode_bits s dst Hs) as (w & k & He & Hw & Hk & Hb).
  exists w. split_and!; try done. apply huff_decode_iff; [done|]. eauto.
Qed.

(** C31: the table-driven decoder accepts a byte string exactly when its bits are the codes of
    some bytes followed by fewer than eight ones, and then returns those bytes (and leaves the
    scratch buffer empty); every other input is [InvalidHuffmanCode], never a panic. *)
Theorem hpack_huffman_exact w buf :
  bytes_ok w ->
  (forall s, huff_decode w buf = ([], Ok (buf ++ s)) <->
     bytes_ok s /\ exists k, (k < 8)%nat /\ byte_bits w = codes s ++ replicate k true) /\
  ((huff_decode w buf).2 = Err InvalidHuffmanCode \/ exists s, huff_decode w buf = ([], Ok (buf ++ s))).
Proof.
  intros Hw. split; [intros s; by apply huff_decode_iff|].
  destruct (huff_decode_total w buf Hw) as (buf' & r & -> & [->|(s & -> & -> & _)]); simpl; eauto.
Qed.
Definition sample_huff : bytes := [241; 227; 194; 229; 242; 58; 107; 160; 171; 144; 244; 255].
Lemma hpack_huffman_exact_witness :
  bytes_ok sample_huff /\ huff_decode sample_huff [] = ([], Ok ([] ++ bs "www.example.com")) /\
  exists k, (k < 8)%nat /\ byte_bits sample_huff = codes (bs "www.example.com") ++ replicate k true.
Proof.
  assert (Hok : bytes_ok sample_huff) by (apply (bool_decide_unpack _); vm_compute; exact I).
  assert (Hd : huff_decode sample_huff [] = ([], Ok ([] ++ bs "www.example.com"))) by (vm_compute; reflexivity).
  split; [exact Hok|]. split; [exact Hd|].
  exact (proj2 (proj1 (proj1 (hpack_huffman_exact sample_huff [] Hok) _) Hd)).
Defined.

(** What the encoder writes for any byte string, after what its output buffer already held,
    is a byte string the decoder maps back to it. *)
Theorem hpack_huffman_roundtrip s dst buf :
  bytes_ok s -> exists w, huff_encode s dst = dst ++ w /\ bytes_ok w /\ huff_decode w buf = ([], Ok (buf ++ s)).
Proof. apply huff_encode_decode. Qed.
Lemma hpack_huffman_roundtrip_witness :
  exists w, huff_encode (bs "www.example.com") [] = [] ++ w /\ bytes_ok w /\
    huff_decode w [] = ([], Ok ([] ++ bs "www.example.com")).
Proof. apply (hpack_huffman_roundtrip (bs "www.example.com") [] []), bs_ok. Defined.
