(* ===== verification/HpackHeader.v ===== *)
(** * HTTP/2 header fields (http/src/h2/proto/hpack/header.rs)

    The header fields HPACK carries, their names, values and table sizes, and the way back from
    the two byte strings of a field.  The value types are the [http] crate's: what the code
    calls of them is the interface [FieldTypes]. *)

From S2P Require Import Prelude Utf8 Decimal Http HpackInt.

(** [HeaderValue]: its bytes and the never-index mark; equality ignores the mark. *)
Record HeaderValue := mkValue { v_bytes : bytes; v_sensitive : bool }.
Definition value_from_static (s : bytes) : HeaderValue := mkValue s false.
Definition header_value_eqb (a b : HeaderValue) : bool := bool_decide (v_bytes a = v_bytes b).
#[global] Instance HeaderValue_eq_dec : EqDecision HeaderValue.
Proof. solve_decision. Defined.

Inductive Header (T : Type) :=
| Field (name : T) (value : HeaderValue)
| Authority (v : bytes)
| HMethod (m : Method)
| Scheme (v : bytes)
| Path (v : bytes)
| Protocol (v : bytes)
| Status (s : Z).
Arguments Field {T}. Arguments Authority {T}. Arguments HMethod {T}. Arguments Scheme {T}.
Arguments Path {T}. Arguments Protocol {T}. Arguments Status {T}.
Inductive Name := NField (n : bytes) | NAuthority | NMethod | NScheme | NPath | NProtocol | NStatus.
#[global] Instance Header_eq_dec {T} `{EqDecision T} : EqDecision (Header T).
Proof. solve_decision. Defined.
#[global] Instance Name_eq_dec : EqDecision Name.
Proof. solve_decision. Defined.

(** What is used of [HeaderName], [HeaderValue], [Method] and [StatusCode]. *)
Class FieldTypes := {
  (** [HeaderName::from_lowercase(..).ok()] *)
  name_from_lowercase : bytes -> option bytes;
  (** [HeaderValue::from_bytes(..).ok()], a value that is not sensitive *)
  value_from_bytes : bytes -> option bytes;
  method_from_bytes : bytes -> option Method;
  method_as_str : Method -> bytes;
  status_from_bytes : bytes -> option Z;
  status_as_str : Z -> bytes;
  name_from_lowercase_same n n' : name_from_lowercase n = Some n' -> n' = n;
  value_from_bytes_same v v' : value_from_bytes v = Some v' -> v' = v;
  method_from_bytes_str m b : method_from_bytes b = Some m -> method_as_str m = b;
  status_from_bytes_str s b : status_from_bytes b = Some s -> status_as_str s = b;
}.

(** An implementation: names of lower-case letters, digits and hyphens, visible values, methods
    of upper-case letters, three-digit codes. *)
Definition token_char (b : Z) : bool := ((97 <=? b) && (b <=? 122)) || ((48 <=? b) && (b <=? 57)) || (b =? 45).
Definition plain_method_str (m : Method) : bytes :=
  match m with
  | GET => bs "GET" | POST => bs "POST" | PUT => bs "PUT" | DELETE => bs "DELETE" | HEAD => bs "HEAD"
  | OPTIONS => bs "OPTIONS" | CONNECT => bs "CONNECT" | PATCH => bs "PATCH" | TRACE => bs "TRACE"
  | Extension e => e
  end.
Definition known_methods : list Method := [GET; POST; PUT; DELETE; HEAD; OPTIONS; CONNECT; PATCH; TRACE].
Definition plain_status (b : bytes) : option Z :=
  match b with
  | [x; y; z] =>
      if forallb (fun d => (48 <=? d) && (d <=? 57)) b && (49 <=? x)
      then Some ((x - 48) * 100 + (y - 48) * 10 + (z - 48)) else None
  | _ => None
  end.
Definition plain_status_str (s : Z) : bytes := [48 + s / 100; 48 + s / 10 mod 10; 48 + s mod 10].
#[global] Instance plain_types : FieldTypes.
Proof.
  refine {|
    name_from_lowercase := fun n => if forallb token_char n then Some n else None;
    value_from_bytes := fun v => if forallb visibleb v then Some v else None;
    method_from_bytes := fun b =>
      match list_find (fun m => plain_method_str m = b) known_methods with
      | Some (_, m) => Some m
      | None => if forallb (fun c => (65 <=? c) && (c <=? 90)) b then Some (Extension b) else None
      end;
    method_as_str := plain_method_str;
    status_from_bytes := plain_status;
    status_as_str := plain_status_str |}.
  - intros n n'. case_match; by intros [= <-].
  - intros n n'. case_match; by intros [= <-].
  - intros m b. destruct (list_find _ _) as [[i m']|] eqn:E.
    + intros [= ->]. by apply list_find_Some in E as (_ & ? & _).
    + case_match; [|done]. by intros [= <-].
  - intros s [|x [|y [|z [|? ?]]]]; try done. simpl.
    destruct ((48 <=? x) && (x <=? 57) && _ && _) eqn:E; [|done]. intros [= <-].
    unfold plain_status_str. repeat (apply andb_prop in E as [E ?]).
    assert (E1 : ((x - 48) * 100 + (y - 48) * 10 + (z - 48)) / 100 = x - 48)
      by (symmetry; apply (Z.div_unique _ _ _ ((y - 48) * 10 + (z - 48))); lia).
    assert (E2 : ((x - 48) * 100 + (y - 48) * 10 + (z - 48)) / 10 = (x - 48) * 10 + (y - 48))
      by (symmetry; apply (Z.div_unique _ _ _ (z - 48)); lia).
    assert (E3 : ((x - 48) * 10 + (y - 48)) mod 10 = y - 48)
      by (symmetry; apply (Z.mod_unique _ _ (x - 48)); lia).
    assert (E4 : ((x - 48) * 100 + (y - 48) * 10 + (z - 48)) mod 10 = z - 48)
      by (symmetry; apply (Z.mod_unique _ _ ((x - 48) * 10 + (y - 48))); lia).
    rewrite E1, E2, E3, E4. repeat f_equal; lia.
Defined.

(** [header::len]. *)
Definition field_len (name : bytes) (value : HeaderValue) : Z := 32 + len name + len (v_bytes value).

(** [Header::reify]: a field without a name belongs to the previous one. *)
Definition reify (h : Header (option bytes)) : Header bytes + HeaderValue :=
  match h with
  | Field (Some n) value => inl (Field n value)
  | Field None value => inr value
  | Authority v => inl (Authority v)
  | HMethod v => inl (HMethod v)
  | Scheme v => inl (Scheme v)
  | Path v => inl (Path v)
  | Protocol v => inl (Protocol v)
  | Status v => inl (Status v)
  end.

Section Fields.
Context `{FT : FieldTypes}.
Abbreviation header := (Header bytes).

(** [BytesStr::try_from]: valid UTF-8. *)
Definition bytes_str (v : bytes) : outcome DecoderError bytes := if utf8_valid v then Ok v else Err InvalidUtf8.

(** [Header::new]; [From] maps every failed conversion to [InvalidUtf8]. *)
Definition header_new (name value : bytes) : outcome DecoderError header :=
  match name with
  | [] => Err (ENeedMore UnexpectedEndOfStream)
  | c :: tail =>
      if c =? 58 then
        if bool_decide (tail = bs "authority") then v ← bytes_str value; Ok (Authority v)
        else if bool_decide (tail = bs "method") then
          m ← ok_or InvalidUtf8 (method_from_bytes value); Ok (HMethod m)
        else if bool_decide (tail = bs "scheme") then v ← bytes_str value; Ok (Scheme v)
        else if bool_decide (tail = bs "path") then v ← bytes_str value; Ok (Path v)
        else if bool_decide (tail = bs "protocol") then v ← bytes_str value; Ok (Protocol v)
        else if bool_decide (tail = bs "status") then
          s ← ok_or InvalidUtf8 (status_from_bytes value); Ok (Status s)
        else Err InvalidPseudoheader
      else
        n ← ok_or InvalidUtf8 (name_from_lowercase name);
        v ← ok_or InvalidUtf8 (value_from_bytes value);
        Ok (Field n (mkValue v false))
  end.

(** [Header::len]: the size of an entry of the dynamic table. *)
Definition header_len (h : header) : Z :=
  match h with
  | Field name value => field_len name value
  | Authority v => 32 + 10 + len v
  | HMethod v => 32 + 7 + len (method_as_str v)
  | Scheme v => 32 + 7 + len v
  | Path v => 32 + 5 + len v
  | Protocol v => 32 + 9 + len v
  | Status _ => 32 + 7 + 3
  end.
Definition header_name (h : header) : Name :=
  match h with
  | Field name _ => NField name
  | Authority _ => NAuthority
  | HMethod _ => NMethod
  | Scheme _ => NScheme
  | Path _ => NPath
  | Protocol _ => NProtocol
  | Status _ => NStatus
  end.
Definition value_slice (h : header) : bytes :=
  match h with
  | Field _ value => v_bytes value
  | Authority v => v
  | HMethod v => method_as_str v
  | Scheme v => v
  | Path v => v
  | Protocol v => v
  | Status v => status_as_str v
  end.
Definition value_eq (a b : header) : bool :=
  match a, b with
  | Field _ x, Field _ y => header_value_eqb x y
  | Authority x, Authority y => bool_decide (x = y)
  | HMethod x, HMethod y => bool_decide (x = y)
  | Scheme x, Scheme y => bool_decide (x = y)
  | Path x, Path y => bool_decide (x = y)
  | Protocol x, Protocol y => bool_decide (x = y)
  | Status x, Status y => x =? y
  | _, _ => false
  end.
Definition is_sensitive (h : header) : bool := match h with Field _ value => v_sensitive value | _ => false end.
Definition skip_value_index (h : header) : bool :=
  match h with
  | Field name _ => bool_decide (name ∈ [bs "age"; bs "authorization"; bs "content-length"; bs "etag";
      bs "if-modified-since"; bs "if-none-match"; bs "location"; bs "cookie"; bs "set-cookie"])
  | Path _ => true
  | _ => false
  end.

(** [Name::into_entry] and [Name::as_slice]. *)
Definition into_entry (n : Name) (value : bytes) : outcome DecoderError header :=
  match n with
  | NField name => v ← ok_or InvalidUtf8 (value_from_bytes value); Ok (Field name (mkValue v false))
  | NAuthority => v ← bytes_str value; Ok (Authority v)
  | NMethod => m ← ok_or InvalidUtf8 (method_from_bytes value); Ok (HMethod m)
  | NScheme => v ← bytes_str value; Ok (Scheme v)
  | NPath => v ← bytes_str value; Ok (Path v)
  | NProtocol => v ← bytes_str value; Ok (Protocol v)
  | NStatus => match status_from_bytes value with Some s => Ok (Status s) | None => Err InvalidStatusCode end
  end.
Definition name_slice (n : Name) : bytes :=
  match n with
  | NField name => name
  | NAuthority => bs ":authority"
  | NMethod => bs ":method"
  | NScheme => bs ":scheme"
  | NPath => bs ":path"
  | NProtocol => bs ":protocol"
  | NStatus => bs ":status"
  end.

(** *** Lemmas *)

(** The two byte strings of a field. *)
Definition wire (h : header) : bytes * bytes := (name_slice (header_name h), value_slice h).
(** Fields that can be rebuilt from their bytes. *)
Definition header_ok (h : header) : Prop :=
  exists h', header_new (name_slice (header_name h)) (value_slice h) = Ok h' /\ header_name h' = header_name h.

Lemma header_new_wire n v h : header_new n v = Ok h -> wire h = (n, v).
Proof.
  unfold header_new, wire, bytes_str, ok_or. destruct n as [|c tail]; [done|]. simpl.
  destruct (Z.eqb_spec c 58) as [->|Hc].
  - repeat case_bool_decide; subst tail || idtac; simpl; try (case_match; [|done]); intros [= <-]; simpl; f_equal;
      eauto using method_from_bytes_str, status_from_bytes_str.
  - destruct (name_from_lowercase _) eqn:En; simpl; [|done]. destruct (value_from_bytes v) eqn:Ev; simpl; [|done].
    intros [= <-]. simpl. apply name_from_lowercase_same in En as ->. by apply value_from_bytes_same in Ev as ->.
Qed.
Lemma header_new_total n v : header_new n v <> Panic.
Proof.
  unfold header_new, bytes_str, ok_or. destruct n as [|c tail]; [done|]. simpl.
  repeat case_match; simpl; done.
Qed.
Lemma into_entry_total n v : into_entry n v <> Panic.
Proof. unfold into_entry, bytes_str, ok_or. repeat case_match; simpl; done. Qed.

Lemma into_entry_wire n v h : into_entry n v = Ok h -> header_name h = n /\ value_slice h = v.
Proof.
  unfold into_entry, bytes_str, ok_or. destruct n; simpl; try (case_match; simpl; [|done]); intros [= <-]; split; try done; simpl;
    eauto using method_from_bytes_str, status_from_bytes_str, value_from_bytes_same.
Qed.
(** The name of an indexed entry rebuilds the same field as the spelled-out name. *)
Lemma header_new_into_entry n v h :
  header_new (name_slice n) v = Ok h -> header_name h = n -> into_entry n v = Ok h.
Proof.
  destruct n; simpl; try by (intros H _; revert H; unfold ok_or; repeat case_match; simpl; congruence).
  intros H Hn. unfold header_new in H. destruct n as [|c tail]; [done|].
  destruct (c =? 58).
  - exfalso. unfold bytes_str, ok_or in H. repeat case_match; simpl in H; try done; injection H as <-; done.
  - destruct (name_from_lowercase _) as [n'|]; simpl in H; [|done].
    destruct (value_from_bytes v); simpl in H |- *; [|done].
    injection H as <-. simpl in Hn. injection Hn as ->. done.
Qed.

Lemma header_len_pos h : 32 <= header_len h.
Proof. destruct h; unfold header_len, field_len; rewrite ?Z.add_assoc; repeat match goal with |- context [len ?l] => pose proof (len_nonneg l); generalize dependent (len l); intros end; lia. Qed.
End Fields.
#[export] Hint Resolve header_len_pos header_new_total into_entry_total : xitca.
