(* ===== verification/HpackTable.v ===== *)
(** * HPACK tables of the decoder (http/src/h2/proto/hpack/decoder.rs)

    The static table and the dynamic table with its eviction, refined to the abstract table of
    RFC 7541: the longest prefix of the entries, newest first, that fits. *)

From S2P Require Import Prelude Http HpackInt HpackHeader.

(** [get_static]. *)
Definition get_static (idx : Z) : outcome DecoderError (Header bytes) :=
  match idx with
  | 1 => Ok (Authority (bs ""))
  | 2 => Ok (HMethod GET)
  | 3 => Ok (HMethod POST)
  | 4 => Ok (Path (bs "/"))
  | 5 => Ok (Path (bs "/index.html"))
  | 6 => Ok (Scheme (bs "http"))
  | 7 => Ok (Scheme (bs "https"))
  | 8 => Ok (Status 200)
  | 9 => Ok (Status 204)
  | 10 => Ok (Status 206)
  | 11 => Ok (Status 304)
  | 12 => Ok (Status 400)
  | 13 => Ok (Status 404)
  | 14 => Ok (Status 500)
  | 15 => Ok (Field (bs "accept-charset") (value_from_static (bs "")))
  | 16 => Ok (Field (bs "accept-encoding") (value_from_static (bs "gzip, deflate")))
  | 17 => Ok (Field (bs "accept-language") (value_from_static (bs "")))
  | 18 => Ok (Field (bs "accept-ranges") (value_from_static (bs "")))
  | 19 => Ok (Field (bs "accept") (value_from_static (bs "")))
  | 20 => Ok (Field (bs "access-control-allow-origin") (value_from_static (bs "")))
  | 21 => Ok (Field (bs "age") (value_from_static (bs "")))
  | 22 => Ok (Field (bs "allow") (value_from_static (bs "")))
  | 23 => Ok (Field (bs "authorization") (value_from_static (bs "")))
  | 24 => Ok (Field (bs "cache-control") (value_from_static (bs "")))
  | 25 => Ok (Field (bs "content-disposition") (value_from_static (bs "")))
  | 26 => Ok (Field (bs "content-encoding") (value_from_static (bs "")))
  | 27 => Ok (Field (bs "content-language") (value_from_static (bs "")))
  | 28 => Ok (Field (bs "content-length") (value_from_static (bs "")))
  | 29 => Ok (Field (bs "content-location") (value_from_static (bs "")))
  | 30 => Ok (Field (bs "content-range") (value_from_static (bs "")))
  | 31 => Ok (Field (bs "content-type") (value_from_static (bs "")))
  | 32 => Ok (Field (bs "cookie") (value_from_static (bs "")))
  | 33 => Ok (Field (bs "date") (value_from_static (bs "")))
  | 34 => Ok (Field (bs "etag") (value_from_static (bs "")))
  | 35 => Ok (Field (bs "expect") (value_from_static (bs "")))
  | 36 => Ok (Field (bs "expires") (value_from_static (bs "")))
  | 37 => Ok (Field (bs "from") (value_from_static (bs "")))
  | 38 => Ok (Field (bs "host") (value_from_static (bs "")))
  | 39 => Ok (Field (bs "if-match") (value_from_static (bs "")))
  | 40 => Ok (Field (bs "if-modified-since") (value_from_static (bs "")))
  | 41 => Ok (Field (bs "if-none-match") (value_from_static (bs "")))
  | 42 => Ok (Field (bs "if-range") (value_from_static (bs "")))
  | 43 => Ok (Field (bs "if-unmodified-since") (value_from_static (bs "")))
  | 44 => Ok (Field (bs "last-modified") (value_from_static (bs "")))
  | 45 => Ok (Field (bs "link") (value_from_static (bs "")))
  | 46 => Ok (Field (bs "location") (value_from_static (bs "")))
  | 47 => Ok (Field (bs "max-forwards") (value_from_static (bs "")))
  | 48 => Ok (Field (bs "proxy-authenticate") (value_from_static (bs "")))
  | 49 => Ok (Field (bs "proxy-authorization") (value_from_static (bs "")))
  | 50 => Ok (Field (bs "range") (value_from_static (bs "")))
  | 51 => Ok (Field (bs "referer") (value_from_static (bs "")))
  | 52 => Ok (Field (bs "refresh") (value_from_static (bs "")))
  | 53 => Ok (Field (bs "retry-after") (value_from_static (bs "")))
  | 54 => Ok (Field (bs "server") (value_from_static (bs "")))
  | 55 => Ok (Field (bs "set-cookie") (value_from_static (bs "")))
  | 56 => Ok (Field (bs "strict-transport-security") (value_from_static (bs "")))
  | 57 => Ok (Field (bs "transfer-encoding") (value_from_static (bs "")))
  | 58 => Ok (Field (bs "user-agent") (value_from_static (bs "")))
  | 59 => Ok (Field (bs "vary") (value_from_static (bs "")))
  | 60 => Ok (Field (bs "via") (value_from_static (bs "")))
  | 61 => Ok (Field (bs "www-authenticate") (value_from_static (bs "")))
  | _ => Panic
  end.

(** [Table]: entries newest first (the front of the [VecDeque]). *)
Record Table := mkTable { entries : list (Header bytes); size : Z; max_size : Z }.
Definition table_new (max_size : Z) : Table := mkTable [] 0 max_size.

(** [VecDeque::pop_back]. *)
Fixpoint pop_back {A} (l : list A) : option (list A * A) :=
  match l with
  | [] => None
  | [x] => Some ([], x)
  | x :: t => match pop_back t with Some (t', y) => Some (x :: t', y) | None => None end
  end.

Section Table.
Context `{FT : FieldTypes}.

Definition table_get (t : Table) (index : Z) : outcome DecoderError (Header bytes) :=
  if index =? 0 then Err InvalidTableIndex
  else if index <=? 61 then get_static index
  else match entries t !! Z.to_nat (index - 62) with
       | Some e => Ok e
       | None => Err InvalidTableIndex
       end.

(** The loops run at most once per entry. *)
Fixpoint reserve_go (fuel : nat) (n : Z) : M Table DecoderError unit := fun t =>
  match fuel with
  | O => (t, Ok tt)
  | S fuel =>
      if size t + n >? max_size t then
        match pop_back (entries t) with
        | Some (es, last) =>
            match sub_chk (size t) (header_len last) with
            | Ok s => reserve_go fuel n (mkTable es s (max_size t))
            | Err e => (mkTable es (size t) (max_size t), Err e)
            | Panic => (mkTable es (size t) (max_size t), Panic)
            end
        | None => (t, Ok tt)
        end
      else (t, Ok tt)
  end.
Definition reserve (n : Z) : M Table DecoderError unit := fun t => reserve_go (S (length (entries t))) n t.
Definition table_insert (entry : Header bytes) : M Table DecoderError unit :=
  let n := header_len entry in
  reserve n ;;
  t ← get;
  if size t + n <=? max_size t then put (mkTable (entry :: entries t) (size t + n) (max_size t)) else mret tt.

Fixpoint consolidate_go (fuel : nat) : M Table DecoderError unit := fun t =>
  match fuel with
  | O => (t, Ok tt)
  | S fuel =>
      if size t >? max_size t then
        match pop_back (entries t) with
        | None => (t, Panic)
        | Some (es, last) =>
            match sub_chk (size t) (header_len last) with
            | Ok s => consolidate_go fuel (mkTable es s (max_size t))
            | Err e => (t, Err e)
            | Panic => (t, Panic)
            end
        end
      else (t, Ok tt)
  end.
Definition consolidate : M Table DecoderError unit := fun t => consolidate_go (S (length (entries t))) t.
Definition set_max_size (n : Z) : M Table DecoderError unit := fun t =>
  consolidate (mkTable (entries t) (size t) n).

(** *** The abstract table *)

Definition total (l : list (Header bytes)) : Z := foldr (fun h acc => header_len h + acc) 0 l.
(** The longest prefix whose size is within [max]. *)
Fixpoint fit (max : Z) (l : list (Header bytes)) : list (Header bytes) :=
  match l with
  | [] => []
  | h :: t => if header_len h <=? max then h :: fit (max - header_len h) t else []
  end.
Definition table_ok (t : Table) : Prop := size t = total (entries t) /\ size t <= max_size t.

Lemma total_app a b : total (a ++ b) = total a + total b.
Proof. induction a as [|h a IH]; simpl; [lia|]. rewrite IH. lia. Qed.
Lemma total_nonneg l : 0 <= total l.
Proof. induction l as [|h l IH]; simpl; [lia|]. pose proof (header_len_pos h). lia. Qed.
Lemma pop_back_snoc {A} (l : list A) x : pop_back (l ++ [x]) = Some (l, x).
Proof. induction l as [|y l IH]; [done|]. simpl. rewrite IH. destruct (l ++ [x]) eqn:E; [by destruct l|done]. Qed.

Lemma fit_all max l : total l <= max -> fit max l = l.
Proof.
  revert max. induction l as [|h l IH]; intros max Hm; [done|]. simpl in *.
  pose proof (total_nonneg l). rewrite (proj2 (Z.leb_le _ _)) by lia. f_equal. apply IH. lia.
Qed.
(** An entry at the end that does not fit is dropped. *)
Lemma fit_snoc max l h : max < total (l ++ [h]) -> fit max (l ++ [h]) = fit max l.
Proof.
  revert max. induction l as [|x l IH]; intros max Hm; simpl in *.
  - by rewrite (proj2 (Z.leb_gt _ _)) by lia.
  - destruct (Z.leb_spec (header_len x) max); [|done]. f_equal. apply IH. lia.
Qed.
Lemma fit_total max l : 0 <= max -> total (fit max l) <= max.
Proof.
  revert max. induction l as [|x l IH]; intros max Hm; simpl; [lia|].
  destruct (Z.leb_spec (header_len x) max); simpl; [|lia]. specialize (IH (max - header_len x)). lia.
Qed.
Lemma fit_neg max l : max < 0 -> fit max l = [].
Proof. destruct l as [|h l]; [done|]. simpl. intros. pose proof (header_len_pos h). by rewrite (proj2 (Z.leb_gt _ _)) by lia. Qed.

Lemma reserve_go_spec fuel n es max :
  (length es < fuel)%nat ->
  reserve_go fuel n (mkTable es (total es) max) =
    (mkTable (fit (max - n) es) (total (fit (max - n) es)) max, Ok tt).
Proof.
  revert es. induction fuel as [|f IH]; intros es Hf; [lia|]. cbn [reserve_go size max_size entries].
  rewrite Z.gtb_ltb. destruct (Z.ltb_spec max (total es + n)).
  - destruct es as [|e es _] using rev_ind; [done|].
    rewrite pop_back_snoc. unfold sub_chk. rewrite total_app. simpl (total [e]).
    pose proof (total_nonneg es). rewrite (proj2 (Z.leb_le _ _)) by lia.
    rewrite length_app in Hf. simpl in Hf. replace (total es + (header_len e + 0) - header_len e) with (total es) by lia.
    rewrite IH by lia. rewrite fit_snoc; [done|]. rewrite total_app. simpl. rewrite total_app in H. simpl in H. lia.
  - by rewrite fit_all by lia.
Qed.
Lemma consolidate_go_spec fuel es max :
  (length es < fuel)%nat -> 0 <= max ->
  consolidate_go fuel (mkTable es (total es) max) = (mkTable (fit max es) (total (fit max es)) max, Ok tt).
Proof.
  revert es. induction fuel as [|f IH]; intros es Hf Hmax; [lia|]. cbn [consolidate_go size max_size entries].
  rewrite Z.gtb_ltb. destruct (Z.ltb_spec max (total es)).
  - destruct es as [|e es _] using rev_ind; [simpl in *; lia|].
    rewrite pop_back_snoc. unfold sub_chk. rewrite total_app. simpl (total [e]).
    pose proof (total_nonneg es). rewrite (proj2 (Z.leb_le _ _)) by lia.
    rewrite length_app in Hf. simpl in Hf. replace (total es + (header_len e + 0) - header_len e) with (total es) by lia.
    rewrite IH by lia. rewrite fit_snoc; [done|]. lia.
  - by rewrite fit_all by lia.
Qed.

Lemma table_insert_fit h t :
  table_ok t ->
  exists t', table_insert h t = (t', Ok tt) /\ table_ok t' /\ max_size t' = max_size t /\
    entries t' = fit (max_size t) (h :: entries t).
Proof.
  destruct t as [es sz max]. intros [Hs Hm]. simpl in Hs, Hm. subst sz. unfold table_insert, mbind, M_bind, reserve.
  cbn [entries]. rewrite reserve_go_spec by lia. unfold get. cbn [size max_size entries fit].
  pose proof (header_len_pos h). pose proof (total_nonneg (fit (max - header_len h) es)).
  pose proof (total_nonneg es).
  destruct (Z.leb_spec (header_len h) max) as [Hle|Hgt].
  - assert (total (fit (max - header_len h) es) <= max - header_len h) by (apply fit_total; lia).
    rewrite (proj2 (Z.leb_le _ _)) by lia. unfold put. eexists. split; [done|]. unfold table_ok. simpl. split_and!; done || lia.
  - rewrite (proj2 (Z.leb_gt _ _)) by lia. unfold mret, M_ret. rewrite fit_neg by lia.
    eexists. split; [done|]. unfold table_ok. simpl. split_and!; done || lia.
Qed.
Lemma set_max_size_fit n t :
  table_ok t -> 0 <= n ->
  exists t', set_max_size n t = (t', Ok tt) /\ table_ok t' /\ max_size t' = n /\ entries t' = fit n (entries t).
Proof.
  destruct t as [es sz max]. intros [Hs Hm] Hn. simpl in Hs, Hm. subst sz. unfold set_max_size, consolidate.
  cbn [entries size]. rewrite consolidate_go_spec by lia. eexists. split; [done|].
  pose proof (fit_total n es Hn). unfold table_ok. simpl. done.
Qed.

Lemma get_static_ok i : 1 <= i <= 61 -> exists h, get_static i = Ok h.
Proof.
  intros Hi. assert (Hall : forallb (fun n => match get_static (Z.of_nat n) with Ok _ => true | _ => false end) (seq 1 61) = true)
    by (vm_compute; reflexivity).
  rewrite forallb_forall in Hall. specialize (Hall (Z.to_nat i) ltac:(apply in_seq; lia)).
  rewrite Z2Nat.id in Hall by lia. destruct (get_static i); [eauto|done..].
Qed.
Lemma table_get_cases t i :
  0 <= i ->
  table_get t i = Err InvalidTableIndex \/ exists h, table_get t i = Ok h.
Proof.
  intros Hi. unfold table_get. destruct (Z.eqb_spec i 0); [by left|].
  destruct (Z.leb_spec i 61); [right; apply get_static_ok; lia|]. case_match; eauto.
Qed.
End Table.

(** *** Properties *)

(** The dynamic table refines RFC 7541's: after an insertion its entries are the longest
    prefix of the new entry and the old ones, newest first, that fits in the maximum size (nothing
    when the entry alone is too large), after a size update the longest prefix that fits the new
    maximum; its byte count is exactly the sum of its entries' sizes and never above the maximum,
    the eviction loops end and neither [panic!] nor the subtraction of a size is reached. *)
Theorem hpack_table_refines `{FT : FieldTypes} (t : Table) :
  table_ok t ->
  (forall h, exists t', table_insert h t = (t', Ok tt) /\ table_ok t' /\ max_size t' = max_size t /\
     entries t' = fit (max_size t) (h :: entries t)) /\
  (forall n, 0 <= n ->
     exists t', set_max_size n t = (t', Ok tt) /\ table_ok t' /\ max_size t' = n /\ entries t' = fit n (entries t)).
Proof. intros Ht. split; intros; [by apply table_insert_fit|by apply set_max_size_fit]. Qed.
Lemma hpack_table_refines_witness :
  table_ok (table_new 100) /\
  exists t', table_insert (Path (bs "/index.html")) (table_new 100) = (t', Ok tt) /\ table_ok t' /\
    max_size t' = 100 /\ entries t' = fit 100 [Path (bs "/index.html")].
Proof.
  assert (Hok : table_ok (table_new 100)) by (split; [reflexivity|vm_compute; congruence]).
  split; [exact Hok|]. exact (proj1 (hpack_table_refines (table_new 100) Hok) (Path (bs "/index.html"))).
Defined.
