(* ===== verification/HpackDecoder.v ===== *)
(** * The HPACK decoder (http/src/h2/proto/hpack/decoder.rs)

    [Decoder::decode] over its cursor, which drops what was decoded from the buffer, refined to a
    pure parser of header blocks over the abstract dynamic table. *)

From S2P Require Import Prelude Http HpackInt HpackHuffman HpackHeader HpackTable.

(** [Decoder] and the cursor it reads: the buffer and a position in it. *)
Record Decoder := mkDecoder {
  max_size_update : option Z; last_max_update : Z; table : Table; buffer : bytes }.
Record Cursor := mkCursor { cbuf : bytes; pos : Z }.
Record StringMarker := mkMarker { offset : Z; slen : Z; string : option bytes }.
(** The decoder, its input, and the headers handed to the callback so far. *)
Record St := mkSt { dec : Decoder; cur : Cursor; out : list (Header bytes) }.

Definition decoder_new (size : Z) : Decoder := mkDecoder None size (table_new size) [].
(** [Decoder::queue_size_update]. *)
Definition queue_size_update (size : Z) (d : Decoder) : Decoder :=
  let size := match max_size_update d with Some v => Z.max v size | None => size end in
  mkDecoder (Some size) (last_max_update d) (table d) (buffer d).

(** *** The cursor *)

(** [Buf::chunk], [Buf::remaining], [peek_u8]. *)
Definition chunk (c : Cursor) : bytes := drop (Z.to_nat (pos c)) (cbuf c).
Definition peek_u8 (c : Cursor) : option Z := head (chunk c).
(** [Buf::advance]. *)
Definition cursor_advance (n : Z) : M Cursor DecoderError unit := fun c =>
  if pos c + n <=? len (cbuf c) then (mkCursor (cbuf c) (pos c + n), Ok tt) else (c, Panic).
(** [decode_int] reads bytes with [get_u8]. *)
Definition cursor_int (prefix_size : Z) : M Cursor DecoderError Z := fun c =>
  let '(rest, r) := decode_int prefix_size (chunk c) in
  (mkCursor (cbuf c) (len (cbuf c) - len rest), r).
(** [take]: the bytes up to the end of what is taken leave the buffer. *)
Definition take_bytes (n : Z) : M Cursor DecoderError bytes := fun c =>
  match m_split_to (E := DecoderError) (pos c + n) (cbuf c) with
  | (rest, Ok head) => (mkCursor rest 0, Ok (drop (Z.to_nat (pos c)) head))
  | (_, Err e) => (c, Err e)
  | (_, Panic) => (c, Panic)
  end.
Definition consume : M Cursor DecoderError unit := _ ← take_bytes 0; mret tt.
(** [StringMarker::consume]. *)
Definition marker_consume (m : StringMarker) : M Cursor DecoderError bytes :=
  cursor_advance (offset m) ;;
  match string m with
  | Some s => cursor_advance (slen m) ;; mret s
  | None => take_bytes (slen m)
  end.

(** Steps on one part of the state. *)
Definition on_cur {A} (m : M Cursor DecoderError A) : M St DecoderError A := fun s =>
  let '(c, r) := m (cur s) in (mkSt (dec s) c (out s), r).
Definition on_table {A} (m : M Table DecoderError A) : M St DecoderError A := fun s =>
  let d := dec s in
  let '(t, r) := m (table d) in
  (mkSt (mkDecoder (max_size_update d) (last_max_update d) t (buffer d)) (cur s) (out s), r).
Definition set_position (p : Z) : M St DecoderError unit := fun s =>
  (mkSt (dec s) (mkCursor (cbuf (cur s)) p) (out s), Ok tt).
(** The call [f(entry)]. *)
Definition yield (h : Header bytes) : M St DecoderError unit := fun s =>
  (mkSt (dec s) (cur s) (out s ++ [h]), Ok tt).
(** [huffman::decode(raw, &mut self.buffer)]. *)
Definition huffman (raw : bytes) : M St DecoderError (outcome DecoderError bytes) := fun s =>
  let d := dec s in
  let '(b, r) := huff_decode raw (buffer d) in
  (mkSt (mkDecoder (max_size_update d) (last_max_update d) (table d) b) (cur s) (out s),
   match r with Panic => Panic | _ => Ok r end).

Section Decoder.
Context `{FT : FieldTypes}.

Definition HUFF_FLAG : Z := 128.
(** [Decoder::try_decode_string]. *)
Definition try_decode_string : M St DecoderError StringMarker :=
  s ← get;
  let old_pos := pos (cur s) in
  match peek_u8 (cur s) with
  | None => fail (ENeedMore UnexpectedEndOfStream)
  | Some hdr =>
      let huff := Z.land hdr HUFF_FLAG =? HUFF_FLAG in
      n ← on_cur (cursor_int 7);
      s ← get;
      let c := cur s in
      if n >? len (chunk c) then fail (ENeedMore StringUnderflow)
      else
        let offset := pos c - old_pos in
        if huff then
          ret ← huffman (take (Z.to_nat n) (chunk c));
          on_cur (cursor_advance n) ;;
          lift ((fun str => mkMarker offset n (Some str)) <$> ret)
        else
          on_cur (cursor_advance n) ;;
          mret (mkMarker offset n None)
  end.
(** [Decoder::decode_string]. *)
Definition decode_string : M St DecoderError bytes :=
  s ← get;
  let old_pos := pos (cur s) in
  marker ← try_decode_string;
  set_position old_pos ;;
  on_cur (marker_consume marker).

Definition table_lookup (idx : Z) : M St DecoderError (Header bytes) := fun s =>
  (s, table_get (table (dec s)) idx).
Definition decode_indexed : M St DecoderError (Header bytes) :=
  index ← on_cur (cursor_int 7);
  table_lookup index.
Definition decode_literal (index : bool) : M St DecoderError (Header bytes) :=
  table_idx ← on_cur (cursor_int (if index then 6 else 4));
  if table_idx =? 0 then
    s ← get;
    let old_pos := pos (cur s) in
    name_marker ← try_decode_string;
    value_marker ← try_decode_string;
    set_position old_pos ;;
    name ← on_cur (marker_consume name_marker);
    value ← on_cur (marker_consume value_marker);
    lift (header_new name value)
  else
    e ← table_lookup table_idx;
    value ← decode_string;
    lift (into_entry (header_name e) value).
Definition process_size_update : M St DecoderError unit :=
  new_size ← on_cur (cursor_int 5);
  s ← get;
  if new_size >? last_max_update (dec s) then fail InvalidMaxDynamicSize
  else on_table (set_max_size new_size).

(** One turn of the loop of [decode]: the new [can_resize]. *)
Definition decode_one (ty : Z) (can_resize : bool) : M St DecoderError bool :=
  r ← lift (load ty);
  match r with
  | Indexed => entry ← decode_indexed; on_cur consume ;; yield entry ;; mret false
  | LiteralWithIndexing =>
      entry ← decode_literal true;
      on_table (table_insert entry) ;; on_cur consume ;; yield entry ;; mret false
  | LiteralWithoutIndexing => entry ← decode_literal false; on_cur consume ;; yield entry ;; mret false
  | LiteralNeverIndexed => entry ← decode_literal false; on_cur consume ;; yield entry ;; mret false
  | SizeUpdate =>
      if negb can_resize then fail InvalidMaxDynamicSize
      else process_size_update ;; on_cur consume ;; mret can_resize
  end.
(** Every turn takes at least a byte of the input. *)
Fixpoint decode_loop (fuel : nat) (can_resize : bool) : M St DecoderError unit := fun s =>
  match peek_u8 (cur s) with
  | None => (s, Ok tt)
  | Some ty =>
      match fuel with
      | O => (s, Panic)
      | S fuel => mbind (fun cr => decode_loop fuel cr) (decode_one ty can_resize) s
      end
  end.
(** [Decoder::decode]. *)
Definition decode : M St DecoderError unit := fun s =>
  let d := dec s in
  let d := match max_size_update d with
           | Some n => mkDecoder None n (table d) (buffer d)
           | None => d
           end in
  decode_loop (S (length (chunk (cur s)))) true (mkSt d (cur s) (out s)).

(** *** The parser of header blocks *)

(** A string literal: the string and what follows it. *)
Definition p_string (r : bytes) : outcome DecoderError (bytes * bytes) :=
  match r with
  | [] => Err (ENeedMore UnexpectedEndOfStream)
  | hdr :: _ =>
      match decode_int 7 r with
      | (rest, Ok n) =>
          if n >? len rest then Err (ENeedMore StringUnderflow)
          else
            let raw := take (Z.to_nat n) rest in
            let rest := drop (Z.to_nat n) rest in
            if Z.land hdr HUFF_FLAG =? HUFF_FLAG
            then s ← (huff_decode raw []).2; Ok (s, rest)
            else Ok (raw, rest)
      | (_, Err e) => Err e
      | (_, Panic) => Panic
      end
  end.
Definition p_int (p : Z) (r : bytes) : outcome DecoderError (Z * bytes) :=
  match decode_int p r with (rest, Ok n) => Ok (n, rest) | (_, Err e) => Err e | (_, Panic) => Panic end.
Definition p_literal (t : Table) (index : bool) (r : bytes) : outcome DecoderError (Header bytes * bytes) :=
  '(idx, r) ← p_int (if index then 6 else 4) r;
  if idx =? 0 then
    '(name, r) ← p_string r;
    '(value, r) ← p_string r;
    h ← header_new name value;
    Ok (h, r)
  else
    e ← table_get t idx;
    '(value, r) ← p_string r;
    h ← into_entry (header_name e) value;
    Ok (h, r).
(** A block: the header it carries, the table after it, whether a size update may follow. *)
Definition p_block (last_max : Z) (t : Table) (can_resize : bool) (r : bytes) :
  outcome DecoderError (option (Header bytes) * Table * bool * bytes) :=
  match r with
  | [] => Panic
  | ty :: _ =>
      rep ← load ty;
      match rep with
      | Indexed =>
          '(idx, r) ← p_int 7 r;
          h ← table_get t idx;
          Ok (Some h, t, false, r)
      | LiteralWithIndexing =>
          '(h, r) ← p_literal t true r;
          _ ← (table_insert h t).2;
          Ok (Some h, (table_insert h t).1, false, r)
      | LiteralWithoutIndexing | LiteralNeverIndexed =>
          '(h, r) ← p_literal t false r;
          Ok (Some h, t, false, r)
      | SizeUpdate =>
          if negb can_resize then Err InvalidMaxDynamicSize
          else
            '(n, r) ← p_int 5 r;
            if n >? last_max then Err InvalidMaxDynamicSize
            else _ ← (set_max_size n t).2; Ok (None, (set_max_size n t).1, true, r)
      end
  end.
(** The blocks of a header list: the headers, the table, and how parsing ended. *)
Fixpoint p_blocks (fuel : nat) (last_max : Z) (t : Table) (can_resize : bool) (r : bytes) :
  list (Header bytes) * Table * outcome DecoderError unit :=
  match r with
  | [] => ([], t, Ok tt)
  | _ =>
      match fuel with
      | O => ([], t, Panic)
      | S fuel =>
          match p_block last_max t can_resize r with
          | Ok (h, t, cr, r) =>
              let '(hs, t, res) := p_blocks fuel last_max t cr r in (option_list h ++ hs, t, res)
          | Err e => ([], t, Err e)
          | Panic => ([], t, Panic)
          end
      end
  end.
Definition p_headers (last_max : Z) (t : Table) (r : bytes) := p_blocks (S (length r)) last_max t true r.

(** *** The cursor drops exactly what the parser reads *)

Definition cur_ok (c : Cursor) : Prop := 0 <= pos c <= len (cbuf c).

Lemma chunk_len c : cur_ok c -> len (chunk c) = len (cbuf c) - pos c.
Proof. intros Hc. unfold chunk. apply len_drop. exact Hc. Qed.
(** Moving forward over [a]. *)
Lemma chunk_move c a b :
  cur_ok c -> chunk c = a ++ b ->
  let c' := mkCursor (cbuf c) (pos c + len a) in cur_ok c' /\ chunk c' = b.
Proof.
  intros Hc Hch. pose proof (chunk_len c Hc) as Hl. rewrite Hch, len_app in Hl.
  pose proof (len_nonneg a). pose proof (len_nonneg b). unfold cur_ok in *. split; [simpl; lia|].
  unfold chunk in *. simpl. rewrite Z2Nat.inj_add by lia. rewrite <- drop_drop, Hch.
  unfold len. rewrite Nat2Z.id. apply drop_app_length.
Qed.
Lemma cursor_advance_app c a b :
  cur_ok c -> chunk c = a ++ b -> cursor_advance (len a) c = (mkCursor (cbuf c) (pos c + len a), Ok tt).
Proof.
  intros Hc Hch. pose proof (chunk_len c Hc) as Hl. rewrite Hch, len_app in Hl. pose proof (len_nonneg b).
  unfold cursor_advance. by rewrite (proj2 (Z.leb_le _ _)) by lia.
Qed.
Lemma take_bytes_app c a b :
  cur_ok c -> chunk c = a ++ b -> take_bytes (len a) c = (mkCursor b 0, Ok a).
Proof.
  intros Hc Hch. pose proof (chunk_len c Hc) as Hl. rewrite Hch, len_app in Hl. pose proof (len_nonneg b).
  pose proof (len_nonneg a). unfold cur_ok in Hc. unfold take_bytes.
  assert (Hb : cbuf c = (take (Z.to_nat (pos c)) (cbuf c) ++ a) ++ b)
    by (rewrite <- app_assoc, <- Hch; unfold chunk; by rewrite take_drop).
  assert (Hp : len (take (Z.to_nat (pos c)) (cbuf c)) = pos c) by (apply len_take; lia).
  rewrite Hb at 1. rewrite m_split_to_app by (rewrite len_app; lia).
  f_equal. f_equal. unfold len in Hp. rewrite <- Hp at 1. rewrite Nat2Z.id. apply drop_app_length.
Qed.
Lemma consume_ok c : cur_ok c -> consume c = (mkCursor (chunk c) 0, Ok tt).
Proof.
  intros Hc. unfold consume, mbind, M_bind. change 0 with (len (@nil Z)).
  by rewrite (take_bytes_app c [] (chunk c) Hc eq_refl).
Qed.
Lemma cursor_int_ok p c :
  1 <= p <= 8 -> cur_ok c -> bytes_ok (chunk c) ->
  match p_int p (chunk c) with
  | Ok (n, rest) => exists used, chunk c = used ++ rest /\ used <> [] /\ 0 <= n < int_limit p /\
      cursor_int p c = (mkCursor (cbuf c) (pos c + len used), Ok n)
  | Err e => exists c', cursor_int p c = (c', Err e)
  | Panic => False
  end.
Proof.
  intros Hp Hc Hok. unfold p_int, cursor_int. pose proof (decode_int_cases p (chunk c) Hp Hok) as Hd.
  destruct (decode_int p (chunk c)) as [rest [n|e|]]; destruct Hd as (used & Hu & Hd); [|eauto|done].
  destruct Hd as (Hne & Hn & _). exists used. split_and!; try done; try lia. f_equal. f_equal.
  pose proof (chunk_len c Hc) as Hl. rewrite Hu, len_app in Hl. lia.
Qed.

(** Input that a well-formed decoder reads. *)
Definition st_ok (s : St) : Prop :=
  cur_ok (cur s) /\ bytes_ok (chunk (cur s)) /\ table_ok (table (dec s)) /\ buffer (dec s) = [].

Lemma st_ok_move s a b :
  st_ok s -> chunk (cur s) = a ++ b ->
  let c := mkCursor (cbuf (cur s)) (pos (cur s) + len a) in st_ok (mkSt (dec s) c (out s)) /\ chunk c = b.
Proof.
  intros (Hc & Hb & Ht & Hbuf) Hch. destruct (chunk_move (cur s) a b Hc Hch) as [Hc' Hch'].
  split; [|done]. split; [exact Hc'|]. split; [|done]. cbn [cur].
  rewrite Hch'. rewrite Hch in Hb. apply bytes_ok_app in Hb. exact (proj2 Hb).
Qed.
Definition kept (s s' : St) : Prop := table (dec s') = table (dec s) /\ out s' = out s.

(** A string is read by [try_decode_string] as the parser reads it; the marker says where. *)
Lemma try_decode_string_ok s :
  st_ok s ->
  match p_string (chunk (cur s)) with
  | Ok (str, rest) => exists pre raw,
      chunk (cur s) = pre ++ raw ++ rest /\ pre <> [] /\ bytes_ok str /\
      exists string, (string = Some str \/ string = None /\ str = raw) /\
      try_decode_string s =
        (mkSt (dec s) (mkCursor (cbuf (cur s)) (pos (cur s) + len pre + len raw)) (out s),
         Ok (mkMarker (len pre) (len raw) string))
  | Err e => exists s', try_decode_string s = (s', Err e) /\ kept s s'
  | Panic => False
  end.
Proof.
  intros Hs. pose proof Hs as (Hc & Hb & Ht & Hbuf). unfold try_decode_string.
  rewrite !(bind_ok get _ s s s eq_refl). unfold p_string, peek_u8.
  pose proof (cursor_int_ok 7 (cur s) ltac:(lia) Hc Hb) as Hint.
  unfold p_int in Hint. destruct (chunk (cur s)) as [|hdr t] eqn:Hch; cbn [head].
  { eexists. split; [reflexivity|by split]. }
  destruct (decode_int 7 (hdr :: t)) as [rest [n|e|]]; [|destruct Hint as [c' Hi]|done].
  2: { erewrite bind_err by (unfold on_cur; rewrite Hi; reflexivity). eexists. split; [done|by split]. }
  destruct Hint as (used & Hu & Hne & Hn & Hi).
  rewrite Hu in Hch. destruct (st_ok_move s used rest Hs Hch) as [Hs1 Hch1]. set (c1 := mkCursor _ _) in *.
  rewrite !(bind_ok (on_cur (cursor_int 7)) _ s (mkSt (dec s) c1 (out s)) n) by (unfold on_cur; by rewrite Hi).
  rewrite !(bind_ok get _ _ _ _ eq_refl). cbn [cur]. rewrite Hch1.
  destruct (Z.gtb_spec n (len rest)) as [Hgt|Hle].
  { eexists. split; [done|by split]. }
  set (raw := take (Z.to_nat n) rest). set (rest' := drop (Z.to_nat n) rest).
  assert (Hsplit : rest = raw ++ rest') by (unfold raw, rest'; by rewrite take_drop).
  assert (Hraw : len raw = n) by (apply len_take; lia).
  assert (Hrb : bytes_ok raw).
  { destruct Hs1 as (_ & Hb1 & _). cbn [cur] in Hb1. rewrite Hch1, Hsplit in Hb1. by apply bytes_ok_app in Hb1 as [? _]. }
  assert (Hadv : forall d o, on_cur (cursor_advance n) (mkSt d c1 o) =
    (mkSt d (mkCursor (cbuf (cur s)) (pos (cur s) + len used + len raw)) o, Ok tt)).
  { intros d o. unfold on_cur. cbn [cur dec out]. rewrite <- Hraw.
    rewrite (cursor_advance_app c1 raw rest'); [done|apply Hs1|by rewrite Hch1]. }
  assert (Hoff : pos c1 - pos (cur s) = len used) by (unfold c1; simpl; lia). rewrite Hoff.
  destruct (Z.land hdr HUFF_FLAG =? HUFF_FLAG).
  - destruct (huff_decode_total raw [] Hrb) as (buf' & r & Hd & Hr).
    assert (Hh : huffman raw (mkSt (dec s) c1 (out s)) =
      (mkSt (mkDecoder (max_size_update (dec s)) (last_max_update (dec s)) (table (dec s)) buf') c1 (out s), Ok r)).
    { unfold huffman. cbn [dec]. rewrite Hbuf, Hd. destruct Hr as [-> | (str & -> & _)]; done. }
    rewrite !(bind_ok _ _ _ _ _ Hh), !(bind_ok _ _ _ _ _ (Hadv _ _)), Hd. cbn [snd].
    destruct Hr as [-> | (str & -> & -> & Hstr)]; cbn [mbind outcome_bind].
    + eexists. split; [done|]. by split.
    + exists used, raw. split_and!; [by rewrite Hu, Hsplit|done|done|]. exists (Some str). split; [by left|].
      unfold lift, fmap, outcome_fmap. cbn [app]. rewrite Hraw, <- Hbuf. by destruct (dec s).
  - exists used, raw. split_and!; [by rewrite Hu, Hsplit|done|done|]. exists None. split; [by right|].
    rewrite (bind_ok _ _ _ _ _ (Hadv _ _)). unfold mret, M_ret. by rewrite Hraw.
Qed.

Lemma marker_consume_ok c pre raw rest str o :
  cur_ok c -> chunk c = pre ++ raw ++ rest -> (o = Some str \/ o = None /\ str = raw) ->
  exists c', marker_consume (mkMarker (len pre) (len raw) o) c = (c', Ok str) /\ cur_ok c' /\ chunk c' = rest.
Proof.
  intros Hc Hch Hstr. unfold marker_consume, mbind at 1, M_bind. cbn [offset string slen].
  rewrite (cursor_advance_app c pre (raw ++ rest) Hc Hch).
  destruct (chunk_move c pre (raw ++ rest) Hc Hch) as [Hc1 Hch1]. set (c1 := mkCursor _ _) in *.
  destruct Hstr as [-> | [-> ->]].
  - unfold mbind, M_bind. rewrite (cursor_advance_app c1 raw rest Hc1 Hch1).
    eexists. split; [done|]. by apply chunk_move.
  - rewrite (take_bytes_app c1 raw rest Hc1 Hch1). eexists. split; [done|]. split; [|done].
    unfold cur_ok. simpl. pose proof (len_nonneg rest). lia.
Qed.

(** What a reading step does, against the parser's answer. *)
Definition reads {A} (s : St) (m : M St DecoderError A) (p : outcome DecoderError (A * bytes)) : Prop :=
  match p with
  | Ok (a, rest) => exists c' used, m s = (mkSt (dec s) c' (out s), Ok a) /\ cur_ok c' /\ chunk c' = rest /\
      chunk (cur s) = used ++ rest /\ used <> []
  | Err e => exists s', m s = (s', Err e) /\ kept s s'
  | Panic => False
  end.
Lemma st_ok_at s c a : st_ok s -> cur_ok c -> chunk (cur s) = a ++ chunk c -> st_ok (mkSt (dec s) c (out s)).
Proof.
  intros (_ & Hb & Ht & Hbuf) Hc Hch. split; [exact Hc|]. split; [|done]. cbn [cur].
  rewrite Hch in Hb. by apply bytes_ok_app in Hb as [_ ?].
Qed.
Lemma kept_trans s c o s' : kept (mkSt (dec s) c o) s' -> o = out s -> kept s s'.
Proof. intros [H1 H2] ->. by split. Qed.

Lemma on_cur_int_reads s p : 1 <= p <= 8 -> st_ok s -> reads s (on_cur (cursor_int p)) (p_int p (chunk (cur s))).
Proof.
  intros Hp Hs. pose proof Hs as (Hc & Hb & _). pose proof (cursor_int_ok p (cur s) Hp Hc Hb) as H.
  unfold reads. destruct (p_int p (chunk (cur s))) as [[n rest]|e|]; [| |done].
  - destruct H as (used & Hu & Hne & _ & Hi). destruct (chunk_move (cur s) used rest Hc Hu) as [Hc' Hch'].
    exists (mkCursor (cbuf (cur s)) (pos (cur s) + len used)), used. split_and!; try done; try apply Hc'.
    unfold on_cur. by rewrite Hi.
  - destruct H as [c' Hi]. eexists. split; [unfold on_cur; by rewrite Hi|by split].
Qed.
Lemma p_int_bound p r n rest : 1 <= p <= 8 -> bytes_ok r -> p_int p r = Ok (n, rest) -> 0 <= n.
Proof.
  intros Hp Hr H. unfold p_int in H. pose proof (decode_int_cases p r Hp Hr) as Hd.
  destruct (decode_int p r) as [rest' [m|e|]]; [|done..]. injection H as -> ->.
  destruct Hd as (_ & _ & _ & Hd & _). lia.
Qed.

Lemma decode_string_reads s : st_ok s -> reads s decode_string (p_string (chunk (cur s))).
Proof.
  intros Hs. pose proof (try_decode_string_ok s Hs) as H. unfold reads, decode_string.
  rewrite !(bind_ok get _ s s s eq_refl).
  destruct (p_string (chunk (cur s))) as [[str rest]|e|]; [| |done].
  - destruct H as (pre & raw & Hch & Hne & _ & o & Ho & Ht). rewrite (bind_ok _ _ _ _ _ Ht).
    rewrite (bind_ok _ _ _ (mkSt (dec s) (cur s) (out s)) tt) by (unfold set_position; simpl; by destruct (cur s)).
    destruct (marker_consume_ok (cur s) pre raw rest str o (proj1 Hs) Hch Ho) as (c' & Hm & Hc' & Hr).
    exists c', (pre ++ raw). unfold on_cur. cbn [cur]. rewrite Hm. rewrite <- app_assoc.
    repeat split; try done; [apply Hc'..|]. by destruct pre.
  - destruct H as (s' & Ht & Hk). rewrite (bind_err _ _ _ _ _ Ht). eauto.
Qed.

(** The name and the value of a literal whose name is spelled out. *)
Definition read_pair : M St DecoderError (bytes * bytes) :=
  s ← get;
  let old_pos := pos (cur s) in
  name_marker ← try_decode_string;
  value_marker ← try_decode_string;
  set_position old_pos ;;
  name ← on_cur (marker_consume name_marker);
  value ← on_cur (marker_consume value_marker);
  mret (name, value).
Definition p_pair (r : bytes) : outcome DecoderError ((bytes * bytes) * bytes) :=
  '(name, r) ← p_string r;
  '(value, r) ← p_string r;
  Ok ((name, value), r).
Lemma read_pair_reads s : st_ok s -> reads s read_pair (p_pair (chunk (cur s))).
Proof.
  intros Hs. pose proof (try_decode_string_ok s Hs) as H. unfold reads, read_pair, p_pair.
  rewrite !(bind_ok get _ s s s eq_refl).
  destruct (p_string (chunk (cur s))) as [[name r1]|e|]; cbn [mbind outcome_bind]; [| |done].
  2: { destruct H as (s' & Ht & Hk). rewrite (bind_err _ _ _ _ _ Ht). eauto. }
  destruct H as (pre & raw & Hch & Hne & _ & o & Ho & Ht). rewrite !(bind_ok _ _ _ _ _ Ht).
  assert (Hch' : chunk (cur s) = (pre ++ raw) ++ r1) by by rewrite <- app_assoc.
  destruct (st_ok_move s _ _ Hs Hch') as [Hs1 Hc1]. rewrite len_app, Z.add_assoc in Hs1, Hc1.
  set (s1 := mkSt _ _ _) in *. pose proof (try_decode_string_ok s1 Hs1) as H. cbn [cur s1] in H. rewrite Hc1 in H.
  destruct (p_string r1) as [[value r2]|e|]; [| |done].
  2: { destruct H as (s' & Ht2 & Hk). rewrite (bind_err _ _ _ _ _ Ht2). exists s'. split; [done|]. by apply kept_trans in Hk. }
  destruct H as (pre2 & raw2 & Hch2 & _ & _ & o2 & Ho2 & Ht2). rewrite !(bind_ok _ _ _ _ _ Ht2).
  rewrite (bind_ok _ _ _ (mkSt (dec s) (cur s) (out s)) tt) by (unfold set_position; simpl; by destruct (cur s)).
  destruct (marker_consume_ok (cur s) pre raw r1 name o (proj1 Hs) Hch Ho) as (c1 & Hm1 & Hcc1 & Hr1).
  destruct (marker_consume_ok c1 pre2 raw2 r2 value o2 Hcc1) as (c2 & Hm2 & Hcc2 & Hr2); [by rewrite Hr1|done|].
  rewrite (bind_ok _ _ _ (mkSt (dec s) c1 (out s)) name) by (unfold on_cur; cbn [cur]; by rewrite Hm1).
  rewrite (bind_ok _ _ _ (mkSt (dec s) c2 (out s)) value) by (unfold on_cur; cbn [cur]; by rewrite Hm2).
  exists c2, ((pre ++ raw) ++ pre2 ++ raw2). rewrite Hch', Hch2, <- !app_assoc.
  repeat split; try done; [apply Hcc2..|]. by destruct pre.
Qed.

(** Steps compose as the parser's do. *)
Lemma reads_bind {A B} s (m : M St DecoderError A) (k : A -> M St DecoderError B) p q :
  reads s m p ->
  (forall a rest c', cur_ok c' -> chunk c' = rest -> p = Ok (a, rest) ->
     st_ok (mkSt (dec s) c' (out s)) -> reads (mkSt (dec s) c' (out s)) (k a) (q a rest) \/
     exists b, k a (mkSt (dec s) c' (out s)) = (mkSt (dec s) c' (out s), b) /\
       match b with Ok b => q a rest = Ok (b, rest) | Err e => q a rest = Err e | Panic => False end) ->
  st_ok s ->
  reads s (mbind k m) ('(a, rest) ← p; q a rest).
Proof.
  intros Hm Hk Hs. unfold reads in Hm. destruct p as [[a rest]|e|]; cbn [mbind outcome_bind]; [| |done].
  2: { destruct Hm as (s' & Hm & Hkept). exists s'. by rewrite (bind_err _ _ _ _ _ Hm). }
  destruct Hm as (c' & used & Hm & Hc' & Hr & Hch & Hne).
  assert (Hs' : st_ok (mkSt (dec s) c' (out s))) by (apply (st_ok_at s c' used); [done|done|by rewrite Hr]).
  destruct (Hk a rest c' Hc' Hr eq_refl Hs') as [H | (b & Hb & H)]; unfold reads; rewrite (bind_ok _ _ _ _ _ Hm).
  - unfold reads in H. cbn [cur dec out] in H. rewrite Hr in H. destruct (q a rest) as [[b rest']|e|]; [| |done].
    + destruct H as (c2 & used2 & Hk2 & Hc2 & Hr2 & Hch2 & _). exists c2, (used ++ used2).
      rewrite Hch, Hch2, <- app_assoc. repeat split; try done; [apply Hc2..|]. by destruct used.
    + destruct H as (s' & H1 & H2). exists s'. split; [done|]. by apply kept_trans in H2.
  - rewrite Hb. destruct b as [b|e|]; [| |done]; rewrite H.
    + exists c', used. split; [done|]. split; [apply Hc'|]. done.
    + eexists. split; [done|by split].
Qed.

Lemma pure_lift {A B} s (o : outcome DecoderError B) (rest : A) :
  o <> Panic ->
  exists b, lift o s = (s : St, b) /\
    match b with
    | Ok b => (h ← o; Ok (h, rest)) = Ok (b, rest)
    | Err e => (h ← o; Ok (h, rest)) = Err e
    | Panic => False
    end.
Proof. intros Ho. exists o. split; [done|]. by destruct o. Qed.

Lemma literal_pair s :
  (s0 ← get;
   let old_pos := pos (cur s0) in
   name_marker ← try_decode_string;
   value_marker ← try_decode_string;
   set_position old_pos ;;
   name ← on_cur (marker_consume name_marker);
   value ← on_cur (marker_consume value_marker);
   lift (header_new name value)) s = ('(name, value) ← read_pair; lift (header_new name value)) s.
Proof.
  unfold read_pair, mbind, M_bind, get.
  destruct (try_decode_string s) as [s1 [nm| |]]; [|done..].
  destruct (try_decode_string s1) as [s2 [vm| |]]; [|done..].
  destruct (set_position _ s2) as [s3 [[]| |]]; [|done..].
  destruct (on_cur _ s3) as [s4 [n| |]]; [|done..].
  by destruct (on_cur _ s4) as [s5 [v| |]].
Qed.
Lemma p_pair_bind r (k : bytes -> bytes -> outcome DecoderError (Header bytes)) :
  ('(name, r) ← p_string r; '(value, r) ← p_string r; h ← k name value; Ok (h, r)) =
  ('(nv, r) ← p_pair r; h ← k nv.1 nv.2; Ok (h, r)).
Proof.
  unfold p_pair. destruct (p_string r) as [[n r1]| |]; cbn [mbind outcome_bind]; [|done..].
  by destruct (p_string r1) as [[v r2]| |].
Qed.

Lemma decode_literal_reads s idx :
  st_ok s -> reads s (decode_literal idx) (p_literal (table (dec s)) idx (chunk (cur s))).
Proof.
  intros Hs. unfold decode_literal, p_literal.
  apply (reads_bind s _ _ _ (fun i r => if i =? 0 then _ else _)); [|intros i r c' Hc' Hr Hi Hs'|done].
  { apply on_cur_int_reads; [destruct idx; lia|done]. }
  assert (Hi0 : 0 <= i) by (eapply (p_int_bound (if idx then 6 else 4)); [destruct idx; lia| |exact Hi]; apply Hs).
  destruct (Z.eqb_spec i 0).
  - left. rewrite p_pair_bind. unfold reads. rewrite !literal_pair.
    apply (reads_bind _ read_pair (fun '(n, v) => lift (header_new n v)) _ (fun nv r => h ← header_new nv.1 nv.2; Ok (h, r)));
      [rewrite <- Hr; by apply (read_pair_reads (mkSt (dec s) c' (out s)))| |done].
    intros [n v] r2 c2 _ _ _ _. right. apply pure_lift, header_new_total.
  - unfold table_lookup. destruct (table_get_cases (table (dec s)) i Hi0) as [Hg | (e & Hg)]; rewrite Hg; cbn [mbind outcome_bind].
    + right. exists (Err InvalidTableIndex). split; [|done]. apply bind_err. cbn [dec]. by rewrite Hg.
    + left. unfold reads. rewrite !(bind_ok _ _ (mkSt (dec s) c' (out s)) (mkSt (dec s) c' (out s)) e) by (cbn [dec]; by rewrite Hg).
      apply (reads_bind _ decode_string (fun v => lift (into_entry (header_name e) v)) _ (fun v r => h ← into_entry (header_name e) v; Ok (h, r)));
        [rewrite <- Hr; by apply (decode_string_reads (mkSt (dec s) c' (out s)))| |done].
      intros v r2 c2 _ _ _ _. right. apply pure_lift, into_entry_total.
Qed.
Lemma decode_indexed_reads s :
  st_ok s -> reads s decode_indexed ('(i, r) ← p_int 7 (chunk (cur s)); h ← table_get (table (dec s)) i; Ok (h, r)).
Proof.
  intros Hs. unfold decode_indexed.
  apply (reads_bind s _ _ _ (fun i r => h ← table_get (table (dec s)) i; Ok (h, r)));
    [by apply on_cur_int_reads; [lia|]| |done].
  intros i r c' Hc' Hr Hi Hs'.
  assert (Hi0 : 0 <= i) by (eapply (p_int_bound 7); [lia| |exact Hi]; apply Hs).
  right. unfold table_lookup. cbn [dec]. eexists. split; [done|].
  by destruct (table_get_cases (table (dec s)) i Hi0) as [-> | (e & ->)].
Qed.

(** The end of a turn: the block leaves the buffer, the header goes to the callback. *)
Lemma finish_ok d c o h (b : bool) :
  cur_ok c ->
  (on_cur consume ;; yield h ;; mret b) (mkSt d c o) = (mkSt d (mkCursor (chunk c) 0) (o ++ [h]), Ok b).
Proof.
  intros Hc. rewrite (bind_ok _ _ _ (mkSt d (mkCursor (chunk c) 0) o) tt); [done|].
  unfold on_cur. cbn [cur]. by rewrite consume_ok.
Qed.
Lemma st_ok_consumed d c o t o' :
  st_ok (mkSt d c o) -> table_ok t ->
  st_ok (mkSt (mkDecoder (max_size_update d) (last_max_update d) t (buffer d)) (mkCursor (chunk c) 0) o').
Proof.
  intros (Hc & Hb & Ht & Hbuf) Ht'. split; [|done]. unfold cur_ok. cbn. pose proof (len_nonneg (chunk c)). lia.
Qed.

Definition turn (s : St) (m : M St DecoderError bool) (p : outcome DecoderError (option (Header bytes) * Table * bool * bytes)) : Prop :=
  match p with
  | Ok (h, t', cr', rest) => exists s' used, m s = (s', Ok cr') /\ st_ok s' /\ chunk (cur s') = rest /\
      table (dec s') = t' /\ last_max_update (dec s') = last_max_update (dec s) /\
      out s' = out s ++ option_list h /\ chunk (cur s) = used ++ rest /\ used <> []
  | Err e => exists s', m s = (s', Err e) /\ kept s s'
  | Panic => False
  end.

(** A block that carries a header and may enter the table. *)
Lemma turn_header s (m : M St DecoderError (Header bytes)) p (ins : bool) :
  st_ok s -> reads s m p ->
  turn s (entry ← m; (if ins then on_table (table_insert entry) else mret tt) ;; on_cur consume ;; yield entry ;; mret false)
    ('(h, r) ← p;
     if ins then _ ← (table_insert h (table (dec s))).2; Ok (Some h, (table_insert h (table (dec s))).1, false, r)
     else Ok (Some h, table (dec s), false, r)).
Proof.
  intros Hs Hm. unfold reads in Hm. destruct p as [[h r]|e|]; cbn [mbind outcome_bind]; [| |done].
  2: { destruct Hm as (s' & Hm & Hk). exists s'. by rewrite (bind_err _ _ _ _ _ Hm). }
  destruct Hm as (c' & used & Hm & Hc' & Hr & Hch & Hne).
  assert (Hs' : st_ok (mkSt (dec s) c' (out s))) by (apply (st_ok_at s c' used); [done|done|by rewrite Hr]).
  destruct (table_insert_fit h (table (dec s))) as (t' & Hins & Hok & _); [apply Hs|].
  unfold turn. destruct ins; rewrite ?Hins; cbn [fst snd mbind outcome_bind]; rewrite (bind_ok _ _ _ _ _ Hm).
  - rewrite (bind_ok _ _ _ (mkSt (mkDecoder (max_size_update (dec s)) (last_max_update (dec s)) t' (buffer (dec s))) c' (out s)) tt)
      by (unfold on_table; cbn [dec]; by rewrite Hins).
    rewrite (finish_ok _ c') by done. eexists _, used. split; [done|]. split; [by apply (st_ok_consumed _ _ (out s))|].
    cbn. by rewrite Hr.
  - rewrite (bind_ok _ _ _ (mkSt (dec s) c' (out s)) tt) by done. rewrite (finish_ok _ c') by done.
    eexists _, used. split; [done|]. split; [|cbn; by rewrite Hr].
    pose proof (st_ok_consumed _ _ _ (table (dec s)) (out s ++ [h]) Hs' ltac:(apply Hs)) as H. by destruct (dec s).
Qed.
Lemma unit_bind {B} (k : M St DecoderError B) s : (mret tt ;; k) s = k s.
Proof. done. Qed.

Lemma decode_one_turn s ty cr :
  st_ok s -> head (chunk (cur s)) = Some ty ->
  turn s (decode_one ty cr) (p_block (last_max_update (dec s)) (table (dec s)) cr (chunk (cur s))).
Proof.
  intros Hs Hty. destruct (chunk (cur s)) as [|b r] eqn:Hch; [done|]. injection Hty as ->.
  unfold p_block. assert (Hb : is_u8 ty).
  { destruct Hs as (_ & Hb & _). rewrite Hch in Hb. by inversion Hb. }
  destruct (load_total ty Hb) as (rep & Hl). rewrite Hl. cbn [mbind outcome_bind]. rewrite <- Hch.
  assert (Hone : forall k : Representation -> M St DecoderError bool, (r ← lift (load ty); k r) s = k rep s)
    by (intros k; apply bind_ok; unfold lift; by rewrite Hl).
  unfold turn, decode_one. rewrite !Hone. fold (turn s).
  destruct rep.
  - pose proof (turn_header s _ _ false Hs (decode_indexed_reads s Hs)) as H. cbv iota in H.
    destruct (p_int 7 _) as [[i r']|e|]; [|exact H..]. cbn [mbind outcome_bind] in H |- *.
    destruct (table_get _ i); exact H.
  - exact (turn_header s _ _ true Hs (decode_literal_reads s true Hs)).
  - exact (turn_header s _ _ false Hs (decode_literal_reads s false Hs)).
  - exact (turn_header s _ _ false Hs (decode_literal_reads s false Hs)).
  - destruct cr; cbn [negb]; [|eexists; split; [done|by split]].
    unfold process_size_update. pose proof (on_cur_int_reads s 5 ltac:(lia) Hs) as Hi. unfold reads in Hi.
    destruct (p_int 5 (chunk (cur s))) as [[n r']|e|] eqn:Hp; cbn [mbind outcome_bind]; [| |done].
    2: { destruct Hi as (s' & Hm & Hk). exists s'. split; [|done].
         apply bind_err, bind_err. exact Hm. }
    destruct Hi as (c' & used & Hm & Hc' & Hr & Hu & Hne).
    assert (Hn : 0 <= n) by (eapply (p_int_bound 5); [lia| |exact Hp]; apply Hs).
    assert (Hs' : st_ok (mkSt (dec s) c' (out s))) by (apply (st_ok_at s c' used); [done|done|by rewrite Hr]).
    destruct (n >? last_max_update (dec s)) eqn:Hgt.
    { exists (mkSt (dec s) c' (out s)). split; [|by split]. apply bind_err. rewrite (bind_ok _ _ _ _ _ Hm).
      rewrite (bind_ok get _ _ _ _ eq_refl). cbn [dec]. by rewrite Hgt. }
    destruct (set_max_size_fit n (table (dec s))) as (t' & Hset & Hok & _); [apply Hs|done|]. rewrite Hset. cbn [fst snd].
    eexists _, used. split.
    { rewrite (bind_ok _ _ _ (mkSt (mkDecoder (max_size_update (dec s)) (last_max_update (dec s)) t' (buffer (dec s))) c' (out s)) tt).
      - rewrite (bind_ok _ _ _ (mkSt (mkDecoder (max_size_update (dec s)) (last_max_update (dec s)) t' (buffer (dec s))) (mkCursor (chunk c') 0) (out s)) tt);
          [done|]. unfold on_cur. cbn [cur]. by rewrite consume_ok.
      - rewrite (bind_ok _ _ _ _ _ Hm), (bind_ok get _ _ _ _ eq_refl). cbn [dec]. rewrite Hgt.
        unfold on_table. cbn [dec]. by rewrite Hset. }
    split; [by apply (st_ok_consumed _ _ (out s))|]. cbn. rewrite app_nil_r. by rewrite Hr.
Qed.

Lemma decode_loop_blocks fuel cr s :
  st_ok s -> (length (chunk (cur s)) < fuel)%nat ->
  let '(hs, t', res) := p_blocks fuel (last_max_update (dec s)) (table (dec s)) cr (chunk (cur s)) in
  exists s', decode_loop fuel cr s = (s', res) /\ out s' = out s ++ hs /\ table (dec s') = t' /\ table_ok t' /\
    res <> Panic /\ (res = Ok tt -> st_ok s' /\ chunk (cur s') = []).
Proof.
  revert cr s. induction fuel as [|f IH]; intros cr s Hs Hf; [lia|]. cbn [p_blocks decode_loop].
  unfold peek_u8. destruct (chunk (cur s)) as [|ty r] eqn:Hch; cbn [head].
  { exists s. rewrite app_nil_r. repeat split; try done; apply Hs. }
  pose proof (decode_one_turn s ty cr Hs ltac:(by rewrite Hch)) as H. rewrite Hch in H. unfold turn in H.
  destruct (p_block _ _ cr (ty :: r)) as [[[[h t'] cr'] rest]|e|]; [| |done].
  - destruct H as (s1 & used & H1 & Hs1 & Hr1 & <- & Hlm & Ho1 & Hu & Hne). rewrite (bind_ok _ _ _ _ _ H1).
    assert (Hlt : (length (chunk (cur s1)) < f)%nat).
    { rewrite Hr1. assert (Hl := f_equal length Hu). rewrite Hch in Hu. apply (f_equal length) in Hu.
      rewrite length_app in Hu. simpl in Hu, Hf. destruct used; [done|]. simpl in Hu. lia. }
    specialize (IH cr' s1 Hs1 Hlt). rewrite Hlm, Hr1 in IH.
    destruct (p_blocks f _ _ cr' rest) as [[hs t2] res]. destruct IH as (s2 & H2 & Ho2 & Ht2 & Hok & Hnp & Hfin).
    exists s2. rewrite Ho2, Ho1, <- app_assoc. done.
  - destruct H as (s' & H1 & Ht & Ho). rewrite (bind_err _ _ _ _ _ H1). exists s'. rewrite app_nil_r.
    repeat split; try done; apply Hs.
Qed.

Lemma decode_runs s :
  st_ok s ->
  let '(hs, t', res) :=
    p_headers (default (last_max_update (dec s)) (max_size_update (dec s))) (table (dec s)) (chunk (cur s)) in
  exists s', decode s = (s', res) /\ out s' = out s ++ hs /\ table (dec s') = t' /\ table_ok t' /\
    res <> Panic /\ (res = Ok tt -> chunk (cur s') = [] /\ buffer (dec s') = []).
Proof.
  intros Hs. unfold decode, p_headers.
  set (s0 := mkSt _ (cur s) (out s)).
  assert (Hs0 : st_ok s0) by (unfold s0; destruct Hs as (? & ? & ? & ?); destruct (max_size_update (dec s)); done).
  pose proof (decode_loop_blocks (S (length (chunk (cur s)))) true s0 Hs0 ltac:(cbn; lia)) as H.
  assert (E1 : last_max_update (dec s0) = default (last_max_update (dec s)) (max_size_update (dec s)))
    by (unfold s0; cbn; by destruct (max_size_update (dec s))).
  assert (E2 : table (dec s0) = table (dec s)) by (unfold s0; cbn; by destruct (max_size_update (dec s))).
  rewrite E1, E2 in H. cbn [cur s0] in H.
  destruct (p_blocks _ _ _ true _) as [[hs t'] res]. destruct H as (s' & Hd & Ho & Ht & Hok & Hnp & Hfin).
  exists s'. do 5 (split; [assumption|]). intros Hres. by destruct (Hfin Hres) as [(_ & _ & _ & Hbuf) Hch].
Qed.
End Decoder.

(** *** Properties *)

(** C12: the decoder over its cursor, with string markers, repositioning and the bytes it splits
    off its buffer, computes exactly what the pure parser of header blocks does: the same headers
    in the same order, the same dynamic table, the same error; it always ends, never panics, and
    consumes the whole input when it succeeds. *)
Theorem hpack_decoder_refines `{FT : FieldTypes} (s : St) :
  st_ok s ->
  let last_max := default (last_max_update (dec s)) (max_size_update (dec s)) in
  let '(hs, t', res) := p_headers last_max (table (dec s)) (chunk (cur s)) in
  exists s', decode s = (s', res) /\ out s' = out s ++ hs /\ table (dec s') = t' /\ table_ok t' /\
    res <> Panic /\ (res = Ok tt -> chunk (cur s') = [] /\ buffer (dec s') = []).
Proof.
  apply decode_runs.
Qed.
(** The first request of RFC 7541, C.4.1: four headers, one of them new in the table. *)
Definition sample_block : bytes := [130; 134; 132; 65; 140; 241; 227; 194; 229; 242; 58; 107; 160; 171; 144; 244; 255].
Definition sample_st : St := mkSt (decoder_new 4096) (mkCursor sample_block 0) [].
Lemma hpack_decoder_refines_witness :
  st_ok sample_st /\
  exists s', decode sample_st = (s', Ok tt) /\
    out s' = [HMethod GET; Scheme (bs "http"); Path (bs "/"); Authority (bs "www.example.com")].
Proof.
  assert (Hok : st_ok sample_st).
  { split; [split; vm_compute; congruence|]. split; [apply (bool_decide_unpack _); vm_compute; exact I|].
    split; [split; vm_compute; congruence|reflexivity]. }
  split; [exact Hok|]. pose proof (hpack_decoder_refines sample_st Hok) as H.
  assert (Hp : p_headers 4096 (table_new 4096) sample_block =
    ([HMethod GET; Scheme (bs "http"); Path (bs "/"); Authority (bs "www.example.com")],
     mkTable [Authority (bs "www.example.com")] 57 4096, Ok tt)) by (vm_compute; reflexivity).
  change (p_headers _ _ _) with (p_headers 4096 (table_new 4096) sample_block) in H. rewrite Hp in H.
  destruct H as (s' & Hd & Ho & _). exists s'. split; [exact Hd|exact Ho].
Defined.
