(* ===== verification/HpackEncoder.v ===== *)
(** * The HPACK encoder (http/src/h2/proto/hpack/encoder.rs)

    Strings, header representations and table size updates as the encoder writes them, against
    the parser of HpackDecoder.v.  Which representation is written is left open here: any choice
    that is right about the decoder's table is read back.  HpackIndex.v models the table that
    chooses, HpackSync.v shows that its choices are right. *)

From S2P Require Import Prelude Http HpackInt HpackHuffTable HpackHuffman HpackHeader HpackTable HpackDecoder.

(** [Index] and the slots it refers to (hpack/table.rs). *)
Inductive Index :=
| IIndexed (n : Z) (h : Header bytes)
| IName (n : Z) (h : Header bytes)
| IInserted (slot : Z)
| IInsertedValue (n slot : Z)
| INotIndexed (h : Header bytes).
Record Slot := mkSlot { s_hash : Z; s_header : Header bytes; s_next : option Z }.
Definition DYN_OFFSET : Z := 62.
(** [Table::resolve] and [Table::resolve_idx]; [None] is the panic of an index out of range. *)
Definition resolve (slots : list Slot) (index : Index) : option (Header bytes) :=
  match index with
  | IIndexed _ h => Some h
  | IName _ h => Some h
  | IInserted idx => s_header <$> slots !! Z.to_nat idx
  | IInsertedValue _ idx => s_header <$> slots !! Z.to_nat idx
  | INotIndexed h => Some h
  end.
Definition resolve_idx (index : Index) : option Z :=
  match index with
  | IIndexed idx _ => Some idx
  | IName idx _ => Some idx
  | IInserted idx => Some (idx + DYN_OFFSET)
  | IInsertedValue _ slot_idx => Some (slot_idx + DYN_OFFSET)
  | INotIndexed _ => None
  end.

(** *** Strings *)

(** [dst[i] = b]. *)
Definition store (i b : Z) (dst : bytes) : option bytes :=
  if (0 <=? i) && (i <? len dst) then Some (<[Z.to_nat i := b]> dst) else None.
(** [for i in 0..huff_len]: shift the string behind its head, last byte first. *)
Fixpoint shift_forward (n : nat) (i idx head_len huff_len : Z) (dst : bytes) : option bytes :=
  match n with
  | O => Some dst
  | S n =>
      let src_i := idx + 1 + (huff_len - (i + 1)) in
      let dst_i := idx + head_len + (huff_len - (i + 1)) in
      b ← dst !! Z.to_nat src_i;
      dst ← store dst_i b dst;
      shift_forward n (i + 1) idx head_len huff_len dst
  end.
(** [for i in 0..head_len]: copy in the head. *)
Fixpoint copy_head (buf : bytes) (i : Z) (dst : bytes) : option bytes :=
  match buf with
  | [] => Some dst
  | b :: buf => dst ← store i b dst; copy_head buf (i + 1) dst
  end.
Definition PLACEHOLDER_LEN : Z := 8.
(** [encode_str]: the length is known only after the string was written. *)
Definition encode_str (val dst : bytes) : option bytes :=
  if negb (bool_decide (val = [])) then
    let idx := len dst in
    let dst := huff_encode val (dst ++ [0]) in
    let huff_len := len dst - (idx + 1) in
    if encode_int_one_byte huff_len 7 then store idx (Z.lor 128 (wrap 8 huff_len)) dst
    else
      let head := encode_int huff_len 7 128 [] in
      if len head >? PLACEHOLDER_LEN then None
      else
        let head_len := len head in
        let dst := dst ++ drop 1 head in
        dst ← shift_forward (Z.to_nat huff_len) 0 idx head_len huff_len dst;
        copy_head head idx dst
  else Some (dst ++ [0]).

Section Encoder.
Context `{FT : FieldTypes}.

Definition encode_size_update (val : Z) (dst : bytes) : bytes := encode_int val 5 32 dst.
Definition encode_not_indexed (name : Z) (value : bytes) (sensitive : bool) (dst : bytes) : option bytes :=
  encode_str value (encode_int name 4 (if sensitive then 16 else 0) dst).
Definition encode_not_indexed2 (name value : bytes) (sensitive : bool) (dst : bytes) : option bytes :=
  dst ← encode_str name (dst ++ [if sensitive then 16 else 0]);
  encode_str value dst.

(** [Encoder::encode_header]; a failed [assert!] is [None]. *)
Definition encode_header (slots : list Slot) (index : Index) (dst : bytes) : option bytes :=
  match index with
  | IIndexed idx _ => Some (encode_int idx 7 128 dst)
  | IName idx _ =>
      h ← resolve slots index;
      encode_not_indexed idx (value_slice h) (is_sensitive h) dst
  | IInserted _ =>
      h ← resolve slots index;
      if is_sensitive h then None
      else
        dst ← encode_str (name_slice (header_name h)) (dst ++ [64]);
        encode_str (value_slice h) dst
  | IInsertedValue idx _ =>
      h ← resolve slots index;
      if is_sensitive h then None
      else encode_str (value_slice h) (encode_int idx 6 64 dst)
  | INotIndexed _ =>
      h ← resolve slots index;
      encode_not_indexed2 (name_slice (header_name h)) (value_slice h) (is_sensitive h) dst
  end.
(** [Encoder::encode_header_without_name]: a further value of the previous header. *)
Definition encode_header_without_name (slots : list Slot) (last : Index) (value : HeaderValue) (dst : bytes) : option bytes :=
  match last with
  | IIndexed _ _ | IName _ _ | IInserted _ | IInsertedValue _ _ =>
      idx ← resolve_idx last;
      encode_not_indexed idx (v_bytes value) (v_sensitive value) dst
  | INotIndexed _ =>
      h ← resolve slots last;
      encode_not_indexed2 (name_slice (header_name h)) (v_bytes value) (v_sensitive value) dst
  end.
End Encoder.

(** *** Size updates *)

Inductive SizeUpdate := One (n : Z) | Two (min max : Z).
(** [Encoder::update_max_size], [max] the current maximum of the encoder's table. *)
Definition update_max_size (max val : Z) (u : option SizeUpdate) : option SizeUpdate :=
  match u with
  | Some (One old) =>
      if val >? old then
        if old >? max then Some (One val) else Some (Two old val)
      else Some (One val)
  | Some (Two min _) => if val <? min then Some (One val) else Some (Two min val)
  | None => if negb (val =? max) then Some (One val) else None
  end.
(** [Encoder::encode_size_updates], [resize] being the encoder's [Table::resize]: the pending update
    is taken, the table resized and the updates written. *)
Definition encode_size_updates {T} (resize : Z -> T -> T) (e : option SizeUpdate * T) (dst : bytes) :
  (option SizeUpdate * T) * bytes :=
  let '(u, t) := e in
  match u with
  | Some (One val) => ((None, resize val t), encode_size_update val dst)
  | Some (Two min max) =>
      ((None, resize max (resize min t)), encode_size_update max (encode_size_update min dst))
  | None => ((None, t), dst)
  end.
(** The maxima it signals. *)
Definition size_updates (u : option SizeUpdate) : list Z :=
  match u with Some (One val) => [val] | Some (Two min max) => [min; max] | None => [] end.
Lemma encode_size_updates_signals {T} (resize : Z -> T -> T) u t dst :
  encode_size_updates resize (u, t) dst =
    ((None, fold_left (fun t n => resize n t) (size_updates u) t),
     fold_left (fun dst val => encode_size_update val dst) (size_updates u) dst).
Proof. by destruct u as [[]|]. Qed.

(** *** Strings decode back *)

Lemma store_mid p b x r : store (len p) b (p ++ x :: r) = Some (p ++ b :: r).
Proof.
  unfold store. rewrite len_app, len_cons. pose proof (len_nonneg p). pose proof (len_nonneg r).
  rewrite (proj2 (Z.leb_le _ _)), (proj2 (Z.ltb_lt _ _)) by lia. simpl. f_equal.
  unfold len. rewrite Nat2Z.id. by rewrite insert_app_r_alt, Nat.sub_diag by lia.
Qed.
Lemma copy_head_spec head p old r :
  length old = length head -> copy_head head (len p) (p ++ old ++ r) = Some (p ++ head ++ r).
Proof.
  revert p old. induction head as [|b head IH]; intros p [|o old] Hl; try done. cbn [copy_head app].
  rewrite store_mid. cbn [mbind option_bind]. replace (len p + 1) with (len (p ++ [b])) by (rewrite len_app; done).
  replace (p ++ b :: old ++ r) with ((p ++ [b]) ++ old ++ r) by by rewrite <- app_assoc.
  rewrite IH by (simpl in Hl; lia). by rewrite <- app_assoc.
Qed.
(** Moving [a] behind [mid], last byte first. *)
Lemma shift_forward_spec a p x mid c head_len huff_len :
  len mid = head_len - 1 -> huff_len = len a + len c ->
  exists mid', len mid' = len mid /\
    shift_forward (length a) (len c) (len p) head_len huff_len (p ++ [x] ++ a ++ mid ++ c) =
    Some (p ++ [x] ++ mid' ++ a ++ c).
Proof.
  revert mid c. induction a as [|b a IH] using rev_ind; intros mid c Hm Hh; [by exists mid|].
  rewrite len_app in Hh. change (len [b]) with 1 in Hh.
  rewrite length_app, Nat.add_comm. cbn [length Nat.add shift_forward].
  replace (len p + 1 + (huff_len - (len c + 1))) with (len (p ++ [x] ++ a)) by (autorewrite with len; lia).
  assert (Hlk : (p ++ [x] ++ (a ++ [b]) ++ mid ++ c) !! Z.to_nat (len (p ++ [x] ++ a)) = Some b).
  { replace (p ++ [x] ++ (a ++ [b]) ++ mid ++ c) with ((p ++ [x] ++ a) ++ b :: mid ++ c) by (by rewrite <- !app_assoc).
    unfold len. rewrite Nat2Z.id. by rewrite list_lookup_middle. }
  rewrite Hlk. cbn [mbind option_bind].
  (* the position behind the last of [b :: mid] takes [b] *)
  assert (Hst : exists mid', len mid' = len mid /\
    store (len p + head_len + (huff_len - (len c + 1))) b (p ++ [x] ++ (a ++ [b]) ++ mid ++ c) =
    Some (p ++ [x] ++ a ++ mid' ++ b :: c)).
  { destruct mid as [|m mid _] using rev_ind.
    - exists []. split; [done|]. change (len (@nil Z)) with 0 in Hm.
      replace (len p + head_len + _) with (len (p ++ [x] ++ a)) by (autorewrite with len; lia).
      replace (p ++ [x] ++ (a ++ [b]) ++ [] ++ c) with ((p ++ [x] ++ a) ++ b :: c) by (by rewrite <- !app_assoc).
      rewrite store_mid. by rewrite <- !app_assoc.
    - exists (b :: mid). rewrite len_app in Hm. change (len [m]) with 1 in Hm. split; [autorewrite with len; lia|].
      replace (len p + head_len + _) with (len (p ++ [x] ++ a ++ b :: mid)) by (autorewrite with len; lia).
      replace (p ++ [x] ++ (a ++ [b]) ++ (mid ++ [m]) ++ c) with ((p ++ [x] ++ a ++ b :: mid) ++ m :: c)
        by (rewrite <- !app_assoc; simpl; by rewrite <- ?app_assoc).
      rewrite store_mid, <- !app_assoc. simpl. by rewrite <- ?app_assoc. }
  destruct Hst as (mid1 & Hl1 & ->). cbn [mbind option_bind].
  replace (len c + 1) with (len (b :: c)) by (rewrite len_cons; lia).
  destruct (IH mid1 (b :: c)) as (mid2 & Hl2 & He); [lia|rewrite len_cons; lia|].
  exists mid2. split; [lia|]. rewrite He. by rewrite <- app_assoc.
Qed.

Lemma bits_per_byte b : is_u8 b -> (length (code b) <= 30)%nat.
Proof.
  intros Hb. destruct (encode_table_ok b Hb) as (n & c & He & Hn & _). unfold code. rewrite He.
  cbn [from_option]. unfold id. rewrite bits_of_length. lia.
Qed.
Lemma codes_length s : bytes_ok s -> (length (codes s) <= 30 * length s)%nat.
Proof.
  induction 1 as [|b s Hb Hs IH]; [done|]. change (codes (b :: s)) with (code b ++ codes s).
  rewrite length_app. pose proof (bits_per_byte b Hb). simpl. lia.
Qed.
Lemma byte_bits_length w : length (byte_bits w) = (8 * length w)%nat.
Proof.
  induction w as [|b w IH]; [done|]. change (byte_bits (b :: w)) with (bits_of 8 b ++ byte_bits w).
  rewrite length_app, bits_of_length, IH. simpl. lia.
Qed.
(** The coded string: at most four bytes per byte. *)
Lemma huff_encode_facts s dst : bytes_ok s ->
  exists w, huff_encode s dst = dst ++ w /\ bytes_ok w /\ len w <= 4 * len s /\ huff_decode w [] = ([], Ok s).
Proof.
  intros Hs. destruct (huff_encode_bits s dst Hs) as (w & k & He & Hw & Hk & Hb).
  exists w. split_and!; try done.
  - apply (f_equal length) in Hb. rewrite byte_bits_length, length_app, length_replicate in Hb.
    pose proof (codes_length s Hs). unfold len. destruct s as [|? [|? [|? ?]]]; simpl length in *; lia.
  - change s with ([] ++ s). apply huff_decode_iff; [done|]. eauto.
Qed.

Definition str_limit : Z := 2 ^ 26.

Lemma encode_rest_length fuel v : (length (encode_rest fuel v) <= fuel)%nat.
Proof. revert v. induction fuel as [|f IH]; intros v; [done|]. cbn [encode_rest]. case_match; simpl; [|lia]. specialize (IH (Z.shiftr v 7)). lia. Qed.
Lemma encode_rest_small v : 0 <= v < 2 ^ 28 -> (1 <= length (encode_rest 10 v) <= 4)%nat.
Proof.
  intros Hv. cbn [encode_rest]. rewrite !Z.shiftr_div_pow2 by lia.
  destruct (Z.leb_spec 128 v); [|simpl; lia].
  assert (v / 2 ^ 7 < 2 ^ 21) by (apply Z.div_lt_upper_bound; lia).
  destruct (Z.leb_spec 128 (v / 2 ^ 7)); [|simpl; lia].
  assert (v / 2 ^ 7 / 2 ^ 7 < 2 ^ 14) by (apply Z.div_lt_upper_bound; lia).
  destruct (Z.leb_spec 128 (v / 2 ^ 7 / 2 ^ 7)); [|simpl; lia].
  assert (v / 2 ^ 7 / 2 ^ 7 / 2 ^ 7 < 2 ^ 7) by (apply Z.div_lt_upper_bound; lia).
  destruct (Z.leb_spec 128 (v / 2 ^ 7 / 2 ^ 7 / 2 ^ 7)); [lia|simpl; lia].
Qed.

(** [encode_str] leaves the buffer and appends the head and the coded string. *)
Lemma encode_str_layout val dst w :
  val <> [] -> huff_encode val (dst ++ [0]) = (dst ++ [0]) ++ w -> len w < int_limit 7 ->
  encode_str val dst = Some (dst ++ encode_int (len w) 7 128 [] ++ w).
Proof.
  intros Hv Hw Hlim. unfold encode_str. rewrite bool_decide_false by done. cbn [negb]. rewrite Hw.
  assert (Hl : len ((dst ++ [0]) ++ w) - (len dst + 1) = len w) by (autorewrite with len; lia). rewrite Hl.
  unfold encode_int. destruct (encode_int_one_byte (len w) 7) eqn:E.
  - rewrite <- app_assoc. simpl. apply store_mid.
  - change (Z.shiftl 1 7 - 1) with 127. rewrite app_nil_l. set (rest := encode_rest 10 (len w - 127)).
    set (head := Z.lor 128 (wrap 8 127) :: rest).
    assert (Hr : (1 <= length rest <= 4)%nat).
    { apply encode_rest_small. unfold encode_int_one_byte in E. change (Z.shiftl 1 7 - 1) with 127 in E.
      unfold int_limit in Hlim. change (2 ^ 7 - 1) with 127 in Hlim. lia. }
    assert (Hh : len head = 1 + len rest) by apply len_cons.
    assert (Hgt : (len head >? PLACEHOLDER_LEN) = false) by (unfold PLACEHOLDER_LEN, len in *; lia).
    rewrite Hgt. change (drop 1 head) with rest.
    destruct (shift_forward_spec w dst 0 rest [] (len head) (len w)) as (mid & Hm & He); [lia|change (len (@nil Z)) with 0; lia|].
    change (len (@nil Z)) with 0 in He. rewrite !app_nil_r in He.
    assert (Hn : Z.to_nat (len w) = length w) by (unfold len; lia). rewrite Hn.
    replace (((dst ++ [0]) ++ w) ++ rest) with (dst ++ [0] ++ w ++ rest) by by rewrite <- !app_assoc.
    rewrite He. cbn [mbind option_bind]. replace (dst ++ [0] ++ mid ++ w) with (dst ++ ([0] ++ mid) ++ w) by by rewrite <- !app_assoc.
    apply copy_head_spec. simpl. unfold len in Hm. lia.
Qed.

Lemma encode_int_head v p first : exists t, encode_int v p first [] =
  Z.lor first (wrap 8 (if encode_int_one_byte v p then v else Z.shiftl 1 p - 1)) :: t.
Proof. unfold encode_int. destruct (encode_int_one_byte v p); by eexists. Qed.
Lemma encode_int_app v p first dst : encode_int v p first dst = dst ++ encode_int v p first [].
Proof. unfold encode_int. by destruct (encode_int_one_byte v p). Qed.
Lemma p_int_encode v p first rest :
  1 <= p <= 8 -> flag_byte p first -> 0 <= v < int_limit p -> p_int p (encode_int v p first [] ++ rest) = Ok (v, rest).
Proof.
  intros Hp Hf Hv. destruct (decode_encode_int v p first [] rest Hp Hf Hv) as (w & -> & _ & Hd). unfold p_int.
  cbn [app]. by rewrite Hd.
Qed.

(** A string, as the encoder writes it, is read back by the parser. *)
Lemma encode_str_parses val dst :
  bytes_ok val -> len val <= str_limit ->
  exists w, encode_str val dst = Some (dst ++ w) /\ w <> [] /\ forall rest, p_string (w ++ rest) = Ok (val, rest).
Proof.
  intros Hok Hl. destruct (decide (val = [])) as [->|Hne].
  { exists [0]. split; [done|]. split; [done|]. intros rest.
    assert (Hz : (0 >? len rest) = false) by (pose proof (len_nonneg rest); lia).
    change (p_string ([0] ++ rest)) with
      (if 0 >? len rest then @Err DecoderError (bytes * bytes) (ENeedMore StringUnderflow) else Ok (take 0 rest, drop 0 rest)).
    by rewrite Hz. }
  destruct (huff_encode_facts val (dst ++ [0]) Hok) as (w & He & Hw & Hlw & Hd).
  assert (Hlim : len w < int_limit 7) by (unfold int_limit, str_limit in *; lia).
  exists (encode_int (len w) 7 128 [] ++ w). split_and!; [by apply encode_str_layout| |].
  - destruct (encode_int_head (len w) 7 128) as (t & ->). done.
  - intros rest. pose proof (len_nonneg w).
    pose proof (p_int_encode (len w) 7 128 (w ++ rest) ltac:(lia) ltac:(split; [split; vm_compute; congruence|done]) ltac:(lia)) as Hi.
    unfold p_string, p_int in *. rewrite <- app_assoc.
    destruct (encode_int_head (len w) 7 128) as (t & Ht). rewrite Ht in *. cbn [app] in *.
    destruct (decode_int 7 _) as [r [n|e|]]; [|done..]. injection Hi as -> ->.
    assert (Hgt : (len w >? len (w ++ rest)) = false) by (rewrite len_app; pose proof (len_nonneg rest); lia).
    assert (Hn : Z.to_nat (len w) = length w) by (unfold len; lia).
    rewrite Hgt, Hn, take_app_length, drop_app_length, Hd.
    set (v := if encode_int_one_byte _ _ then _ else _).
    assert (Hv : 0 <= v) by (unfold v; destruct (encode_int_one_byte _ _); [lia|done]).
    unfold HUFF_FLAG. destruct (cont_byte v Hv) as [_ ->]. done.
Qed.

(** What is written are bytes. *)
Lemma encode_rest_bytes fuel v : bytes_ok (encode_rest fuel v).
Proof.
  revert v. induction fuel as [|f IH]; intros v; [constructor|]. cbn [encode_rest].
  case_match; constructor; [apply lor_fits; [lia|split; vm_compute; congruence|apply u8_mod]|apply IH|apply u8_mod|constructor].
Qed.
Lemma encode_int_bytes v p first dst : is_u8 first -> bytes_ok dst -> bytes_ok (encode_int v p first dst).
Proof.
  intros Hf Hd. assert (Hb : forall x, is_u8 (Z.lor first (wrap 8 x))) by (intros x; apply lor_fits; [lia|done|apply u8_mod]).
  unfold encode_int. case_match; apply bytes_ok_app; (split; [done|]); constructor; [apply Hb|constructor|apply Hb|apply encode_rest_bytes].
Qed.
Lemma encode_str_bytes val dst o :
  bytes_ok val -> len val <= str_limit -> bytes_ok dst -> encode_str val dst = Some o -> bytes_ok o.
Proof.
  intros Hok Hl Hd He. destruct (decide (val = [])) as [->|Hne].
  { cbn in He. injection He as <-. apply bytes_ok_app. split; [done|]. constructor; [split; vm_compute; congruence|constructor]. }
  destruct (huff_encode_facts val (dst ++ [0]) Hok) as (w & Hh & Hw & Hlw & _).
  rewrite (encode_str_layout val dst w Hne Hh) in He by (unfold int_limit, str_limit in *; lia). injection He as <-.
  apply bytes_ok_app. split; [done|]. apply bytes_ok_app. split; [|done].
  apply encode_int_bytes; [split; vm_compute; congruence|constructor].
Qed.

(** *** Blocks decode back *)

Section Roundtrip.
Context `{FT : FieldTypes}.

(** The representation is right about the decoder's table: an index names an entry with the
    field's name, or the whole field. *)
Definition index_ok (t : Table) (slots : list Slot) (index : Index) (h : Header bytes) : Prop :=
  resolve slots index = Some h /\
  match index with
  | IIndexed n _ => 0 <= n < int_limit 7 /\ exists e, table_get t n = Ok e /\ wire e = wire h
  | IName n _ => 0 < n < int_limit 4 /\ exists e, table_get t n = Ok e /\ header_name e = header_name h
  | IInserted _ => is_sensitive h = false
  | IInsertedValue n _ => is_sensitive h = false /\ 0 < n < int_limit 6 /\
      exists e, table_get t n = Ok e /\ header_name e = header_name h
  | INotIndexed _ => True
  end.
Definition indexes (index : Index) : bool :=
  match index with IInserted _ | IInsertedValue _ _ => true | _ => false end.
(** The field as the decoder rebuilds it (never marked sensitive), and its table after the block. *)
Definition rebuilt (h : Header bytes) : Header bytes :=
  match header_new (name_slice (header_name h)) (value_slice h) with Ok h' => h' | _ => h end.
Definition after (t : Table) (index : Index) (h : Header bytes) : Table :=
  if indexes index then (table_insert (rebuilt h) t).1 else t.
(** Fields whose strings fit the decoder's integers. *)
Definition field_small (h : Header bytes) : Prop :=
  bytes_ok (wire h).1 /\ bytes_ok (wire h).2 /\ len (wire h).1 <= str_limit /\ len (wire h).2 <= str_limit.

Lemma load_first v p first rep :
  0 <= v -> (p = 4 \/ p = 5 \/ p = 6 \/ p = 7) ->
  (forall x, 0 <= x < 2 ^ p -> load (Z.lor first x) = Ok rep) ->
  exists b t, encode_int v p first [] = b :: t /\ load b = Ok rep.
Proof.
  intros Hv Hp Hl. destruct (encode_int_head v p first) as (t & ->). eexists _, t. split; [done|]. apply Hl.
  unfold encode_int_one_byte. rewrite Z.shiftl_mul_pow2 by lia.
  unfold wrap. destruct (Z.ltb_spec v (1 * 2 ^ p - 1));
    destruct Hp as [-> | [-> | [-> | ->]]]; rewrite Z.mod_small; simpl in *; lia.
Qed.
Lemma load_bits first p rep :
  forallb (fun n => bool_decide (load (Z.lor first (Z.of_nat n)) = Ok rep)) (seq 0 (Z.to_nat (2 ^ p))) = true ->
  forall x, 0 <= x < 2 ^ p -> load (Z.lor first x) = Ok rep.
Proof.
  rewrite forallb_forall. intros H x Hx. specialize (H (Z.to_nat x) ltac:(apply in_seq; lia)).
  apply bool_decide_eq_true in H. by rewrite Z2Nat.id in H by lia.
Qed.

Lemma p_literal_name t (ins : bool) w1 w2 n v h' rest :
  (forall r, p_string (w1 ++ r) = Ok (n, r)) -> (forall r, p_string (w2 ++ r) = Ok (v, r)) ->
  header_new n v = Ok h' ->
  forall b, (b = if ins then 64 else 0) \/ (ins = false /\ b = 16) ->
  p_literal t ins (b :: w1 ++ w2 ++ rest) = Ok (h', rest).
Proof.
  intros H1 H2 Hn b Hb. unfold p_literal.
  assert (Hi : p_int (if ins then 6 else 4) (b :: w1 ++ w2 ++ rest) = Ok (0, w1 ++ w2 ++ rest))
    by (destruct Hb as [-> | [-> ->]]; [destruct ins|]; reflexivity).
  rewrite Hi. cbn [mbind outcome_bind]. change (0 =? 0) with true. cbv iota. rewrite H1. cbn [mbind outcome_bind].
  rewrite H2. cbn [mbind outcome_bind]. by rewrite Hn.
Qed.
Lemma p_literal_indexed t (ins : bool) first n e w v h' rest :
  let p := if ins then 6 else 4 in
  flag_byte p first -> 0 < n < int_limit p -> table_get t n = Ok e ->
  (forall r, p_string (w ++ r) = Ok (v, r)) -> into_entry (header_name e) v = Ok h' ->
  p_literal t ins (encode_int n p first [] ++ w ++ rest) = Ok (h', rest).
Proof.
  intros p Hf Hn Hg Hw He. unfold p_literal. fold p. rewrite p_int_encode by (done || (unfold p; destruct ins; lia) || lia).
  cbn [mbind outcome_bind]. rewrite (proj2 (Z.eqb_neq _ _)) by lia. rewrite Hg. cbn [mbind outcome_bind].
  rewrite Hw. cbn [mbind outcome_bind]. by rewrite He.
Qed.

Ltac flags := split; [split; vm_compute; congruence|reflexivity].
(** One header: what the encoder appends is one block, read back as the same field. *)
Lemma encode_header_block t slots index h dst :
  table_ok t -> index_ok t slots index h -> header_ok h -> field_small h ->
  exists w h', encode_header slots index dst = Some (dst ++ w) /\ w <> [] /\ wire h' = wire h /\
    forall last_max cr rest, p_block last_max t cr (w ++ rest) = Ok (Some h', after t index h, false, rest).
Proof.
  intros Ht [Hres Hidx] (h0 & Hnew & Hname) (Hb1 & Hb2 & Hl1 & Hl2).
  pose proof (header_new_wire _ _ _ Hnew) as Hwire. unfold wire in Hb1, Hb2, Hl1, Hl2. cbn [fst snd] in Hb1, Hb2, Hl1, Hl2.
  pose proof (header_new_into_entry _ _ _ Hnew Hname) as Hinto.
  assert (Hreb : rebuilt h = h0) by (unfold rebuilt; by rewrite Hnew).
  unfold encode_header. rewrite Hres. cbn [mbind option_bind]. unfold after. rewrite Hreb. destruct index as [n h1|n h1|slot|n slot|h1]; cbn [indexes].
  - destruct Hidx as (Hn & e & Hg & He). exists (encode_int n 7 128 []), e. rewrite <- encode_int_app.
    destruct (load_first n 7 128 Indexed) as (b & tl & Hb & Hload); [lia|auto|apply load_bits; vm_compute; reflexivity|].
    split_and!; [done|by rewrite Hb|done|]. intros lm cr rest.
    pose proof (p_int_encode n 7 128 rest ltac:(lia) ltac:(flags) Hn) as Hi. rewrite Hb in *. cbn [app] in *.
    unfold p_block. rewrite Hload. cbn [mbind outcome_bind]. rewrite Hi. cbn [mbind outcome_bind]. by rewrite Hg.
  - destruct Hidx as (Hn & e & Hg & He). unfold encode_not_indexed. set (first := if is_sensitive h then 16 else 0).
    destruct (encode_str_parses (value_slice h) (encode_int n 4 first dst) Hb2 Hl2) as (w & -> & Hw & Hp).
    exists (encode_int n 4 first [] ++ w), h0. rewrite (encode_int_app _ _ _ dst), <- app_assoc.
    assert (Hfl : flag_byte 4 first) by (unfold first; destruct (is_sensitive h); flags).
    destruct (load_first n 4 first (if is_sensitive h then LiteralNeverIndexed else LiteralWithoutIndexing)) as (b & tl & Hb & Hload);
      [lia|auto|apply load_bits; unfold first; destruct (is_sensitive h); vm_compute; reflexivity|].
    split_and!; [done|by rewrite Hb|by rewrite Hwire|]. intros lm cr rest. rewrite <- app_assoc.
    pose proof (p_literal_indexed t false first n e w (value_slice h) h0 rest Hfl Hn Hg Hp ltac:(by rewrite He)) as Hlit.
    cbv iota zeta in Hlit. rewrite Hb in *. cbn [app] in *. unfold p_block. rewrite Hload. cbn [mbind outcome_bind].
    destruct (is_sensitive h); rewrite Hlit; done.
  - rewrite Hidx. destruct (encode_str_parses _ (dst ++ [64]) Hb1 Hl1) as (w1 & -> & Hw1 & Hp1). cbn [mbind option_bind].
    destruct (encode_str_parses _ ((dst ++ [64]) ++ w1) Hb2 Hl2) as (w2 & -> & Hw2 & Hp2).
    exists (64 :: w1 ++ w2), h0. rewrite <- !app_assoc. split_and!; [done|done|by rewrite Hwire|]. intros lm cr rest.
    pose proof (p_literal_name t true w1 w2 _ _ h0 rest Hp1 Hp2 Hnew 64 (or_introl eq_refl)) as Hlit.
    change ((64 :: w1 ++ w2) ++ rest) with (64 :: (w1 ++ w2) ++ rest). rewrite <- app_assoc.
    unfold p_block. change (load 64) with (@Ok DecoderError _ LiteralWithIndexing). cbn [mbind outcome_bind].
    rewrite Hlit. cbn [mbind outcome_bind]. destruct (table_insert_fit h0 t Ht) as (t' & Hi & _). by rewrite Hi.
  - destruct Hidx as (Hsens & Hn & e & Hg & He). rewrite Hsens.
    destruct (encode_str_parses (value_slice h) (encode_int n 6 64 dst) Hb2 Hl2) as (w & -> & Hw & Hp).
    exists (encode_int n 6 64 [] ++ w), h0. rewrite (encode_int_app _ _ _ dst), <- app_assoc.
    destruct (load_first n 6 64 LiteralWithIndexing) as (b & tl & Hb & Hload); [lia|auto|apply load_bits; vm_compute; reflexivity|].
    split_and!; [done|by rewrite Hb|by rewrite Hwire|]. intros lm cr rest. rewrite <- app_assoc.
    pose proof (p_literal_indexed t true 64 n e w (value_slice h) h0 rest ltac:(flags) Hn Hg Hp ltac:(by rewrite He)) as Hlit.
    cbv iota zeta in Hlit. rewrite Hb in *. cbn [app] in *. unfold p_block. rewrite Hload. cbn [mbind outcome_bind].
    rewrite Hlit. cbn [mbind outcome_bind]. destruct (table_insert_fit h0 t Ht) as (t' & Hi & _). by rewrite Hi.
  - unfold encode_not_indexed2. set (first := if is_sensitive h then 16 else 0).
    destruct (encode_str_parses _ (dst ++ [first]) Hb1 Hl1) as (w1 & -> & Hw1 & Hp1). cbn [mbind option_bind].
    destruct (encode_str_parses _ ((dst ++ [first]) ++ w1) Hb2 Hl2) as (w2 & -> & Hw2 & Hp2).
    exists (first :: w1 ++ w2), h0. rewrite <- !app_assoc. split_and!; [done|done|by rewrite Hwire|]. intros lm cr rest.
    pose proof (p_literal_name t false w1 w2 _ _ h0 rest Hp1 Hp2 Hnew first) as Hlit.
    change ((first :: w1 ++ w2) ++ rest) with (first :: (w1 ++ w2) ++ rest). rewrite <- app_assoc.
    unfold p_block, first in *. destruct (is_sensitive h).
    + change (load 16) with (@Ok DecoderError _ LiteralNeverIndexed). cbn [mbind outcome_bind]. by rewrite Hlit by auto.
    + change (load 0) with (@Ok DecoderError _ LiteralWithoutIndexing). cbn [mbind outcome_bind]. by rewrite Hlit by auto.
Qed.

(** A further value of the field [nm] sent last. *)
Definition last_ok (t : Table) (slots : list Slot) (last : Index) (nm : bytes) : Prop :=
  match last with
  | INotIndexed h => header_name h = NField nm
  | _ => exists n e, resolve_idx last = Some n /\ 0 < n < int_limit 4 /\ table_get t n = Ok e /\ header_name e = NField nm
  end.
(** It is written as the field itself would be, by name. *)
Lemma without_name_as_header t slots last nm value dst :
  last_ok t slots last nm ->
  exists index, indexes index = false /\ index_ok t slots index (Field nm value) /\
    encode_header_without_name slots last value dst = encode_header slots index dst.
Proof.
  intros Hlast. destruct last as [n h|n h|slot|n slot|h]; cbn in Hlast;
    [destruct Hlast as (m & e & Hm & Hn & Hg & He); exists (IName m (Field nm value)).. | exists (INotIndexed (Field nm value))];
    unfold index_ok, encode_header_without_name, encode_header; cbn [resolve resolve_idx mbind option_bind value_slice is_sensitive header_name];
    try (split; [done|]; split; [split; [done|]; split; [done|by exists e]|]; cbn in Hm; by injection Hm as ->).
  split; [done|]. split; [done|]. by rewrite Hlast.
Qed.

(** The header blocks the encoder writes for a list of headers, and the decoder's table after
    each: the representation of a field may be any that is right at that point. *)
Inductive emits : Table -> list (Header bytes) -> bytes -> Table -> Prop :=
| emits_nil t : emits t [] [] t
| emits_field t slots index h hs w w' t' :
    index_ok t slots index h -> header_ok h -> field_small h -> encode_header slots index [] = Some w ->
    emits (after t index h) hs w' t' ->
    emits t (h :: hs) (w ++ w') t'
| emits_value t slots last nm value hs w w' t' :
    last_ok t slots last nm -> header_ok (Field nm value) -> field_small (Field nm value) ->
    encode_header_without_name slots last value [] = Some w ->
    emits t hs w' t' ->
    emits t (Field nm value :: hs) (w ++ w') t'.

Lemma encode_header_bytes slots index h dst o :
  resolve slots index = Some h -> field_small h -> bytes_ok dst -> encode_header slots index dst = Some o -> bytes_ok o.
Proof.
  intros Hres (Hb1 & Hb2 & Hl1 & Hl2) Hd. unfold wire in Hb1, Hb2, Hl1, Hl2. cbn [fst snd] in Hb1, Hb2, Hl1, Hl2.
  assert (Hu : is_u8 0 /\ is_u8 16 /\ is_u8 64 /\ is_u8 128) by (repeat split; vm_compute; congruence).
  destruct Hu as (H0 & H16 & H64 & H128).
  assert (Hfirst : is_u8 (if is_sensitive h then 16 else 0)) by by destruct (is_sensitive h).
  assert (Hsnoc : forall b, is_u8 b -> bytes_ok (dst ++ [b])) by (intros b Hb; apply bytes_ok_app; split; [done|by constructor]).
  unfold encode_header. rewrite Hres. cbn [mbind option_bind]. destruct index; unfold encode_not_indexed, encode_not_indexed2.
  - intros [= <-]. by apply encode_int_bytes.
  - apply encode_str_bytes; [done|done|]. by apply encode_int_bytes.
  - destruct (is_sensitive h); [done|]. destruct (encode_str _ (dst ++ [64])) as [d1|] eqn:E; [|done].
    apply encode_str_bytes; [done|done|]. eapply encode_str_bytes; [| | |exact E]; auto.
  - destruct (is_sensitive h); [done|]. apply encode_str_bytes; [done|done|]. by apply encode_int_bytes.
  - destruct (encode_str _ (dst ++ [_])) as [d1|] eqn:E; [|done].
    apply encode_str_bytes; [done|done|]. eapply encode_str_bytes; [| | |exact E]; auto.
Qed.
Lemma emits_bytes t hs w t' : emits t hs w t' -> bytes_ok w.
Proof.
  induction 1 as [t|t slots index h hs w w' t' Hidx Hok Hsm Hw _ IH|t slots last nm value hs w w' t' Hlast Hok Hsm Hw _ IH].
  - constructor.
  - apply bytes_ok_app. split; [|done]. eapply encode_header_bytes; [apply Hidx|done|constructor|done].
  - apply bytes_ok_app. split; [|done]. destruct (without_name_as_header t slots last nm value [] Hlast) as (index & _ & Hidx & Heq).
    rewrite Heq in Hw. eapply encode_header_bytes; [apply Hidx|done|constructor|done].
Qed.

Lemma after_ok t index h : table_ok t -> table_ok (after t index h).
Proof.
  intros Ht. unfold after. destruct (indexes index); [|done].
  by destruct (table_insert_fit (rebuilt h) t Ht) as (t' & -> & Hok & _).
Qed.
Lemma emits_parses t hs w t' :
  emits t hs w t' -> table_ok t -> forall fuel lm cr, (length w < fuel)%nat ->
  exists hs', p_blocks fuel lm t cr w = (hs', t', Ok tt) /\ wire <$> hs' = wire <$> hs.
Proof.
  induction 1 as [t|t slots index h hs w w' t' Hidx Hok Hsm Hw _ IH|t slots last nm value hs w w' t' Hlast Hok Hsm Hw _ IH];
    intros Ht fuel lm cr Hf.
  - exists []. by destruct fuel.
  - destruct (encode_header_block t slots index h [] Ht Hidx Hok Hsm) as (w1 & h' & Hw1 & Hne & Hwire & Hp).
    rewrite Hw in Hw1. injection Hw1 as ->. cbn [app] in *. rewrite length_app in Hf.
    destruct fuel as [|f]; [lia|]. assert (Hlt : (length w' < f)%nat) by (destruct w1; [done|simpl in Hf; lia]).
    destruct (IH (after_ok _ _ _ Ht) f lm false Hlt) as (hs' & Hb & Hm). exists (h' :: hs').
    cbn [p_blocks]. rewrite Hp, Hb. destruct w1; [done|]. cbn [app]. split; [done|]. rewrite !fmap_cons. by rewrite Hwire, Hm.
  - destruct (without_name_as_header t slots last nm value [] Hlast) as (index & Hnot & Hidx & Heq). rewrite Heq in Hw.
    destruct (encode_header_block t slots index _ [] Ht Hidx Hok Hsm) as (w1 & h' & Hw1 & Hne & Hwire & Hp).
    rewrite Hw in Hw1. injection Hw1 as ->. cbn [app] in *. rewrite length_app in Hf.
    destruct fuel as [|f]; [lia|]. assert (Hlt : (length w' < f)%nat) by (destruct w1; [done|simpl in Hf; lia]).
    destruct (IH Ht f lm false Hlt) as (hs' & Hb & Hm). exists (h' :: hs').
    assert (Ha : after t index (Field nm value) = t) by (unfold after; by rewrite Hnot). rewrite Ha in Hp.
    cbn [p_blocks]. rewrite Hp, Hb. destruct w1; [done|]. cbn [app]. split; [done|]. rewrite !fmap_cons. by rewrite Hwire, Hm.
Qed.

(** *** Size updates *)

(** A table resized to each maximum in turn. *)
Definition resized (t : Table) (l : list Z) : Table := fold_left (fun t n => (set_max_size n t).1) l t.
Lemma fit_fit a b l : fit a (fit b l) = fit (Z.min a b) l.
Proof.
  revert a b. induction l as [|h l IH]; intros a b; [done|]. cbn [fit].
  destruct (Z.leb_spec (header_len h) b), (Z.leb_spec (header_len h) (Z.min a b)); try lia; cbn [fit]; try done.
  - rewrite (proj2 (Z.leb_le _ _)) by lia. f_equal. rewrite IH. f_equal. lia.
  - by rewrite (proj2 (Z.leb_gt _ _)) by lia.
Qed.
Lemma table_eq t u : table_ok t -> table_ok u -> entries t = entries u -> max_size t = max_size u -> t = u.
Proof. destruct t, u. unfold table_ok. cbn. intros [-> _] [-> _] -> ->. done. Qed.

(** Least maximum and last maximum of a sequence. *)
Definition least (m : Z) (l : list Z) : Z := fold_left Z.min l m.
Lemma resized_spec t l :
  table_ok t -> Forall (Z.le 0) l ->
  table_ok (resized t l) /\ max_size (resized t l) = List.last l (max_size t) /\
  entries (resized t l) = fit (least (max_size t) l) (entries t).
Proof.
  revert t. induction l as [|n l IH] using rev_ind; intros t Ht Hl.
  - cbn. split_and!; [apply Ht..|done|]. symmetry. apply fit_all. destruct Ht as [<- ?]. done.
  - apply Forall_app in Hl as [Hl Hn]. inversion Hn as [|? ? Hn0 _]; subst.
    destruct (IH t Ht Hl) as (Hok & Hmax & Hent). unfold resized, least in *. rewrite !fold_left_app. cbn [fold_left].
    destruct (set_max_size_fit n _ Hok Hn0) as (t' & Hset & Hok' & Hm' & He'). rewrite Hset. cbn [fst].
    rewrite List.last_last. split; [done|]. split; [done|]. rewrite He', Hent, fit_fit. f_equal. lia.
Qed.

Lemma update_max_size_inv m vals :
  let u := fold_left (fun u v => update_max_size m v u) vals None in
  List.last (size_updates u) m = List.last vals m /\ least m (size_updates u) = least m vals /\
  match u with
  | Some (One _) => True
  | Some (Two lo hi) => lo <= m /\ lo <= hi
  | None => True
  end.
Proof.
  induction vals as [|v vals IH] using rev_ind; [done|]. cbv zeta in *. rewrite !fold_left_app. cbn [fold_left].
  destruct (fold_left _ vals None) as [[o|lo hi]|]; cbn [size_updates List.last] in IH; unfold least in *;
    rewrite ?fold_left_app; cbn [fold_left] in IH |- *; destruct IH as (H1 & H2 & H3); rewrite List.last_last, <- H2;
    unfold update_max_size, size_updates.
  - destruct (Z.gtb_spec v o); [destruct (Z.gtb_spec o m)|]; cbn; split_and!; try done; lia.
  - destruct (Z.ltb_spec v lo); cbn; split_and!; try done; lia.
  - destruct (Z.eqb_spec v m) as [->|]; cbn; split_and!; try done; lia.
Qed.
Lemma size_updates_bounded m hi vals :
  Forall (fun v => 0 <= v <= hi) vals ->
  Forall (fun v => 0 <= v <= hi) (size_updates (fold_left (fun u v => update_max_size m v u) vals None)).
Proof.
  induction vals as [|v vals IH] using rev_ind; [constructor|]. intros [Hl Hv]%Forall_app. inversion Hv as [|? ? Hv0 _]; subst.
  specialize (IH Hl). rewrite fold_left_app. cbn [fold_left].
  destruct (fold_left _ vals None) as [[o|lo hi']|]; cbn [size_updates] in IH; unfold update_max_size;
    repeat case_match; cbn [size_updates]; repeat (apply Forall_cons; split); try apply Forall_nil_2; try exact Hv0;
    by inversion IH.
Qed.
Lemma size_updates_resized t vals hi :
  table_ok t -> Forall (fun v => 0 <= v <= hi) vals ->
  resized t (size_updates (fold_left (fun u v => update_max_size (max_size t) v u) vals None)) = resized t vals.
Proof.
  intros Ht Hv. set (u := fold_left _ vals None).
  assert (Hin : Forall (fun v => 0 <= v <= hi) (size_updates u)) by (by apply size_updates_bounded).
  assert (Hpos : forall l, Forall (fun v => 0 <= v <= hi) l -> Forall (Z.le 0) l)
    by (intros l Hl; eapply Forall_impl; [exact Hl|]; cbn; lia).
  destruct (resized_spec t vals Ht (Hpos _ Hv)) as (H1 & H2 & H3).
  destruct (resized_spec t (size_updates u) Ht (Hpos _ Hin)) as (G1 & G2 & G3).
  destruct (update_max_size_inv (max_size t) vals) as (I1 & I2 & _). fold u in I1, I2.
  apply table_eq; try done; congruence.
Qed.
End Roundtrip.

(** The decoder reads a size update as the encoder wrote it. *)
Lemma p_block_size_update `{FT : FieldTypes} t lm v rest :
  table_ok t -> 0 <= v <= lm -> v < int_limit 5 ->
  p_block lm t true (encode_size_update v [] ++ rest) = Ok (None, (set_max_size v t).1, true, rest).
Proof.
  intros Ht Hv Hlim. unfold encode_size_update.
  pose proof (p_int_encode v 5 32 rest ltac:(lia) ltac:(split; [split; vm_compute; congruence|reflexivity]) ltac:(lia)) as Hi.
  destruct (load_first v 5 32 HpackInt.SizeUpdate) as (b & tl & Hb & Hload); [lia|auto|apply load_bits; vm_compute; reflexivity|].
  rewrite Hb in *. cbn [app] in *. unfold p_block. rewrite Hload. cbn [mbind outcome_bind negb]. rewrite Hi.
  cbn [mbind outcome_bind]. assert (Hgt : (v >? lm) = false) by lia. rewrite Hgt.
  by destruct (set_max_size_fit v t Ht) as (t' & -> & _); [lia|].
Qed.
Lemma p_blocks_size_updates `{FT : FieldTypes} l t lm fuel :
  table_ok t -> Forall (fun v => 0 <= v <= lm) l -> lm < int_limit 5 ->
  let w := fold_left (fun dst val => encode_size_update val dst) l [] in
  (length w < fuel)%nat -> p_blocks fuel lm t true w = ([], resized t l, Ok tt).
Proof.
  intros Ht Hl Hlim. cbv zeta.
  assert (Happ : forall l dst, fold_left (fun dst val => encode_size_update val dst) l dst =
    dst ++ fold_left (fun dst val => encode_size_update val dst) l []).
  { clear. induction l as [|v l IH]; intros dst; cbn [fold_left]; [by rewrite app_nil_r|].
    rewrite IH, (IH (encode_size_update v [])). unfold encode_size_update. rewrite (encode_int_app v 5 32 dst). by rewrite <- app_assoc. }
  revert t fuel Ht. induction Hl as [|v l Hv Hl IH]; intros t fuel Ht Hf; cbn [fold_left] in *; [by destruct fuel|].
  rewrite Happ in Hf |- *. rewrite length_app in Hf.
  destruct (encode_int_head v 5 32) as (tl & Hh). fold (encode_size_update v []) in Hh.
  destruct fuel as [|f]; [lia|]. assert (Hlt : (length (fold_left (fun dst val => encode_size_update val dst) l []) < f)%nat)
    by (rewrite Hh in Hf; simpl in Hf; lia).
  cbn [p_blocks]. rewrite p_block_size_update by (done || lia). rewrite IH; [| |done].
  - rewrite Hh. done.
  - destruct (set_max_size_fit v t Ht) as (t' & -> & Hok & _); [lia|done].
Qed.

(** *** Properties *)

(** String literals: for every string of up to 2^26 bytes the encoder, with its placeholder
    head and in-place shift, appends bytes from which the decoder's cursor reads that string back,
    leaving what follows. *)
Theorem hpack_str_roundtrip `{FT : FieldTypes} val dst rest d out :
  bytes_ok val -> len val <= str_limit -> bytes_ok rest -> table_ok (table d) -> buffer d = [] -> bytes_ok dst ->
  exists w, encode_str val dst = Some (dst ++ w) /\
    exists c', decode_string (mkSt d (mkCursor (w ++ rest) 0) out) = (mkSt d c' out, Ok val) /\ chunk c' = rest.
Proof.
  intros Hok Hl Hr Ht Hb Hd. destruct (encode_str_parses val dst Hok Hl) as (w & He & Hne & Hp).
  exists w. split; [done|].
  assert (Hw : bytes_ok w) by (pose proof (encode_str_bytes val dst _ Hok Hl Hd He) as Hw; by apply bytes_ok_app in Hw as [_ ?]).
  set (s := mkSt d (mkCursor (w ++ rest) 0) out).
  assert (Hch : chunk (cur s) = w ++ rest) by apply drop_0.
  assert (Hs : st_ok s).
  { split; [unfold cur_ok; cbn; pose proof (len_nonneg (w ++ rest)); lia|]. rewrite Hch.
    split; [by apply bytes_ok_app|done]. }
  pose proof (decode_string_reads s Hs) as H. rewrite Hch, Hp in H.
  destruct H as (c' & used & H1 & _ & H2 & _). by exists c'.
Qed.
Lemma hpack_str_roundtrip_witness :
  exists w, encode_str (bs "no-cache") [7] = Some ([7] ++ w) /\
    exists c', decode_string (mkSt (decoder_new 0) (mkCursor (w ++ [9]) 0) []) = (mkSt (decoder_new 0) c' [], Ok (bs "no-cache")) /\
      chunk c' = [9].
Proof.
  apply (hpack_str_roundtrip (bs "no-cache") [7] [9] (decoder_new 0) []).
  - apply bs_ok.
  - vm_compute. congruence.
  - apply (bool_decide_unpack _). vm_compute. exact I.
  - split; vm_compute; congruence.
  - reflexivity.
  - apply (bool_decide_unpack _). vm_compute. exact I.
Defined.

(** Header lists: whatever representations the encoder chooses for the fields, as long as
    each is right about the decoder's table at that point, the real decoder accepts the bytes and
    hands out the same fields (name and value) in the same order, and its table is the one the
    encoder reckons with. *)
Theorem hpack_headers_roundtrip `{FT : FieldTypes} d hs w t' :
  emits (table d) hs w t' -> table_ok (table d) -> buffer d = [] ->
  exists s', decode (mkSt d (mkCursor w 0) []) = (s', Ok tt) /\
    wire <$> out s' = wire <$> hs /\ table (dec s') = t' /\ chunk (cur s') = [].
Proof.
  intros He Ht Hb. set (s := mkSt d (mkCursor w 0) []).
  assert (Hch : chunk (cur s) = w) by apply drop_0.
  assert (Hs : st_ok s).
  { split; [unfold cur_ok; cbn; pose proof (len_nonneg w); lia|]. rewrite Hch. split; [by apply emits_bytes in He|done]. }
  pose proof (decode_runs s Hs) as H. unfold p_headers in H. rewrite Hch in H. cbn [dec s] in H.
  destruct (emits_parses _ _ _ _ He Ht (S (length w)) (default (last_max_update d) (max_size_update d)) true ltac:(lia)) as (hs' & Hp & Hm).
  rewrite Hp in H. destruct H as (s' & Hd & Ho & Htab & _ & _ & Hfin). exists s'. rewrite Ho. cbn [out s app].
  destruct (Hfin eq_refl) as [Hc _]. done.
Qed.
Definition sample_fields : list (Header bytes) := [HMethod GET; Field (bs "x-id") (mkValue (bs "42") true)].
Lemma hpack_headers_roundtrip_witness :
  exists w t' s', emits (table_new 4096) sample_fields w t' /\
    decode (mkSt (decoder_new 4096) (mkCursor w 0) []) = (s', Ok tt) /\ wire <$> out s' = wire <$> sample_fields.
Proof.
  assert (He : emits (table_new 4096) sample_fields ([130] ++ [16; 131; 242; 177; 164; 130; 104; 95] ++ []) (table_new 4096)).
  { apply (emits_field _ [] (IIndexed 2 (HMethod GET))).
    - split; [reflexivity|]. split; [unfold int_limit; lia|]. exists (HMethod GET). split; reflexivity.
    - exists (HMethod GET). split; reflexivity.
    - split; [apply bs_ok|]. split; [apply bs_ok|]. split; vm_compute; congruence.
    - vm_compute. reflexivity.
    - apply (emits_field _ [] (INotIndexed (Field (bs "x-id") (mkValue (bs "42") true)))); [split; [reflexivity|exact I]| | | |constructor].
      + eexists. split; reflexivity.
      + split; [apply bs_ok|]. split; [apply bs_ok|]. split; vm_compute; congruence.
      + vm_compute. reflexivity. }
  destruct (hpack_headers_roundtrip (decoder_new 4096) sample_fields _ _ He) as (s' & Hd & Ho & _);
    [split; vm_compute; congruence|reflexivity|].
  eexists _, _, s'. split; [exact He|]. split; [exact Hd|exact Ho].
Defined.

(** Table size updates: however often the maximum changes between two header blocks, the one
    or two updates the encoder writes leave the decoder's table (contents and maximum) exactly as
    applying every change in order would, and the encoder resizes its own table to the same maxima. *)
Theorem hpack_size_updates `{FT : FieldTypes} {T} (resize : Z -> T -> T) (e : T) t vals last_max :
  table_ok t -> Forall (fun v => 0 <= v <= last_max) vals -> last_max < int_limit 5 ->
  let u := fold_left (fun u v => update_max_size (max_size t) v u) vals None in
  let '((u', e'), w) := encode_size_updates resize (u, e) [] in
  p_headers last_max t w = ([], resized t vals, Ok tt) /\ u' = None /\
  exists l, (length l <= 2)%nat /\ e' = fold_left (fun e n => resize n e) l e /\ resized t l = resized t vals.
Proof.
  intros Ht Hv Hlim. cbv zeta. set (u := fold_left _ vals None).
  assert (Hin : Forall (fun v => 0 <= v <= last_max) (size_updates u)) by (by apply size_updates_bounded).
  rewrite encode_size_updates_signals. unfold p_headers. rewrite p_blocks_size_updates by (done || lia).
  pose proof (size_updates_resized t vals last_max Ht Hv) as Heq. fold u in Heq. rewrite Heq.
  split; [done|]. split; [done|]. exists (size_updates u). split; [by destruct u as [[]|]; cbn; lia|done].
Qed.
Lemma hpack_size_updates_witness :
  let t := mkTable [Path (bs "/a"); Path (bs "/b")] 78 4096 in
  let u := fold_left (fun u v => update_max_size 4096 v u) [100; 0; 2048] None in
  p_headers 4096 t (encode_size_updates Z.min (u, 4096) []).2 = ([], mkTable [] 0 2048, Ok tt).
Proof.
  cbv zeta. set (t := mkTable _ 78 4096).
  assert (Hok : table_ok t) by (split; vm_compute; congruence).
  pose proof (hpack_size_updates Z.min 4096 t [100; 0; 2048] 4096 Hok ltac:(repeat constructor; lia) ltac:(unfold int_limit; lia)) as H.
  exact (proj1 H).
Defined.
