(* ===== verification/HpackIndex.v ===== *)
(** * The HPACK encoder's table and the encoder (http/src/h2/proto/hpack/table.rs, encoder.rs)

    The dynamic table of the encoder: slots, newest first, and over them an open-addressing hash
    index with Robin Hood probing that maps a field name to its slots.  A slot is known by the
    number it had when it was inserted, counted down, so that shifting the slots does not
    change the index; slots with the same name are chained.  [None] stands for a panic: an
    index out of range, a failed assertion (those of debug builds included), an overflow. *)

From S2P Require Import Prelude Http HpackInt HpackHeader HpackTable HpackEncoder.

(** The hash of a name ([FnvHasher] over the derived [Hash]). *)
Class NameHash : Type := { hash_name : Name -> Z }.

(** [Pos]; the position of a slot and the hash of its name. *)
Record Pos : Type := mkPos { p_index : Z; p_hash : Z }.
#[global] Instance Pos_eq_dec : EqDecision Pos.
Proof. solve_decision. Defined.
(** [Table]. *)
Record ETable : Type := mkETable {
  mask : Z; indices : list (option Pos); slots : list Slot; inserted : Z; esize : Z; emax_size : Z }.

Definition with_indices (idx : list (option Pos)) (t : ETable) : ETable :=
  mkETable (mask t) idx (slots t) (inserted t) (esize t) (emax_size t).
Definition with_slots (l : list Slot) (t : ETable) : ETable :=
  mkETable (mask t) (indices t) l (inserted t) (esize t) (emax_size t).
Definition with_esize (n : Z) (t : ETable) : ETable :=
  mkETable (mask t) (indices t) (slots t) (inserted t) n (emax_size t).

(** [usize] arithmetic: [wrapping_add], [wrapping_sub] and the checked operators. *)
Definition uwrap (z : Z) : Z := wrap 64 z.
Definition uchk (z : Z) : option Z := if fitsb 64 z then Some z else None.
(** [assert!] and [debug_assert!]. *)
Definition assert (b : bool) : option unit := if b then Some tt else None.

Definition MAX_SIZE : Z := 2 ^ 16.
Definition usable_capacity (cap : nat) : nat := cap - cap / 4.
Definition to_raw_capacity (n : Z) : Z := n + n / 3.
Definition desired_pos (mask hash : Z) : nat := Z.to_nat (Z.land hash mask).
Definition probe_distance (mask hash : Z) (current : nat) : nat :=
  Z.to_nat (Z.land (uwrap (Z.of_nat current - Z.of_nat (desired_pos mask hash))) mask).

(** [Index::new]. *)
Definition index_new (v : option (Z * bool)) (e : Header bytes) : Index :=
  match v with
  | None => INotIndexed e
  | Some (n, true) => IIndexed n e
  | Some (n, false) => IName n e
  end.

(** The names of [index_static]. *)
Definition static_names : list (bytes * Z) :=
  [(bs "accept-charset", 15); (bs "accept-encoding", 16); (bs "accept-language", 17); (bs "accept-ranges", 18); (bs "accept", 19);
   (bs "access-control-allow-origin", 20); (bs "age", 21); (bs "allow", 22); (bs "authorization", 23); (bs "cache-control", 24);
   (bs "content-disposition", 25); (bs "content-encoding", 26); (bs "content-language", 27); (bs "content-length", 28);
   (bs "content-location", 29); (bs "content-range", 30); (bs "content-type", 31); (bs "cookie", 32); (bs "date", 33);
   (bs "etag", 34); (bs "expect", 35); (bs "expires", 36); (bs "from", 37); (bs "host", 38); (bs "if-match", 39);
   (bs "if-modified-since", 40); (bs "if-none-match", 41); (bs "if-range", 42); (bs "if-unmodified-since", 43);
   (bs "last-modified", 44); (bs "link", 45); (bs "location", 46); (bs "max-forwards", 47); (bs "proxy-authenticate", 48);
   (bs "proxy-authorization", 49); (bs "range", 50); (bs "referer", 51); (bs "refresh", 52); (bs "retry-after", 53);
   (bs "server", 54); (bs "set-cookie", 55); (bs "strict-transport-security", 56); (bs "transfer-encoding", 57);
   (bs "user-agent", 58); (bs "vary", 59); (bs "via", 60); (bs "www-authenticate", 61)].
Fixpoint static_name (l : list (bytes * Z)) (name : bytes) : option Z :=
  match l with
  | [] => None
  | (n, i) :: l => if bool_decide (name = n) then Some i else static_name l name
  end.
(** [index_static]: the index in the static table, and whether the value is there too. *)
Definition index_static (h : Header bytes) : option (Z * bool) :=
  match h with
  | Field name value =>
      match static_name static_names name with
      | Some i => Some (i, (i =? 16) && bool_decide (v_bytes value = bs "gzip, deflate"))
      | None => None
      end
  | Authority _ => Some (1, false)
  | HMethod v => match v with GET => Some (2, true) | POST => Some (3, true) | _ => Some (2, false) end
  | Scheme v =>
      if bool_decide (v = bs "http") then Some (6, true)
      else if bool_decide (v = bs "https") then Some (7, true) else Some (6, false)
  | Path v =>
      if bool_decide (v = bs "/") then Some (4, true)
      else if bool_decide (v = bs "/index.html") then Some (5, true) else Some (4, false)
  | Protocol _ => None
  | Status v =>
      match v with
      | 200 => Some (8, true) | 204 => Some (9, true) | 206 => Some (10, true) | 304 => Some (11, true)
      | 400 => Some (12, true) | 404 => Some (13, true) | 500 => Some (14, true)
      | _ => Some (8, false)
      end
  end.

(** ** The hash index *)

Section Probe.
Open Scope nat_scope.

(** [probe_loop!]: the body goes on ([inl]) with the next bucket or leaves the loop ([inr]). *)
Fixpoint probe_loop {S R} (fuel len : nat) (body : nat -> S -> option (S + R)) (probe : nat) (s : S) : option R :=
  match fuel with
  | O => None
  | S fuel =>
      if probe <? len then
        r ← body probe s;
        match r with
        | inl s => probe_loop fuel len body (probe + 1) s
        | inr r => Some r
        end
      else probe_loop fuel len body 0 s
  end.
(** A turn visits a bucket or starts over, and no loop visits a bucket twice. *)
Definition probe_fuel (len : nat) : nat := 2 * len + 2.
Definition probing {S R} (len : nat) (body : nat -> S -> option (S + R)) (probe : nat) (s : S) : option R :=
  probe_loop (probe_fuel len) len body probe s.

Definition occupied (idx : list (option Pos)) (p : nat) : bool := match idx !! p with Some (Some _) => true | _ => false end.
(** [probe.wrapping_sub(1) & self.mask]. *)
Definition back_of (mask : Z) (probe : nat) : nat := Z.to_nat (Z.land (uwrap (Z.of_nat probe - 1)) mask).

(** [remove_phase_two]: shift back what the removed entry had displaced. *)
Definition remove_phase_two (mask : Z) (idx : list (option Pos)) (probe : nat) : option (list (option Pos)) :=
  probing (length idx)
    (fun probe '(idx, last_probe) =>
       o ← idx !! probe;
       match o with
       | Some pos =>
           if 0 <? probe_distance mask (p_hash pos) probe then
             Some (inl (<[probe := None]> (<[last_probe := Some pos]> idx), probe))
           else Some (inr idx)
       | None => Some (inr idx)
       end)
    (probe + 1) (idx, probe).

(** The shift of [index_vacant]: every entry moves to the next bucket, up to the first free one. *)
Definition shift_buckets (idx : list (option Pos)) (probe : nat) (prev : Pos) : option (list (option Pos)) :=
  probing (length idx)
    (fun probe '(idx, prev) =>
       o ← idx !! probe;
       let idx := <[probe := Some prev]> idx in
       match o with
       | Some p => Some (inl (idx, p))
       | None => Some (inr idx)
       end)
    probe (idx, prev).
(** [self.indices[probe].replace(pos)] and the shift. *)
Definition put_bucket (idx : list (option Pos)) (probe : nat) (pos : Pos) : option (list (option Pos)) :=
  o ← idx !! probe;
  let idx := <[probe := Some pos]> idx in
  match o with
  | Some prev => shift_buckets idx (probe + 1) prev
  | None => Some idx
  end.

(** [while dist != 0] of [index_vacant]: after evictions the entry may go further forward. *)
Fixpoint step_back (mask : Z) (idx : list (option Pos)) (dist probe : nat) : option nat :=
  match dist with
  | O => Some probe
  | S dist' =>
      let back := back_of mask probe in
      o ← idx !! back;
      match o with
      | Some pos => if probe_distance mask (p_hash pos) back <? dist' then step_back mask idx dist' back else Some probe
      | None => step_back mask idx dist' back
      end
  end.

(** [reinsert_entry_in_order]. *)
Definition reinsert_entry_in_order (mask : Z) (pos : option Pos) (idx : list (option Pos)) : option (list (option Pos)) :=
  match pos with
  | None => Some idx
  | Some pos =>
      probing (length idx)
        (fun probe (_ : unit) =>
           o ← idx !! probe;
           match o with
           | None => Some (inr (<[probe := Some pos]> idx))
           | Some them =>
               _ ← assert (probe_distance mask (p_hash pos) probe <=? probe_distance mask (p_hash them) probe);
               Some (inl tt)
           end)
        (desired_pos mask (p_hash pos)) tt
  end.
Fixpoint reinsert_all (mask : Z) (l : list (option Pos)) (idx : list (option Pos)) : option (list (option Pos)) :=
  match l with
  | [] => Some idx
  | pos :: l => idx ← reinsert_entry_in_order mask pos idx; reinsert_all mask l idx
  end.
(** The first ideally placed entry, from bucket [i] on. *)
Fixpoint first_ideal (mask : Z) (l : list (option Pos)) (i : nat) : nat :=
  match l with
  | [] => 0
  | Some pos :: l => if probe_distance mask (p_hash pos) i =? 0 then i else first_ideal mask l (S i)
  | None :: l => first_ideal mask l (S i)
  end.
(** [Table::grow] on the index. *)
Definition grow_indices (mask : Z) (idx : list (option Pos)) (new_raw_cap : nat) : option (Z * list (option Pos)) :=
  let first := first_ideal mask idx 0 in
  let mask := uwrap (Z.of_nat new_raw_cap - 1) in
  new ← reinsert_all mask (drop first idx) (replicate new_raw_cap None);
  new ← reinsert_all mask (take first idx) new;
  Some (mask, new).
End Probe.

(** ** The table *)

Section Table.
Context `{FT : FieldTypes} `{NH : NameHash}.

Definition hash_header (h : Header bytes) : Z := Z.land (hash_name (header_name h)) (MAX_SIZE - 1).

(** [Table::new]. *)
Definition etable_new (max_size capacity : Z) : ETable :=
  if capacity =? 0 then mkETable 0 [] [] 0 0 max_size
  else
    let capacity := Z.max (2 ^ Z.log2_up (to_raw_capacity capacity)) 8 in
    mkETable (uwrap (capacity - 1)) (replicate (Z.to_nat capacity) None) [] 0 0 max_size.
Definition ecapacity (t : ETable) : nat := usable_capacity (length (indices t)).

(** [Table::insert]. *)
Definition slots_insert (header : Header bytes) (hash : Z) (t : ETable) : ETable :=
  mkETable (mask t) (indices t) (mkSlot hash header None :: slots t) (uwrap (inserted t + 1)) (esize t) (emax_size t).

(** The search of [evict] for the entry of the slot that goes. *)
Definition evict_index (t : ETable) (slot : Slot) (pos_idx : Z) (prev_idx : option Z) : option (list (option Pos)) :=
  let idx := indices t in
  probing (length idx)
    (fun probe (_ : unit) =>
       o ← idx !! probe;
       pos ← o;
       if p_index pos =? pos_idx then
         match s_next slot with
         | Some n => Some (inr (<[probe := Some (mkPos n (p_hash pos))]> idx))
         | None =>
             if bool_decide (Some (p_index pos) = prev_idx) then
               i ← uchk (inserted t + 1);
               Some (inr (<[probe := Some (mkPos (uwrap (0 - i)) (p_hash pos))]> idx))
             else
               idx ← remove_phase_two (mask t) (<[probe := None]> idx) probe;
               Some (inr idx)
         end
       else Some (inl tt))
    (desired_pos (mask t) (s_hash slot)) tt.
(** [Table::evict]. *)
Definition evict (prev_idx : option Z) (t : ETable) : option ETable :=
  n ← uchk (len (slots t) - 1);
  let pos_idx := uwrap (n - inserted t) in
  '(rest, slot) ← pop_back (slots t);
  size ← uchk (esize t - header_len (s_header slot));
  _ ← assert (length (filter (fun p => p_index p = pos_idx) (omap id (indices t))) =? 1)%nat;
  idx ← evict_index t slot pos_idx prev_idx;
  Some (mkETable (mask t) idx rest (inserted t) size (emax_size t)).
(** [Table::converge]: a turn drops a slot. *)
Fixpoint converge_loop (fuel : nat) (prev_idx : option Z) (ret : bool) (t : ETable) : option (ETable * bool) :=
  if esize t >? emax_size t then
    match fuel with
    | O => None
    | S fuel => t ← evict prev_idx t; converge_loop fuel prev_idx true t
    end
  else Some (t, ret).
Definition converge (prev_idx : option Z) (t : ETable) : option (ETable * bool) :=
  converge_loop (length (slots t)) prev_idx false t.
Definition update_size (n : Z) (prev_idx : option Z) (t : ETable) : option (ETable * bool) :=
  size ← uchk (esize t + n);
  converge prev_idx (with_esize size t).
(** [Table::resize]. *)
Definition resize (size : Z) (t : ETable) : option ETable :=
  if size =? 0 then Some (mkETable (mask t) (replicate (length (indices t)) None) [] 0 0 0)
  else '(t, _) ← converge None (mkETable (mask t) (indices t) (slots t) (inserted t) (esize t) size); Some t.

(** [reserve_one] with [grow]. *)
Definition reserve_one (t : ETable) : option ETable :=
  let n := length (slots t) in
  if (n =? ecapacity t)%nat then
    if (n =? 0)%nat then
      Some (mkETable 7 (replicate 8 None) (slots t) (inserted t) (esize t) (emax_size t))
    else
      '(m, idx) ← grow_indices (mask t) (indices t) (2 * length (indices t));
      Some (mkETable m idx (slots t) (inserted t) (esize t) (emax_size t))
  else Some t.

(** [index_occupied]: follow the chain; a turn goes to a newer slot. *)
Fixpoint index_occupied (fuel : nat) (header : Header bytes) (hash index : Z) (statik : option Z) (t : ETable) : option (ETable * Index) :=
  match fuel with
  | O => None
  | S fuel =>
      let real_idx := uwrap (index + inserted t) in
      slot ← slots t !! Z.to_nat real_idx;
      if value_eq (s_header slot) header then
        i ← uchk (real_idx + DYN_OFFSET);
        Some (t, IIndexed i header)
      else
        match s_next slot with
        | Some next => index_occupied fuel header hash next statik t
        | None =>
            if is_sensitive header then
              i ← uchk (real_idx + DYN_OFFSET);
              Some (t, IName i header)
            else
              '(t, _) ← update_size (header_len header) (Some index) t;
              let t := slots_insert header hash t in
              let new_real_idx := uwrap (index + inserted t) in
              let t :=
                match slots t !! Z.to_nat new_real_idx with
                | Some s =>
                    with_slots (<[Z.to_nat new_real_idx := mkSlot (s_hash s) (s_header s) (Some (uwrap (0 - inserted t)))]> (slots t)) t
                | None => t
                end in
              match statik with
              | Some n => Some (t, IInsertedValue n 0)
              | None => i ← uchk (real_idx + DYN_OFFSET); Some (t, IInsertedValue i 0)
              end
        end
  end.

Definition index_vacant (header : Header bytes) (hash : Z) (dist probe : nat) (statik : option (Z * bool)) (t : ETable) : option (ETable * Index) :=
  if is_sensitive header then Some (t, index_new statik header)
  else
    _ ← assert ((dist =? 0)%nat || occupied (indices t) (back_of (mask t) probe));
    '(t, moved) ← update_size (header_len header) None t;
    probe ← if moved : bool then step_back (mask t) (indices t) dist probe else Some probe;
    let t := slots_insert header hash t in
    idx ← put_bucket (indices t) probe (mkPos (uwrap (0 - inserted t)) hash);
    let t := with_indices idx t in
    match statik with
    | Some (n, _) => Some (t, IInsertedValue n 0)
    | None => Some (t, IInserted 0)
    end.

(** The probing of [index_dynamic]: where the header goes, or the entry of its name. *)
Inductive Probed : Type := Vacant (dist probe : nat) | Occupied (index : Z).
Definition probe_name (t : ETable) (header : Header bytes) (hash : Z) : option Probed :=
  probing (length (indices t))
    (fun probe dist =>
       o ← indices t !! probe;
       match o with
       | Some pos =>
           let their_dist := probe_distance (mask t) (p_hash pos) probe in
           let slot_idx := uwrap (p_index pos + inserted t) in
           if (their_dist <? dist)%nat then Some (inr (Vacant dist probe))
           else if p_hash pos =? hash then
             slot ← slots t !! Z.to_nat slot_idx;
             if bool_decide (header_name (s_header slot) = header_name header) then Some (inr (Occupied (p_index pos)))
             else Some (inl (dist + 1)%nat)
           else Some (inl (dist + 1)%nat)
       | None => Some (inr (Vacant dist probe))
       end)
    (desired_pos (mask t) hash) 0%nat.
(** [index_dynamic]. *)
Definition index_dynamic (header : Header bytes) (statik : option (Z * bool)) (t : ETable) : option (ETable * Index) :=
  size ← uchk (header_len header + esize t);
  t ← if (size <? emax_size t) || negb (is_sensitive header) then reserve_one t else Some t;
  if (length (indices t) =? 0)%nat then Some (t, index_new statik header)
  else
    let hash := hash_header header in
    p ← probe_name t header hash;
    match p with
    | Vacant dist probe => index_vacant header hash dist probe statik t
    | Occupied index => index_occupied (length (slots t)) header hash index (fst <$> statik) t
    end.
(** [Table::index]. *)
Definition table_index (header : Header bytes) (t : ETable) : option (ETable * Index) :=
  let statik := index_static header in
  if skip_value_index header then
    _ ← assert (bool_decide (is_Some statik));
    Some (t, index_new statik header)
  else
    match statik with
    | Some (n, true) => Some (t, IIndexed n header)
    | _ =>
        a ← uchk (header_len header * 4);
        b ← uchk (emax_size t * 3);
        if a >? b then Some (t, index_new statik header) else index_dynamic header statik t
    end.

(** ** The encoder *)

Record Encoder : Type := mkEncoder { e_table : ETable; size_update : option SizeUpdate }.
Definition encoder_new (max_size capacity : Z) : Encoder := mkEncoder (etable_new max_size capacity) None.
Definition encoder_update_max_size (val : Z) (e : Encoder) : Encoder :=
  mkEncoder (e_table e) (update_max_size (emax_size (e_table e)) val (size_update e)).
(** [encode_size_updates] with the resizing of the table. *)
Definition take_size_update (e : Encoder) (dst : bytes) : option (ETable * bytes) :=
  match size_update e with
  | Some (One val) => t ← resize val (e_table e); Some (t, encode_size_update val dst)
  | Some (Two min max) =>
      t ← resize min (e_table e);
      t ← resize max t;
      Some (t, encode_size_update max (encode_size_update min dst))
  | None => Some (e_table e, dst)
  end.
(** The loop of [Encoder::encode]. *)
Fixpoint encode_loop (headers : list (Header (option bytes))) (last_index : option Index) (t : ETable) (dst : bytes) : option (ETable * bytes) :=
  match headers with
  | [] => Some (t, dst)
  | header :: headers =>
      match reify header with
      | inl header =>
          '(t, index) ← table_index header t;
          dst ← encode_header (slots t) index dst;
          encode_loop headers (Some index) t dst
      | inr value =>
          last ← last_index;
          dst ← encode_header_without_name (slots t) last value dst;
          encode_loop headers last_index t dst
      end
  end.
Definition encoder_encode (headers : list (Header (option bytes))) (e : Encoder) (dst : bytes) : option (Encoder * bytes) :=
  '(t, dst) ← take_size_update e dst;
  '(t, dst) ← encode_loop headers None t dst;
  Some (mkEncoder t None, dst).
End Table.
