(* ===== verification/HpackProbe.v ===== *)
(** * The Robin Hood index of the HPACK encoder's table

    What the probing loops of HpackIndex.v do to the buckets.  The one invariant is local: an
    entry away from its desired bucket has a predecessor that is at most one step closer to its
    own ([rh]).  It makes every entry reachable from its desired bucket, and insertion, removal
    and growth keep it. *)

From S2P Require Import Prelude Http HpackInt HpackHeader HpackTable HpackEncoder HpackIndex.

Local Open Scope nat_scope.

(** ** Buckets on a circle *)

(** [j] buckets after [p]; the way from [d] to [p]; the bucket before [p]. *)
Definition cyc (n p j : nat) : nat := if p + j <? n then p + j else p + j - n.
Definition dst (n d p : nat) : nat := if d <=? p then p - d else p + n - d.
Definition prv (n p : nat) : nat := if p =? 0 then n - 1 else p - 1.
Definition des (n : nat) (h : Z) : nat := Z.to_nat (h mod Z.of_nat n).
Definition away (n : nat) (e : Pos) (p : nat) : nat := dst n (des n (p_hash e)) p.

Ltac circle :=
  unfold away in *; unfold cyc, dst, prv in *;
  repeat match goal with
  | H : context [?a <? ?b] |- _ => destruct (Nat.ltb_spec a b)
  | H : context [?a <=? ?b] |- _ => destruct (Nat.leb_spec a b)
  | H : context [?a =? ?b] |- _ => destruct (Nat.eqb_spec a b)
  | |- context [?a <? ?b] => destruct (Nat.ltb_spec a b)
  | |- context [?a <=? ?b] => destruct (Nat.leb_spec a b)
  | |- context [?a =? ?b] => destruct (Nat.eqb_spec a b)
  end; try lia.

Lemma des_lt n h : 0 < n -> des n h < n.
Proof. intros Hn. unfold des. pose proof (Z.mod_pos_bound h (Z.of_nat n)). lia. Qed.
Lemma cyc_lt n p j : p <= n -> j <= n -> 0 < n -> (p < n \/ j < n) -> cyc n p j < n.
Proof. intros. circle. Qed.
Lemma dst_lt n d p : d < n -> p < n -> dst n d p < n.
Proof. intros. circle. Qed.
Lemma dst_cyc n d j : d < n -> j < n -> dst n d (cyc n d j) = j.
Proof. intros. circle. Qed.
Lemma cyc_dst n d p : d < n -> p < n -> cyc n d (dst n d p) = p.
Proof. intros. circle. Qed.
Lemma cyc_cyc n p i j : p <= n -> i + j <= n -> (p < n \/ i + j < n) -> cyc n (cyc n p i) j = cyc n p (i + j).
Proof. intros. circle. Qed.
Lemma prv_cyc n p j : p < n -> 0 < j <= n -> prv n (cyc n p j) = cyc n p (j - 1).
Proof. intros. circle. Qed.
Lemma before_goal n p z j : p < n -> z < n -> j < dst n p z -> cyc n p (j + 1) <> z -> j + 1 < dst n p z.
Proof.
  intros Hp Hz Hj Hne. destruct (decide (j + 1 = dst n p z)) as [E|]; [|lia]. exfalso. apply Hne. rewrite E. by apply cyc_dst.
Qed.
Lemma prv_lt n p : p < n -> prv n p < n.
Proof. intros. circle. Qed.
Lemma prv_inj n p q : p < n -> q < n -> prv n p = prv n q -> p = q.
Proof. intros. circle. Qed.
Lemma away_prv n e p : p < n -> 0 < away n e p -> S (away n e (prv n p)) = away n e p.
Proof. intros Hp. pose proof (des_lt n (p_hash e) ltac:(lia)). unfold away. circle. Qed.
Lemma away_succ n e p : p < n -> S (away n e (prv n p)) < n -> S (away n e (prv n p)) = away n e p.
Proof. intros Hp. pose proof (des_lt n (p_hash e) ltac:(lia)). unfold away. circle. Qed.
Lemma away_lt n e p : p < n -> away n e p < n.
Proof. intros Hp. apply dst_lt; [apply des_lt; lia|done]. Qed.

(** The machine arithmetic computes these. *)
Definition shape (m : Z) (n : nat) : Prop := exists k, (0 <= k <= 62)%Z /\ m = (2 ^ k - 1)%Z /\ Z.of_nat n = (2 ^ k)%Z.
Lemma shape_pos m n : shape m n -> 0 < n.
Proof. intros (k & Hk & _ & Hn). pose proof (Z.pow_pos_nonneg 2 k). lia. Qed.
Lemma land_mask k z : (0 <= k)%Z -> Z.land z (2 ^ k - 1) = (z mod 2 ^ k)%Z.
Proof. intros Hk. replace (2 ^ k - 1)%Z with (Z.ones k) by (rewrite Z.ones_equiv; lia). by apply Z.land_ones. Qed.
Lemma land_wrap_mask k z : (0 <= k <= 62)%Z -> Z.land (uwrap z) (2 ^ k - 1) = (z mod 2 ^ k)%Z.
Proof.
  intros Hk. rewrite land_mask by lia. unfold uwrap, wrap. replace (2 ^ 64)%Z with (2 ^ (64 - k) * 2 ^ k)%Z by (rewrite <- Z.pow_add_r by lia; f_equal; lia).
  pose proof (Z.pow_pos_nonneg 2 k). pose proof (Z.pow_pos_nonneg 2 (64 - k)). symmetry. rewrite Z.mul_comm. rewrite Z.rem_mul_r by lia.
  rewrite Z.mul_comm, Z_mod_plus_full. by rewrite Z.mod_mod by lia.
Qed.
Lemma desired_des m n h : shape m n -> desired_pos m h = des n h.
Proof. intros (k & Hk & -> & Hn). unfold desired_pos, des. by rewrite land_mask, Hn by lia. Qed.
Lemma mod_dst n d p : d < n -> p < n -> ((Z.of_nat p - Z.of_nat d) mod Z.of_nat n)%Z = Z.of_nat (dst n d p).
Proof.
  intros Hd Hp. unfold dst. destruct (Nat.leb_spec d p).
  - rewrite Z.mod_small; lia.
  - rewrite <- (Z.mod_unique (Z.of_nat p - Z.of_nat d) (Z.of_nat n) (-1) (Z.of_nat (p + n - d))); lia.
Qed.
Lemma probe_distance_dst m n h p : shape m n -> p < n -> probe_distance m h p = dst n (des n h) p.
Proof.
  intros Hs Hp. unfold probe_distance. rewrite (desired_des m n) by done. pose proof (des_lt n h ltac:(lia)) as Hd.
  destruct Hs as (k & Hk & -> & Hn). rewrite land_wrap_mask, <- Hn, mod_dst by done. apply Nat2Z.id.
Qed.
Lemma back_of_prv m n p : shape m n -> p < n -> back_of m p = prv n p.
Proof.
  intros (k & Hk & -> & Hn) Hp. unfold back_of. rewrite land_wrap_mask by done. rewrite <- Hn. unfold prv. destruct (Nat.eqb_spec p 0) as [->|].
  - rewrite <- (Z.mod_unique (Z.of_nat 0 - 1) (Z.of_nat n) (-1) (Z.of_nat (n - 1))); lia.
  - rewrite Z.mod_small; lia.
Qed.

(** ** The rule of the probing loop *)

Lemma probe_loop_rule {S R} n (body : nat -> S -> option (S + R)) start (I : nat -> S -> Prop) (Q : R -> Prop) m :
  start <= n -> m < n ->
  (forall j s, j <= m -> I j s ->
     match body (cyc n start j) s with
     | Some (inl s') => j < m /\ I (j + 1) s'
     | Some (inr r) => Q r
     | None => False
     end) ->
  forall fuel j s p, j <= m -> I j s -> (p = cyc n start j \/ p = n /\ cyc n start j = 0) ->
  2 * (m - j) + 1 + (if p <? n then 0 else 1) <= fuel ->
  exists r, probe_loop fuel n body p s = Some r /\ Q r.
Proof.
  intros Hst Hm Hbody. induction fuel as [|fuel IH]; intros j s p Hj HI Hp Hf; [lia|]. cbn [probe_loop].
  assert (Hc : cyc n start j < n) by (apply cyc_lt; lia).
  destruct (Nat.ltb_spec p n) as [Hpn|Hpn].
  - destruct Hp as [-> |[-> _]]; [|lia]. specialize (Hbody j s Hj HI).
    destruct (body (cyc n start j) s) as [[s'|r]|]; [| |done]; cbn [mbind option_bind].
    + destruct Hbody as [Hjm HI']. apply (IH (j + 1)); [lia|done| |].
      * circle.
      * case_match; lia.
    + by exists r.
  - apply (IH j); [done|done|left|].
    + destruct Hp as [-> |[_ ->]]; [lia|done].
    + case_match; [lia|]. destruct (Nat.ltb_spec 0 n); [done|lia].
Qed.
Lemma probing_rule {S R} n (body : nat -> S -> option (S + R)) start s0 (I : nat -> S -> Prop) (Q : R -> Prop) m :
  start <= n -> m < n -> I 0 s0 ->
  (forall j s, j <= m -> I j s ->
     match body (cyc n start j) s with
     | Some (inl s') => j < m /\ I (j + 1) s'
     | Some (inr r) => Q r
     | None => False
     end) ->
  exists r, probing n body start s0 = Some r /\ Q r.
Proof.
  intros Hst Hm HI Hbody. unfold probing, probe_fuel. apply (probe_loop_rule n body start I Q m Hst Hm Hbody _ 0 s0 start); [lia|done| |].
  - circle.
  - case_match; lia.
Qed.

(** ** The invariant of the buckets *)

Abbreviation bucket idx p e := (idx !! p = Some (Some e)).
Definition rh_at (n : nat) (idx : list (option Pos)) (p : nat) : Prop :=
  forall e, bucket idx p e -> 0 < away n e p -> exists e', bucket idx (prv n p) e' /\ away n e p <= S (away n e' (prv n p)).
Definition rh (n : nat) (idx : list (option Pos)) : Prop := forall p, rh_at n idx p.
(** Every entry of [idx'] sits where [idx] had one at least as far from home. *)
Definition dominated (n : nat) (idx' idx : list (option Pos)) : Prop :=
  forall p e, bucket idx' p e -> exists e0, bucket idx p e0 /\ away n e p <= away n e0 p.
(** The entries in bucket order. *)
Definition entries_of (idx : list (option Pos)) : list Pos := omap id idx.

Lemma bucket_lt (idx : list (option Pos)) p (o : option Pos) : idx !! p = Some o -> p < length idx.
Proof. apply lookup_lt_Some. Qed.
Lemma rh_nil n m : rh n (replicate m None).
Proof. intros p e H. apply lookup_replicate in H as [? _]. done. Qed.
Lemma dominated_refl n idx : dominated n idx idx.
Proof. intros p e H. by exists e. Qed.
Lemma dominated_trans n a b c : dominated n a b -> dominated n b c -> dominated n a c.
Proof. intros H G p e He. destruct (H p e He) as (e0 & H0 & Hle). destruct (G p e0 H0) as (e1 & H1 & Hle1). exists e1. split; [done|lia]. Qed.

(** Where a bucket is written, only it and the next one have to be looked at. *)
Lemma rh_at_insert n idx p o q : length idx = n -> p < n -> q < n -> q <> p -> prv n q <> p -> rh_at n idx q -> rh_at n (<[p := o]> idx) q.
Proof.
  intros Hl Hp Hq Hne Hne' H e He Hd. rewrite list_lookup_insert_ne in He by done.
  destruct (H e He Hd) as (e' & He' & Hle). exists e'. by rewrite list_lookup_insert_ne by done.
Qed.
Lemma bucket_insert (idx : list (option Pos)) p o q e : p < length idx ->
  bucket (<[p := o]> idx) q e -> (q = p /\ o = Some e) \/ (q <> p /\ bucket idx q e).
Proof.
  intros Hp. destruct (decide (q = p)) as [->|Hne].
  - rewrite list_lookup_insert_eq by done. intros [= ->]. by left.
  - rewrite list_lookup_insert_ne by done. by right.
Qed.

(** Writing [e] into bucket [p] keeps the invariant if it fits its neighbours. *)
Lemma rh_insert n idx p e :
  length idx = n -> p < n -> rh n idx ->
  (0 < away n e p -> exists e', bucket idx (prv n p) e' /\ prv n p <> p /\ away n e p <= S (away n e' (prv n p))) ->
  (forall e0, bucket idx p e0 -> away n e0 p <= away n e p) ->
  rh n (<[p := Some e]> idx).
Proof.
  intros Hl Hp Hrh Hpre Hocc q. destruct (decide (q < n)) as [Hq|Hq]; cycle 1.
  { intros e1 He1. apply bucket_lt in He1. rewrite length_insert in He1. lia. }
  destruct (decide (q = p)) as [->|Hqp].
  - intros e1 He1 Hd. rewrite list_lookup_insert_eq in He1 by lia. injection He1 as <-.
    destruct (Hpre Hd) as (e' & He' & Hne & Hle). exists e'. by rewrite list_lookup_insert_ne by done.
  - destruct (decide (prv n q = p)) as [Hqp'|Hqp']; [|by apply rh_at_insert].
    intros e1 He1 Hd. rewrite list_lookup_insert_ne in He1 by done. destruct (Hrh q e1 He1 Hd) as (e' & He' & Hle).
    exists e. rewrite Hqp', list_lookup_insert_eq by lia. split; [done|]. rewrite Hqp' in *. specialize (Hocc e' He'). lia.
Qed.

(** An entry is reached from its desired bucket over entries that are as far from theirs. *)
Lemma rh_chain n idx p e : length idx = n -> rh n idx -> bucket idx p e ->
  forall i, i <= away n e p -> exists e', bucket idx (cyc n (des n (p_hash e)) (away n e p - i)) e'
    /\ away n e p - i <= away n e' (cyc n (des n (p_hash e)) (away n e p - i)).
Proof.
  intros Hl Hrh He. pose proof (bucket_lt _ _ _ He) as Hp. rewrite Hl in Hp. pose proof (des_lt n (p_hash e) ltac:(lia)) as Hd.
  pose proof (away_lt n e p Hp) as Ha. induction i as [|i IH]; intros Hi.
  - exists e. rewrite Nat.sub_0_r. assert (Hc : cyc n (des n (p_hash e)) (away n e p) = p) by by apply cyc_dst. rewrite Hc. by split.
  - destruct IH as (e1 & He1 & Hle); [lia|]. destruct (Hrh _ e1 He1 ltac:(lia)) as (e' & He' & Hle').
    rewrite prv_cyc in He', Hle' by lia. exists e'. replace (away n e p - S i) with (away n e p - i - 1) by lia. split; [done|lia].
Qed.
Lemma rh_reach n idx p e j : length idx = n -> rh n idx -> bucket idx p e -> j <= away n e p ->
  exists e', bucket idx (cyc n (des n (p_hash e)) j) e' /\ j <= away n e' (cyc n (des n (p_hash e)) j).
Proof.
  intros Hl Hrh He Hj. destruct (rh_chain n idx p e Hl Hrh He (away n e p - j)) as (e' & H); [lia|].
  replace (away n e p - (away n e p - j)) with j in H by lia. by exists e'.
Qed.
(** A free bucket bounds the distances. *)
Lemma rh_free_bound n idx p e z : length idx = n -> rh n idx -> bucket idx p e -> idx !! z = Some None -> S (away n e p) < n.
Proof.
  intros Hl Hrh He Hz. pose proof (bucket_lt _ _ _ He) as Hp. pose proof (bucket_lt _ _ _ Hz) as Hzn. rewrite Hl in *.
  pose proof (away_lt n e p Hp). destruct (decide (S (away n e p) < n)) as [|Hge]; [done|]. exfalso.
  assert (Hd : des n (p_hash e) < n) by (apply des_lt; lia).
  destruct (rh_reach n idx p e (dst n (des n (p_hash e)) z) Hl Hrh He) as (e' & He' & _); [pose proof (dst_lt n (des n (p_hash e)) z Hd Hzn); lia|].
  rewrite cyc_dst in He' by done. congruence.
Qed.

(** ** Entries as a multiset *)

Lemma entries_insert idx p e : idx !! p = Some None -> entries_of (<[p := Some e]> idx) ≡ₚ e :: entries_of idx.
Proof.
  intros Hp. unfold entries_of. rewrite <- (take_drop_middle idx p None Hp) at 2. rewrite insert_take_drop by by apply bucket_lt in Hp.
  rewrite !omap_app. simpl. by rewrite Permutation_middle.
Qed.
Lemma entries_remove idx p e : bucket idx p e -> entries_of idx ≡ₚ e :: entries_of (<[p := None]> idx).
Proof.
  intros Hp. unfold entries_of. rewrite <- (take_drop_middle idx p (Some e) Hp) at 1. rewrite insert_take_drop by by apply bucket_lt in Hp.
  rewrite !omap_app. simpl. by rewrite Permutation_middle.
Qed.
Lemma entries_replace idx p e e' : bucket idx p e -> entries_of (<[p := Some e']> idx) ≡ₚ e' :: entries_of (<[p := None]> idx).
Proof.
  intros Hp. rewrite <- (entries_insert (<[p := None]> idx) p e').
  - by rewrite list_insert_insert_eq.
  - rewrite list_lookup_insert_eq; [done|by apply bucket_lt in Hp].
Qed.
Lemma elem_of_entries idx e : e ∈ entries_of idx <-> exists p, bucket idx p e.
Proof.
  unfold entries_of. rewrite list_elem_of_omap. setoid_rewrite list_elem_of_lookup. naive_solver.
Qed.
(** Fewer entries than buckets: one is free. *)
Lemma free_bucket idx : length (entries_of idx) < length idx -> exists z, idx !! z = Some None.
Proof.
  induction idx as [|[e|] idx IH]; intros H; [simpl in H; lia| |by exists 0].
  change (entries_of (Some e :: idx)) with (e :: entries_of idx) in H. simpl in H. destruct IH as (z & Hz); [lia|]. by exists (S z).
Qed.

(** ** Removal *)

Section Removal.
Context (m : Z) (n : nat) (Hshape : shape m n).

(** The bucket that waits for the next entry, and the entry it had before. *)
Definition hole (idx0 : list (option Pos)) (idx : list (option Pos)) (last : nat) (gone : Pos) : Prop :=
  length idx = n /\ idx !! last = Some None
  /\ (exists old, rh n (<[last := Some old]> idx) /\ dominated n (<[last := Some old]> idx) idx0)
  /\ entries_of idx0 ≡ₚ gone :: entries_of idx.

Lemma hole_fill idx0 idx last gone e q :
  hole idx0 idx last gone -> 1 < n -> q = cyc n last 1 -> bucket idx q e -> 0 < away n e q ->
  hole idx0 (<[q := None]> (<[last := Some e]> idx)) q gone.
Proof.
  intros (Hl & Hlast & (old & Hrh & Hdom) & Hperm) Hn Hq He Hd.
  pose proof (bucket_lt _ _ _ Hlast) as Hll. rewrite Hl in Hll. assert (Hqn : q < n) by (subst q; apply cyc_lt; lia).
  assert (Hne : q <> last) by (subst q; circle).
  assert (Hprv : prv n q = last) by (subst q; circle).
  assert (Heq : <[q := Some e]> (<[q := None]> (<[last := Some e]> idx)) = <[last := Some e]> idx).
  { rewrite list_insert_insert_eq. apply list_insert_id. by rewrite list_lookup_insert_ne by done. }
  assert (Hea : S (away n e last) = away n e q) by (rewrite <- Hprv; by apply away_prv).
  assert (Hb : bucket (<[last := Some old]> idx) q e) by by rewrite list_lookup_insert_ne by done.
  destruct (Hrh q e Hb Hd) as (old' & Ho & Hle). rewrite Hprv in *. rewrite list_lookup_insert_eq in Ho by lia. injection Ho as <-.
  split; [by rewrite !length_insert|]. split; [rewrite list_lookup_insert_eq by (rewrite length_insert; lia); done|]. split.
  - exists e. rewrite Heq. rewrite <- (list_insert_insert_eq idx last (Some e) (Some old)). split.
    + intros p. destruct (decide (p < n)) as [Hp|Hp]; cycle 1.
      { intros e1 He1. apply bucket_lt in He1. rewrite !length_insert in He1. lia. }
      destruct (decide (p = last)) as [->|Hpl].
      * intros e1 He1 Hd1. rewrite list_lookup_insert_eq in He1 by (rewrite length_insert; lia). injection He1 as <-.
        destruct (Hrh last old) as (e' & He' & Hle'); [by rewrite list_lookup_insert_eq by lia|lia|].
        assert (prv n last <> last) by circle. exists e'. rewrite list_lookup_insert_ne by done. split; [done|lia].
      * destruct (decide (prv n p = last)) as [Hpp|Hpp]; [|by apply rh_at_insert; rewrite ?length_insert].
        assert (p = q) as -> by (apply (prv_inj n); [lia..|congruence]).
        intros e1 He1 Hd1. rewrite list_lookup_insert_ne in He1 by done. rewrite Hb in He1. injection He1 as <-.
        exists e. rewrite Hprv, list_lookup_insert_eq by (rewrite length_insert; lia). split; [done|lia].
    + intros p e1 He1. apply bucket_insert in He1 as [[-> [= <-]]|[Hpl He1]]; [| |rewrite length_insert; lia].
      * destruct (Hdom last old) as (e0 & He0 & Hle0); [by rewrite list_lookup_insert_eq by lia|]. exists e0. split; [done|lia].
      * by apply Hdom.
  - rewrite Hperm. apply perm_skip. rewrite (entries_remove idx q e He).
    rewrite list_insert_insert_ne by done. rewrite entries_insert; [done|]. by rewrite list_lookup_insert_ne by done.
Qed.

Lemma hole_stop idx0 idx last gone q :
  hole idx0 idx last gone -> 1 < n -> q = cyc n last 1 -> (forall e, bucket idx q e -> away n e q = 0) ->
  rh n idx /\ length idx = n /\ dominated n idx idx0 /\ entries_of idx0 ≡ₚ gone :: entries_of idx.
Proof.
  intros (Hl & Hlast & (old & Hrh & Hdom) & Hperm) Hn Hq Hstop. pose proof (bucket_lt _ _ _ Hlast) as Hll. rewrite Hl in Hll.
  split; [|split; [done|split; [|done]]].
  - intros p e He Hd. pose proof (bucket_lt _ _ _ He) as Hp. rewrite Hl in Hp.
    assert (Hpl : p <> last) by (intros ->; congruence).
    destruct (Hrh p e) as (e' & He' & Hle); [by rewrite list_lookup_insert_ne by done|done|].
    apply bucket_insert in He' as [[Hpp _]|[_ He']]; [|by exists e'|lia].
    assert (p = q) as -> by (apply (prv_inj n); [lia|subst q; apply cyc_lt; lia|rewrite Hpp; subst q; circle]).
    specialize (Hstop e He). lia.
  - intros p e He. apply Hdom. rewrite list_lookup_insert_ne; [done|]. intros ->. congruence.
Qed.

(** [remove_phase_two] after an entry was taken out. *)
Lemma remove_phase_two_spec idx p e z :
  length idx = n -> rh n idx -> bucket idx p e -> idx !! z = Some None ->
  exists idx', remove_phase_two m (<[p := None]> idx) p = Some idx' /\ length idx' = n /\ rh n idx'
    /\ dominated n idx' idx /\ entries_of idx ≡ₚ e :: entries_of idx'.
Proof.
  intros Hl Hrh He Hz. pose proof (bucket_lt _ _ _ He) as Hp. pose proof (bucket_lt _ _ _ Hz) as Hzn. rewrite Hl in Hp, Hzn.
  assert (Hpz : p <> z) by (intros ->; congruence). assert (Hn1 : 1 < n) by lia.
  unfold remove_phase_two. rewrite length_insert, Hl.
  set (Inv j (s : list (option Pos) * nat) := s.2 = cyc n p j /\ hole idx s.1 (cyc n p j) e /\ s.1 !! z = Some None /\ j < dst n p z).
  assert (Hdz : 0 < dst n p z < n) by (split; [|apply dst_lt; done]; circle).
  destruct (probing_rule n
    (fun probe '(idx, last_probe) =>
       o ← idx !! probe;
       match o with
       | Some pos => if 0 <? probe_distance m (p_hash pos) probe
                     then Some (inl (<[probe := None]> (<[last_probe := Some pos]> idx), probe)) else Some (inr idx)
       | None => Some (inr idx)
       end) (p + 1) (<[p := None]> idx, p) Inv
    (fun idx' => length idx' = n /\ rh n idx' /\ dominated n idx' idx /\ entries_of idx ≡ₚ e :: entries_of idx')
    (dst n p z - 1)) as (r & Hr & HQ); [lia|lia| | |by exists r].
  - assert (Hc0 : cyc n p 0 = p) by circle. unfold Inv, hole. cbn [fst snd]. rewrite Hc0. split_and!; [done|..].
    + by rewrite length_insert.
    + rewrite list_lookup_insert_eq by lia. done.
    + exists e. rewrite list_insert_insert_eq, list_insert_id by done. split; [done|apply dominated_refl].
    + by apply entries_remove.
    + by rewrite list_lookup_insert_ne by done.
    + lia.
  - intros j [idx1 last] Hj (Hlast & Hh & Hz1 & Hjz). simpl in Hlast, Hh, Hz1. subst last.
    assert (Hq : cyc n (p + 1) j = cyc n (cyc n p j) 1) by circle. rewrite Hq.
    set (q := cyc n (cyc n p j) 1) in *. assert (Hqn : q < n) by (apply cyc_lt; [|lia..]; circle).
    pose proof (proj1 Hh) as Hl1. destruct (idx1 !! q) as [[pos|]|] eqn:Hb; cbn [mbind option_bind].
    + rewrite (probe_distance_dst m n) by done. change (dst n (des n (p_hash pos)) q) with (away n pos q).
      destruct (Nat.ltb_spec 0 (away n pos q)) as [Hd|Hd].
      * assert (Hqz : q <> z) by (intros ->; congruence). assert (Hqe : cyc n p (j + 1) = q) by (unfold q; circle).
        pose proof (before_goal n p z j Hp Hzn Hjz ltac:(by rewrite Hqe)). split; [lia|]. split; [done|]. rewrite Hqe. simpl. split; [by apply (hole_fill idx _ (cyc n p j))|].
        assert (Hlz : cyc n p j <> z) by (destruct Hh as (_ & _ & _ & _); circle).
        split; [by rewrite !list_lookup_insert_ne by done|done].
      * edestruct (hole_stop idx idx1 (cyc n p j) e q Hh) as (H1 & H2 & H3 & H4); [lia|done| |done]. intros e1 He1. rewrite Hb in He1. injection He1 as <-. lia.
    + edestruct (hole_stop idx idx1 (cyc n p j) e q Hh) as (H1 & H2 & H3 & H4); [lia|done| |done]. intros e1 He1. congruence.
    + apply lookup_ge_None in Hb. lia.
Qed.
End Removal.

(** ** Insertion *)

Section Insertion.
Context (m : Z) (n : nat) (Hshape : shape m n).

(** [e] may be written into bucket [p]: what is before it is far enough from home, what is in it
    is closer. *)
Definition fits_at (idx : list (option Pos)) (p : nat) (e : Pos) : Prop :=
  (0 < away n e p -> exists e', bucket idx (prv n p) e' /\ away n e p <= S (away n e' (prv n p)))
  /\ (forall e0, bucket idx p e0 -> away n e0 p <= away n e p).
Lemma rh_fits idx p e : 1 < n -> length idx = n -> p < n -> rh n idx -> fits_at idx p e -> rh n (<[p := Some e]> idx).
Proof.
  intros Hn Hl Hp Hrh [H1 H2]. apply rh_insert; [done..| |done]. intros Hd. destruct (H1 Hd) as (e' & He' & Hle).
  exists e'. split; [done|]. split; [circle|done].
Qed.

(** The entries pushed out one after the other. *)
Lemma shift_buckets_spec idx p y prev z :
  length idx = n -> rh n idx -> p < n -> bucket idx p y -> away n prev p <= away n y p ->
  (forall e, bucket idx (cyc n p 1) e -> away n e (cyc n p 1) <= S (away n prev p)) ->
  idx !! z = Some None ->
  exists idx', shift_buckets idx (p + 1) prev = Some idx' /\ length idx' = n /\ rh n idx' /\ entries_of idx' ≡ₚ prev :: entries_of idx.
Proof.
  intros Hl Hrh Hp Hy Hle Hnext Hz. pose proof (bucket_lt _ _ _ Hz) as Hzn. rewrite Hl in Hzn.
  assert (Hpz : p <> z) by (intros ->; congruence). assert (Hn1 : 1 < n) by lia.
  assert (Hdz : 0 < dst n p z < n) by (split; [|apply dst_lt; done]; circle).
  unfold shift_buckets. rewrite Hl.
  set (Inv j (s : list (option Pos) * Pos) := length s.1 = n /\ rh n s.1 /\ s.1 !! z = Some None /\ j < dst n p z
    /\ (exists y, bucket s.1 (cyc n p j) y /\ away n s.2 (cyc n p j) <= away n y (cyc n p j))
    /\ (forall e, bucket s.1 (cyc n p (j + 1)) e -> away n e (cyc n p (j + 1)) <= S (away n s.2 (cyc n p j)))
    /\ s.2 :: entries_of s.1 ≡ₚ prev :: entries_of idx).
  destruct (probing_rule n
    (fun probe '(idx, prev) => o ← idx !! probe; let idx := <[probe := Some prev]> idx in
       match o with Some p => Some (inl (idx, p)) | None => Some (inr idx) end) (p + 1) (idx, prev) Inv
    (fun idx' => length idx' = n /\ rh n idx' /\ entries_of idx' ≡ₚ prev :: entries_of idx)
    (dst n p z - 1)) as (r & Hr & HQ); [lia|lia| | |by exists r].
  - assert (Hc0 : cyc n p 0 = p) by circle. unfold Inv. cbn [fst snd]. rewrite Hc0. split_and!; try done; [lia|by exists y].
  - intros j [idx1 pr] Hj (Hl1 & Hrh1 & Hz1 & Hjz & (y1 & Hy1 & Hley) & Hnx & Hperm). cbn [fst snd] in *.
    assert (Hq : cyc n (p + 1) j = cyc n p (j + 1)) by circle. rewrite Hq. set (q := cyc n p (j + 1)) in *.
    assert (Hqn : q < n) by (apply cyc_lt; lia). assert (Hprv : prv n q = cyc n p j) by (unfold q; rewrite prv_cyc by lia; f_equal; lia).
    assert (Hpa : S (away n pr (cyc n p j)) = away n pr q).
    { pose proof (rh_free_bound n idx1 _ y1 z Hl1 Hrh1 Hy1 Hz1) as Hb. rewrite <- Hprv in *. apply away_succ; [done|lia]. }
    assert (Hfit : fits_at idx1 q pr).
    { split; [|intros e0 He0; specialize (Hnx e0 He0); lia]. intros _. exists y1. rewrite Hprv. split; [done|lia]. }
    pose proof (rh_fits idx1 q pr Hn1 Hl1 Hqn Hrh1 Hfit) as Hrh2.
    destruct (idx1 !! q) as [[e|]|] eqn:Hb; cbn [mbind option_bind].
    + assert (Hqz : q <> z) by (intros ->; congruence). pose proof (before_goal n p z j Hp Hzn Hjz Hqz). split; [lia|].
      unfold Inv. cbn [fst snd]. fold q. split_and!.
      * by rewrite length_insert.
      * done.
      * by rewrite list_lookup_insert_ne by done.
      * done.
      * exists pr. rewrite list_lookup_insert_eq by lia. split; [done|]. specialize (Hnx e eq_refl). lia.
      * assert (Hq2n : cyc n p (j + 1 + 1) < n) by (apply cyc_lt; lia).
        assert (Hprv2 : prv n (cyc n p (j + 1 + 1)) = q) by (rewrite prv_cyc by lia; unfold q; f_equal; lia).
        assert (Hq2 : cyc n p (j + 1 + 1) <> q) by (intros E; rewrite E in Hprv2; clear - Hprv2 Hqn Hn1; circle).
        intros e2 He2. rewrite list_lookup_insert_ne in He2 by done.
        destruct (decide (0 < away n e2 (cyc n p (j + 1 + 1)))); [|lia].
        destruct (Hrh1 _ e2 He2 ltac:(done)) as (e3 & He3 & Hle3). rewrite Hprv2 in *. rewrite Hb in He3. by injection He3 as <-.
      * rewrite (entries_replace idx1 q e pr Hb). rewrite <- Hperm, (entries_remove idx1 q e Hb). apply perm_swap.
    + split_and!; [by rewrite length_insert|done|]. by rewrite entries_insert by done.
    + apply lookup_ge_None in Hb. lia.
Qed.

(** [put_bucket] at a bucket where the entry fits. *)
Lemma put_bucket_spec idx p e z :
  length idx = n -> rh n idx -> p < n -> fits_at idx p e -> idx !! z = Some None ->
  (forall e0, bucket idx p e0 -> 1 < n) ->
  exists idx', put_bucket idx p e = Some idx' /\ length idx' = n /\ rh n idx' /\ entries_of idx' ≡ₚ e :: entries_of idx.
Proof.
  intros Hl Hrh Hp Hfit Hz Hn1. unfold put_bucket.
  assert (Hrh' : rh n (<[p := Some e]> idx)).
  { apply rh_insert; [done..| |apply Hfit]. intros Hd. destruct (proj1 Hfit Hd) as (e' & He' & Hle). exists e'. split; [done|]. split; [|done].
    pose proof (away_lt n e p Hp). circle. }
  destruct (idx !! p) as [[prev|]|] eqn:Hb; cbn [mbind option_bind].
  - specialize (Hn1 prev eq_refl). assert (Hpz : p <> z) by (intros ->; congruence).
    assert (Hc1 : cyc n p 1 <> p /\ cyc n p 1 < n /\ prv n (cyc n p 1) = p) by (split_and!; circle). destruct Hc1 as (Hc1 & Hc1n & Hc1p).
    destruct (shift_buckets_spec (<[p := Some e]> idx) p e prev z) as (idx' & Hs & Hl' & Hr' & Hperm).
    + by rewrite length_insert.
    + done.
    + done.
    + by rewrite list_lookup_insert_eq by lia.
    + by apply Hfit.
    + intros e1 He1. rewrite list_lookup_insert_ne in He1 by done. destruct (decide (0 < away n e1 (cyc n p 1))); [|lia].
      destruct (Hrh _ e1 He1 ltac:(done)) as (e2 & He2 & Hle). rewrite Hc1p in *. rewrite Hb in He2. by injection He2 as <-.
    + by rewrite list_lookup_insert_ne by done.
    + exists idx'. split; [done|]. split; [done|]. split; [done|]. rewrite Hperm, (entries_replace idx p prev e Hb), (entries_remove idx p prev Hb). apply perm_swap.
  - exists (<[p := Some e]> idx). split_and!; [done|by rewrite length_insert|done|by apply entries_insert].
  - apply lookup_ge_None in Hb. lia.
Qed.

(** [step_back]: after evictions the bucket for [e] is looked for again, backwards. *)
Lemma step_back_spec idx p e dist :
  length idx = n -> p < n -> away n e p = dist -> (forall e0, bucket idx p e0 -> away n e0 p <= dist) ->
  exists p', step_back m idx dist p = Some p' /\ p' < n /\ fits_at idx p' e.
Proof.
  intros Hl. revert p. induction dist as [|dist IH]; intros p Hp Hd Hocc; cbn [step_back].
  - exists p. split; [done|]. split; [done|]. split; [lia|]. intros e0 He0. specialize (Hocc e0 He0). lia.
  - rewrite (back_of_prv m n) by done. pose proof (prv_lt n p Hp) as Hq. set (q := prv n p) in *.
    assert (Hqa : away n e q = dist) by (pose proof (away_prv n e p Hp ltac:(lia)); unfold q; lia).
    destruct (idx !! q) as [[pos|]|] eqn:Hb; cbn [mbind option_bind].
    + rewrite (probe_distance_dst m n) by done. change (dst n (des n (p_hash pos)) q) with (away n pos q).
      destruct (Nat.ltb_spec (away n pos q) dist) as [Hlt|Hge].
      * apply IH; [done..|]. intros e0 He0. rewrite Hb in He0. injection He0 as <-. lia.
      * exists p. split; [done|]. split; [done|]. split; [|intros e0 He0; specialize (Hocc e0 He0); lia].
        intros _. exists pos. fold q. split; [done|lia].
    + apply IH; [done..|]. intros e0 He0. congruence.
    + apply lookup_ge_None in Hb. lia.
Qed.
End Insertion.

(** ** Growth *)

Lemma reinsert_all_app m a b idx : reinsert_all m (a ++ b) idx = (idx ← reinsert_all m a idx; reinsert_all m b idx).
Proof.
  revert idx. induction a as [|x a IH]; intros idx; [done|]. cbn [app reinsert_all].
  destruct (reinsert_entry_in_order m x idx); cbn [mbind option_bind]; [apply IH|done].
Qed.
(** [first_ideal] finds an ideally placed entry if there is one. *)
Lemma first_ideal_spec m n l i p e :
  shape m n -> i + length l <= n -> bucket l p e -> away n e (i + p) = 0 ->
  exists q e', first_ideal m l i = i + q /\ bucket l q e' /\ away n e' (i + q) = 0.
Proof.
  intros Hs. revert i p. induction l as [|o l IH]; intros i p Hl Hb Ha; [done|]. simpl in Hl.
  assert (Hnext : (forall e', o = Some e' -> away n e' i <> 0) ->
    exists q e', first_ideal m l (S i) = i + q /\ bucket (o :: l) q e' /\ away n e' (i + q) = 0).
  { intros Ho. destruct p as [|p].
    - simpl in Hb. injection Hb as ->. exfalso. apply (Ho e eq_refl). by rewrite Nat.add_0_r in Ha.
    - destruct (IH (S i) p) as (q & e' & -> & Hq & Hqa); [lia|done|by replace (S i + p) with (i + S p) by lia|].
      exists (S q), e'. split; [lia|]. split; [done|]. by replace (i + S q) with (S i + q) by lia. }
  destruct o as [pos|]; cbn [first_ideal]; [|by apply Hnext].
  rewrite (probe_distance_dst m n) by (done || lia). change (dst n (des n (p_hash pos)) i) with (away n pos i).
  destruct (Nat.eqb_spec (away n pos i) 0) as [E|E]; [|apply Hnext; by intros e' [= <-]].
  exists 0, pos. split; [lia|]. split; [done|]. by rewrite Nat.add_0_r.
Qed.
(** With a free bucket and an entry there is one: the first entry after the free bucket. *)
Lemma ideal_exists n idx z p e : length idx = n -> rh n idx -> idx !! z = Some None -> bucket idx p e ->
  exists q e', bucket idx q e' /\ away n e' q = 0.
Proof.
  intros Hl Hrh Hz. pose proof (bucket_lt _ _ _ Hz) as Hzn. rewrite Hl in Hzn.
  assert (Hind : forall i q e, i < n -> q = cyc n z i -> bucket idx q e -> exists q e', bucket idx q e' /\ away n e' q = 0).
  { induction i as [|i IH]; intros q e1 Hi -> He1.
    - assert (Hc : cyc n z 0 = z) by circle. rewrite Hc in He1. congruence.
    - destruct (decide (away n e1 (cyc n z (S i)) = 0)) as [E|E]; [by eauto|].
      destruct (Hrh _ e1 He1 ltac:(lia)) as (e2 & He2 & _). rewrite prv_cyc in He2 by lia.
      apply (IH (cyc n z i) e2); [lia|done|]. by replace (S i - 1) with i in He2 by lia. }
  intros He. pose proof (bucket_lt _ _ _ He) as Hp. rewrite Hl in Hp.
  apply (Hind (dst n z p) p e); [by apply dst_lt|by rewrite cyc_dst|done].
Qed.

Section Growth.
Context (n : nat) (idx : list (option Pos)) (Hl : length idx = n) (Hrh : rh n idx).
Context (f : nat) (Hf : f < n) (Hideal : forall p e, bucket idx p e -> exists e', bucket idx f e' /\ away n e' f = 0).

(** The entries in the order of the walk, and how far their desired bucket is into it. *)
Definition walked (i : nat) (e : Pos) : Prop := i < n /\ bucket idx (cyc n f i) e.
Definition want (e : Pos) : nat := dst n f (des n (p_hash e)).

Lemma walked_away i e : walked i e -> away n e (cyc n f i) <= i.
Proof.
  revert e. induction i as [|i IH]; intros e [Hi He].
  - destruct (Hideal _ _ He) as (e' & He' & Ha). assert (Hc : cyc n f 0 = f) by circle. rewrite Hc in *. rewrite He in He'. injection He' as <-. lia.
  - destruct (decide (0 < away n e (cyc n f (S i)))); [|lia]. destruct (Hrh _ e He ltac:(done)) as (e' & He' & Hle).
    rewrite prv_cyc in He', Hle by lia. replace (S i - 1) with i in * by lia. assert (Hw : walked i e') by (split; [lia|done]). specialize (IH e' Hw). lia.
Qed.
Lemma walked_want i e : walked i e -> want e = i - away n e (cyc n f i).
Proof.
  intros Hw. pose proof (walked_away i e Hw) as Ha. destruct Hw as [Hi _]. pose proof (des_lt n (p_hash e) ltac:(lia)) as Hd.
  unfold want, away in *. circle.
Qed.
Lemma walked_sorted i i' e e' : walked i e -> walked i' e' -> i <= i' -> want e <= want e'.
Proof.
  intros He. revert e'. induction i' as [|i' IH]; intros e' He' Hle.
  - assert (i = 0) as -> by lia. destruct He as [_ He], He' as [_ He']. rewrite He in He'. injection He' as <-. lia.
  - destruct (decide (i = S i')) as [->|]; [destruct He as [_ He], He' as [_ He']; rewrite He in He'; injection He' as <-; lia|].
    pose proof (walked_want _ _ He') as Hw'. pose proof (walked_want _ _ He) as Hw. destruct (decide (0 < away n e' (cyc n f (S i')))) as [Hd|]; [|lia].
    destruct He' as [Hi' He'']. destruct (Hrh _ e' He'' Hd) as (e1 & He1 & Hle1). rewrite prv_cyc in He1, Hle1 by lia. replace (S i' - 1) with i' in * by lia.
    assert (Hwk : walked i' e1) by (split; [lia|done]). specialize (IH e1 Hwk ltac:(lia)). pose proof (walked_want _ _ Hwk). pose proof (walked_away _ _ Hwk). lia.
Qed.

(** In the larger table, counted from [f]: the desired bucket is [want] or [want + n]. *)
Abbreviation N := (2 * n).
Definition want2 (e : Pos) : nat := dst N f (des N (p_hash e)).
Definition arc (e : Pos) : nat := if want2 e <? n then 0 else n.
Lemma des_double h : des N h = des n h \/ des N h = des n h + n.
Proof.
  unfold des. replace (Z.of_nat N) with (Z.of_nat n * 2)%Z by lia. rewrite Z.rem_mul_r by lia.
  pose proof (Z.mod_pos_bound h (Z.of_nat n)). pose proof (Z.mod_pos_bound (h / Z.of_nat n) 2).
  assert (E : (h / Z.of_nat n mod 2 = 0)%Z \/ (h / Z.of_nat n mod 2 = 1)%Z) by lia. destruct E as [-> | ->]; lia.
Qed.
Lemma want2_arc e : want2 e = want e + arc e /\ want e < n.
Proof.
  unfold arc, want2, want. pose proof (des_lt n (p_hash e) ltac:(lia)). destruct (des_double (p_hash e)) as [-> | ->]; split; circle.
Qed.

(** What has been reinserted after [i] buckets of the walk. *)
Definition regrown (i : nat) (t : list (option Pos)) : Prop :=
  length t = N /\ rh N t /\ forall b e, bucket t b e -> (exists i0, i0 < i /\ walked i0 e) /\ want2 e <= dst N f b < arc e + i.

Lemma dst_diff a c : a < N -> c < N -> f < N -> dst N f a <= dst N f c -> dst N a c = dst N f c - dst N f a.
Proof. intros. circle. Qed.
Lemma dst_step a j : a < N -> f < N -> dst N f a + j < N -> dst N f (cyc N a j) = dst N f a + j /\ cyc N a j < N.
Proof. intros. split; circle. Qed.
Lemma dst_back a : a < N -> f < N -> 0 < dst N f a -> dst N f (prv N a) = dst N f a - 1.
Proof. intros. circle. Qed.

Lemma reinsert_step m i e t : shape m N -> regrown i t -> walked i e ->
  exists t', reinsert_entry_in_order m (Some e) t = Some t' /\ regrown (S i) t' /\ entries_of t' ≡ₚ e :: entries_of t.
Proof.
  intros Hs (Ht & Hrt & Hinv) Hw. pose proof (proj1 Hw) as Hi. unfold reinsert_entry_in_order. rewrite Ht, (desired_des m N) by done.
  pose proof (want2_arc e) as [Hw2 Hwn]. pose proof (walked_want i e Hw) as Hwi.
  set (d := des N (p_hash e)) in *. assert (Hd : d < N) by (apply des_lt; lia).
  assert (Hu : dst N f d = want2 e) by done. assert (Ha : arc e = 0 \/ arc e = n) by (unfold arc; case_match; auto).
  (* an entry passed on the way wants a bucket no later than [e] does *)
  assert (Hpass : forall j e1, j <= i - want e -> bucket t (cyc N d j) e1 -> j < i - want e /\ j <= away N e1 (cyc N d j) /\ away N e (cyc N d j) = j).
  { intros j e1 Hj He1. destruct (dst_step d j Hd ltac:(lia) ltac:(lia)) as [Hb Hbn]. rewrite Hu in Hb.
    destruct (Hinv _ e1 He1) as [(i0 & Hi0 & Hw0) [Hlo Hhi]]. pose proof (want2_arc e1) as [Hw1 Hw1n].
    pose proof (walked_sorted i0 i e1 e Hw0 Hw ltac:(lia)) as Hsort.
    assert (Harc : arc e1 = arc e) by (assert (arc e1 = 0 \/ arc e1 = n) by (unfold arc; case_match; auto); lia).
    unfold away. fold d. rewrite (dst_diff d) by (done || lia). rewrite (dst_diff (des N (p_hash e1))); [|apply des_lt; lia|lia|lia|exact Hlo].
    change (dst N f (des N (p_hash e1))) with (want2 e1). lia. }
  destruct (probing_rule N
    (fun probe (_ : unit) => o ← t !! probe;
       match o with
       | None => Some (inr (<[probe := Some e]> t))
       | Some them => _ ← assert (probe_distance m (p_hash e) probe <=? probe_distance m (p_hash them) probe); Some (inl tt)
       end) d tt
    (fun j _ => j <= i - want e /\ (0 < j -> exists e1, bucket t (cyc N d (j - 1)) e1 /\ j - 1 <= away N e1 (cyc N d (j - 1))))
    (fun t' => regrown (S i) t' /\ entries_of t' ≡ₚ e :: entries_of t) (i - want e)) as (t' & Ht' & HQ); [lia|lia|lia| |by exists t'].
  intros j [] Hj [_ Hprev]. destruct (dst_step d j Hd ltac:(lia) ltac:(lia)) as [Hb Hbn]. rewrite Hu in Hb.
  assert (Hea : away N e (cyc N d j) = j) by (unfold away; fold d; apply dst_cyc; lia).
  destruct (t !! cyc N d j) as [[them|]|] eqn:Hlk; cbn [mbind option_bind].
  - destruct (Hpass j them Hj Hlk) as (H1 & H2 & H3). rewrite !(probe_distance_dst m N) by done.
    change (dst N (des N (p_hash e)) (cyc N d j)) with (away N e (cyc N d j)). change (dst N (des N (p_hash them)) (cyc N d j)) with (away N them (cyc N d j)).
    rewrite (proj2 (Nat.leb_le _ _)) by lia. cbn. split; [lia|]. split; [lia|]. intros _. exists them. by replace (j + 1 - 1) with j by lia.
  - split; [|by apply entries_insert]. split; [by rewrite length_insert|]. split.
    + apply (rh_fits N); [lia|done|done|done|]. split; [|intros e0 He0; congruence]. rewrite Hea. intros Hj0.
      destruct (Hprev Hj0) as (e1 & He1 & Hle). exists e1. rewrite prv_cyc by lia. split; [done|lia].
    + intros b e1 He1. apply bucket_insert in He1 as [[-> [= <-]]|[_ He1]]; [| |lia].
      * split; [by exists i; split; [lia|]|]. lia.
      * destruct (Hinv b e1 He1) as [(i0 & Hi0 & Hw0) Hb1]. split; [by exists i0; split; [lia|]|lia].
  - apply lookup_ge_None in Hlk. lia.
Qed.

(** The walk from [f]. *)
Definition walk : list (option Pos) := drop f idx ++ take f idx.
Lemma walk_lookup i : i < n -> walk !! i = idx !! cyc n f i.
Proof.
  intros Hi. unfold walk, cyc. destruct (Nat.ltb_spec (f + i) n).
  - rewrite lookup_app_l by (rewrite length_drop; lia). apply lookup_drop.
  - rewrite lookup_app_r by (rewrite length_drop; lia). rewrite length_drop, lookup_take_lt by lia. f_equal. lia.
Qed.
Lemma walk_length : length walk = n.
Proof. unfold walk. rewrite length_app, length_drop, length_take. lia. Qed.

Lemma reinsert_walk m i t : shape m N -> i <= n -> regrown i t ->
  exists t', reinsert_all m (drop i walk) t = Some t' /\ regrown n t' /\ entries_of t' ≡ₚ entries_of (drop i walk) ++ entries_of t.
Proof.
  intros Hs. remember (n - i) as k eqn:Hk. revert i Hk t. induction k as [|k IH]; intros i Hk t Hi Ht.
  - assert (i = n) as -> by lia. rewrite drop_ge by (rewrite walk_length; lia). by exists t.
  - destruct (lookup_lt_is_Some_2 walk i ltac:(rewrite walk_length; lia)) as [o Ho]. rewrite (drop_S _ _ _ Ho). cbn [reinsert_all].
    rewrite walk_lookup in Ho by lia. destruct o as [e|].
    + assert (Hw : walked i e) by (split; [lia|done]).
      destruct (reinsert_step m i e t Hs Ht Hw) as (t1 & -> & Ht1 & Hp1). cbn [mbind option_bind].
      destruct (IH (S i) ltac:(lia) t1 ltac:(lia) Ht1) as (t' & Hr & Ht' & Hp'). exists t'. split; [done|]. split; [done|].
      change (entries_of (Some e :: drop (S i) walk)) with (e :: entries_of (drop (S i) walk)).
      rewrite Hp', Hp1. simpl. by rewrite Permutation_middle.
    + cbn [reinsert_entry_in_order mbind option_bind]. apply IH; [lia|lia|]. destruct Ht as (H1 & H2 & H3). split; [done|]. split; [done|].
      intros b e He. destruct (H3 b e He) as [(i0 & Hi0 & Hw0) Hb]. split; [exists i0; split; [lia|done]|lia].
Qed.
End Growth.

(** [grow] keeps the entries and the invariant. *)
Lemma grow_spec m n idx z : shape m n -> (Z.of_nat n <= 2 ^ 61)%Z -> length idx = n -> rh n idx -> idx !! z = Some None ->
  exists m' idx', grow_indices m idx (2 * n) = Some (m', idx') /\ shape m' (2 * n) /\ length idx' = 2 * n /\ rh (2 * n) idx'
    /\ entries_of idx' ≡ₚ entries_of idx.
Proof.
  intros Hs Hbig Hl Hrh Hz. pose proof (shape_pos _ _ Hs) as Hn. unfold grow_indices.
  set (f := first_ideal m idx 0). set (m' := uwrap (Z.of_nat (2 * n) - 1)).
  assert (Hs' : shape m' (2 * n)).
  { destruct Hs as (k & Hk & _ & Hnk). assert (k <= 61)%Z by (apply (Z.pow_le_mono_r_iff 2); lia). exists (k + 1)%Z.
    rewrite Z.pow_add_r by lia. split; [lia|]. split; [|lia]. unfold m', uwrap, wrap. rewrite Z.mod_small; [lia|].
    pose proof (Z.pow_pos_nonneg 2 k). assert (2 ^ 62 < 2 ^ 64)%Z by done. lia. }
  assert (Hfi : f < n /\ forall p e, bucket idx p e -> exists e', bucket idx f e' /\ away n e' f = 0).
  { assert (Hdec : (exists p e, bucket idx p e) \/ ~ exists p e, bucket idx p e).
    { destruct (entries_of idx) as [|e l] eqn:E.
      - right. intros (p & e & He). assert (Hin : e ∈ entries_of idx) by (apply elem_of_entries; by exists p). rewrite E in Hin. by apply not_elem_of_nil in Hin.
      - left. destruct (proj1 (elem_of_entries idx e)) as [p He]; [rewrite E; left|by exists p, e]. }
    destruct Hdec as [(p & e & He)|Hno].
    - destruct (ideal_exists n idx z p e Hl Hrh Hz He) as (q & e1 & He1 & Ha).
      destruct (first_ideal_spec m n idx 0 q e1 Hs ltac:(lia) He1 Ha) as (q' & e' & Hf' & Hb & Ha'). simpl in Hf', Ha'. unfold f. rewrite Hf'.
      split; [apply bucket_lt in Hb; lia|by exists e'].
    - assert (Hf0 : f = 0).
      { unfold f. assert (Hnone : forall l i, (forall e, Some e ∉ l) -> first_ideal m l i = 0).
        { induction l as [|[e|] l IH]; intros i H; [done| |].
          - exfalso. apply (H e). left.
          - cbn. apply IH. intros e He. apply (H e). by right. }
        apply Hnone. intros e [p He]%list_elem_of_lookup. apply Hno. by exists p, e. }
      rewrite Hf0. split; [done|]. intros p e He. exfalso. apply Hno. by exists p, e. }
  destruct Hfi as [Hf Hideal].
  destruct (reinsert_walk n idx Hl Hrh f Hf Hideal m' 0 (replicate (2 * n) None) Hs') as (t' & Hr & (Hlt & Hrt & _) & Hperm).
  - lia.
  - split; [by rewrite length_replicate|]. split; [apply rh_nil|]. intros b e He. by apply lookup_replicate in He as [? _].
  - rewrite drop_0 in Hr, Hperm. unfold walk in Hr. rewrite reinsert_all_app in Hr.
    destruct (reinsert_all m' (drop f idx) _) as [t1|]; [|done]. cbn [mbind option_bind] in Hr |- *. rewrite Hr. cbn [mbind option_bind].
    exists m', t'. split_and!; [done..|]. rewrite Hperm. unfold walk, entries_of.
    assert (Hnil : forall k, omap id (replicate k (@None Pos)) = []) by (induction k; [done|]; simpl; done).
    rewrite Hnil, app_nil_r, omap_app, Permutation_app_comm, <- omap_app, take_drop. done.
Qed.
