(* ===== verification/HpackSync.v ===== *)
(** * The HPACK encoder's table refines the decoder's

    The invariant of the encoder's table (HpackIndex.v): every slot is referred to exactly once,
    by a bucket of the index or by an older slot of the same name.  Under it no loop of the
    table runs on, no assertion fails, and what the table holds is what the decoder's table
    (HpackTable.v) holds after the same insertions and size updates; so the two ends of a
    connection stay in step. *)

From S2P Require Import Prelude Http HpackInt HpackHeader HpackTable HpackDecoder HpackEncoder HpackIndex HpackProbe.

Section Invariant.
Context `{FT : FieldTypes} `{NH : NameHash}.

(** The table as the decoder has it. *)
Definition as_table (t : ETable) : Table := mkTable (s_header <$> slots t) (esize t) (emax_size t).

(** The number by which the slot at [z] is known; [-1] is the one to come. *)
Definition id_of (t : ETable) (z : Z) : Z := uwrap (z - inserted t).
Definition ids (t : ETable) : list Z := (fun r => id_of t (Z.of_nat r)) <$> seq 0 (length (slots t)).
Definition refs (t : ETable) : list Z := (p_index <$> entries_of (indices t)) ++ omap s_next (slots t).

Definition slot_ok (t : ETable) (r : nat) (s : Slot) : Prop :=
  s_hash s = hash_header (s_header s)
  /\ forall nx, s_next s = Some nx -> exists r' s', (r' < r)%nat /\ nx = id_of t (Z.of_nat r') /\ slots t !! r' = Some s'
       /\ header_name (s_header s') = header_name (s_header s).
Definition pos_ok (t : ETable) (fut : option Z) (e : Pos) : Prop :=
  (exists r s, slots t !! r = Some s /\ p_index e = id_of t (Z.of_nat r) /\ p_hash e = s_hash s)
  \/ (fut = Some (p_hash e) /\ p_index e = id_of t (-1)).

(** [fut]: the hash of the slot to come when a bucket already refers to it; [pending]: the size
    of the header to come. *)
Record inv (fut : option Z) (pending : Z) (t : ETable) : Prop := {
  i_shape : length (indices t) = 0%nat \/ shape (mask t) (length (indices t)) /\ (8 <= length (indices t))%nat;
  i_cap : (length (slots t) <= ecapacity t)%nat;
  i_few : len (slots t) <= 2 ^ 27;
  i_rh : rh (length (indices t)) (indices t);
  i_ins : 0 <= inserted t < 2 ^ 64;
  i_slots : forall r s, slots t !! r = Some s -> slot_ok t r s;
  i_pos : forall e, e ∈ entries_of (indices t) -> pos_ok t fut e;
  i_refs : refs t ≡ₚ (match fut with Some _ => [id_of t (-1)] | None => [] end) ++ ids t;
  i_size : esize t = total (s_header <$> slots t) + pending;
}.

Lemma uchk_ok z : 0 <= z < 2 ^ 64 -> uchk z = Some z.
Proof. intros Hz. unfold uchk, fitsb. rewrite (proj2 (Z.leb_le 0 z)), (proj2 (Z.ltb_lt z _)) by lia. done. Qed.
Lemma id_inj t a b : -1 <= a < 2 ^ 60 -> -1 <= b < 2 ^ 60 -> id_of t a = id_of t b -> a = b.
Proof.
  intros Ha Hb. unfold id_of, uwrap, wrap. intros E.
  assert (Hm : (a - b) mod 2 ^ 64 = 0).
  { replace (a - b) with ((a - inserted t) - (b - inserted t)) by lia. rewrite Zminus_mod, E, Z.sub_diag. done. }
  apply Z.mod_divide in Hm as [k Hk]; [|lia]. nia.
Qed.
Lemma id_real t z : 0 <= z < 2 ^ 60 -> uwrap (id_of t z + inserted t) = z.
Proof.
  intros Hz. unfold id_of, uwrap, wrap. rewrite Zplus_mod_idemp_l. replace (z - inserted t + inserted t) with z by lia. apply Z.mod_small. lia.
Qed.
Lemma elem_ids t i : i ∈ ids t <-> exists r, (r < length (slots t))%nat /\ i = id_of t (Z.of_nat r).
Proof.
  unfold ids. rewrite list_elem_of_fmap. setoid_rewrite elem_of_seq. split.
  - intros (r & -> & Hr). exists r. split; [lia|done].
  - intros (r & Hr & ->). exists r. split; [done|lia].
Qed.
Lemma ids_nodup t : len (slots t) <= 2 ^ 27 -> NoDup (ids t).
Proof.
  intros Hf. unfold ids. apply NoDup_fmap_2_strong; [|apply NoDup_seq]. intros a b Ha%elem_of_seq Hb%elem_of_seq E.
  unfold len in Hf. apply id_inj in E; lia.
Qed.
Lemma entries_bound fut pend t : inv fut pend t -> (length (entries_of (indices t)) <= length (slots t) + (if fut then 1 else 0))%nat.
Proof.
  intros H. pose proof (Permutation_length (i_refs _ _ _ H)) as Hp. unfold refs in Hp. rewrite !length_app, length_fmap in Hp.
  unfold ids in Hp. rewrite length_fmap, length_seq in Hp. destruct fut; simpl in Hp; lia.
Qed.
Lemma free_exists fut pend t : inv fut pend t -> length (indices t) <> 0%nat -> exists z, indices t !! z = Some None.
Proof.
  intros H Hn. apply free_bucket. pose proof (entries_bound _ _ _ H) as Hb. pose proof (i_cap _ _ _ H) as Hc. destruct (i_shape _ _ _ H) as [|[_ H8]]; [lia|].
  unfold ecapacity, usable_capacity in Hc. assert (2 <= length (indices t) / 4)%nat by (apply Nat.div_le_lower_bound; lia).
  pose proof (Nat.div_lt (length (indices t)) 4). destruct fut; lia.
Qed.
Lemma refs_nodup fut pend t : inv fut pend t -> NoDup (refs t).
Proof.
  intros H. rewrite (i_refs _ _ _ H). pose proof (i_few _ _ _ H) as Hf. pose proof (ids_nodup t Hf) as Hd. destruct fut; [|done]. simpl. apply NoDup_cons. split; [|done].
  rewrite elem_ids. intros (r & Hr & E). unfold len in Hf. apply id_inj in E; lia.
Qed.

(** ** Eviction *)

(** The last slot's reference is in a bucket: no slot is older than it. *)
Lemma last_indexed fut pend t l s : inv fut pend t -> slots t = l ++ [s] ->
  exists p e, indices t !! p = Some (Some e) /\ p_index e = id_of t (Z.of_nat (length l)) /\ p_hash e = s_hash s.
Proof.
  intros H Hs. pose proof (i_few _ _ _ H) as Hf. rewrite Hs, len_app in Hf. change (len [s]) with 1 in Hf. unfold len in Hf.
  assert (Hin : id_of t (Z.of_nat (length l)) ∈ refs t).
  { rewrite (i_refs _ _ _ H). apply elem_of_app. right. apply elem_ids. exists (length l). rewrite Hs, length_app. simpl. split; [lia|done]. }
  unfold refs in Hin. apply elem_of_app in Hin as [Hin|Hin].
  - apply list_elem_of_fmap in Hin as (e & He & Hin). pose proof Hin as [p Hp]%elem_of_entries. exists p, e. split; [done|]. split; [done|].
    destruct (i_pos _ _ _ H e Hin) as [(r & s' & Hr & Hid & ->)|[_ Hid]].
    + rewrite Hid in He. pose proof (lookup_lt_Some _ _ _ Hr) as Hlt. rewrite Hs, length_app in Hlt. simpl in Hlt.
      apply id_inj in He; [|lia..]. assert (r = length l) as -> by lia. rewrite Hs, list_lookup_middle in Hr by done. by injection Hr as ->.
    + rewrite Hid in He. apply id_inj in He; lia.
  - apply list_elem_of_omap in Hin as (s' & [r Hr]%list_elem_of_lookup & Hn). destruct (i_slots _ _ _ H r s' Hr) as [_ Hnx].
    destruct (Hnx _ Hn) as (r' & s2 & Hlt & E & _). pose proof (lookup_lt_Some _ _ _ Hr) as Hlt'. rewrite Hs, length_app in Hlt'. simpl in Hlt'. apply id_inj in E; lia.
Qed.

(** Two buckets with the same number are one. *)
Lemma bucket_unique (idx : list (option Pos)) p q e e' :
  NoDup (p_index <$> entries_of idx) -> idx !! p = Some (Some e) -> idx !! q = Some (Some e') -> p_index e' = p_index e -> q = p.
Proof.
  intros Hnd Hp Hq E. destruct (decide (q = p)) as [|Hne]; [done|]. exfalso. rewrite (entries_remove idx p e Hp) in Hnd. simpl in Hnd.
  apply NoDup_cons in Hnd as [Hnot _]. apply Hnot. rewrite <- E. apply list_elem_of_fmap_2. apply elem_of_entries. exists q. by rewrite list_lookup_insert_ne by done.
Qed.
Lemma filter_one (l : list Pos) e : NoDup (p_index <$> l) -> e ∈ l -> length (filter (fun p => p_index p = p_index e) l) = 1%nat.
Proof.
  intros Hnd [l1 [l2 ->]]%list_elem_of_split. rewrite fmap_app, fmap_cons in Hnd. apply NoDup_app in Hnd as (_ & H1 & H2). apply NoDup_cons in H2 as [H2 _].
  assert (Hno : forall l, p_index e ∉ (p_index <$> l) -> filter (fun p => p_index p = p_index e) l = []).
  { intros l Hl. induction l as [|x l IH]; [done|]. rewrite fmap_cons in Hl. apply not_elem_of_cons in Hl as [Hx Hl]. rewrite filter_cons_False by (intros ?; congruence). by apply IH. }
  rewrite filter_app, filter_cons_True by done. rewrite (Hno l2 H2), (Hno l1); [done|]. intros Hin. apply (H1 _ Hin). left.
Qed.
(** A new number in the same bucket. *)
Lemma rename_bucket n (idx : list (option Pos)) p e i : (1 < n)%nat -> length idx = n -> rh n idx -> idx !! p = Some (Some e) ->
  rh n (<[p := Some (mkPos i (p_hash e))]> idx) /\ dominated n (<[p := Some (mkPos i (p_hash e))]> idx) idx.
Proof.
  intros Hn Hl Hrh He. pose proof (bucket_lt _ _ _ He) as Hp. split.
  - apply rh_fits; [done..|lia|done|]. split; [exact (Hrh p e He)|]. intros e0 He0. rewrite He in He0. by injection He0 as <-.
  - intros q e1 He1. apply bucket_insert in He1 as [[-> [= <-]]|[_ He1]]; [by exists e|by exists e1|lia].
Qed.

(** What the eviction of the last slot does to the index. *)
Lemma evict_index_spec fut pend t l s prev :
  inv fut pend t -> slots t = l ++ [s] -> inserted t + 1 < 2 ^ 64 ->
  let last := id_of t (Z.of_nat (length l)) in
  let new := match s_next s with Some n => Some n | None => if bool_decide (Some last = prev) then Some (id_of t (-1)) else None end in
  exists idx, evict_index t s last prev = Some idx /\ length idx = length (indices t) /\ rh (length (indices t)) idx
    /\ dominated (length (indices t)) idx (indices t)
    /\ last :: (p_index <$> entries_of idx) ≡ₚ option_list new ++ (p_index <$> entries_of (indices t))
    /\ forall e, e ∈ entries_of idx -> (e ∈ entries_of (indices t) /\ p_index e <> last) \/ (new = Some (p_index e) /\ p_hash e = s_hash s).
Proof.
  intros H Hs Hins last new. destruct (last_indexed fut pend t l s H Hs) as (p & e & He & Hid & Hh). change (p_index e = last) in Hid.
  pose proof (bucket_lt _ _ _ He) as Hp. set (n := length (indices t)) in *.
  destruct (i_shape _ _ _ H) as [|[Hsh H8]]; [lia|]. fold n in Hsh, H8.
  destruct (free_exists fut pend t H ltac:(lia)) as [z Hz]. pose proof (i_rh _ _ _ H) as Hrh. fold n in Hrh.
  assert (Hnd : NoDup (p_index <$> entries_of (indices t))) by (pose proof (refs_nodup _ _ _ H) as Hnd; by apply NoDup_app in Hnd as [? _]).
  assert (Hother : forall e', e' ∈ entries_of (<[p := None]> (indices t)) -> e' ∈ entries_of (indices t) /\ p_index e' <> last).
  { intros e' He'. rewrite (entries_remove _ p e He) in Hnd |- *. split; [by right|]. rewrite <- Hid. intros E. simpl in Hnd.
    apply NoDup_cons in Hnd as [Hnd _]. apply Hnd. rewrite <- E. by apply list_elem_of_fmap_2. }
  set (Q idx := length idx = n /\ rh n idx /\ dominated n idx (indices t)
    /\ last :: (p_index <$> entries_of idx) ≡ₚ option_list new ++ (p_index <$> entries_of (indices t))
    /\ forall e, e ∈ entries_of idx -> (e ∈ entries_of (indices t) /\ p_index e <> last) \/ (new = Some (p_index e) /\ p_hash e = s_hash s)).
  assert (Hren : forall i, new = Some i -> Q (<[p := Some (mkPos i (p_hash e))]> (indices t))).
  { intros i Hi. destruct (rename_bucket n (indices t) p e i ltac:(lia) eq_refl Hrh He) as [H1 H2]. split; [by rewrite length_insert|]. split; [done|]. split; [done|].
    rewrite Hi. split.
    - rewrite (entries_replace _ p e _ He), (entries_remove _ p e He). rewrite !fmap_cons, Hid. simpl. apply perm_swap.
    - intros e1. rewrite (entries_replace _ p e _ He), elem_of_cons. intros [-> |He1]; [by right|left; by apply Hother]. }
  unfold evict_index. fold n. rewrite (desired_des _ n) by done.
  destruct (probing_rule n
    (fun probe (_ : unit) => o ← indices t !! probe; pos ← o;
       if p_index pos =? last then
         match s_next s with
         | Some n => Some (inr (<[probe := Some (mkPos n (p_hash pos))]> (indices t)))
         | None =>
             if bool_decide (Some (p_index pos) = prev) then
               i ← uchk (inserted t + 1); Some (inr (<[probe := Some (mkPos (uwrap (0 - i)) (p_hash pos))]> (indices t)))
             else idx ← remove_phase_two (mask t) (<[probe := None]> (indices t)) probe; Some (inr idx)
         end
       else Some (inl tt)) (des n (s_hash s)) tt (fun _ _ => True) Q (away n e p)) as (r & Hr & HQ); [|by apply away_lt|done| |by exists r].
  { pose proof (des_lt n (s_hash s) ltac:(lia)). lia. }
  intros j [] Hj _. destruct (rh_reach n (indices t) p e j eq_refl Hrh He Hj) as (e' & He' & _). rewrite <- Hh. rewrite He'. cbn [mbind option_bind].
  destruct (Z.eqb_spec (p_index e') last) as [E|E].
  - assert (cyc n (des n (p_hash e)) j = p) as Hcp by (eapply bucket_unique; [done|exact He|exact He'|by rewrite Hid]). rewrite Hcp in *.
    rewrite He in He'. injection He' as <-. rewrite Hid. unfold new in *. destruct (s_next s) as [nx|]; [by apply Hren|].
    case_bool_decide as Hb.
    + pose proof (i_ins _ _ _ H). rewrite uchk_ok by lia. cbn.
      change (uwrap (- (inserted t + 1))) with (uwrap (0 - (inserted t + 1))). replace (0 - (inserted t + 1)) with (-1 - inserted t) by lia. by apply Hren.
    + destruct (remove_phase_two_spec (mask t) n Hsh (indices t) p e z eq_refl Hrh He Hz) as (idx' & -> & Hl' & Hrh' & Hdom & Hperm). cbn.
      split; [done|]. split; [done|]. split; [done|]. split.
      * rewrite Hperm. by rewrite fmap_cons, Hid.
      * intros e1 He1. left. pose proof Hnd as Hnd'. rewrite Hperm in Hnd' |- *. split; [by right|]. simpl in Hnd'. apply NoDup_cons in Hnd' as [Hnot _]. rewrite <- Hid.
        intros E1. apply Hnot. rewrite <- E1. by apply list_elem_of_fmap_2.
  - split; [|done]. destruct (decide (j = away n e p)) as [->|]; [|lia]. exfalso. apply E.
    assert (Hc : cyc n (des n (p_hash e)) (away n e p) = p) by (apply cyc_dst; [apply des_lt; lia|done]). rewrite Hc in He'. rewrite He in He'. by injection He' as <-.
Qed.

(** The slot that must not be forgotten: [index_occupied] is about to link a new slot to the one at
    [r0], with hash [h]; when that slot goes, its bucket refers to the one to come. *)
Definition prev_id (t : ETable) (prev : option (nat * Z)) : option Z := (fun p => id_of t (Z.of_nat p.1)) <$> prev.
Definition fut_of (prev : option (nat * Z)) (t : ETable) : option Z :=
  match prev with Some (r0, h) => if (length (slots t) <=? r0)%nat then Some h else None | None => None end.
Definition prev_ok (prev : option (nat * Z)) (t : ETable) : Prop :=
  match prev with
  | Some (r0, h) => Z.of_nat r0 < 2 ^ 60 /\ forall s, slots t !! r0 = Some s -> s_next s = None /\ s_hash s = h
  | None => True
  end.
(** The table apart from its slots and buckets. *)
Definition same_frame (t t' : ETable) : Prop :=
  mask t' = mask t /\ length (indices t') = length (indices t) /\ inserted t' = inserted t /\ emax_size t' = emax_size t
  /\ dominated (length (indices t)) (indices t') (indices t).
Lemma same_frame_refl t : same_frame t t.
Proof. split_and!; try done. apply dominated_refl. Qed.
Lemma same_frame_trans a b c : same_frame a b -> same_frame b c -> same_frame a c.
Proof.
  intros (A1 & A2 & A3 & A4 & A5) (B1 & B2 & B3 & B4 & B5). split_and!; try congruence. rewrite A2 in B5. by eapply dominated_trans.
Qed.
Lemma ids_snoc t l s (t' : ETable) : slots t = l ++ [s] -> slots t' = l -> inserted t' = inserted t -> ids t = ids t' ++ [id_of t (Z.of_nat (length l))].
Proof.
  intros Hs Hs' Hi. unfold ids, id_of. rewrite Hs, Hs', Hi, length_app. simpl. rewrite Nat.add_1_r, seq_S, fmap_app. done.
Qed.
Lemma inv_size_nonneg fut pend t l s : inv fut pend t -> 0 <= pend -> slots t = l ++ [s] -> header_len (s_header s) <= esize t /\ esize t - header_len (s_header s) = total (s_header <$> l) + pend.
Proof.
  intros H Hp Hs. rewrite (i_size _ _ _ H), Hs, fmap_app, total_app. simpl. pose proof (total_nonneg (s_header <$> l)). lia.
Qed.

Lemma evict_spec prev pend t l s :
  inv (fut_of prev t) pend t -> prev_ok prev t -> slots t = l ++ [s] -> inserted t + 1 < 2 ^ 64 -> 0 <= pend -> esize t < 2 ^ 64 ->
  exists t', evict (prev_id t prev) t = Some t' /\ slots t' = l /\ same_frame t t' /\ inv (fut_of prev t') pend t' /\ prev_ok prev t'.
Proof.
  intros H Hprev Hs Hins Hpend Hsz. pose proof (i_few _ _ _ H) as Hfew. rewrite Hs, len_app in Hfew. change (len [s]) with 1 in Hfew. pose proof (len_nonneg l) as Hln.
  set (last := id_of t (Z.of_nat (length l))).
  assert (Hlast : forall r0 h, prev = Some (r0, h) -> id_of t (Z.of_nat r0) = last -> r0 = length l).
  { intros r0 h -> E. destruct Hprev as [Hr _]. apply id_inj in E; unfold len in *; lia. }
  destruct (evict_index_spec _ pend t l s (prev_id t prev) H Hs Hins) as (idx & Hidx & Hl & Hrh & Hdom & Hperm & Hpos). fold last in Hidx, Hperm, Hpos.
  set (new := match s_next s with Some n => Some n | None => _ end) in *.
  destruct (inv_size_nonneg _ pend t l s H Hpend Hs) as [Hle Hsize].
  set (t' := mkETable (mask t) idx l (inserted t) (esize t - header_len (s_header s)) (emax_size t)).
  assert (Hev : evict (prev_id t prev) t = Some t').
  { unfold evict. rewrite Hs, len_app. change (len [s]) with 1. rewrite uchk_ok by lia. cbn [mbind option_bind].
    rewrite pop_back_snoc. cbn [mbind option_bind]. rewrite uchk_ok by (pose proof (header_len_pos (s_header s)); lia).
    cbn [mbind option_bind]. replace (len l + 1 - 1) with (Z.of_nat (length l)) by (unfold len; lia).
    change (uwrap (Z.of_nat (length l) - inserted t)) with last.
    destruct (last_indexed _ pend t l s H Hs) as (p & e & He & Hid & _). fold last in Hid.
    assert (Hone : length (filter (fun p => p_index p = last) (omap id (indices t))) = 1%nat).
    { rewrite <- Hid. apply filter_one; [|apply elem_of_entries; by exists p]. pose proof (refs_nodup _ _ _ H) as Hnd. by apply NoDup_app in Hnd as [? _]. }
    rewrite Hone. cbn [assert Nat.eqb mbind option_bind]. by rewrite Hidx. }
  assert (Hid' : forall z, id_of t' z = id_of t z) by done.
  (* what [new] stands for, and what is pending afterwards *)
  assert (Hcase : (exists nx, s_next s = Some nx /\ new = Some nx /\ fut_of prev t' = fut_of prev t)
    \/ (s_next s = None /\ new = Some (id_of t (-1)) /\ fut_of prev t = None /\ fut_of prev t' = Some (s_hash s))
    \/ (s_next s = None /\ new = None /\ fut_of prev t' = fut_of prev t)).
  { assert (Hkeep : (forall r0 h, prev = Some (r0, h) -> r0 <> length l) -> fut_of prev t' = fut_of prev t).
    { unfold fut_of, t'. cbn [slots]. rewrite Hs, length_app. destruct prev as [[r0 h]|]; [|done]. intros Hne. specialize (Hne r0 h eq_refl). simpl.
      destruct (Nat.leb_spec (length l) r0), (Nat.leb_spec (length l + 1) r0); try done; lia. }
    unfold new. destruct (s_next s) as [nx|] eqn:Hnx.
    - left. exists nx. split; [done|]. split; [done|]. apply Hkeep. intros r0 h -> ->. destruct Hprev as [_ Hp]. destruct (Hp s) as [? _]; [by rewrite Hs, list_lookup_middle|congruence].
    - right. case_bool_decide as Hb.
      + left. destruct prev as [[r0 h]|]; [|done]. cbn in Hb. injection Hb as Hb. assert (r0 = length l) as -> by (by eapply Hlast). destruct Hprev as [_ Hp]. destruct (Hp s) as [_ Hh]; [by rewrite Hs, list_lookup_middle|].
        unfold fut_of, t'. cbn [slots]. rewrite Hs, length_app. simpl. rewrite Nat.leb_refl. rewrite (proj2 (Nat.leb_gt _ _)) by lia. by subst h.
      + right. split; [done|]. split; [done|]. apply Hkeep. intros r0 h -> ->. by apply Hb. }
  exists t'. split; [done|]. split; [done|]. split; [by split_and!|]. split; cycle 1.
  { destruct prev as [[r0 h]|]; [|done]. destruct Hprev as [Hr0 Hp]. split; [done|]. intros s' Hs'. apply Hp. rewrite Hs. by apply lookup_app_l_Some. }
  constructor; cbn [indices slots mask inserted esize emax_size t'].
  - rewrite Hl. apply (i_shape _ _ _ H).
  - change (ecapacity t') with (usable_capacity (length idx)). rewrite Hl. pose proof (i_cap _ _ _ H) as Hc. rewrite Hs, length_app in Hc. unfold ecapacity in Hc. lia.
  - lia.
  - by rewrite Hl.
  - apply (i_ins _ _ _ H).
  - intros r s' Hr. destruct (i_slots _ _ _ H r s') as [Hh Hnx]; [rewrite Hs; by apply lookup_app_l_Some|]. split; [done|]. intros nx Hn.
    destruct (Hnx nx Hn) as (r' & s2 & Hlt & -> & Hr' & Hname). exists r', s2. split_and!; try done. pose proof (lookup_lt_Some _ _ _ Hr).
    rewrite Hs, lookup_app_l in Hr' by lia. done.
  - intros e He. destruct (Hpos e He) as [[Hold Hne]|[Hnew Hh]].
    + destruct (i_pos _ _ _ H e Hold) as [(r & s' & Hr & Hi & Hh)|[Hf Hi]].
      * left. exists r, s'. split_and!; try done. pose proof (lookup_lt_Some _ _ _ Hr) as Hlt. rewrite Hs, length_app in Hlt. simpl in Hlt.
        assert (r <> length l) by (intros ->; by apply Hne). rewrite Hs, lookup_app_l in Hr by lia. done.
      * right. split; [|done]. destruct Hcase as [(nx & _ & _ & ->)|[(_ & _ & Hn & _)|(_ & _ & ->)]]; [done|congruence|done].
    + destruct Hcase as [(nx & Hn & E & Hf)|[(_ & E & _ & Hf)|(_ & E & _)]]; [| |congruence].
      * left. destruct (i_slots _ _ _ H (length l) s) as [Hhs Hnx]; [by rewrite Hs, list_lookup_middle|]. destruct (Hnx nx Hn) as (r' & s2 & Hlt & Hi & Hr' & Hname).
        exists r', s2. rewrite Hs, lookup_app_l in Hr' by done. split; [done|]. split; [congruence|]. rewrite Hh, Hhs. destruct (i_slots _ _ _ H r' s2) as [-> _]; [rewrite Hs; by apply lookup_app_l_Some|].
        unfold hash_header. by rewrite Hname.
      * right. rewrite Hf, Hh. split; [done|]. change (p_index e = id_of t (-1)). congruence.
  - apply (Permutation_cons_inv (a := last)). unfold refs. cbn [indices slots t']. change (id_of t' (-1)) with (id_of t (-1)).
    rewrite app_comm_cons, Hperm. pose proof (i_refs _ _ _ H) as Hr. unfold refs in Hr. rewrite (ids_snoc t l s t' Hs eq_refl eq_refl) in Hr. fold last in Hr.
    rewrite Hs, omap_app in Hr. simpl in Hr. rewrite app_assoc in Hr.
    destruct Hcase as [(nx & Hn & -> & ->)|[(Hn & -> & Hf & ->)|(Hn & -> & ->)]]; rewrite Hn in Hr; simpl.
    + rewrite Permutation_app_comm in Hr. simpl in Hr. rewrite Hr. rewrite app_assoc. by rewrite Permutation_app_comm.
    + rewrite Hf in Hr. rewrite app_nil_r in Hr. rewrite Hr. simpl. rewrite Permutation_app_comm. simpl. apply perm_swap.
    + rewrite app_nil_r in Hr. rewrite Hr. rewrite app_assoc. by rewrite Permutation_app_comm.
  - done.
Qed.

(** ** Making room *)

Lemma prev_id_frame t t' prev : same_frame t t' -> prev_id t' prev = prev_id t prev.
Proof. intros (_ & _ & Hi & _). unfold prev_id, id_of. by rewrite Hi. Qed.

Lemma converge_loop_spec fuel prev pend t ret :
  inv (fut_of prev t) pend t -> prev_ok prev t -> inserted t + 1 < 2 ^ 64 -> 0 <= pend <= emax_size t -> esize t < 2 ^ 64 ->
  (length (slots t) <= fuel)%nat ->
  exists t' r, converge_loop fuel (prev_id t prev) ret t = Some (t', r) /\ same_frame t t' /\ inv (fut_of prev t') pend t' /\ prev_ok prev t'
    /\ (exists k, slots t' = take k (slots t)) /\ s_header <$> slots t' = fit (emax_size t - pend) (s_header <$> slots t)
    /\ esize t' <= emax_size t /\ (r = false -> ret = false /\ t' = t).
Proof.
  revert t ret. induction fuel as [|fuel IH]; intros t ret H Hprev Hins Hpend Hsz Hf; cbn [converge_loop]; rewrite Z.gtb_ltb;
    (destruct (Z.ltb_spec (emax_size t) (esize t)) as [Hgt|Hle]; cycle 1;
     [exists t, ret; split_and!; try done; [apply same_frame_refl|exists (length (slots t)); by rewrite firstn_all|
        symmetry; apply fit_all; rewrite (i_size _ _ _ H) in Hle; lia]|]).
  - assert (Hnil : slots t = []) by (destruct (slots t); [done|simpl in Hf; lia]). rewrite (i_size _ _ _ H), Hnil in Hgt. cbn in Hgt. lia.
  - assert (Hcase : slots t = [] \/ exists l s, slots t = l ++ [s]) by (clear; destruct (slots t) as [|s l _] using rev_ind; eauto).
    destruct Hcase as [Hs|(l & s & Hs)]; [rewrite (i_size _ _ _ H), Hs in Hgt; cbn in Hgt; lia|].
    destruct (evict_spec prev pend t l s H Hprev Hs Hins ltac:(lia) Hsz) as (t1 & -> & Hs1 & Hfr & H1 & Hp1). cbn [mbind option_bind].
    pose proof Hfr as (_ & _ & Hi1 & Hm1 & _). pose proof (inv_size_nonneg _ pend t l s H ltac:(lia) Hs) as [_ Hsize]. pose proof (header_len_pos (s_header s)).
    pose proof (i_size _ _ _ H1) as Hsz1. rewrite Hs1 in Hsz1.
    rewrite <- (prev_id_frame t t1 prev Hfr). rewrite Hs, length_app in Hf. simpl in Hf.
    destruct (IH t1 true H1 Hp1) as (t' & r & Hr & Hfr' & H' & Hp' & (k & Hk) & Hfit & Hmax & Hret); [lia|lia|lia|rewrite Hs1; lia|].
    exists t', r. split; [done|]. split; [by eapply same_frame_trans|]. split; [done|]. split; [done|]. split; [|split; [|split; [lia|]]].
    + exists (k `min` length l)%nat. rewrite Hs, take_app_le by lia. rewrite Hk, Hs1. destruct (Nat.le_gt_cases k (length l)); [by rewrite Nat.min_l|]. rewrite Nat.min_r by lia. rewrite !take_ge by lia. done.
    + rewrite Hfit, Hs1, Hm1, Hs, fmap_app. simpl. rewrite fit_snoc; [done|]. rewrite (i_size _ _ _ H), Hs, fmap_app in Hgt. simpl in Hgt. lia.
    + intros E. destruct (Hret E) as [? _]. done.
Qed.
Lemma update_size_spec n prev t :
  inv None 0 t -> fut_of prev t = None -> prev_ok prev t -> inserted t + 1 < 2 ^ 64 -> 0 <= n <= emax_size t -> esize t <= emax_size t < 2 ^ 60 ->
  exists t' r, update_size n (prev_id t prev) t = Some (t', r) /\ same_frame t t' /\ inv (fut_of prev t') n t' /\ prev_ok prev t'
    /\ (exists k, slots t' = take k (slots t)) /\ s_header <$> slots t' = fit (emax_size t - n) (s_header <$> slots t) /\ esize t' <= emax_size t
    /\ (r = false -> indices t' = indices t).
Proof.
  intros H Hfut Hprev Hins Hn Hsz. pose proof (i_size _ _ _ H) as Hi. pose proof (total_nonneg (s_header <$> slots t)). unfold update_size. rewrite uchk_ok by lia. cbn [mbind option_bind].
  unfold converge. destruct (converge_loop_spec (length (slots t)) prev n (with_esize (esize t + n) t) false) as (t' & r & Hr & Hfr & H' & Hp' & Hk & Hfit & Hmax & Hret).
  - change (fut_of prev (with_esize (esize t + n) t)) with (fut_of prev t). rewrite Hfut. destruct H. constructor; try done. change (esize t + n = total (s_header <$> slots t) + n). lia.
  - done.
  - done.
  - done.
  - cbn. lia.
  - done.
  - exists t', r. split_and!; try done. intros E. by destruct (Hret E) as [_ ->].
Qed.

Lemma as_table_ok t : inv None 0 t -> esize t <= emax_size t -> table_ok (as_table t).
Proof. intros H Hle. split; [|exact Hle]. change (esize t = total (s_header <$> slots t)). rewrite (i_size _ _ _ H). lia. Qed.

(** [resize] is the decoder's [set_max_size]. *)
Lemma resize_spec n t : inv None 0 t -> inserted t + 1 < 2 ^ 64 -> esize t <= emax_size t < 2 ^ 60 -> 0 <= n ->
  exists t', resize n t = Some t' /\ inv None 0 t' /\ as_table t' = (set_max_size n (as_table t)).1 /\ inserted t' <= inserted t.
Proof.
  intros H Hins Hsz Hn. pose proof (i_size _ _ _ H) as Hi. unfold resize.
  pose proof (as_table_ok t H ltac:(lia)) as Hok.
  destruct (set_max_size_fit n (as_table t) Hok Hn) as (t1 & Hset & Hok1 & Hm1 & He1). rewrite Hset. cbn [fst].
  destruct (Z.eqb_spec n 0) as [->|Hn0].
  - eexists. split; [done|]. split; [|split; [|cbn; apply (i_ins _ _ _ H)]].
    + constructor; cbn; try done.
      * rewrite length_replicate. apply (i_shape _ _ _ H).
      * lia.
      * apply rh_nil.
      * intros e [p Hp]%elem_of_entries. by apply lookup_replicate in Hp as [? _].
      * unfold refs, ids. cbn. assert (E : forall k, entries_of (replicate k None) = []) by (induction k; [done|]; exact IHk). by rewrite E.
    + apply table_eq; [split; done|done|..]; [|cbn; by rewrite Hm1]. cbn. rewrite He1. cbn. destruct (s_header <$> slots t) as [|h l]; [done|]. cbn. pose proof (header_len_pos h). by rewrite (proj2 (Z.leb_gt _ _)) by lia.
  - set (t0 := mkETable (mask t) (indices t) (slots t) (inserted t) (esize t) n). unfold converge.
    destruct (converge_loop_spec (length (slots t)) None 0 t0 false) as (t' & r & Hr & Hfr & H' & _ & _ & Hfit & Hmax & _); cbn; try done.
    + destruct H. by constructor.
    + lia.
    + change (prev_id t0 None) with (@None Z) in Hr. change (slots t0) with (slots t). rewrite Hr. cbn. exists t'. split; [done|]. split; [done|]. destruct Hfr as (_ & _ & Hi' & Hm' & _). split; [|rewrite Hi'; done].
      apply table_eq; [apply as_table_ok; [done|rewrite Hm'; exact Hmax]|done|..].
      * change (s_header <$> slots t' = entries t1). rewrite Hfit, He1. change (emax_size t0) with n. by replace (n - 0) with n by lia.
      * rewrite Hm1. exact Hm'.
Qed.

(** ** Growing *)

Lemma inv_reindex fut pend t m idx :
  inv fut pend t -> shape m (length idx) -> (8 <= length idx)%nat -> rh (length idx) idx -> entries_of idx ≡ₚ entries_of (indices t) ->
  (length (slots t) <= usable_capacity (length idx))%nat ->
  inv fut pend (mkETable m idx (slots t) (inserted t) (esize t) (emax_size t)).
Proof.
  intros H Hs H8 Hrh Hperm Hcap. destruct H. constructor; try done.
  - by right.
  - intros e He. cbn [indices] in He. rewrite Hperm in He. by apply i_pos0.
  - unfold refs. cbn [indices slots]. rewrite Hperm. exact i_refs0.
Qed.
Lemma usable_double n : (8 <= n)%nat -> (usable_capacity n < usable_capacity (2 * n))%nat.
Proof.
  intros Hn. unfold usable_capacity. pose proof (Nat.div_mod_eq n 4). pose proof (Nat.div_mod_eq (2 * n) 4). pose proof (Nat.mod_upper_bound n 4 ltac:(lia)). pose proof (Nat.mod_upper_bound (2 * n) 4 ltac:(lia)). lia.
Qed.
Lemma reserve_one_spec t : inv None 0 t ->
  exists m idx, reserve_one t = Some (mkETable m idx (slots t) (inserted t) (esize t) (emax_size t))
    /\ inv None 0 (mkETable m idx (slots t) (inserted t) (esize t) (emax_size t)) /\ length idx <> 0%nat /\ (length (slots t) < usable_capacity (length idx))%nat.
Proof.
  intros H. pose proof (i_cap _ _ _ H) as Hcap. unfold reserve_one. destruct (Nat.eqb_spec (length (slots t)) (ecapacity t)) as [Hfull|Hroom].
  - destruct (Nat.eqb_spec (length (slots t)) 0) as [H0|H0].
    + assert (Hnil : indices t = []).
      { destruct (i_shape _ _ _ H) as [E|[_ H8]]; [by apply nil_length_inv|]. unfold ecapacity, usable_capacity in Hfull. pose proof (Nat.div_lt (length (indices t)) 4). lia. }
      exists 7, (replicate 8 None). split; [done|]. split; [|by split; [|cbn; lia]]. apply inv_reindex; try done.
      * exists 3. split; [lia|]. done.
      * apply rh_nil.
      * by rewrite Hnil.
      * cbn. lia.
    + destruct (i_shape _ _ _ H) as [E|[Hs H8]]; [unfold ecapacity, usable_capacity in Hfull; rewrite E in Hfull; cbn in Hfull; lia|].
      destruct (free_exists _ _ _ H ltac:(lia)) as [z Hz].
      destruct (grow_spec (mask t) (length (indices t)) (indices t) z Hs) as (m & idx & -> & Hs' & Hl' & Hrh' & Hperm); [|done|apply (i_rh _ _ _ H)|done|].
      { pose proof (i_few _ _ _ H) as Hf. unfold len in Hf. unfold ecapacity, usable_capacity in Hfull. pose proof (Nat.div_mod_eq (length (indices t)) 4). pose proof (Nat.mod_upper_bound (length (indices t)) 4). lia. }
      cbn [mbind option_bind]. pose proof (usable_double (length (indices t)) H8). unfold ecapacity in *. exists m, idx. split; [done|]. rewrite <- Hl' in Hs', Hrh'. split; [|split; [lia|]].
      * apply inv_reindex; try done; rewrite Hl'; lia.
      * rewrite Hl'. lia.
  - exists (mask t), (indices t). destruct t. split; [done|]. split; [done|]. unfold ecapacity, usable_capacity in *. cbn in *. split; [intros E; rewrite E in *; cbn in *; lia|lia].
Qed.

(** ** Finding a name *)

Lemma probe_name_spec t h hash : inv None 0 t -> length (indices t) <> 0%nat ->
  exists p, probe_name t h hash = Some p /\
    match p with
    | Vacant dist probe => (probe < length (indices t))%nat /\
        forall i, away (length (indices t)) (mkPos i hash) probe = dist /\ fits_at (length (indices t)) (indices t) probe (mkPos i hash)
    | Occupied index => exists r s, slots t !! r = Some s /\ index = id_of t (Z.of_nat r) /\ header_name (s_header s) = header_name h
    end.
Proof.
  intros H Hn0. destruct (i_shape _ _ _ H) as [|[Hs H8]]; [lia|]. destruct (free_exists _ _ _ H Hn0) as [z Hz]. pose proof (i_rh _ _ _ H) as Hrh.
  unfold probe_name. set (n := length (indices t)) in *. rewrite (desired_des _ n) by done. set (d := des n hash). assert (Hd : (d < n)%nat) by (apply des_lt; lia).
  pose proof (bucket_lt _ _ _ Hz) as Hzn. fold n in Hzn.
  match goal with |- context [probing n ?b d 0%nat] => set (body := b) end.
  match goal with |- exists p, _ /\ ?Q => apply (probing_rule n body d 0%nat (fun j s => s = j /\ forall i, away n (mkPos i hash) (cyc n d j) = j /\ (0 < j -> exists e', indices t !! (prv n (cyc n d j)) = Some (Some e') /\ j <= S (away n e' (prv n (cyc n d j)))))%nat (fun p => Q) (dst n d z)) end.
  - lia.
  - by apply dst_lt.
  - split; [done|]. intros i. split; [|lia]. unfold away. cbn [p_hash]. fold d. assert (Hc : cyc n d 0 = d) by circle. rewrite Hc. circle.
  - intros j s Hj [-> Hprev]. pose proof (dst_lt n d z Hd Hzn) as Hdz. assert (Hcn : (cyc n d j < n)%nat) by (apply cyc_lt; lia).
    unfold body. destruct (indices t !! cyc n d j) as [[pos|]|] eqn:Hb; cbn [mbind option_bind].
    + rewrite (probe_distance_dst _ n) by done. change (dst n (des n (p_hash pos)) (cyc n d j)) with (away n pos (cyc n d j)).
      assert (Hjz : (j < dst n d z)%nat) by (destruct (decide (j = dst n d z)) as [->|]; [rewrite cyc_dst in Hb by done; congruence|lia]).
      destruct (Nat.ltb_spec (away n pos (cyc n d j)) j) as [Hlt|Hge].
      * split; [done|]. intros i. destruct (Hprev i) as [Ha Hp]. split; [done|]. split; [rewrite Ha; exact Hp|]. rewrite Ha. intros e0 He0. rewrite Hb in He0. injection He0 as <-. lia.
      * assert (Hgo : (j < dst n d z /\ (j + 1 = j + 1 /\ forall i, away n (mkPos i hash) (cyc n d (j + 1)) = j + 1 /\ (0 < j + 1 -> exists e', indices t !! prv n (cyc n d (j + 1)) = Some (Some e') /\ j + 1 <= S (away n e' (prv n (cyc n d (j + 1)))))))%nat).
        { split; [done|]. split; [done|]. intros i. split; [unfold away; cbn [p_hash]; fold d; apply dst_cyc; lia|]. intros _. rewrite prv_cyc by lia. replace (j + 1 - 1)%nat with j by lia. exists pos. split; [done|lia]. }
        destruct (p_hash pos =? hash); [|exact Hgo].
        destruct (i_pos _ _ _ H pos) as [(r & s & Hr & Hid & _)|[? _]]; [apply elem_of_entries; by eauto| |done].
        pose proof (i_few _ _ _ H) as Hf. pose proof (lookup_lt_Some _ _ _ Hr). unfold len in Hf. rewrite Hid, id_real, Nat2Z.id, Hr by lia. cbn [mbind option_bind].
        case_bool_decide; [|exact Hgo]. by exists r, s.
    + split; [done|]. intros i. destruct (Hprev i) as [Ha Hp]. split; [done|]. split; [rewrite Ha; exact Hp|]. intros e0 He0. congruence.
    + apply lookup_ge_None in Hb. fold n in Hb. lia.
Qed.

(** ** A new slot *)

(** The slots after a push keep their headers; one of them may be linked to the new slot. *)
Definition linked (t : ETable) (h : Header bytes) (l : list Slot) : Prop :=
  length l = length (slots t) /\ forall r s, l !! r = Some s -> exists s0, slots t !! r = Some s0 /\ s_hash s = s_hash s0 /\ s_header s = s_header s0
    /\ (s_next s = s_next s0 \/ s_next s = Some (id_of t (-1)) /\ header_name (s_header s) = header_name h).
Definition pushed (t : ETable) (h : Header bytes) (idx : list (option Pos)) (l : list Slot) : ETable :=
  mkETable (mask t) idx (mkSlot (hash_header h) h None :: l) (uwrap (inserted t + 1)) (esize t) (emax_size t).
Lemma linked_headers t h l : linked t h l -> s_header <$> l = s_header <$> slots t.
Proof.
  intros [Hl H]. apply list_eq. intros r. rewrite !list_lookup_fmap. destruct (l !! r) as [s|] eqn:E.
  - destruct (H r s E) as (s0 & -> & _ & Hh & _). cbn. by rewrite Hh.
  - apply lookup_ge_None in E. rewrite (proj2 (lookup_ge_None (slots t) r)) by lia. done.
Qed.
Lemma id_pushed t h idx l z : 0 <= inserted t < 2 ^ 64 -> inserted t + 1 < 2 ^ 64 -> id_of (pushed t h idx l) (z + 1) = id_of t z.
Proof.
  intros Hi Hi'. unfold id_of, pushed. cbn [inserted]. unfold uwrap at 2, wrap. rewrite Z.mod_small by lia. f_equal. lia.
Qed.
Lemma slots_few t : esize t <= emax_size t <= 2 ^ 32 -> esize t = total (s_header <$> slots t) -> len (slots t) <= 2 ^ 27.
Proof.
  intros Hle Hs. assert (Hmany : forall l, 32 * len l <= total l).
  { induction l as [|x l IH]; [done|]. rewrite len_cons. cbn [total foldr]. fold (total l). pose proof (header_len_pos x). lia. }
  specialize (Hmany (s_header <$> slots t)). unfold len in *. rewrite length_fmap in Hmany. lia.
Qed.
Lemma inv_push fut h t idx l :
  inv fut (header_len h) t -> inserted t + 1 < 2 ^ 64 -> esize t <= emax_size t <= 2 ^ 32 ->
  length idx = length (indices t) -> length idx <> 0%nat -> rh (length idx) idx -> (length (slots t) < ecapacity t)%nat -> linked t h l ->
  (p_index <$> entries_of idx) ++ omap s_next l ≡ₚ id_of t (-1) :: ids t ->
  (forall e, e ∈ entries_of idx -> pos_ok t (Some (hash_header h)) e) ->
  inv None 0 (pushed t h idx l).
Proof.
  intros H Hins Hsz Hlen Hn0 Hrh Hcap Hlink Hrefs Hpos. pose proof (i_ins _ _ _ H) as Hi. pose proof (id_pushed t h idx l) as Hid.
  assert (Hsize : esize (pushed t h idx l) = total (s_header <$> slots (pushed t h idx l)) + 0).
  { cbn [pushed slots esize]. rewrite fmap_cons, (linked_headers t h l Hlink). cbn [total foldr]. fold (total (s_header <$> slots t)). rewrite (i_size _ _ _ H). cbn [s_header]. lia. }
  constructor; cbn [mask indices slots inserted pushed].
  - rewrite Hlen in *. destruct (i_shape _ _ _ H) as [|]; [done|by right].
  - change (ecapacity (pushed t h idx l)) with (usable_capacity (length idx)). rewrite Hlen. destruct Hlink as [Hl _]. simpl. unfold ecapacity in Hcap. lia.
  - change (mkSlot (hash_header h) h None :: l) with (slots (pushed t h idx l)). apply slots_few; [done|lia].
  - done.
  - unfold uwrap, wrap. rewrite Z.mod_small by lia. lia.
  - intros [|r] s Hr; [injection Hr as <-; by split|]. cbn in Hr. destruct (proj2 Hlink r s Hr) as (s0 & Hs0 & Hh & Hhd & Hnx).
    destruct (i_slots _ _ _ H r s0 Hs0) as [Hh0 Hnx0]. split; [congruence|]. intros nx En. destruct Hnx as [Hnx|[Hnx Hname]].
    + rewrite Hnx in En. destruct (Hnx0 nx En) as (r' & s' & Hlt & -> & Hr' & Hname). exists (S r').
      destruct (lookup_lt_is_Some_2 l r') as [s1 Hs1]; [rewrite (proj1 Hlink); by apply lookup_lt_Some in Hr'|]. destruct (proj2 Hlink r' s1 Hs1) as (s2 & Hs2 & _ & Hhd2 & _).
      exists s1. split; [lia|]. split; [rewrite <- (Hid (Z.of_nat r')) by lia; f_equal; lia|]. split; [done|]. congruence.
    + rewrite Hnx in En. injection En as <-. exists 0%nat. eexists. split; [lia|]. split; [by rewrite <- (Hid (-1)) by lia|]. split; [done|]. by cbn.
  - intros e He. destruct (Hpos e He) as [(r & s & Hr & Hi' & Hh)|[Hf Hi']]; left.
    + destruct (lookup_lt_is_Some_2 l r) as [s1 Hs1]; [rewrite (proj1 Hlink); by apply lookup_lt_Some in Hr|]. destruct (proj2 Hlink r s1 Hs1) as (s2 & Hs2 & Hh2 & _).
      exists (S r), s1. split; [done|]. split; [|congruence]. rewrite Hi', <- (Hid (Z.of_nat r)) by lia. f_equal. lia.
    + exists 0%nat. eexists. split; [done|]. split; [by rewrite Hi', <- (Hid (-1)) by lia|]. cbn. by injection Hf.
  - change (omap s_next (mkSlot (hash_header h) h None :: l)) with (omap s_next l). unfold refs. cbn [indices slots pushed].
    change (omap s_next (mkSlot (hash_header h) h None :: l)) with (omap s_next l). rewrite Hrefs. unfold ids. cbn [slots pushed length seq fmap list_fmap app].
    rewrite (proj1 Hlink). match goal with |- ?a ≡ₚ ?b => cut (a = b); [by intros ->|] end. f_equal; [by rewrite <- (Hid (-1)) by lia|]. rewrite <- fmap_S_seq, <- list_fmap_compose. apply list_fmap_ext. intros _ r _. cbn.
    rewrite <- (Hid (Z.of_nat r)) by lia. f_equal. lia.
  - done.
Qed.

(** ** Representations *)

Lemma static_names_ok name i : static_name static_names name = Some i -> 15 <= i <= 61 /\ exists v, get_static i = Ok (Field name v) /\ (i = 16 -> v_bytes v = bs "gzip, deflate").
Proof.
  assert (Hall : forallb (fun '(n, i) => (15 <=? i) && (i <=? 61) && match get_static i with Ok (Field n' v) => bool_decide (n' = n) && (negb (i =? 16) || bool_decide (v_bytes v = bs "gzip, deflate")) | _ => false end) static_names = true)
    by (vm_compute; reflexivity).
  revert Hall. generalize static_names. induction l as [|[n j] l IH]; [done|]. cbn [static_name forallb]. intros [Hj Hl]%andb_prop.
  case_bool_decide as E; [|by apply IH]. intros [= <-]. apply andb_prop in Hj as [Hb Hg]. apply andb_prop in Hb as [H1%Z.leb_le H2%Z.leb_le]. split; [lia|].
  destruct (get_static j) as [[n' v|?|?|?|?|?|?]|?|]; try done. apply andb_prop in Hg as [Hn Hv]. apply bool_decide_eq_true in Hn. subst. exists v. split; [done|].
  intros ->. cbn in Hv. by apply bool_decide_eq_true in Hv.
Qed.
Lemma table_get_static t i e : 1 <= i <= 61 -> get_static i = Ok e -> table_get t i = Ok e.
Proof. intros Hi He. unfold table_get. rewrite (proj2 (Z.eqb_neq _ _)), (proj2 (Z.leb_le _ _)) by lia. done. Qed.
Lemma index_static_ok t h i b : index_static h = Some (i, b) ->
  1 <= i <= 61 /\ exists e, table_get t i = Ok e /\ header_name e = header_name h /\ (b = true -> wire e = wire h).
Proof.
  assert (Hgo : forall e, 1 <= i <= 61 -> get_static i = Ok e -> header_name e = header_name h -> (b = true -> wire e = wire h) ->
    1 <= i <= 61 /\ exists e, table_get t i = Ok e /\ header_name e = header_name h /\ (b = true -> wire e = wire h)).
  { intros e Hi He Hn Hw. split; [done|]. exists e. split; [by apply table_get_static|done]. }
  destruct h as [name value|v|m|v|v|v|s]; cbn [index_static].
  - destruct (static_name static_names name) as [j|] eqn:E; [|done]. intros [= <- <-]. destruct (static_names_ok name j E) as (Hj & v & Hv & H16).
    apply (Hgo _ ltac:(lia) Hv); [done|]. intros [->%Z.eqb_eq Hb%bool_decide_eq_true]%andb_prop. unfold wire. cbn. rewrite Hb, H16 by done. done.
  - intros [= <- <-]. by apply (Hgo (Authority (bs ""))).
  - destruct m; intros [= <- <-]; first [by apply (Hgo (HMethod GET))|by apply (Hgo (HMethod POST))].
  - repeat case_bool_decide; intros [= <- <-]; subst; first [by apply (Hgo (Scheme (bs "http")))|by apply (Hgo (Scheme (bs "https")))].
  - repeat case_bool_decide; intros [= <- <-]; subst; first [by apply (Hgo (Path (bs "/")))|by apply (Hgo (Path (bs "/index.html")))].
  - done.
  - repeat case_match; intros [= <- <-]; subst;
      first [by apply (Hgo (Status 200))|by apply (Hgo (Status 204))|by apply (Hgo (Status 206))|by apply (Hgo (Status 304))|by apply (Hgo (Status 400))|by apply (Hgo (Status 404))|by apply (Hgo (Status 500))].
Qed.
(** The representation is right, and its index can be used again for the name. *)
Definition index_right (t : Table) (sl : list Slot) (ix : Index) (h : Header bytes) : Prop :=
  index_ok t sl ix h /\
  match ix with
  | IIndexed n _ => 0 < n < int_limit 4 /\ exists e, table_get t n = Ok e /\ header_name e = header_name h
  | IInserted s | IInsertedValue _ s => s = 0
  | _ => True
  end.
Lemma index_new_ok t sl h : index_right t sl (index_new (index_static h) h) h /\ indexes (index_new (index_static h) h) = false.
Proof.
  destruct (index_static h) as [[i b]|] eqn:E; [|by split; [split; [split|]|]]. destruct (index_static_ok t h i b E) as (Hi & e & He & Hn & Hw).
  assert (Hlim : 0 < i < int_limit 4 /\ 0 <= i < int_limit 7) by (unfold int_limit; lia).
  destruct b; (split; [|done]); (split; [split; [done|]|]); try done; split; try apply Hlim; exists e; split; auto.
Qed.
Lemma skip_static h : skip_value_index h = true -> is_Some (index_static h).
Proof.
  destruct h as [name v| | | |v| |]; cbn [skip_value_index index_static]; try done.
  - intros Hin%bool_decide_eq_true. assert (Hs : is_Some (static_name static_names name)) by (repeat (apply elem_of_cons in Hin as [->|Hin]; [vm_compute; eauto|]); by apply not_elem_of_nil in Hin).
    destruct Hs as [i ->]. eauto.
  - repeat case_bool_decide; eauto.
Qed.

(** ** Indexing a header *)

(** What [index] promises: the representation is right about the table before, and the table after is
    the decoder's table after reading it. *)
Definition indexed_as (t : ETable) (h : Header bytes) (t' : ETable) (ix : Index) : Prop :=
  inv None 0 t' /\ index_right (as_table t) (slots t') ix h
  /\ as_table t' = (if indexes ix then (table_insert h (as_table t)).1 else as_table t)
  /\ inserted t' <= inserted t + 1.
(** The tables and headers it is about: the slots' sizes add up to at most [2^32], the counter has
    not run out, the header is not too large for the table. *)
Definition table_ready (t : ETable) : Prop := inv None 0 t /\ esize t <= emax_size t <= 2 ^ 32 /\ inserted t + 1 < 2 ^ 64.

Lemma pushed_table t t1 h idx l :
  table_ready t -> header_len h <= emax_size t -> emax_size t1 = emax_size t -> esize t1 <= emax_size t ->
  s_header <$> slots t1 = fit (emax_size t - header_len h) (s_header <$> slots t) -> linked t1 h l -> inv None 0 (pushed t1 h idx l) ->
  as_table (pushed t1 h idx l) = (table_insert h (as_table t)).1.
Proof.
  intros (H & Hsz & _) Hh Hm Hle Hfit Hlink H'. destruct (table_insert_fit h (as_table t)) as (t2 & -> & Hok2 & Hm2 & He2); [apply as_table_ok; [done|lia]|]. cbn [fst].
  apply table_eq; [apply as_table_ok; [done|cbn; lia]|done|..].
  - rewrite He2. cbn [as_table entries max_size pushed slots]. rewrite fmap_cons, (linked_headers t1 h l Hlink), Hfit. cbn [fit s_header]. by rewrite (proj2 (Z.leb_le _ _)) by lia.
  - rewrite Hm2. cbn. done.
Qed.

Lemma index_vacant_spec t h dist probe :
  table_ready t -> header_len h <= emax_size t -> length (indices t) <> 0%nat -> (is_sensitive h = false -> (length (slots t) < ecapacity t)%nat) ->
  (probe < length (indices t))%nat ->
  (forall i, away (length (indices t)) (mkPos i (hash_header h)) probe = dist /\ fits_at (length (indices t)) (indices t) probe (mkPos i (hash_header h))) ->
  exists t' ix, index_vacant h (hash_header h) dist probe (index_static h) t = Some (t', ix) /\ indexed_as t h t' ix.
Proof.
  intros Hr Hh Hn0 Hcap Hprobe Hfits. pose proof Hr as (H & Hsz & Hins). destruct (i_shape _ _ _ H) as [|[Hs H8]]; [lia|]. unfold index_vacant. destruct (is_sensitive h) eqn:Hsens.
  { destruct (index_new_ok (as_table t) (slots t) h) as [Hok Hno]. exists t, (index_new (index_static h) h). split; [done|]. split; [done|]. split; [done|]. rewrite Hno. split; [done|lia]. }
  specialize (Hcap eq_refl). destruct (Hfits 0) as [Hdist [Hbefore _]].
  assert (Has : assert ((dist =? 0)%nat || occupied (indices t) (back_of (mask t) probe)) = Some tt).
  { rewrite (back_of_prv _ (length (indices t))) by done. destruct (Nat.eqb_spec dist 0); [done|]. rewrite Hdist in Hbefore. destruct Hbefore as (e' & He' & _); [lia|]. unfold occupied. by rewrite He'. }
  rewrite Has. cbn [mbind option_bind]. pose proof (header_len_pos h) as Hpos.
  assert (Hn1 : 0 <= header_len h <= emax_size t) by lia. assert (Hz1 : esize t <= emax_size t < 2 ^ 60) by lia.
  destruct (update_size_spec (header_len h) None t H eq_refl I Hins Hn1 Hz1) as (t1 & moved & Hup & Hfr & H1 & _ & (k & Hk) & Hfit & Hle & Hsame).
  cbn [prev_id fmap option_fmap option_map] in Hup. rewrite Hup. cbn [mbind option_bind fut_of] in *. pose proof Hfr as (Hm1 & Hl1 & Hi1 & Hx1 & Hdom).
  set (e := mkPos (uwrap (0 - (inserted t1 + 1))) (hash_header h)).
  assert (Hp : exists p, (if moved : bool then step_back (mask t1) (indices t1) dist probe else Some probe) = Some p /\ (p < length (indices t))%nat /\ fits_at (length (indices t)) (indices t1) p e).
  { destruct (Hfits (p_index e)) as [Hd Hf]. destruct moved.
    - rewrite Hm1. apply step_back_spec; [done..|]. intros e0 He0. destruct (Hdom probe e0 He0) as (e1 & He1 & Hle1). destruct Hf as [_ Hf]. specialize (Hf e1 He1). lia.
    - exists probe. rewrite (Hsame eq_refl). done. }
  destruct Hp as (p & -> & Hpn & Hpf). cbn [mbind option_bind]. cbn [slots_insert indices inserted]. pose proof (i_ins _ _ _ H) as Hi0.
  assert (Hu : uwrap (inserted t1 + 1) = inserted t1 + 1) by (unfold uwrap, wrap; apply Z.mod_small; lia). rewrite Hu. fold e.
  destruct (free_exists _ _ _ H1 ltac:(lia)) as [z Hz]. pose proof (i_rh _ _ _ H1) as Hrh1. rewrite Hl1 in Hrh1.
  destruct (put_bucket_spec (length (indices t)) (indices t1) p e z Hl1 Hrh1 Hpn Hpf Hz ltac:(intros; lia)) as (idx & -> & Hli & Hrhi & Hperm). cbn [mbind option_bind].
  change (with_indices idx (slots_insert h (hash_header h) t1)) with (pushed t1 h idx (slots t1)).
  assert (Hlink : linked t1 h (slots t1)) by (split; [done|]; intros r s Hr'; exists s; auto).
  assert (Hlen1 : (length (slots t1) <= length (slots t))%nat) by (rewrite Hk, length_take; lia).
  assert (Hinv : inv None 0 (pushed t1 h idx (slots t1))).
  { apply (inv_push None); try done.
    - lia.
    - lia.
    - lia.
    - lia.
    - by rewrite Hli.
    - unfold ecapacity in *. rewrite Hl1. lia.
    - rewrite Hperm. rewrite fmap_cons. cbn [app e p_index]. pose proof (i_refs _ _ _ H1) as Hrefs. unfold refs in Hrefs. rewrite Hrefs. cbn [app]. unfold id_of. replace (-1 - inserted t1) with (0 - (inserted t1 + 1)) by lia. done.
    - intros e1. rewrite Hperm, elem_of_cons. intros [-> |He1]; [right; split; [done|]|].
      + cbn [e p_index]. unfold id_of. f_equal. lia.
      + destruct (i_pos _ _ _ H1 e1 He1) as [?|[? _]]; [by left|done]. }
  assert (Htab : as_table (pushed t1 h idx (slots t1)) = (table_insert h (as_table t)).1) by (eapply pushed_table; try done; lia).
  assert (Hinserted : inserted (pushed t1 h idx (slots t1)) <= inserted t + 1) by (cbn [pushed inserted]; lia).
  destruct (index_static h) as [[n b]|] eqn:Est.
  - destruct (index_static_ok (as_table t) h n b Est) as (Hn & e0 & He0 & Hname & _).
    eexists _, _. split; [done|]. split; [done|]. split; [split; [|done]|by cbn [indexes]]. split; [done|]. split; [done|]. split; [unfold int_limit; lia|]. by exists e0.
  - eexists _, _. split; [done|]. split; [done|]. split; [split; [by split|done]|by cbn [indexes]].
Qed.

Lemma value_eq_wire a b : value_eq a b = true -> header_name a = header_name b -> wire a = wire b.
Proof.
  unfold wire. destruct a, b; cbn; intros H E; try done; try (apply bool_decide_eq_true in H; congruence).
  by apply Z.eqb_eq in H as ->.
Qed.
(** A slot of the table, as the decoder finds it. *)
Lemma table_get_slot t r s : slots t !! r = Some s -> table_get (as_table t) (Z.of_nat r + DYN_OFFSET) = Ok (s_header s).
Proof.
  intros Hr. unfold table_get, DYN_OFFSET. rewrite (proj2 (Z.eqb_neq _ _)), (proj2 (Z.leb_gt _ _)) by lia. cbn [as_table entries].
  replace (Z.to_nat (Z.of_nat r + 62 - 62)) with r by lia. by rewrite list_lookup_fmap, Hr.
Qed.

(** The new slot is linked to the last one of the chain, if that one is still there. *)
Lemma push_chained t t1 h r s :
  table_ready t -> header_len h <= emax_size t -> slots t !! r = Some s -> s_next s = None -> header_name (s_header s) = header_name h ->
  (length (slots t) < ecapacity t)%nat -> same_frame t t1 -> inv (fut_of (Some (r, hash_header h)) t1) (header_len h) t1 ->
  (exists k, slots t1 = take k (slots t)) -> esize t1 <= emax_size t ->
  let t2 := slots_insert h (hash_header h) t1 in
  let new := uwrap (id_of t (Z.of_nat r) + inserted t2) in
  let t3 := match slots t2 !! Z.to_nat new with
            | Some s => with_slots (<[Z.to_nat new := mkSlot (s_hash s) (s_header s) (Some (uwrap (0 - inserted t2)))]> (slots t2)) t2
            | None => t2
            end in
  exists l, t3 = pushed t1 h (indices t1) l /\ linked t1 h l /\ inv None 0 t3.
Proof.
  intros (H & Hsz & Hins) Hh Hr Hnx Hname Hcap (Hm1 & Hl1 & Hi1 & Hx1 & _) H1 (k & Hk) Hle t2 new t3.
  pose proof (i_ins _ _ _ H) as Hi0. pose proof (i_few _ _ _ H) as Hfew. pose proof (lookup_lt_Some _ _ _ Hr) as Hlt. unfold len in Hfew.
  assert (Hu : inserted t2 = inserted t1 + 1) by (cbn [t2 slots_insert inserted]; unfold uwrap, wrap; apply Z.mod_small; lia).
  assert (Hnew : new = Z.of_nat r + 1).
  { unfold new. rewrite Hu, Hi1. replace (id_of t (Z.of_nat r) + (inserted t + 1)) with ((id_of t (Z.of_nat r) + inserted t) + 1) by lia. unfold uwrap, wrap. rewrite <- Zplus_mod_idemp_l.
    fold (wrap 64 (id_of t (Z.of_nat r) + inserted t)). fold (uwrap (id_of t (Z.of_nat r) + inserted t)). rewrite id_real by lia. apply Z.mod_small. lia. }
  assert (Hid1 : uwrap (0 - inserted t2) = id_of t1 (-1)) by (rewrite Hu; unfold id_of; f_equal; lia).
  assert (Hlen1 : (length (slots t1) <= length (slots t))%nat) by (rewrite Hk, length_take; lia).
  assert (Hcap1 : (length (slots t1) < ecapacity t1)%nat) by (unfold ecapacity in *; rewrite Hl1; lia).
  assert (Hn0 : length (indices t1) <> 0%nat) by (intros E; unfold ecapacity in Hcap1; rewrite E in Hcap1; cbn in Hcap1; lia).
  unfold t3. rewrite Hnew, Hid1. replace (Z.to_nat (Z.of_nat r + 1)) with (S r) by lia. change (slots t2) with (mkSlot (hash_header h) h None :: slots t1). cbn [lookup list_lookup].
  change (list_lookup r (slots t1)) with (slots t1 !! r). destruct (slots t1 !! r) as [s1|] eqn:Hs1.
  - assert (s1 = s) as -> by (rewrite Hk in Hs1; apply lookup_take_Some in Hs1 as [Hs1 _]; congruence).
    set (s' := mkSlot (s_hash s) (s_header s) (Some (id_of t1 (-1)))). exists (<[r := s']> (slots t1)). split; [done|].
    assert (Hlink : linked t1 h (<[r := s']> (slots t1))).
    { split; [by rewrite length_insert|]. intros q x Hx. destruct (decide (q = r)) as [->|Hne].
      - rewrite list_lookup_insert_eq in Hx by (by apply lookup_lt_Some in Hs1). injection Hx as <-. exists s. split_and!; try done. by right.
      - rewrite list_lookup_insert_ne in Hx by done. exists x. auto. }
    split; [done|]. change (inv None 0 (pushed t1 h (indices t1) (<[r := s']> (slots t1)))).
    assert (Hfut : fut_of (Some (r, hash_header h)) t1 = None) by (unfold fut_of; apply lookup_lt_Some in Hs1; by rewrite (proj2 (Nat.leb_gt _ _)) by lia). rewrite Hfut in H1.
    apply (inv_push None); try done; [lia|lia|apply (i_rh _ _ _ H1)| |].
    + pose proof (i_refs _ _ _ H1) as Hrefs. cbn [app] in Hrefs. rewrite <- Hrefs. unfold refs. rewrite <- (take_drop_middle _ _ _ Hs1) at 2. rewrite insert_take_drop by (by apply lookup_lt_Some in Hs1).
      rewrite !omap_app. cbn [omap list_omap s_next s']. rewrite Hnx. cbn [list_omap]. rewrite !app_assoc. by rewrite <- Permutation_middle.
    + intros e He. destruct (i_pos _ _ _ H1 e He) as [?|[? _]]; [by left|done].
  - exists (slots t1). split; [done|]. assert (Hlink : linked t1 h (slots t1)) by (split; [done|]; intros q x Hx; exists x; auto). split; [done|].
    change (inv None 0 (pushed t1 h (indices t1) (slots t1))).
    assert (Hfut : fut_of (Some (r, hash_header h)) t1 = Some (hash_header h)) by (unfold fut_of; apply lookup_ge_None in Hs1; by rewrite (proj2 (Nat.leb_le _ _)) by lia). rewrite Hfut in H1.
    apply (inv_push (Some (hash_header h))); try done; [lia|lia|apply (i_rh _ _ _ H1)| |].
    + exact (i_refs _ _ _ H1).
    + intros e He. exact (i_pos _ _ _ H1 e He).
Qed.

Lemma index_occupied_spec fuel t h r s :
  table_ready t -> header_len h <= emax_size t -> (is_sensitive h = false -> (length (slots t) < ecapacity t)%nat) ->
  slots t !! r = Some s -> header_name (s_header s) = header_name h -> (r < fuel)%nat ->
  exists t' ix, index_occupied fuel h (hash_header h) (id_of t (Z.of_nat r)) (fst <$> index_static h) t = Some (t', ix) /\ indexed_as t h t' ix.
Proof.
  intros Hrd Hh Hcap. pose proof Hrd as (H & Hsz & Hins). pose proof (i_few _ _ _ H) as Hfew. unfold len in Hfew.
  revert r s. induction fuel as [|fuel IH]; intros r s Hr Hname Hf; [lia|]. cbn [index_occupied]. pose proof (lookup_lt_Some _ _ _ Hr) as Hlt.
  rewrite id_real by lia. rewrite Nat2Z.id, Hr. cbn [mbind option_bind]. pose proof (table_get_slot t r s Hr) as Hget.
  assert (Hchk : uchk (Z.of_nat r + DYN_OFFSET) = Some (Z.of_nat r + DYN_OFFSET)) by (apply uchk_ok; unfold DYN_OFFSET; lia).
  destruct (value_eq (s_header s) h) eqn:Hval.
  { rewrite Hchk. cbn [mbind option_bind]. eexists _, _. split; [done|]. split; [done|]. split; [|split; [done|lia]]. split; [split; [done|]|].
    - split; [unfold int_limit, DYN_OFFSET; lia|]. exists (s_header s). split; [done|]. by apply value_eq_wire.
    - split; [unfold int_limit, DYN_OFFSET; lia|]. by exists (s_header s). }
  destruct (i_slots _ _ _ H r s Hr) as [Hhash Hchain]. destruct (s_next s) as [nx|] eqn:Hnx.
  { destruct (Hchain nx eq_refl) as (r' & s' & Hlt' & -> & Hr' & Hname'). apply (IH r' s'); [done|congruence|lia]. }
  destruct (is_sensitive h) eqn:Hsens.
  { rewrite Hchk. cbn [mbind option_bind]. eexists _, _. split; [done|]. split; [done|]. split; [|split; [done|lia]]. split; [|done]. split; [done|]. split; [unfold int_limit, DYN_OFFSET; lia|]. by exists (s_header s). }
  specialize (Hcap eq_refl). pose proof (header_len_pos h) as Hpos. assert (Hhh : s_hash s = hash_header h) by (rewrite Hhash; unfold hash_header; by rewrite Hname).
  assert (Hfut : fut_of (Some (r, hash_header h)) t = None) by (unfold fut_of; by rewrite (proj2 (Nat.leb_gt _ _)) by lia).
  assert (Hpok : prev_ok (Some (r, hash_header h)) t) by (split; [lia|]; intros s0 Hs0; rewrite Hr in Hs0; by injection Hs0 as <-).
  assert (Hn1 : 0 <= header_len h <= emax_size t) by lia. assert (Hz1 : esize t <= emax_size t < 2 ^ 60) by lia.
  destruct (update_size_spec (header_len h) (Some (r, hash_header h)) t H Hfut Hpok Hins Hn1 Hz1) as (t1 & moved & Hup & Hfr & H1 & _ & Hk & Hfit & Hle & _).
  cbn [prev_id fmap option_fmap option_map fst] in Hup. rewrite Hup. cbn [mbind option_bind]. pose proof Hfr as (_ & _ & Hi1 & Hx1 & _).
  destruct (push_chained t t1 h r s Hrd Hh Hr Hnx Hname Hcap Hfr H1 Hk Hle) as (l & Ht3 & Hlink & Hinv). cbv zeta in *.
  rewrite Ht3 in *. pose proof (i_ins _ _ _ H) as Hi0.
  assert (Htab : as_table (pushed t1 h (indices t1) l) = (table_insert h (as_table t)).1) by (eapply pushed_table; try done; lia).
  assert (Hinserted : inserted (pushed t1 h (indices t1) l) <= inserted t + 1) by (cbn [pushed inserted]; unfold uwrap, wrap; rewrite Z.mod_small by lia; lia).
  destruct (index_static h) as [[n b]|] eqn:Est; cbn [fmap option_fmap option_map fst].
  - destruct (index_static_ok (as_table t) h n b Est) as (Hn & e0 & He0 & Hname0 & _).
    eexists _, _. split; [done|]. split; [done|]. split; [split; [|done]|by cbn [indexes]]. split; [done|]. split; [done|]. split; [unfold int_limit; lia|]. by exists e0.
  - rewrite Hchk. cbn [mbind option_bind]. eexists _, _. split; [done|]. split; [done|]. split; [split; [|done]|by cbn [indexes]]. split; [done|]. split; [done|]. split; [unfold int_limit, DYN_OFFSET; lia|]. by exists (s_header s).
Qed.

(** [Table::index] on every branch. *)
Lemma table_index_spec t h : table_ready t -> header_len h * 4 < 2 ^ 64 -> exists t' ix, table_index h t = Some (t', ix) /\ indexed_as t h t' ix.
Proof.
  intros Hrd Hbig. pose proof Hrd as (H & Hsz & Hins). pose proof (header_len_pos h) as Hpos. unfold table_index.
  assert (Hnew : exists t' ix, Some (t, index_new (index_static h) h) = Some (t', ix) /\ indexed_as t h t' ix).
  { destruct (index_new_ok (as_table t) (slots t) h) as [Hok Hno]. eexists _, _. split; [done|]. split; [done|]. split; [done|]. rewrite Hno. split; [done|lia]. }
  destruct (skip_value_index h) eqn:Hskip.
  { rewrite bool_decide_true by (by apply skip_static). exact Hnew. }
  pose proof (i_size _ _ _ H) as Hsize. pose proof (total_nonneg (s_header <$> slots t)) as Htot.
  assert (Hdyn : exists t' ix, (a ← uchk (header_len h * 4); b ← uchk (emax_size t * 3); if a >? b then Some (t, index_new (index_static h) h) else index_dynamic h (index_static h) t) = Some (t', ix) /\ indexed_as t h t' ix).
  { rewrite !uchk_ok by lia. cbn [mbind option_bind]. rewrite Z.gtb_ltb. destruct (Z.ltb_spec (emax_size t * 3) (header_len h * 4)); [exact Hnew|].
    unfold index_dynamic. rewrite uchk_ok by lia. cbn [mbind option_bind].
    assert (Hgo : forall m idx, let t1 := mkETable m idx (slots t) (inserted t) (esize t) (emax_size t) in
      inv None 0 t1 -> (is_sensitive h = false -> (length (slots t) < ecapacity t1)%nat) ->
      exists t' ix, (if (length idx =? 0)%nat then Some (t1, index_new (index_static h) h)
         else p ← probe_name t1 h (hash_header h);
           match p with
           | Vacant dist probe => index_vacant h (hash_header h) dist probe (index_static h) t1
           | Occupied index => index_occupied (length (slots t)) h (hash_header h) index (fst <$> index_static h) t1
           end) = Some (t', ix) /\ indexed_as t h t' ix).
    { intros m idx t1 H1 Hcap. assert (Hrd1 : table_ready t1) by done. destruct (Nat.eqb_spec (length idx) 0) as [E|E].
      { destruct (index_new_ok (as_table t) (slots t1) h) as [Hok Hno]. eexists _, _. split; [done|]. split; [done|]. split; [done|]. rewrite Hno. split; [done|cbn; lia]. }
      destruct (probe_name_spec t1 h (hash_header h) H1 E) as (p & -> & Hp). cbn [mbind option_bind]. destruct p as [dist probe|index].
      - destruct Hp as [Hp Hf]. exact (index_vacant_spec t1 h dist probe Hrd1 ltac:(cbn; lia) E Hcap Hp Hf).
      - destruct Hp as (r & s & Hr & -> & Hname). apply (index_occupied_spec (length (slots t)) t1 h r s Hrd1 ltac:(cbn; lia) Hcap Hr Hname). by apply lookup_lt_Some in Hr. }
    destruct ((header_len h + esize t <? emax_size t) || negb (is_sensitive h)) eqn:Hres.
    - destruct (reserve_one_spec t H) as (m & idx & -> & H1 & _ & Hcap). cbn [mbind option_bind]. apply (Hgo m idx H1). intros _. exact Hcap.
    - cbn [mbind option_bind]. apply orb_false_elim in Hres as [_ Hs%negb_false_iff]. pose proof (Hgo (mask t) (indices t)) as Hg. destruct t. apply (Hg H). congruence. }
  destruct (index_static h) as [[n []]|] eqn:Est; [|exact Hdyn..].
  destruct (index_static_ok (as_table t) h n true Est) as (Hn & e & He & Hname & Hw). eexists _, _. split; [done|]. split; [done|]. split; [|split; [done|lia]].
  split; [split; [done|]|]; (split; [unfold int_limit; lia|]); exists e; auto.
Qed.
End Invariant.

(** ** Both ends of a connection *)

(** The fields of a list in which a nameless value belongs to the field before it. *)
Fixpoint named (last : option bytes) (headers : list (Header (option bytes))) : option (list (Header bytes)) :=
  match headers with
  | [] => Some []
  | h :: headers =>
      match reify h with
      | inl h => l ← named (match h with Field n _ => Some n | _ => None end) headers; Some (h :: l)
      | inr value => n ← last; l ← named last headers; Some (Field n value :: l)
      end
  end.

Section Sync.
Context `{FT : FieldTypes} `{NH : NameHash}.

(** The decoder's table [dt] has the fields of the encoder's table [t], as it rebuilds them. *)
Definition mirrors (t : ETable) (dt : Table) : Prop :=
  entries dt = rebuilt <$> (s_header <$> slots t) /\ max_size dt = emax_size t /\ table_ok dt /\ Forall header_ok (s_header <$> slots t).

Lemma rebuilt_same h : header_ok h -> wire (rebuilt h) = wire h /\ header_name (rebuilt h) = header_name h /\ header_len (rebuilt h) = header_len h.
Proof.
  intros (h' & Hnew & Hname). assert (Hr : rebuilt h = h') by (unfold rebuilt; by rewrite Hnew). rewrite Hr. pose proof (header_new_wire _ _ _ Hnew) as Hw.
  split; [by rewrite Hw|]. split; [done|]. unfold wire in Hw. injection Hw as Hn Hv. destruct h, h'; cbn in *; try done; try congruence; try (injection Hname as ->; unfold field_len; congruence).
Qed.
Lemma fit_rebuilt m l : Forall header_ok l -> fit m (rebuilt <$> l) = rebuilt <$> fit m l.
Proof.
  intros Hl. revert m. induction Hl as [|h l Hh Hl IH]; intros m; [done|]. rewrite fmap_cons. cbn [fit]. destruct (rebuilt_same h Hh) as (_ & _ & ->).
  destruct (header_len h <=? m); [|done]. rewrite fmap_cons. by rewrite IH.
Qed.
Lemma fit_ok m l : Forall header_ok l -> Forall header_ok (fit m l).
Proof. intros Hl. revert m. induction Hl as [|h l Hh Hl IH]; intros m; cbn [fit]; [done|]. case_match; [|done]. constructor; [done|apply IH]. Qed.

Lemma mirrors_get t dt n e : mirrors t dt -> table_get (as_table t) n = Ok e -> exists e', table_get dt n = Ok e' /\ wire e' = wire e /\ header_name e' = header_name e.
Proof.
  intros (He & _ & _ & Hok). unfold table_get. destruct (n =? 0); [done|]. destruct (n <=? 61); [intros ->; by exists e|]. cbn [as_table entries].
  rewrite He, (list_lookup_fmap rebuilt). destruct ((s_header <$> slots t) !! Z.to_nat (n - 62)) as [h|] eqn:E; [|done]. intros [= ->]. cbn.
  exists (rebuilt e). split; [done|]. pose proof (Forall_lookup_1 _ _ _ _ Hok E) as Hh. destruct (rebuilt_same e Hh) as (H1 & H2 & _). done.
Qed.
Lemma mirrors_index_ok t dt sl ix h : mirrors t dt -> index_ok (as_table t) sl ix h -> index_ok dt sl ix h.
Proof.
  intros Hm [Hres Hix]. split; [done|]. destruct ix as [n h'|n h'|s|n s|h']; [| |done| |done].
  - destruct Hix as (Hn & e & He & Hw). split; [done|]. destruct (mirrors_get t dt n e Hm He) as (e' & He' & Hw' & _). exists e'. split; [done|congruence].
  - destruct Hix as (Hn & e & He & Hw). split; [done|]. destruct (mirrors_get t dt n e Hm He) as (e' & He' & _ & Hw'). exists e'. split; [done|congruence].
  - destruct Hix as (Hs & Hn & e & He & Hw). split; [done|]. split; [done|]. destruct (mirrors_get t dt n e Hm He) as (e' & He' & _ & Hw'). exists e'. split; [done|congruence].
Qed.
(** The decoder's table after the block mirrors the encoder's after [index]. *)
Lemma mirrors_after t dt h t' ix : table_ready t -> mirrors t dt -> header_ok h -> indexed_as t h t' ix -> mirrors t' (after dt ix h).
Proof.
  intros (H & Hsz & _) Hm Hh (_ & _ & Htab & _). pose proof Hm as (He & Hx & Hok & Hall). unfold after. destruct (indexes ix).
  - destruct (table_insert_fit h (as_table t)) as (t1 & E1 & Hok1 & Hm1 & He1); [apply as_table_ok; [done|lia]|]. rewrite E1 in Htab. cbn [fst] in Htab.
    destruct (table_insert_fit (rebuilt h) dt Hok) as (t2 & -> & Hok2 & Hm2 & He2). cbn [fst]. rewrite <- Htab in Hm1, He1. cbn [as_table entries max_size] in Hm1, He1.
    split; [rewrite He2, Hx, He, He1; rewrite <- fmap_cons; apply fit_rebuilt; by constructor|]. split; [rewrite Hm2, Hx, Hm1; done|]. split; [done|]. rewrite He1. apply fit_ok. by constructor.
  - assert (E1 : s_header <$> slots t' = s_header <$> slots t) by exact (f_equal entries Htab). assert (E2 : emax_size t' = emax_size t) by exact (f_equal max_size Htab).
    unfold mirrors. by rewrite E1, E2.
Qed.
Lemma indexed_ready t h t' ix : table_ready t -> indexed_as t h t' ix -> inserted t' + 1 < 2 ^ 64 -> table_ready t' /\ emax_size t' = emax_size t.
Proof.
  intros (H & Hsz & _) (H' & _ & Htab & _) Hins'.
  assert (Hm : emax_size t' = emax_size t /\ esize t' <= emax_size t').
  { destruct (indexes ix); [|by pose proof (f_equal max_size Htab) as E1; pose proof (f_equal size Htab) as E2; cbn in E1, E2; lia].
    destruct (table_insert_fit h (as_table t)) as (t1 & E1 & Hok1 & Hm1 & _); [apply as_table_ok; [done|lia]|]. rewrite E1 in Htab. cbn [fst] in Htab. subst t1. destruct Hok1 as [_ Hle]. cbn in Hm1, Hle. lia. }
  split; [|lia]. split; [done|]. split; [lia|done].
Qed.
(** The index just used serves for further values of the field. *)
Lemma indexed_last t dt h t' ix nm v : table_ready t -> mirrors t dt -> h = Field nm v -> header_ok h -> indexed_as t h t' ix -> last_ok (after dt ix h) (slots t') ix nm.
Proof.
  intros Hr Hm -> Hh Hix. pose proof (mirrors_after t dt _ t' ix Hr Hm Hh Hix) as Hm'. destruct Hix as (_ & [[Hres Hok] Hagain] & _ & _).
  assert (Hnew : resolve (slots t') ix = (s_header <$> slots t' !! 0%nat) ->
    exists n e, Some (0 + DYN_OFFSET) = Some n /\ 0 < n < int_limit 4 /\ table_get (after dt ix (Field nm v)) n = Ok e /\ header_name e = NField nm).
  { intros Hres0. rewrite Hres in Hres0. destruct Hm' as (He' & _). exists 62, (rebuilt (Field nm v)). split; [done|]. split; [unfold int_limit; lia|]. split; [|by apply rebuilt_same].
    unfold table_get. change (62 =? 0) with false. change (62 <=? 61) with false. cbv iota. rewrite He', !list_lookup_fmap. change (Z.to_nat (62 - 62)) with 0%nat.
    by rewrite <- Hres0. }
  assert (Hold : forall n e, indexes ix = false -> resolve_idx ix = Some n -> 0 < n < int_limit 4 -> table_get (as_table t) n = Ok e -> header_name e = NField nm ->
    exists n e, resolve_idx ix = Some n /\ 0 < n < int_limit 4 /\ table_get (after dt ix (Field nm v)) n = Ok e /\ header_name e = NField nm).
  { intros n e Hi Hn Hlim He Hname. unfold after. rewrite Hi. destruct (mirrors_get t dt n e Hm He) as (e' & He' & _ & Hname'). exists n, e'. split_and!; try done; [lia..|congruence]. }
  destruct ix as [n h'|n h'|s|n s|h']; cbn [last_ok].
  - destruct Hagain as (Hn & e & He & Hname). by apply (Hold n e).
  - destruct Hok as (Hn & e & He & Hname). by apply (Hold n e).
  - subst s. by apply Hnew.
  - subst s. by apply Hnew.
  - cbn in Hres. by injection Hres as ->.
Qed.

(** *** The loop of the encoder against the parser *)

Lemma field_small_len h : field_small h -> header_len h * 4 < 2 ^ 64.
Proof.
  intros (_ & _ & H1 & H2). unfold str_limit, wire in *. cbn [fst snd] in *. destruct h; unfold header_len, field_len; cbn [header_name name_slice value_slice] in H1, H2; lia.
Qed.
(** One block is read, and the rest parsed with the table it leaves. *)
Lemma p_blocks_step w1 w2 fuel lm dt dt1 cr h' hs dt2 :
  w1 <> [] -> (length (w1 ++ w2) < fuel)%nat -> (forall rest, p_block lm dt cr (w1 ++ rest) = Ok (Some h', dt1, false, rest)) ->
  (forall fuel, (length w2 < fuel)%nat -> p_blocks fuel lm dt1 false w2 = (hs, dt2, Ok tt)) ->
  p_blocks fuel lm dt cr (w1 ++ w2) = (h' :: hs, dt2, Ok tt).
Proof.
  intros Hne Hf Hb Hrest. destruct fuel as [|fuel]; [lia|]. rewrite length_app in Hf. cbn [p_blocks]. rewrite Hb, Hrest by (destruct w1; [done|simpl in Hf; lia]). by destruct w1.
Qed.

Lemma encode_loop_parses headers last_nm last t dt dst hs :
  table_ready t -> mirrors t dt -> named last_nm headers = Some hs -> Forall header_ok hs -> Forall field_small hs -> inserted t + len headers + 1 < 2 ^ 64 -> bytes_ok dst ->
  (forall nm, last_nm = Some nm -> exists ix, last = Some ix /\ last_ok dt (slots t) ix nm) ->
  exists t' dt' w, encode_loop headers last t dst = Some (t', dst ++ w) /\ bytes_ok w /\ inv None 0 t' /\ esize t' <= emax_size t' /\ emax_size t' = emax_size t /\ inserted t' <= inserted t + len headers /\ mirrors t' dt'
    /\ exists hs', wire <$> hs' = wire <$> hs /\ forall fuel lm cr, (length w < fuel)%nat -> p_blocks fuel lm dt cr w = (hs', dt', Ok tt).
Proof.
  revert last_nm last t dt dst hs. induction headers as [|h headers IH]; intros last_nm last t dt dst hs Hrd Hm Hnamed Hok Hsm Hins Hdst Hlast.
  { cbn in Hnamed. injection Hnamed as <-. exists t, dt, []. rewrite app_nil_r. destruct Hrd as (H & Hsz & _). split_and!; try done; try lia; [constructor|rewrite len_nil; lia|].
    exists []. split; [done|]. by intros [|fuel]. }
  rewrite len_cons in Hins. pose proof (len_nonneg headers) as Hlen. cbn [encode_loop named] in *. destruct (reify h) as [h1|value].
  - destruct (named _ headers) as [l|] eqn:Hl; [|done]. cbn in Hnamed. injection Hnamed as <-. apply Forall_cons in Hok as [Hok1 Hok]. apply Forall_cons in Hsm as [Hsm1 Hsm].
    destruct (table_index_spec t h1 Hrd (field_small_len h1 Hsm1)) as (t1 & ix & -> & Hix). cbn [mbind option_bind]. pose proof Hix as (_ & [Hixok _] & _ & Hins1).
    destruct (indexed_ready t h1 t1 ix Hrd Hix ltac:(lia)) as [Hrd1 Hmax1]. pose proof (mirrors_after t dt h1 t1 ix Hrd Hm Hok1 Hix) as Hm1.
    pose proof (mirrors_index_ok t dt _ _ _ Hm Hixok) as Hixd.
    destruct (encode_header_block dt (slots t1) ix h1 dst (proj1 (proj2 (proj2 Hm))) Hixd Hok1 Hsm1) as (w1 & h' & Hw1 & Hne & Hwire & Hp). rewrite Hw1. cbn [mbind option_bind].
    assert (Hb1 : bytes_ok (dst ++ w1)) by (eapply encode_header_bytes; [apply Hixd|done|done|exact Hw1]).
    destruct (IH (match h1 with Field n _ => Some n | _ => None end) (Some ix) t1 (after dt ix h1) (dst ++ w1) l Hrd1 Hm1 Hl Hok Hsm ltac:(lia) Hb1) as (t2 & dt2 & w2 & Henc & Hbw2 & H2 & Hsz2 & Hmax2 & Hins2 & Hm2 & hs' & Hwires & Hparse).
    { intros nm Hnm. destruct h1 as [nm' v| | | | | |]; try done. injection Hnm as <-. exists ix. split; [done|]. by apply (indexed_last t dt (Field nm' v) t1 ix nm' v). }
    exists t2, dt2, (w1 ++ w2). rewrite app_assoc. apply bytes_ok_app in Hb1 as [_ Hb1]. split_and!; try done; [by apply bytes_ok_app; split|lia|rewrite len_cons; lia|].
    exists (h' :: hs'). split; [rewrite !fmap_cons; by rewrite Hwire, Hwires|]. intros fuel lm cr Hf. apply (p_blocks_step w1 w2 fuel lm dt (after dt ix h1)); auto.
  - destruct last_nm as [nm|]; [|done]. cbn [mbind option_bind] in Hnamed. destruct (named (Some nm) headers) as [l|] eqn:Hl; [|done]. cbn in Hnamed. injection Hnamed as <-.
    apply Forall_cons in Hok as [Hok1 Hok]. apply Forall_cons in Hsm as [Hsm1 Hsm]. destruct (Hlast nm eq_refl) as (ix & -> & Hix). cbn [mbind option_bind].
    destruct (without_name_as_header dt (slots t) ix nm value dst Hix) as (ix' & Hno & Hixd & ->).
    destruct (encode_header_block dt (slots t) ix' (Field nm value) dst (proj1 (proj2 (proj2 Hm))) Hixd Hok1 Hsm1) as (w1 & h' & Hw1 & Hne & Hwire & Hp). rewrite Hw1. cbn [mbind option_bind].
    assert (Ha : after dt ix' (Field nm value) = dt) by (unfold after; by rewrite Hno). rewrite Ha in Hp.
    assert (Hb1 : bytes_ok (dst ++ w1)) by (eapply encode_header_bytes; [apply Hixd|done|done|exact Hw1]).
    destruct (IH (Some nm) (Some ix) t dt (dst ++ w1) l Hrd Hm Hl Hok Hsm ltac:(lia) Hb1) as (t2 & dt2 & w2 & Henc & Hbw2 & H2 & Hsz2 & Hmax2 & Hins2 & Hm2 & hs' & Hwires & Hparse).
    { intros nm' [= <-]. by exists ix. }
    exists t2, dt2, (w1 ++ w2). rewrite app_assoc. apply bytes_ok_app in Hb1 as [_ Hb1]. split_and!; try done; [by apply bytes_ok_app; split|rewrite len_cons; lia|].
    exists (h' :: hs'). split; [rewrite !fmap_cons; by rewrite Hwire, Hwires|]. intros fuel lm cr Hf. apply (p_blocks_step w1 w2 fuel lm dt dt); auto.
Qed.

(** *** Size updates *)

Lemma mirrors_resize n t dt t' : table_ready t -> mirrors t dt -> 0 <= n -> as_table t' = (set_max_size n (as_table t)).1 -> mirrors t' (set_max_size n dt).1.
Proof.
  intros (H & Hsz & _) (He & Hx & Hok & Hall) Hn Htab.
  destruct (set_max_size_fit n (as_table t)) as (t1 & E1 & Hok1 & Hm1 & He1); [apply as_table_ok; [done|lia]|done|]. rewrite E1 in Htab. cbn [fst] in Htab.
  destruct (set_max_size_fit n dt Hok Hn) as (t2 & -> & Hok2 & Hm2 & He2). cbn [fst]. rewrite <- Htab in Hm1, He1. cbn [as_table entries max_size] in Hm1, He1.
  split; [rewrite He2, He, He1; by apply fit_rebuilt|]. split; [by rewrite Hm2, Hm1|]. split; [done|]. rewrite He1. by apply fit_ok.
Qed.
Lemma resize_ready n t dt : table_ready t -> mirrors t dt -> 0 <= n <= 2 ^ 28 ->
  exists t', resize n t = Some t' /\ table_ready t' /\ mirrors t' (set_max_size n dt).1 /\ inserted t' <= inserted t.
Proof.
  intros Hrd Hm Hn. pose proof Hrd as (H & Hsz & Hins). assert (Hz1 : esize t <= emax_size t < 2 ^ 60) by lia. assert (Hn0 : 0 <= n) by lia.
  destruct (resize_spec n t H Hins Hz1 Hn0) as (t' & Hr & H' & Htab & Hins'). exists t'. split; [done|].
  destruct (set_max_size_fit n (as_table t)) as (t1 & E1 & Hok1 & Hm1 & _); [apply as_table_ok; [done|lia]|lia|]. split; [|split; [by eapply mirrors_resize|done]].
  split; [done|]. rewrite E1 in Htab. cbn [fst] in Htab. subst t1. destruct Hok1 as [_ Hle]. cbn in Hle, Hm1. split; lia.
Qed.
(** The pending updates applied to both tables, and read by the parser in front of the headers. *)
Lemma take_size_update_parses e dt dst lm :
  table_ready (e_table e) -> mirrors (e_table e) dt -> Forall (fun v => 0 <= v <= lm /\ v <= 2 ^ 28) (size_updates (size_update e)) ->
  exists t' dt' w, take_size_update e dst = Some (t', dst ++ w) /\ table_ready t' /\ mirrors t' dt' /\ inserted t' <= inserted (e_table e) /\ (bytes_ok dst -> bytes_ok (dst ++ w))
    /\ forall fuel rest hs dt2, (length (w ++ rest) < fuel)%nat ->
         (forall fuel, (length rest < fuel)%nat -> p_blocks fuel lm dt' true rest = (hs, dt2, Ok tt)) -> p_blocks fuel lm dt true (w ++ rest) = (hs, dt2, Ok tt).
Proof.
  intros Hrd Hm Hl. unfold take_size_update.
  assert (Hone : forall v t dt, mirrors t dt -> 0 <= v <= lm -> v <= 2 ^ 28 -> forall fuel rest hs dt2, (length (encode_size_update v [] ++ rest) < fuel)%nat ->
    (forall fuel, (length rest < fuel)%nat -> p_blocks fuel lm (set_max_size v dt).1 true rest = (hs, dt2, Ok tt)) -> p_blocks fuel lm dt true (encode_size_update v [] ++ rest) = (hs, dt2, Ok tt)).
  { intros v t0 dt0 (_ & _ & Hok & _) Hv Hv' fuel rest hs dt2 Hf Hrest. destruct fuel as [|fuel]; [lia|]. rewrite length_app in Hf.
    destruct (encode_int_head v 5 32) as (tl & Hh). fold (encode_size_update v []) in Hh. cbn [p_blocks]. rewrite (p_block_size_update dt0 lm v rest Hok Hv) by (unfold int_limit; lia).
    rewrite Hrest by (rewrite Hh in Hf; simpl in Hf; lia). rewrite Hh. done. }
  assert (Hbytes : forall v dst, bytes_ok dst -> bytes_ok (dst ++ encode_size_update v [])) by (intros v d Hd; unfold encode_size_update; rewrite <- encode_int_app; apply encode_int_bytes; [split; vm_compute; congruence|done]).
  assert (Happ : forall v dst, encode_size_update v dst = dst ++ encode_size_update v []) by (intros v d; apply encode_int_app).
  destruct (size_update e) as [[v|lo hi]|]; cbn [size_updates] in Hl.
  - apply Forall_cons in Hl as [[Hv Hv'] _]. destruct (resize_ready v (e_table e) dt Hrd Hm ltac:(lia)) as (t1 & -> & Hrd1 & Hm1 & Hi1). cbn [mbind option_bind].
    exists t1, (set_max_size v dt).1, (encode_size_update v []). rewrite Happ. split_and!; try done; [by apply Hbytes|]. intros fuel rest hs dt2. by apply (Hone v (e_table e)).
  - apply Forall_cons in Hl as [[Hv Hv'] Hl]. apply Forall_cons in Hl as [[Hw Hw'] _]. destruct (resize_ready lo (e_table e) dt Hrd Hm ltac:(lia)) as (t1 & -> & Hrd1 & Hm1 & Hi1). cbn [mbind option_bind].
    destruct (resize_ready hi t1 _ Hrd1 Hm1 ltac:(lia)) as (t2 & -> & Hrd2 & Hm2 & Hi2). cbn [mbind option_bind].
    exists t2, (set_max_size hi (set_max_size lo dt).1).1, (encode_size_update lo [] ++ encode_size_update hi []). rewrite (Happ hi), (Happ lo), <- app_assoc. split_and!; try done; [lia|intros Hd; rewrite app_assoc; by apply Hbytes, Hbytes|].
    intros fuel rest hs dt2 Hf Hrest. rewrite <- app_assoc in *. apply (Hone lo (e_table e)); [done..|]. intros fuel' Hf'. by apply (Hone hi t1).
  - exists (e_table e), dt, []. rewrite app_nil_r. split_and!; try done. intros fuel rest hs dt2 Hf Hrest. by apply Hrest.
Qed.

(** *** The two ends *)

(** The pending updates were announced to the decoder. *)
Definition announced (e : Encoder) (d : Decoder) : Prop :=
  size_update e = None \/ exists m, max_size_update d = Some m /\ Forall (fun v => 0 <= v <= m /\ v <= 2 ^ 28) (size_updates (size_update e)).
Definition in_step (e : Encoder) (d : Decoder) : Prop :=
  inv None 0 (e_table e) /\ esize (e_table e) <= emax_size (e_table e) <= 2 ^ 32 /\ mirrors (e_table e) (table d) /\ buffer d = [] /\ announced e d.

Lemma block_in_step e d headers hs :
  in_step e d -> named None headers = Some hs -> Forall header_ok hs -> Forall field_small hs -> inserted (e_table e) + len headers + 1 < 2 ^ 64 ->
  exists e' w s', encoder_encode headers e [] = Some (e', w) /\ decode (mkSt d (mkCursor w 0) []) = (s', Ok tt) /\ wire <$> out s' = wire <$> hs
    /\ in_step e' (dec s') /\ inserted (e_table e') <= inserted (e_table e) + len headers /\ bytes_ok w.
Proof.
  intros (H & Hsz & Hm & Hbuf & Han) Hnamed Hok Hsm Hins. pose proof (len_nonneg headers) as Hlen. set (lm := default (last_max_update d) (max_size_update d)).
  assert (Hl : Forall (fun v => 0 <= v <= lm /\ v <= 2 ^ 28) (size_updates (size_update e))).
  { destruct Han as [->|(m & Hm' & Hall)]; [constructor|]. unfold lm. rewrite Hm'. done. }
  assert (Hrd : table_ready (e_table e)) by (split; [done|]; split; [done|lia]).
  destruct (take_size_update_parses e (table d) [] lm Hrd Hm Hl) as (t1 & dt1 & w1 & Htake & Hrd1 & Hm1 & Hi1 & Hb1 & Hp1). cbn [app] in *. specialize (Hb1 ltac:(constructor)).
  assert (Hno : forall nm : bytes, None = Some nm -> exists ix, @None Index = Some ix /\ last_ok dt1 (slots t1) ix nm) by done.
  destruct (encode_loop_parses headers None None t1 dt1 w1 hs Hrd1 Hm1 Hnamed Hok Hsm ltac:(lia) Hb1 Hno) as (t2 & dt2 & w2 & Henc & Hb2 & H2 & Hsz2 & Hmax2 & Hi2 & Hm2 & hs' & Hwires & Hp2).
  assert (Hw : bytes_ok (w1 ++ w2)) by (apply bytes_ok_app; by split).
  set (s := mkSt d (mkCursor (w1 ++ w2) 0) []). assert (Hch : chunk (cur s) = w1 ++ w2) by apply drop_0.
  assert (Hs : st_ok s) by (split; [unfold cur_ok; cbn; pose proof (len_nonneg (w1 ++ w2)); lia|]; rewrite Hch; split; [done|]; split; [apply Hm|done]).
  pose proof (decode_runs s Hs) as Hd. unfold p_headers in Hd. rewrite Hch in Hd. cbn [dec s] in Hd. fold lm in Hd.
  rewrite (Hp1 (S (length (w1 ++ w2))) w2 hs' dt2 ltac:(lia)) in Hd by (intros; by apply Hp2).
  destruct Hd as (s' & Hdec & Hout & Htab & _ & _ & Hfin). destruct (Hfin eq_refl) as [_ Hbuf'].
  exists (mkEncoder t2 None), (w1 ++ w2), s'. unfold encoder_encode. rewrite Htake. cbn [mbind option_bind]. rewrite Henc. cbn [mbind option_bind].
  split; [done|]. split; [exact Hdec|]. split; [rewrite Hout; exact Hwires|]. split; [|split; [cbn; lia|done]].
  destruct Hrd1 as (_ & Hz1 & _). split; [done|]. split; [cbn; lia|]. split; [cbn; by rewrite Htab|]. split; [done|]. by left.
Qed.
Lemma settings_in_step e d v : in_step e d -> 0 <= v <= 2 ^ 28 -> in_step (encoder_update_max_size v e) (queue_size_update v d).
Proof.
  intros (H & Hsz & Hm & Hbuf & Han) Hv. split; [done|]. split; [done|]. split; [done|]. split; [done|]. right.
  exists (match max_size_update d with Some m => Z.max m v | None => v end). split; [done|]. cbn [encoder_update_max_size size_update].
  assert (Hall : Forall (fun x => 0 <= x <= (match max_size_update d with Some m => Z.max m v | None => v end) /\ x <= 2 ^ 28) (size_updates (size_update e))).
  { destruct Han as [->|(m & -> & Hall)]; [constructor|]. eapply Forall_impl; [exact Hall|]. cbn. intros x Hx. lia. }
  assert (Hv' : 0 <= v <= (match max_size_update d with Some m => Z.max m v | None => v end) /\ v <= 2 ^ 28) by (destruct (max_size_update d); lia).
  destruct (size_update e) as [[o|lo hi]|]; unfold update_max_size; cbn [size_updates] in Hall; repeat case_match; cbn [size_updates];
    repeat (apply Forall_cons in Hall as [? Hall]); repeat (apply Forall_cons; split); try done; constructor.
Qed.
End Sync.

(** What happens on a connection: a header table size is settled (the decoder queues it, the
    encoder is told), or a list of headers is sent. *)
Inductive Op : Type := Settings (size : Z) | Block (headers : list (Header (option bytes))).
(** What the receiver's callback gets, block by block. *)
Fixpoint connection `{FT : FieldTypes} `{NH : NameHash} (ops : list Op) (e : Encoder) (d : Decoder) : option (list (list (bytes * bytes))) :=
  match ops with
  | [] => Some []
  | Settings v :: ops => connection ops (encoder_update_max_size v e) (queue_size_update v d)
  | Block headers :: ops =>
      '(e, w) ← encoder_encode headers e [];
      match decode (mkSt d (mkCursor w 0) []) with
      | (s, Ok _) => l ← connection ops e (dec s); Some ((wire <$> out s) :: l)
      | _ => None
      end
  end.
Definition block_of `{FT : FieldTypes} (op : Op) : option (list (bytes * bytes)) :=
  match op with
  | Settings _ => None
  | Block headers => match named None headers with Some hs => Some (wire <$> hs) | None => None end
  end.
Definition sent `{FT : FieldTypes} (ops : list Op) : list (list (bytes * bytes)) := omap block_of ops.
Definition op_ok `{FT : FieldTypes} (op : Op) : Prop :=
  match op with
  | Settings v => 0 <= v <= 2 ^ 28
  | Block headers => exists hs, named None headers = Some hs /\ Forall header_ok hs /\ Forall field_small hs
  end.
Definition op_len (op : Op) : Z := match op with Settings _ => 0 | Block headers => len headers end.
Definition ops_len (ops : list Op) : Z := foldr (fun op n => op_len op + n) 0 ops.

Section Connection.
Context `{FT : FieldTypes} `{NH : NameHash}.

Lemma etable_new_inv m c : 0 <= c <= 2 ^ 26 -> inv None 0 (etable_new m c).
Proof.
  intros Hc. assert (Hnone : forall k, entries_of (replicate k None) = []) by (induction k; [done|]; exact IHk).
  unfold etable_new. destruct (Z.eqb_spec c 0).
  - constructor; try done; try (by left); try (intros p e; by rewrite lookup_nil). intros x Hx. cbn in Hx. by apply not_elem_of_nil in Hx.
  - assert (Hraw : 1 <= to_raw_capacity c <= 2 ^ 27) by (unfold to_raw_capacity; pose proof (Z.div_pos c 3); pose proof (Z.div_le_upper_bound c 3 c); lia).
    set (k := Z.log2_up (to_raw_capacity c)). assert (Hk : 0 <= k <= 27) by (split; [apply Z.log2_up_nonneg|]; rewrite <- (Z.log2_up_pow2 27) by lia; apply Z.log2_up_le_mono; lia).
    assert (Hex : exists j, 3 <= j <= 27 /\ Z.max (2 ^ k) 8 = 2 ^ j).
    { destruct (Z.le_ge_cases k 3); [exists 3|exists k]; split; try lia.
      - pose proof (Z.pow_le_mono_r 2 k 3). rewrite Z.max_r; [done|]. change 8 with (2 ^ 3). lia.
      - pose proof (Z.pow_le_mono_r 2 3 k). change 8 with (2 ^ 3). lia. }
    destruct Hex as (j & Hj & ->). pose proof (Z.pow_le_mono_r 2 3 j ltac:(lia) ltac:(lia)). pose proof (Z.pow_le_mono_r 2 j 27 ltac:(lia) ltac:(lia)).
    constructor; cbn [indices slots mask inserted esize]; rewrite ?length_replicate; try done.
    + right. split; [|lia]. exists j. split; [lia|]. split; [|lia]. unfold uwrap, wrap. rewrite Z.mod_small; lia.
    + apply Nat.le_0_l.
    + apply rh_nil.
    + intros e He. rewrite Hnone in He. by apply not_elem_of_nil in He.
    + unfold refs. cbn [indices slots]. by rewrite Hnone.
Qed.
Lemma new_in_step m c : 0 <= m <= 2 ^ 28 -> 0 <= c <= 2 ^ 26 -> in_step (encoder_new m c) (decoder_new m).
Proof.
  intros Hm Hc. assert (Hs : slots (etable_new m c) = [] /\ esize (etable_new m c) = 0 /\ emax_size (etable_new m c) = m) by (unfold etable_new; by destruct (c =? 0)). destruct Hs as (Hs & He & Hx).
  split; [by apply etable_new_inv|]. cbn [encoder_new e_table]. rewrite He, Hx. split; [lia|]. split; [|split; [done|by left]].
  split; [cbn; by rewrite Hs|]. split; [cbn; by rewrite Hx|]. split; [split; cbn; lia|]. cbn. rewrite Hs. constructor.
Qed.
Lemma connection_in_step ops e d :
  in_step e d -> Forall op_ok ops -> inserted (e_table e) + ops_len ops + 1 < 2 ^ 64 -> connection ops e d = Some (sent ops).
Proof.
  revert e d. induction ops as [|op ops IH]; intros e d Hst Hok Hins; [done|]. apply Forall_cons in Hok as [Hop Hok]. cbn [ops_len foldr] in Hins. fold (ops_len ops) in Hins.
  assert (Hpos : 0 <= ops_len ops) by (clear; unfold ops_len; induction ops as [|[v|hs] ops IH]; cbn [foldr op_len]; [lia|lia|]; pose proof (len_nonneg hs); lia).
  destruct op as [v|headers]; cbn [connection].
  - apply (IH _ _ (settings_in_step e d v Hst Hop) Hok). cbn [encoder_update_max_size e_table op_len] in *. lia.
  - destruct Hop as (hs & Hnamed & Hho & Hsm). destruct (block_in_step e d headers hs Hst Hnamed Hho Hsm) as (e' & w & s' & -> & Hd & Hout & Hst' & Hi' & _); [cbn [op_len] in Hins; lia|].
    cbn [mbind option_bind]. rewrite Hd. rewrite (IH e' (dec s') Hst' Hok); [|cbn [op_len] in Hins; lia]. cbn [mbind option_bind]. unfold sent. cbn [omap list_omap block_of]. rewrite Hnamed. by rewrite Hout.
Qed.
End Connection.

(** ** Properties *)

(** C11: the encoder's table, hash index, chains, eviction and growth included, refines the table of
    the decoder: indexing a header never panics or runs on; the representation chosen is right
    about the table as the decoder has it then; afterwards the table is the decoder's after
    reading that representation, and the invariant holds again.  Resizing likewise. *)
Theorem hpack_index_refines `{FT : FieldTypes} `{NH : NameHash} (t : ETable) :
  inv None 0 t -> esize t <= emax_size t <= 2 ^ 32 -> inserted t + 1 < 2 ^ 64 ->
  (forall h, header_len h * 4 < 2 ^ 64 ->
     exists t' ix, table_index h t = Some (t', ix) /\ inv None 0 t' /\ index_ok (as_table t) (slots t') ix h
       /\ as_table t' = (if indexes ix then (table_insert h (as_table t)).1 else as_table t))
  /\ (forall n, 0 <= n -> exists t', resize n t = Some t' /\ inv None 0 t' /\ as_table t' = (set_max_size n (as_table t)).1).
Proof.
  intros H Hsz Hins. split.
  - intros h Hh. destruct (table_index_spec t h (conj H (conj Hsz Hins)) Hh) as (t' & ix & Hi & H' & [Hok _] & Htab & _). by exists t', ix.
  - intros n Hn. assert (Hz : esize t <= emax_size t < 2 ^ 60) by lia. destruct (resize_spec n t H Hins Hz Hn) as (t' & Hr & H' & Htab & _). by exists t'.
Qed.


(** ** Witnesses *)

(** A hash that makes names collide. *)
#[global] Instance len_hash : NameHash := {| hash_name n := len (name_slice n) |}.
Definition demo_ops : list Op :=
  [Block [HMethod PATCH; Field (Some (bs "x-one")) (mkValue (bs "1") false); Field None (mkValue (bs "2") true); Field (Some (bs "x-two")) (mkValue (bs "1") false)];
   Settings 100; Settings 90;
   Block [Field (Some (bs "x-two")) (mkValue (bs "1") false); Field (Some (bs "x-one")) (mkValue (bs "2") false); Field (Some (bs "x-one")) (mkValue (bs "3") false)]].
Definition demo_table : ETable := match table_index (Field (bs "x-one") (mkValue (bs "1") false)) (etable_new 90 0) with Some (t, _) => t | None => etable_new 90 0 end.
Lemma header_check h : match header_new (name_slice (header_name h)) (value_slice h) with Ok h' => bool_decide (header_name h' = header_name h) | _ => false end = true -> header_ok h.
Proof. unfold header_ok. destruct (header_new _ _) as [h'|e|]; [|done..]. intros H%bool_decide_eq_true. by exists h'. Qed.
Lemma small_check h : bool_decide (bytes_ok (wire h).1) && bool_decide (bytes_ok (wire h).2) && (len (wire h).1 <=? 1000) && (len (wire h).2 <=? 1000) = true -> field_small h.
Proof.
  intros [[[H1%bool_decide_eq_true H2%bool_decide_eq_true]%andb_prop H3%Z.leb_le]%andb_prop H4%Z.leb_le]%andb_prop. unfold field_small, str_limit. split_and!; try done; lia.
Qed.
Lemma demo_table_inv : inv None 0 demo_table.
Proof.
  destruct (table_index_spec (etable_new 90 0) (Field (bs "x-one") (mkValue (bs "1") false))) as (t & ix & Ht & H & _).
  - split; [by apply etable_new_inv|]. split; vm_compute; [split; congruence|done].
  - vm_compute. reflexivity.
  - unfold demo_table. by rewrite Ht.
Qed.
Lemma hpack_index_refines_witness :
  exists t' ix, table_index (Field (bs "x-two") (mkValue (bs "12345") false)) demo_table = Some (t', ix) /\ inv None 0 t'
    /\ index_ok (as_table demo_table) (slots t') ix (Field (bs "x-two") (mkValue (bs "12345") false))
    /\ as_table t' = mkTable [Field (bs "x-two") (mkValue (bs "12345") false); Field (bs "x-one") (mkValue (bs "1") false)] 80 90.
Proof.
  assert (Hsz : esize demo_table <= emax_size demo_table <= 2 ^ 32) by (split; vm_compute; congruence).
  assert (Hins : inserted demo_table + 1 < 2 ^ 64) by (vm_compute; reflexivity).
  destruct (proj1 (hpack_index_refines demo_table demo_table_inv Hsz Hins) (Field (bs "x-two") (mkValue (bs "12345") false))) as (t' & ix & Hi & H' & Hok & Htab); [vm_compute; reflexivity|].
  exists t', ix. split; [exact Hi|]. split; [exact H'|]. split; [exact Hok|]. rewrite Htab.
  assert (Hix : option_map (fun r => indexes r.2) (table_index (Field (bs "x-two") (mkValue (bs "12345") false)) demo_table) = Some true) by (vm_compute; reflexivity).
  rewrite Hi in Hix. cbn [option_map snd] in Hix. injection Hix as ->. vm_compute. reflexivity.
Defined.
