(* ===== verification/H2Frame.v ===== *)
(** * HTTP/2 frames (http/src/h2/proto: head.rs, stream_id.rs, settings.rs, data.rs,
      window_update.rs, reset.rs, go_away.rs, priority.rs, and the frame reader of mod.rs)

    The nine-byte frame head, the frames with their [load] and [encode], and the reader that cuts
    the byte stream into frames.  A [todo!()] in a [load] is a panic. *)

From S2P Require Import Prelude HpackInt.

(** [Error] of error.rs; I/O errors do not arise here. *)
Inductive H2Error := MalformedMessage | Hpack (e : DecoderError).

(** *** Stream identifiers *)

Definition STREAM_ID_MASK : Z := 2 ^ 31.
Definition StreamId_MAX : Z := Z.shiftr (2 ^ 32 - 1) 1.
(** [StreamId::parse]: the identifier and the reserved bit. *)
Definition stream_id_parse {E} (buf : bytes) : outcome E (Z * bool) :=
  match slice 0 4 buf with
  | None => Panic
  | Some b =>
      let unpacked := be_decode b in
      Ok (Z.land unpacked (2 ^ 32 - 1 - STREAM_ID_MASK), Z.land unpacked STREAM_ID_MASK =? STREAM_ID_MASK)
  end.
Definition is_client_initiated (id : Z) : bool := negb (id =? 0) && (id mod 2 =? 1).
Definition is_server_initiated (id : Z) : bool := negb (id =? 0) && (id mod 2 =? 0).
Definition is_zero (id : Z) : bool := id =? 0.
(** [StreamId::next_id]: [None] is [StreamIdOverflow]. *)
Definition next_id (id : Z) : option Z := let next := id + 2 in if next >? StreamId_MAX then None else Some next.
(** [From<u32> for StreamId]. *)
Definition stream_id_from {E} (src : Z) : outcome E Z := if Z.land src STREAM_ID_MASK =? 0 then Ok src else Panic.

(** *** The frame head *)

Inductive Kind :=
| KData | KHeaders | KPriority | KReset | KSettings | KPushPromise | KPing | KGoAway | KWindowUpdate
| KContinuation | KUnknown.
#[global] Instance Kind_eq_dec : EqDecision Kind.
Proof. solve_decision. Defined.
Definition kind_new (byte : Z) : Kind :=
  match byte with
  | 0 => KData
  | 1 => KHeaders
  | 2 => KPriority
  | 3 => KReset
  | 4 => KSettings
  | 5 => KPushPromise
  | 6 => KPing
  | 7 => KGoAway
  | 8 => KWindowUpdate
  | 9 => KContinuation
  | _ => KUnknown
  end.
(** [kind as u8]. *)
Definition kind_u8 (k : Kind) : Z :=
  match k with
  | KData => 0 | KHeaders => 1 | KPriority => 2 | KReset => 3 | KSettings => 4 | KPushPromise => 5
  | KPing => 6 | KGoAway => 7 | KWindowUpdate => 8 | KContinuation => 9 | KUnknown => 10
  end.
Record Head := mkHead { kind : Kind; flag : Z; head_stream_id : Z }.
(** [Head::parse], after the length. *)
Definition head_parse {E} (header : bytes) : outcome E Head :=
  match header with
  | k :: f :: rest => if 6 <=? len header then '(id, _) ← stream_id_parse rest; Ok (mkHead (kind_new k) f id) else Panic
  | _ => Panic
  end.
(** [Head::encode]: [put_uint(_, 3)], [put_u8], [put_u8], [put_u32]. *)
Definition head_encode (h : Head) (payload_len : Z) (dst : bytes) : bytes :=
  dst ++ be_encode 3 payload_len ++ [kind_u8 (kind h)] ++ [flag h] ++ be_encode 4 (head_stream_id h).

(** [unpack_octets_4!]. *)
Definition unpack_octets_4 {E} (buf : bytes) (offset : nat) : outcome E Z :=
  match buf !! offset, buf !! S offset, buf !! S (S offset), buf !! S (S (S offset)) with
  | Some a, Some b, Some c, Some d =>
      Ok (Z.lor (Z.lor (Z.lor (Z.shiftl a 24) (Z.shiftl b 16)) (Z.shiftl c 8)) d)
  | _, _, _, _ => Panic
  end.

(** *** DATA *)

Definition END_STREAM : Z := 1.
Definition PADDED : Z := 8.
Definition DATA_ALL : Z := Z.lor END_STREAM PADDED.
Record Data := mkData { d_stream_id : Z; d_data : bytes; d_flags : Z; d_pad_len : option Z }.
Definition data_new {E} (stream_id : Z) (payload : bytes) : outcome E Data :=
  if is_zero stream_id then Panic else Ok (mkData stream_id payload 0 None).
Definition is_end_stream (d : Data) : bool := Z.land (d_flags d) END_STREAM =? END_STREAM.
Definition set_end_stream (val : bool) (d : Data) : Data :=
  let flags := if val then Z.lor (d_flags d) END_STREAM else Z.land (d_flags d) (255 - END_STREAM) in
  mkData (d_stream_id d) (d_data d) flags (d_pad_len d).
Definition data_load (head : Head) (payload : bytes) : outcome H2Error Data :=
  if is_zero (head_stream_id head) then Panic
  else Ok (mkData (head_stream_id head) payload (Z.land (flag head) DATA_ALL) None).
(** [Data::encode_chunk]; the assertion on the space of a growing buffer holds. *)
Definition data_encode (d : Data) (dst : bytes) : bytes :=
  head_encode (mkHead KData (d_flags d) (d_stream_id d)) (len (d_data d)) dst ++ d_data d.

(** *** WINDOW_UPDATE, RST_STREAM, GOAWAY, PRIORITY *)

Definition SIZE_INCREMENT_MASK : Z := 2 ^ 31.
Record WindowUpdate := mkWindowUpdate { w_stream_id : Z; size_increment : Z }.
Definition window_update_load (head : Head) (payload : bytes) : outcome H2Error WindowUpdate :=
  if negb (len payload =? 4) then Panic
  else
    v ← unpack_octets_4 payload 0;
    let size_increment := Z.land v (2 ^ 32 - 1 - SIZE_INCREMENT_MASK) in
    if size_increment =? 0 then Panic else Ok (mkWindowUpdate (head_stream_id head) size_increment).
Definition window_update_encode (w : WindowUpdate) (dst : bytes) : bytes :=
  head_encode (mkHead KWindowUpdate 0 (w_stream_id w)) 4 dst ++ be_encode 4 (size_increment w).

Record Reset := mkReset { r_stream_id : Z; r_error_code : Z }.
Definition reset_load (head : Head) (payload : bytes) : outcome H2Error Reset :=
  error_code ← unpack_octets_4 payload 0;
  Ok (mkReset (head_stream_id head) error_code).
Definition reset_encode (r : Reset) (dst : bytes) : bytes :=
  head_encode (mkHead KReset 0 (r_stream_id r)) 4 dst ++ be_encode 4 (r_error_code r).

Record GoAway := mkGoAway { last_stream_id : Z; g_error_code : Z; debug_data : bytes }.
Definition go_away_load (payload : bytes) : outcome H2Error GoAway :=
  if len payload <? 8 then Panic
  else
    '(last, _) ← stream_id_parse (take 4 payload);
    error_code ← unpack_octets_4 payload 4;
    Ok (mkGoAway last error_code (drop 8 payload)).
Definition go_away_encode (g : GoAway) (dst : bytes) : bytes :=
  head_encode (mkHead KGoAway 0 0) (8 + len (debug_data g)) dst ++
  be_encode 4 (last_stream_id g) ++ be_encode 4 (g_error_code g) ++ debug_data g.

Record StreamDependency := mkDependency { dependency_id : Z; weight : Z; is_exclusive : bool }.
Record Priority := mkPriority { p_stream_id : Z; dependency : StreamDependency }.
Definition dependency_load (src : bytes) : outcome H2Error StreamDependency :=
  if negb (len src =? 5) then Panic
  else
    '(id, exclusive) ← stream_id_parse (take 4 src);
    weight ← unwrap (src !! 4%nat);
    Ok (mkDependency id weight exclusive).
Definition priority_load (head : Head) (payload : bytes) : outcome H2Error Priority :=
  d ← dependency_load payload;
  if dependency_id d =? head_stream_id head then Panic else Ok (mkPriority (head_stream_id head) d).

(** *** SETTINGS *)

Inductive Setting :=
| HeaderTableSize (v : Z) | EnablePush (v : Z) | MaxConcurrentStreams (v : Z) | InitialWindowSize (v : Z)
| MaxFrameSize (v : Z) | MaxHeaderListSize (v : Z) | EnableConnectProtocol (v : Z).
Record Settings := mkSettings {
  s_flags : Z; header_table_size : option Z; enable_push : option Z; max_concurrent_streams : option Z;
  initial_window_size : option Z; max_frame_size : option Z; max_header_list_size : option Z;
  enable_connect_protocol : option Z }.
Definition ACK : Z := 1.
Definition DEFAULT_MAX_FRAME_SIZE : Z := 16384.
Definition MAX_INITIAL_WINDOW_SIZE : Z := 2 ^ 31 - 1.
Definition MAX_MAX_FRAME_SIZE : Z := 2 ^ 24 - 1.
Definition settings_default : Settings := mkSettings 0 None None None None None None None.
Definition settings_ack : Settings := mkSettings ACK None None None None None None None.
Definition is_ack (s : Settings) : bool := Z.land (s_flags s) ACK =? ACK.

Definition setting_from_id (id val : Z) : option Setting :=
  match id with
  | 1 => Some (HeaderTableSize val)
  | 2 => Some (EnablePush val)
  | 3 => Some (MaxConcurrentStreams val)
  | 4 => Some (InitialWindowSize val)
  | 5 => Some (MaxFrameSize val)
  | 6 => Some (MaxHeaderListSize val)
  | 8 => Some (EnableConnectProtocol val)
  | _ => None
  end.
Definition setting_load {E} (raw : bytes) : outcome E (option Setting) :=
  match raw !! 0%nat, raw !! 1%nat with
  | Some a, Some b =>
      val ← unpack_octets_4 raw 2;
      Ok (setting_from_id (Z.lor (Z.shiftl a 8) b) val)
  | _, _ => Panic
  end.
Definition setting_encode (s : Setting) (dst : bytes) : bytes :=
  let '(kind, val) := match s with
    | HeaderTableSize v => (1, v)
    | EnablePush v => (2, v)
    | MaxConcurrentStreams v => (3, v)
    | InitialWindowSize v => (4, v)
    | MaxFrameSize v => (5, v)
    | MaxHeaderListSize v => (6, v)
    | EnableConnectProtocol v => (8, v)
    end in
  dst ++ be_encode 2 kind ++ be_encode 4 val.

(** One turn of the loop of [Settings::load]. *)
Definition settings_apply {E} (s : Settings) (o : option Setting) : outcome E Settings :=
  let '(mkSettings f a b c d e g h) := s in
  match o with
  | Some (HeaderTableSize v) => Ok (mkSettings f (Some v) b c d e g h)
  | Some (EnablePush v) => if (v =? 0) || (v =? 1) then Ok (mkSettings f a (Some v) c d e g h) else Panic
  | Some (MaxConcurrentStreams v) => Ok (mkSettings f a b (Some v) d e g h)
  | Some (InitialWindowSize v) =>
      if v >? MAX_INITIAL_WINDOW_SIZE then Panic else Ok (mkSettings f a b c (Some v) e g h)
  | Some (MaxFrameSize v) =>
      if negb ((DEFAULT_MAX_FRAME_SIZE <=? v) && (v <=? MAX_MAX_FRAME_SIZE)) then Panic
      else Ok (mkSettings f a b c d (Some v) g h)
  | Some (MaxHeaderListSize v) => Ok (mkSettings f a b c d e (Some v) h)
  | Some (EnableConnectProtocol v) => if (v =? 0) || (v =? 1) then Ok (mkSettings f a b c d e g (Some v)) else Panic
  | None => Ok s
  end.
(** The loop over [payload.chunks(6)]. *)
Fixpoint settings_loop (fuel : nat) (payload : bytes) (s : Settings) : outcome H2Error Settings :=
  match fuel, payload with
  | _, [] => Ok s
  | O, _ => Ok s
  | S fuel, _ =>
      o ← setting_load (take 6 payload);
      s ← settings_apply s o;
      settings_loop fuel (drop 6 payload) s
  end.
Definition settings_load (head : Head) (payload : bytes) : outcome H2Error Settings :=
  if negb (is_zero (head_stream_id head)) then Panic
  else if Z.land (Z.land (flag head) ACK) ACK =? ACK then
    match payload with [] => Ok settings_ack | _ => Panic end
  else if negb (len payload mod 6 =? 0) then Panic
  else settings_loop (length payload) payload settings_default.
(** [Settings::for_each]: the settings that are set, in the order they are sent. *)
Definition settings_list (s : Settings) : list Setting :=
  option_list (HeaderTableSize <$> header_table_size s) ++ option_list (EnablePush <$> enable_push s) ++
  option_list (MaxConcurrentStreams <$> max_concurrent_streams s) ++
  option_list (InitialWindowSize <$> initial_window_size s) ++ option_list (MaxFrameSize <$> max_frame_size s) ++
  option_list (MaxHeaderListSize <$> max_header_list_size s) ++
  option_list (EnableConnectProtocol <$> enable_connect_protocol s).
Definition settings_encode (s : Settings) (dst : bytes) : bytes :=
  let l := settings_list s in
  let payload_len := 6 * len l in
  fold_left (fun dst x => setting_encode x dst) l (head_encode (mkHead KSettings (s_flags s) 0) payload_len dst).

(** *** The frame reader of [DecodeContext::try_decode] *)

(** The length is known: wait for the frame, or split it off and parse its head. *)
Definition finish_frame {E} (next : Z) (buf : bytes) : (Z * bytes) * outcome E (option (Head * bytes)) :=
  if len buf <? next then ((next, buf), Ok None)
  else
    let frame := take (Z.to_nat next) buf in
    let buf := drop (Z.to_nat next) buf in
    match head_parse frame with
    | Ok head => ((0, buf), Ok (Some (head, drop 6 frame)))
    | Err e => ((0, buf), Err e)
    | Panic => ((0, buf), Panic)
    end.
(** [next_frame_len] (0: a new frame is awaited) and the buffer. *)
Definition read_frame {E} : M (Z * bytes) E (option (Head * bytes)) := fun st =>
  let '(next, buf) := st in
  if next =? 0 then
    if len buf <? 3 then ((0, buf), Ok None)
    else finish_frame (be_decode (take 3 buf) + 6) (drop 3 buf)
  else finish_frame next buf.

(** *** Frames and streams of frames *)

Inductive Frame :=
| FData (d : Data) | FSettings (s : Settings) | FWindowUpdate (w : WindowUpdate) | FReset (r : Reset) | FGoAway (g : GoAway).
Definition frame_encode (f : Frame) (dst : bytes) : bytes :=
  match f with
  | FData d => data_encode d dst
  | FSettings s => settings_encode s dst
  | FWindowUpdate w => window_update_encode w dst
  | FReset r => reset_encode r dst
  | FGoAway g => go_away_encode g dst
  end.
Definition frame_load (head : Head) (payload : bytes) : outcome H2Error Frame :=
  match kind head with
  | KData => FData <$> data_load head payload
  | KSettings => FSettings <$> settings_load head payload
  | KWindowUpdate => FWindowUpdate <$> window_update_load head payload
  | KReset => FReset <$> reset_load head payload
  | KGoAway => FGoAway <$> go_away_load payload
  | _ => Err MalformedMessage
  end.

(** Frames as an endpoint builds them. *)
Definition stream_id_ok (id : Z) : Prop := 0 <= id < 2 ^ 31.
Definition opt_ok (P : Z -> Prop) (o : option Z) : Prop := match o with Some v => P v | None => True end.
Definition settings_ok (s : Settings) : Prop :=
  s = settings_ack \/
  (s_flags s = 0 /\ opt_ok is_u32 (header_table_size s) /\ opt_ok (fun v => v = 0 \/ v = 1) (enable_push s) /\
   opt_ok is_u32 (max_concurrent_streams s) /\ opt_ok (fun v => 0 <= v <= MAX_INITIAL_WINDOW_SIZE) (initial_window_size s) /\
   opt_ok (fun v => DEFAULT_MAX_FRAME_SIZE <= v <= MAX_MAX_FRAME_SIZE) (max_frame_size s) /\
   opt_ok is_u32 (max_header_list_size s) /\ opt_ok (fun v => v = 0 \/ v = 1) (enable_connect_protocol s)).
Definition frame_ok (f : Frame) : Prop :=
  match f with
  | FData d => stream_id_ok (d_stream_id d) /\ d_stream_id d <> 0 /\ (d_flags d = 0 \/ d_flags d = END_STREAM) /\
      d_pad_len d = None /\ bytes_ok (d_data d) /\ len (d_data d) < 2 ^ 24
  | FSettings s => settings_ok s
  | FWindowUpdate w => stream_id_ok (w_stream_id w) /\ 0 < size_increment w < 2 ^ 31
  | FReset r => stream_id_ok (r_stream_id r) /\ is_u32 (r_error_code r)
  | FGoAway g => stream_id_ok (last_stream_id g) /\ is_u32 (g_error_code g) /\ bytes_ok (debug_data g) /\
      8 + len (debug_data g) < 2 ^ 24
  end.

(** Reading a connection in segments: after each, every complete frame is taken. *)
Fixpoint read_loop (fuel : nat) (st : Z * bytes) : list (Head * bytes) * (Z * bytes) :=
  match fuel with
  | O => ([], st)
  | S fuel =>
      match read_frame (E := H2Error) st with
      | (st, Ok (Some f)) => let '(fs, st) := read_loop fuel st in (f :: fs, st)
      | (st, _) => ([], st)
      end
  end.
Fixpoint read_segments (segs : list bytes) (st : Z * bytes) : list (Head * bytes) * (Z * bytes) :=
  match segs with
  | [] => ([], st)
  | seg :: segs =>
      let st := (st.1, st.2 ++ seg) in
      let '(fs, st) := read_loop (S (length st.2)) st in
      let '(gs, st) := read_segments segs st in
      (fs ++ gs, st)
  end.

(** *** Numbers *)

Lemma unpack_octets_be {E} (l r : bytes) (n : nat) (p : bytes) :
  bytes_ok l -> length l = 4%nat -> length p = n ->
  unpack_octets_4 (E := E) (p ++ l ++ r) n = Ok (be_decode l).
Proof.
  intros Hl Hlen <-. destruct l as [|a [|b [|c [|d [|? ?]]]]]; try done.
  inversion Hl as [|? ? Ha Hl1]; inversion Hl1 as [|? ? Hb Hl2]; inversion Hl2 as [|? ? Hc Hl3]; inversion Hl3 as [|? ? Hd _]; subst.
  unfold unpack_octets_4.
  assert (H0 : forall i x, [a; b; c; d] !! i = Some x -> (p ++ [a; b; c; d] ++ r) !! (length p + i)%nat = Some x).
  { intros i x Hx. rewrite lookup_app_r by lia. replace (length p + i - length p)%nat with i by lia.
    by apply lookup_app_l_Some. }
  pose proof (H0 0%nat a eq_refl) as L0. pose proof (H0 1%nat b eq_refl) as L1.
  pose proof (H0 2%nat c eq_refl) as L2. pose proof (H0 3%nat d eq_refl) as L3.
  replace (length p + 0)%nat with (length p) in L0 by lia. replace (length p + 1)%nat with (S (length p)) in L1 by lia.
  replace (length p + 2)%nat with (S (S (length p))) in L2 by lia. replace (length p + 3)%nat with (S (S (S (length p)))) in L3 by lia.
  rewrite L0, L1, L2, L3. f_equal. unfold be_decode. cbn [fold_left].
  assert (Hor : forall x y, is_u8 y -> x * 256 + y = Z.lor (Z.shiftl x 8) y).
  { intros x y Hy. rewrite Z.lor_comm, <- add_high_lor by (done || lia). change (2 ^ 8) with 256. lia. }
  rewrite !Hor by done. rewrite Z.shiftl_0_l, Z.lor_0_l, !Z.shiftl_lor, !Z.shiftl_shiftl by lia. done.
Qed.
Lemma be_encode_len n z : len (be_encode n z) = Z.of_nat n.
Proof. unfold len. by rewrite be_encode_length. Qed.
Lemma unpack_encoded {E} p z r :
  is_u32 z -> unpack_octets_4 (E := E) (p ++ be_encode 4 z ++ r) (length p) = Ok z.
Proof.
  intros Hz. rewrite unpack_octets_be by (apply be_encode_ok || apply be_encode_length || done).
  f_equal. apply be_decode_encode_small. unfold fits in Hz. simpl. lia.
Qed.
(** An identifier comes back with the reserved bit clear. *)
Lemma stream_id_parse_encoded {E} z r : stream_id_ok z -> stream_id_parse (E := E) (be_encode 4 z ++ r) = Ok (z, false).
Proof.
  intros Hz. unfold stream_id_ok in Hz. unfold stream_id_parse.
  pose proof (slice_app_mid [] (be_encode 4 z) r 0 4 eq_refl ltac:(by rewrite be_encode_len)) as Hs.
  rewrite app_nil_l in Hs. rewrite Hs.
  rewrite be_decode_encode_small by (simpl; lia). f_equal. f_equal.
  - change (2 ^ 32 - 1 - STREAM_ID_MASK) with (Z.ones 31). rewrite Z.land_ones by lia. apply Z.mod_small. lia.
  - unfold STREAM_ID_MASK. destruct (Z.land z (2 ^ 31) =? 0) eqn:E0.
    + apply Z.eqb_eq in E0. by rewrite E0.
    + exfalso. rewrite land_pow2_testbit in E0 by lia. rewrite (testbit_small z 31) in E0; [done|unfold fits; lia|lia].
Qed.

(** *** The head *)

Definition head_ok (h : Head) : Prop := kind h <> KUnknown /\ is_u8 (flag h) /\ stream_id_ok (head_stream_id h).
Lemma kind_new_u8 k : k <> KUnknown -> kind_new (kind_u8 k) = k.
Proof. by destruct k. Qed.
Lemma head_parse_encoded {E} h payload :
  head_ok h ->
  head_parse (E := E) ([kind_u8 (kind h)] ++ [flag h] ++ be_encode 4 (head_stream_id h) ++ payload) = Ok h.
Proof.
  intros (Hk & _ & Hid). unfold head_parse. cbn [app].
  assert (H6 : (6 <=? len (kind_u8 (kind h) :: flag h :: be_encode 4 (head_stream_id h) ++ payload)) = true).
  { apply Z.leb_le. rewrite !len_cons, len_app, (be_encode_len 4). pose proof (len_nonneg payload). lia. }
  rewrite H6, stream_id_parse_encoded by done. cbn [mbind outcome_bind]. rewrite kind_new_u8 by done. by destruct h.
Qed.

(** Cutting the front frame off a stream of bytes. *)
Definition cut (raw : bytes) : option (bytes * bytes) :=
  if len raw <? 3 then None
  else
    let n := be_decode (take 3 raw) + 6 in
    let raw := drop 3 raw in
    if len raw <? n then None else Some (take (Z.to_nat n) raw, drop (Z.to_nat n) raw).
Lemma cut_app raw more frame rest : cut raw = Some (frame, rest) -> cut (raw ++ more) = Some (frame, rest ++ more).
Proof.
  unfold cut. destruct (Z.ltb_spec (len raw) 3) as [|H3]; [done|].
  assert (Hl : (3 <= length raw)%nat) by (unfold len in H3; lia).
  destruct (Z.ltb_spec (len (drop 3 raw)) (be_decode (take 3 raw) + 6)) as [|Hn]; [done|]. intros [= <- <-].
  pose proof (len_nonneg more). rewrite (proj2 (Z.ltb_ge (len (raw ++ more)) 3)) by (rewrite len_app; lia).
  rewrite take_app_le, drop_app_le by lia. set (n := be_decode (take 3 raw) + 6) in *.
  rewrite (proj2 (Z.ltb_ge (len (drop 3 raw ++ more)) n)) by (rewrite len_app; lia). unfold len in Hn.
  by rewrite take_app_le, drop_app_le by lia.
Qed.
Lemma cut_shorter raw frame rest : cut raw = Some (frame, rest) -> bytes_ok raw ->
  (length rest + 9 <= length raw)%nat /\ (6 <= length frame)%nat /\ bytes_ok rest.
Proof.
  unfold cut. destruct (Z.ltb_spec (len raw) 3) as [|H3]; [done|].
  destruct (Z.ltb_spec (len (drop 3 raw)) (be_decode (take 3 raw) + 6)) as [|Hn]; [done|]. intros [= <- <-] Hok.
  pose proof (be_decode_bound (take 3 raw) ltac:(auto with xitca)) as Hb.
  split; [|split; [|auto with xitca]]; unfold len in *; rewrite ?length_take, !length_drop in *; lia.
Qed.

(** The reader's state as the bytes it stands for. *)
Definition raw_of (st : Z * bytes) : bytes := if st.1 =? 0 then st.2 else be_encode 3 (st.1 - 6) ++ st.2.
Definition reader_ok (st : Z * bytes) : Prop := bytes_ok st.2 /\ (st.1 = 0 \/ 6 <= st.1 < 2 ^ 24 + 6).

Lemma head_parse_total {E} frame : (6 <= length frame)%nat -> exists h, head_parse (E := E) frame = Ok h.
Proof.
  intros H. unfold head_parse. destruct frame as [|k [|f rest]]; simpl in H; try lia.
  rewrite (proj2 (Z.leb_le _ _)) by (unfold len; simpl; lia). unfold stream_id_parse, slice.
  rewrite (proj2 (Z.leb_le 4 _)) by (unfold len; lia). simpl. eauto.
Qed.
Lemma finish_frame_cut n b :
  6 <= n < 2 ^ 24 + 6 -> bytes_ok b ->
  match (if len b <? n then None else Some (take (Z.to_nat n) b, drop (Z.to_nat n) b)) with
  | None => finish_frame (E := H2Error) n b = ((n, b), Ok None)
  | Some (frame, rest) => exists h, head_parse (E := H2Error) frame = Ok h /\
      finish_frame (E := H2Error) n b = ((0, rest), Ok (Some (h, drop 6 frame)))
  end.
Proof.
  intros Hn Hb. unfold finish_frame. destruct (Z.ltb_spec (len b) n) as [|Hge]; [done|].
  destruct (head_parse_total (E := H2Error) (take (Z.to_nat n) b)) as (h & Hh);
    [unfold len in Hge; rewrite length_take; lia|]. exists h. by rewrite Hh.
Qed.
(** Once the length is read, the bytes stood for are the same. *)
Lemma raw_of_started buf :
  bytes_ok buf -> 3 <= len buf ->
  let n := be_decode (take 3 buf) + 6 in 6 <= n < 2 ^ 24 + 6 /\ raw_of (n, drop 3 buf) = buf.
Proof.
  intros Hb H3. assert (Hl3 : length (take 3 buf) = 3%nat) by (rewrite length_take; unfold len in H3; lia).
  pose proof (be_decode_bound (take 3 buf) ltac:(auto with xitca)) as Hbd.
  unfold len in Hbd. rewrite Hl3 in Hbd. change (8 * Z.of_nat 3) with 24 in Hbd. cbv zeta. split; [lia|].
  unfold raw_of. cbn [fst snd]. rewrite (proj2 (Z.eqb_neq _ _)) by lia.
  replace (be_decode (take 3 buf) + 6 - 6) with (be_decode (take 3 buf)) by lia.
  pose proof (be_encode_decode (take 3 buf) ltac:(auto with xitca)) as Hed. rewrite Hl3 in Hed. rewrite Hed. apply take_drop.
Qed.
Lemma cut_started n b :
  6 <= n < 2 ^ 24 + 6 ->
  cut (raw_of (n, b)) = (if len b <? n then None else Some (take (Z.to_nat n) b, drop (Z.to_nat n) b)).
Proof.
  intros H6. unfold raw_of, cut. cbn [fst snd]. rewrite (proj2 (Z.eqb_neq _ _)) by lia.
  rewrite len_app, be_encode_len. pose proof (len_nonneg b). rewrite (proj2 (Z.ltb_ge _ _)) by lia.
  assert (Ht : take 3 (be_encode 3 (n - 6) ++ b) = be_encode 3 (n - 6))
    by (rewrite take_app_le, take_ge by (rewrite be_encode_length; lia); done).
  assert (Hd : drop 3 (be_encode 3 (n - 6) ++ b) = b)
    by (rewrite drop_app_ge by (rewrite be_encode_length; lia); rewrite be_encode_length; done).
  rewrite Ht, Hd, be_decode_encode_small by (simpl; lia). replace (n - 6 + 6) with n by lia. done.
Qed.
(** One call of the reader cuts one frame. *)
Lemma read_frame_cut st :
  reader_ok st ->
  match cut (raw_of st) with
  | None => exists st', read_frame (E := H2Error) st = (st', Ok None) /\ raw_of st' = raw_of st /\ reader_ok st'
  | Some (frame, rest) => exists h, head_parse (E := H2Error) frame = Ok h /\
      read_frame (E := H2Error) st = ((0, rest), Ok (Some (h, drop 6 frame)))
  end.
Proof.
  assert (Hgo : forall n b, bytes_ok b -> 6 <= n < 2 ^ 24 + 6 ->
    match cut (raw_of (n, b)) with
    | None => exists st', finish_frame (E := H2Error) n b = (st', Ok None) /\ raw_of st' = raw_of (n, b) /\ reader_ok st'
    | Some (frame, rest) => exists h, head_parse (E := H2Error) frame = Ok h /\
        finish_frame (E := H2Error) n b = ((0, rest), Ok (Some (h, drop 6 frame)))
    end).
  { intros n b Hb Hn. pose proof (finish_frame_cut n b Hn Hb) as H. rewrite cut_started by done.
    destruct (len b <? n); [|done]. eexists. split; [exact H|]. split; [done|]. split; [done|by right]. }
  destruct st as [next buf]. intros [Hb Hn]. cbn [fst snd] in *. unfold read_frame. destruct (Z.eqb_spec next 0) as [->|Hne].
  - destruct (Z.ltb_spec (len buf) 3) as [Hlt|H3].
    + unfold raw_of at 1, cut. cbn [fst snd]. change (0 =? 0) with true. cbv iota. rewrite (proj2 (Z.ltb_lt _ _)) by lia.
      eexists. split; [done|]. split; [done|]. split; [done|by left].
    + destruct (raw_of_started buf Hb H3) as [Hr Hraw]. specialize (Hgo _ (drop 3 buf) ltac:(auto with xitca) Hr).
      rewrite Hraw in Hgo. exact Hgo.
  - apply Hgo; [done|]. destruct Hn; [done|lia].
Qed.

(** *** Streams of frames *)

(** All complete frames at the front, and the rest. *)
Fixpoint cut_all (fuel : nat) (raw : bytes) : list bytes * bytes :=
  match fuel with
  | O => ([], raw)
  | S fuel =>
      match cut raw with
      | Some (frame, rest) => let '(fs, r) := cut_all fuel rest in (frame :: fs, r)
      | None => ([], raw)
      end
  end.
Definition parsed (frame : bytes) (hp : Head * bytes) : Prop := head_parse (E := H2Error) frame = Ok hp.1 /\ hp.2 = drop 6 frame.

Lemma cut_all_fuel fuel fuel' raw :
  bytes_ok raw -> (length raw < 9 * fuel)%nat -> (length raw < 9 * fuel')%nat -> cut_all fuel raw = cut_all fuel' raw.
Proof.
  revert fuel' raw. induction fuel as [|f IH]; intros [|f'] raw Hok H1 H2; try lia. cbn [cut_all].
  destruct (cut raw) as [[frame rest]|] eqn:E; [|done]. apply cut_shorter in E as (Hl & _ & Hr); [|done].
  by rewrite (IH f') by (done || lia).
Qed.
Lemma cut_all_rest fuel raw : bytes_ok raw -> (length raw < 9 * fuel)%nat -> cut (cut_all fuel raw).2 = None.
Proof.
  revert raw. induction fuel as [|f IH]; intros raw Hok Hf; [lia|]. cbn [cut_all].
  destruct (cut raw) as [[frame rest]|] eqn:E; [|done]. apply cut_shorter in E as (Hl & _ & Hr); [|done].
  specialize (IH rest Hr ltac:(lia)). by destruct (cut_all f rest).
Qed.
(** Cutting what has arrived and then the rest is cutting everything. *)
Lemma cut_all_app fuel raw more f2 f3 :
  bytes_ok raw -> bytes_ok more -> (length raw < 9 * fuel)%nat ->
  (length raw + length more < 9 * f2)%nat -> (length raw + length more < 9 * f3)%nat ->
  cut_all f2 (raw ++ more) =
    let '(fs, r) := cut_all fuel raw in let '(gs, r') := cut_all f3 (r ++ more) in (fs ++ gs, r').
Proof.
  intros Hok Hmore. revert raw f2 Hok. induction fuel as [|f IH]; intros raw f2 Hok H1 H2 H3; [lia|].
  destruct f2 as [|f2]; [lia|]. cbn [cut_all]. destruct (cut raw) as [[frame rest]|] eqn:E.
  - rewrite (cut_app _ more _ _ E). apply cut_shorter in E as (Hl & _ & Hr); [|done].
    rewrite (IH rest f2 Hr) by lia. destruct (cut_all f rest) as [fs r]. by destruct (cut_all f3 (r ++ more)).
  - assert (Hok' : bytes_ok (raw ++ more)) by by apply bytes_ok_app.
    change (cut_all (S f2) (raw ++ more) = (let '(gs, r') := cut_all f3 (raw ++ more) in ([] ++ gs, r'))).
    rewrite (cut_all_fuel (S f2) f3) by (done || rewrite length_app; lia). by destruct (cut_all f3 (raw ++ more)).
Qed.

Lemma raw_of_length st : (length st.2 <= length (raw_of st))%nat.
Proof. unfold raw_of. case_match; [done|]. rewrite length_app. lia. Qed.
Lemma raw_of_ok st : reader_ok st -> bytes_ok (raw_of st).
Proof. intros [Hb _]. unfold raw_of. case_match; [done|]. apply bytes_ok_app. split; [apply be_encode_ok|done]. Qed.
Lemma read_loop_cut fuel st :
  reader_ok st ->
  let '(fs, st') := read_loop fuel st in
  let '(gs, r) := cut_all fuel (raw_of st) in
  Forall2 parsed gs fs /\ raw_of st' = r /\ reader_ok st'.
Proof.
  revert st. induction fuel as [|f IH]; intros st Hok; [by split; [constructor|]|]. cbn [read_loop cut_all].
  pose proof (read_frame_cut st Hok) as H. destruct (cut (raw_of st)) as [[frame rest]|] eqn:E.
  - destruct H as (h & Hh & ->). apply cut_shorter in E as (_ & _ & Hr); [|by apply raw_of_ok].
    specialize (IH (0, rest) (conj Hr (or_introl eq_refl))). change (raw_of (0, rest)) with rest in IH.
    destruct (read_loop f (0, rest)) as [fs st']. destruct (cut_all f rest) as [gs r].
    destruct IH as (H1 & H2 & H3). split; [|done]. by constructor.
  - destruct H as (st' & -> & H1 & H2). done.
Qed.
Lemma raw_of_app st seg : raw_of (st.1, st.2 ++ seg) = raw_of st ++ seg.
Proof. unfold raw_of. cbn [fst snd]. case_match; [done|]. apply app_assoc. Qed.
Lemma cut_all_length fuel raw : bytes_ok raw -> (length (cut_all fuel raw).2 <= length raw)%nat.
Proof.
  revert raw. induction fuel as [|f IH]; intros raw Hok; [done|]. cbn [cut_all].
  destruct (cut raw) as [[frame rest]|] eqn:E; [|done]. apply cut_shorter in E as (Hl & _ & Hr); [|done].
  specialize (IH rest Hr). destruct (cut_all f rest). simpl in *. lia.
Qed.
Lemma raw_of_bound st : (length (raw_of st) <= length st.2 + 3)%nat.
Proof. unfold raw_of. case_match; [lia|]. rewrite length_app, be_encode_length. lia. Qed.

Lemma read_segments_cut segs st fuel :
  reader_ok st -> Forall bytes_ok segs -> (length (raw_of st) + length (mjoin segs) < 9 * fuel)%nat ->
  cut (raw_of st) = None \/ segs <> [] ->
  let '(fs, st') := read_segments segs st in
  let '(gs, r) := cut_all fuel (raw_of st ++ mjoin segs) in
  Forall2 parsed gs fs /\ raw_of st' = r.
Proof.
  intros Hok Hsegs. revert st fuel Hok. induction Hsegs as [|seg segs Hseg Hsegs IH]; intros st fuel Hok Hf Hc.
  { destruct Hc as [Hc|]; [|done]. cbn [read_segments]. change (mjoin []) with (@nil Z). rewrite app_nil_r.
    assert (Hnil : cut_all fuel (raw_of st) = ([], raw_of st)) by (destruct fuel; [done|]; cbn [cut_all]; by rewrite Hc).
    rewrite Hnil. split; [constructor|done]. }
  cbn [read_segments]. change (mjoin (seg :: segs)) with (seg ++ mjoin segs) in *. rewrite length_app in Hf.
  set (st1 := (st.1, st.2 ++ seg)).
  assert (Hok1 : reader_ok st1) by (destruct Hok as [Hb Hn]; split; [apply bytes_ok_app; by split|done]).
  assert (Hraw1 : raw_of st1 = raw_of st ++ seg) by apply raw_of_app.
  pose proof (read_loop_cut (S (length st1.2)) st1 Hok1) as Hl. cbn [snd st1] in Hl |- *.
  destruct (read_loop _ st1) as [fs st2]. rewrite Hraw1 in Hl.
  assert (Hb1 : bytes_ok (raw_of st ++ seg)) by (rewrite <- Hraw1; by apply raw_of_ok).
  assert (Hbm : bytes_ok (mjoin segs)) by (apply Forall_join; exact Hsegs).
  assert (Hlen1 : (length (raw_of st ++ seg) < 9 * S (length (st.2 ++ seg)))%nat).
  { rewrite !length_app. pose proof (raw_of_bound st). lia. }
  pose proof (cut_all_length (S (length (st.2 ++ seg))) _ Hb1) as Hcl.
  pose proof (cut_all_app (S (length (st.2 ++ seg))) (raw_of st ++ seg) (mjoin segs) fuel fuel Hb1 Hbm Hlen1
    ltac:(rewrite !length_app; lia) ltac:(rewrite !length_app; lia)) as Happ. rewrite <- app_assoc in Happ. rewrite Happ.
  destruct (cut_all (S _) (raw_of st ++ seg)) as [gs r] eqn:Eg. destruct Hl as (H1 & H2 & H3). simpl in Hcl.
  rewrite length_app in Hcl.
  specialize (IH st2 fuel H3). rewrite H2 in IH. specialize (IH ltac:(lia)).
  assert (Hnone : cut r = None) by (replace r with (cut_all (S (length (st.2 ++ seg))) (raw_of st ++ seg)).2 by (by rewrite Eg); by apply cut_all_rest).
  specialize (IH (or_introl Hnone)). destruct (read_segments segs st2) as [fs2 st3].
  destruct (cut_all fuel (r ++ mjoin segs)) as [gs2 r2]. destruct IH as [H4 H5]. split; [by apply Forall2_app|done].
Qed.

(** *** Frames read back *)

Lemma setting_load_raw {E} k v r :
  0 <= k < 256 -> is_u32 v ->
  let w := be_encode 2 k ++ be_encode 4 v in
  length w = 6%nat /\ bytes_ok w /\ setting_load (E := E) (take 6 (w ++ r)) = Ok (setting_from_id k v) /\ drop 6 (w ++ r) = r.
Proof.
  intros Hk Hv. cbv zeta. assert (Hl : length (be_encode 2 k ++ be_encode 4 v) = 6%nat) by (by rewrite length_app, !be_encode_length).
  split; [done|]. split; [apply bytes_ok_app; split; apply be_encode_ok|].
  rewrite take_app_le, take_ge, drop_app_ge, Hl by lia. split; [|done].
  assert (H2 : be_encode 2 k = [0; k]).
  { cbn [be_encode app]. rewrite (Z.div_small k) by lia. rewrite (Z.mod_small k) by lia. done. }
  pose proof (unpack_encoded (E := E) (be_encode 2 k) v [] Hv) as Hu. rewrite app_nil_r, be_encode_length in Hu.
  unfold setting_load. rewrite Hu. rewrite H2. cbn [app lookup list_lookup mbind outcome_bind].
  by rewrite Z.shiftl_0_l, Z.lor_0_l.
Qed.
Definition setting_value (x : Setting) : Z :=
  match x with
  | HeaderTableSize v | EnablePush v | MaxConcurrentStreams v | InitialWindowSize v | MaxFrameSize v
  | MaxHeaderListSize v | EnableConnectProtocol v => v
  end.
Lemma setting_load_encoded {E} x r :
  is_u32 (setting_value x) ->
  exists w, (forall dst, setting_encode x dst = dst ++ w) /\ length w = 6%nat /\ bytes_ok w /\
    setting_load (E := E) (take 6 (w ++ r)) = Ok (Some x) /\ drop 6 (w ++ r) = r.
Proof.
  intros Hv. destruct x as [v|v|v|v|v|v|v]; cbn in Hv;
    [destruct (setting_load_raw (E := E) 1 v r ltac:(lia) Hv) as (H1 & H2 & H3 & H4)
    |destruct (setting_load_raw (E := E) 2 v r ltac:(lia) Hv) as (H1 & H2 & H3 & H4)
    |destruct (setting_load_raw (E := E) 3 v r ltac:(lia) Hv) as (H1 & H2 & H3 & H4)
    |destruct (setting_load_raw (E := E) 4 v r ltac:(lia) Hv) as (H1 & H2 & H3 & H4)
    |destruct (setting_load_raw (E := E) 5 v r ltac:(lia) Hv) as (H1 & H2 & H3 & H4)
    |destruct (setting_load_raw (E := E) 6 v r ltac:(lia) Hv) as (H1 & H2 & H3 & H4)
    |destruct (setting_load_raw (E := E) 8 v r ltac:(lia) Hv) as (H1 & H2 & H3 & H4)]; eexists; split_and!; done.
Qed.

(** The settings of a frame, applied in order, rebuild it. *)
Fixpoint settings_fold {E} (l : list Setting) (s : Settings) : outcome E Settings :=
  match l with [] => Ok s | x :: l => s ← settings_apply s (Some x); settings_fold l s end.
Lemma settings_loop_encoded l :
  Forall (fun x => is_u32 (setting_value x)) l ->
  exists w, (forall dst, fold_left (fun dst x => setting_encode x dst) l dst = dst ++ w) /\ len w = 6 * len l /\ bytes_ok w /\
    forall fuel s, (length l <= fuel)%nat -> settings_loop fuel w s = settings_fold l s.
Proof.
  induction 1 as [|x l Hx Hl IH].
  { exists []. cbn. split_and!; try done; [intros; by rewrite app_nil_r|constructor|]. by intros [|f]. }
  destruct IH as (w2 & He2 & Hl2 & Hb2 & Hr2).
  destruct (setting_load_encoded (E := H2Error) x w2 Hx) as (w1 & He1 & Hl1 & Hb1 & Hr1 & Hd1). exists (w1 ++ w2). split_and!.
  - intros dst. cbn [fold_left]. rewrite He1, He2. by rewrite <- app_assoc.
  - rewrite len_app, len_cons, Hl2. unfold len at 1. rewrite Hl1. lia.
  - by apply bytes_ok_app.
  - intros [|f] s Hf; simpl in Hf; [lia|]. cbn [settings_loop settings_fold]. destruct w1 as [|b w1]; [done|]. cbn [app].
    change (b :: w1 ++ w2) with ((b :: w1) ++ w2). rewrite Hr1, Hd1. cbn [mbind outcome_bind].
    destruct (settings_apply s (Some x)); cbn [mbind outcome_bind]; [apply Hr2; lia|done..].
Qed.

Ltac range := unfold is_u32, fits, MAX_INITIAL_WINDOW_SIZE, DEFAULT_MAX_FRAME_SIZE, MAX_MAX_FRAME_SIZE in *; lia.
Lemma settings_rebuilt {E} s :
  settings_ok s -> s_flags s = 0 ->
  Forall (fun x => is_u32 (setting_value x)) (settings_list s) /\ settings_fold (E := E) (settings_list s) settings_default = Ok s.
Proof.
  intros [-> | (Hf & Ha & Hb & Hc & Hd & He & Hg & Hh)] H0; [done|]. destruct s as [f a b c d e g h]. cbn in *. subst f.
  split.
  - unfold settings_list. cbn [header_table_size enable_push max_concurrent_streams initial_window_size max_frame_size max_header_list_size enable_connect_protocol].
    rewrite !Forall_app. split_and!; [destruct a|destruct b|destruct c|destruct d|destruct e|destruct g|destruct h]; cbn in *;
      repeat constructor; cbn; range.
  - assert (Hbit : forall v, v = 0 \/ v = 1 -> ((v =? 0) || (v =? 1)) = true) by (intros v [-> | ->]; done).
    assert (Hw : forall v, 0 <= v <= MAX_INITIAL_WINDOW_SIZE -> (v >? MAX_INITIAL_WINDOW_SIZE) = false) by (intros; lia).
    assert (Hm : forall v, DEFAULT_MAX_FRAME_SIZE <= v <= MAX_MAX_FRAME_SIZE ->
      negb ((DEFAULT_MAX_FRAME_SIZE <=? v) && (v <=? MAX_MAX_FRAME_SIZE)) = false) by (intros; lia).
    destruct a, b, c, d, e, g, h; cbn in Ha, Hb, Hc, Hd, He, Hg, Hh; cbn -[MAX_INITIAL_WINDOW_SIZE DEFAULT_MAX_FRAME_SIZE MAX_MAX_FRAME_SIZE];
      rewrite ?Hbit, ?Hw, ?Hm by done; cbn -[MAX_INITIAL_WINDOW_SIZE DEFAULT_MAX_FRAME_SIZE MAX_MAX_FRAME_SIZE];
      rewrite ?Hbit, ?Hw, ?Hm by done; cbn -[MAX_INITIAL_WINDOW_SIZE DEFAULT_MAX_FRAME_SIZE MAX_MAX_FRAME_SIZE];
      rewrite ?Hbit, ?Hw, ?Hm by done; cbn -[MAX_INITIAL_WINDOW_SIZE DEFAULT_MAX_FRAME_SIZE MAX_MAX_FRAME_SIZE];
      rewrite ?Hbit by done; done.
Qed.

(** A frame is its head, with the payload's length, and a payload that loads as the frame. *)
Definition laid_out (f : Frame) : Prop :=
  exists h payload, (forall dst, frame_encode f dst = head_encode h (len payload) dst ++ payload) /\
    head_ok h /\ bytes_ok payload /\ len payload < 2 ^ 24 /\ frame_load h payload = Ok f.

Lemma u8_small z : 0 <= z < 256 -> is_u8 z.
Proof. done. Qed.
Lemma settings_laid_out s : settings_ok s -> laid_out (FSettings s).
Proof.
  intros Hok. pose proof Hok as [-> | (Hf & _)].
  { exists (mkHead KSettings ACK 0), []. split_and!; try done; [intros; by rewrite app_nil_r|constructor]. }
  destruct (settings_rebuilt (E := H2Error) s Hok Hf) as [Hv Hfold]. destruct (settings_loop_encoded _ Hv) as (w & He & Hl & Hb & Hr).
  exists (mkHead KSettings 0 0), w. cbn [frame_encode]. split_and!; try done.
  - intros dst. unfold settings_encode. by rewrite He, Hf, Hl.
  - rewrite Hl. assert (Hn : (length (settings_list s) <= 7)%nat)
      by (unfold settings_list; repeat match goal with |- context [?f s] => destruct (f s) end; cbn; lia). unfold len. lia.
  - unfold frame_load, settings_load. cbn [kind head_stream_id flag is_zero]. change (0 =? 0) with true. cbn [negb].
    change (Z.land (Z.land 0 ACK) ACK =? ACK) with false. cbv iota. rewrite Hl.
    replace (6 * len (settings_list s)) with (0 + len (settings_list s) * 6) by lia. rewrite Z.mod_add by lia.
    change (0 mod 6 =? 0) with true. cbn [negb]. rewrite Hr, Hfold; [done|]. unfold len in Hl. lia.
Qed.
Lemma frame_laid_out f : frame_ok f -> laid_out f.
Proof.
  destruct f as [d|s|w|r|g]; cbn [frame_ok].
  - intros (Hid & Hne & Hfl & Hpad & Hb & Hl). exists (mkHead KData (d_flags d) (d_stream_id d)), (d_data d).
    split_and!; try done; try apply Hid; try (destruct Hfl as [-> | ->]; done).
    unfold frame_load, data_load, is_zero. cbn [kind head_stream_id flag].
    rewrite (proj2 (Z.eqb_neq _ _)) by done. destruct d as [id da fl pad]. cbn in *. subst pad.
    destruct Hfl as [-> | ->]; done.
  - apply settings_laid_out.
  - intros (Hid & Hinc). exists (mkHead KWindowUpdate 0 (w_stream_id w)), (be_encode 4 (size_increment w)).
    split_and!; try done; try apply Hid; [apply be_encode_ok|].
    unfold frame_load, window_update_load. cbn [kind]. rewrite be_encode_len. change (Z.of_nat 4 =? 4) with true. cbn [negb].
    pose proof (unpack_encoded (E := H2Error) [] (size_increment w) [] ltac:(unfold fits; lia)) as Hu. rewrite app_nil_r in Hu. cbn [app length] in Hu. rewrite Hu.
    cbn [mbind outcome_bind]. change (2 ^ 32 - 1 - SIZE_INCREMENT_MASK) with (Z.ones 31). rewrite Z.land_ones, Z.mod_small by lia.
    rewrite (proj2 (Z.eqb_neq _ _)) by lia. by destruct w.
  - intros (Hid & Hc). exists (mkHead KReset 0 (r_stream_id r)), (be_encode 4 (r_error_code r)).
    split_and!; try done; try apply Hid; [apply be_encode_ok|].
    unfold frame_load, reset_load. cbn [kind].
    pose proof (unpack_encoded (E := H2Error) [] (r_error_code r) [] Hc) as Hu. rewrite app_nil_r in Hu. cbn [app length] in Hu. rewrite Hu. by destruct r.
  - intros (Hid & Hc & Hb & Hl).
    exists (mkHead KGoAway 0 0), (be_encode 4 (last_stream_id g) ++ be_encode 4 (g_error_code g) ++ debug_data g).
    assert (Hlen : len (be_encode 4 (last_stream_id g) ++ be_encode 4 (g_error_code g) ++ debug_data g) = 8 + len (debug_data g))
      by (rewrite !len_app, !be_encode_len; lia).
    split_and!; try done; [intros dst; cbn [frame_encode]; unfold go_away_encode; by rewrite Hlen
      |apply bytes_ok_app; split; [apply be_encode_ok|]; apply bytes_ok_app; split; [apply be_encode_ok|done]|by rewrite Hlen|].
    unfold frame_load, go_away_load. cbn [kind]. rewrite Hlen. pose proof (len_nonneg (debug_data g)).
    rewrite (proj2 (Z.ltb_ge _ _)) by lia.
    rewrite take_app_le, take_ge by (rewrite be_encode_length; lia).
    pose proof (stream_id_parse_encoded (E := H2Error) (last_stream_id g) [] Hid) as Hs. rewrite app_nil_r in Hs. rewrite Hs. cbn [mbind outcome_bind].
    pose proof (unpack_encoded (E := H2Error) (be_encode 4 (last_stream_id g)) (g_error_code g) (debug_data g) Hc) as Hu.
    rewrite be_encode_length in Hu. rewrite Hu. cbn [mbind outcome_bind].
    rewrite app_assoc, drop_app_ge by (rewrite length_app, !be_encode_length; lia). rewrite length_app, !be_encode_length.
    change (8 - (4 + 4))%nat with 0%nat. rewrite drop_0. by destruct g.
Qed.

(** The wire: one frame after another. *)
Definition frames_wire (fs : list Frame) : bytes := fold_left (fun dst f => frame_encode f dst) fs [].
(** A frame as it lies in the buffer. *)
Definition framed (h : Head) (payload : bytes) : bytes := head_encode h (len payload) [] ++ payload.
Lemma framed_encode h payload dst : head_encode h (len payload) dst ++ payload = dst ++ framed h payload.
Proof. unfold framed, head_encode. by rewrite app_nil_l, <- !app_assoc. Qed.
Lemma cut_framed h payload rest :
  head_ok h -> bytes_ok payload -> len payload < 2 ^ 24 ->
  bytes_ok (framed h payload) /\ (9 <= length (framed h payload))%nat /\
  exists frame, parsed frame (h, payload) /\ cut (framed h payload ++ rest) = Some (frame, rest).
Proof.
  intros Hh Hb Hl. pose proof (len_nonneg payload).
  set (body := [kind_u8 (kind h)] ++ [flag h] ++ be_encode 4 (head_stream_id h) ++ payload).
  assert (Hbody : len body = len payload + 6) by (unfold body; autorewrite with len; rewrite be_encode_len; lia).
  assert (Hf : framed h payload = be_encode 3 (len payload) ++ body) by (unfold framed, head_encode, body; by rewrite app_nil_l, <- !app_assoc).
  rewrite Hf. split_and!.
  - apply bytes_ok_app. split; [apply be_encode_ok|]. unfold body. apply bytes_ok_app. split; [|apply bytes_ok_app; split].
    + constructor; [|constructor]. apply u8_small. destruct (kind h); cbn; lia.
    + constructor; [apply Hh|constructor].
    + apply bytes_ok_app. split; [apply be_encode_ok|done].
  - rewrite length_app, be_encode_length. unfold len in Hbody. lia.
  - exists body. split; [split; [by apply head_parse_encoded|done]|].
    unfold cut. rewrite <- app_assoc.
    assert (H3 : take 3 (be_encode 3 (len payload) ++ body ++ rest) = be_encode 3 (len payload))
      by (rewrite take_app_le, take_ge by (rewrite be_encode_length; lia); done).
    assert (Hd : drop 3 (be_encode 3 (len payload) ++ body ++ rest) = body ++ rest)
      by (rewrite drop_app_ge by (rewrite be_encode_length; lia); rewrite be_encode_length; done).
    rewrite H3, Hd, be_decode_encode_small by (simpl; lia). rewrite !len_app, be_encode_len. pose proof (len_nonneg rest).
    rewrite !(proj2 (Z.ltb_ge _ _)) by lia. rewrite <- Hbody. assert (Hn : Z.to_nat (len body) = length body) by (unfold len; lia).
    by rewrite Hn, take_app_length, drop_app_length.
Qed.
(** The reader takes a frame off the front of its buffer. *)
Lemma read_framed h payload rest :
  head_ok h -> bytes_ok payload -> len payload < 2 ^ 24 -> bytes_ok rest ->
  read_frame (E := H2Error) (0, framed h payload ++ rest) = ((0, rest), Ok (Some (h, payload))).
Proof.
  intros Hh Hb Hl Hr. destruct (cut_framed h payload rest Hh Hb Hl) as (Hbf & _ & frame & [Hp1 Hp2] & Hcut).
  pose proof (read_frame_cut (0, framed h payload ++ rest)) as H. change (raw_of (0, framed h payload ++ rest)) with (framed h payload ++ rest) in H.
  rewrite Hcut in H. destruct H as (h' & Hh' & ->); [split; [by apply bytes_ok_app|by left]|]. rewrite Hp1 in Hh'. injection Hh' as <-. cbn in Hp2. by rewrite <- Hp2.
Qed.
Lemma cut_frame f rest :
  laid_out f -> exists w hp, (forall dst, frame_encode f dst = dst ++ w) /\ bytes_ok w /\ (9 <= length w)%nat /\
    frame_load hp.1 hp.2 = Ok f /\ exists frame, parsed frame hp /\ cut (w ++ rest) = Some (frame, rest).
Proof.
  intros (h & payload & He & Hh & Hb & Hl & Hload). destruct (cut_framed h payload rest Hh Hb Hl) as (Hbf & H9 & Hcut).
  exists (framed h payload), (h, payload). split_and!; try done. intros dst. by rewrite He, framed_encode.
Qed.
Lemma cut_all_wire fs tail fuel :
  Forall laid_out fs -> bytes_ok tail -> cut tail = None ->
  exists w, (forall dst, fold_left (fun dst f => frame_encode f dst) fs dst = dst ++ w) /\ bytes_ok w /\
  ((length w < 9 * fuel)%nat -> exists gs hps, cut_all fuel (w ++ tail) = (gs, tail) /\
    Forall2 parsed gs hps /\ (fun hp => frame_load hp.1 hp.2) <$> hps = Ok <$> fs).
Proof.
  intros Hfs Ht Hc. revert fuel. induction Hfs as [|f fs Hf Hfs IH]; intros fuel.
  { exists []. split; [intros; by rewrite app_nil_r|]. split; [constructor|]. intros _. exists [], []. cbn [app].
    split; [|split; [constructor|done]]. destruct fuel; [done|]. cbn [cut_all]. by rewrite Hc. }
  destruct (IH (pred fuel)) as (w2 & He2 & Hb2 & Hcut2).
  destruct (cut_frame f (w2 ++ tail) Hf) as (w1 & hp & He1 & Hb1 & Hl1 & Hload & frame & Hp & Hcut1).
  exists (w1 ++ w2). split; [intros dst; cbn [fold_left]; by rewrite He1, He2, <- app_assoc|].
  split; [by apply bytes_ok_app|]. rewrite length_app. intros Hlen. destruct fuel as [|fuel]; [lia|]. cbn [pred] in *.
  destruct (Hcut2 ltac:(lia)) as (gs & hps & Hall & Hps & Hloads).
  exists (frame :: gs), (hp :: hps). cbn [cut_all]. rewrite <- app_assoc, Hcut1, Hall.
  split; [done|]. split; [by constructor|]. rewrite !fmap_cons. by rewrite Hload, Hloads.
Qed.

(** *** Properties *)

(** C32: frames survive the connection: whatever DATA, SETTINGS, WINDOW_UPDATE, RST_STREAM and
    GOAWAY frames an endpoint writes, and however the transport cuts the bytes, the frame reader
    takes out exactly those frames in order, each loading back to the frame written, and keeps the
    bytes of an unfinished frame for later. *)
Theorem h2_frames_roundtrip fs segs tail :
  Forall frame_ok fs -> Forall bytes_ok segs -> bytes_ok tail -> cut tail = None ->
  mjoin segs = frames_wire fs ++ tail -> segs <> [] ->
  let '(hps, st) := read_segments segs (0, []) in
  (fun hp => frame_load hp.1 hp.2) <$> hps = Ok <$> fs /\ raw_of st = tail.
Proof.
  intros Hfs Hsegs Ht Hc Hw Hne. set (fuel := S (length (mjoin segs))).
  assert (Hlaid : Forall laid_out fs) by (eapply Forall_impl; [exact Hfs|]; apply frame_laid_out).
  destruct (cut_all_wire fs tail fuel Hlaid Ht Hc) as (w & He & Hb & Hcut).
  unfold frames_wire in Hw. rewrite He, app_nil_l in Hw.
  pose proof (read_segments_cut segs (0, []) fuel ltac:(split; [constructor|by left]) Hsegs) as H.
  change (raw_of (0, [])) with (@nil Z) in H. rewrite app_nil_l in H.
  specialize (H ltac:(unfold fuel; simpl; lia) (or_intror Hne)). rewrite Hw in H.
  destruct Hcut as (gs & hps & Hall & Hps & Hloads).
  { unfold fuel. rewrite Hw, length_app. lia. }
  rewrite Hall in H. destruct (read_segments segs (0, [])) as [fs' st]. destruct H as [H1 H2]. split; [|done].
  rewrite <- Hloads. f_equal. clear -H1 Hps. revert fs' H1. induction Hps as [|g hp gs hps Hp _ IH]; intros fs' H1; inversion H1 as [|? hp' ? ? Hp' Hr]; subst; [done|].
  f_equal; [|by apply IH]. destruct hp, hp', Hp as [Hp1 Hp2], Hp' as [Hq1 Hq2]. cbn in *. congruence.
Qed.
Definition sample_frames : list Frame :=
  [FSettings (mkSettings 0 None None None (Some 65535) (Some 16384) None None);
   FData (mkData 1 [104; 105] END_STREAM None); FWindowUpdate (mkWindowUpdate 0 1000)].
Lemma h2_frames_roundtrip_witness :
  let segs := [take 10 (frames_wire sample_frames); drop 10 (frames_wire sample_frames) ++ [0; 0]] in
  let '(hps, st) := read_segments segs (0, []) in
  (fun hp => frame_load hp.1 hp.2) <$> hps = Ok <$> sample_frames /\ raw_of st = [0; 0].
Proof.
  cbv zeta. apply (h2_frames_roundtrip sample_frames _ [0; 0]).
  - apply Forall_cons. split; [right; cbn; unfold MAX_INITIAL_WINDOW_SIZE, DEFAULT_MAX_FRAME_SIZE, MAX_MAX_FRAME_SIZE; lia|].
    apply Forall_cons. split; [|apply Forall_cons; split; [cbn; unfold stream_id_ok; lia|apply Forall_nil_2]].
    cbn. unfold stream_id_ok. split; [lia|]. split; [lia|]. split; [by right|]. split; [reflexivity|].
    split; [apply (bool_decide_unpack _); vm_compute; exact I|vm_compute; reflexivity].
  - apply (bool_decide_unpack _). vm_compute. exact I.
  - apply (bool_decide_unpack _). vm_compute. exact I.
  - vm_compute. reflexivity.
  - vm_compute. reflexivity.
  - discriminate.
Defined.

(** A padded DATA frame is accepted, but its padding is delivered as payload. *)
Lemma h2_padding_kept :
  data_load (mkHead KData PADDED 1) [2; 104; 105; 0; 0] = Ok (mkData 1 [2; 104; 105; 0; 0] PADDED None).
Proof. reflexivity. Qed.
(** Malformed frames of a peer end in a panic where the protocol asks for a connection error. *)
Lemma h2_malformed_panics :
  settings_load (mkHead KSettings 0 0) [0] = Panic /\ window_update_load (mkHead KWindowUpdate 0 1) [0; 0; 0; 0] = Panic /\
  data_load (mkHead KData 0 0) [] = Panic /\ go_away_load [] = Panic.
Proof. done. Qed.
