(* ===== verification/H2Headers.v ===== *)
(** * HTTP/2 header frames (http/src/h2/proto/headers.rs)

    HEADERS and CONTINUATION frames: the pseudo headers of requests, responses and trailers, the
    header block with its size limit and the rules for malformed messages, and the frames a
    block is cut into.  A [todo!()] is a panic.  Sizes of header lists stay far below [2^64] and
    are added without a check. *)

From S2P Require Import Prelude Http HpackInt HpackHeader HpackTable HpackDecoder HpackEncoder HpackIndex HpackProbe HpackSync H2Frame.

(** ** The header map *)

(** What is used of [http::HeaderMap] with its values: names in some order, the values of a
    name in the order they were appended. *)
Class HeaderFields : Type := {
  fields : Type;
  f_empty : fields;
  f_append : bytes -> HeaderValue -> fields -> fields;
  f_insert : bytes -> HeaderValue -> fields -> fields;
  f_groups : fields -> list (bytes * list HeaderValue);
  f_values : bytes -> fields -> list HeaderValue;
  f_values_empty n : f_values n f_empty = [];
  f_values_append n v m : f_values n (f_append n v m) = f_values n m ++ [v];
  f_values_append_ne n n' v m : n <> n' -> f_values n' (f_append n v m) = f_values n' m;
  f_values_insert n v m : f_values n (f_insert n v m) = [v];
  f_values_insert_ne n n' v m : n <> n' -> f_values n' (f_insert n v m) = f_values n' m;
  f_groups_values n l m : (n, l) ∈ f_groups m <-> f_values n m = l /\ l <> [];
  f_groups_nodup m : NoDup (fst <$> f_groups m);
}.

(** An implementation: groups in the order the names were first appended. *)
Fixpoint group_update (f : list HeaderValue -> list HeaderValue) (n : bytes) (m : list (bytes * list HeaderValue)) : list (bytes * list HeaderValue) :=
  match m with
  | [] => [(n, f [])]
  | (k, l) :: m => if bool_decide (k = n) then (k, f l) :: m else (k, l) :: group_update f n m
  end.
Fixpoint group_values (n : bytes) (m : list (bytes * list HeaderValue)) : list HeaderValue :=
  match m with
  | [] => []
  | (k, l) :: m => if bool_decide (k = n) then l else group_values n m
  end.
Definition groups_ok (m : list (bytes * list HeaderValue)) : Prop := NoDup (fst <$> m) /\ Forall (fun p => p.2 <> []) m.
Lemma group_update_names f n m k : k ∈ (fst <$> group_update f n m) -> k = n \/ k ∈ (fst <$> m).
Proof.
  induction m as [|[k' l] m IH]; cbn [group_update].
  - rewrite fmap_cons, elem_of_cons. intros [-> | H]; [by left|by apply not_elem_of_nil in H].
  - case_bool_decide; rewrite !fmap_cons, !elem_of_cons; cbn [fst]; naive_solver.
Qed.
Lemma group_update_ok f n m : (forall l, f l <> []) -> groups_ok m -> groups_ok (group_update f n m).
Proof.
  intros Hne [Hn Hf]. induction m as [|[k l] m IH]; cbn [group_update].
  - split; [apply NoDup_singleton|]. constructor; [apply Hne|done].
  - rewrite fmap_cons in Hn. apply NoDup_cons in Hn as [Hk Hn]. apply Forall_cons in Hf as [Hl Hf]. case_bool_decide as E.
    + split; [rewrite fmap_cons; by apply NoDup_cons|]. constructor; [apply Hne|done].
    + destruct (IH Hn Hf) as [H1 H2]. split; [|by constructor]. rewrite fmap_cons. apply NoDup_cons. split; [|done].
      intros [Hx | Hx]%group_update_names; cbn in Hk, Hx; done.
Qed.
Lemma group_update_same f n m : group_values n (group_update f n m) = f (group_values n m).
Proof.
  induction m as [|[k l] m IH]; cbn [group_update group_values]; [by rewrite bool_decide_true|].
  case_bool_decide as E; cbn [group_values]; [by rewrite bool_decide_true|by rewrite bool_decide_false].
Qed.
Lemma group_update_other f n n' m : n <> n' -> group_values n' (group_update f n m) = group_values n' m.
Proof.
  intros Hne. induction m as [|[k l] m IH]; cbn [group_update group_values]; [by rewrite bool_decide_false|].
  case_bool_decide as E; cbn [group_values]; [subst; by rewrite !bool_decide_false|by case_bool_decide].
Qed.
Lemma groups_values n l m : groups_ok m -> (n, l) ∈ m <-> group_values n m = l /\ l <> [].
Proof.
  intros [Hn Hf]. induction m as [|[k l'] m IH]; cbn [group_values].
  - split; [by intros H%not_elem_of_nil|intros [<- ?]; done].
  - rewrite fmap_cons in Hn. apply NoDup_cons in Hn as [Hk Hn]. apply Forall_cons in Hf as [Hl Hf]. rewrite elem_of_cons, (IH Hn Hf). case_bool_decide as E; [subst k|].
    + split; [|intros [<- ?]; by left]. intros [[= ->] | [Hg Hne]]; [done|]. exfalso. apply Hk. cbn. apply (list_elem_of_fmap_2' fst m (n, l) n); [|done]. by apply IH.
    + split; [|intros ?; by right]. intros [[= -> ->] | ?]; done.
Qed.
Lemma push_value_ne (v : HeaderValue) l : l ++ [v] <> [].
Proof. by destruct l. Qed.
Lemma one_value_ne (v : HeaderValue) (l : list HeaderValue) : [v] <> [].
Proof. done. Qed.
#[global] Instance group_fields : HeaderFields :=
  {| fields := { m | groups_ok m };
    f_empty := exist _ [] (conj (NoDup_nil_2) (Forall_nil_2 _));
    f_append n v m := exist _ (group_update (fun l => l ++ [v]) n (proj1_sig m)) (group_update_ok _ n _ (push_value_ne v) (proj2_sig m));
    f_insert n v m := exist _ (group_update (fun _ => [v]) n (proj1_sig m)) (group_update_ok _ n _ (one_value_ne v) (proj2_sig m));
    f_groups m := proj1_sig m;
    f_values n m := group_values n (proj1_sig m);
    f_values_empty n := eq_refl;
    f_values_append n v m := group_update_same _ n (proj1_sig m);
    f_values_append_ne n n' v m Hne := group_update_other _ n n' (proj1_sig m) Hne;
    f_values_insert n v m := group_update_same _ n (proj1_sig m);
    f_values_insert_ne n n' v m Hne := group_update_other _ n n' (proj1_sig m) Hne;
    f_groups_values n l m := groups_values n l (proj1_sig m) (proj2_sig m);
    f_groups_nodup m := proj1 (proj2_sig m) |}.

Section Maps.
Context `{HF : HeaderFields}.
(** [HeaderMap::iter] and [HeaderMap::into_iter]: the latter names a field once. *)
Definition f_iter (m : fields) : list (bytes * HeaderValue) := mjoin ((fun g => (fun v => (g.1, v)) <$> g.2) <$> f_groups m).
Definition group_headers (g : bytes * list HeaderValue) : list (Header (option bytes)) :=
  match g.2 with [] => [] | v :: l => Field (Some g.1) v :: (Field None <$> l) end.
Definition f_into_iter (m : fields) : list (Header (option bytes)) := mjoin (group_headers <$> f_groups m).
Definition f_is_empty (m : fields) : bool := match f_groups m with [] => true | _ => false end.
End Maps.

(** ** Flags *)

Definition END_HEADERS : Z := 4.
Definition PRIORITY : Z := 32.
Definition has_flag (flags bit : Z) : bool := Z.land flags bit =? bit.
(** [HeadersFlag::default]. *)
Definition headers_flag_default : Z := END_HEADERS.

(** [decoded_header_size]. *)
Definition decoded_header_size (name value : Z) : Z := name + value + 32.

(** [parse_u64]: the test for digits is inverted in the source. *)
Fixpoint parse_u64_loop (src : bytes) (ret : Z) : outcome unit Z :=
  match src with
  | [] => Ok ret
  | d :: src =>
      if (48 <=? d) && (d <=? 57) then Err tt
      else
        ret ← mul_chk 64 ret 10;
        x ← sub_chk d 48;
        ret ← add_chk 64 ret x;
        parse_u64_loop src ret
  end.
Definition parse_u64 (src : bytes) : outcome unit Z := if len src >? 19 then Err tt else parse_u64_loop src 0.

Section Headers.
Context `{FT : FieldTypes}.

(** ** Pseudo headers *)

(** What is carried through the fields of a block. *)
Record Loading : Type := mkLoading { l_over : bool; l_malformed : bool; l_size : Z }.
Definition with_malformed (l : Loading) : Loading := mkLoading (l_over l) true (l_size l).

(** [trait _Pseudo]. *)
Class PseudoHeaders (P : Type) : Type := {
  p_default : P;
  into_iter : P -> list (Header (option bytes));
  (** [parse header max_header_list_size reg] *)
  p_parse : Header bytes -> Z -> bool -> P -> Loading -> outcome H2Error (P * Loading);
  as_header_size : P -> Z;
}.

(** [Pseudo], of requests. *)
Record Pseudo : Type := mkPseudo {
  ps_method : option Method; ps_scheme : option bytes; ps_authority : option bytes; ps_path : option bytes; ps_status : option Z }.
Definition pseudo_default : Pseudo := mkPseudo None None None None None.
(** [set_pseudo!]: the field after it, and the running values. *)
Definition set_pseudo {A} (reg : bool) (max : Z) (cur : option A) (name_len value_len : Z) (v : A) (l : Loading) : option A * Loading :=
  if reg then (cur, with_malformed l)
  else match cur with
  | Some _ => (cur, with_malformed l)
  | None =>
      let size := l_size l + decoded_header_size (name_len + 1) value_len in
      if size <? max then (Some v, mkLoading (l_over l) (l_malformed l) size)
      else (None, mkLoading true (l_malformed l) size)
  end.
Definition pseudo_parse (h : Header bytes) (max : Z) (reg : bool) (p : Pseudo) (l : Loading) : outcome H2Error (Pseudo * Loading) :=
  let '(mkPseudo m sc a pa st) := p in
  match h with
  | Authority v => let '(a, l) := set_pseudo reg max a 9 (len v) v l in Ok (mkPseudo m sc a pa st, l)
  | HMethod v => let '(m, l) := set_pseudo reg max m 6 (len (method_as_str v)) v l in Ok (mkPseudo m sc a pa st, l)
  | Scheme v => let '(sc, l) := set_pseudo reg max sc 6 (len v) v l in Ok (mkPseudo m sc a pa st, l)
  | Path v => let '(pa, l) := set_pseudo reg max pa 4 (len v) v l in Ok (mkPseudo m sc a pa st, l)
  | Protocol _ => Ok (p, l)
  | Status v => let '(st, l) := set_pseudo reg max st 6 (len (status_as_str v)) v l in Ok (mkPseudo m sc a pa st, l)
  | Field _ _ => Panic
  end.
Definition pseudo_into_iter (p : Pseudo) : list (Header (option bytes)) :=
  option_list (HMethod <$> ps_method p) ++ option_list (Scheme <$> ps_scheme p) ++ option_list (Authority <$> ps_authority p) ++
  option_list (Path <$> ps_path p) ++ option_list (Status <$> ps_status p).
Definition pseudo_size {A} (name_len : Z) (f : A -> bytes) (o : option A) : Z :=
  match o with Some v => decoded_header_size (name_len + 1) (len (f v)) | None => 0 end.
Definition pseudo_header_size (p : Pseudo) : Z :=
  pseudo_size 6 method_as_str (ps_method p) + pseudo_size 6 id (ps_scheme p) + pseudo_size 6 status_as_str (ps_status p) +
  pseudo_size 9 id (ps_authority p) + pseudo_size 4 id (ps_path p).
#[global] Instance request_pseudo : PseudoHeaders Pseudo :=
  {| p_default := pseudo_default; into_iter := pseudo_into_iter; p_parse := pseudo_parse; as_header_size := pseudo_header_size |}.

(** [Pseudo::request]; the parts of the URI, its path and query as a string. *)
Definition pseudo_request (method : Method) (path_and_query scheme authority : option bytes) : Pseudo :=
  let path := default [] path_and_query in
  let path := match method with
    | OPTIONS | CONNECT => path
    | _ => match path with [] => bs "/" | _ => path end
    end in
  mkPseudo (Some method) scheme authority (match path with [] => None | _ => Some path end) None.

(** [ResponsePseudo]. *)
Record ResponsePseudo : Type := mkResponsePseudo { rp_status : Z }.
Definition response_header_size (p : ResponsePseudo) : Z := decoded_header_size (6 + 1) (len (status_as_str (rp_status p))).
Definition response_parse (h : Header bytes) (max : Z) (reg : bool) (p : ResponsePseudo) (l : Loading) : outcome H2Error (ResponsePseudo * Loading) :=
  match h with
  | Status s =>
      if reg then Ok (p, with_malformed l)
      else
        let size := l_size l + response_header_size p in
        if size <? max then Ok (mkResponsePseudo s, mkLoading (l_over l) (l_malformed l) size)
        else Ok (p, mkLoading true (l_malformed l) size)
  | _ => Panic
  end.
#[global] Instance response_pseudo : PseudoHeaders ResponsePseudo :=
  {| p_default := mkResponsePseudo 200; into_iter p := [Status (rp_status p)]; p_parse := response_parse; as_header_size := response_header_size |}.
(** [impl _Pseudo for ()], of trailers. *)
#[global] Instance no_pseudo : PseudoHeaders unit :=
  {| p_default := tt; into_iter _ := []; p_parse _ _ _ p l := Ok (p, l); as_header_size _ := 0 |}.

(** ** The header block *)

Section Block.
Context `{HF : HeaderFields} {P : Type} `{PH : PseudoHeaders P}.

Record HeaderBlock : Type := mkBlock { b_fields : fields; is_over_size : bool; b_pseudo : P }.
(** [HeaderBlock::calculate_header_list_size]. *)
Definition fields_size (l : list (bytes * HeaderValue)) : Z := foldr (fun f n => decoded_header_size (len f.1) (len (v_bytes f.2)) + n) 0 l.
Definition calculate_header_list_size (b : HeaderBlock) : Z := as_header_size (b_pseudo b) + fields_size (f_iter (b_fields b)).

(** The closure [HeaderBlock::load] hands to the decoder: the block's fields and pseudo headers,
    [reg], and the running values. *)
Record Visit : Type := mkVisit { v_fields : fields; v_pseudo : P; v_reg : bool; v_load : Loading }.
Definition connection_level (name : bytes) : bool :=
  bool_decide (name ∈ [bs "connection"; bs "transfer-encoding"; bs "upgrade"; bs "keep-alive"; bs "proxy-connection"]).
Definition on_header (max : Z) (h : Header bytes) (v : Visit) : outcome H2Error Visit :=
  let '(mkVisit m p reg l) := v in
  match h with
  | Field name value =>
      if connection_level name then Ok (mkVisit m p reg (with_malformed l))
      else if bool_decide (name = bs "te") && negb (bool_decide (v_bytes value = bs "trailers")) then Ok (mkVisit m p reg (with_malformed l))
      else
        let size := l_size l + decoded_header_size (len name) (len (v_bytes value)) in
        if size <? max then Ok (mkVisit (f_append name value m) p true (mkLoading (l_over l) (l_malformed l) size))
        else Ok (mkVisit m p true (mkLoading true (l_malformed l) size))
  | h => '(p, l) ← p_parse h max reg p l; Ok (mkVisit m p reg l)
  end.
Fixpoint on_headers (max : Z) (hs : list (Header bytes)) (v : Visit) : outcome H2Error Visit :=
  match hs with [] => Ok v | h :: hs => v ← on_header max h v; on_headers max hs v end.
(** [HeaderBlock::load]: the block, what is left of [src], the decoder, and the result.  A panic
    of the closure ends the call. *)
Definition block_load (max : Z) (b : HeaderBlock) (src : bytes) (d : Decoder) : (HeaderBlock * bytes * Decoder) * outcome H2Error unit :=
  let reg := negb (f_is_empty (b_fields b)) in
  let '(s, res) := decode (mkSt d (mkCursor src 0) []) in
  match on_headers max (out s) (mkVisit (b_fields b) (b_pseudo b) reg (mkLoading (is_over_size b) false (calculate_header_list_size b))) with
  | Ok v =>
      let b := mkBlock (v_fields v) (l_over (v_load v)) (v_pseudo v) in
      ((b, cbuf (cur s), dec s),
       match res with
       | Ok _ => if l_malformed (v_load v) then Err MalformedMessage else Ok tt
       | Err e => Err (Hpack e)
       | Panic => Panic
       end)
  | Err e => ((b, cbuf (cur s), dec s), Err e)
  | Panic => ((b, cbuf (cur s), dec s), Panic)
  end.
(** The headers of [HeaderBlock::into_encoding]. *)
Definition block_headers (b : HeaderBlock) : list (Header (option bytes)) := into_iter (b_pseudo b) ++ f_into_iter (b_fields b).

(** ** Frames of a block *)

(** [Limit<&mut BytesMut>]: what may still be written, and the buffer. *)
Definition put_slice (w : bytes) (dst : Z * bytes) : outcome H2Error (Z * bytes) :=
  if len w <=? dst.1 then Ok (dst.1 - len w, dst.2 ++ w) else Panic.
Definition head_put (h : Head) (payload_len : Z) (dst : Z * bytes) : outcome H2Error (Z * bytes) :=
  if 9 <=? dst.1 then
    dst ← put_slice (be_encode 3 payload_len) dst;
    dst ← put_slice [kind_u8 (kind h)] dst;
    dst ← put_slice [flag h] dst;
    put_slice (be_encode 4 (head_stream_id h)) dst
  else Panic.
(** [buf[at..at + len w].copy_from_slice(w)]. *)
Definition copy_at (at_ : Z) (w buf : bytes) : outcome H2Error bytes :=
  if at_ + len w <=? len buf then Ok (take (Z.to_nat at_) buf ++ w ++ drop (Z.to_nat (at_ + len w)) buf) else Panic.
Record Continuation : Type := mkContinuation { c_stream_id : Z; c_hpack : bytes }.
(** [EncodingHeaderBlock::encode]; the closure of both callers does nothing. *)
Definition encoding_encode (hpack : bytes) (head : Head) (dst : Z * bytes) : outcome H2Error ((Z * bytes) * option Continuation) :=
  let head_pos := len dst.2 in
  dst ← head_put head 0 dst;
  let payload_pos := len dst.2 in
  '(dst, continuation) ←
    (if len hpack >? dst.1 then
       let n := Z.to_nat dst.1 in
       dst ← put_slice (take n hpack) dst;
       Ok (dst, Some (mkContinuation (head_stream_id head) (drop n hpack)))
     else dst ← put_slice hpack dst; Ok (dst, None));
  let payload_len_be := be_encode 8 (len dst.2 - payload_pos) in
  if negb (bool_decide (take 5 payload_len_be = [0; 0; 0; 0; 0])) then Panic
  else
    buf ← copy_at head_pos (drop 5 payload_len_be) dst.2;
    match continuation with
    | None => Ok ((dst.1, buf), None)
    | Some c =>
        b ← unwrap (buf !! Z.to_nat (head_pos + 4));
        if has_flag b END_HEADERS then
          b ← sub_chk b END_HEADERS;
          buf ← copy_at (head_pos + 4) [b] buf;
          Ok ((dst.1, buf), Some c)
        else Panic
    end.
(** [Continuation::encode]. *)
Definition continuation_encode (c : Continuation) (dst : Z * bytes) : outcome H2Error ((Z * bytes) * option Continuation) :=
  encoding_encode (c_hpack c) (mkHead KContinuation END_HEADERS (c_stream_id c)) dst.

(** ** HEADERS *)

Record Headers : Type := mkHeaders { h_stream_id : Z; h_stream_dep : option StreamDependency; h_block : HeaderBlock; h_flags : Z }.
Definition headers_new (stream_id : Z) (pseudo : P) (m : fields) : Headers := mkHeaders stream_id None (mkBlock m false pseudo) headers_flag_default.
Definition headers_set_end_stream (h : Headers) : Headers := mkHeaders (h_stream_id h) (h_stream_dep h) (h_block h) (Z.lor (h_flags h) END_STREAM).
Definition is_end_headers (h : Headers) : bool := has_flag (h_flags h) END_HEADERS.
Definition headers_is_end_stream (h : Headers) : bool := has_flag (h_flags h) END_STREAM.
Definition load_hpack (max : Z) (h : Headers) (src : bytes) (d : Decoder) : (Headers * bytes * Decoder) * outcome H2Error unit :=
  let '((b, src, d), res) := block_load max (h_block h) src d in ((mkHeaders (h_stream_id h) (h_stream_dep h) b (h_flags h), src, d), res).
(** [Headers::load]: the padding length, the priority, the fragment without its padding. *)
Definition headers_load (head : Head) (src : bytes) : outcome H2Error (Headers * bytes) :=
  let flags := flag head in
  if is_zero (head_stream_id head) then Panic
  else
    '(pad, src) ← (if has_flag flags PADDED then match src with [] => Panic | b :: src => Ok (b, src) end else Ok (0, src));
    '(dep, src) ←
      (if has_flag flags PRIORITY then
         if len src <? 5 then Panic
         else
           dep ← dependency_load (take 5 src);
           if dependency_id dep =? head_stream_id head then Panic else Ok (Some dep, drop 5 src)
       else Ok (None, src));
    src ← (if pad >? 0 then if pad >? len src then Panic else Ok (take (Z.to_nat (len src - pad)) src) else Ok src);
    Ok (mkHeaders (head_stream_id head) dep (mkBlock f_empty false p_default) flags, src).
(** [Headers::encode]. *)
Definition headers_encode `{NH : NameHash} (h : Headers) (e : Encoder) (dst : Z * bytes) : outcome H2Error (Encoder * ((Z * bytes) * option Continuation)) :=
  if is_end_headers h then
    '(e, hpack) ← unwrap (encoder_encode (block_headers (h_block h)) e []);
    r ← encoding_encode hpack (mkHead KHeaders (h_flags h) (h_stream_id h)) dst;
    Ok (e, r)
  else Panic.
End Block.
(** [Headers::<()>::trailers]. *)
Definition trailers `{HF : HeaderFields} (stream_id : Z) (m : fields) : Headers (P := unit) :=
  mkHeaders stream_id None (mkBlock m false tt) (Z.lor headers_flag_default END_STREAM).
End Headers.

(** ** Frames of a block: lemmas *)

(** The head of a frame that is not the last one of its block. *)
Definition unended (h : Head) : Head := mkHead (kind h) (flag h - END_HEADERS) (head_stream_id h).

Lemma be_encode_pad k n z : 0 <= z < 2 ^ (8 * Z.of_nat n) -> be_encode (k + n) z = replicate k 0 ++ be_encode n z.
Proof.
  revert z. induction n as [|n IH]; intros z Hz.
  - assert (z = 0) as -> by (change (2 ^ (8 * Z.of_nat 0)) with 1 in Hz; lia). rewrite Nat.add_0_r, app_nil_r. clear Hz. induction k as [|k IHk]; [done|].
    cbn [be_encode]. change (0 / 256) with 0. change (0 mod 256) with 0. rewrite IHk. symmetry. apply (replicate_S_end k 0).
  - rewrite Nat.add_succ_r. cbn [be_encode]. rewrite IH, app_assoc; [done|]. split; [apply Z.div_pos; lia|]. apply Z.div_lt_upper_bound; [lia|].
    replace (8 * Z.of_nat (S n)) with (8 + 8 * Z.of_nat n) in Hz by lia. rewrite Z.pow_add_r in Hz by lia. lia.
Qed.
Lemma copy_at_app a w x b : length w = length x -> copy_at (len a) w (a ++ x ++ b) = Ok (a ++ w ++ b).
Proof.
  intros Hl. unfold copy_at. pose proof (len_nonneg b). rewrite (proj2 (Z.leb_le _ _)) by (rewrite !len_app; unfold len; lia). f_equal.
  unfold len. rewrite Nat2Z.id. rewrite take_app_length. do 2 f_equal. replace (Z.to_nat (Z.of_nat (length a) + Z.of_nat (length w))) with (length (a ++ x)) by (rewrite length_app; lia).
  rewrite app_assoc. apply drop_app_length.
Qed.
Lemma put_slice_ok w lim dst : len w <= lim -> put_slice w (lim, dst) = Ok (lim - len w, dst ++ w).
Proof. intros H. unfold put_slice. cbn [fst snd]. by rewrite (proj2 (Z.leb_le _ _) H). Qed.
Lemma head_put_ok h n lim dst : 9 <= lim -> head_put h n (lim, dst) = Ok (lim - 9, head_encode h n dst).
Proof.
  intros H. unfold head_put. cbn [fst]. rewrite (proj2 (Z.leb_le _ _) H).
  do 4 (rewrite put_slice_ok by (rewrite ?be_encode_len, ?len_cons, ?len_nil; lia); cbn [mbind outcome_bind]).
  f_equal. unfold head_encode. rewrite !be_encode_len, !len_cons, !len_nil, <- !app_assoc. f_equal. lia.
Qed.
Lemma head_encode_app h n dst : head_encode h n dst = dst ++ head_encode h n [].
Proof. done. Qed.
(** The length written over the head. *)
Lemma patch_length h dst payload : 0 <= len payload < 2 ^ 24 ->
  take 5 (be_encode 8 (len payload)) = [0; 0; 0; 0; 0] /\
  copy_at (len dst) (drop 5 (be_encode 8 (len payload))) (head_encode h 0 dst ++ payload) = Ok (dst ++ framed h payload).
Proof.
  intros Hp. change 8%nat with (5 + 3)%nat. rewrite be_encode_pad by (change (8 * Z.of_nat 3) with 24; lia). split; [done|].
  change (drop 5 (replicate 5 0 ++ be_encode 3 (len payload))) with (be_encode 3 (len payload)). unfold framed, head_encode. rewrite app_nil_l, <- !app_assoc.
  apply copy_at_app. by rewrite !be_encode_length.
Qed.
(** The flag taken off the head. *)
Lemma patch_flag h dst payload :
  (dst ++ framed h payload) !! Z.to_nat (len dst + 4) = Some (flag h) /\
  copy_at (len dst + 4) [flag h - END_HEADERS] (dst ++ framed h payload) = Ok (dst ++ framed (unended h) payload).
Proof.
  unfold framed, head_encode. rewrite app_nil_l, <- !app_assoc. set (a := dst ++ be_encode 3 (len payload) ++ [kind_u8 (kind h)]).
  assert (Ha : len a = len dst + 4) by (unfold a; rewrite !len_app, be_encode_len, len_cons, len_nil; lia).
  set (b := be_encode 4 (head_stream_id h) ++ payload).
  replace (dst ++ be_encode 3 (len payload) ++ [kind_u8 (kind h)] ++ [flag h] ++ b) with (a ++ [flag h] ++ b) by (unfold a; by rewrite <- !app_assoc).
  rewrite <- Ha. split; [unfold len; rewrite Nat2Z.id, lookup_app_r, Nat.sub_diag by lia; done|]. rewrite copy_at_app by done. unfold a, b, unended. cbn [kind flag head_stream_id]. by rewrite <- !app_assoc.
Qed.

Lemma end_headers_le x : 0 <= x -> has_flag x END_HEADERS = true -> END_HEADERS <= x.
Proof.
  intros Hp Hf%Z.eqb_eq. destruct (Z.le_gt_cases END_HEADERS x) as [|Hlt]; [done|exfalso]. unfold END_HEADERS in *.
  assert (Hb : Z.testbit (Z.land x 4) 2 = true) by (by rewrite Hf). rewrite Z.land_spec in Hb. rewrite (testbit_small x 2) in Hb; [done|unfold fits; lia|lia].
Qed.

(** What [EncodingHeaderBlock::encode] writes. *)
Lemma encoding_encode_spec hpack h lim dst :
  0 <= flag h -> has_flag (flag h) END_HEADERS = true -> 9 <= lim -> Z.min (len hpack) (lim - 9) < 2 ^ 24 ->
  encoding_encode hpack h (lim, dst) =
    if len hpack >? lim - 9
    then Ok ((0, dst ++ framed (unended h) (take (Z.to_nat (lim - 9)) hpack)), Some (mkContinuation (head_stream_id h) (drop (Z.to_nat (lim - 9)) hpack)))
    else Ok ((lim - 9 - len hpack, dst ++ framed h hpack), None).
Proof.
  intros Hp Hf Hlim Hs. unfold encoding_encode. cbn [fst snd]. rewrite head_put_ok by done. cbn [mbind outcome_bind fst snd]. pose proof (len_nonneg hpack) as Hn.
  rewrite Z.gtb_ltb. destruct (Z.ltb_spec (lim - 9) (len hpack)) as [Hgt|Hle].
  - assert (Ht : len (take (Z.to_nat (lim - 9)) hpack) = lim - 9) by (apply len_take; lia). rewrite put_slice_ok by (rewrite Ht; lia). cbn [mbind outcome_bind fst snd].
    rewrite len_app, Z.add_simpl_l. destruct (patch_length h dst (take (Z.to_nat (lim - 9)) hpack)) as [E1 E2]; [rewrite Ht; lia|].
    rewrite E1, bool_decide_true by done. cbn [negb]. rewrite E2. cbn [mbind outcome_bind].
    destruct (patch_flag h dst (take (Z.to_nat (lim - 9)) hpack)) as [E3 E4]. rewrite E3. cbn [unwrap mbind outcome_bind]. rewrite Hf.
    unfold sub_chk. rewrite (proj2 (Z.leb_le _ _) (end_headers_le _ Hp Hf)). cbn [mbind outcome_bind]. rewrite E4. cbn [mbind outcome_bind]. rewrite Ht. do 3 f_equal. lia.
  - rewrite put_slice_ok by lia. cbn [mbind outcome_bind fst snd]. rewrite len_app, Z.add_simpl_l. destruct (patch_length h dst hpack) as [E1 E2]; [lia|].
    rewrite E1, bool_decide_true by done. cbn [negb]. by rewrite E2.
Qed.

(** ** Fields that come out of the decoder *)

Section Proper.
Context `{FT : FieldTypes}.
(** A regular field has a name that is not one of a pseudo header. *)
Definition proper (h : Header bytes) : Prop := match h with Field n _ => exists c t, n = c :: t /\ c <> 58 | _ => True end.
Definition same (a b : Header bytes) : Prop := header_name a = header_name b /\ value_slice a = value_slice b.
Lemma proper_same a b : proper a -> proper b -> wire a = wire b -> same a b.
Proof.
  unfold wire, same. intros Ha Hb [= Hn Hv]. split; [|done].
  destruct a, b; cbn in *; try done; try (by rewrite Hn); destruct_and?;
    repeat match goal with H : exists _, _ |- _ => destruct H as (? & ? & -> & ?) end; injection Hn as Hc; by subst.
Qed.
Lemma header_new_proper n v h : header_new n v = Ok h -> proper h.
Proof.
  unfold header_new. destruct n as [|c tail]; [done|]. destruct (Z.eqb_spec c 58) as [->|Hc].
  - unfold bytes_str, ok_or. repeat case_match; cbn; intros [= <-]; done.
  - destruct (name_from_lowercase _) eqn:En; cbn; [|done]. destruct (value_from_bytes v); cbn; [|done]. intros [= <-]. apply name_from_lowercase_same in En as ->. by exists c, tail.
Qed.
Lemma header_ok_proper h : header_ok h -> proper h.
Proof.
  intros (h' & Hnew & Hname). apply header_new_proper in Hnew. destruct h as [n v| | | | | |]; try done. destruct h' as [n' v'| | | | | |]; try done. cbn in Hname. by injection Hname as ->.
Qed.
Lemma into_entry_proper e v h : proper e -> into_entry (header_name e) v = Ok h -> proper h.
Proof. intros He H. apply into_entry_wire in H as [Hn _]. destruct e, h; try done. cbn in Hn. by injection Hn as ->. Qed.
Lemma table_get_proper t i h : Forall proper (entries t) -> table_get t i = Ok h -> proper h.
Proof.
  intros Ht. unfold table_get. destruct (i =? 0); [done|]. destruct (i <=? 61).
  - unfold get_static. repeat case_match; intros [= <-]; try done; by eexists _, _.
  - destruct (entries t !! _) as [e|] eqn:E; [|done]. intros [= <-]. by apply (Forall_lookup_1 _ _ _ _ Ht E).
Qed.
(** Inserting and resizing only drop fields. *)
Lemma pop_back_proper l es x : pop_back l = Some (es, x) -> Forall proper l -> Forall proper es.
Proof.
  revert es. induction l as [|a l IH]; intros es; [done|]. cbn [pop_back]. destruct l as [|b l]; [intros [= <- <-]; constructor|].
  destruct (pop_back (b :: l)) as [[es' y]|]; [|done]. intros [= <- <-] Hl. apply Forall_cons in Hl as [Ha Hl]. constructor; [done|]. by apply IH.
Qed.
Lemma reserve_go_proper fuel n t : Forall proper (entries t) -> Forall proper (entries (reserve_go fuel n t).1).
Proof.
  revert t. induction fuel as [|fuel IH]; intros t Ht; [done|]. cbn [reserve_go]. case_match; [|done]. destruct (pop_back (entries t)) as [[es x]|] eqn:E; [|done].
  pose proof (pop_back_proper _ _ _ E Ht). by case_match; [apply IH|..].
Qed.
Lemma consolidate_go_proper fuel t : Forall proper (entries t) -> Forall proper (entries (consolidate_go fuel t).1).
Proof.
  revert t. induction fuel as [|fuel IH]; intros t Ht; [done|]. cbn [consolidate_go]. case_match; [|done]. destruct (pop_back (entries t)) as [[es x]|] eqn:E; [|done].
  pose proof (pop_back_proper _ _ _ E Ht). by case_match; [apply IH|..].
Qed.
Lemma table_insert_proper h t : proper h -> Forall proper (entries t) -> Forall proper (entries (table_insert h t).1).
Proof.
  intros Hh Ht. unfold table_insert, reserve. pose proof (reserve_go_proper (S (length (entries t))) (header_len h) t Ht) as Hr.
  unfold mbind, M_bind. destruct (reserve_go _ _ t) as [t' [| |]]; cbn in *; try done. case_match; cbn; [by constructor|done].
Qed.
Lemma p_literal_proper t idx r h r' : Forall proper (entries t) -> p_literal t idx r = Ok (h, r') -> proper h.
Proof.
  intros Ht. unfold p_literal. destruct (p_int _ r) as [[i r1]| |]; cbn; try done. destruct (i =? 0).
  - destruct (p_string r1) as [[n r2]| |]; cbn; try done. destruct (p_string r2) as [[v r3]| |]; cbn; try done. destruct (header_new n v) eqn:E; cbn; try done.
    intros [= <- _]. by eapply header_new_proper.
  - destruct (table_get t i) as [e| |] eqn:Eg; cbn; try done. destruct (p_string r1) as [[v r2]| |]; cbn; try done. destruct (into_entry _ v) eqn:E; cbn; try done.
    intros [= <- _]. eapply into_entry_proper; [|exact E]. by eapply table_get_proper.
Qed.
Lemma p_block_proper lm t cr r h t' cr' r' :
  Forall proper (entries t) -> p_block lm t cr r = Ok (h, t', cr', r') -> Forall proper (option_list h) /\ Forall proper (entries t').
Proof.
  intros Ht. unfold p_block. destruct r as [|ty r]; [done|]. destruct (load ty) as [rep| |]; cbn [mbind outcome_bind]; try done. destruct rep.
  - destruct (p_int 7 _) as [[i r1]| |]; cbn; try done. destruct (table_get t i) eqn:E; cbn; try done. intros [= <- <- _ _]. split; [|done]. constructor; [|done]. by eapply table_get_proper.
  - destruct (p_literal t true _) as [[x r1]| |] eqn:E; cbn [mbind outcome_bind]; try done. pose proof (p_literal_proper _ _ _ _ _ Ht E) as Hx.
    destruct (table_insert x t).2; cbn [mbind outcome_bind]; try done. intros [= <- <- _ _]. split; [by constructor|by apply table_insert_proper].
  - destruct (p_literal t false _) as [[x r1]| |] eqn:E; cbn; try done. intros [= <- <- _ _]. split; [|done]. constructor; [by eapply p_literal_proper|done].
  - destruct (p_literal t false _) as [[x r1]| |] eqn:E; cbn; try done. intros [= <- <- _ _]. split; [|done]. constructor; [by eapply p_literal_proper|done].
  - destruct (negb cr); [done|]. destruct (p_int 5 _) as [[n r1]| |]; cbn [mbind outcome_bind]; try done. case_match; [done|]. destruct (set_max_size n t).2; cbn [mbind outcome_bind]; try done.
    intros [= <- <- _ _]. split; [constructor|]. by apply consolidate_go_proper.
Qed.
Lemma p_blocks_proper fuel lm t cr r : Forall proper (entries t) -> Forall proper (p_blocks fuel lm t cr r).1.1.
Proof.
  revert t cr r. induction fuel as [|fuel IH]; intros t cr r Ht; destruct r as [|b r]; try done. cbn [p_blocks].
  destruct (p_block lm t cr (b :: r)) as [[[[h t'] cr'] r']| |] eqn:E; try done. destruct (p_block_proper _ _ _ _ _ _ _ _ Ht E) as [Hh Ht'].
  specialize (IH t' cr' r' Ht'). destruct (p_blocks fuel lm t' cr' r') as [[hs t2] res]. cbn in *. by apply Forall_app.
Qed.
Context `{NH : NameHash}.
(** What the decoder yields for a block of an encoder it is in step with. *)
Lemma block_decoded e d headers hs :
  in_step e d -> named None headers = Some hs -> Forall header_ok hs -> Forall field_small hs -> inserted (e_table e) + len headers + 1 < 2 ^ 64 ->
  exists e' w s', encoder_encode headers e [] = Some (e', w) /\ decode (mkSt d (mkCursor w 0) []) = (s', Ok tt) /\ Forall2 same (out s') hs
    /\ in_step e' (dec s') /\ inserted (e_table e') <= inserted (e_table e) + len headers /\ bytes_ok w.
Proof.
  intros Hst Hnamed Hok Hsm Hins. destruct (block_in_step e d headers hs Hst Hnamed Hok Hsm Hins) as (e' & w & s' & Henc & Hdec & Hout & Hst' & Hi & Hw).
  exists e', w, s'. split_and!; try done. destruct Hst as (_ & _ & (He & _ & Ht & Hall) & Hbuf & _).
  assert (Hs : st_ok (mkSt d (mkCursor w 0) [])) by (split; [unfold cur_ok; cbn; pose proof (len_nonneg w); lia|]; split; [by apply bytes_ok_drop|]; split; done).
  pose proof (decode_runs _ Hs) as Hd. cbn [dec out] in Hd.
  assert (Hp : Forall proper (entries (table d))).
  { rewrite He. apply Forall_fmap. eapply Forall_impl; [exact Hall|]. intros h Hh. cbn. pose proof (header_ok_proper h Hh) as Hp. destruct (rebuilt_same h Hh) as (_ & Hn & _). destruct h, (rebuilt _); try done. cbn in Hn. by injection Hn as ->. }
  pose proof (p_blocks_proper (S (length (chunk (mkCursor w 0)))) (default (last_max_update d) (max_size_update d)) (table d) true (chunk (mkCursor w 0)) Hp) as Hpp.
  unfold p_headers in Hd. cbn [cur] in Hd. destruct (p_blocks _ _ _ _ _) as [[hs' t'] res]. destruct Hd as (s1 & Hd1 & Ho & _). rewrite Hdec in Hd1. injection Hd1 as <- _. rewrite Ho in *. cbn [app fst] in *.
  clear -Hout Hpp Hok. revert hs Hout Hok. induction Hpp as [|a l Ha Hl IH]; intros [|b hs] Hout Hok; try done. rewrite !fmap_cons in Hout. injection Hout as Hn Hv Hout. apply Forall_cons in Hok as [Hb Hok].
  constructor; [apply proper_same; [done|by apply header_ok_proper|]|by apply IH]. unfold wire. by rewrite Hn, Hv.
Qed.
End Proper.

(** ** Loading a block *)

Section Loading.
Context `{FT : FieldTypes} `{HF : HeaderFields}.

(** The groups of a map, as the encoder is given them and as [HeaderMap::iter] lists them. *)
Lemma groups_named (gs : list (bytes * list HeaderValue)) last :
  Forall (fun g => g.2 <> []) gs ->
  named last (mjoin (group_headers <$> gs)) = Some ((fun f => Field f.1 f.2) <$> mjoin ((fun g => (fun v => (g.1, v)) <$> g.2) <$> gs)).
Proof.
  intros H. revert last. induction H as [|[n l] gs Hg Hgs IH]; intros last; [done|]. destruct l as [|v l]; [done|]. rewrite !fmap_cons.
  change (mjoin (?a :: ?b)) with (a ++ mjoin b). rewrite fmap_app. cbn [group_headers fst snd app named reify].
  assert (Hl : named (Some n) ((Field None <$> l) ++ mjoin (group_headers <$> gs)) = Some (((fun f => Field f.1 f.2) <$> ((fun v => (n, v)) <$> l)) ++ ((fun f => Field f.1 f.2) <$> mjoin ((fun g => (fun v => (g.1, v)) <$> g.2) <$> gs)))).
  { induction l as [|x l IHl]; [apply IH|]. rewrite !fmap_cons. cbn [app named reify mbind option_bind]. by rewrite IHl. }
  by rewrite Hl.
Qed.
Lemma f_groups_full m : Forall (fun g => g.2 <> []) (f_groups m).
Proof. apply Forall_forall. intros [n l] H. apply f_groups_values in H. by destruct H. Qed.
Lemma f_into_iter_named m last : named last (f_into_iter m) = Some ((fun f => Field f.1 f.2) <$> f_iter m).
Proof. apply groups_named, f_groups_full. Qed.
Lemma f_iter_values m n : snd <$> filter (fun f => f.1 = n) (f_iter m) = f_values n m.
Proof.
  pose proof (f_groups_nodup m) as Hn. pose proof (f_groups_full m) as Hf.
  assert (Hg : forall gs, NoDup (fst <$> gs) ->
    (forall l, (n, l) ∈ gs -> snd <$> filter (fun f : bytes * HeaderValue => f.1 = n) (mjoin ((fun g : bytes * list HeaderValue => (fun v => (g.1, v)) <$> g.2) <$> gs)) = l) /\
    (n ∉ (fst <$> gs) -> snd <$> filter (fun f : bytes * HeaderValue => f.1 = n) (mjoin ((fun g : bytes * list HeaderValue => (fun v => (g.1, v)) <$> g.2) <$> gs)) = [])).
  { clear. induction gs as [|[k l] gs IH]; intros Hn; [split; [by intros l H%not_elem_of_nil|done]|].
    rewrite fmap_cons in Hn. apply NoDup_cons in Hn as [Hk Hn]. specialize (IH Hn) as [IH1 IH2]. rewrite !fmap_cons. change (mjoin (?a :: ?b)) with (a ++ mjoin b). rewrite filter_app, fmap_app. cbn [fst snd].
    assert (Hsame : snd <$> filter (fun f : bytes * HeaderValue => f.1 = n) ((fun v => (k, v)) <$> l) = if bool_decide (k = n) then l else []).
    { clear. induction l as [|v l IH]; [by case_bool_decide|]. rewrite fmap_cons. case_bool_decide as E; [rewrite filter_cons_True by done; by rewrite fmap_cons, IH|by rewrite filter_cons_False by done]. }
    rewrite Hsame. split.
    - intros l' [[= -> ->] | Hl]%elem_of_cons; [rewrite bool_decide_true by done; rewrite IH2 by done; by rewrite app_nil_r|].
      rewrite bool_decide_false; [by apply IH1|]. intros ->. apply Hk. by apply (list_elem_of_fmap_2' fst gs (n, l') n).
    - rewrite not_elem_of_cons. intros [Hne Hin]. rewrite bool_decide_false by (cbn in Hne; congruence). by apply IH2. }
  destruct (Hg _ Hn) as [H1 H2]. unfold f_iter. destruct (decide (f_values n m = [])) as [E|E].
  - rewrite E. apply H2. intros H. apply list_elem_of_fmap in H as ([k l] & -> & Hin). apply f_groups_values in Hin as [E' Hne]. cbn in *. congruence.
  - apply H1, f_groups_values. done.
Qed.

(** A field a peer may send. *)
Definition plain_field (f : bytes * HeaderValue) : Prop :=
  connection_level f.1 = false /\ (f.1 = bs "te" -> v_bytes f.2 = bs "trailers").
Definition values_of (n : bytes) (m : fields) : list bytes := v_bytes <$> f_values n m.
Definition named_values (n : bytes) (fs : list (bytes * HeaderValue)) : list bytes := v_bytes <$> (snd <$> filter (fun f => f.1 = n) fs).

Context {P : Type} `{PH : PseudoHeaders P}.
Lemma fields_size_nonneg fs : 0 <= fields_size fs.
Proof. induction fs as [|f fs IH]; [done|]. unfold fields_size in *. cbn [foldr]. unfold decoded_header_size at 1. pose proof (len_nonneg f.1). pose proof (len_nonneg (v_bytes f.2)). lia. Qed.
Lemma fields_visited max fs hs m (p : P) reg l :
  Forall2 same hs ((fun f => Field f.1 f.2) <$> fs) -> Forall plain_field fs -> l_size l + fields_size fs < max ->
  exists m' reg', on_headers max hs (mkVisit m p reg l) = Ok (mkVisit m' p reg' (mkLoading (l_over l) (l_malformed l) (l_size l + fields_size fs))) /\
    forall n, values_of n m' = values_of n m ++ named_values n fs.
Proof.
  intros H Hp. revert hs m reg l H. induction Hp as [|[k v] fs [Hc Ht] Hp IH]; intros hs m reg l H Hs.
  { inversion H; subst. exists m, reg. cbn. split; [rewrite Z.add_0_r; by destruct l|]. intros n. by rewrite app_nil_r. }
  rewrite fmap_cons in H. inversion H as [|h ? hs' ? [Hn Hv] Hr]; subst. destruct h as [k' v'| | | | | |]; try done. cbn in Hn, Hv. injection Hn as ->. cbn [fst snd] in *.
  cbn [on_headers on_header]. rewrite Hc. rewrite Hv.
  assert (Hte : bool_decide (k = bs "te") && negb (bool_decide (v_bytes v = bs "trailers")) = false).
  { case_bool_decide as E; [|done]. by rewrite bool_decide_true by auto. }
  rewrite Hte. change (fields_size ((k, v) :: fs)) with (decoded_header_size (len k) (len (v_bytes v)) + fields_size fs) in *. pose proof (fields_size_nonneg fs).
  rewrite (proj2 (Z.ltb_lt _ _)) by lia. cbn [mbind outcome_bind].
  destruct (IH hs' (f_append k v' m) true (mkLoading (l_over l) (l_malformed l) (l_size l + decoded_header_size (len k) (len (v_bytes v)))) Hr) as (m' & reg' & -> & Hm'); [cbn [l_size]; lia|].
  exists m', reg'. cbn [l_over l_malformed l_size]. split; [do 2 f_equal; f_equal; lia|]. intros n. rewrite Hm'. unfold values_of, named_values. destruct (decide (k = n)) as [<-|Hne].
  - rewrite f_values_append, fmap_app, <- app_assoc. f_equal. rewrite filter_cons_True by done. rewrite !fmap_cons. cbn [fst snd]. by rewrite <- Hv.
  - rewrite f_values_append_ne by done. by rewrite filter_cons_False by done.
Qed.
End Loading.

(** ** Pseudo headers read back *)

Lemma on_headers_app `{FT : FieldTypes} `{HF : HeaderFields} {P} `{PH : PseudoHeaders P} max a b (v : Visit (P := P)) : on_headers max (a ++ b) v = v ← on_headers max a v; on_headers max b v.
Proof. revert v. induction a as [|h a IH]; intros v; [done|]. cbn [app on_headers]. destruct (on_header max h v); cbn [mbind outcome_bind]; [apply IH|done..]. Qed.

(** What a block needs of its kind of pseudo headers: the headers they stand for, what these add
    to the size of the list, and that reading them from an empty block restores them. *)
Class PseudoLaws (P : Type) `{FT : FieldTypes} `{HF : HeaderFields} `{PH : PseudoHeaders P} : Type := {
  pseudo_headers : P -> list (Header bytes);
  pseudo_cost : P -> Z;
  pseudo_named p rest : named None (into_iter p ++ rest) = app (pseudo_headers p) <$> named None rest;
  pseudo_visited max p hs m l : Forall2 same hs (pseudo_headers p) -> l_size l + pseudo_cost p < max ->
    exists p', on_headers max hs (mkVisit m p_default false l) = Ok (mkVisit m p' false (mkLoading (l_over l) (l_malformed l) (l_size l + pseudo_cost p)))
      /\ wire <$> pseudo_headers p' = wire <$> pseudo_headers p;
}.

Section Instances.
Context `{FT : FieldTypes} `{HF : HeaderFields}.
Definition request_headers (p : Pseudo) : list (Header bytes) :=
  option_list (HMethod <$> ps_method p) ++ option_list (Scheme <$> ps_scheme p) ++ option_list (Authority <$> ps_authority p) ++
  option_list (Path <$> ps_path p) ++ option_list (Status <$> ps_status p).
Lemma set_pseudo_first {A} max n k (v : A) l : l_size l + decoded_header_size (n + 1) k < max ->
  set_pseudo false max None n k v l = (Some v, mkLoading (l_over l) (l_malformed l) (l_size l + decoded_header_size (n + 1) k)).
Proof. intros H. unfold set_pseudo. by rewrite (proj2 (Z.ltb_lt _ _) H). Qed.
Lemma pseudo_size_nonneg {A} n (f : A -> bytes) o : 0 <= n -> 0 <= pseudo_size n f o.
Proof. intros Hn. destruct o as [v|]; cbn [pseudo_size]; [|done]. unfold decoded_header_size. pose proof (len_nonneg (f v)). lia. Qed.
(** A pseudo header that may be missing, read into its empty field. *)
Definition reads_one {A} (mk : A -> Header bytes) (n : Z) (str : A -> bytes) (put : option A -> Pseudo) : Prop :=
  forall max o hs m ov mal z, Forall2 same hs (option_list (mk <$> o)) -> z + pseudo_size n str o < max ->
  exists o', on_headers max hs (mkVisit m (put None) false (mkLoading ov mal z)) = Ok (mkVisit m (put o') false (mkLoading ov mal (z + pseudo_size n str o)))
    /\ str <$> o' = str <$> o.
Ltac read_one :=
  let o := fresh "o" in let v := fresh "v" in let Hs := fresh "Hs" in let Hl := fresh "Hl" in
  intros max o hs fm ov mal z Hs Hl; destruct o as [v|]; cbn [fmap option_fmap option_map option_list] in Hs;
  [ inversion Hs as [|h ? hs' ? [Hn Hv] Hr]; subst; inversion Hr; subst; destruct h as [| | | | | |]; try done; cbn [value_slice] in Hv;
    cbn [pseudo_size] in *; rewrite <- ?Hv in *; eexists (Some _); cbn [on_headers on_header p_parse request_pseudo pseudo_parse]; rewrite set_pseudo_first by (cbn [l_size]; unfold id in *; lia);
    split; [done|]; cbn; by rewrite Hv
  | inversion Hs; subst; exists None; cbn [pseudo_size on_headers]; rewrite Z.add_0_r; done ].
Lemma reads_method sc a pa st : reads_one HMethod 6 method_as_str (fun o => mkPseudo o sc a pa st).
Proof. read_one. Qed.
Lemma reads_scheme m a pa st : reads_one Scheme 6 id (fun o => mkPseudo m o a pa st).
Proof. read_one. Qed.
Lemma reads_authority m sc pa st : reads_one Authority 9 id (fun o => mkPseudo m sc o pa st).
Proof. read_one. Qed.
Lemma reads_path m sc a st : reads_one Path 4 id (fun o => mkPseudo m sc a o st).
Proof. read_one. Qed.
Lemma reads_status m sc a pa : reads_one Status 6 status_as_str (fun o => mkPseudo m sc a pa o).
Proof. read_one. Qed.
Lemma option_wire {A} (mk : A -> Header bytes) (str : A -> bytes) (o o' : option A) :
  (forall v, value_slice (mk v) = str v) -> (forall v w, header_name (mk v) = header_name (mk w)) -> str <$> o' = str <$> o ->
  wire <$> option_list (mk <$> o') = wire <$> option_list (mk <$> o).
Proof. intros Hv Hn. destruct o as [v|], o' as [w|]; cbn; try done. intros [= H]. unfold wire. by rewrite !Hv, H, (Hn w v). Qed.
Lemma request_named (p : Pseudo) rest : named None (into_iter p ++ rest) = app (request_headers p) <$> named None rest.
Proof. destruct p as [m sc a pa st]. destruct m, sc, a, pa, st; cbn; destruct (named None rest); done. Qed.
Lemma request_visited max p hs m l : Forall2 same hs (request_headers p) -> l_size l + pseudo_header_size p < max ->
  exists p', on_headers max hs (mkVisit m pseudo_default false l) = Ok (mkVisit m p' false (mkLoading (l_over l) (l_malformed l) (l_size l + pseudo_header_size p)))
  /\ wire <$> request_headers p' = wire <$> request_headers p.
Proof.
  rename m into fm. destruct p as [m sc a pa st]. intros Hs Hl. unfold request_headers in Hs. unfold pseudo_header_size in *. cbn [ps_method ps_scheme ps_authority ps_path ps_status] in *.
  apply Forall2_app_inv_r in Hs as (h1 & hs1 & S1 & Hs & ->). apply Forall2_app_inv_r in Hs as (h2 & hs2 & S2 & Hs & ->).
  apply Forall2_app_inv_r in Hs as (h3 & hs3 & S3 & Hs & ->). apply Forall2_app_inv_r in Hs as (h4 & h5 & S4 & S5 & ->).
  pose proof (pseudo_size_nonneg 6 method_as_str m ltac:(lia)). pose proof (pseudo_size_nonneg 6 id sc ltac:(lia)). pose proof (pseudo_size_nonneg 9 id a ltac:(lia)).
  pose proof (pseudo_size_nonneg 4 id pa ltac:(lia)). pose proof (pseudo_size_nonneg 6 status_as_str st ltac:(lia)).
  destruct l as [ov mal z]. cbn [l_over l_malformed l_size] in *.
  destruct (reads_method None None None None max m h1 fm ov mal z S1 ltac:(lia)) as (m' & E1 & W1).
  edestruct (reads_scheme m' None None None max sc h2 fm) as (sc' & E2 & W2); [exact S2|shelve|].
  edestruct (reads_authority m' sc' None None max a h3 fm) as (a' & E3 & W3); [exact S3|shelve|].
  edestruct (reads_path m' sc' a' None max pa h4 fm) as (pa' & E4 & W4); [exact S4|shelve|].
  edestruct (reads_status m' sc' a' pa' max st h5 fm) as (st' & E5 & W5); [exact S5|shelve|].
  exists (mkPseudo m' sc' a' pa' st'). split.
  + rewrite !on_headers_app. unfold pseudo_default. rewrite E1. cbn [mbind outcome_bind]. rewrite on_headers_app, E2. cbn [mbind outcome_bind].
    rewrite on_headers_app, E3. cbn [mbind outcome_bind]. rewrite on_headers_app, E4. cbn [mbind outcome_bind]. rewrite E5. do 3 f_equal. lia.
  + unfold request_headers. cbn [ps_method ps_scheme ps_authority ps_path ps_status]. rewrite !fmap_app.
    by rewrite (option_wire HMethod method_as_str m m'), (option_wire Scheme id sc sc'), (option_wire Authority id a a'), (option_wire Path id pa pa'), (option_wire Status status_as_str st st').
  Unshelve. all: lia.
Qed.
#[global] Instance request_laws : PseudoLaws Pseudo :=
  {| pseudo_headers := request_headers; pseudo_cost := pseudo_header_size; pseudo_named := request_named; pseudo_visited := request_visited |}.
#[global] Instance response_laws : PseudoLaws ResponsePseudo.
Proof.
  refine {| pseudo_headers p := [Status (rp_status p)]; pseudo_cost _ := response_header_size (mkResponsePseudo 200) |}.
  - intros p rest. cbn. by destruct (named None rest).
  - intros max p hs m l Hs Hl. inversion Hs as [|h ? hs' ? [Hn Hv] Hr]; subst. inversion Hr; subst. destruct h as [| | | | | |s]; try done.
    exists (mkResponsePseudo s). cbn [on_headers on_header p_parse response_pseudo response_parse p_default]. rewrite (proj2 (Z.ltb_lt _ _) Hl). split; [done|]. cbn [fmap list_fmap rp_status]. unfold wire. cbn [value_slice header_name] in *. by rewrite Hv.
Defined.
#[global] Instance trailer_laws : PseudoLaws unit.
Proof.
  refine {| pseudo_headers _ := []; pseudo_cost _ := 0 |}.
  - intros p rest. cbn. by destruct (named None rest).
  - intros max p hs m l Hs Hl. inversion Hs; subst. exists tt. cbn. rewrite Z.add_0_r. by destruct l.
Defined.
End Instances.

(** ** A block over several frames *)

(** The continuations of a block, each into a buffer with its own limit. *)
Fixpoint continue_block (limits : list Z) (c : Continuation) (dst : bytes) : outcome H2Error (bytes * option Continuation) :=
  match limits with
  | [] => Ok (dst, Some c)
  | lim :: limits =>
      '((_, dst), c) ← continuation_encode c (lim, dst);
      match c with None => Ok (dst, None) | Some c => continue_block limits c dst end
  end.
Definition write_block (lim : Z) (limits : list Z) (hpack : bytes) (h : Head) (dst : bytes) : outcome H2Error (bytes * option Continuation) :=
  '((_, dst), c) ← encoding_encode hpack h (lim, dst);
  match c with None => Ok (dst, None) | Some c => continue_block limits c dst end.
Definition continuing (h : Head) : Head := mkHead KContinuation END_HEADERS (head_stream_id h).
(** The heads of a block of [n] further frames: only the last one ends it. *)
Fixpoint block_heads (n : nat) (h : Head) : list Head := match n with O => [h] | S n => unended h :: block_heads n (continuing h) end.
Definition wire_of (fs : list (Head * bytes)) : bytes := mjoin ((fun f => framed f.1 f.2) <$> fs).

Lemma read_loop_framed fs fuel : Forall (fun f => head_ok f.1 /\ bytes_ok f.2 /\ len f.2 < 2 ^ 24) fs -> (length fs < fuel)%nat ->
  read_loop fuel (0, wire_of fs) = (fs, (0, [])) /\ bytes_ok (wire_of fs) /\ (length fs <= length (wire_of fs))%nat.
Proof.
  intros H. revert fuel. induction H as [|[h p] fs (Hh & Hb & Hl) Hfs IH]; intros [|fuel] Hf; try (simpl in Hf; lia); [split; [done|split; [constructor|simpl; lia]]|].
  destruct (IH fuel ltac:(simpl in Hf; lia)) as (E & Hw & Hlen). change (wire_of ((h, p) :: fs)) with (framed h p ++ wire_of fs). cbn [fst snd] in *.
  destruct (cut_framed h p [] Hh Hb Hl) as (Hbf & H9 & _). cbn [read_loop]. rewrite read_framed, E by done. split; [done|]. split; [by apply bytes_ok_app|]. rewrite length_app. simpl. lia.
Qed.
Definition room (limits : list Z) : Z := foldr (fun lim n => lim - 9 + n) 0 limits.
Lemma room_nonneg limits : Forall (fun lim => 10 <= lim < 2 ^ 24) limits -> 0 <= room limits.
Proof. induction 1 as [|lim limits H _ IH]; [done|]. cbn [room foldr]. fold (room limits). lia. Qed.
Lemma unended_ok h : head_ok h -> has_flag (flag h) END_HEADERS = true -> head_ok (unended h).
Proof.
  intros (Hk & Hf & Hid) He. split; [done|]. split; [|done]. cbn [unended flag]. pose proof (end_headers_le (flag h) ltac:(unfold fits in Hf; lia) He). unfold fits, END_HEADERS in *. lia.
Qed.
Lemma continuing_ok h : head_ok h -> head_ok (continuing h) /\ has_flag (flag (continuing h)) END_HEADERS = true.
Proof. intros (Hk & Hf & Hid). done. Qed.
Lemma fragments limits : forall lim hpack h dst,
  head_ok h -> has_flag (flag h) END_HEADERS = true -> bytes_ok hpack -> Forall (fun lim => 10 <= lim < 2 ^ 24) (lim :: limits) -> len hpack <= room (lim :: limits) ->
  exists fs n, write_block lim limits hpack h dst = Ok (dst ++ wire_of fs, None) /\ fst <$> fs = block_heads n h /\ mjoin (snd <$> fs) = hpack
    /\ Forall (fun f => head_ok f.1 /\ bytes_ok f.2 /\ len f.2 < 2 ^ 24) fs.
Proof.
  induction limits as [|lim' limits IH]; intros lim hpack h dst Hh Hf Hb Hlims Hroom; apply Forall_cons in Hlims as [Hlim Hlims]; cbn [room foldr] in Hroom;
    unfold write_block; rewrite encoding_encode_spec by (done || lia || (destruct Hh as (_ & Hu & _); unfold fits in Hu; lia)); rewrite Z.gtb_ltb.
  - rewrite (proj2 (Z.ltb_ge _ _)) by lia. cbn [mbind outcome_bind]. exists [(h, hpack)], O. unfold wire_of. cbn [fmap list_fmap fst snd mjoin list_join block_heads]. rewrite !app_nil_r.
    split_and!; try done. constructor; [|constructor]. split_and!; try done. cbn. lia.
  - fold (room limits) in Hroom. destruct (Z.ltb_spec (lim - 9) (len hpack)) as [Hlt|Hle]; cbn [mbind outcome_bind].
    + destruct (continuing_ok h Hh) as [Hc Hcf]. assert (Hlen : len (take (Z.to_nat (lim - 9)) hpack) = lim - 9) by (apply len_take; lia).
      assert (Hsplit : len hpack = lim - 9 + len (drop (Z.to_nat (lim - 9)) hpack)) by (rewrite <- Hlen at 1; rewrite <- len_app, take_drop; done).
      destruct (IH lim' (drop (Z.to_nat (lim - 9)) hpack) (continuing h) (dst ++ framed (unended h) (take (Z.to_nat (lim - 9)) hpack)) Hc Hcf) as (fs & n & E & Hheads & Hjoin & Hfs); [auto with xitca|done|cbn [room foldr]; fold (room limits); lia|].
      exists ((unended h, take (Z.to_nat (lim - 9)) hpack) :: fs), (S n). cbn [continue_block]. unfold continuation_encode. cbn [c_hpack c_stream_id]. fold (continuing h). unfold write_block in E. rewrite E.
      split; [unfold wire_of; rewrite fmap_cons; cbn [fst snd]; change (mjoin (?a :: ?b)) with (a ++ mjoin b); by rewrite <- app_assoc|]. split; [rewrite fmap_cons; cbn [block_heads]; by rewrite Hheads|].
      split; [rewrite fmap_cons; cbn [snd]; change (mjoin (?a :: ?b)) with (a ++ mjoin b); rewrite Hjoin; apply take_drop|]. constructor; [|done]. cbn [fst snd]. split; [by apply unended_ok|]. split; [auto with xitca|lia].
    + exists [(h, hpack)], O. unfold wire_of. cbn [fmap list_fmap fst snd mjoin list_join block_heads]. rewrite !app_nil_r.
      split_and!; try done. constructor; [|constructor]. split_and!; try done. cbn. lia.
Qed.

(** ** A header list over the connection *)

Section Carried.
Context `{FT : FieldTypes} `{NH : NameHash} `{HF : HeaderFields} {P : Type} `{PH : PseudoHeaders P} `{PL : !PseudoLaws P}.

(** The fields of a frame, pseudo headers first. *)
Definition list_of (h : Headers (P := P)) : list (Header bytes) := pseudo_headers (b_pseudo (h_block h)) ++ ((fun f => Field f.1 f.2) <$> f_iter (b_fields (h_block h))).
Definition list_size (h : Headers (P := P)) : Z := as_header_size (p_default (P := P)) + pseudo_cost (b_pseudo (h_block h)) + fields_size (f_iter (b_fields (h_block h))).
(** A HEADERS frame as an endpoint builds it. *)
Definition sendable (h : Headers (P := P)) : Prop :=
  (h_flags h = END_HEADERS \/ h_flags h = Z.lor END_HEADERS END_STREAM) /\ stream_id_ok (h_stream_id h) /\ h_stream_id h <> 0 /\
  Forall header_ok (list_of h) /\ Forall field_small (list_of h) /\ Forall plain_field (f_iter (b_fields (h_block h))).
Definition head_of (h : Headers (P := P)) : Head := mkHead KHeaders (h_flags h) (h_stream_id h).
Definition carries (h h' : Headers (P := P)) : Prop :=
  h_stream_id h' = h_stream_id h /\ h_flags h' = h_flags h /\ is_over_size (h_block h') = false /\
  wire <$> pseudo_headers (b_pseudo (h_block h')) = wire <$> pseudo_headers (b_pseudo (h_block h)) /\
  forall n, values_of n (b_fields (h_block h')) = values_of n (b_fields (h_block h)).

Lemma block_headers_named (h : Headers (P := P)) : named None (block_headers (h_block h)) = Some (list_of h).
Proof. unfold block_headers. rewrite pseudo_named, f_into_iter_named. done. Qed.
Lemma head_of_ok h : sendable h -> head_ok (head_of h) /\ has_flag (flag (head_of h)) END_HEADERS = true.
Proof. intros ([Hf | Hf] & Hid & _); unfold head_ok, head_of; cbn [kind flag head_stream_id]; rewrite Hf; done. Qed.
(** [Headers::load] of such a frame: no padding and no priority. *)
Lemma headers_load_plain h payload : sendable h ->
  headers_load (P := P) (head_of h) payload = Ok (mkHeaders (h_stream_id h) None (mkBlock f_empty false p_default) (h_flags h), payload).
Proof.
  intros (Hf & _ & Hne & _). unfold headers_load, is_zero. cbn [head_of head_stream_id flag]. rewrite (proj2 (Z.eqb_neq _ _) Hne).
  assert (Hp : has_flag (h_flags h) PADDED = false /\ has_flag (h_flags h) PRIORITY = false) by (destruct Hf as [-> | ->]; done). destruct Hp as [-> ->]. done.
Qed.
Lemma f_empty_groups : f_groups f_empty = [].
Proof.
  destruct (f_groups f_empty) as [|[n l] gs] eqn:E; [done|]. assert (Hin : (n, l) ∈ f_groups f_empty) by (rewrite E; apply list_elem_of_here). apply f_groups_values in Hin as [H1 H2]. rewrite f_values_empty in H1. congruence.
Qed.
Lemma block_loaded h e d max :
  in_step e d -> sendable h -> inserted (e_table e) + len (block_headers (h_block h)) + 1 < 2 ^ 64 -> list_size h < max ->
  exists e' hpack h' src' d', encoder_encode (block_headers (h_block h)) e [] = Some (e', hpack) /\ bytes_ok hpack /\ in_step e' d' /\
    load_hpack max (mkHeaders (h_stream_id h) None (mkBlock f_empty false p_default) (h_flags h)) hpack d = ((h', src', d'), Ok tt) /\ carries h h'.
Proof.
  intros Hst (Hf & Hid & Hne & Hok & Hsm & Hpl) Hins Hmax.
  destruct (block_decoded e d _ _ Hst (block_headers_named h) Hok Hsm Hins) as (e' & w & s' & Henc & Hdec & Hout & Hst' & _ & Hw).
  unfold list_of in Hout. apply Forall2_app_inv_r in Hout as (ps & fs & Hps & Hfs & Ho). unfold list_size in Hmax. pose proof (fields_size_nonneg (f_iter (b_fields (h_block h)))).
  set (l0 := mkLoading false false (as_header_size (p_default (P := P)))).
  destruct (pseudo_visited max (b_pseudo (h_block h)) ps f_empty l0 Hps) as (p' & E1 & W1); [cbn; lia|]. cbn [l0 l_over l_malformed l_size] in E1.
  destruct (fields_visited max (f_iter (b_fields (h_block h))) fs f_empty p' false (mkLoading false false (as_header_size (p_default (P := P)) + pseudo_cost (b_pseudo (h_block h)))) Hfs Hpl) as (m' & reg' & E2 & Hm'); [cbn [l_size]; lia|].
  cbn [l_over l_malformed l_size] in E2.
  assert (Hload : block_load max (mkBlock f_empty false p_default) w d = ((mkBlock m' false p', cbuf (cur s'), dec s'), Ok tt)).
  { unfold block_load. rewrite Hdec, Ho. unfold calculate_header_list_size, f_is_empty, f_iter. cbn [b_fields b_pseudo is_over_size]. rewrite f_empty_groups. cbn [negb fmap list_fmap mjoin list_join fields_size foldr].
    rewrite Z.add_0_r, on_headers_app. change (mkLoading false false (as_header_size p_default)) with l0. rewrite E1. cbn [mbind outcome_bind]. rewrite E2. done. }
  exists e', w, (mkHeaders (h_stream_id h) None (mkBlock m' false p') (h_flags h)), (cbuf (cur s')), (dec s'). unfold load_hpack. cbn [h_block h_stream_id h_stream_dep h_flags]. rewrite Hload.
  split_and!; try done. split; [done|]. split; [done|]. split; [done|]. split; [done|]. intros n. cbn [h_block b_fields]. rewrite Hm'. unfold values_of, named_values. rewrite f_iter_values, f_values_empty. done.
Qed.
End Carried.

(** ** Properties *)


(** A header block too long for its buffer is spread over CONTINUATION frames.  Written into
    buffers with any limits that leave a byte for the payload and room enough in all, the frames
    read back are a HEADERS frame and continuations of the same stream, only the last one with
    END_HEADERS, whose payloads joined are the block. *)
Theorem h2_block_fragments lim limits hpack h :
  head_ok h -> has_flag (flag h) END_HEADERS = true -> bytes_ok hpack -> Forall (fun lim => 10 <= lim < 2 ^ 24) (lim :: limits) -> len hpack <= room (lim :: limits) ->
  exists buf fs n, write_block lim limits hpack h [] = Ok (buf, None) /\ read_segments [buf] (0, []) = (fs, (0, [])) /\
    fst <$> fs = block_heads n h /\ mjoin (snd <$> fs) = hpack.
Proof.
  intros Hh Hf Hb Hl Hr. destruct (fragments limits lim hpack h [] Hh Hf Hb Hl Hr) as (fs & n & E & Hheads & Hjoin & Hfs). rewrite app_nil_l in E.
  exists (wire_of fs), fs, n. split; [done|]. destruct (read_loop_framed fs (S (length fs)) Hfs ltac:(lia)) as (_ & _ & Hlen).
  destruct (read_loop_framed fs (S (length (wire_of fs))) Hfs ltac:(lia)) as (E' & _ & _). cbn [read_segments fst snd]. rewrite app_nil_l, E'. by rewrite app_nil_r.
Qed.
(** A request with two values of one name. *)
Definition demo_fields : fields := f_append (bs "x-b") (mkValue (bs "two") false) (f_append (bs "x-a") (mkValue (bs "v") false) (f_append (bs "x-b") (mkValue (bs "one") false) f_empty)).
Definition demo_request : Headers (P := Pseudo) := headers_set_end_stream (headers_new 1 (pseudo_request GET (Some (bs "/index")) (Some (bs "http")) (Some (bs "localhost"))) demo_fields).
Lemma demo_sendable : sendable demo_request.
Proof.
  split_and!; [by right|done|done| | |].
  - change (list_of demo_request) with ltac:(let l := eval vm_compute in (list_of demo_request) in exact l). repeat (apply Forall_cons; split; [apply header_check; by vm_compute|]). apply Forall_nil_2.
  - change (list_of demo_request) with ltac:(let l := eval vm_compute in (list_of demo_request) in exact l). repeat (apply Forall_cons; split; [apply small_check; by vm_compute|]). apply Forall_nil_2.
  - change (f_iter _) with ltac:(let l := eval vm_compute in (f_iter (b_fields (h_block demo_request))) in exact l). repeat (apply Forall_cons; split; [done|]). apply Forall_nil_2.
Qed.
Lemma h2_block_fragments_witness :
  exists buf fs n, write_block 12 [12; 30] [1; 2; 3; 4; 5; 6; 7; 8] (mkHead KHeaders 4 1) [] = Ok (buf, None) /\
    read_segments [buf] (0, []) = (fs, (0, [])) /\ fst <$> fs = block_heads n (mkHead KHeaders 4 1) /\ mjoin (snd <$> fs) = [1; 2; 3; 4; 5; 6; 7; 8].
Proof.
  apply h2_block_fragments; [done|done|repeat constructor; lia|repeat constructor; lia|by vm_compute].
Defined.
(** A block with a pseudo header after a regular field, or a connection-level field, is malformed. *)
Lemma h2_malformed_blocks :
  (forall m p over z v, on_header 100 (Scheme v) (mkVisit (P := Pseudo) m p true (mkLoading over false z)) = Ok (mkVisit m p true (mkLoading over true z))) /\
  (forall m (p : Pseudo) reg over z v, on_header 100 (Field (bs "connection") v) (mkVisit m p reg (mkLoading over false z)) = Ok (mkVisit m p reg (mkLoading over true z))).
Proof. split; intros; [by destruct p|done]. Qed.
(** [parse_u64] refuses every number. *)
Lemma parse_u64_refuses d src : 48 <= d <= 57 -> len (d :: src) <= 19 -> parse_u64 (d :: src) = Err tt.
Proof.
  intros Hd Hl. unfold parse_u64. rewrite Z.gtb_ltb, (proj2 (Z.ltb_ge _ _) Hl). cbn [parse_u64_loop]. rewrite (proj2 (Z.leb_le _ _) (proj1 Hd)), (proj2 (Z.leb_le _ _) (proj2 Hd)). done.
Qed.
(** A response that carries a request's pseudo header is not refused but panics. *)
Lemma response_pseudo_panics max reg p l v : p_parse (P := ResponsePseudo) (Scheme v) max reg p l = Panic.
Proof. done. Qed.
