(* ===== verification/H2Conn.v ===== *)
(** * HTTP/2 connections (http/src/h2/proto/mod.rs)

    The connection of the io-uring server: the frame handlers of [DecodeContext], flow control,
    the tasks that answer requests, request bodies and the writer.  The asynchronous parts are
    steps of a system: what the transport, the service and the bodies do are its events, in any
    order.  The channels to the writer and to a request's body are tokio's unbounded ones: queues
    that take every message while the receiver lives.  The writer's receiver lives as long as the
    connection. *)

From S2P Require Import Prelude Decimal Http HpackInt HpackHeader HpackTable HpackDecoder HpackEncoder HpackIndex HpackProbe HpackSync H2Frame H2Headers.

(** ** The slab *)

(** What is used of [slab::Slab]: keys of its choice, iteration over the occupied ones. *)
Class Slabs (A : Type) : Type := {
  slab : Type;
  s_empty : slab;
  s_get : nat -> slab -> option A;
  s_insert : A -> slab -> nat * slab;
  s_set : nat -> A -> slab -> slab;
  s_remove : nat -> slab -> slab;
  s_keys : slab -> list nat;
  s_get_empty k : s_get k s_empty = None;
  s_insert_fresh a s : s_get (s_insert a s).1 s = None;
  s_get_insert a s k : s_get k (s_insert a s).2 = if decide (k = (s_insert a s).1) then Some a else s_get k s;
  s_get_set k a s k' : is_Some (s_get k s) -> s_get k' (s_set k a s) = if decide (k' = k) then Some a else s_get k' s;
  s_get_remove k s k' : s_get k' (s_remove k s) = if decide (k' = k) then None else s_get k' s;
  s_keys_get k s : k ∈ s_keys s <-> is_Some (s_get k s);
}.
(** An implementation by a map. *)
#[global] Instance map_slab (A : Type) : Slabs A.
Proof.
  refine {| slab := gmap nat A; s_empty := ∅; s_get k s := s !! k; s_insert a s := let k := fresh (dom s) in (k, <[k := a]> s);
    s_set k a s := <[k := a]> s; s_remove k s := delete k s; s_keys s := fst <$> map_to_list s |}.
  - intros k. apply lookup_empty.
  - intros a s. cbn. apply not_elem_of_dom, is_fresh.
  - intros a s k. cbn. rewrite lookup_insert. by case_decide; case_decide.
  - intros k a s k' _. rewrite lookup_insert. by case_decide; case_decide.
  - intros k s k'. rewrite lookup_delete. by case_decide; case_decide.
  - intros k s. rewrite list_elem_of_fmap. split.
    + intros ([k' a] & -> & H%elem_of_map_to_list). by exists a.
    + intros [a Ha]. exists (k, a). split; [done|]. by apply elem_of_map_to_list.
Defined.

(** ** The state of a connection *)

(** A waker is the stream whose task it wakes. *)
Record StreamControlFlow : Type := mkStream { window : Z; frame_size : Z; waker : option Z }.
Inductive BodySize : Type := SizeNone | Sized (size : Z) | SizeStream.
(** A channel of a request's body: its stream, what was sent and not yet taken, whether the
    receiver and the sender are there. *)
Record Chan : Type := mkChan { ch_stream : Z; ch_queue : list bytes; ch_rx : bool; ch_tx : bool }.

Section Conn.
Context `{FT : FieldTypes} `{HF : HeaderFields} `{SL : !Slabs StreamControlFlow}.

Inductive Message : Type :=
| MHead (h : Headers (P := ResponsePseudo)) | MData (d : Data) | MTrailer (h : Headers (P := unit))
| MReset (id reason : Z) | MWindowUpdate (id size : Z) | MSettings.
Record FlowControl : Type := mkFlow { connection_window : Z; stream_window : Z; ordered_map : slab; flow_map : gmap Z nat }.
Record Request : Type := mkRequest { rq_stream : Z; rq_method : Method; rq_fields : fields; rq_body : nat }.
(** [DecodeContext] with what it shares: the flow control, the messages sent to the writer, the
    body channels, the tasks that were woken and the requests handed to the service. *)
Record Conn : Type := mkConn {
  max_list : Z; remote_setting : Settings; decoder : Decoder; continuation : option (Headers (P := Pseudo) * bytes);
  flow : FlowControl; stream_map : gmap Z nat; writer : list Message; chans : list Chan; woken : list Z; requests : list Request }.

Definition DEFAULT_SETTINGS_HEADER_TABLE_SIZE : Z := 4096.
Definition DEFAULT_SETTINGS_MAX_HEADER_LIST_SIZE : Z := Z.shiftl 16 20.
Definition CANCEL : Z := 8.
Definition NO_ERROR : Z := 0.
Definition flow_new : FlowControl := mkFlow 65535 65535 s_empty ∅.
(** [DecodeContext::new] over a fresh [FlowControl]. *)
Definition conn_new : Conn :=
  mkConn DEFAULT_SETTINGS_MAX_HEADER_LIST_SIZE settings_default (decoder_new DEFAULT_SETTINGS_HEADER_TABLE_SIZE) None flow_new ∅ [] [] [] [].

Definition with_flow (f : FlowControl) (c : Conn) : Conn :=
  mkConn (max_list c) (remote_setting c) (decoder c) (continuation c) f (stream_map c) (writer c) (chans c) (woken c) (requests c).
Definition with_hpack (d : Decoder) (k : option (Headers (P := Pseudo) * bytes)) (c : Conn) : Conn :=
  mkConn (max_list c) (remote_setting c) d k (flow c) (stream_map c) (writer c) (chans c) (woken c) (requests c).
Definition with_bodies (m : gmap Z nat) (l : list Chan) (c : Conn) : Conn :=
  mkConn (max_list c) (remote_setting c) (decoder c) (continuation c) (flow c) m (writer c) l (woken c) (requests c).
Definition with_request (r : Request) (c : Conn) : Conn :=
  mkConn (max_list c) (remote_setting c) (decoder c) (continuation c) (flow c) (stream_map c) (writer c) (chans c) (woken c) (requests c ++ [r]).
Definition with_remote (s : Settings) (c : Conn) : Conn :=
  mkConn (max_list c) s (decoder c) (continuation c) (flow c) (stream_map c) (writer c) (chans c) (woken c) (requests c).
(** [writer_tx.send(msg)] and [Waker::wake]. *)
Definition send (m : Message) (c : Conn) : Conn :=
  mkConn (max_list c) (remote_setting c) (decoder c) (continuation c) (flow c) (stream_map c) (writer c ++ [m]) (chans c) (woken c) (requests c).
Definition wake (o : option Z) (c : Conn) : Conn :=
  mkConn (max_list c) (remote_setting c) (decoder c) (continuation c) (flow c) (stream_map c) (writer c) (chans c) (woken c ++ option_list o) (requests c).

Abbreviation Handler := (M Conn H2Error).
Definition modify (f : Conn -> Conn) : Handler unit := fun c => (f c, Ok tt).

(** ** The frame handlers of [try_decode] *)

Definition on_settings (head : Head) (frame : bytes) : Handler unit :=
  setting ← lift (settings_load head frame);
  if is_ack setting then mret tt
  else
    modify (with_remote setting) ;;
    modify (fun c => match initial_window_size setting with
      | Some w => with_flow (mkFlow (connection_window (flow c)) w (ordered_map (flow c)) (flow_map (flow c))) c
      | None => c
      end) ;;
    modify (send MSettings).

(** Dropping the sender of a body. *)
Definition drop_tx (ch : nat) (l : list Chan) : list Chan := alter (fun b => mkChan (ch_stream b) (ch_queue b) (ch_rx b) false) ch l.
(** [handle_header_frame]; [RequestBody::new_pair] makes the channel. *)
Definition handle_header_frame (id : Z) (h : Headers (P := Pseudo)) : Handler unit := fun c =>
  match stream_map c !! id with
  | Some ch => (with_bodies (delete id (stream_map c)) (drop_tx ch (chans c)) c, Ok tt)
  | None =>
      match ps_method (b_pseudo (h_block h)) with
      | None => (c, Panic)
      | Some method =>
          let ch := length (chans c) in
          let '(m, alive) := if headers_is_end_stream h then (stream_map c, false) else (<[id := ch]> (stream_map c), true) in
          (with_request (mkRequest id method (b_fields (h_block h)) ch) (with_bodies m (chans c ++ [mkChan id [] true alive]) c), Ok tt)
      end
  end.
Definition headers_loaded (h : Headers (P := Pseudo)) (payload : bytes) : Handler unit := fun c =>
  let '((h, payload, d), res) := load_hpack (max_list c) h payload (decoder c) in
  match res with
  | Ok _ =>
      if is_end_headers h then handle_header_frame (h_stream_id h) h (with_hpack d (continuation c) c)
      else (with_hpack d (Some (h, payload)) c, Ok tt)
  | Err e => (with_hpack d (continuation c) c, Err e)
  | Panic => (with_hpack d (continuation c) c, Panic)
  end.
Definition on_headers_frame (head : Head) (frame : bytes) : Handler unit :=
  '(h, payload) ← lift (headers_load head frame);
  headers_loaded h payload.
Definition on_continuation (head : Head) (frame : bytes) : Handler unit := fun c =>
  let is_end_headers := Z.land (flag head) 4 =? 4 in
  match continuation c with
  | None => (c, Panic)
  | Some (h, payload) =>
      let c := with_hpack (decoder c) None c in
      let id := h_stream_id h in
      if negb (id =? head_stream_id head) then (c, Panic)
      else
        let '((h, payload, d), res) := load_hpack (max_list c) h (payload ++ frame) (decoder c) in
        match res with
        | Ok _ => handle_header_frame id h (with_hpack d None c)
        | Err e =>
            match e with
            | Hpack (ENeedMore _) => if is_end_headers then (with_hpack d None c, Err e) else (with_hpack d (Some (h, payload)) c, Ok tt)
            | e => (with_hpack d None c, Err e)
            end
        | Panic => (with_hpack d None c, Panic)
        end
  end.
(** [tx.send(Ok(payload))] for the stream's body: whether the stream ends. *)
Definition push_data (id : Z) (payload : bytes) (is_end : bool) : Handler bool := fun c =>
  match stream_map c !! id ≫= fun ch => pair ch <$> chans c !! ch with
  | None => (c, Panic)
  | Some (ch, b) =>
      if ch_rx b then (with_bodies (stream_map c) (<[ch := mkChan (ch_stream b) (ch_queue b ++ [payload]) true (ch_tx b)]> (chans c)) c, Ok is_end)
      else (send (MReset id CANCEL) c, Ok true)
  end.
Definition end_body (id : Z) (c : Conn) : Conn :=
  match stream_map c !! id with
  | Some ch => with_bodies (delete id (stream_map c)) (drop_tx ch (chans c)) c
  | None => c
  end.
Definition on_data (head : Head) (frame : bytes) : Handler unit :=
  data ← lift (data_load head frame);
  let id := d_stream_id data in
  is_end ← match d_data data with [] => mret (is_end_stream data) | payload => push_data id payload (is_end_stream data) end;
  if (is_end : bool) then modify (end_body id) else mret tt.

(** The loop over the streams: the first one with window left is woken. *)
Fixpoint wake_first (keys : list nat) (s : slab) : slab * option Z :=
  match keys with
  | [] => (s, None)
  | k :: keys =>
      match s_get k s with
      | Some st => if window st >? 0 then (s_set k (mkStream (window st) (frame_size st) None) s, waker st) else wake_first keys s
      | None => wake_first keys s
      end
  end.
Definition window_updated (w : WindowUpdate) : Handler unit := fun c =>
  let f := flow c in
  if w_stream_id w =? 0 then
    match add_chk (E := H2Error) 64 (connection_window f) (size_increment w) with
    | Ok cw =>
        let '(s, o) := wake_first (s_keys (ordered_map f)) (ordered_map f) in
        (wake o (with_flow (mkFlow cw (stream_window f) s (flow_map f)) c), Ok tt)
    | _ => (c, Panic)
    end
  else
    match flow_map f !! w_stream_id w with
    | None => (c, Ok tt)
    | Some key =>
        match s_get key (ordered_map f) with
        | None => (c, Panic)
        | Some st =>
            match add_chk (E := H2Error) 64 (window st) (size_increment w) with
            | Ok sw =>
                let c := with_flow (mkFlow (connection_window f) (stream_window f) (s_set key (mkStream sw (frame_size st) None) (ordered_map f)) (flow_map f)) c in
                (if connection_window f >? 0 then wake (waker st) c else c, Ok tt)
            | _ => (c, Panic)
            end
        end
    end.
Definition on_window_update (head : Head) (frame : bytes) : Handler unit :=
  w ← lift (window_update_load head frame);
  window_updated w.
Definition on_go_away (frame : bytes) : Handler unit :=
  g ← lift (go_away_load frame);
  if g_error_code g =? NO_ERROR then mret tt else panic.
Definition handle_frame (head : Head) (frame : bytes) : Handler unit :=
  match kind head with
  | KSettings => on_settings head frame
  | KHeaders => on_headers_frame head frame
  | KContinuation => on_continuation head frame
  | KData => on_data head frame
  | KWindowUpdate => on_window_update head frame
  | KGoAway => on_go_away frame
  | _ => mret tt
  end.
(** [try_decode]: the reader's state and the connection; a turn takes a frame off the buffer. *)
Fixpoint try_decode_loop (fuel : nat) (r : Z * bytes) : Handler (Z * bytes) :=
  match fuel with
  | O => mret r
  | S fuel =>
      match read_frame (E := H2Error) r with
      | (r, Ok (Some (head, frame))) => handle_frame head frame ;; try_decode_loop fuel r
      | (r, Ok None) => mret r
      | (_, Err e) => fail e
      | (_, Panic) => panic
      end
  end.
Definition try_decode (r : Z * bytes) : Handler (Z * bytes) := try_decode_loop (S (length r.2)) r.

(** ** Answering a request *)

(** The head of the response, and the stream's entry when a body follows; [content-length] is
    set for a body of known size. *)
Definition response_head (id status : Z) (m : fields) (size : BodySize) : Headers (P := ResponsePseudo) :=
  let m := match size with Sized n => f_insert (bs "content-length") (mkValue (decimal n) false) m | _ => m end in
  headers_new id (mkResponsePseudo status) m.
Definition open_stream (id : Z) (f : FlowControl) : FlowControl :=
  let '(key, s) := s_insert (mkStream (stream_window f) 16384 None) (ordered_map f) in
  mkFlow (connection_window f) (stream_window f) s (<[id := key]> (flow_map f)).
Definition respond (id status : Z) (m : fields) (size : BodySize) (c : Conn) : Conn :=
  let headers := response_head id status m size in
  match size with
  | SizeNone => send (MHead (headers_set_end_stream headers)) c
  | _ => let c := send (MHead headers) c in with_flow (open_stream id (flow c)) c
  end.
(** The [poll_fn] that waits for window: [None] is [Poll::Pending], with the waker stored. *)
Definition poll_window (id len : Z) : Handler (option Z) := fun c =>
  let f := flow c in
  match flow_map f !! id ≫= fun key => pair key <$> s_get key (ordered_map f) with
  | None => (c, Panic)
  | Some (key, st) =>
      if (connection_window f =? 0) || (window st =? 0) then
        (with_flow (mkFlow (connection_window f) (stream_window f) (s_set key (mkStream (window st) (frame_size st) (Some id)) (ordered_map f)) (flow_map f)) c, Ok None)
      else
        let len := Z.min len (frame_size st) in
        let aval := Z.min (window st) (connection_window f) in
        let aval := Z.min aval len in
        (with_flow (mkFlow (connection_window f - aval) (stream_window f) (s_set key (mkStream (window st - aval) (frame_size st) (waker st)) (ordered_map f)) (flow_map f)) c,
         Ok (Some aval))
  end.
(** The loop over a chunk: the bytes still to be sent when it waits.  Every turn sends a byte at
    least. *)
Fixpoint send_chunk (fuel : nat) (id : Z) (b : bytes) : Handler bytes :=
  match b with
  | [] => mret []
  | _ =>
      match fuel with
      | O => mret b
      | S fuel =>
          o ← poll_window id (len b);
          match o with
          | None => mret b
          | Some aval =>
              data ← lift (data_new id (take (Z.to_nat aval) b));
              modify (send (MData data)) ;;
              send_chunk fuel id (drop (Z.to_nat aval) b)
          end
      end
  end.
(** [DropGuard::drop]. *)
Definition drop_guard (id : Z) : Handler unit := fun c =>
  let f := flow c in
  match flow_map f !! id with
  | None => (c, Ok tt)
  | Some key =>
      match s_get key (ordered_map f) with
      | None => (c, Panic)
      | Some _ => (with_flow (mkFlow (connection_window f) (stream_window f) (s_remove key (ordered_map f)) (delete id (flow_map f))) c, Ok tt)
      end
  end.
(** The end of a body: the trailer, and the entry goes. *)
Definition finish_body (id : Z) : Handler unit :=
  modify (send (MTrailer (trailers id f_empty))) ;;
  drop_guard id.

(** ** Request bodies *)

(** [RequestBody::poll_next]: pending, the end, or bytes whose window is given back. *)
Inductive Polled : Type := Pending | End | Bytes (b : bytes).
Definition body_poll_next (ch : nat) (c : Conn) : Conn * Polled :=
  match chans c !! ch with
  | None => (c, End)
  | Some b =>
      match ch_queue b with
      | p :: q => (send (MWindowUpdate (ch_stream b) (len p)) (with_bodies (stream_map c) (<[ch := mkChan (ch_stream b) q (ch_rx b) (ch_tx b)]> (chans c)) c), Bytes p)
      | [] => (c, if ch_tx b then Pending else End)
      end
  end.
(** The body is dropped with what it holds. *)
Definition body_drop (ch : nat) (c : Conn) : Conn :=
  with_bodies (stream_map c) (alter (fun b => mkChan (ch_stream b) [] false (ch_tx b)) ch (chans c)) c.

(** ** The writer *)

Context `{NH : NameHash}.
(** [size as u32] of a window update wraps; what [Headers::encode] leaves for a continuation is
    dropped. *)
Definition write_message (m : Message) (e : Encoder) (buf : bytes) : outcome H2Error (Encoder * bytes) :=
  match m with
  | MHead h => '(e, ((_, buf), _)) ← headers_encode h e (4096, buf); Ok (e, buf)
  | MData d => Ok (e, data_encode d buf)
  | MTrailer h => '(e, ((_, buf), _)) ← headers_encode h e (4096, buf); Ok (e, buf)
  | MReset id reason => Ok (e, reset_encode (mkReset id reason) buf)
  | MWindowUpdate id size =>
      if size >? 0 then
        let buf := window_update_encode (mkWindowUpdate 0 (wrap 32 size)) buf in
        Ok (e, window_update_encode (mkWindowUpdate id (wrap 32 size)) buf)
      else Panic
  | MSettings => Ok (e, settings_encode settings_ack buf)
  end.
Fixpoint write_messages (ms : list Message) (e : Encoder) (buf : bytes) : outcome H2Error (Encoder * bytes) :=
  match ms with [] => Ok (e, buf) | m :: ms => '(e, buf) ← write_message m e buf; write_messages ms e buf end.
(** The encoder of the write task. *)
Definition writer_encoder : Encoder := encoder_new 65535 4096.

(** ** The preface *)

Definition PREFACE : bytes := bs "PRI * HTTP/2.0" ++ [13; 10; 13; 10] ++ bs "SM" ++ [13; 10; 13; 10].
(** [prefix_check] over what successive reads return: [None] while more is awaited, [Err tt] when
    a read fails or the preface is another. *)
Fixpoint prefix_check (reads : list (option bytes)) (buf : bytes) : option (outcome unit bytes) :=
  if len buf <? len PREFACE then
    match reads with
    | [] => None
    | None :: _ => Some (Err tt)
    | Some b :: reads => prefix_check reads (buf ++ b)
    end
  else if bool_decide (take (length PREFACE) buf = PREFACE) then Some (Ok (drop (length PREFACE) buf)) else Some (Err tt).

(** ** The system *)

(** The task of a request: the service call, the rest of the chunk of the body, or done. *)
Inductive Task : Type := Calling | Sending (b : bytes) | Done.
Record Sys : Type := mkSys { conn : Conn; reader : Z * bytes; tasks : list Task }.
Definition sys_new : Sys := mkSys conn_new (0, []) [].
Inductive Event : Type :=
| Segment (seg : bytes)   (** bytes read from the transport *)
| Respond (k : nat) (status : Z) (m : fields) (size : BodySize)   (** the service answers request [k] *)
| ServiceError (k : nat)
| Chunk (k : nat) (b : bytes)   (** the response body yields a chunk *)
| Poll (k : nat)   (** the task is polled while it waits for window *)
| Finish (k : nat)   (** the response body ends *)
| ReadBody (ch : nat) | DropBody (ch : nat)   (** the request's body is polled, or dropped *)
| ChunkError (k : nat).   (** the response body fails *)
(** An event that cannot happen now, or the connection fails. *)
Inductive Stop : Type := Disabled | Failed.

Definition of_result {A} (s : Sys) (k : Conn -> A -> Sys) (r : Conn * outcome H2Error A) : outcome Stop Sys :=
  match r with (c, Ok a) => Ok (k c a) | _ => Err Failed end.
Definition sys_step (ev : Event) (s : Sys) : outcome Stop Sys :=
  let c := conn s in
  match ev with
  | Segment seg =>
      of_result s (fun c r => mkSys c r (tasks s ++ replicate (length (requests c) - length (tasks s)) Calling)) (try_decode ((reader s).1, (reader s).2 ++ seg) c)
  | Respond k status m size =>
      match tasks s !! k, requests c !! k with
      | Some Calling, Some rq =>
          Ok (mkSys (respond (rq_stream rq) status m size c) (reader s) (<[k := match size with SizeNone => Done | _ => Sending [] end]> (tasks s)))
      | _, _ => Err Disabled
      end
  | ServiceError k =>
      match tasks s !! k with Some Calling => Ok (mkSys c (reader s) (<[k := Done]> (tasks s))) | _ => Err Disabled end
  | Chunk k b =>
      match tasks s !! k, requests c !! k with
      | Some (Sending []), Some rq => of_result s (fun c r => mkSys c (reader s) (<[k := Sending r]> (tasks s))) (send_chunk (length b) (rq_stream rq) b c)
      | _, _ => Err Disabled
      end
  | Poll k =>
      match tasks s !! k, requests c !! k with
      | Some (Sending (x :: b)), Some rq => of_result s (fun c r => mkSys c (reader s) (<[k := Sending r]> (tasks s))) (send_chunk (length (x :: b)) (rq_stream rq) (x :: b) c)
      | _, _ => Err Disabled
      end
  | Finish k =>
      match tasks s !! k, requests c !! k with
      | Some (Sending []), Some rq => of_result s (fun c _ => mkSys c (reader s) (<[k := Done]> (tasks s))) (finish_body (rq_stream rq) c)
      | _, _ => Err Disabled
      end
  | ReadBody ch => Ok (mkSys (body_poll_next ch c).1 (reader s) (tasks s))
  | DropBody ch => Ok (mkSys (body_drop ch c) (reader s) (tasks s))
  | ChunkError k => match tasks s !! k with Some (Sending []) => Err Failed | _ => Err Disabled end
  end.
Fixpoint run (evs : list Event) (s : Sys) : outcome Stop Sys :=
  match evs with [] => Ok s | ev :: evs => s ← sys_step ev s; run evs s end.
End Conn.
