(* ===== verification/H2Flow.v ===== *)
(** * HTTP/2 flow control and delivery

    What every run of a connection keeps: the windows, the bodies of responses and of requests,
    for any order of frames, service answers, body chunks and polls. *)

From S2P Require Import Prelude Decimal Http HpackInt HpackHeader HpackTable HpackDecoder HpackEncoder HpackIndex HpackProbe HpackSync H2Frame H2Headers H2Conn.

Section Flow.
Context `{FT : FieldTypes} `{HF : HeaderFields} `{SL : !Slabs StreamControlFlow}.

(** ** Frames *)

Fixpoint handle_frames (fs : list (Head * bytes)) : M Conn H2Error unit :=
  match fs with [] => mret tt | f :: fs => handle_frame f.1 f.2 ;; handle_frames fs end.
(** [try_decode] handles the frames the reader takes off the buffer, in order. *)
Lemma try_decode_loop_frames fuel r c c' r' :
  try_decode_loop fuel r c = (c', Ok r') -> handle_frames (read_loop fuel r).1 c = (c', Ok tt) /\ r' = (read_loop fuel r).2.
Proof.
  revert r c. induction fuel as [|fuel IH]; intros r c; cbn [try_decode_loop read_loop]; [by intros [= <- <-]|].
  destruct (read_frame r) as [r1 [[[h p]|]| |]]; try (by intros [= <- <-]); [].
  unfold mbind, M_bind at 1. destruct (handle_frame h p c) as [c1 [[]| |]] eqn:E; try done. intros H. apply IH in H as [H ->].
  destruct (read_loop fuel r1) as [fs st]. cbn [fst snd handle_frames] in *. unfold mbind, M_bind. by rewrite E.
Qed.
Lemma handle_frames_app fs gs c : handle_frames (fs ++ gs) c = (handle_frames fs ;; handle_frames gs) c.
Proof.
  revert c. induction fs as [|f fs IH]; intros c; [done|]. cbn [app handle_frames]. unfold mbind, M_bind in *. destruct (handle_frame f.1 f.2 c) as [c1 [a| |]]; [apply IH|done..].
Qed.

(** ** What a handler leaves alone *)

(** The messages that answer a request, on one stream. *)
Definition answer_on (id : Z) (m : Message) : bool :=
  match m with MHead h => h_stream_id h =? id | MData d => d_stream_id d =? id | MTrailer h => h_stream_id h =? id | _ => false end.
Definition is_answer (m : Message) : bool := match m with MHead _ | MData _ | MTrailer _ => true | _ => false end.
Definition answers (c : Conn) : list Message := filter is_answer (writer c).
Definition data_of (ms : list Message) : list Data := omap (fun m => match m with MData d => Some d | _ => None end) ms.
Definition quiet (c c' : Conn) : Prop := flow c' = flow c /\ answers c' = answers c.

Lemma quiet_refl c : quiet c c.
Proof. done. Qed.
Lemma quiet_trans a b c : quiet a b -> quiet b c -> quiet a c.
Proof. intros [H1 H2] [H3 H4]. split; congruence. Qed.
Lemma answers_send m c : answers (send m c) = answers c ++ filter is_answer [m].
Proof. unfold answers. cbn [send writer]. by rewrite filter_app. Qed.
Lemma quiet_send m c : is_answer m = false -> quiet c (send m c).
Proof. intros H. split; [done|]. rewrite answers_send. rewrite filter_cons_False, filter_nil, app_nil_r; [done|]. rewrite H. by intros []. Qed.
Lemma header_frame_quiet id h c c' r : handle_header_frame id h c = (c', r) -> quiet c c'.
Proof. unfold handle_header_frame. destruct (stream_map c !! id); [by intros [= <- <-]|]. destruct (ps_method _); [|by intros [= <- <-]]. destruct (headers_is_end_stream h); by intros [= <- <-]. Qed.
Lemma headers_frame_quiet head frame c c' r : on_headers_frame head frame c = (c', r) -> quiet c c'.
Proof.
  unfold on_headers_frame, mbind, M_bind, lift. destruct (headers_load head frame) as [[h payload]| |]; try by intros [= <- <-]. unfold headers_loaded.
  destruct (load_hpack _ _ _ _) as [[[h' p'] d] [a| |]]; try by intros [= <- <-]. destruct (is_end_headers h'); [|by intros [= <- <-]]. intros H. by apply header_frame_quiet in H.
Qed.
Lemma continuation_quiet head frame c c' r : on_continuation head frame c = (c', r) -> quiet c c'.
Proof.
  unfold on_continuation. destruct (continuation c) as [[h payload]|]; [|by intros [= <- <-]]. cbv zeta. destruct (negb _); [by intros [= <- <-]|].
  destruct (load_hpack _ _ _ _) as [[[h' p'] d] [a|e|]]; [intros H; by apply header_frame_quiet in H| |by intros [= <- <-]].
  destruct e as [|[]]; try destruct (_ =? _); by intros [= <- <-].
Qed.
Lemma data_quiet head frame c c' r : on_data head frame c = (c', r) -> quiet c c'.
Proof.
  unfold on_data, mbind, M_bind, lift. destruct (data_load head frame) as [d| |]; try by intros [= <- <-].
  set (step := match d_data d with [] => mret (is_end_stream d) | payload => push_data (d_stream_id d) payload (is_end_stream d) end).
  assert (Hpush : forall c1 r1, step c = (c1, r1) -> quiet c c1).
  { intros c1 r1. unfold step. destruct (d_data d) as [|x l]; [by intros [= <- <-]|]. unfold push_data. destruct (_ ≫= _) as [[ch b]|]; [|by intros [= <- <-]]. destruct (ch_rx b); intros [= <- <-]; [done|by apply quiet_send]. }
  destruct (step c) as [c1 [is_end| |]]; specialize (Hpush _ _ eq_refl); try by intros [= <- <-].
  destruct is_end; [|by intros [= <- <-]]. intros [= <- <-]. eapply quiet_trans; [exact Hpush|]. unfold end_body. by destruct (stream_map c1 !! _).
Qed.
Lemma go_away_quiet frame c c' r : on_go_away frame c = (c', r) -> quiet c c'.
Proof. unfold on_go_away, mbind, M_bind, lift. destruct (go_away_load frame) as [g| |]; try by intros [= <- <-]. destruct (_ =? _); by intros [= <- <-]. Qed.

(** ** Windows *)

Record flow_ok (f : FlowControl) : Prop := {
  fo_connection : 0 <= connection_window f;
  fo_initial : 0 <= stream_window f;
  fo_key id k : flow_map f !! id = Some k -> is_Some (s_get k (ordered_map f));
  fo_inj id id' k : flow_map f !! id = Some k -> flow_map f !! id' = Some k -> id = id';
  fo_streams k st : s_get k (ordered_map f) = Some st -> 0 <= window st /\ frame_size st = 16384 }.
(** The window a stream has left. *)
Definition credit (id : Z) (f : FlowControl) : Z := default 0 (k ← flow_map f !! id; window <$> s_get k (ordered_map f)).
Lemma credit_nonneg id f : flow_ok f -> 0 <= credit id f.
Proof.
  intros H. unfold credit. destruct (flow_map f !! id) as [k|]; cbn; [|done]. destruct (s_get k _) as [st|] eqn:E; cbn; [|done]. by apply (fo_streams f H k st).
Qed.
(** A new entry under the key of a stream. *)
Lemma flow_set f id k st st' cw sw :
  flow_ok f -> flow_map f !! id = Some k -> s_get k (ordered_map f) = Some st -> 0 <= cw -> 0 <= sw -> 0 <= window st' -> frame_size st' = frame_size st ->
  let f' := mkFlow cw sw (s_set k st' (ordered_map f)) (flow_map f) in
  flow_ok f' /\ credit id f' = window st' /\ credit id f = window st /\ forall id', id' <> id -> credit id' f' = credit id' f.
Proof.
  intros H Hk Hst Hcw Hsw Hw Hfs. cbv zeta.
  assert (Hget : forall k', s_get k' (s_set k st' (ordered_map f)) = if decide (k' = k) then Some st' else s_get k' (ordered_map f)) by (intros k'; apply s_get_set; by eexists).
  split; [|split; [|split]].
  - split; cbn; try done.
    + intros id' k' Hk'. rewrite Hget. case_decide; [by eexists|]. by apply (fo_key f H id').
    + apply (fo_inj f H).
    + intros k' st0. rewrite Hget. case_decide; [|apply (fo_streams f H)]. intros [= <-]. split; [done|]. rewrite Hfs. by apply (fo_streams f H k).
  - unfold credit. cbn [flow_map ordered_map]. rewrite Hk. cbn [mbind option_bind]. rewrite Hget. by rewrite decide_True.
  - unfold credit. rewrite Hk. cbn [mbind option_bind]. by rewrite Hst.
  - intros id' Hne. unfold credit. cbn [flow_map ordered_map]. destruct (flow_map f !! id') as [k'|] eqn:E; [|done]. cbn [mbind option_bind]. rewrite Hget. rewrite decide_False; [done|]. intros ->. apply Hne. by apply (fo_inj f H id' id k).
Qed.
(** Waking a stream changes no window. *)
Definition same_windows (s s' : slab) : Prop := forall k, (fun st => (window st, frame_size st)) <$> s_get k s' = (fun st => (window st, frame_size st)) <$> s_get k s.
Lemma wake_first_windows keys s : same_windows s (wake_first keys s).1.
Proof.
  induction keys as [|k keys IH]; cbn [wake_first]; [done|]. destruct (s_get k s) as [st|] eqn:E; [|done]. destruct (_ >? _); [|done]. intros k'. cbn [fst]. rewrite s_get_set by (by eexists). case_decide; [subst; by rewrite E|done].
Qed.
Lemma flow_same f cw sw s :
  flow_ok f -> same_windows (ordered_map f) s -> 0 <= cw -> 0 <= sw ->
  flow_ok (mkFlow cw sw s (flow_map f)) /\ forall id, credit id (mkFlow cw sw s (flow_map f)) = credit id f.
Proof.
  intros H Hs Hcw Hsw. split.
  - split; cbn; try done; [|apply (fo_inj f H)|].
    + intros id k Hk. specialize (Hs k). destruct (fo_key f H id k Hk) as [st Hst]. rewrite Hst in Hs. destruct (s_get k s); [by eexists|done].
    + intros k st Hk. specialize (Hs k). rewrite Hk in Hs. destruct (s_get k (ordered_map f)) as [st0|] eqn:E; [|done]. cbn in Hs. injection Hs as -> ->. by apply (fo_streams f H k).
  - intros id. unfold credit. cbn [flow_map ordered_map]. destruct (flow_map f !! id) as [k|]; [|done]. cbn [mbind option_bind]. specialize (Hs k). f_equal.
    destruct (s_get k s), (s_get k (ordered_map f)); cbn in *; congruence.
Qed.

(** ** What a frame grants *)

Definition window_frame (f : Head * bytes) : option WindowUpdate :=
  match kind f.1 with KWindowUpdate => match window_update_load f.1 f.2 with Ok w => Some w | _ => None end | _ => None end.
Definition grant (id : Z) (f : Head * bytes) : Z := match window_frame f with Some w => if w_stream_id w =? id then size_increment w else 0 | None => 0 end.
Definition grants (id : Z) (fs : list (Head * bytes)) : Z := foldr (fun f n => grant id f + n) 0 fs.
Lemma window_update_positive h p w : window_update_load h p = Ok w -> 0 <= size_increment w /\ w_stream_id w = head_stream_id h.
Proof.
  unfold window_update_load. destruct (negb _); [done|]. destruct (unpack_octets_4 p 0) as [v| |]; cbn [mbind outcome_bind]; try done. case_match; [done|]. intros [= <-]. cbn [size_increment w_stream_id]. split; [|done]. apply Z.land_nonneg. by right.
Qed.
Lemma grant_nonneg id f : 0 <= grant id f.
Proof. unfold grant, window_frame. destruct (kind f.1); try done. destruct (window_update_load _ _) as [w| |] eqn:E; try done. apply window_update_positive in E as [? _]. by case_match. Qed.

(** The initial window of a SETTINGS frame. *)
Lemma octets_nonneg {E} buf n v : bytes_ok buf -> unpack_octets_4 (E := E) buf n = Ok v -> 0 <= v.
Proof.
  intros Hb. unfold unpack_octets_4.
  destruct (buf !! n) as [a|] eqn:Ea, (buf !! S n) as [b|] eqn:Eb, (buf !! S (S n)) as [c|] eqn:Ec, (buf !! S (S (S n))) as [d|] eqn:Ed; try done. intros [= <-].
  pose proof (Forall_lookup_1 _ _ _ _ Hb Ea) as [? _]. pose proof (Forall_lookup_1 _ _ _ _ Hb Eb) as [? _]. pose proof (Forall_lookup_1 _ _ _ _ Hb Ec) as [? _]. pose proof (Forall_lookup_1 _ _ _ _ Hb Ed) as [? _].
  rewrite !Z.lor_nonneg, !Z.shiftl_nonneg. done.
Qed.
Definition initial_ok (s : Settings) : Prop := forall w, initial_window_size s = Some w -> 0 <= w.
Lemma setting_load_nonneg {E} raw x : bytes_ok raw -> setting_load (E := E) raw = Ok (Some x) -> 0 <= setting_value x.
Proof.
  intros Hb. unfold setting_load. destruct (raw !! 0%nat) as [a|]; [|done]. destruct (raw !! 1%nat) as [b|]; [|done]. destruct (unpack_octets_4 raw 2) as [v| |] eqn:Ev; cbn [mbind outcome_bind]; try done.
  apply octets_nonneg in Ev; [|done]. unfold setting_from_id. repeat case_match; try done; by intros [= <-].
Qed.
Lemma settings_loop_initial fuel p s s' : bytes_ok p -> initial_ok s -> settings_loop fuel p s = Ok s' -> initial_ok s'.
Proof.
  revert p s. induction fuel as [|fuel IH]; intros p s Hb Hs; destruct p as [|x p]; cbn [settings_loop]; try by intros [= <-].
  destruct (setting_load (take 6 (x :: p))) as [o| |] eqn:E; cbn [mbind outcome_bind]; try done. destruct (settings_apply s o) as [s1| |] eqn:E1; cbn [mbind outcome_bind]; try done.
  apply IH; [auto with xitca|]. destruct s as [a b c d e g h i]. unfold settings_apply in E1. destruct o as [y|]; [|by injection E1 as <-].
  apply setting_load_nonneg in E; [|auto with xitca]. destruct y; cbn [setting_value] in E; repeat case_match; try done; injection E1 as <-; try done. by intros w [= <-].
Qed.
Lemma settings_load_initial h p s : bytes_ok p -> settings_load h p = Ok s -> initial_ok s.
Proof.
  intros Hb. unfold settings_load. destruct (negb _); [done|]. destruct (_ =? ACK); [destruct p; [by intros [= <-]|done]|]. destruct (negb _); [done|]. by apply settings_loop_initial.
Qed.

(** ** Every frame keeps the accounts *)

Definition opened (id : Z) (f : FlowControl) : bool := bool_decide (is_Some (flow_map f !! id)).
(** The accounts of a connection after frames that grant [g 0] to it and [g id] to its streams. *)
Definition accounts (g : Z -> Z) (c c' : Conn) : Prop :=
  flow_ok (flow c') /\ answers c' = answers c /\ flow_map (flow c') = flow_map (flow c) /\ connection_window (flow c') = connection_window (flow c) + g 0 /\
  forall id, id <> 0 -> credit id (flow c') = credit id (flow c) + (if opened id (flow c) then g id else 0).
Lemma accounts_quiet c c' : flow_ok (flow c) -> quiet c c' -> accounts (fun _ => 0) c c'.
Proof. intros H [Hf Ha]. unfold accounts. rewrite Hf. split_and!; try done; [lia|]. intros id _. case_match; lia. Qed.
Lemma accounts_ext g g' c c' : (forall id, g id = g' id) -> accounts g c c' -> accounts g' c c'.
Proof. intros Hg (H1 & H2 & H3 & H4 & H5). unfold accounts. rewrite <- Hg. split_and!; try done. intros id Hid. by rewrite <- Hg, H5. Qed.
Lemma accounts_trans g1 g2 a b c : accounts g1 a b -> accounts g2 b c -> accounts (fun id => g1 id + g2 id) a c.
Proof.
  intros (H1 & H2 & H3 & H4 & H5) (K1 & K2 & K3 & K4 & K5). unfold accounts. split_and!; [done|congruence|congruence|lia|]. intros id Hid. rewrite K5, H5 by done.
  assert (Ho : opened id (flow b) = opened id (flow a)) by (unfold opened; by rewrite H3). rewrite Ho. case_match; lia.
Qed.
Lemma add_chk_ok {E} w a b c : add_chk (E := E) w a b = Ok c -> c = a + b.
Proof. unfold add_chk. case_match; [by intros [= <-]|done]. Qed.
Lemma window_updated_accounts w c c' :
  flow_ok (flow c) -> 0 <= size_increment w -> window_updated w c = (c', Ok tt) -> accounts (fun id => if w_stream_id w =? id then size_increment w else 0) c c'.
Proof.
  intros H Hw. unfold window_updated. destruct (Z.eqb_spec (w_stream_id w) 0) as [E0|E0].
  - destruct (add_chk _ _ _) as [cw| |] eqn:E; try done. apply add_chk_ok in E. pose proof (wake_first_windows (s_keys (ordered_map (flow c))) (ordered_map (flow c))) as Hs.
    destruct (wake_first _ _) as [s o]. cbn [fst] in Hs. intros [= <-]. pose proof (fo_connection _ H).
    destruct (flow_same (flow c) cw (stream_window (flow c)) s H Hs ltac:(lia) (fo_initial _ H)) as [Hok Hcr].
    unfold accounts. cbn [flow wake with_flow answers writer]. split_and!; try done. { cbn [connection_window]. rewrite E0. cbn. lia. }
    intros id Hid. rewrite Hcr, (proj2 (Z.eqb_neq _ _)) by lia. case_match; lia.
  - destruct (flow_map (flow c) !! w_stream_id w) as [key|] eqn:Ek.
    + destruct (s_get key _) as [st|] eqn:Est; [|done]. destruct (add_chk _ _ _) as [sw| |] eqn:E; try done. apply add_chk_ok in E. pose proof (proj1 (fo_streams _ H key st Est)).
      destruct (flow_set (flow c) (w_stream_id w) key st (mkStream sw (frame_size st) None) (connection_window (flow c)) (stream_window (flow c)) H Ek Est (fo_connection _ H) (fo_initial _ H)) as (Hok & Hc1 & Hc0 & Hne); [cbn; lia|done|].
      set (f' := mkFlow _ _ _ _) in *. intros [= <-].
      assert (Hacc : accounts (fun id => if w_stream_id w =? id then size_increment w else 0) c (with_flow f' c)).
      { unfold accounts. cbn [with_flow flow answers writer]. split_and!; try done. { unfold f'. cbn [connection_window]. rewrite (proj2 (Z.eqb_neq _ _)) by done. lia. }
        intros id Hid. destruct (Z.eqb_spec (w_stream_id w) id) as [<-|Hx]; [|rewrite Hne by congruence; case_match; lia]. rewrite Hc1, Hc0. unfold opened. rewrite Ek, bool_decide_true by (by eexists). cbn. lia. }
      destruct (_ >? 0); exact Hacc.
    + intros [= <-]. unfold accounts. rewrite (proj2 (Z.eqb_neq _ _)) by done. split_and!; try done; [lia|]. intros id Hid. unfold opened. destruct (Z.eqb_spec (w_stream_id w) id) as [<-|Hx]; [rewrite Ek, bool_decide_false by (by intros [? ?]); lia|case_match; lia].
Qed.
Lemma on_settings_accounts head frame c c' : flow_ok (flow c) -> bytes_ok frame -> on_settings head frame c = (c', Ok tt) -> accounts (fun _ => 0) c c'.
Proof.
  intros H Hb. unfold on_settings, mbind, M_bind, lift, modify. destruct (settings_load head frame) as [s| |] eqn:E; try done. pose proof (settings_load_initial _ _ _ Hb E) as Hi.
  destruct (is_ack s); [intros [= <-]; by apply accounts_quiet|]. intros [= <-]. destruct (initial_window_size s) as [w|] eqn:Ew; cbn [with_remote flow].
  - destruct (flow_same (flow c) (connection_window (flow c)) w (ordered_map (flow c)) H (fun _ => eq_refl) (fo_connection _ H) (Hi w Ew)) as [Hok Hcr].
    unfold accounts. rewrite answers_send. cbn [send with_flow with_remote flow flow_map connection_window]. split_and!; try done; [|lia|intros id _; rewrite Hcr; case_match; lia]. unfold answers. cbn [with_flow with_remote writer]. by rewrite app_nil_r.
  - apply accounts_quiet; [done|]. split; [done|]. rewrite answers_send. unfold answers. cbn [with_remote writer]. by rewrite app_nil_r.
Qed.
Lemma grant_other id h p : kind h <> KWindowUpdate -> grant id (h, p) = 0.
Proof. intros H. unfold grant, window_frame. cbn [fst]. by destruct (kind h). Qed.
Lemma handle_frame_accounts h p c c' : flow_ok (flow c) -> bytes_ok p -> handle_frame h p c = (c', Ok tt) -> accounts (fun id => grant id (h, p)) c c'.
Proof.
  intros H Hb. unfold handle_frame. destruct (kind h) eqn:Ek; intros Hrun;
    try (apply (accounts_ext (fun _ => 0)); [intros id; symmetry; apply grant_other; by rewrite Ek|]); try (injection Hrun as <-; by apply accounts_quiet).
  - apply accounts_quiet; [done|]. by eapply data_quiet.
  - apply accounts_quiet; [done|]. by eapply headers_frame_quiet.
  - by eapply on_settings_accounts.
  - apply accounts_quiet; [done|]. by eapply go_away_quiet.
  - unfold on_window_update, mbind, M_bind, lift in Hrun. destruct (window_update_load h p) as [w| |] eqn:E; try done. pose proof (window_update_positive _ _ _ E) as [Hw _].
    apply (accounts_ext (fun id => if w_stream_id w =? id then size_increment w else 0)); [|by apply window_updated_accounts].
    intros id. unfold grant, window_frame. cbn [fst snd]. by rewrite Ek, E.
  - apply accounts_quiet; [done|]. by eapply continuation_quiet.
Qed.
Lemma handle_frames_accounts fs c c' : flow_ok (flow c) -> Forall (fun f => bytes_ok f.2) fs -> handle_frames fs c = (c', Ok tt) -> accounts (fun id => grants id fs) c c'.
Proof.
  intros H Hb. revert c H. induction Hb as [|[h p] fs Hp Hb IH]; intros c H; cbn [handle_frames]; [intros [= <-]; by apply accounts_quiet|].
  unfold mbind, M_bind. cbn [fst snd] in *. destruct (handle_frame h p c) as [c1 [[]| |]] eqn:E; try done. apply handle_frame_accounts in E; [|done..]. intros Hr. apply IH in Hr; [|apply E].
  eapply accounts_ext; [|eapply accounts_trans; [exact E|exact Hr]]. done.
Qed.

(** ** Sending a chunk *)

(** A DATA frame of a response. *)
Definition chunk_frame (id : Z) (d : Data) : Prop := d_stream_id d = id /\ d_flags d = 0 /\ 0 < len (d_data d) <= 16384.
(** [n] bytes went out on a stream in the frames [ds]. *)
Record spent (id n : Z) (ds : list Data) (c c' : Conn) : Prop := {
  sp_ok : flow_ok (flow c');
  sp_map : flow_map (flow c') = flow_map (flow c);
  sp_initial : stream_window (flow c') = stream_window (flow c);
  sp_connection : connection_window (flow c') = connection_window (flow c) - n;
  sp_credit : credit id (flow c') = credit id (flow c) - n;
  sp_other id' : id' <> id -> credit id' (flow c') = credit id' (flow c);
  sp_writer : writer c' = writer c ++ (MData <$> ds);
  sp_frames : Forall (chunk_frame id) ds;
  sp_rest : requests c' = requests c /\ chans c' = chans c /\ stream_map c' = stream_map c /\ continuation c' = continuation c }.
Lemma spent_trans id n1 n2 ds1 ds2 a b c : spent id n1 ds1 a b -> spent id n2 ds2 b c -> spent id (n1 + n2) (ds1 ++ ds2) a c.
Proof.
  intros [H1 H2 H3 H4 H5 H6 H7 H8 (H9 & H10 & H11 & H12)] [K1 K2 K3 K4 K5 K6 K7 K8 (K9 & K10 & K11 & K12)]. split; try congruence; try lia.
  - intros id' Hne. by rewrite K6, H6.
  - by rewrite K7, H7, fmap_app, app_assoc.
  - by apply Forall_app.
  - split_and!; congruence.
Qed.
Lemma poll_window_spec id n c :
  flow_ok (flow c) -> opened id (flow c) = true -> 0 < n ->
  let a := Z.min (Z.min (credit id (flow c)) (connection_window (flow c))) (Z.min n 16384) in
  exists c', spent id a [] c c' /\ 0 <= a <= n /\ a <= 16384 /\ poll_window id n c = (c', Ok (if a =? 0 then None else Some a)).
Proof.
  intros H Ho Hn. cbv zeta. unfold opened in Ho. apply bool_decide_eq_true in Ho as [key Ek]. destruct (fo_key _ H id key Ek) as [st Est]. destruct (fo_streams _ H key st Est) as [Hw Hfs]. pose proof (fo_connection _ H) as Hcw.
  assert (Hcr : credit id (flow c) = window st) by (unfold credit; rewrite Ek; cbn [mbind option_bind]; by rewrite Est). rewrite Hcr.
  set (a := Z.min (Z.min (window st) (connection_window (flow c))) (Z.min n 16384)). assert (Ha : 0 <= a <= n /\ a <= 16384 /\ a <= window st /\ a <= connection_window (flow c)) by lia.
  assert (Hgo : forall st' cw, window st' = window st - a -> frame_size st' = frame_size st -> cw = connection_window (flow c) - a ->
    spent id a [] c (with_flow (mkFlow cw (stream_window (flow c)) (s_set key st' (ordered_map (flow c))) (flow_map (flow c))) c)).
  { intros st' cw Hw' Hf' ->. destruct (flow_set (flow c) id key st st' (connection_window (flow c) - a) (stream_window (flow c)) H Ek Est) as (Hok & Hc1 & Hc0 & Hne); [lia|apply (fo_initial _ H)|lia|done|].
    split; try done; cbn [with_flow flow writer]; first [lia|by rewrite app_nil_r|constructor]. }
  unfold poll_window. rewrite Ek. cbn [mbind option_bind]. rewrite Est. cbn [fmap option_fmap option_map]. rewrite Hfs. destruct (Z.eqb_spec a 0) as [E0|E0].
  - assert (Hz : (connection_window (flow c) =? 0) || (window st =? 0) = true) by (apply orb_true_iff; rewrite !Z.eqb_eq; lia). rewrite Hz. eexists. split; [|split; [lia|split; [lia|reflexivity]]]. apply Hgo; cbn; lia.
  - assert (Hz : (connection_window (flow c) =? 0) || (window st =? 0) = false) by (apply orb_false_iff; rewrite !Z.eqb_neq; lia). rewrite Hz. fold a. eexists. split; [|split; [lia|split; [lia|reflexivity]]]. apply Hgo; cbn; lia.
Qed.
Lemma spent_send id n c c' b : spent id n [] c c' -> 0 < len b <= 16384 -> spent id n [mkData id b 0 None] c (send (MData (mkData id b 0 None)) c').
Proof.
  intros [H1 H2 H3 H4 H5 H6 H7 H8 H9] Hb. split; try done; cbn [send writer]; [rewrite H7; cbn; by rewrite app_nil_r|by constructor].
Qed.
Lemma spent_refl id c : flow_ok (flow c) -> spent id 0 [] c c.
Proof. intros H. split; try done; first [lia|by rewrite app_nil_r|constructor]. Qed.
(** The whole loop sends what the windows allow, in order. *)
Lemma send_chunk_spec id fuel b c :
  id <> 0 -> flow_ok (flow c) -> opened id (flow c) = true -> (length b <= fuel)%nat ->
  let n := Z.min (len b) (Z.min (credit id (flow c)) (connection_window (flow c))) in
  exists c' ds, spent id n ds c c' /\ mjoin (d_data <$> ds) = take (Z.to_nat n) b /\ send_chunk fuel id b c = (c', Ok (drop (Z.to_nat n) b)).
Proof.
  intros Hid. revert b c. induction fuel as [|fuel IH]; intros b c H Ho Hf; cbv zeta; pose proof (credit_nonneg id _ H) as Hcr; pose proof (fo_connection _ H) as Hcw.
  { destruct b; [|simpl in Hf; lia]. exists c, []. rewrite len_nil, Z.min_l by lia. split; [by apply spent_refl|done]. }
  destruct b as [|x b0]; [exists c, []; rewrite len_nil, Z.min_l by lia; split; [by apply spent_refl|done]|]. set (b := x :: b0) in *. assert (Hlen : 0 < len b) by (unfold b; rewrite len_cons; pose proof (len_nonneg b0); lia).
  destruct (poll_window_spec id (len b) c H Ho Hlen) as (c1 & Hs & Ha & Ha2 & Hpoll). set (a := Z.min (Z.min (credit id (flow c)) (connection_window (flow c))) (Z.min (len b) 16384)) in *.
  change (send_chunk (S fuel) id b) with (o ← poll_window id (len b); match o with None => mret b | Some aval => data ← lift (data_new id (take (Z.to_nat aval) b)); modify (send (MData data)) ;; send_chunk fuel id (drop (Z.to_nat aval) b) end).
  unfold mbind, M_bind at 1. rewrite Hpoll. destruct (Z.eqb_spec a 0) as [E0|E0].
  - exists c1, []. replace (Z.min (len b) (Z.min (credit id (flow c)) (connection_window (flow c)))) with 0 by lia. rewrite E0 in Hs. done.
  - assert (Hta : len (take (Z.to_nat a) b) = a) by (apply len_take; lia).
    assert (Hnew : data_new (E := H2Error) id (take (Z.to_nat a) b) = Ok (mkData id (take (Z.to_nat a) b) 0 None)) by (unfold data_new, is_zero; by rewrite (proj2 (Z.eqb_neq _ _) Hid)).
    unfold lift. rewrite Hnew. unfold M_bind, modify.
    pose proof (spent_send id a c c1 (take (Z.to_nat a) b) Hs ltac:(lia)) as Hs1. set (c2 := send _ c1) in *.
    assert (Hdl : len (drop (Z.to_nat a) b) = len b - a) by (pose proof (take_drop (Z.to_nat a) b) as E; apply (f_equal len) in E; rewrite len_app in E; lia).
    destruct (IH (drop (Z.to_nat a) b) c2) as (c3 & ds & Hs2 & Hj & Hrun); [apply (sp_ok _ _ _ _ _ Hs1)|unfold opened; by rewrite (sp_map _ _ _ _ _ Hs1)|unfold len in Hdl, Hlen; lia|].
    rewrite Hdl, (sp_credit _ _ _ _ _ Hs1), (sp_connection _ _ _ _ _ Hs1) in Hs2, Hj, Hrun.
    set (m := Z.min (len b - a) (Z.min (credit id (flow c) - a) (connection_window (flow c) - a))) in *.
    assert (Hm : Z.min (len b) (Z.min (credit id (flow c)) (connection_window (flow c))) = a + m) by lia. assert (Hm0 : 0 <= m) by lia.
    exists c3, (mkData id (take (Z.to_nat a) b) 0 None :: ds). rewrite Hm. split; [exact (spent_trans id a m [_] ds c c2 c3 Hs1 Hs2)|]. rewrite Z2Nat.inj_add by lia. split.
    + rewrite fmap_cons. change (mjoin (?u :: ?v)) with (u ++ mjoin v). cbn [d_data]. rewrite Hj. apply take_take_drop.
    + rewrite Hrun. by rewrite drop_drop.
Qed.

(** ** The invariant of a connection *)

Definition id_ok (id : Z) : Prop := 0 < id < 2 ^ 31.
Record conn_ok (c : Conn) : Prop := {
  co_flow : flow_ok (flow c);
  co_requests : Forall (fun rq => id_ok (rq_stream rq)) (requests c);
  co_continuation h p : continuation c = Some (h, p) -> id_ok (h_stream_id h) }.

(** The frames of a reader: their identifiers have 31 bits, their bytes are bytes. *)
Definition frame_read (f : Head * bytes) : Prop := stream_id_ok (head_stream_id f.1) /\ bytes_ok f.2.
Lemma head_parse_id {E} b h : head_parse (E := E) b = Ok h -> stream_id_ok (head_stream_id h).
Proof.
  unfold head_parse. destruct b as [|k [|f rest]]; try done. destruct (6 <=? _); [|done]. unfold stream_id_parse. destruct (slice 0 4 rest) as [w|]; [|done]. cbn [mbind outcome_bind]. intros [= <-]. cbn [head_stream_id].
  change (2 ^ 32 - 1 - STREAM_ID_MASK) with (Z.ones 31). rewrite Z.land_ones by lia. apply Z.mod_pos_bound. lia.
Qed.
Lemma finish_frame_read n buf r f : bytes_ok buf -> finish_frame (E := H2Error) n buf = (r, Ok f) -> bytes_ok r.2 /\ (forall x, f = Some x -> frame_read x).
Proof.
  intros Hb. unfold finish_frame. destruct (_ <? _); [intros [= <- <-]; done|]. destruct (head_parse _) as [h| |] eqn:E; intros [= <- <-]. split; [cbn; auto with xitca|]. intros x [= <-]. split; [by eapply head_parse_id|cbn; auto with xitca].
Qed.
Lemma read_frame_read r r' f : bytes_ok r.2 -> read_frame (E := H2Error) r = (r', Ok f) -> bytes_ok r'.2 /\ (forall x, f = Some x -> frame_read x).
Proof.
  destruct r as [n buf]. cbn [snd]. intros Hb. unfold read_frame. destruct (n =? 0); [|by apply finish_frame_read]. destruct (_ <? 3); [intros [= <- <-]; done|]. apply finish_frame_read. auto with xitca.
Qed.
Lemma read_loop_read fuel r : bytes_ok r.2 -> Forall frame_read (read_loop fuel r).1 /\ bytes_ok (read_loop fuel r).2.2.
Proof.
  revert r. induction fuel as [|fuel IH]; intros r Hb; [done|]. cbn [read_loop]. destruct (read_frame r) as [r1 [[f|]| |]] eqn:E.
  - apply read_frame_read in E as [Hb1 Hf]; [|done]. specialize (IH r1 Hb1). destruct (read_loop fuel r1) as [fs st]. destruct IH as [IH1 IH2]. split; [constructor; [by apply Hf|done]|done].
  - apply read_frame_read in E as [Hb1 _]; [|done]. split; [constructor|done].
  - split; [constructor|]. destruct r as [n buf]. cbn [fst snd] in *. unfold read_frame, finish_frame in E. repeat case_match; try done; injection E as <- _ ; cbn; auto with xitca.
  - split; [constructor|]. destruct r as [n buf]. cbn [fst snd] in *. unfold read_frame, finish_frame in E. repeat case_match; try done; injection E as <- ; cbn; auto with xitca.
Qed.

(** What the handlers add to the requests. *)
Definition extends (c c' : Conn) : Prop :=
  (exists l, requests c' = requests c ++ l /\ Forall (fun rq => id_ok (rq_stream rq)) l) /\ (forall h p, continuation c' = Some (h, p) -> id_ok (h_stream_id h)).
Lemma extends_same c c' : conn_ok c -> requests c' = requests c -> continuation c' = continuation c \/ continuation c' = None -> extends c c'.
Proof.
  intros H Hr Hc. split; [exists []; rewrite Hr, app_nil_r; split; [done|constructor]|]. intros h p Hk. destruct Hc as [Hc | Hc]; rewrite Hc in Hk; [by apply (co_continuation c H h p)|done].
Qed.
Lemma header_frame_extends id h c c0 c' : conn_ok c0 -> requests c = requests c0 -> continuation c = continuation c0 \/ continuation c = None -> id_ok id ->
  handle_header_frame id h c = (c', Ok tt) -> extends c0 c'.
Proof.
  intros H Hr Hc Hid. unfold handle_header_frame. destruct (stream_map c !! id); [intros [= <-]; by apply extends_same|]. destruct (ps_method _) as [m|]; [|done].
  destruct (headers_is_end_stream h); intros [= <-]; (split; [eexists; split; [cbn; by rewrite Hr|by constructor]|]); intros h' p Hk; cbn in Hk; (destruct Hc as [Hc | Hc]; rewrite Hc in Hk; [by apply (co_continuation c0 H h' p)|done]).
Qed.
Lemma headers_load_id head src h p : headers_load (P := Pseudo) head src = Ok (h, p) -> h_stream_id h = head_stream_id head /\ head_stream_id head <> 0.
Proof.
  unfold headers_load, is_zero. destruct (Z.eqb_spec (head_stream_id head) 0) as [|Hne]; [done|]. intros Hl. split; [|done]. revert Hl.
  destruct (if has_flag _ PADDED then _ else _) as [[pad s1]| |]; cbn [mbind outcome_bind]; try done. destruct (if has_flag _ PRIORITY then _ else _) as [[dep s2]| |]; cbn [mbind outcome_bind]; try done.
  destruct (if pad >? 0 then _ else _) as [s3| |]; cbn [mbind outcome_bind]; try done. by intros [= <- _].
Qed.
Lemma load_hpack_id max (h : Headers (P := Pseudo)) src d h' src' d' r : load_hpack max h src d = ((h', src', d'), r) -> h_stream_id h' = h_stream_id h.
Proof. unfold load_hpack. destruct (block_load _ _ _ _) as [[[b s1] d1] r1]. by intros [= <- _ _ _]. Qed.
Lemma handle_frame_extends h p c c' : conn_ok c -> frame_read (h, p) -> handle_frame h p c = (c', Ok tt) -> extends c c'.
Proof.
  intros H [Hid _]. cbn [fst] in Hid. unfold handle_frame. destruct (kind h); try by (intros [= <-]; apply extends_same; auto).
  - unfold on_data, mbind, M_bind, lift. destruct (data_load h p) as [d| |]; try done. set (step := match d_data d with [] => mret (is_end_stream d) | payload => push_data (d_stream_id d) payload (is_end_stream d) end).
    assert (Hs : forall c1 r, step c = (c1, r) -> requests c1 = requests c /\ continuation c1 = continuation c).
    { intros c1 r. unfold step. destruct (d_data d); [by intros [= <- _]|]. unfold push_data. destruct (_ ≫= _) as [[ch b0]|]; [|by intros [= <- _]]. destruct (ch_rx b0); by intros [= <- _]. }
    destruct (step c) as [c1 [e| |]]; try done. destruct (Hs _ _ eq_refl) as [H1 H2]. destruct e; intros [= <-]; [|by apply extends_same; auto].
    unfold end_body. destruct (stream_map c1 !! _); apply extends_same; auto.
  - unfold on_headers_frame, mbind, M_bind, lift. destruct (headers_load h p) as [[hd pl]| |] eqn:E; try done. apply headers_load_id in E as [E1 E2]. assert (Hi : id_ok (h_stream_id hd)) by (unfold id_ok, stream_id_ok in *; lia).
    unfold headers_loaded. destruct (load_hpack _ _ _ _) as [[[h' p'] d] [a| |]] eqn:El; try done. apply load_hpack_id in El. destruct (is_end_headers h').
    + apply header_frame_extends; [done|done|by left|by rewrite El].
    + intros [= <-]. split; [exists []; rewrite app_nil_r; split; [done|constructor]|]. cbn. intros h0 p0 [= <- <-]. by rewrite El.
  - unfold on_settings, mbind, M_bind, lift, modify. destruct (settings_load h p) as [s| |]; try done. destruct (is_ack s); intros [= <-]; [by apply extends_same; auto|].
    apply extends_same; [done|..]; destruct (initial_window_size s); auto.
  - unfold on_go_away, mbind, M_bind, lift. destruct (go_away_load p); try done. case_match; intros [= <-]. by apply extends_same; auto.
  - unfold on_window_update, mbind, M_bind, lift. destruct (window_update_load h p) as [w| |]; try done. unfold window_updated.
    destruct (_ =? 0); [destruct (add_chk _ _ _); try done; destruct (wake_first _ _); intros [= <-]; apply extends_same; auto|].
    destruct (flow_map _ !! _); [|intros [= <-]; apply extends_same; auto]. destruct (s_get _ _); [|done]. destruct (add_chk _ _ _); try done. intros [= <-]. destruct (_ >? 0); apply extends_same; auto.
  - unfold on_continuation. destruct (continuation c) as [[hd pl]|] eqn:Ec; [|done]. pose proof (co_continuation c H hd pl Ec) as Hi. cbv zeta. destruct (negb _); [done|].
    destruct (load_hpack _ _ _ _) as [[[h' p'] d] [a|e|]] eqn:El; try done; apply load_hpack_id in El.
    + apply header_frame_extends; [done|done|by right|done].
    + destruct e as [|[]]; try done. destruct (_ =? _); [done|]. intros [= <-]. split; [exists []; rewrite app_nil_r; split; [done|constructor]|]. cbn. intros h0 p0 [= <- <-]. by rewrite El.
Qed.
Lemma conn_ok_extends g c c' : conn_ok c -> accounts g c c' -> extends c c' -> conn_ok c'.
Proof. intros [H1 H2 H3] (K1 & _) [(l & Hl & Hok) Hc]. split; [done| |done]. rewrite Hl. by apply Forall_app. Qed.
Lemma handle_frames_extends fs c c' : conn_ok c -> Forall frame_read fs -> handle_frames fs c = (c', Ok tt) -> conn_ok c' /\ exists l, requests c' = requests c ++ l.
Proof.
  intros H Hfs. revert c H. induction Hfs as [|[h p] fs Hp Hfs IH]; intros c H; cbn [handle_frames]; [intros [= <-]; split; [done|]; exists []; by rewrite app_nil_r|].
  unfold mbind, M_bind. cbn [fst snd] in *. destruct (handle_frame h p c) as [c1 [[]| |]] eqn:E; try done. pose proof (handle_frame_extends _ _ _ _ H Hp E) as Hx.
  apply handle_frame_accounts in E; [|apply H|apply Hp]. intros Hr. destruct (IH c1 (conn_ok_extends _ _ _ H E Hx) Hr) as [H' (l & Hl)]. split; [done|]. destruct Hx as [(l1 & Hl1 & _) _]. exists (l1 ++ l). by rewrite Hl, Hl1, app_assoc.
Qed.

(** ** Every step of the system keeps the accounts *)

Record sys_ok (s : Sys) : Prop := {
  so_conn : conn_ok (conn s);
  so_reader : reader_ok (reader s);
  so_tasks : length (tasks s) = length (requests (conn s)) }.
(** The bytes of DATA frames sent on the streams [p] selects. *)
Definition sent (p : Z -> bool) (ms : list Message) : Z :=
  foldr (fun m n => (match m with MData d => if p (d_stream_id d) then len (d_data d) else 0 | _ => 0 end) + n) 0 ms.
Definition on (id : Z) : Z -> bool := fun i => i =? id.
Definition any : Z -> bool := fun _ => true.
Lemma sent_app p l k : sent p (l ++ k) = sent p l + sent p k.
Proof. induction l as [|m l IH]; [done|]. cbn [app sent foldr]. fold (sent p (l ++ k)). fold (sent p l). lia. Qed.
Lemma sent_answers p ms : sent p (filter is_answer ms) = sent p ms.
Proof.
  induction ms as [|m ms IH]; [done|]. destruct (is_answer m) eqn:E; [rewrite filter_cons_True by (by rewrite E)|rewrite filter_cons_False by (rewrite E; by intros [])]; cbn [sent foldr]; fold (sent p (filter is_answer ms)); fold (sent p ms); [lia|]. destruct m; try done; lia.
Qed.
Lemma sent_chunk p id ds : Forall (chunk_frame id) ds -> sent p (MData <$> ds) = if p id then len (mjoin (d_data <$> ds)) else 0.
Proof.
  induction 1 as [|d ds (Hid & _) _ IH]; [by destruct (p id)|]. rewrite !fmap_cons. cbn [sent foldr]. fold (sent p (MData <$> ds)). change (mjoin (?u :: ?v)) with (u ++ mjoin v). rewrite IH, Hid, len_app. destruct (p id); lia.
Qed.
(** The frames an event brings, and the window of a stream it opens. *)
Definition frames_in (ev : Event) (s : Sys) : list (Head * bytes) :=
  match ev with Segment seg => (read_loop (S (length ((reader s).2 ++ seg))) ((reader s).1, (reader s).2 ++ seg)).1 | _ => [] end.
Definition opening (id : Z) (ev : Event) (s : Sys) : Z :=
  match ev with
  | Respond k _ _ size =>
      match requests (conn s) !! k, size with
      | Some rq, SizeNone => 0
      | Some rq, _ => if rq_stream rq =? id then stream_window (flow (conn s)) else 0
      | None, _ => 0
      end
  | _ => 0
  end.
Definition event_ok (ev : Event) : Prop := match ev with Segment seg => bytes_ok seg | _ => True end.
(** The accounts of the connection and of a stream. *)
Definition connection_account (s : Sys) : Z := connection_window (flow (conn s)) + sent any (writer (conn s)).
Definition stream_account (id : Z) (s : Sys) : Z := credit id (flow (conn s)) + sent (on id) (writer (conn s)).
Definition data_ok (c : Conn) : Prop := Forall (fun m => match m with MData d => exists id, id_ok id /\ chunk_frame id d | _ => True end) (answers c).

Lemma open_stream_ok id f : flow_ok f ->
  flow_ok (open_stream id f) /\ credit id (open_stream id f) = stream_window f /\ forall id', id' <> id -> credit id' (open_stream id f) = credit id' f.
Proof.
  intros H. unfold open_stream. pose proof (s_insert_fresh (mkStream (stream_window f) 16384 None) (ordered_map f)) as Hf. pose proof (s_get_insert (mkStream (stream_window f) 16384 None) (ordered_map f)) as Hg.
  destruct (s_insert _ _) as [key s]. cbn [fst snd] in *.
  assert (Hkey : forall id' k, flow_map f !! id' = Some k -> k <> key) by (intros id' k Hk ->; destruct (fo_key f H id' key Hk) as [st Hst]; congruence).
  split; [|split].
  - split; cbn; try apply H.
    + intros id' k. rewrite lookup_insert, Hg. case_decide; [intros [= <-]; rewrite decide_True by done; by eexists|]. intros Hk. case_decide; [by eexists|]. by apply (fo_key f H id').
    + intros i j k. rewrite !lookup_insert. repeat case_decide; subst; try done; [intros [= <-] Hk|intros Hk [= <-]|apply (fo_inj f H)]; exfalso; by eapply Hkey.
    + intros k st. rewrite Hg. case_decide; [intros [= <-]; cbn; split; [apply H|done]|apply (fo_streams f H)].
  - unfold credit. cbn [flow_map ordered_map]. rewrite lookup_insert_eq. cbn [mbind option_bind]. rewrite Hg, decide_True by done. done.
  - intros id' Hne. unfold credit. cbn [flow_map ordered_map]. rewrite lookup_insert_ne by done. destruct (flow_map f !! id') as [k|] eqn:E; [|done]. cbn [mbind option_bind]. rewrite Hg, decide_False; [done|]. by eapply Hkey.
Qed.
Lemma drop_guard_ok id c c' : flow_ok (flow c) -> drop_guard id c = (c', Ok tt) ->
  flow_ok (flow c') /\ connection_window (flow c') = connection_window (flow c) /\ writer c' = writer c /\ requests c' = requests c /\ continuation c' = continuation c /\
  (forall id', credit id' (flow c') <= credit id' (flow c)) /\ (forall id', id' <> id -> flow_map (flow c') !! id' = flow_map (flow c) !! id').
Proof.
  intros H. unfold drop_guard. destruct (flow_map (flow c) !! id) as [key|] eqn:Ek; [|intros [= <-]; done]. destruct (s_get key _) as [st|] eqn:Est; [|done]. intros [= <-]. cbn [with_flow flow writer requests continuation].
  assert (Hne : forall id' k, id' <> id -> flow_map (flow c) !! id' = Some k -> k <> key) by (intros id' k Hn Hk ->; apply Hn; by apply (fo_inj _ H id' id key)).
  split_and!; try done.
  - split; cbn; try apply H.
    + intros id' k. rewrite lookup_delete. case_decide; [done|]. intros Hk. rewrite s_get_remove, decide_False by (by eapply Hne). by apply (fo_key _ H id').
    + intros i j k. rewrite !lookup_delete. repeat case_decide; try done. apply (fo_inj _ H).
    + intros k st0. rewrite s_get_remove. case_decide; [done|]. apply (fo_streams _ H).
  - intros id'. pose proof (credit_nonneg id' _ H) as Hp. unfold credit at 1. cbn [flow_map ordered_map]. rewrite lookup_delete. case_decide; [by cbn|]. unfold credit. destruct (flow_map (flow c) !! id') as [k|] eqn:E; [|done]. cbn [mbind option_bind].
    rewrite s_get_remove, decide_False by (by eapply Hne). done.
  - intros id' Hn. cbn. by rewrite lookup_delete_ne.
Qed.
(** A chunk can only be sent on a stream with an entry. *)
Lemma send_chunk_opened fuel id b c c' r : flow_ok (flow c) -> b <> [] -> (length b <= fuel)%nat -> send_chunk fuel id b c = (c', Ok r) -> opened id (flow c) = true.
Proof.
  intros H Hb Hf. destruct b as [|x b]; [done|]. destruct fuel as [|fuel]; [simpl in Hf; lia|]. cbn [send_chunk]. unfold mbind, M_bind, poll_window, opened. destruct (flow_map (flow c) !! id); [done|]. done.
Qed.
Lemma answers_data c c' ds : writer c' = writer c ++ (MData <$> ds) -> answers c' = answers c ++ (MData <$> ds).
Proof.
  intros H. unfold answers. rewrite H, filter_app. f_equal. clear. induction ds as [|d ds IH]; [done|]. rewrite fmap_cons, filter_cons_True by done. by rewrite IH.
Qed.
Lemma chunk_step k b rq s c' r :
  sys_ok s -> data_ok (conn s) -> requests (conn s) !! k = Some rq -> send_chunk (length b) (rq_stream rq) b (conn s) = (c', Ok r) ->
  let s' := mkSys c' (reader s) (<[k := Sending r]> (tasks s)) in
  sys_ok s' /\ data_ok c' /\ connection_account s' = connection_account s /\ forall id, stream_account id s' = stream_account id s.
Proof.
  intros [[Hf Hr Hc] Hb Ht] Hd Hrq Hrun. cbv zeta. pose proof (Forall_lookup_1 _ _ _ _ Hr Hrq) as Hid. cbn in Hid.
  destruct (decide (b = [])) as [->|Hne].
  { injection Hrun as <- <-. split; [|split; [done|split; done]]. split; [done|done|]. cbn. by rewrite length_insert. }
  pose proof (send_chunk_opened _ _ _ _ _ _ Hf Hne (Nat.le_refl _) Hrun) as Ho.
  destruct (send_chunk_spec (rq_stream rq) (length b) b (conn s)) as (c1 & ds & Hs & Hj & Hrun'); [unfold id_ok in Hid; lia|done|done|lia|]. rewrite Hrun in Hrun'. injection Hrun' as <- ->.
  set (n := Z.min (len b) (Z.min (credit (rq_stream rq) (flow (conn s))) (connection_window (flow (conn s))))) in *.
  assert (Hn : len (mjoin (d_data <$> ds)) = n) by (rewrite Hj; apply len_take; pose proof (credit_nonneg (rq_stream rq) _ Hf); pose proof (fo_connection _ Hf); pose proof (len_nonneg b); lia).
  destruct Hs as [S1 S2 S3 S4 S5 S6 S7 S8 (S9 & S10 & S11 & S12)]. split; [|split; [|split]].
  - split; [split; cbn [conn]; [done|by rewrite S9|rewrite S12; exact Hc]|done|]. cbn. by rewrite length_insert, S9.
  - unfold data_ok. rewrite (answers_data _ _ _ S7). apply Forall_app. split; [done|]. apply Forall_fmap. eapply Forall_impl; [exact S8|]. intros d Hdd. cbn. by exists (rq_stream rq).
  - unfold connection_account. cbn [conn]. rewrite S4, S7, sent_app, (sent_chunk any (rq_stream rq)) by done. cbn [any]. lia.
  - intros id. unfold stream_account. cbn [conn]. rewrite S7, sent_app, (sent_chunk (on id) (rq_stream rq)) by done. unfold on. destruct (Z.eqb_spec (rq_stream rq) id) as [<-|Hx]; [lia|]. rewrite S6 by congruence. lia.
Qed.
Lemma reader_ok_app r seg : reader_ok r -> bytes_ok seg -> reader_ok (r.1, r.2 ++ seg).
Proof. intros [Hb Hn] Hs. split; [by apply bytes_ok_app|done]. Qed.
Lemma read_loop_ok fuel r : reader_ok r -> reader_ok (read_loop fuel r).2.
Proof. intros Hr. pose proof (read_loop_cut fuel r Hr) as H. destruct (read_loop fuel r) as [fs st], (cut_all fuel (raw_of r)) as [gs w]. apply H. Qed.
Lemma segment_step seg s s' :
  sys_ok s -> data_ok (conn s) -> bytes_ok seg -> sys_step (Segment seg) s = Ok s' ->
  sys_ok s' /\ data_ok (conn s') /\ connection_account s' = connection_account s + grants 0 (frames_in (Segment seg) s) /\
  (forall id, id <> 0 -> stream_account id s' <= stream_account id s + grants id (frames_in (Segment seg) s)).
Proof.
  intros [Hc Hb Ht] Hd Hseg. cbn [sys_step]. unfold of_result, try_decode. cbn [snd]. destruct (try_decode_loop _ _ _) as [c' [r'| |]] eqn:E; try done. intros [= <-].
  apply try_decode_loop_frames in E as [E ->]. pose proof (reader_ok_app _ seg Hb Hseg) as Hr'. pose proof (proj1 Hr') as Hb'.
  destruct (read_loop_read (S (length ((reader s).2 ++ seg))) _ Hb') as [Hfr _]. pose proof (read_loop_ok (S (length ((reader s).2 ++ seg))) _ Hr') as Hrd. unfold frames_in. set (fs := (read_loop _ _).1) in *.
  destruct (handle_frames_extends fs (conn s) c' Hc Hfr E) as [Hc' (l & Hl)]. apply handle_frames_accounts in E; [|apply Hc|eapply Forall_impl; [exact Hfr|]; by intros f [_ ?]]. destruct E as (A1 & A2 & A3 & A4 & A5).
  split; [split; [done|done|cbn; rewrite length_app, length_replicate, Hl, length_app; lia]|]. split; [cbn [conn]; unfold data_ok; by rewrite A2|]. split.
  - unfold connection_account. cbn [conn]. rewrite A4. rewrite <- (sent_answers any (writer c')), <- (sent_answers any (writer (conn s))). fold (answers c'). fold (answers (conn s)). rewrite A2. lia.
  - intros id Hid. unfold stream_account. cbn [conn]. rewrite A5 by done. rewrite <- (sent_answers (on id) (writer c')), <- (sent_answers (on id) (writer (conn s))). fold (answers c'). fold (answers (conn s)). rewrite A2.
    assert (0 <= grants id fs) by (clear; induction fs as [|f fs IH]; [done|]; cbn [grants foldr]; fold (grants id fs); pose proof (grant_nonneg id f); lia). case_match; lia.
Qed.
Lemma sent_send p m c : sent p (writer (send m c)) = sent p (writer c) + sent p [m].
Proof. cbn [send writer]. apply sent_app. Qed.
Lemma respond_step k status m size rq s :
  sys_ok s -> data_ok (conn s) -> requests (conn s) !! k = Some rq ->
  let c' := respond (rq_stream rq) status m size (conn s) in
  conn_ok c' /\ requests c' = requests (conn s) /\ data_ok c' /\ connection_window (flow c') = connection_window (flow (conn s)) /\ sent any (writer c') = sent any (writer (conn s)) /\
  forall id, credit id (flow c') + sent (on id) (writer c') <= stream_account id s + opening id (Respond k status m size) s.
Proof.
  intros [[Hf Hr Hc] Hb Ht] Hd Hrq. cbv zeta. unfold opening. rewrite Hrq.
  assert (Hhead : forall h : Headers, data_ok (send (MHead h) (conn s))) by (intros h; unfold data_ok; rewrite answers_send; apply Forall_app; split; [done|by repeat constructor]).
  assert (Hopen : conn_ok (with_flow (open_stream (rq_stream rq) (flow (conn s))) (conn s)) /\
    forall id, credit id (open_stream (rq_stream rq) (flow (conn s))) <= credit id (flow (conn s)) + (if rq_stream rq =? id then stream_window (flow (conn s)) else 0)).
  { destruct (open_stream_ok (rq_stream rq) _ Hf) as (O1 & O2 & O3). split; [split; done|]. intros id. destruct (Z.eqb_spec (rq_stream rq) id) as [<-|Hx]; [rewrite O2; pose proof (credit_nonneg (rq_stream rq) _ Hf); lia|rewrite O3 by congruence; lia]. }
  destruct Hopen as [[O1 O2 O3] O4]. unfold respond, stream_account.
  assert (Hcw : connection_window (open_stream (rq_stream rq) (flow (conn s))) = connection_window (flow (conn s))) by (unfold open_stream; by destruct (s_insert _ _)).
  destruct size; (split; [split; try done|]); (split; [done|]); (split; [apply Hhead|]); (split; [done|]); (split; [cbn [send with_flow flow writer]; rewrite sent_app; cbn [sent foldr]; lia|]); intros id; cbn [send with_flow flow writer]; rewrite sent_app; cbn [sent foldr]; specialize (O4 id); lia.
Qed.
Definition reader_after (ev : Event) (s : Sys) : Z * bytes :=
  match ev with Segment seg => (read_loop (S (length ((reader s).2 ++ seg))) ((reader s).1, (reader s).2 ++ seg)).2 | _ => reader s end.
Lemma sys_step_reader ev s s' : sys_step ev s = Ok s' -> reader s' = reader_after ev s.
Proof.
  destruct ev; cbn [sys_step reader_after]; unfold of_result; try (repeat case_match; try done; by intros [= <-]).
  unfold try_decode. cbn [snd]. destruct (try_decode_loop _ _ _) as [c' [r'| |]] eqn:E; try done. intros [= <-]. apply try_decode_loop_frames in E as [_ ->]. done.
Qed.
Lemma body_poll_next_quiet ch c : quiet c (body_poll_next ch c).1 /\ requests (body_poll_next ch c).1 = requests c /\ continuation (body_poll_next ch c).1 = continuation c.
Proof.
  unfold body_poll_next. destruct (chans c !! ch) as [b|]; [|done]. destruct (ch_queue b); [done|]. split; [|done]. cbn [fst]. eapply quiet_trans; [|apply quiet_send; done]. done.
Qed.
Lemma quiet_step c' s : sys_ok s -> data_ok (conn s) -> quiet (conn s) c' -> requests c' = requests (conn s) -> continuation c' = continuation (conn s) ->
  conn_ok c' /\ data_ok c' /\ connection_window (flow c') = connection_window (flow (conn s)) /\ (forall p, sent p (writer c') = sent p (writer (conn s))) /\ forall id, credit id (flow c') = credit id (flow (conn s)).
Proof.
  intros [[Hf Hr Hc] Hb Ht] Hd [Q1 Q2] Hrq Hk. rewrite Q1. split; [split; [by rewrite Q1|by rewrite Hrq|rewrite Hk; exact Hc]|]. split; [unfold data_ok; by rewrite Q2|]. split; [done|]. split; [|done].
  intros p. rewrite <- (sent_answers p (writer c')), <- (sent_answers p (writer (conn s))). fold (answers c'). fold (answers (conn s)). by rewrite Q2.
Qed.
Definition kept (ev : Event) (s s' : Sys) : Prop :=
  sys_ok s' /\ data_ok (conn s') /\ connection_account s' = connection_account s + grants 0 (frames_in ev s) /\
  forall id, id <> 0 -> stream_account id s' <= stream_account id s + grants id (frames_in ev s) + opening id ev s.
Lemma finish_step k rq s c' : sys_ok s -> data_ok (conn s) -> requests (conn s) !! k = Some rq -> finish_body (rq_stream rq) (conn s) = (c', Ok tt) ->
  kept (Finish k) s (mkSys c' (reader s) (<[k := Done]> (tasks s))).
Proof.
  intros [[Hf Hr Hc] Hb Ht] Hd Hrq. unfold finish_body, modify, mbind, M_bind. intros Hrun. set (c1 := send _ (conn s)) in *.
  destruct (drop_guard_ok (rq_stream rq) c1 c' Hf Hrun) as (D1 & D2 & D3 & D4 & D5 & D6 & _). split; [|split; [|split]].
  - split; [split; [done|cbn [conn]; by rewrite D4|cbn [conn]; rewrite D5; exact Hc]|done|]. cbn. rewrite length_insert, D4. exact Ht.
  - cbn [conn]. unfold data_ok, answers. rewrite D3. change (filter is_answer (writer c1)) with (answers c1). unfold c1. rewrite answers_send. apply Forall_app. split; [done|by repeat constructor].
  - unfold connection_account. cbn [conn frames_in grants foldr]. rewrite D2, D3. unfold c1. rewrite sent_send. cbn [sent foldr send flow]. lia.
  - intros id _. unfold stream_account. cbn [conn frames_in grants foldr opening]. rewrite D3. specialize (D6 id). unfold c1 in *. rewrite sent_send. cbn [sent foldr send flow] in *. lia.
Qed.
Lemma sys_step_kept ev s s' : sys_ok s -> data_ok (conn s) -> event_ok ev -> sys_step ev s = Ok s' -> kept ev s s'.
Proof.
  intros Hs Hd Hev. destruct ev as [seg|k st m size|k|k b|k|k|ch|ch|k].
  - intros Hrun. destruct (segment_step seg s s' Hs Hd Hev Hrun) as (H1 & H2 & H3 & H4). split; [done|]. split; [done|]. split; [done|]. intros id Hid. specialize (H4 id Hid). cbn [opening]. lia.
  - cbn [sys_step]. destruct (tasks s !! k) as [[| |]|]; try done. destruct (requests (conn s) !! k) as [rq|] eqn:Erq; [|done]. intros [= <-].
    destruct (respond_step k st m size rq s Hs Hd Erq) as (R1 & R2 & R3 & R4 & R5 & R6). split; [split; [done|apply Hs|cbn; rewrite length_insert, R2; apply Hs]|]. split; [done|]. split; [unfold connection_account; cbn [conn frames_in grants foldr]; lia|].
    intros id _. specialize (R6 id). unfold stream_account at 1. cbn [conn frames_in grants foldr]. lia.
  - cbn [sys_step]. destruct (tasks s !! k) as [[| |]|]; try done. intros [= <-]. split; [split; [apply Hs|apply Hs|cbn; rewrite length_insert; apply Hs]|]. split; [done|]. unfold connection_account, stream_account. cbn. split; [lia|]. intros id _. lia.
  - cbn [sys_step]. destruct (tasks s !! k) as [[|[|]|]|]; try done. destruct (requests (conn s) !! k) as [rq|] eqn:Erq; [|done]. unfold of_result. destruct (send_chunk _ _ _ _) as [c' [r| |]] eqn:E; try done. intros [= <-].
    destruct (chunk_step k b rq s c' r Hs Hd Erq E) as (H1 & H2 & H3 & H4). split; [done|]. split; [done|]. split; [cbn [frames_in grants foldr]; lia|]. intros id _. rewrite H4. cbn [frames_in grants foldr opening]. lia.
  - cbn [sys_step]. destruct (tasks s !! k) as [[|[|x b]|]|]; try done. destruct (requests (conn s) !! k) as [rq|] eqn:Erq; [|done]. unfold of_result. destruct (send_chunk _ _ _ _) as [c' [r| |]] eqn:E; try done. intros [= <-].
    destruct (chunk_step k (x :: b) rq s c' r Hs Hd Erq E) as (H1 & H2 & H3 & H4). split; [done|]. split; [done|]. split; [cbn [frames_in grants foldr]; lia|]. intros id _. rewrite H4. cbn [frames_in grants foldr opening]. lia.
  - cbn [sys_step]. destruct (tasks s !! k) as [[|[|]|]|]; try done. destruct (requests (conn s) !! k) as [rq|] eqn:Erq; [|done]. unfold of_result. destruct (finish_body _ _) as [c' [[]| |]] eqn:E; try done. intros [= <-]. by apply (finish_step k rq).
  - cbn [sys_step]. intros [= <-]. destruct (body_poll_next_quiet ch (conn s)) as (Q & Q1 & Q2). destruct (quiet_step _ s Hs Hd Q Q1 Q2) as (H1 & H2 & H3 & H4 & H5). split; [split; [done|apply Hs|cbn; rewrite Q1; apply Hs]|]. split; [done|].
    unfold connection_account, stream_account. cbn [conn frames_in grants foldr opening]. split; [rewrite H3, H4; lia|]. intros id _. rewrite H4, H5. lia.
  - cbn [sys_step]. intros [= <-]. destruct (quiet_step (body_drop ch (conn s)) s Hs Hd) as (H1 & H2 & H3 & H4 & H5); try done. split; [split; [done|apply Hs|apply Hs]|]. split; [done|].
    unfold connection_account, stream_account. cbn [conn frames_in grants foldr opening]. split; [rewrite H3, H4; lia|]. intros id _. rewrite H4, H5. lia.
  - cbn [sys_step]. by repeat case_match.
Qed.

Lemma send_chunk_requests fuel id b c c' r : send_chunk fuel id b c = (c', Ok r) -> requests c' = requests c.
Proof.
  revert b c. induction fuel as [|fuel IH]; intros b c; destruct b as [|x b]; cbn [send_chunk]; try by intros [= <- _]. unfold mbind, M_bind, poll_window, lift, modify.
  destruct (flow_map _ !! _ ≫= _) as [[key st]|]; [|done]. destruct (_ || _); [by intros [= <- _]|]. destruct (data_new _ _); try done. intros Hrun. by apply IH in Hrun.
Qed.

(** ** Runs *)

Definition segments (evs : list Event) : list bytes := omap (fun ev => match ev with Segment seg => Some seg | _ => None end) evs.
(** The windows a stream was opened with, over a run. *)
Fixpoint openings (id : Z) (evs : list Event) (s : Sys) : Z :=
  match evs with [] => 0 | ev :: evs => opening id ev s + match sys_step ev s with Ok s => openings id evs s | _ => 0 end end.
Lemma grants_app id l k : grants id (l ++ k) = grants id l + grants id k.
Proof. induction l as [|f l IH]; [done|]. cbn [app grants foldr]. fold (grants id (l ++ k)). fold (grants id l). lia. Qed.
Lemma read_segments_event ev evs s :
  (read_segments (segments (ev :: evs)) (reader s)).1 = frames_in ev s ++ (read_segments (segments evs) (reader_after ev s)).1.
Proof.
  unfold segments. destruct ev; try done. cbn [omap list_omap read_segments frames_in reader_after]. cbn [fst snd].
  destruct (read_loop _ _) as [fs st]. cbn [fst snd]. fold (segments evs). by destruct (read_segments (segments evs) st).
Qed.
Lemma run_kept evs s s' : sys_ok s -> data_ok (conn s) -> Forall event_ok evs -> run evs s = Ok s' ->
  sys_ok s' /\ data_ok (conn s') /\ connection_account s' = connection_account s + grants 0 (read_segments (segments evs) (reader s)).1 /\
  forall id, id <> 0 -> stream_account id s' <= stream_account id s + grants id (read_segments (segments evs) (reader s)).1 + openings id evs s.
Proof.
  intros Hs Hd Hev. revert s Hs Hd. induction Hev as [|ev evs He Hev IH]; intros s Hs Hd; cbn [run].
  - intros [= <-]. split_and!; try done; [cbn; lia|]. intros id _. cbn. lia.
  - destruct (sys_step ev s) as [s1| |] eqn:E; cbn [mbind outcome_bind]; try done. intros Hrun. pose proof (sys_step_reader _ _ _ E) as Hrd. pose proof E as E0. apply sys_step_kept in E as (K1 & K2 & K3 & K4); try done.
    destruct (IH s1 K1 K2 Hrun) as (I1 & I2 & I3 & I4). rewrite read_segments_event, <- Hrd, grants_app. split_and!; try done; [lia|].
    intros id Hid. specialize (K4 id Hid). specialize (I4 id Hid). rewrite grants_app. cbn [openings]. rewrite E0. lia.
Qed.
Lemma sys_new_ok : sys_ok sys_new /\ data_ok (conn sys_new).
Proof.
  split; [|constructor]. split; [|split; [constructor|by left]|done]. split; [|constructor|done]. split; cbn; [lia|lia|intros id k; by rewrite lookup_empty|intros id id' k; by rewrite lookup_empty|intros k st; by rewrite s_get_empty].
Qed.

(** ** Responses *)

Definition answers_on (id : Z) (c : Conn) : list Message := filter (answer_on id) (writer c).
Definition streams (c : Conn) : list Z := rq_stream <$> requests c.
(** The chunks a body yielded. *)
Definition fed (k : nat) (ev : Event) : bytes := match ev with Chunk k' b => if decide (k' = k) then b else [] | _ => [] end.
Definition fed_all (k : nat) (evs : list Event) : bytes := mjoin (fed k <$> evs).
(** What a task has sent of its response, the bytes [b] of its body having been yielded. *)
Definition task_sent (t : Task) (id : Z) (b : bytes) (ms : list Message) : Prop :=
  match t with
  | Calling => ms = [] /\ b = []
  | Sending r => exists h ds, ms = MHead h :: (MData <$> ds) /\ mjoin (d_data <$> ds) ++ r = b
  | Done => (ms = [] /\ b = []) \/ (exists h, ms = [MHead h] /\ headers_is_end_stream h = true /\ b = []) \/
      exists h ds, ms = MHead h :: (MData <$> ds) ++ [MTrailer (trailers id f_empty)] /\ mjoin (d_data <$> ds) = b
  end.
Record delivers (b : nat -> bytes) (s : Sys) : Prop := {
  dl_known : Forall (fun m => exists id, answer_on id m = true /\ id ∈ streams (conn s)) (answers (conn s));
  dl_task k t rq : tasks s !! k = Some t -> requests (conn s) !! k = Some rq -> task_sent t (rq_stream rq) (b k) (answers_on (rq_stream rq) (conn s));
  dl_open k r rq : tasks s !! k = Some (Sending r) -> requests (conn s) !! k = Some rq -> opened (rq_stream rq) (flow (conn s)) = true;
  dl_new k : (length (tasks s) <= k)%nat -> b k = [] }.

Lemma answer_on_answer id m : answer_on id m = true -> is_answer m = true.
Proof. by destruct m. Qed.
Lemma answers_on_answers id c : answers_on id c = filter (answer_on id) (answers c).
Proof.
  unfold answers_on, answers. rewrite list_filter_filter. apply list_filter_iff. intros m. split; [|by intros [? _]]. intros H. split; [done|]. apply Is_true_true. apply Is_true_true in H. by apply (answer_on_answer id).
Qed.
Lemma answers_on_send id m c : answers_on id (send m c) = answers_on id c ++ filter (answer_on id) [m].
Proof. unfold answers_on. cbn [send writer]. by rewrite filter_app. Qed.
Lemma answer_on_inj i j m : answer_on i m = true -> answer_on j m = true -> i = j.
Proof. destruct m; cbn [answer_on]; try done; intros H1%Z.eqb_eq H2%Z.eqb_eq; congruence. Qed.
Lemma stream_inj s k j rq rq' : NoDup (streams (conn s)) -> requests (conn s) !! k = Some rq -> requests (conn s) !! j = Some rq' -> rq_stream rq = rq_stream rq' -> k = j.
Proof.
  intros Hn Hk Hj He. apply (NoDup_lookup _ k j (rq_stream rq) Hn); unfold streams; rewrite list_lookup_fmap; [by rewrite Hk|rewrite Hj; cbn; by rewrite He].
Qed.
Lemma answers_other i j ms : Forall (fun m => answer_on i m = true) ms -> i <> j -> filter (answer_on j) ms = [].
Proof.
  intros H Hne. induction H as [|m ms Hm _ IH]; [done|]. rewrite filter_cons_False; [done|]. intros Hj%Is_true_true. apply Hne. by apply (answer_on_inj i j m).
Qed.
(** A step of the task [k] alone: the other streams are left as they are. *)
Lemma delivers_step b b' k t rq s c' :
  NoDup (streams (conn s)) -> delivers b s -> requests (conn s) !! k = Some rq -> is_Some (tasks s !! k) -> requests c' = requests (conn s) ->
  (exists ms, writer c' = writer (conn s) ++ ms /\ Forall (fun m => answer_on (rq_stream rq) m = true) ms) ->
  (forall id, id <> rq_stream rq -> flow_map (flow c') !! id = flow_map (flow (conn s)) !! id) -> (forall j, j <> k -> b' j = b j) ->
  task_sent t (rq_stream rq) (b' k) (answers_on (rq_stream rq) c') -> (forall r, t = Sending r -> opened (rq_stream rq) (flow c') = true) ->
  delivers b' (mkSys c' (reader s) (<[k := t]> (tasks s))).
Proof.
  intros Hn [D1 D2 D3 D4] Hrq [t0 Ht0] Hreq (ms & Hw & Hms) Hfm Hb Ht Hop. pose proof (lookup_lt_Some _ _ _ Ht0) as Hlt. split; cbn [conn tasks].
  - unfold answers, streams. rewrite Hw, filter_app, Hreq. apply Forall_app. split; [exact D1|]. apply Forall_forall. intros m Hm. apply list_elem_of_filter in Hm as [_ Hm]. exists (rq_stream rq). split; [rewrite Forall_forall in Hms; by apply Hms|]. apply (list_elem_of_fmap_2' rq_stream _ rq); [|done]. by eapply list_elem_of_lookup_2.
  - intros j t' rq' Hj Hrq'. rewrite Hreq in Hrq'. destruct (decide (j = k)) as [->|Hne].
    + rewrite list_lookup_insert_eq in Hj by done. injection Hj as <-. rewrite Hrq in Hrq'. by injection Hrq' as <-.
    + rewrite list_lookup_insert_ne in Hj by done. rewrite Hb by done. assert (Hs : rq_stream rq <> rq_stream rq') by (intros E; apply Hne; symmetry; by apply (stream_inj s k j rq rq')).
      assert (Ha : answers_on (rq_stream rq') c' = answers_on (rq_stream rq') (conn s)).
      { unfold answers_on. rewrite Hw, filter_app. rewrite (answers_other (rq_stream rq) (rq_stream rq') ms Hms Hs). apply app_nil_r. }
      rewrite Ha. by apply D2.
  - intros j r rq' Hj Hrq'. rewrite Hreq in Hrq'. destruct (decide (j = k)) as [->|Hne].
    + rewrite list_lookup_insert_eq in Hj by done. injection Hj as ->. rewrite Hrq in Hrq'. injection Hrq' as <-. by apply (Hop r).
    + rewrite list_lookup_insert_ne in Hj by done. unfold opened. rewrite Hfm; [by apply (D3 j r rq')|]. intros E. apply Hne. by apply (stream_inj s j k rq' rq).
  - intros j. rewrite length_insert. intros Hj. rewrite Hb by lia. by apply D4.
Qed.
Lemma delivers_ext b b' s : (forall k, b k = b' k) -> delivers b s -> delivers b' s.
Proof. intros E [D1 D2 D3 D4]. split; [done| |done|]; intros; rewrite <- E; auto. Qed.
Lemma app_nil_all (b : nat -> bytes) ev : (forall k, fed k ev = []) -> forall k, b k = b k ++ fed k ev.
Proof. intros H k. by rewrite H, app_nil_r. Qed.
(** New requests have sent nothing. *)
Lemma delivers_requests b s c' r l :
  sys_ok s -> delivers b s -> NoDup (streams c') -> answers c' = answers (conn s) -> flow_map (flow c') = flow_map (flow (conn s)) -> requests c' = requests (conn s) ++ l ->
  delivers b (mkSys c' r (tasks s ++ replicate (length (requests c') - length (tasks s)) Calling)).
Proof.
  intros [_ _ Hlen] [D1 D2 D3 D4] Hn Ha Hf Hr. unfold streams in Hn. rewrite Hr, fmap_app in Hn. apply NoDup_app in Hn as (_ & Hdis & _).
  assert (Hon : forall id, answers_on id c' = answers_on id (conn s)) by (intros id; by rewrite !answers_on_answers, Ha).
  assert (Htask : forall k t, (tasks s ++ replicate (length (requests c') - length (tasks s)) Calling) !! k = Some t -> tasks s !! k = Some t \/ (length (tasks s) <= k)%nat /\ t = Calling).
  { intros k t [H | [H1 H2]]%lookup_app_Some; [by left|right]. split; [done|]. by apply lookup_replicate in H2 as [-> _]. }
  assert (Hold : forall k rq, (k < length (tasks s))%nat -> requests c' !! k = Some rq -> requests (conn s) !! k = Some rq) by (intros k rq Hk; rewrite Hr, lookup_app_l by lia; done).
  split; cbn [conn tasks].
  - rewrite Ha. eapply Forall_impl; [exact D1|]. intros m (id & H1 & H2). exists id. split; [done|]. unfold streams in *. rewrite Hr, fmap_app. apply elem_of_app. by left.
  - intros k t rq Ht Hrq. rewrite Hon. destruct (Htask k t Ht) as [H | [H ->]]; [apply (D2 k); [done|]; apply Hold; [by eapply lookup_lt_Some|done]|]. split; [|by apply D4].
    rewrite Hr, lookup_app_r in Hrq by lia. rewrite answers_on_answers. clear -D1 Hdis Hrq. induction D1 as [|m ms (id & H1 & H2) _ IH]; [done|]. rewrite filter_cons_False; [done|]. intros Hm%Is_true_true.
    assert (id = rq_stream rq) as -> by (by apply (answer_on_inj _ _ m)). apply (Hdis (rq_stream rq)); [done|]. apply (list_elem_of_fmap_2' rq_stream _ rq); [|done]. by eapply list_elem_of_lookup_2.
  - intros k x rq Ht Hrq. destruct (Htask k _ Ht) as [H | [_ H]]; [|done]. unfold opened. rewrite Hf. apply (D3 k x); [done|]. apply Hold; [by eapply lookup_lt_Some|done].
  - intros k Hk. apply D4. rewrite length_app in Hk. lia.
Qed.
Lemma delivers_quiet b s c' r : delivers b s -> answers c' = answers (conn s) -> flow_map (flow c') = flow_map (flow (conn s)) -> requests c' = requests (conn s) -> delivers b (mkSys c' r (tasks s)).
Proof.
  intros [D1 D2 D3 D4] Ha Hf Hr. assert (Hon : forall id, answers_on id c' = answers_on id (conn s)) by (intros id; by rewrite !answers_on_answers, Ha).
  split; cbn [conn tasks]; unfold streams, opened; rewrite ?Ha, ?Hf, ?Hr; [exact D1| |exact D3|exact D4]. intros k t rq. rewrite Hon. apply D2.
Qed.
Lemma filter_all_on id ms : Forall (fun m => answer_on id m = true) ms -> filter (answer_on id) ms = ms.
Proof. induction 1 as [|m ms Hm _ IH]; [done|]. rewrite filter_cons_True by (by rewrite Hm). by rewrite IH. Qed.
Lemma chunks_on id ds : Forall (chunk_frame id) ds -> Forall (fun m => answer_on id m = true) (MData <$> ds).
Proof. intros H. apply Forall_fmap. eapply Forall_impl; [exact H|]. intros d (Hid & _). cbn. by apply Z.eqb_eq. Qed.
(** The response's head is on its stream. *)
Lemma respond_answers id status m size c : exists h, writer (respond id status m size c) = writer c ++ [MHead h] /\ h_stream_id h = id /\ (size = SizeNone -> headers_is_end_stream h = true).
Proof. unfold respond. destruct size; eexists; (split; [reflexivity|]); split; try done. Qed.
Lemma send_chunk_delivers b k r0 r rq s c' :
  sys_ok s -> NoDup (streams (conn s)) -> delivers b s -> tasks s !! k = Some (Sending r0) -> requests (conn s) !! k = Some rq ->
  forall x b', send_chunk (length x) (rq_stream rq) x (conn s) = (c', Ok r) -> (forall j, j <> k -> b' j = b j) -> (forall sofar, sofar ++ r0 = b k -> sofar ++ x = b' k) ->
  delivers b' (mkSys c' (reader s) (<[k := Sending r]> (tasks s))).
Proof.
  intros Hs Hn Hd Ht Hrq x b' Hrun Hb Hbk. pose proof (so_conn s Hs) as [Hf Hr _]. pose proof (Forall_lookup_1 _ _ _ _ Hr Hrq) as Hid. cbn in Hid. pose proof (dl_open b s Hd k r0 rq Ht Hrq) as Ho.
  destruct (send_chunk_spec (rq_stream rq) (length x) x (conn s)) as (c1 & ds & Hsp & Hj & Hrun'); [unfold id_ok in Hid; lia|done|done|lia|]. rewrite Hrun in Hrun'. injection Hrun' as <- ->. set (n := Z.to_nat _) in *.
  pose proof (sp_rest _ _ _ _ _ Hsp) as (R1 & _). apply (delivers_step b b' k (Sending (drop n x)) rq s c' Hn Hd Hrq); [by eexists|done|exists (MData <$> ds); split; [apply Hsp|apply chunks_on, Hsp]|intros id _; by rewrite (sp_map _ _ _ _ _ Hsp)|done| |intros y _; unfold opened; by rewrite (sp_map _ _ _ _ _ Hsp)].
  destruct (dl_task b s Hd k _ rq Ht Hrq) as (h & ds0 & Hms & Hj0). exists h, (ds0 ++ ds). unfold answers_on in *. rewrite (sp_writer _ _ _ _ _ Hsp), filter_app, Hms, (filter_all_on (rq_stream rq)) by (apply chunks_on, Hsp). split; [by rewrite fmap_app|].
  rewrite fmap_app, join_app, Hj, <- app_assoc, take_drop. by apply Hbk.
Qed.
Lemma requests_grow ev s s' : sys_ok s -> event_ok ev -> sys_step ev s = Ok s' -> exists l, requests (conn s') = requests (conn s) ++ l.
Proof.
  intros [Hc Hb Ht] Hev. destruct ev as [seg|k st m size|k|k b|k|k|ch|ch|k]; cbn [sys_step]; unfold of_result.
  - unfold try_decode. cbn [snd]. destruct (try_decode_loop _ _ _) as [c' [r'| |]] eqn:E; try done. intros [= <-]. apply try_decode_loop_frames in E as [E _]. eapply handle_frames_extends; [exact Hc| |exact E]. apply read_loop_read. apply bytes_ok_app. split; [apply Hb|done].
  - repeat case_match; try done; intros [= <-]; exists []; rewrite app_nil_r; unfold respond; by destruct size.
  - repeat case_match; try done; intros [= <-]; exists []; by rewrite app_nil_r.
  - destruct (tasks s !! k) as [[|[|]|]|]; try done. destruct (requests (conn s) !! k) as [rq|] eqn:Erq; [|done]. destruct (send_chunk _ _ _ _) as [c' [r| |]] eqn:E; try done. intros [= <-]. exists []. rewrite app_nil_r. by eapply send_chunk_requests.
  - destruct (tasks s !! k) as [[|[|]|]|]; try done. destruct (requests (conn s) !! k) as [rq|] eqn:Erq; [|done]. destruct (send_chunk _ _ _ _) as [c' [r| |]] eqn:E; try done. intros [= <-]. exists []. rewrite app_nil_r. by eapply send_chunk_requests.
  - destruct (tasks s !! k) as [[|[|]|]|]; try done. destruct (requests (conn s) !! k) as [rq|] eqn:Erq; [|done]. destruct (finish_body _ _) as [c' [[]| |]] eqn:E; try done. intros [= <-]. exists []. rewrite app_nil_r. unfold finish_body, mbind, M_bind, modify in E. apply drop_guard_ok in E as (_ & _ & _ & F4 & _); [exact F4|apply Hc].
  - intros [= <-]. exists []. rewrite app_nil_r. by apply body_poll_next_quiet.
  - intros [= <-]. exists []. by rewrite app_nil_r.
  - by repeat case_match.
Qed.
Lemma sys_step_delivers ev b s s' : sys_ok s -> event_ok ev -> NoDup (streams (conn s')) -> delivers b s -> sys_step ev s = Ok s' -> delivers (fun k => b k ++ fed k ev) s'.
Proof.
  intros Hs Hev Hn' Hd Hrun. pose proof (requests_grow ev s s' Hs Hev Hrun) as (l & Hl).
  assert (Hn : NoDup (streams (conn s))) by (unfold streams in *; rewrite Hl, fmap_app in Hn'; by apply NoDup_app in Hn' as (? & _)).
  destruct ev as [seg|k st m size|k|k x|k|k|ch|ch|k]; cbn [sys_step] in Hrun; unfold of_result in Hrun.
  - apply (delivers_ext b); [by apply app_nil_all|]. unfold try_decode in Hrun. cbn [snd] in Hrun. destruct (try_decode_loop _ _ _) as [c' [r'| |]] eqn:E; try done. injection Hrun as <-. apply try_decode_loop_frames in E as [E _].
    destruct (read_loop_read (S (length ((reader s).2 ++ seg))) ((reader s).1, (reader s).2 ++ seg)) as [Hfr _]; [apply bytes_ok_app; split; [apply (so_reader s Hs)|done]|].
    apply handle_frames_accounts in E as (_ & A2 & A3 & _); [|apply Hs|eapply Forall_impl; [exact Hfr|]; by intros f [_ ?]]. by apply (delivers_requests b s c' r' l).
  - apply (delivers_ext b); [by apply app_nil_all|]. destruct (tasks s !! k) as [[| |]|] eqn:Et; try done. destruct (requests (conn s) !! k) as [rq|] eqn:Erq; [|done]. injection Hrun as <-.
    destruct (respond_answers (rq_stream rq) st m size (conn s)) as (h & Hw & Hh & He). destruct (dl_task b s Hd k _ rq Et Erq) as [Hms Hb].
    apply (delivers_step b b k _ rq s); try done; [by unfold respond; destruct size|exists [MHead h]; split; [done|constructor; [cbn; by apply Z.eqb_eq|constructor]]| | |].
    + intros id Hne. unfold respond, open_stream. destruct size; [done|..]; cbn [send with_flow flow]; destruct (s_insert _ _); cbn [flow_map]; by rewrite lookup_insert_ne.
    + assert (Ha : answers_on (rq_stream rq) (respond (rq_stream rq) st m size (conn s)) = [MHead h]).
      { unfold answers_on in *. rewrite Hw, filter_app, Hms. apply (filter_all_on (rq_stream rq)). constructor; [cbn; by apply Z.eqb_eq|constructor]. }
      rewrite Ha, Hb. destruct size; cbn [task_sent]; [right; left; exists h; split_and!; [done|by apply He|done]|exists h, []; done..].
    + intros r Hr. destruct size; [done|..]; unfold respond, open_stream, opened; cbn [send with_flow flow]; destruct (s_insert _ _); cbn [flow_map]; rewrite lookup_insert_eq; by apply bool_decide_true.
  - apply (delivers_ext b); [by apply app_nil_all|]. destruct (tasks s !! k) as [[| |]|] eqn:Et; try done. injection Hrun as <-. destruct (requests (conn s) !! k) as [rq|] eqn:Erq; [|exfalso; apply lookup_ge_None in Erq; apply lookup_lt_Some in Et; rewrite (so_tasks s Hs) in Et; lia].
    apply (delivers_step b b k Done rq s); try done; [exists []; split; [by rewrite app_nil_r|constructor]|]. left. by apply (dl_task b s Hd k Calling rq).
  - destruct (tasks s !! k) as [[|[|]|]|] eqn:Et; try done. destruct (requests (conn s) !! k) as [rq|] eqn:Erq; [|done]. destruct (send_chunk _ _ _ _) as [c' [r| |]] eqn:E; try done. injection Hrun as <-.
    apply (send_chunk_delivers b k [] r rq s c' Hs Hn Hd Et Erq x); [done| |].
    + intros j Hj. cbn [fed]. rewrite decide_False by done. apply app_nil_r.
    + intros sofar Hf. rewrite app_nil_r in Hf. cbn [fed]. rewrite decide_True by done. by rewrite Hf.
  - apply (delivers_ext b); [by apply app_nil_all|]. destruct (tasks s !! k) as [[|[|x0 x]|]|] eqn:Et; try done. destruct (requests (conn s) !! k) as [rq|] eqn:Erq; [|done]. destruct (send_chunk _ _ _ _) as [c' [r| |]] eqn:E; try done. injection Hrun as <-.
    by apply (send_chunk_delivers b k (x0 :: x) r rq s c' Hs Hn Hd Et Erq (x0 :: x)).
  - apply (delivers_ext b); [by apply app_nil_all|]. destruct (tasks s !! k) as [[|[|]|]|] eqn:Et; try done. destruct (requests (conn s) !! k) as [rq|] eqn:Erq; [|done]. destruct (finish_body _ _) as [c' [[]| |]] eqn:E; try done. injection Hrun as <-.
    unfold finish_body, mbind, M_bind, modify in E. apply drop_guard_ok in E as (_ & _ & F3 & F4 & _ & _ & F7); [|apply Hs]. cbn [send writer requests flow] in F3, F4, F7.
    assert (Htr : answer_on (rq_stream rq) (MTrailer (trailers (rq_stream rq) f_empty)) = true) by (cbn; by apply Z.eqb_eq).
    apply (delivers_step b b k Done rq s); try done; [eexists; split; [exact F3|by repeat constructor]|]. right. right. destruct (dl_task b s Hd k _ rq Et Erq) as (h & ds & Hms & Hj). exists h, ds.
    unfold answers_on in *. rewrite F3, filter_app, Hms, (filter_all_on (rq_stream rq)) by (by repeat constructor). split; [done|]. by rewrite app_nil_r in Hj.
  - apply (delivers_ext b); [by apply app_nil_all|]. injection Hrun as <-. destruct (body_poll_next_quiet ch (conn s)) as ([Q1 Q2] & Q3 & _). apply delivers_quiet; try done. by rewrite Q1.
  - apply (delivers_ext b); [by apply app_nil_all|]. injection Hrun as <-. by apply delivers_quiet.
  - by repeat case_match.
Qed.
Lemma run_delivers evs b s s' : sys_ok s -> data_ok (conn s) -> Forall event_ok evs -> delivers b s -> run evs s = Ok s' -> NoDup (streams (conn s')) ->
  delivers (fun k => b k ++ fed_all k evs) s'.
Proof.
  intros Hs Hdo Hev. revert b s Hs Hdo. induction Hev as [|ev evs He Hev IH]; intros b s Hs Hdo Hd; cbn [run].
  - intros [= <-] _. apply (delivers_ext b); [|done]. intros k. by rewrite app_nil_r.
  - destruct (sys_step ev s) as [s1| |] eqn:E; cbn [mbind outcome_bind]; try done. intros Hrun Hn. destruct (sys_step_kept ev s s1 Hs Hdo He E) as (K1 & K2 & _).
    assert (Hn1 : NoDup (streams (conn s1))).
    { clear -K1 K2 Hev Hrun Hn. revert s1 K1 K2 Hrun. induction Hev as [|e evs He Hev IH]; intros s1 K1 K2; cbn [run]; [by intros [= <-]|]. destruct (sys_step e s1) as [s2| |] eqn:E; cbn [mbind outcome_bind]; try done. intros Hrun.
      destruct (sys_step_kept e s1 s2 K1 K2 He E) as (J1 & J2 & _). destruct (requests_grow e s1 s2 K1 He E) as (l & Hl). specialize (IH s2 J1 J2 Hrun). unfold streams in *. rewrite Hl, fmap_app in IH. by apply NoDup_app in IH as (? & _). }
    eapply delivers_ext; [|eapply (IH _ s1 K1 K2); [by apply (sys_step_delivers ev b s s1)|done|done]]. intros k. cbn beta. by rewrite <- app_assoc.
Qed.
Lemma sys_new_delivers : delivers (fun _ => []) sys_new.
Proof. split; cbn; [constructor|done|done|done]. Qed.

(** ** Granting what a response needs *)

(** A reader in order never fails: [try_decode] fails only where a handler does. *)
Lemma try_decode_loop_ok fuel r c c' : reader_ok r -> handle_frames (read_loop fuel r).1 c = (c', Ok tt) -> try_decode_loop fuel r c = (c', Ok (read_loop fuel r).2) /\ reader_ok (read_loop fuel r).2.
Proof.
  revert r c. induction fuel as [|fuel IH]; intros r c Hr; cbn [try_decode_loop read_loop]; [by intros [= <-]|]. pose proof (read_frame_cut r Hr) as Hcut. pose proof (raw_of_ok r Hr) as Hraw.
  destruct (cut (raw_of r)) as [[frame rest]|] eqn:E.
  - destruct Hcut as (h & _ & ->). assert (Hr' : reader_ok (0, rest)) by (apply cut_shorter in E as (_ & _ & Hb); [|done]; split; [done|by left]).
    specialize (IH (0, rest)). destruct (read_loop fuel (0, rest)) as [fs st]. cbn [fst snd handle_frames] in *. unfold mbind, M_bind. destruct (handle_frame h (drop 6 frame) c) as [c1 [[]| |]]; try done. by apply IH.
  - destruct Hcut as (st' & -> & _ & Hok). by intros [= <-].
Qed.
Definition grant_frames (id n : Z) : list Frame := [FWindowUpdate (mkWindowUpdate 0 n); FWindowUpdate (mkWindowUpdate id n)].
Definition grant_bytes (id n : Z) : bytes := frames_wire (grant_frames id n).
Lemma frame_load_update h p w : frame_load h p = Ok (FWindowUpdate w) -> kind h = KWindowUpdate /\ window_update_load h p = Ok w.
Proof.
  unfold frame_load. destruct (kind h); try done; intros H.
  - by destruct (data_load h p).
  - by destruct (reset_load h p).
  - by destruct (settings_load h p).
  - by destruct (go_away_load p).
  - destruct (window_update_load h p); try done. cbn in H. by injection H as ->.
Qed.
Lemma update_framed id n : stream_id_ok id -> 0 < n < 2 ^ 31 ->
  exists f, (forall dst, window_update_encode (mkWindowUpdate id n) dst = dst ++ framed f.1 f.2) /\ head_ok f.1 /\ bytes_ok f.2 /\ len f.2 < 2 ^ 24 /\ kind f.1 = KWindowUpdate /\ window_update_load f.1 f.2 = Ok (mkWindowUpdate id n).
Proof.
  intros Hid Hn. destruct (frame_laid_out (FWindowUpdate (mkWindowUpdate id n))) as (h & p & He & Hh & Hb & Hl & Hload); [by split|]. apply frame_load_update in Hload as [Hk Hw].
  exists (h, p). cbn [fst snd]. split_and!; try done. intros dst. rewrite <- framed_encode. apply He.
Qed.
Lemma window_updated_ok w c : flow_ok (flow c) ->
  (if w_stream_id w =? 0 then connection_window (flow c) + size_increment w < 2 ^ 64 else opened (w_stream_id w) (flow c) = true /\ credit (w_stream_id w) (flow c) + size_increment w < 2 ^ 64) ->
  exists c', window_updated w c = (c', Ok tt) /\ requests c' = requests c.
Proof.
  intros H. unfold window_updated. destruct (w_stream_id w =? 0).
  - intros Hlt. unfold add_chk. rewrite (proj2 (Z.ltb_lt _ _) Hlt). destruct (wake_first _ _). by eexists.
  - intros [Ho Hlt]. unfold opened in Ho. apply bool_decide_eq_true in Ho as [key Ek]. destruct (fo_key _ H _ key Ek) as [st Est]. unfold credit in Hlt. rewrite Ek in *. cbn [mbind option_bind] in Hlt. rewrite Est in *. cbn [fmap option_fmap option_map from_option] in Hlt. unfold id in Hlt.
    unfold add_chk. rewrite (proj2 (Z.ltb_lt _ _) Hlt). eexists. split; [reflexivity|]. by destruct (_ >? 0).
Qed.
Lemma update_handled f w c : kind f.1 = KWindowUpdate -> window_update_load f.1 f.2 = Ok w -> handle_frame f.1 f.2 c = window_updated w c.
Proof. intros Hk Hl. unfold handle_frame. rewrite Hk. unfold on_window_update, mbind, M_bind, lift. by rewrite Hl. Qed.
(** The waker of a task that waits for window is stored with its stream. *)
Definition registered (id : Z) (f : FlowControl) : Prop :=
  exists key st, flow_map f !! id = Some key /\ s_get key (ordered_map f) = Some st /\ waker st = Some id.
Lemma wake_first_cases keys s key st : s_get key s = Some st ->
  s_get key (wake_first keys s).1 = Some st \/ (wake_first keys s).2 = waker st.
Proof.
  intros Hk. induction keys as [|k keys IH]; cbn [wake_first]; [by left|]. destruct (s_get k s) as [st'|] eqn:E; [|done].
  destruct (window st' >? 0); [|done]. cbn [fst snd]. destruct (decide (key = k)) as [->|Hne]; [right; congruence|left].
  rewrite s_get_set by done. by rewrite decide_False.
Qed.
(** The update of a connection wakes a task, or leaves it registered; that of a stream wakes its
    task when the connection has window. *)
Lemma window_updated_wakes w c c' id : id <> 0 -> window_updated w c = (c', Ok tt) -> registered id (flow c) ->
  exists l, woken c' = woken c ++ l /\
    (w_stream_id w = 0 -> id ∈ l \/ registered id (flow c')) /\ (w_stream_id w = id -> 0 < connection_window (flow c) -> id ∈ l).
Proof.
  intros Hid. unfold window_updated. destruct (Z.eqb_spec (w_stream_id w) 0) as [E0|E0]; intros Hw (key & st & Hk & Hs & Hwk).
  - destruct (add_chk _ _ _) as [cw| |]; try done. pose proof (wake_first_cases (s_keys (ordered_map (flow c))) (ordered_map (flow c)) key st Hs) as Hc.
    destruct (wake_first _ _) as [s o]. cbn [fst snd] in Hc. injection Hw as <-. exists (option_list o). split; [done|]. split; [|lia].
    intros _. destruct Hc as [Hc| ->]; [right; by exists key, st|left]. rewrite Hwk. by left.
  - destruct (decide (w_stream_id w = id)) as [<-|Hne].
    + rewrite Hk, Hs in Hw. destruct (add_chk _ _ _) as [sw| |]; try done. injection Hw as <-. destruct (connection_window (flow c) >? 0) eqn:E.
      * exists [w_stream_id w]. cbn [wake woken with_flow]. rewrite Hwk. split; [done|]. split; [done|]. intros _ _. by left.
      * exists []. rewrite app_nil_r. split; [done|]. split; [done|]. intros _ Hpos. lia.
    + assert (Hq : exists l, woken c' = woken c ++ l).
      { destruct (flow_map (flow c) !! w_stream_id w) as [k|]; [|injection Hw as <-; exists []; by rewrite app_nil_r].
        destruct (s_get k _) as [st'|]; [|done]. destruct (add_chk _ _ _) as [sw| |]; try done. injection Hw as <-.
        destruct (_ >? 0); [by exists (option_list (waker st'))|exists []; by rewrite app_nil_r]. }
      destruct Hq as [l Hl]. exists l. by split_and!.
Qed.
Lemma grant_step id n s :
  sys_ok s -> reader s = (0, []) -> id_ok id -> 0 < n < 2 ^ 31 -> opened id (flow (conn s)) = true ->
  connection_window (flow (conn s)) + n < 2 ^ 64 -> credit id (flow (conn s)) + n < 2 ^ 64 ->
  exists s', sys_step (Segment (grant_bytes id n)) s = Ok s' /\ bytes_ok (grant_bytes id n) /\ tasks s' = tasks s /\ requests (conn s') = requests (conn s) /\
    n <= connection_window (flow (conn s')) /\ n <= credit id (flow (conn s')) /\
    (registered id (flow (conn s)) -> exists l, woken (conn s') = woken (conn s) ++ l /\ id ∈ l).
Proof.
  intros Hs Hr Hid Hn Ho Hcw Hcr. pose proof (so_conn s Hs) as [Hf _ _]. destruct (update_framed 0 n) as (f0 & E0 & Hh0 & Hb0 & Hl0 & Hk0 & Hw0); [done|done|].
  destruct (update_framed id n) as (f1 & E1 & Hh1 & Hb1 & Hl1 & Hk1 & Hw1); [unfold id_ok, stream_id_ok in *; lia|done|].
  assert (Hg : grant_bytes id n = wire_of [f0; f1]) by (unfold grant_bytes, frames_wire; cbn [grant_frames fold_left frame_encode]; rewrite E0, E1; unfold wire_of; cbn [fmap list_fmap mjoin list_join]; by rewrite app_nil_l, app_nil_r).
  assert (Hfs : Forall (fun f => head_ok f.1 /\ bytes_ok f.2 /\ len f.2 < 2 ^ 24) [f0; f1]) by (constructor; [done|]; constructor; [done|constructor]).
  destruct (read_loop_framed [f0; f1] 3 Hfs ltac:(simpl; lia)) as (_ & Hbw & Hlen). destruct (read_loop_framed [f0; f1] (S (length (wire_of [f0; f1]))) Hfs (le_n_S _ _ Hlen)) as (Hread & _ & _).
  destruct (window_updated_ok (mkWindowUpdate 0 n) (conn s) Hf) as (c1 & U1 & R1); [exact Hcw|]. assert (Hn0 : 0 <= n) by lia. pose proof (window_updated_accounts (mkWindowUpdate 0 n) _ _ Hf Hn0 U1) as (A1 & _ & A3 & A4 & A5). cbn [w_stream_id size_increment] in *. change (0 =? 0) with true in A4. cbv iota in A4.
  assert (Hid0 : id <> 0) by (unfold id_ok in Hid; lia). pose proof (A5 id Hid0) as A5'. rewrite Ho, (proj2 (Z.eqb_neq 0 id)) in A5' by lia.
  assert (Ho1 : opened id (flow c1) = true) by (unfold opened; by rewrite A3).
  destruct (window_updated_ok (mkWindowUpdate id n) c1 A1) as (c2 & U2 & R2); [cbn [w_stream_id size_increment]; rewrite (proj2 (Z.eqb_neq id 0)) by done; split; [done|lia]|].
  pose proof (window_updated_accounts (mkWindowUpdate id n) _ _ A1 Hn0 U2) as (_ & _ & _ & B4 & B5). cbn [w_stream_id size_increment] in *. rewrite (proj2 (Z.eqb_neq id 0)) in B4 by done. specialize (B5 id Hid0). rewrite Ho1, Z.eqb_refl in B5.
  assert (Hrun : handle_frames [f0; f1] (conn s) = (c2, Ok tt)).
  { cbn [handle_frames]. unfold mbind, M_bind. rewrite (update_handled f0 _ _ Hk0 Hw0), U1, (update_handled f1 _ _ Hk1 Hw1), U2. done. }
  assert (Hreq : requests c2 = requests (conn s)) by congruence. pose proof (so_tasks s Hs) as Ht.
  cbn [sys_step]. rewrite Hr. cbn [fst snd app]. unfold try_decode. cbn [snd]. rewrite Hg. destruct (try_decode_loop_ok (S (length (wire_of [f0; f1]))) (0, wire_of [f0; f1]) (conn s) c2) as [-> _]; [split; [done|by left]|by rewrite Hread|].
  rewrite Hread. eexists. split; [reflexivity|]. cbn [conn tasks]. split; [done|]. rewrite Hreq, Ht, Nat.sub_diag. cbn [replicate]. rewrite app_nil_r. split; [done|]. split; [done|].
  pose proof (fo_connection _ Hf). pose proof (credit_nonneg id _ Hf). split; [lia|]. split; [lia|].
  intros Hreg. destruct (window_updated_wakes _ _ _ id Hid0 U1 Hreg) as (l1 & L1 & W1 & _). destruct (W1 eq_refl) as [Hin|Hreg1].
  - assert (Hl2 : exists l, woken c2 = woken c1 ++ l).
    { clear -U2. unfold window_updated in U2. cbn [w_stream_id size_increment] in U2. repeat case_match; try done; injection U2 as <-; cbn [wake woken with_flow]; eexists; (reflexivity || by rewrite app_nil_r). }
    destruct Hl2 as [l2 L2]. exists (l1 ++ l2). rewrite L2, L1, app_assoc. split; [done|]. apply elem_of_app. by left.
  - destruct (window_updated_wakes _ _ _ id Hid0 U2 Hreg1) as (l2 & L2 & _ & W2). exists (l1 ++ l2). rewrite L2, L1, app_assoc. split; [done|].
    apply elem_of_app. right. apply W2; [done|]. rewrite A4. cbn [size_increment]. lia.
Qed.
(** A task that is left waiting has its waker registered. *)
Lemma send_chunk_registers fuel id b c c' r : flow_ok (flow c) -> (length b <= fuel)%nat -> send_chunk fuel id b c = (c', Ok r) -> r <> [] -> registered id (flow c').
Proof.
  revert b c. induction fuel as [|fuel IH]; intros b c Hf Hl; destruct b as [|x b]; cbn [send_chunk]; try (by intros [= <- <-]); [simpl in Hl; lia|].
  unfold mbind at 1, M_bind at 1. unfold poll_window. destruct (flow_map (flow c) !! id) as [key|] eqn:Ek; cbn [option_bind mbind]; [|done].
  destruct (s_get key _) as [st|] eqn:Es; cbn [fmap option_fmap option_map]; [|done].
  destruct ((connection_window (flow c) =? 0) || (window st =? 0)) eqn:E0.
  { intros [= <- <-] _. exists key, (mkStream (window st) (frame_size st) (Some id)). cbn [with_flow flow ordered_map flow_map]. split; [done|]. split; [|done].
    rewrite s_get_set by done. by rewrite decide_True. }
  apply orb_false_iff in E0 as [E1%Z.eqb_neq E2%Z.eqb_neq]. pose proof (fo_connection _ Hf). destruct (fo_streams _ Hf key st Es) as [Hw Hfs].
  set (aval := Z.min (Z.min (window st) (connection_window (flow c))) (Z.min (len (x :: b)) (frame_size st))).
  assert (Ha : 0 < aval <= len (x :: b)) by (unfold aval; rewrite len_cons; pose proof (len_nonneg b); lia).
  unfold mbind, M_bind, lift, modify. destruct (data_new _ _); try done. intros Hrun Hr. apply IH in Hrun; [done| | |done].
  - cbn [send with_flow flow]. destruct (flow_set (flow c) id key st (mkStream (window st - aval) (frame_size st) (waker st)) (connection_window (flow c) - aval) (stream_window (flow c)) Hf Ek Es) as (Hok & _); try done; try lia; [apply (fo_initial _ Hf)|cbn; lia].
  - rewrite length_drop. unfold len in Ha. lia.
Qed.
(** With window enough, a poll sends the rest of a chunk and the response can end. *)
Lemma poll_finishes k rq x b s :
  sys_ok s -> data_ok (conn s) -> NoDup (streams (conn s)) -> delivers b s -> requests (conn s) !! k = Some rq -> tasks s !! k = Some (Sending x) -> x <> [] ->
  len x <= connection_window (flow (conn s)) -> len x <= credit (rq_stream rq) (flow (conn s)) ->
  exists s' h ds, run [Poll k; Finish k] s = Ok s' /\ tasks s' !! k = Some Done /\
    answers_on (rq_stream rq) (conn s') = MHead h :: (MData <$> ds) ++ [MTrailer (trailers (rq_stream rq) f_empty)] /\ mjoin (d_data <$> ds) = b k.
Proof.
  intros S1 S2 Hn Hd Hrq Ht Hx Hw Hc. pose proof (dl_open _ _ Hd k x rq Ht Hrq) as Ho1. pose proof (Forall_lookup_1 _ _ _ _ (co_requests _ (so_conn _ S1)) Hrq) as Hid. cbn in Hid.
  destruct (send_chunk_spec (rq_stream rq) (length x) x (conn s)) as (c2 & ds & Hsp & Hj & Hsend); [unfold id_ok in Hid; lia|apply S1|done|lia|].
  rewrite (Z.min_l (len x)) in Hsp, Hj, Hsend by lia. assert (Hall : Z.to_nat (len x) = length x) by (unfold len; lia). rewrite Hall, drop_all in Hsend.
  set (s2 := mkSys c2 (reader s) (<[k := Sending []]> (tasks s))).
  assert (E2 : sys_step (Poll k) s = Ok s2) by (cbn [sys_step]; rewrite Ht, Hrq; destruct x as [|y x]; [done|]; unfold of_result; by rewrite Hsend).
  destruct (sys_step_kept (Poll k) s s2 S1 S2 I E2) as (T1 & T2 & _). pose proof (sp_rest _ _ _ _ _ Hsp) as (R2 & _). assert (Hn2 : NoDup (streams (conn s2))) by (unfold streams; cbn [conn s2]; by rewrite R2).
  pose proof (sys_step_delivers (Poll k) _ _ _ S1 I Hn2 Hd E2) as Hd2.
  assert (Ht2 : tasks s2 !! k = Some (Sending [])) by (cbn; apply list_lookup_insert_eq; by eapply lookup_lt_Some). assert (Hrq2 : requests (conn s2) !! k = Some rq) by (cbn [conn s2]; by rewrite R2).
  pose proof (dl_open _ _ Hd2 k [] rq Ht2 Hrq2) as Ho2. unfold opened in Ho2. apply bool_decide_eq_true in Ho2 as [key Ek]. destruct (fo_key _ (co_flow _ (so_conn _ T1)) _ key Ek) as [st Est].
  assert (E3 : exists c3, finish_body (rq_stream rq) c2 = (c3, Ok tt)).
  { unfold finish_body, mbind, M_bind, modify, drop_guard. cbn [send flow]. cbn [conn s2] in Ek, Est. rewrite Ek, Est. by eexists. }
  destruct E3 as (c3 & E3). set (s3 := mkSys c3 (reader s) (<[k := Done]> (tasks s2))).
  assert (E3' : sys_step (Finish k) s2 = Ok s3) by (cbn [sys_step]; rewrite Ht2, Hrq2; unfold of_result; cbn [conn s2]; by rewrite E3).
  pose proof E3 as F. unfold finish_body, mbind, M_bind, modify in F. apply drop_guard_ok in F as (_ & _ & F3 & _); [|apply T1]. cbn [send writer] in F3.
  assert (Htr : answer_on (rq_stream rq) (MTrailer (trailers (rq_stream rq) f_empty)) = true) by (cbn; by apply Z.eqb_eq).
  destruct (dl_task _ _ Hd2 k _ rq Ht2 Hrq2) as (h & ds2 & Hms & Hj2). exists s3, h, ds2. split; [cbn [run]; rewrite E2; cbn [mbind outcome_bind]; by rewrite E3'|].
  split; [cbn; rewrite list_lookup_insert_eq; [done|]; rewrite length_insert; by eapply lookup_lt_Some|]. split.
  - cbn [conn s3]. unfold answers_on in *. cbn [conn s2] in Hms. rewrite F3, filter_app, Hms, (filter_all_on (rq_stream rq)) by (by repeat constructor). done.
  - rewrite app_nil_r in Hj2. rewrite Hj2. cbn [fed]. by rewrite app_nil_r.
Qed.

(** ** Segments *)

Lemma run_segments segs s : sys_ok s -> data_ok (conn s) -> Forall bytes_ok segs ->
  forall c', (exists r ts, run (Segment <$> segs) s = Ok (mkSys c' r ts)) <-> handle_frames (read_segments segs (reader s)).1 (conn s) = (c', Ok tt).
Proof.
  intros Hs Hd Hb. revert s Hs Hd. induction Hb as [|seg segs Hseg Hb IH]; intros s Hs Hd c'; [cbn; split; [by intros (r & ts & [= ->])|intros [= <-]; exists (reader s), (tasks s); by destruct s]|].
  rewrite fmap_cons. cbn [run read_segments fst snd]. pose proof (reader_ok_app _ seg (so_reader s Hs) Hseg) as Hr.
  destruct (read_loop _ _) as [fs st] eqn:El. destruct (read_segments segs st) as [gs st'] eqn:Eg. cbn [fst snd]. rewrite handle_frames_app. unfold mbind, M_bind.
  assert (Hstep : forall c1, handle_frames fs (conn s) = (c1, Ok tt) <-> exists ts, sys_step (Segment seg) s = Ok (mkSys c1 st ts)).
  { intros c1. cbn [sys_step]. unfold of_result, try_decode. cbn [snd]. split.
    - intros Hf. destruct (try_decode_loop_ok (S (length ((reader s).2 ++ seg))) ((reader s).1, (reader s).2 ++ seg) (conn s) c1 Hr) as [-> _]; rewrite El; [done|]. by eexists.
    - intros (ts & H). destruct (try_decode_loop _ _ _) as [c2 [r2| |]] eqn:E; try done. injection H as -> _ _. apply try_decode_loop_frames in E as [E _]. by rewrite El in E. }
  split.
  - intros (r & ts & H). destruct (sys_step (Segment seg) s) as [s1| |] eqn:E; cbn in H; try done. pose proof (sys_step_reader _ _ _ E) as Hrd. cbn [reader_after] in Hrd. rewrite El in Hrd. cbn [snd] in Hrd.
    destruct (sys_step_kept (Segment seg) s s1 Hs Hd Hseg E) as (K1 & K2 & _). destruct s1 as [c1 r1 t1]. cbn [reader] in Hrd. subst r1. rewrite (proj2 (Hstep c1)) by (by eexists).
    specialize (proj1 (IH (mkSys c1 st t1) K1 K2 c')). cbn [reader conn]. rewrite Eg. cbn [fst]. intros H'. apply H'. by eexists _, _.
  - destruct (handle_frames fs (conn s)) as [c1 [[]| |]] eqn:E; try done. intros H. destruct (proj1 (Hstep c1) eq_refl) as (t1 & E1). destruct (sys_step_kept (Segment seg) s _ Hs Hd Hseg E1) as (K1 & K2 & _).
    destruct (proj2 (IH (mkSys c1 st t1) K1 K2 c')) as (r & ts & H'); [cbn [reader conn]; by rewrite Eg|]. exists r, ts. rewrite E1. exact H'.
Qed.
Lemma parsed_unique gs fs fs' : Forall2 parsed gs fs -> Forall2 parsed gs fs' -> fs = fs'.
Proof.
  intros H. revert fs'. induction H as [|g f gs fs [H1 H2] _ IH]; intros fs' H'; inversion H' as [|? f' ? fs1 [K1 K2] Hr]; subst; [done|]. f_equal; [|by apply IH]. destruct f, f'. cbn in *. congruence.
Qed.
Lemma frames_joined segs segs' r : reader_ok r -> Forall bytes_ok segs -> Forall bytes_ok segs' -> segs <> [] -> segs' <> [] -> mjoin segs = mjoin segs' -> (read_segments segs r).1 = (read_segments segs' r).1.
Proof.
  intros Hr Hb Hb' Hne Hne' Hj. set (fuel := S (length (raw_of r) + length (mjoin segs))).
  pose proof (read_segments_cut segs r fuel Hr Hb ltac:(unfold fuel; lia) (or_intror Hne)) as H. pose proof (read_segments_cut segs' r fuel Hr Hb' ltac:(unfold fuel; rewrite <- Hj; lia) (or_intror Hne')) as H'. rewrite <- Hj in H'.
  destruct (read_segments segs r) as [fs st], (read_segments segs' r) as [fs' st'], (cut_all fuel _) as [gs w]. destruct H as [H _], H' as [H' _]. by apply (parsed_unique gs).
Qed.
End Flow.
(** ** Properties *)

(** C4: flow control is kept for any order of frames, answers, chunks and polls.  The bytes of
    DATA sent on a connection are exactly what its window, 65535 at first, and the peer's
    WINDOW_UPDATEs grant, less what is left of them; on no stream is more sent than the window it
    was opened with and its updates grant; every DATA frame carries between 1 and 16384 bytes. *)
Theorem h2_flow_control `{FT : FieldTypes} `{HF : HeaderFields} `{SL : !Slabs StreamControlFlow} evs s :
  Forall event_ok evs -> run evs sys_new = Ok s ->
  let fs := (read_segments (segments evs) (0, [])).1 in
  connection_window (flow (conn s)) + sent any (writer (conn s)) = 65535 + grants 0 fs /\ 0 <= connection_window (flow (conn s)) /\
  (forall id, id <> 0 -> sent (on id) (writer (conn s)) <= openings id evs sys_new + grants id fs) /\ data_ok (conn s).
Proof.
  intros Hev Hrun. cbv zeta. destruct sys_new_ok as [H0 H1]. destruct (run_kept evs sys_new s H0 H1 Hev Hrun) as (K1 & K2 & K3 & K4). cbn [sys_new reader] in K3, K4.
  pose proof (co_flow _ (so_conn _ K1)) as Hf. split; [exact K3|]. split; [apply Hf|]. split; [|done]. intros id Hid. specialize (K4 id Hid). pose proof (credit_nonneg id _ Hf) as Hc. unfold stream_account in K4 at 1.
  assert (Hz : stream_account id sys_new = 0) by done. lia.
Qed.

(** C9: the connection sees frames, not segments.  At any moment of a run, what arrives may be cut
    into segments in any way: if one cut is handled without an error so is every other, and the
    requests, the bodies, the flow control, the HPACK decoder and the messages to the peer are
    the same. *)
Theorem h2_segmentation `{FT : FieldTypes} `{HF : HeaderFields} `{SL : !Slabs StreamControlFlow} evs s segs segs' s1 :
  Forall event_ok evs -> run evs sys_new = Ok s -> Forall bytes_ok segs -> Forall bytes_ok segs' -> segs <> [] -> segs' <> [] -> mjoin segs = mjoin segs' ->
  run (Segment <$> segs) s = Ok s1 -> exists s2, run (Segment <$> segs') s = Ok s2 /\ conn s2 = conn s1.
Proof.
  intros Hev Hrun Hb Hb' Hne Hne' Hj H1. destruct sys_new_ok as [H0 Hd0]. destruct (run_kept evs sys_new s H0 Hd0 Hev Hrun) as (K1 & K2 & _). destruct s1 as [c1 r1 t1].
  pose proof (proj1 (run_segments segs s K1 K2 Hb c1) (ex_intro _ r1 (ex_intro _ t1 H1))) as Hf. rewrite (frames_joined segs segs' (reader s) (so_reader s K1) Hb Hb' Hne Hne' Hj) in Hf.
  destruct (proj2 (run_segments segs' s K1 K2 Hb' c1) Hf) as (r2 & t2 & H2). by exists (mkSys c1 r2 t2).
Qed.


(** C8: a response that waits for window is woken and finishes when the client opens the windows, the
    connection's first.  At any moment of any run in which no two requests share a stream, between
    two frames, let a task be left with the rest of a chunk and its waker stored, as a poll that
    finds no window leaves it ([send_chunk_registers]); the rest fits a WINDOW_UPDATE and the windows
    with it fit their counters.  WINDOW_UPDATEs for that rest, the
    connection's before the stream's, wake the task; the poll it then makes sends the rest, and when
    its body ends everything the body yielded has been sent, and its trailer.  In the other order
    the wakeup is lost ([wakeup_lost]). *)
Theorem h2_response_completes `{FT : FieldTypes} `{HF : HeaderFields} `{SL : !Slabs StreamControlFlow} evs s k rq b :
  Forall event_ok evs -> run evs sys_new = Ok s -> NoDup (streams (conn s)) -> reader s = (0, []) ->
  requests (conn s) !! k = Some rq -> tasks s !! k = Some (Sending b) -> b <> [] -> len b < 2 ^ 31 ->
  connection_window (flow (conn s)) + len b < 2 ^ 64 -> credit (rq_stream rq) (flow (conn s)) + len b < 2 ^ 64 ->
  registered (rq_stream rq) (flow (conn s)) ->
  exists s1 l s' h ds, sys_step (Segment (grant_bytes (rq_stream rq) (len b))) s = Ok s1 /\ woken (conn s1) = woken (conn s) ++ l /\ rq_stream rq ∈ l /\
    run [Poll k; Finish k] s1 = Ok s' /\ tasks s' !! k = Some Done /\
    answers_on (rq_stream rq) (conn s') = MHead h :: (MData <$> ds) ++ [MTrailer (trailers (rq_stream rq) f_empty)] /\ mjoin (d_data <$> ds) = fed_all k evs.
Proof.
  intros Hev Hrun Hn Hrd Hrq Ht Hb Hlen Hcw Hcr Hreg. destruct sys_new_ok as [H0 H1]. destruct (run_kept evs sys_new s H0 H1 Hev Hrun) as (K1 & K2 & _).
  pose proof (run_delivers evs _ sys_new s H0 H1 Hev sys_new_delivers Hrun Hn) as Hd. pose proof (dl_open _ _ Hd k b rq Ht Hrq) as Ho. pose proof (Forall_lookup_1 _ _ _ _ (co_requests _ (so_conn _ K1)) Hrq) as Hid. cbn in Hid.
  assert (Hpos : 0 < len b) by (destruct b; [done|]; rewrite len_cons; pose proof (len_nonneg b); lia).
  destruct (grant_step (rq_stream rq) (len b) s K1 Hrd Hid ltac:(lia) Ho Hcw Hcr) as (s1 & E1 & Hok1 & Ht1 & Hr1 & Hw1 & Hc1 & Hwake). destruct (Hwake Hreg) as (l & Hl & Hin).
  destruct (sys_step_kept (Segment (grant_bytes (rq_stream rq) (len b))) s s1 K1 K2 Hok1 E1) as (S1 & S2 & _). assert (Hn1 : NoDup (streams (conn s1))) by (unfold streams; by rewrite Hr1).
  pose proof (sys_step_delivers (Segment (grant_bytes (rq_stream rq) (len b))) _ s s1 K1 Hok1 Hn1 Hd E1) as Hd1. rewrite <- Ht1 in Ht. rewrite <- Hr1 in Hrq.
  destruct (poll_finishes k rq b _ s1 S1 S2 Hn1 Hd1 Hrq Ht Hb Hw1 Hc1) as (s' & h & ds & Hr & Hdone & Hans & Hj). exists s1, l, s', h, ds. split; [done|]. split; [done|]. split; [done|]. split; [exact Hr|]. split; [done|]. split; [done|].
  rewrite Hj. cbn [fed]. by rewrite app_nil_r.
Qed.

(** ** Examples *)

(** A request on stream 1, answered with a body longer than the windows. *)
Definition demo_segment : bytes :=
  match headers_encode (headers_new 1 (pseudo_request POST (Some (bs "/upload")) (Some (bs "http")) (Some (bs "localhost"))) f_empty) (encoder_new 4096 0) (4096, []) with
  | Ok (_, ((_, buf), _)) => buf
  | _ => []
  end.
Definition demo_start : list Event := [Segment demo_segment; Respond 0 200 f_empty SizeStream; Chunk 0 (replicate 65535 7); Chunk 0 [1; 2; 3]].
Lemma demo_events_ok : Forall event_ok demo_start.
Proof. apply Forall_cons. split; [apply (bool_decide_eq_true_1 (bytes_ok demo_segment)); by vm_compute|]. by repeat (apply Forall_cons; split). Qed.
(** What is left to send, and the windows. *)
Definition blocked (k : nat) (id : Z) (s : Sys) : option (bytes * Z * Z) :=
  match tasks s !! k with Some (Sending b) => Some (b, connection_window (flow (conn s)), credit id (flow (conn s))) | _ => None end.
Definition stream_of (k : nat) (s : Sys) : option Z := rq_stream <$> requests (conn s) !! k.
(** The last three bytes wait for window. *)
Definition demo_check (s : Sys) : bool :=
  bool_decide (blocked 0 1 s = Some ([1; 2; 3], 0, 0)) && bool_decide (streams (conn s) = [1]) && bool_decide (reader s = (0, [])) && (sent any (writer (conn s)) =? 65535) &&
  bool_decide ((k ← flow_map (flow (conn s)) !! 1; s_get k (ordered_map (flow (conn s))) ≫= waker) = Some 1).
Lemma registered_lookup id f : (k ← flow_map f !! id; s_get k (ordered_map f) ≫= waker) = Some id -> registered id f.
Proof.
  intros (k & Hk & Hw)%bind_Some. apply bind_Some in Hw as (st & Hs & Hw). by exists k, st.
Qed.
Definition ok_and {E A} (f : A -> bool) (o : outcome E A) : bool := match o with Ok a => f a | _ => false end.
Lemma ok_and_some {E A} (f : A -> bool) (o : outcome E A) : ok_and f o = true -> exists a, o = Ok a /\ f a = true.
Proof. destruct o as [a| |]; [|done..]. intros H. by exists a. Qed.
Definition demo_state (s : Sys) (rq : Request) : Prop :=
  NoDup (streams (conn s)) /\ requests (conn s) !! 0%nat = Some rq /\ rq_stream rq = 1 /\ tasks s !! 0%nat = Some (Sending [1; 2; 3]) /\
  reader s = (0, []) /\ connection_window (flow (conn s)) = 0 /\ credit 1 (flow (conn s)) = 0 /\ sent any (writer (conn s)) = 65535 /\ registered 1 (flow (conn s)).
Lemma demo_checked s : demo_check s = true -> exists rq, demo_state s rq.
Proof.
  unfold demo_check. rewrite !andb_true_iff. intros [[[[H1%bool_decide_eq_true H2%bool_decide_eq_true] H3%bool_decide_eq_true] H4%Z.eqb_eq] H7%bool_decide_eq_true%registered_lookup].
  unfold streams in *. pose proof H2 as Hn. unfold blocked in H1. destruct (tasks s !! 0%nat) as [[|b|]|] eqn:Et; try done. injection H1 as -> H5 H6. destruct (requests (conn s)) as [|rq l] eqn:E; [done|]. rewrite fmap_cons in H2. injection H2 as H2 _.
  exists rq. unfold demo_state, streams. rewrite E, Hn. split_and!; try done. apply NoDup_singleton.
Qed.
Lemma demo_run : exists s rq, run demo_start sys_new = Ok s /\ demo_state s rq.
Proof.
  assert (H : ok_and demo_check (run demo_start sys_new) = true) by (vm_compute; reflexivity). apply ok_and_some in H as (s & Hrun & H). apply demo_checked in H as (rq & H). exists s, rq. exact (conj Hrun H).
Qed.
Lemma h2_flow_control_witness : exists s, run demo_start sys_new = Ok s /\ sent any (writer (conn s)) = 65535 /\
  connection_window (flow (conn s)) + sent any (writer (conn s)) = 65535 + grants 0 (read_segments (segments demo_start) (0, [])).1.
Proof.
  destruct demo_run as (s & rq & Hrun & (_ & _ & _ & _ & _ & _ & _ & Hs & _)). exists s. split; [exact Hrun|]. split; [exact Hs|]. exact (proj1 (h2_flow_control demo_start s demo_events_ok Hrun)).
Defined.
Lemma h2_response_completes_witness : exists s s1 s' h ds, run demo_start sys_new = Ok s /\ sys_step (Segment (grant_bytes 1 3)) s = Ok s1 /\ 1 ∈ woken (conn s1) /\
  run [Poll 0; Finish 0] s1 = Ok s' /\ answers_on 1 (conn s') = MHead h :: (MData <$> ds) ++ [MTrailer (trailers 1 f_empty)] /\ mjoin (d_data <$> ds) = fed_all 0 demo_start.
Proof.
  destruct demo_run as (s & rq & Hrun & Hn & Hrq & Hid & Ht & Hrd & Hcw & Hcr & _ & Hreg).
  destruct (h2_response_completes demo_start s 0%nat rq [1; 2; 3] demo_events_ok Hrun Hn Hrd Hrq Ht) as (s1 & l & s' & h & ds & H1 & Hw & Hin & H2 & _ & H3 & H4);
    [congruence|reflexivity|rewrite Hcw; reflexivity|rewrite Hid, Hcr; reflexivity|rewrite Hid; exact Hreg|].
  rewrite Hid in H1, H3, Hin. exists s, s1, s', h, ds. split; [exact Hrun|]. split; [exact H1|]. split; [rewrite Hw; apply elem_of_app; right; exact Hin|]. split; [exact H2|]. split; [exact H3|exact H4].
Defined.
(** A wakeup that is lost: the update of the stream takes the waker while the connection has no
    window, so that the connection's own update finds none to wake. *)
Definition lost (s : Sys) : bool :=
  bool_decide (blocked 0 1 s = Some ([1; 2; 3], 3, 3)) && bool_decide (woken (conn s) = []) &&
  bool_decide ((k ← flow_map (flow (conn s)) !! 1; s_get k (ordered_map (flow (conn s))) ≫= waker) = None).
Lemma wakeup_lost : exists s, run (demo_start ++ [Segment (window_update_encode (mkWindowUpdate 1 3) []); Segment (window_update_encode (mkWindowUpdate 0 3) [])]) sys_new = Ok s /\ lost s = true.
Proof. apply ok_and_some. vm_compute. reflexivity. Qed.
(** The same updates in the other order wake the task. *)
Lemma wakeup_kept : exists s, run (demo_start ++ [Segment (window_update_encode (mkWindowUpdate 0 3) []); Segment (window_update_encode (mkWindowUpdate 1 3) [])]) sys_new = Ok s /\ woken (conn s) = [1].
Proof.
  destruct (ok_and_some (fun s => bool_decide (woken (conn s) = [1])) (run (demo_start ++ [Segment (window_update_encode (mkWindowUpdate 0 3) []); Segment (window_update_encode (mkWindowUpdate 1 3) [])]) sys_new)) as (s & Hr & Hw); [vm_compute; reflexivity|].
  exists s. split; [exact Hr|]. by apply bool_decide_eq_true in Hw.
Qed.
Lemma h2_segmentation_witness : exists s1 s2, run (Segment <$> [demo_segment]) sys_new = Ok s1 /\ run (Segment <$> [take 4 demo_segment; drop 4 demo_segment]) sys_new = Ok s2 /\ conn s2 = conn s1 /\ streams (conn s1) = [1].
Proof.
  assert (Hb : bytes_ok demo_segment) by (apply (bool_decide_eq_true_1 (bytes_ok demo_segment)); vm_compute; reflexivity).
  destruct (ok_and_some (fun s => bool_decide (streams (conn s) = [1])) (run (Segment <$> [demo_segment]) sys_new)) as (s1 & H1 & Hw); [vm_compute; reflexivity|].
  assert (H2 : Forall bytes_ok [demo_segment]) by (constructor; [exact Hb|constructor]).
  assert (H3 : Forall bytes_ok [take 4 demo_segment; drop 4 demo_segment]) by (constructor; [apply bytes_ok_take; exact Hb|constructor; [apply bytes_ok_drop; exact Hb|constructor]]).
  assert (H4 : mjoin [demo_segment] = mjoin [take 4 demo_segment; drop 4 demo_segment]) by (vm_compute; reflexivity).
  destruct (h2_segmentation [] sys_new [demo_segment] [take 4 demo_segment; drop 4 demo_segment] s1 (Forall_nil_2 _) eq_refl H2 H3 ltac:(congruence) ltac:(congruence) H4 H1) as (s2 & H5 & H6).
  exists s1, s2. split; [exact H1|]. split; [exact H5|]. split; [exact H6|]. exact (bool_decide_eq_true_1 _ Hw).
Defined.
