(* ===== verification/H2Bodies.v ===== *)
(** * HTTP/2 request bodies

    DATA frames reach the body of their request, and the window they took is given back as the
    service reads them. *)

From S2P Require Import Prelude Decimal Http HpackInt HpackHeader HpackTable HpackDecoder HpackEncoder HpackIndex HpackProbe HpackSync H2Frame H2Headers H2Conn H2Flow.

Section Bodies.
Context `{FT : FieldTypes} `{HF : HeaderFields} `{SL : !Slabs StreamControlFlow}.

(** The window given back to a stream, the bytes its body holds, the DATA that arrived for it. *)
Definition returned (id : Z) (ms : list Message) : Z := foldr (fun m n => (match m with MWindowUpdate i k => if i =? id then k else 0 | _ => 0 end) + n) 0 ms.
Definition queued (id : Z) (l : list Chan) : Z := foldr (fun b n => (if ch_stream b =? id then len (mjoin (ch_queue b)) else 0) + n) 0 l.
Definition data_bytes (id : Z) (f : Head * bytes) : Z :=
  match kind f.1 with KData => match data_load f.1 f.2 with Ok d => if d_stream_id d =? id then len (d_data d) else 0 | _ => 0 end | _ => 0 end.
Definition received (id : Z) (fs : list (Head * bytes)) : Z := foldr (fun f n => data_bytes id f + n) 0 fs.
Lemma returned_app id l k : returned id (l ++ k) = returned id l + returned id k.
Proof. induction l as [|m l IH]; [done|]. cbn [app returned foldr]. fold (returned id (l ++ k)). fold (returned id l). lia. Qed.
Lemma received_app id l k : received id (l ++ k) = received id l + received id k.
Proof. induction l as [|m l IH]; [done|]. cbn [app received foldr]. fold (received id (l ++ k)). fold (received id l). lia. Qed.
Lemma queued_app id l k : queued id (l ++ k) = queued id l + queued id k.
Proof. induction l as [|m l IH]; [done|]. cbn [app queued foldr]. fold (queued id (l ++ k)). fold (queued id l). lia. Qed.
Lemma queued_nonneg id l : 0 <= queued id l.
Proof. induction l as [|b l IH]; [done|]. cbn [queued foldr]. fold (queued id l). case_match; [pose proof (len_nonneg (mjoin (ch_queue b)))|]; lia. Qed.
Lemma queued_insert id l ch b b' : l !! ch = Some b -> ch_stream b' = ch_stream b ->
  queued id (<[ch := b']> l) = queued id l + (if ch_stream b =? id then len (mjoin (ch_queue b')) - len (mjoin (ch_queue b)) else 0).
Proof.
  revert ch. induction l as [|x l IH]; intros [|ch] Hl Hs; try done.
  - injection Hl as ->. cbn [insert list_insert queued foldr]. fold (queued id l). rewrite Hs. case_match; lia.
  - change (<[S ch := b']> (x :: l)) with (x :: <[ch := b']> l). cbn [queued foldr]. fold (queued id (<[ch := b']> l)). fold (queued id l). rewrite (IH ch Hl Hs). lia.
Qed.
Lemma queued_drop id ch l : queued id (alter (fun b => mkChan (ch_stream b) [] false (ch_tx b)) ch l) <= queued id l.
Proof.
  revert ch. induction l as [|b l IH]; intros [|ch]; try done.
  - cbn [alter list_alter queued foldr ch_stream ch_queue]. fold (queued id l). pose proof (len_nonneg (mjoin (ch_queue b))). case_match; [change (mjoin []) with (@nil Z); rewrite len_nil; lia|lia].
  - specialize (IH ch). change (alter ?f (S ch) (b :: l)) with (b :: alter f ch l). cbn [queued foldr]. fold (queued id l). fold (queued id (alter (fun b => mkChan (ch_stream b) [] false (ch_tx b)) ch l)). lia.
Qed.
Lemma queued_same id (l l' : list Chan) : (fun b => (ch_stream b, ch_queue b)) <$> l' = (fun b => (ch_stream b, ch_queue b)) <$> l -> queued id l' = queued id l.
Proof.
  revert l'. induction l as [|b l IH]; intros [|b' l'] H; try done. rewrite !fmap_cons in H. injection H as H1 H2 H. cbn [queued foldr]. fold (queued id l'). fold (queued id l). by rewrite H1, H2, (IH l' H).
Qed.
Lemma drop_tx_same ch l : (fun b => (ch_stream b, ch_queue b)) <$> drop_tx ch l = (fun b => (ch_stream b, ch_queue b)) <$> l /\ ch_rx <$> drop_tx ch l = ch_rx <$> l.
Proof. unfold drop_tx. revert ch. induction l as [|b l IH]; intros [|ch]; try done. destruct (IH ch) as [H1 H2]. cbn [alter list_alter]. rewrite !fmap_cons. split; f_equal; done. Qed.
(** A stream's sender leads to the channel of the stream. *)
Record bodies_ok (c : Conn) : Prop := {
  bo_map id ch : stream_map c !! id = Some ch -> exists b, chans c !! ch = Some b /\ ch_stream b = id }.
(** Everything but the bodies is left alone. *)
Definition body_account (id : Z) (c : Conn) : Z := returned id (writer c) + queued id (chans c).
Definition all_read (c : Conn) : Prop := Forall (fun b => ch_rx b = true) (chans c).
(** [n id] bytes more for a stream, if its body is not dropped. *)
Definition body_step (n : Z -> Z) (c c' : Conn) : Prop :=
  bodies_ok c' /\ (forall id, body_account id c <= body_account id c' <= body_account id c + n id) /\ (all_read c -> all_read c' /\ forall id, body_account id c' = body_account id c + n id).
Lemma body_step_same n c c' : bodies_ok c -> (forall id, n id = 0) -> stream_map c' = stream_map c -> chans c' = chans c -> (forall id, returned id (writer c') = returned id (writer c)) -> body_step n c c'.
Proof.
  intros [H] Hn Hm Hc Hw. unfold body_step, body_account, all_read. rewrite Hc. split; [split; rewrite Hm, Hc; exact H|]. split; [intros id; rewrite Hw, Hn; lia|]. intros Hr. split; [done|]. intros id. rewrite Hw, Hn. lia.
Qed.
Lemma body_step_trans n1 n2 a b c : body_step n1 a b -> body_step n2 b c -> body_step (fun id => n1 id + n2 id) a c.
Proof.
  intros (H1 & H2 & H3) (K1 & K2 & K3). split; [done|]. split; [intros id; specialize (H2 id); specialize (K2 id); lia|]. intros Hr. destruct (H3 Hr) as [Hr1 E1]. destruct (K3 Hr1) as [Hr2 E2]. split; [done|]. intros id. rewrite E2, E1. lia.
Qed.
Lemma body_step_ext n n' c c' : (forall id, n id = n' id) -> body_step n c c' -> body_step n' c c'.
Proof. intros E (H1 & H2 & H3). split; [done|]. split; [intros id; rewrite <- E; apply H2|]. intros Hr. destruct (H3 Hr) as [? H4]. split; [done|]. intros id. rewrite <- E. apply H4. Qed.
(** A body that ends keeps what it holds. *)
Lemma body_step_drop id0 ch c : bodies_ok c -> stream_map c !! id0 = Some ch -> body_step (fun _ => 0) c (with_bodies (delete id0 (stream_map c)) (drop_tx ch (chans c)) c).
Proof.
  intros [H] Hm. destruct (drop_tx_same ch (chans c)) as [H1 H2]. split.
  - split. cbn [with_bodies stream_map chans]. intros id ch'. rewrite lookup_delete. case_decide; [done|]. intros Hl. destruct (H id ch' Hl) as (b & Hb & Hs).
    assert (Hx : (fun b => (ch_stream b, ch_queue b)) <$> drop_tx ch (chans c) !! ch' = Some (ch_stream b, ch_queue b)) by (rewrite <- list_lookup_fmap, H1, list_lookup_fmap, Hb; done).
    destruct (drop_tx ch (chans c) !! ch') as [b'|]; [|done]. cbn in Hx. injection Hx as Hx _. exists b'. split; [done|]. congruence.
  - unfold body_account, all_read. cbn [with_bodies writer chans]. split; [intros id; rewrite (queued_same id _ _ H1); lia|]. intros Hr. split; [|intros id; rewrite (queued_same id _ _ H1); lia].
    apply Forall_lookup. intros i b Hb. assert (Hx : ch_rx <$> chans c !! i = Some (ch_rx b)) by (rewrite <- list_lookup_fmap, <- H2, list_lookup_fmap, Hb; done). destruct (chans c !! i) as [b0|] eqn:E; [|done]. cbn in Hx. injection Hx as <-. by apply (Forall_lookup_1 _ _ _ _ Hr E).
Qed.
Lemma header_frame_bodies id h c c' : bodies_ok c -> handle_header_frame id h c = (c', Ok tt) -> body_step (fun _ => 0) c c'.
Proof.
  intros H. unfold handle_header_frame. destruct (stream_map c !! id) as [ch|] eqn:E; [intros [= <-]; by apply body_step_drop|]. destruct (ps_method _) as [meth|]; [|done].
  assert (Hnew : forall b m l, ch_stream b = id -> ch_queue b = [] -> ch_rx b = true -> m = stream_map c \/ m = <[id := length (chans c)]> (stream_map c) -> body_step (fun _ => 0) c (with_request l (with_bodies m (chans c ++ [b]) c))).
  { intros b m l Hb Hq Hx Hm. split; [|unfold body_account, all_read; cbn [with_request with_bodies writer chans]].
    - split. cbn [with_request with_bodies stream_map chans]. intros i ch Hi.
      assert (Hc : i = id /\ ch = length (chans c) \/ stream_map c !! i = Some ch).
      { destruct Hm as [-> | ->]; [by right|]. rewrite lookup_insert in Hi. case_decide; [left; split; [done|congruence]|by right]. }
      destruct Hc as [[-> ->] | Hc]; [exists b; split; [|done]; rewrite lookup_app_r, Nat.sub_diag by lia; done|]. destruct (bo_map c H i ch Hc) as (b0 & Hb0 & Hs0). exists b0. split; [by apply lookup_app_l_Some|done].
    - assert (Hz : forall i, queued i (chans c ++ [b]) = queued i (chans c)) by (intros i; rewrite queued_app; assert (Hb0 : queued i [b] = 0) by (cbn; rewrite Hq; by case_match); lia).
      split; [intros i; rewrite Hz; lia|]. intros Hr. split; [apply Forall_app; split; [done|by repeat constructor]|]. intros i. rewrite Hz. lia. }
  destruct (headers_is_end_stream h); intros [= <-]; apply Hnew; auto.
Qed.
Lemma data_bodies h p c c' : bodies_ok c -> kind h = KData -> on_data h p c = (c', Ok tt) -> body_step (fun id => data_bytes id (h, p)) c c'.
Proof.
  intros H Hk. unfold on_data, mbind, M_bind, lift. destruct (data_load h p) as [d| |] eqn:Ed; try done.
  assert (Hn : forall id, data_bytes id (h, p) = if d_stream_id d =? id then len (d_data d) else 0) by (intros id; unfold data_bytes; cbn [fst snd]; by rewrite Hk, Ed).
  set (step := match d_data d with [] => mret (is_end_stream d) | payload => push_data (d_stream_id d) payload (is_end_stream d) end).
  assert (Hpush : forall c1 e, step c = (c1, Ok e) -> body_step (fun id => data_bytes id (h, p)) c c1).
  { intros c1 e. unfold step. destruct (d_data d) as [|x l] eqn:El; [intros [= <- _]; apply body_step_same; try done; intros id; rewrite Hn; by case_match|].
    unfold push_data. destruct (stream_map c !! d_stream_id d) as [ch|] eqn:Em; [|done]. destruct (bo_map c H _ ch Em) as (b & Hb & Hs). cbn [mbind option_bind]. rewrite Hb. cbn [fmap option_fmap option_map]. set (q := x :: l) in *.
    destruct (ch_rx b) eqn:Erx; intros [= <- _].
    - assert (Hacc : forall id, queued id (<[ch := mkChan (ch_stream b) (ch_queue b ++ [q]) true (ch_tx b)]> (chans c)) = queued id (chans c) + data_bytes id (h, p)).
      { intros id. rewrite (queued_insert id _ ch b) by done. rewrite Hn, Hs. cbn [ch_queue]. rewrite join_app, len_app. cbn [mjoin list_join]. rewrite app_nil_r. case_match; lia. }
      split; [|unfold body_account, all_read; cbn [with_bodies writer chans]; split; [intros id; rewrite Hacc, Hn; pose proof (len_nonneg q); case_match; lia|]].
      + split. cbn [with_bodies stream_map chans]. intros id ch' Hl. destruct (bo_map c H id ch' Hl) as (b' & Hb' & Hs'). destruct (decide (ch' = ch)) as [->|Hne]; [|exists b'; split; [by rewrite list_lookup_insert_ne|done]].
        eexists. split; [apply list_lookup_insert_eq; by eapply lookup_lt_Some|]. cbn [ch_stream]. congruence.
      + intros Hr. split; [by apply Forall_insert|]. intros id. rewrite Hacc. lia.
    - split; [split; apply (bo_map c H)|]. unfold body_account, all_read. cbn [send writer chans]. split; [intros id; rewrite returned_app, Hn; cbn [returned foldr]; pose proof (len_nonneg q); case_match; lia|].
      intros Hr. exfalso. pose proof (Forall_lookup_1 _ _ _ _ Hr Hb) as Hx. cbn in Hx. congruence. }
  destruct (step c) as [c1 [e| |]]; try done. pose proof (Hpush _ _ eq_refl) as Hp. destruct e; [|by intros [= <-]]. intros [= <-]. unfold end_body. destruct (stream_map c1 !! d_stream_id d) as [ch|] eqn:Em; [|done].
  eapply body_step_ext; [|eapply body_step_trans; [exact Hp|by apply body_step_drop; [apply Hp|]]]. intros id. cbn beta. lia.
Qed.
Lemma data_bytes_other id h p : kind h <> KData -> data_bytes id (h, p) = 0.
Proof. intros H. unfold data_bytes. cbn [fst]. by destruct (kind h). Qed.
Lemma handle_frame_bodies h p c c' : bodies_ok c -> handle_frame h p c = (c', Ok tt) -> body_step (fun id => data_bytes id (h, p)) c c'.
Proof.
  intros H. unfold handle_frame. destruct (kind h) eqn:Ek; intros Hrun;
    try (apply (body_step_ext (fun _ => 0)); [intros id; symmetry; apply data_bytes_other; by rewrite Ek|]); try (injection Hrun as <-; by apply body_step_same).
  - by apply data_bodies.
  - unfold on_headers_frame, mbind, M_bind, lift in Hrun. destruct (headers_load h p) as [[hd pl]| |]; try done. unfold headers_loaded in Hrun. destruct (load_hpack _ _ _ _) as [[[h' p'] d] [a| |]]; try done.
    destruct (is_end_headers h'); [|injection Hrun as <-; by apply body_step_same]. apply header_frame_bodies in Hrun; [exact Hrun|split; apply (bo_map c H)].
  - unfold on_settings, mbind, M_bind, lift, modify in Hrun. destruct (settings_load h p) as [s| |]; try done. destruct (is_ack s); injection Hrun as <-; [by apply body_step_same|].
    apply body_step_same; try done; destruct (initial_window_size s); try done; intros id; cbn [send with_flow with_remote writer]; rewrite returned_app; cbn; lia.
  - unfold on_go_away, mbind, M_bind, lift in Hrun. destruct (go_away_load p); try done. revert Hrun. case_match; intros [= <-]. by apply body_step_same.
  - unfold on_window_update, mbind, M_bind, lift in Hrun. destruct (window_update_load h p) as [w| |]; try done. unfold window_updated in Hrun.
    destruct (_ =? 0); [destruct (add_chk _ _ _); try done; destruct (wake_first _ _); injection Hrun as <-; by apply body_step_same|].
    destruct (flow_map _ !! _); [|injection Hrun as <-; by apply body_step_same]. destruct (s_get _ _); [|done]. destruct (add_chk _ _ _); try done. injection Hrun as <-. destruct (_ >? 0); by apply body_step_same.
  - unfold on_continuation in Hrun. destruct (continuation c) as [[hd pl]|]; [|done]. cbv zeta in Hrun. destruct (negb _); [done|]. destruct (load_hpack _ _ _ _) as [[[h' p'] d] [a|e|]]; try done.
    + apply header_frame_bodies in Hrun; [exact Hrun|split; apply (bo_map c H)].
    + destruct e as [|[]]; try done. destruct (_ =? _); [done|]. injection Hrun as <-. by apply body_step_same.
Qed.
Lemma handle_frames_bodies fs c c' : bodies_ok c -> handle_frames fs c = (c', Ok tt) -> body_step (fun id => received id fs) c c'.
Proof.
  revert c. induction fs as [|[h p] fs IH]; intros c H; cbn [handle_frames]; [intros [= <-]; by apply body_step_same|]. unfold mbind, M_bind. cbn [fst snd].
  destruct (handle_frame h p c) as [c1 [[]| |]] eqn:E; try done. apply handle_frame_bodies in E; [|done]. intros Hr. apply IH in Hr; [|apply E]. eapply body_step_ext; [|eapply body_step_trans; [exact E|exact Hr]]. done.
Qed.
Lemma send_chunk_bodies fuel id b c c' r : send_chunk fuel id b c = (c', Ok r) ->
  stream_map c' = stream_map c /\ chans c' = chans c /\ forall i, returned i (writer c') = returned i (writer c).
Proof.
  revert b c. induction fuel as [|fuel IH]; intros b c; destruct b as [|x b]; cbn [send_chunk]; try by intros [= <- _]. unfold mbind, M_bind, poll_window, lift, modify.
  destruct (flow_map _ !! _ ≫= _) as [[key st]|]; [|done]. destruct (_ || _); [by intros [= <- _]|]. destruct (data_new _ _) as [d| |]; try done. intros Hrun. apply IH in Hrun as (H1 & H2 & H3). split; [done|]. split; [done|].
  intros i. rewrite H3. cbn [send with_flow writer]. rewrite returned_app. cbn [returned foldr]. lia.
Qed.
Definition drops (ev : Event) : bool := match ev with DropBody _ => true | _ => false end.
(** An event moves bytes from the frames to the bodies, and from the bodies to the window given
    back; dropping a body forgets what it holds. *)
Lemma sys_step_bodies ev s s' : sys_ok s -> event_ok ev -> bodies_ok (conn s) -> sys_step ev s = Ok s' ->
  bodies_ok (conn s') /\ (forall id, body_account id (conn s') <= body_account id (conn s) + received id (frames_in ev s)) /\
  (drops ev = false -> all_read (conn s) -> all_read (conn s') /\ forall id, body_account id (conn s') = body_account id (conn s) + received id (frames_in ev s)).
Proof.
  intros Hs Hev H Hrun.
  assert (Hstep : forall n c, body_step n (conn s) c -> (forall id, n id = received id (frames_in ev s)) -> conn s' = c ->
    bodies_ok (conn s') /\ (forall id, body_account id (conn s') <= body_account id (conn s) + received id (frames_in ev s)) /\
    (drops ev = false -> all_read (conn s) -> all_read (conn s') /\ forall id, body_account id (conn s') = body_account id (conn s) + received id (frames_in ev s))).
  { intros n c (B1 & B2 & B3) Hn ->. split; [done|]. split; [intros id; rewrite <- Hn; apply B2|]. intros _ Hr. destruct (B3 Hr) as [B4 B5]. split; [done|]. intros id. rewrite <- Hn. apply B5. }
  assert (Hsame : forall c, stream_map c = stream_map (conn s) -> chans c = chans (conn s) -> (forall i, returned i (writer c) = returned i (writer (conn s))) -> body_step (fun _ => 0) (conn s) c) by (intros; by apply body_step_same).
  destruct ev as [seg|k st m size|k|k x|k|k|ch|ch|k]; cbn [sys_step] in Hrun; unfold of_result in Hrun.
  - unfold try_decode in Hrun. cbn [snd] in Hrun. destruct (try_decode_loop _ _ _) as [c' [r'| |]] eqn:E; try done. injection Hrun as <-. apply try_decode_loop_frames in E as [E _]. by eapply Hstep; [by eapply handle_frames_bodies| |].
  - destruct (tasks s !! k) as [[| |]|]; try done. destruct (requests (conn s) !! k) as [rq|]; [|done]. injection Hrun as <-. apply (Hstep (fun _ => 0) (respond (rq_stream rq) st m size (conn s))); [|done|done].
    apply Hsame; unfold respond; destruct size; try done; intros i; cbn [send with_flow writer]; rewrite returned_app; cbn [returned foldr]; lia.
  - destruct (tasks s !! k) as [[| |]|]; try done. injection Hrun as <-. by apply (Hstep (fun _ => 0) (conn s)); [apply Hsame| |].
  - destruct (tasks s !! k) as [[|[|]|]|]; try done. destruct (requests (conn s) !! k) as [rq|]; [|done]. destruct (send_chunk _ _ _ _) as [c' [r| |]] eqn:E; try done. injection Hrun as <-. apply send_chunk_bodies in E as (E1 & E2 & E3). by apply (Hstep (fun _ => 0) c'); [apply Hsame| |].
  - destruct (tasks s !! k) as [[|[|]|]|]; try done. destruct (requests (conn s) !! k) as [rq|]; [|done]. destruct (send_chunk _ _ _ _) as [c' [r| |]] eqn:E; try done. injection Hrun as <-. apply send_chunk_bodies in E as (E1 & E2 & E3). by apply (Hstep (fun _ => 0) c'); [apply Hsame| |].
  - destruct (tasks s !! k) as [[|[|]|]|]; try done. destruct (requests (conn s) !! k) as [rq|]; [|done]. destruct (finish_body _ _) as [c' [[]| |]] eqn:E; try done. injection Hrun as <-. apply (Hstep (fun _ => 0) c'); [|done|done].
    unfold finish_body, mbind, M_bind, modify, drop_guard in E. cbn [send flow] in E. apply Hsame; repeat case_match; try done; injection E as <-; try done; intros i; cbn [send with_flow writer]; rewrite returned_app; cbn [returned foldr]; lia.
  - injection Hrun as <-. apply (Hstep (fun _ => 0) (body_poll_next ch (conn s)).1); [|done|done]. unfold body_poll_next. destruct (chans (conn s) !! ch) as [b|] eqn:Eb; [|by apply Hsame]. destruct (ch_queue b) as [|p q] eqn:Eq; [by apply Hsame|]. cbn [fst].
    set (c2 := send _ _). assert (Hacc : forall id, body_account id c2 = body_account id (conn s)).
    { intros id. unfold body_account, c2. cbn [send with_bodies writer chans]. rewrite returned_app, (queued_insert id _ ch b) by done. cbn [ch_queue]. rewrite Eq. change (mjoin (p :: q)) with (p ++ mjoin q). rewrite len_app.
      assert (Hone : returned id [MWindowUpdate (ch_stream b) (len p)] = if ch_stream b =? id then len p else 0) by (cbn [returned foldr]; case_match; lia). rewrite Hone. case_match; lia. }
    split; [|split; [intros id; rewrite Hacc; lia|]].
    + split. unfold c2. cbn [send with_bodies stream_map chans]. intros id ch' Hl. destruct (bo_map _ H id ch' Hl) as (b' & Hb' & Hs'). destruct (decide (ch' = ch)) as [->|Hne]; [|exists b'; split; [by rewrite list_lookup_insert_ne|done]].
      eexists. split; [apply list_lookup_insert_eq; by eapply lookup_lt_Some|]. cbn [ch_stream]. congruence.
    + intros Hr. split; [apply Forall_insert; [done|]; cbn; exact (Forall_lookup_1 _ _ _ _ Hr Eb)|]. intros id. rewrite Hacc. lia.
  - injection Hrun as <-. cbn [conn frames_in drops received foldr]. split; [|split; [|done]].
    + split. cbn [body_drop with_bodies stream_map chans]. intros id ch' Hl. destruct (bo_map _ H id ch' Hl) as (b & Hb & Hsb). destruct (decide (ch' = ch)) as [->|Hne]; [rewrite list_lookup_alter_eq, Hb|rewrite list_lookup_alter_ne, Hb by done]; by eexists.
    + intros id. unfold body_account. cbn [body_drop with_bodies writer chans]. pose proof (queued_drop id ch (chans (conn s))). lia.
  - by repeat case_match.
Qed.
Lemma run_bodies evs s s' : sys_ok s -> data_ok (conn s) -> Forall event_ok evs -> bodies_ok (conn s) -> run evs s = Ok s' ->
  (forall id, body_account id (conn s') <= body_account id (conn s) + received id (read_segments (segments evs) (reader s)).1) /\
  (Forall (fun ev => drops ev = false) evs -> all_read (conn s) -> forall id, body_account id (conn s') = body_account id (conn s) + received id (read_segments (segments evs) (reader s)).1).
Proof.
  intros Hs Hd Hev. revert s Hs Hd. induction Hev as [|ev evs He Hev IH]; intros s Hs Hd Hb; cbn [run].
  - intros [= <-]. split; [intros id; cbn; lia|]. intros _ _ id. cbn. lia.
  - destruct (sys_step ev s) as [s1| |] eqn:E; cbn [mbind outcome_bind]; try done. intros Hrun. pose proof (sys_step_reader _ _ _ E) as Hrd. destruct (sys_step_kept ev s s1 Hs Hd He E) as (K1 & K2 & _).
    destruct (sys_step_bodies ev s s1 Hs He Hb E) as (B1 & B2 & B3). destruct (IH s1 K1 K2 B1 Hrun) as [I1 I2]. rewrite read_segments_event, <- Hrd. split.
    + intros id. rewrite received_app. specialize (B2 id). specialize (I1 id). lia.
    + intros Hdr Hr id. apply Forall_cons in Hdr as [Hd1 Hdr]. destruct (B3 Hd1 Hr) as [B4 B5]. rewrite received_app, (I2 Hdr B4 id), B5. lia.
Qed.
End Bodies.

(** ** Properties *)

(** C10: the window of a request's body is given back exactly as it is read.  For every stream, the
    WINDOW_UPDATEs sent and the bytes waiting in its bodies never exceed the DATA received for it,
    and they are equal to it as long as no body is dropped. *)
Theorem h2_request_window `{FT : FieldTypes} `{HF : HeaderFields} `{SL : !Slabs StreamControlFlow} evs s :
  Forall event_ok evs -> run evs sys_new = Ok s ->
  let fs := (read_segments (segments evs) (0, [])).1 in
  forall id, returned id (writer (conn s)) + queued id (chans (conn s)) <= received id fs /\
    (Forall (fun ev => drops ev = false) evs -> returned id (writer (conn s)) + queued id (chans (conn s)) = received id fs).
Proof.
  intros Hev Hrun fs id. destruct sys_new_ok as [H0 H1]. assert (Hb : bodies_ok (conn sys_new)) by (split; cbn; intros i ch; by rewrite lookup_empty).
  destruct (run_bodies evs sys_new s H0 H1 Hev Hb Hrun) as [R1 R2]. split; [exact (R1 id)|]. intros Hd. apply (R2 Hd); constructor.
Qed.
(** Two DATA frames, one of them read. *)
Definition upload : list Event :=
  [Segment (demo_segment ++ data_encode (mkData 1 [1; 2; 3; 4] 0 None) []); Segment (data_encode (mkData 1 [5; 6] END_STREAM None) []); ReadBody 0].
Lemma upload_ok : Forall event_ok upload.
Proof.
  assert (H : forall seg, bool_decide (bytes_ok seg) = true -> event_ok (Segment seg)) by (intros seg; apply bool_decide_eq_true_1). unfold upload.
  apply Forall_cons; split; [apply H; by vm_compute|]. apply Forall_cons; split; [apply H; by vm_compute|]. by apply Forall_cons.
Qed.
Lemma h2_request_window_witness : exists s, run upload sys_new = Ok s /\ returned 1 (writer (conn s)) = 4 /\ queued 1 (chans (conn s)) = 2 /\
  returned 1 (writer (conn s)) + queued 1 (chans (conn s)) = received 1 (read_segments (segments upload) (0, [])).1.
Proof.
  destruct (ok_and_some (fun s => (returned 1 (writer (conn s)) =? 4) && (queued 1 (chans (conn s)) =? 2)) (run upload sys_new)) as (s & Hrun & Hw); [vm_compute; reflexivity|].
  apply andb_prop in Hw as [H1 H2]. exists s. split; [exact Hrun|]. split; [exact (proj1 (Z.eqb_eq _ _) H1)|]. split; [exact (proj1 (Z.eqb_eq _ _) H2)|].
  apply (proj2 (h2_request_window upload s upload_ok Hrun 1)). repeat (apply Forall_cons; split; [reflexivity|]). apply Forall_nil_2.
Defined.
