(* ===== verification/RouterRoute.v ===== *)
(** * Routes of the path router: escapes, wildcards, parameter names

    router/src/escape.rs ([UnescapedRoute], [UnescapedRef]) and the functions of
    router/src/tree.rs that read and rewrite a route: [find_wildcard], [normalize_params] and
    [denormalize_params].  A route is abstracted to its symbols ([syms]): its bytes, each with
    the mark that says whether it was written as a doubled brace.  The lemmas show that the
    offset arithmetic of the slices computes with symbols, that unescaping inverts escaping,
    and what a normalised route looks like. *)

From S2P Require Import Prelude Utf8.

Local Open Scope nat_scope.

(** ** The errors of insertion (router/src/error.rs) *)

Inductive InsertError : Type :=
| Conflict (with_ : bytes)
| InvalidParamSegment
| InvalidParam
| InvalidCatchAll.

#[global] Instance InsertError_eq_dec : EqDecision InsertError.
Proof. solve_decision. Defined.

Abbreviation LB := 123%Z (only parsing).
Abbreviation RB := 125%Z (only parsing).
Abbreviation STAR := 42%Z (only parsing).
Abbreviation SLASH := 47%Z (only parsing).

(** ** Unescaped routes (router/src/escape.rs) *)

Record UnescapedRoute : Type := mkRoute { inner : bytes; escaped : list nat }.
(** A borrowed slice of a route: [f_offset] is added to every escaped index. *)
Record UnescapedRef : Type := mkRef { f_inner : bytes; f_escaped : list nat; f_offset : Z }.

#[global] Instance UnescapedRoute_eq_dec : EqDecision UnescapedRoute.
Proof. solve_decision. Defined.

(** [usize::checked_add_signed]. *)
Definition checked_add_signed (i : nat) (d : Z) : option nat :=
  if (0 <=? Z.of_nat i + d)%Z then Some (Z.to_nat (Z.of_nat i + d)) else None.

(** The loop of [UnescapedRoute::new]; every turn moves [i] one byte on. *)
Fixpoint new_loop (fuel : nat) (l : bytes) (esc : list nat) (i : nat) : UnescapedRoute :=
  match fuel, l !! i with
  | O, _ | _, None => mkRoute l esc
  | S fuel, Some c =>
      if ((c =? LB)%Z && bool_decide (l !! (i + 1) = Some LB))
         || ((c =? RB)%Z && bool_decide (l !! (i + 1) = Some RB))
      then new_loop fuel (delete i l) (esc ++ [i]) (i + 1)
      else new_loop fuel l esc (i + 1)
  end.
Definition route_new (l : bytes) : UnescapedRoute := new_loop (length l) l [] 0.

Definition route_default : UnescapedRoute := mkRoute [] [].
Definition route_is_escaped (r : UnescapedRoute) (i : nat) : bool := bool_decide (i ∈ escaped r).

(** [UnescapedRoute::splice]: the removed bytes and the route left. *)
Definition splice {E} (r : UnescapedRoute) (range : nat * nat) (replace : bytes) :
  outcome E (bytes * UnescapedRoute) :=
  let '(a, b) := range in
  let kept := filter (fun x => ~ (a <= x < b)) (escaped r) in
  let offset := (len replace - (Z.of_nat b - Z.of_nat a))%Z in
  match mapM (fun i => if b <? i then checked_add_signed i offset else Some i) kept with
  | None => Panic
  | Some esc =>
      if (a <=? b) && (b <=? length (inner r)) then
        Ok (drop a (take b (inner r)),
            mkRoute (take a (inner r) ++ replace ++ drop b (inner r)) esc)
      else Panic
  end.

Definition append (r other : UnescapedRoute) : UnescapedRoute :=
  mkRoute (inner r ++ inner other)
          (escaped r ++ ((fun i => length (inner r) + i) <$> escaped other)).
Definition truncate (r : UnescapedRoute) (to : nat) : UnescapedRoute :=
  mkRoute (take to (inner r)) (filter (fun x => x < to) (escaped r)).

Definition as_ref (r : UnescapedRoute) : UnescapedRef := mkRef (inner r) (escaped r) 0.

Definition to_owned (f : UnescapedRef) : UnescapedRoute :=
  mkRoute (f_inner f)
    (filter (fun i => i < length (f_inner f))
       (omap (fun i => checked_add_signed i (f_offset f)) (f_escaped f))).
Definition ref_is_escaped (f : UnescapedRef) (i : nat) : bool :=
  match checked_add_signed i (- f_offset f) with
  | Some i => bool_decide (i ∈ f_escaped f)
  | None => false
  end.
(** The slices; the source panics when the bound is beyond the slice, and every caller passes
    one that is not (see [slice_off_chk] for the one place that is not immediate). *)
Definition slice_off (f : UnescapedRef) (start : nat) : UnescapedRef :=
  mkRef (drop start (f_inner f)) (f_escaped f) (f_offset f - Z.of_nat start).
Definition slice_until (f : UnescapedRef) (end_ : nat) : UnescapedRef :=
  mkRef (take end_ (f_inner f)) (f_escaped f) (f_offset f).
Definition slice_off_chk {E} (f : UnescapedRef) (start : nat) : outcome E UnescapedRef :=
  if start <=? length (f_inner f) then Ok (slice_off f start) else Panic.
Definition f_len (f : UnescapedRef) : nat := length (f_inner f).

(** ** Wildcards (router/src/tree.rs) *)

(** The inner loop of [find_wildcard]: the index after the closing brace. *)
Fixpoint find_close (path : UnescapedRef) (i : nat) (l : bytes) : outcome InsertError nat :=
  match l with
  | [] => Err InvalidParam
  | c :: l =>
      if (c =? RB)%Z then
        if ref_is_escaped path i then find_close path (S i) l else Ok (S i)
      else if ((c =? STAR) || (c =? SLASH))%Z then Err InvalidParam
      else find_close path (S i) l
  end.
Fixpoint find_wildcard_from (path : UnescapedRef) (start : nat) (l : bytes) :
  outcome InsertError (option (nat * nat)) :=
  match l with
  | [] => Ok None
  | c :: l' =>
      if (c =? RB)%Z && negb (ref_is_escaped path start) then Err InvalidParam
      else if negb (c =? LB)%Z || ref_is_escaped path start then find_wildcard_from path (S start) l'
      else if bool_decide (f_inner path !! (start + 1) = Some RB) then Err InvalidParam
      else e ← find_close path (start + 2) (drop (start + 2) (f_inner path)); Ok (Some (start, e))
  end.
Definition find_wildcard (path : UnescapedRef) : outcome InsertError (option (nat * nat)) :=
  find_wildcard_from path 0 (f_inner path).

(** [str::from_utf8(..).unwrap()]. *)
Definition from_utf8_unwrap {E} (l : bytes) : outcome E bytes :=
  if utf8_valid l then Ok l else Panic.

Definition ParamRemapping : Type := list bytes.

(** The loop of [normalize_params]; the part of the route after [start] shrinks every turn. *)
Fixpoint normalize_loop (fuel : nat) (path : UnescapedRoute) (original : ParamRemapping)
  (start : nat) (next : Z) : outcome InsertError (UnescapedRoute * ParamRemapping) :=
  match fuel with
  | O => Panic
  | S fuel =>
      w ← find_wildcard (slice_off (as_ref path) start);
      match w with
      | None => Ok (path, original)
      | Some (ws, we) =>
          let ws := ws + start in
          let we := we + start in
          if we - ws <? 2 then Err InvalidParam
          else if bool_decide (inner path !! (ws + 1) = Some STAR) then
            normalize_loop fuel path original we next
          else
            '(removed, path) ← splice path (ws, we) [LB; next; RB];
            name ← from_utf8_unwrap (removelast (drop 1 removed));
            if (122 <? next + 1)%Z then Panic
            else normalize_loop fuel path (original ++ [name]) (ws + 3) (next + 1)
      end
  end.
Definition normalize_params (path : UnescapedRoute) :
  outcome InsertError (UnescapedRoute * ParamRemapping) :=
  normalize_loop (S (length (inner path))) path [] 0 97.

(** [find_wildcard(..).unwrap()]. *)
Definition result_unwrap {E F A} (m : outcome E A) : outcome F A :=
  match m with Ok a => Ok a | _ => Panic end.

Fixpoint denormalize_loop {E} (fuel : nat) (route : UnescapedRoute) (params : ParamRemapping)
  (start : nat) : outcome E UnescapedRoute :=
  match fuel with
  | O => Panic
  | S fuel =>
      w ← result_unwrap (find_wildcard (slice_off (as_ref route) start));
      match w, params with
      | Some (ws, we), name :: params =>
          let ws := ws + start in
          let we := we + start in
          let next := [LB] ++ name ++ [RB] in
          '(_, route) ← splice route (ws, we) next;
          denormalize_loop fuel route params (ws + length next)
      | _, _ => Ok route
      end
  end.
Definition denormalize_params {E} (route : UnescapedRoute) (params : ParamRemapping) :
  outcome E UnescapedRoute :=
  denormalize_loop (S (length params)) route params 0.

#[global] Arguments splice : simpl never.

(** ** Routes as symbols *)

(** A byte, and whether it was escaped. *)
Abbreviation sym := (Z * bool)%type.
Definition syms (r : UnescapedRoute) : list sym := imap (fun i b => (b, route_is_escaped r i)) (inner r).
Definition fsyms (f : UnescapedRef) : list sym := imap (fun i b => (b, ref_is_escaped f i)) (f_inner f).

(** A symbol that stands for itself: anything but an unescaped brace. *)
Definition is_brace (b : Z) : bool := (b =? LB)%Z || (b =? RB)%Z.
Definition literal (s : sym) : bool := negb (is_brace s.1) || s.2.
Definition literals (l : list sym) : Prop := Forall (fun s => literal s = true) l.

(** Escapes that only mark braces; a literal symbol with such a mark is a text symbol. *)
Definition clean_sym (s : sym) : Prop := s.2 = true -> is_brace s.1 = true.
Definition clean (l : list sym) : Prop := Forall clean_sym l.
Definition text_sym (b : Z) : sym := (b, is_brace b).
Definition texts (l : list sym) : Prop := Forall (fun s => s = text_sym s.1) l.

Lemma texts_iff l : texts l <-> literals l /\ clean l.
Proof.
  unfold texts, literals, clean. rewrite <- Forall_and. apply Forall_iff. intros [b e].
  unfold text_sym, literal, clean_sym. simpl. destruct (is_brace b), e; simpl; naive_solver.
Qed.
Lemma texts_literals l : texts l -> literals l.
Proof. by rewrite texts_iff; intros [? _]. Qed.

(** No parameter directly follows another wildcard. *)
Definition spaced (l : list sym) : Prop := forall i, l !! i = Some (RB, false) -> l !! S i <> Some (LB, false).
Definition tidy (l : list sym) : Prop := clean l /\ spaced l.
Fixpoint spacedb (l : list sym) : bool :=
  match l with
  | s :: l => negb (bool_decide (s = (RB, false)) && bool_decide (head l = Some (LB, false))) && spacedb l
  | [] => true
  end.
Lemma spacedb_spec l : spacedb l = true -> spaced l.
Proof.
  induction l as [|s l IH]; [by intros _ i; rewrite lookup_nil|]. simpl. intros [Hs Hl]%andb_prop [|i]; simpl.
  - intros [= ->] Hh. rewrite bool_decide_eq_true_2, bool_decide_eq_true_2 in Hs; [done|by destruct l|done].
  - by apply IH.
Qed.
#[global] Instance clean_dec l : Decision (clean l).
Proof. unfold clean, clean_sym. apply _. Defined.
(** Concrete routes are checked by computation. *)
Lemma tidy_check l : bool_decide (clean l) && spacedb l = true -> tidy l.
Proof. intros [Hc Hs]%andb_prop. split; [by apply bool_decide_eq_true in Hc|by apply spacedb_spec]. Qed.

Lemma tidy_drop n l : tidy l -> tidy (drop n l).
Proof.
  intros [Hc Hs]. split; [by apply Forall_drop|]. intros i. rewrite !lookup_drop. rewrite Nat.add_succ_r. apply Hs.
Qed.
Lemma tidy_clean l : tidy l -> clean l.
Proof. by intros [? _]. Qed.

(** A symbol of a wildcard's name, after its first. *)
Definition name_sym (s : sym) : Prop :=
  (s.1 <> STAR /\ s.1 <> SLASH) /\ (s.1 = RB -> s.2 = true).

(** The shape of a normalised route with a number of parameters: literal symbols, parameters
    [{x}] and catch-alls [{*name}]. *)
Inductive normal : list sym -> nat -> Prop :=
| normal_nil : normal [] 0
| normal_literal s l n : literal s = true -> normal l n -> normal (s :: l) n
| normal_param x l n : (97 <= x <= 122)%Z -> normal l n ->
    normal ((LB, false) :: (x, false) :: (RB, false) :: l) (S n)
| normal_catch_all e name l n : Forall name_sym name -> normal l n ->
    normal ((LB, false) :: (STAR, e) :: name ++ (RB, false) :: l) n.

(** *** Slices compute with symbols *)

Lemma syms_bytes r : (syms r).*1 = inner r.
Proof. unfold syms. apply list_eq. intros i. rewrite list_lookup_fmap, list_lookup_imap. by destruct (inner r !! i). Qed.
Lemma fsyms_bytes f : (fsyms f).*1 = f_inner f.
Proof. unfold fsyms. apply list_eq. intros i. rewrite list_lookup_fmap, list_lookup_imap. by destruct (f_inner f !! i). Qed.
Lemma syms_length r : length (syms r) = length (inner r).
Proof. apply length_imap. Qed.
Lemma fsyms_length f : length (fsyms f) = f_len f.
Proof. apply length_imap. Qed.
Lemma fsyms_lookup f i : fsyms f !! i = (fun b => (b, ref_is_escaped f i)) <$> f_inner f !! i.
Proof. apply list_lookup_imap. Qed.
Lemma syms_lookup r i : syms r !! i = (fun b => (b, route_is_escaped r i)) <$> inner r !! i.
Proof. apply list_lookup_imap. Qed.

Lemma checked_add_signed_Some i d j : checked_add_signed i d = Some j <-> (Z.of_nat i + d = Z.of_nat j)%Z.
Proof. unfold checked_add_signed. case_match eqn:E; zb; split; intros; simplify_eq; try lia; try (f_equal; lia). Qed.

Lemma ref_is_escaped_true f i :
  ref_is_escaped f i = true <-> exists j, (Z.of_nat j + f_offset f = Z.of_nat i)%Z /\ j ∈ f_escaped f.
Proof.
  unfold ref_is_escaped. split.
  - case_match eqn:E; [|done]. apply checked_add_signed_Some in E. intros H%bool_decide_eq_true. exists n. split; [lia|done].
  - intros (j & Hj & Hin). replace (checked_add_signed i _) with (Some j); [by apply bool_decide_eq_true|].
    symmetry. apply checked_add_signed_Some. lia.
Qed.

Lemma fsyms_as_ref r : fsyms (as_ref r) = syms r.
Proof.
  apply list_eq. intros i. rewrite fsyms_lookup, syms_lookup. simpl. destruct (inner r !! i); [|done]. simpl. do 2 f_equal.
  apply eq_true_iff_eq. rewrite ref_is_escaped_true. unfold route_is_escaped. rewrite bool_decide_eq_true. simpl.
  split; [intros (j & ? & ?); replace i with j by lia; done|intros; exists i; split; [lia|done]].
Qed.

Lemma fsyms_slice_off f n : fsyms (slice_off f n) = drop n (fsyms f).
Proof.
  apply list_eq. intros i. rewrite lookup_drop, !fsyms_lookup. simpl. rewrite lookup_drop.
  destruct (f_inner f !! (n + i)); [|done]. simpl. do 2 f_equal. apply eq_true_iff_eq. rewrite !ref_is_escaped_true. simpl.
  split; intros (j & ? & ?); exists j; (split; [lia|done]).
Qed.

Lemma fsyms_slice_until f n : fsyms (slice_until f n) = take n (fsyms f).
Proof.
  apply list_eq. intros i. destruct (decide (i < n)).
  - rewrite lookup_take_lt, !fsyms_lookup by done. simpl. by rewrite lookup_take_lt.
  - rewrite !lookup_ge_None_2; [done| |]; [rewrite length_take|rewrite fsyms_length; unfold f_len; simpl; rewrite length_take]; lia.
Qed.

Lemma syms_to_owned f : syms (to_owned f) = fsyms f.
Proof.
  apply list_eq. intros i. rewrite syms_lookup, fsyms_lookup. simpl.
  destruct (f_inner f !! i) eqn:E; [|done]. simpl. do 2 f_equal. apply lookup_lt_Some in E.
  apply eq_true_iff_eq. rewrite ref_is_escaped_true. unfold route_is_escaped. rewrite bool_decide_eq_true. simpl.
  rewrite list_elem_of_filter, list_elem_of_omap. split.
  - intros (_ & j & ? & Hj). apply checked_add_signed_Some in Hj. by exists j.
  - intros (j & ? & ?). split; [lia|]. exists j. by rewrite checked_add_signed_Some.
Qed.

Create Rewrite HintDb syms.
#[export] Hint Rewrite fsyms_as_ref fsyms_slice_off fsyms_slice_until syms_to_owned : syms.

Lemma syms_default : syms route_default = [].
Proof. done. Qed.

Lemma starts_static_syms f : (negb (bool_decide (f_inner f !! 0 = Some LB)) || ref_is_escaped f 0)
  = match fsyms f with [] => true | (c, e) :: _ => negb (c =? LB)%Z || e end.
Proof.
  pose proof (fsyms_lookup f 0) as H. destruct (fsyms f) as [|[c e] l]; simpl in H.
  - destruct (f_inner f !! 0); simplify_eq/=. done.
  - destruct (f_inner f !! 0) as [b|]; simplify_eq/=. f_equal. f_equal.
    destruct (Z.eqb_spec b LB) as [->|]; [done|]. apply bool_decide_eq_false. congruence.
Qed.

(** *** The wildcard search on symbols *)

Fixpoint close_in (i : nat) (l : list sym) : outcome InsertError nat :=
  match l with
  | [] => Err InvalidParam
  | (c, e) :: l =>
      if (c =? RB)%Z then if e : bool then close_in (S i) l else Ok (S i)
      else if ((c =? STAR) || (c =? SLASH))%Z then Err InvalidParam
      else close_in (S i) l
  end.
Fixpoint wildcard_in (i : nat) (l : list sym) : outcome InsertError (option (nat * nat)) :=
  match l with
  | [] => Ok None
  | (c, e) :: l =>
      if (c =? RB)%Z && negb e then Err InvalidParam
      else if negb (c =? LB)%Z || e then wildcard_in (S i) l
      else if bool_decide (l.*1 !! 0 = Some RB) then Err InvalidParam
      else e ← close_in (i + 2) (drop 1 l); Ok (Some (i, e))
  end.

Lemma drop_S_cons {A} (l : list A) i x k : drop i l = x :: k -> drop (S i) l = k.
Proof. intros H. change (S i) with (1 + i). rewrite Nat.add_comm, <- drop_drop, H. done. Qed.

Lemma drop_fsyms f i c l : drop i (f_inner f) = c :: l ->
  drop i (fsyms f) = (c, ref_is_escaped f i) :: drop (S i) (fsyms f).
Proof.
  intros H. apply drop_S. rewrite fsyms_lookup. assert (Hi : drop i (f_inner f) !! 0 = Some c) by by rewrite H.
  rewrite lookup_drop, Nat.add_0_r in Hi. by rewrite Hi.
Qed.
Lemma drop_fsyms_nil f i : drop i (f_inner f) = [] -> drop i (fsyms f) = [].
Proof. intros H. apply drop_ge. rewrite fsyms_length. apply (f_equal length) in H. rewrite length_drop in H. unfold f_len. simpl in H. lia. Qed.

Lemma find_close_syms f i l : l = drop i (f_inner f) -> find_close f i l = close_in i (drop i (fsyms f)).
Proof.
  revert i. induction l as [|c l IH]; intros i H; symmetry in H.
  - by rewrite drop_fsyms_nil.
  - rewrite (drop_fsyms _ _ _ _ H). cbn [find_close close_in]. rewrite !(IH (S i)) by by apply drop_S_cons in H. done.
Qed.

Lemma find_from_syms f i l : l = drop i (f_inner f) -> find_wildcard_from f i l = wildcard_in i (drop i (fsyms f)).
Proof.
  revert i. induction l as [|c l IH]; intros i H; symmetry in H.
  - by rewrite drop_fsyms_nil.
  - rewrite (drop_fsyms _ _ _ _ H). cbn [find_wildcard_from wildcard_in].
    rewrite !(IH (S i)) by by apply drop_S_cons in H.
    rewrite list_lookup_fmap, lookup_drop, <- list_lookup_fmap, fsyms_bytes, drop_drop.
    replace (S i + 0) with (i + 1) by lia. replace (S i + 1) with (i + 2) by lia.
    by rewrite find_close_syms by done.
Qed.

Lemma find_wildcard_syms f : find_wildcard f = wildcard_in 0 (fsyms f).
Proof. unfold find_wildcard. by rewrite find_from_syms by done. Qed.

Lemma literal_cases c e : literal (c, e) = true <->
  (c =? RB)%Z && negb e = false /\ (negb (c =? LB)%Z || e) = true.
Proof. unfold literal, is_brace. simpl. destruct (c =? LB)%Z, (c =? RB)%Z, e; simpl; intuition done. Qed.

(** Literals are skipped. *)
Lemma wildcard_in_literals i l k : literals l -> wildcard_in i (l ++ k) = wildcard_in (i + length l) k.
Proof.
  revert i. induction l as [|[c e] l IH]; intros i H; [by rewrite Nat.add_0_r|].
  apply Forall_cons in H as [[H1 H2]%literal_cases H]. simpl. rewrite H1, H2. rewrite IH by done. f_equal. lia.
Qed.

Lemma close_in_name i name l : Forall name_sym name ->
  close_in i (name ++ (RB, false) :: l) = Ok (i + length name + 1).
Proof.
  revert i. induction name as [|[c e] name IH]; intros i H; [simpl; f_equal; lia|].
  apply Forall_cons in H as [[[H1 H2] H3] H]. simpl in H1, H2, H3. cbn -[Z.eqb]. destruct (Z.eqb_spec c RB) as [->|].
  - rewrite H3 by done. rewrite IH by done. f_equal. lia.
  - rewrite !(proj2 (Z.eqb_neq c _)) by done. simpl. rewrite IH by done. f_equal. lia.
Qed.

Lemma close_in_Ok i l e : close_in i l = Ok e ->
  exists name rest, l = name ++ (RB, false) :: rest /\ Forall name_sym name /\ e = i + length name + 1.
Proof.
  revert i. induction l as [|[c b] l IH]; intros i; cbn -[Z.eqb]; [done|].
  assert (Hn : forall s, name_sym s -> close_in (S i) l = Ok e ->
    exists name rest, s :: l = name ++ (RB, false) :: rest /\ Forall name_sym name /\ e = i + length name + 1).
  { intros s Hs (name & rest & -> & ? & ->)%IH. exists (s :: name), rest. split; [done|]. split; [by constructor|simpl; lia]. }
  destruct (Z.eqb_spec c RB) as [->|]; [destruct b; [by apply Hn|]|].
  - intros [= <-]. exists [], l. split; [done|]. split; [done|simpl; lia].
  - destruct (Z.eqb_spec c STAR), (Z.eqb_spec c SLASH); try done. by apply Hn.
Qed.

Lemma wildcard_in_Ok i l w : wildcard_in i l = Ok w ->
  match w with
  | None => literals l
  | Some (s, e) =>
      exists pre x name rest, l = pre ++ (LB, false) :: x :: name ++ (RB, false) :: rest /\ literals pre
        /\ Forall name_sym name /\ s = i + length pre /\ e = s + 2 + length name + 1 /\ x.1 <> RB
  end.
Proof.
  revert i. induction l as [|[c b] l IH]; intros i; cbn [wildcard_in]; [intros [= <-]; constructor|].
  destruct ((c =? RB)%Z && negb b) eqn:E1; [done|]. destruct (negb (c =? LB)%Z || b) eqn:E2.
  - intros H%IH. assert (Hl : literal (c, b) = true) by by apply literal_cases. destruct w as [[s e]|]; [|by constructor].
    destruct H as (pre & x & name & rest & -> & ? & ? & -> & -> & ?). exists ((c, b) :: pre), x, name, rest.
    split; [done|]. split; [by constructor|]. split; [done|]. simpl. split; [lia|]. split; [lia|done].
  - apply orb_false_iff in E2 as [Hc ->]. apply negb_false_iff, Z.eqb_eq in Hc as ->. case_bool_decide as Hr; [done|].
    destruct (close_in (i + 2) (drop 1 l)) as [e| |] eqn:Hcl; [|done|done]. intros [= <-]. destruct l as [|x l]; [done|].
    simpl in Hcl. rewrite drop_0 in Hcl. apply close_in_Ok in Hcl as (name & rest & -> & ? & ->).
    exists [], x, name, rest. split; [done|]. split; [constructor|]. split; [done|]. simpl in *. split; [lia|]. split; [lia|congruence].
Qed.

Lemma wildcard_in_found i pre x name rest : literals pre -> Forall name_sym name -> x.1 <> RB ->
  wildcard_in i (pre ++ (LB, false) :: x :: name ++ (RB, false) :: rest)
  = Ok (Some (i + length pre, i + length pre + 2 + length name + 1)).
Proof.
  intros Hp Hn Hx. rewrite wildcard_in_literals by done. simpl. rewrite drop_0.
  rewrite bool_decide_eq_false_2 by congruence. rewrite close_in_name by done. done.
Qed.
Lemma wildcard_in_param i pre x rest : literals pre -> (97 <= x <= 122)%Z ->
  wildcard_in i (pre ++ (LB, false) :: (x, false) :: (RB, false) :: rest) = Ok (Some (i + length pre, i + length pre + 3)).
Proof.
  intros Hp Hx. pose proof (wildcard_in_found i pre (x, false) [] rest) as H. simpl in H. rewrite H by (try done; lia).
  do 3 f_equal. lia.
Qed.
Lemma wildcard_in_none i l : literals l -> wildcard_in i l = Ok None.
Proof. intros H. rewrite <- (app_nil_r l), wildcard_in_literals by done. done. Qed.

(** *** Splicing *)

Lemma elem_of_mapM {A B} (f : A -> option B) l k y :
  mapM f l = Some k -> y ∈ k <-> exists x, x ∈ l /\ f x = Some y.
Proof.
  intros H%mapM_Some. induction H as [|x z l k Hxz H IH].
  - split; [intros []%elem_of_nil|intros (? & []%elem_of_nil & _)].
  - rewrite elem_of_cons, IH. split.
    + intros [-> | (x' & ? & ?)]; [exists x|exists x']; rewrite elem_of_cons; auto.
    + intros (x' & [-> | ?]%elem_of_cons & ?); [left; congruence|right; eauto].
Qed.

(** Where an escaped index goes when [a..b] is replaced by [n] bytes. *)
Definition moved (a b n i : nat) : nat := if b <? i then i - b + a + n else i.

Lemma splice_spec {E} r a b rep : a <= b <= length (inner r) ->
  exists r', @splice E r (a, b) rep = Ok (drop a (take b (inner r)), r')
    /\ inner r' = take a (inner r) ++ rep ++ drop b (inner r)
    /\ forall i, i ∈ escaped r' <-> exists j, j ∈ escaped r /\ ~ (a <= j < b) /\ i = moved a b (length rep) j.
Proof.
  intros Hab. unfold splice.
  set (f := fun i => if b <? i then checked_add_signed i (len rep - (Z.of_nat b - Z.of_nat a)) else Some i).
  assert (Hf : forall i, f i = Some (moved a b (length rep) i)).
  { intros i. unfold f, moved. destruct (Nat.ltb_spec b i); [|done]. apply checked_add_signed_Some. unfold len. lia. }
  destruct (mapM_is_Some_2 f (filter (fun x => ~ a <= x < b) (escaped r))) as [k Hk].
  { apply Forall_forall. eauto. }
  rewrite Hk. rewrite (proj2 (Nat.leb_le a b)), (proj2 (Nat.leb_le b _)) by lia. simpl.
  eexists. split; [reflexivity|]. split; [done|]. intros i. simpl. rewrite (elem_of_mapM _ _ _ _ Hk).
  setoid_rewrite list_elem_of_filter. setoid_rewrite Hf. split; intros (j & ? & ?); exists j; naive_solver.
Qed.

(** What the splice leaves before the replaced range and puts in its place. *)
Lemma splice_front {E} r a b rep removed r' : a <= b <= length (inner r) -> length rep <= b - a ->
  @splice E r (a, b) rep = Ok (removed, r') ->
  take (a + length rep) (syms r') = take a (syms r) ++ ((fun x => (x, false)) <$> rep)
  /\ length (inner r') = a + length rep + (length (inner r) - b) /\ removed = drop a (take b (inner r)).
Proof.
  intros Hab Hrep. destruct (@splice_spec E r a b rep Hab) as (r1 & -> & Hin & Hesc). intros [= <- <-].
  split; [|split; [|done]].
  - assert (Hl : length (take a (inner r)) = a) by (rewrite length_take; lia).
    assert (Hm : forall i, i < a + length rep -> route_is_escaped r1 i = bool_decide (i < a) && route_is_escaped r i).
    { intros i Hi. apply eq_true_iff_eq. unfold route_is_escaped. rewrite andb_true_iff, !bool_decide_eq_true, Hesc.
      unfold moved. split; [intros (j & ? & ? & ->); destruct (Nat.ltb_spec b j); [lia|]; split; [lia|done]|].
      intros [? ?]. exists i. destruct (Nat.ltb_spec b i); split; try done; split; lia. }
    apply list_eq. intros i. destruct (decide (i < a + length rep)) as [Hi|Hi].
    + rewrite lookup_take_lt, syms_lookup, Hm, Hin by done. destruct (decide (i < a)) as [Hia|Hia].
      * rewrite !lookup_app_l, !lookup_take_lt, syms_lookup by (rewrite ?length_take, ?syms_length; lia).
        by rewrite bool_decide_eq_true_2.
      * rewrite (lookup_app_r _ _ i), (lookup_app_r (take a (syms r))) by (rewrite ?length_take, ?syms_length; lia).
        rewrite !length_take, syms_length, !Nat.min_l, lookup_app_l, list_lookup_fmap by lia.
        by rewrite bool_decide_eq_false_2.
    + rewrite !lookup_ge_None_2; [done| |]; rewrite ?length_app, ?length_take, ?length_fmap, ?syms_length; lia.
  - rewrite Hin, !length_app, length_take, length_drop. lia.
Qed.

(** *** Normalised routes *)

Lemma normal_app l k n m : normal l n -> normal k m -> normal (l ++ k) (n + m).
Proof.
  intros Hl Hk. induction Hl; simpl; [done|by constructor|by constructor|].
  rewrite <- app_assoc. simpl. by apply normal_catch_all.
Qed.
Lemma normal_literals l : literals l -> normal l 0.
Proof. induction 1; by constructor. Qed.

Lemma normal_drop_literals l k n : literals l -> normal (l ++ k) n -> normal k n.
Proof.
  induction 1 as [|s l Hs Hl IH]; [done|]. simpl. intros H. apply IH. by inversion H; subst.
Qed.

(** A normalised route is literal up to its first wildcard. *)
Lemma normal_split l n : normal l n ->
  literals l \/
  exists pre rest, literals pre /\
    ((exists x m, (97 <= x <= 122)%Z /\ l = pre ++ (LB, false) :: (x, false) :: (RB, false) :: rest /\ normal rest m /\ n = S m) \/
     (exists e name, Forall name_sym name /\ l = pre ++ (LB, false) :: (STAR, e) :: name ++ (RB, false) :: rest /\ normal rest n)).
Proof.
  induction 1 as [|s l n Hs H IH|x l n Hx H IH|e name l n Hn H IH].
  - left. constructor.
  - destruct IH as [IH|(pre & rest & Hp & IH)]; [left; by constructor|right].
    exists (s :: pre), rest. split; [by constructor|].
    destruct IH as [(x & m & ? & -> & ? & ->)|(e & name & ? & -> & ?)]; [left; by exists x, m|right; by exists e, name].
  - right. exists [], l. split; [constructor|]. left. by exists x, n.
  - right. exists [], l. split; [constructor|]. right. by exists e, name.
Qed.

Lemma take_wildcard {A} (pre name rest : list A) a x b :
  take (length pre + 2 + length name + 1) (pre ++ a :: x :: name ++ b :: rest) = pre ++ a :: x :: name ++ [b].
Proof.
  replace (pre ++ a :: x :: name ++ b :: rest) with ((pre ++ a :: x :: name ++ [b]) ++ rest).
  - apply take_app_length'. rewrite length_app. simpl. rewrite length_app. simpl. lia.
  - rewrite <- app_assoc. simpl. by rewrite <- app_assoc.
Qed.

Lemma normalize_loop_normal fuel path original start next r names k :
  normal (take start (syms path)) k -> length original = k -> next = (97 + Z.of_nat k)%Z -> (next <= 122)%Z ->
  start <= length (inner path) ->
  normalize_loop fuel path original start next = Ok (r, names) -> normal (syms r) (length names).
Proof.
  revert path original start next k. induction fuel as [|fuel IH]; intros path original start next k Hn Hk Hx Hz Hs; [done|].
  cbn [normalize_loop]. rewrite find_wildcard_syms. autorewrite with syms.
  destruct (wildcard_in 0 (drop start (syms path))) as [w|e|] eqn:E; [|done|done]. apply wildcard_in_Ok in E.
  cbn [mbind outcome_bind]. destruct w as [[ws we]|].
  2:{ intros [= <- <-]. rewrite <- (take_drop start (syms path)), Hk, <- (Nat.add_0_r k). by apply normal_app, normal_literals. }
  destruct E as (pre & x & name & rest & Hd & Hpre & Hname & -> & -> & Hxr). simpl.
  set (ws := length pre + start). set (we := length pre + 2 + length name + 1 + start).
  assert (Hlen : length (drop start (syms path)) = length (inner path) - start) by by rewrite length_drop, syms_length.
  rewrite Hd, length_app in Hlen. simpl in Hlen. rewrite length_app in Hlen. simpl in Hlen.
  rewrite (proj2 (Nat.ltb_ge (we - ws) 2)) by (unfold ws, we; lia).
  assert (Htk : forall t, take (start + t) (syms path) = take start (syms path) ++ take t (drop start (syms path))).
  { intros t. by rewrite take_take_drop. }
  assert (Hpk : normal (take ws (syms path)) k).
  { unfold ws. rewrite Nat.add_comm, Htk, Hd, take_app_length, <- (Nat.add_0_r k). by apply normal_app, normal_literals. }
  assert (H1 : syms path !! (ws + 1) = Some x).
  { replace (ws + 1) with (start + (length pre + 1)) by (unfold ws; lia). rewrite <- lookup_drop, Hd.
    by rewrite lookup_app_r, Nat.add_comm, Nat.add_sub by lia. }
  rewrite syms_lookup in H1. destruct (inner path !! (ws + 1)) as [c|] eqn:Hc; simplify_eq/=. case_bool_decide as Hstar; simplify_eq.
  - apply (IH path original we _ (length original)); try done; [|unfold we; lia].
    unfold we. replace (length pre + 2 + length name + 1 + start) with (start + (length pre + 2 + length name + 1)) by lia.
    rewrite Htk, Hd, <- (Nat.add_0_r (length original)). apply normal_app; [done|].
    rewrite take_wildcard. apply (normal_app pre _ 0 0); [by apply normal_literals|]. constructor; [done|constructor].
  - destruct (@splice InsertError path (ws, we) [LB; (97 + Z.of_nat (length original))%Z; RB]) as [[removed path']| |] eqn:Hsp; [|done|done].
    apply splice_front in Hsp as (Hfront & Hlen' & Hrm); [|unfold ws, we; lia|simpl; unfold ws, we; lia].
    cbn [mbind outcome_bind]. destruct (from_utf8_unwrap _) as [nm| |]; [|done|done]. cbn [mbind outcome_bind].
    destruct (Z.ltb_spec 122 (97 + Z.of_nat (length original) + 1)); [done|].
    apply (IH _ _ _ _ (length original + 1)); [|by rewrite length_app|lia|lia|simpl in Hlen'; lia].
    simpl length in Hfront. rewrite Hfront. apply normal_app; [done|]. constructor; [lia|constructor].
Qed.

Lemma normalize_normal raw r names : normalize_params (route_new raw) = Ok (r, names) -> normal (syms r) (length names).
Proof.
  apply normalize_loop_normal with (k := 0); try done; [|lia]. rewrite take_0. constructor.
Qed.

Lemma name_unique name name' (l l' : list sym) : Forall name_sym name -> Forall name_sym name' ->
  name ++ (RB, false) :: l = name' ++ (RB, false) :: l' -> name = name' /\ l = l'.
Proof.
  intros H H' He. pose proof (close_in_name 0 name l H) as H1. rewrite He, close_in_name in H1 by done.
  assert (Hl : length name = length name') by (injection H1; lia). apply app_inj_1 in He as [-> He]; [by simplify_eq|done].
Qed.

(** The number of parameters is determined by the route. *)
Lemma normal_fun l n m : normal l n -> normal l m -> n = m.
Proof.
  intros H. revert m. induction H as [|s l n Hs H IH|x l n Hx H IH|e name l n Hn H IH]; intros m Hm.
  - by inversion Hm.
  - inversion Hm; subst; [by apply IH|done|done].
  - inversion Hm as [|? ? ? Hlit|? ? ? Hy Hr|]; subst; [done|by rewrite (IH _ Hr)|lia].
  - inversion Hm as [|? ? ? Hlit|? ? ? Hy Hr|? name' l' ? Hn' Hr]; subst; [done|lia|].
    destruct (name_unique name name' l l') as [-> ->]; [done|done|congruence|]. by apply IH.
Qed.
