(* ===== verification/RouterTree.v ===== *)
(** * The radix tree of routes

    router/src/tree.rs ([Node]), the conflict report of router/src/error.rs, router/src/params.rs
    and router/src/router.rs: insertion, removal, lookup with backtracking, traversal and
    merging.  Mutable references into the tree are one-hole contexts: an operation on a node
    returns the node it leaves behind, and its caller puts that node back in its place; the
    parent that insertion looks at is the context applied to the current node.  Priorities are
    32-bit counters that wrap around, as in a release build. *)

From S2P Require Import Prelude Utf8 RouterRoute.

Local Open Scope nat_scope.

Inductive NodeType : Type :=
| Root
| Param (suffix : bool)
| CatchAll
| Static.

#[global] Instance NodeType_eq_dec : EqDecision NodeType.
Proof. solve_decision. Defined.

Section Tree.
Context {T : Type}.

Inductive Node : Type := mkNode {
  prefix : UnescapedRoute;
  priority : Z;
  wild_child : bool;
  indices : list Z;
  node_type : NodeType;
  children : list Node;
  value : option T;
  remapping : ParamRemapping }.

Definition node_default : Node := mkNode route_default 0 false [] Static [] None [].

Definition with_prefix (p : UnescapedRoute) (n : Node) : Node :=
  mkNode p (priority n) (wild_child n) (indices n) (node_type n) (children n) (value n) (remapping n).
Definition with_priority (p : Z) (n : Node) : Node :=
  mkNode (prefix n) p (wild_child n) (indices n) (node_type n) (children n) (value n) (remapping n).
Definition with_wild (w : bool) (n : Node) : Node :=
  mkNode (prefix n) (priority n) w (indices n) (node_type n) (children n) (value n) (remapping n).
Definition with_indices (i : list Z) (n : Node) : Node :=
  mkNode (prefix n) (priority n) (wild_child n) i (node_type n) (children n) (value n) (remapping n).
Definition with_type (t : NodeType) (n : Node) : Node :=
  mkNode (prefix n) (priority n) (wild_child n) (indices n) t (children n) (value n) (remapping n).
Definition with_children (c : list Node) (n : Node) : Node :=
  mkNode (prefix n) (priority n) (wild_child n) (indices n) (node_type n) c (value n) (remapping n).
Definition with_value (v : option T) (n : Node) : Node :=
  mkNode (prefix n) (priority n) (wild_child n) (indices n) (node_type n) (children n) v (remapping n).
Definition with_remapping (r : ParamRemapping) (n : Node) : Node :=
  mkNode (prefix n) (priority n) (wild_child n) (indices n) (node_type n) (children n) (value n) r.

Definition bump (n : Node) : Node := with_priority (wrap 32 (priority n + 1)) n.
(** Put a node back as the [i]'th child. *)
Definition plug (n : Node) (i : nat) (c : Node) : Node := with_children (<[i := c]> (children n)) n.

(** An operation on a node: the node left behind and the result. *)
Definition Op : Type := Node * outcome InsertError unit.
(** The operation [k] on the [i]'th child of [n]. *)
Definition on_child (n : Node) (i : nat) (k : Node -> Op) : Op :=
  match children n !! i with
  | None => (n, Panic)
  | Some c => let '(c', r) := k c in (plug n i c', r)
  end.

(** ** Looking around in a segment *)

Definition ends_with_slash (r : UnescapedRoute) : bool := bool_decide (last (inner r) = Some SLASH).
Definition has_slash (r : UnescapedRoute) : bool := bool_decide (SLASH ∈ inner r).
Definition is_param (t : NodeType) : bool := match t with Param _ => true | _ => false end.

Fixpoint wild_child_in_segment (n : Node) : bool :=
  if has_slash (prefix n) then false
  else if is_param (node_type n) then true
  else existsb wild_child_in_segment (children n).
Fixpoint prefix_wild_child_in_segment (n : Node) : bool :=
  if bool_decide (node_type n = Root) && bool_decide (inner (prefix n) = []) then false
  else if ends_with_slash (prefix n) then existsb prefix_wild_child_in_segment (children n)
  else existsb wild_child_in_segment (children n).
Fixpoint suffix_wild_child_in_segment (n : Node) : bool :=
  if bool_decide (node_type n = Param true) then true
  else existsb (fun c => if has_slash (prefix c) then false else suffix_wild_child_in_segment c)
         (children n).

(** ** The conflict report ([InsertError::conflict]) *)

(** The routes of the first children, from [n]'s first child down, appended to [r]. *)
Fixpoint append_first (r : UnescapedRoute) (n : Node) : UnescapedRoute :=
  match children n with
  | [] => r
  | c :: _ => append_first (append r (prefix c)) c
  end.
Fixpoint last_first (n : Node) : Node :=
  match children n with [] => n | c :: _ => last_first c end.
Definition ends_with (p l : bytes) : bool :=
  (length p <=? length l) && bool_decide (drop (length l - length p) l = p).

Definition conflict (route : UnescapedRoute) (pre : UnescapedRef) (current : Node) :
  outcome InsertError unit :=
  if bool_decide (f_inner pre = inner (prefix current)) then
    route ← denormalize_params route (remapping current);
    s ← from_utf8_unwrap (inner route);
    Err (Conflict s)
  else if f_len pre <=? length (inner route) then
    let route := truncate route (length (inner route) - f_len pre) in
    let route := if ends_with (inner (prefix current)) (inner route) then route
                 else append route (prefix current) in
    let route := append_first route current in
    route ← denormalize_params route (remapping (last_first current));
    s ← from_utf8_unwrap (inner route);
    Err (Conflict s)
  else Panic.

(** ** Children *)

Definition add_child (n child : Node) : nat * Node :=
  let l := length (children n) in
  if wild_child n && (0 <? l) then
    (l - 1, with_children (take (l - 1) (children n) ++ [child] ++ drop (l - 1) (children n)) n)
  else (l, with_children (children n ++ [child]) n).

(** [partition_point]: the children are sorted, so the partition point is the length of the
    longest prefix that satisfies the predicate. *)
Fixpoint partition_point (p : Node -> bool) (l : list Node) : nat :=
  match l with
  | [] => 0
  | c :: l => if p c then S (partition_point p l) else 0
  end.
Definition add_suffix_child (n child : Node) : nat * Node :=
  let i := partition_point (fun c => length (inner (prefix child)) <=? length (inner (prefix c)))
             (children n) in
  (i, with_children (take i (children n) ++ [child] ++ drop i (children n)) n).

(** The loop that moves the child at [i] to the front: the new index and the children. *)
Fixpoint move_front (i : nat) (p : Z) (l : list Node) : nat * list Node :=
  match i with
  | O => (0, l)
  | S j =>
      match l !! j, l !! i with
      | Some a, Some b =>
          if (priority a <? p)%Z then move_front j p (<[j := b]> (<[i := a]> l)) else (i, l)
      | _, _ => (i, l)
      end
  end.
(** [indices[a..=b].rotate_right(1)]. *)
Definition rotate_right1 (a b : nat) (l : list Z) : option (list Z) :=
  x ← l !! b;
  if a <=? b then Some (take a l ++ [x] ++ drop a (take b l) ++ drop (S b) l) else None.
Definition update_child_priority (n : Node) (i : nat) : outcome InsertError (nat * Node) :=
  match children n !! i with
  | None => Panic
  | Some c =>
      let c := bump c in
      let '(updated, cs) := move_front i (priority c) (<[i := c]> (children n)) in
      let n := with_children cs n in
      if updated =? i then Ok (updated, n)
      else match rotate_right1 updated i (indices n) with
           | Some ix => Ok (updated, with_indices ix n)
           | None => Panic
           end
  end.

(** ** Inserting a route below a node ([insert_route]) *)

(** The end of the segment: after the next slash, or the end of the route. *)
Definition position (b : Z) (l : bytes) : option nat := fst <$> list_find (b =.) l.
Definition segment_end (l : bytes) : nat :=
  match position SLASH l with Some i => S i | None => length l end.
Definition trivial_suffix (l : bytes) : bool := bool_decide (l = []) || bool_decide (l = [SLASH]).
Definition finds_wildcard (f : UnescapedRef) : bool :=
  match find_wildcard f with Ok (Some _) => true | _ => false end.
Definition starts_static (f : UnescapedRef) : bool :=
  negb (bool_decide (f_inner f !! 0 = Some LB)) || ref_is_escaped f 0.

(** The source returns a reference to the last node, through which every caller stores the
    parameter names: [set] is that assignment.  [rec] is the next turn of the loop. *)
Section InsertRoute.
Context (set : Node -> Node) (val : T).

(** What follows a parameter and its suffix, at the node of the suffix. *)
Definition insert_tail (rec : Node -> UnescapedRef -> Op) (rest : UnescapedRef) (node : Node) : Op :=
  if f_len rest =? 0 then (set (with_value (Some val) node), Ok tt)
  else if starts_static rest then
    let node := with_indices (indices node ++ take 1 (f_inner rest)) node in
    let '(child, node) := add_child node (with_priority 1 node_default) in
    on_child node child (fun c => rec c rest)
  else rec node rest.

(** A parameter of [wlen] bytes at the start of [pre]. *)
Definition insert_param (rec : Node -> UnescapedRef -> Op) (node : Node) (pre : UnescapedRef) (wlen : nat) : Op :=
  let terminator := segment_end (f_inner pre) in
  let wildcard := slice_until pre wlen in
  match slice_off_chk (slice_until pre terminator) wlen with
  | Panic => (node, Panic)
  | Err e => (node, Err e)
  | Ok suffix =>
      let rest := slice_off pre terminator in
      if finds_wildcard suffix then (node, Err InvalidParamSegment)
      else
        let '(child, node) :=
          add_child node (mkNode (to_owned wildcard) 1 false []
                            (Param (negb (trivial_suffix (f_inner suffix)))) [] None []) in
        on_child (with_wild true node) child (fun node =>
          if f_len suffix =? 0 then insert_tail rec rest node
          else
            let '(child, node) :=
              add_suffix_child node (mkNode (to_owned suffix) 1 false [] Static [] None []) in
            on_child node child (insert_tail rec rest))
  end.

Fixpoint insert_route (fuel : nat) (node : Node) (pre : UnescapedRef) : Op :=
  match fuel with
  | O => (node, Panic)
  | S fuel =>
      match find_wildcard pre with
      | Panic => (node, Panic)
      | Err e => (node, Err e)
      | Ok None => (set (with_prefix (to_owned pre) (with_value (Some val) node)), Ok tt)
      | Ok (Some (ws, we)) =>
          let cut := if 0 <? ws then with_prefix (to_owned (slice_until pre ws)) node else node in
          let pre' := if 0 <? ws then slice_off pre ws else pre in
          if bool_decide (f_inner pre !! (ws + 1) = Some STAR) then
            if negb (we =? f_len pre) then (node, Err InvalidCatchAll)
            else
              let child := set (mkNode (to_owned pre') 1 false [] CatchAll [] (Some val) []) in
              (with_wild true (add_child cut child).2, Ok tt)
          else insert_param (insert_route fuel) cut pre' (we - ws)
      end
  end.
(** Every turn consumes a wildcard of the route. *)
Definition insert_route_at (node : Node) (pre : UnescapedRef) : Op :=
  insert_route (S (f_len pre)) node pre.
End InsertRoute.

(** ** Insertion ([Node::insert]) *)

(** The first position where the route and the node's prefix differ, in byte or in escape. *)
Fixpoint common_from (fuel i : nat) (f : UnescapedRef) (p : UnescapedRoute) : nat :=
  match fuel with
  | O => i
  | S fuel =>
      if negb (bool_decide (f_inner f !! i = inner p !! i))
         || negb (eqb (ref_is_escaped f i) (route_is_escaped p i))
      then i else common_from fuel (S i) f p
  end.
Definition common_prefix (f : UnescapedRef) (p : UnescapedRoute) : nat :=
  common_from (f_len f `min` length (inner p)) 0 f p.

(** Split a node after [n] bytes of its prefix; the child takes what follows. *)
Definition fork_child (node : Node) (n : nat) : Node :=
  mkNode (to_owned (slice_off (as_ref (prefix node)) n)) (wrap 32 (priority node - 1)) (wild_child node)
    (indices node) Static (children node) (value node) (remapping node).
Definition fork (node : Node) (n : nat) : Node :=
  mkNode (to_owned (slice_until (as_ref (prefix node)) n)) (priority node) false
    (take 1 (drop n (inner (prefix node)))) (node_type node) [fork_child node n] None [].

(** The scan over a parameter's suffixes: the child with that suffix, or whether one matches
    but for an extra trailing slash. *)
Fixpoint suffix_scan (i : nat) (extra : bool) (suffix : bytes) (l : list Node) : nat + bool :=
  match l with
  | [] => inr extra
  | c :: l =>
      let p := inner (prefix c) in
      if bool_decide (p = suffix) then inl i
      else
        suffix_scan (S i)
          (extra || ((length p <=? length suffix) && bool_decide (take (length p) suffix = p)
                     && bool_decide (drop (length p) suffix = [SLASH]))) suffix l
  end.

Section Insert.
Context (route : UnescapedRoute) (names : ParamRemapping) (val : T).

Let set : Node -> Node := with_remapping names.

(** Below a parameter: continue in the child with the suffix, or create it. *)
Definition walk_param (descend : nat -> (Node -> Node) -> Op) (parent : option Node)
  (node : Node) (has_suffix : bool) (common_remaining remaining : UnescapedRef) : Op :=
  let terminator := segment_end (f_inner remaining) in
  let suffix := slice_until remaining terminator in
  match suffix_scan 0 false (f_inner suffix) (children node) with
  | inl i => descend i bump
  | inr extra =>
      let clash := negb extra && negb (trivial_suffix (f_inner suffix)) in
      match (if clash then parent ≫= fun p => if prefix_wild_child_in_segment p then Some p else None
             else None) with
      | Some p => (node, conflict route common_remaining p)
      | None =>
          if finds_wildcard suffix then (node, Err InvalidParamSegment)
          else
            let '(child, node) := add_suffix_child node (mkNode (to_owned suffix) 1 false [] Static [] None []) in
            let node := with_type (Param (has_suffix || negb (trivial_suffix (f_inner suffix)))) node in
            on_child node child (fun node =>
              if terminator =? f_len remaining then (set (with_value (Some val) node), Ok tt)
              else
                let remaining := slice_off remaining terminator in
                if starts_static remaining then
                  let '(child, node) := add_child node (with_priority 1 node_default) in
                  let node := with_indices (indices node ++ take 1 (f_inner remaining)) node in
                  on_child node child (fun c => insert_route_at set val c remaining)
                else insert_route_at set val node remaining)
      end
  end.

(** No child starts with the next byte: create a static child. *)
Definition walk_static (node : Node) (remaining : UnescapedRef) : Op :=
  let terminator := default (f_len remaining) (position SLASH (f_inner remaining)) in
  let segment := slice_until remaining terminator in
  let clash := match find_wildcard segment with
               | Ok (Some (ws, we)) =>
                   ((0 <? ws) && suffix_wild_child_in_segment node)
                   || (negb (trivial_suffix (f_inner (slice_off segment we)))
                       && prefix_wild_child_in_segment node)
               | _ => false
               end in
  if clash then (node, conflict route remaining node)
  else
    let node := with_indices (indices node ++ take 1 (f_inner remaining)) node in
    let '(child, node) := add_child node node_default in
    match update_child_priority node child with
    | Ok (child, node) => on_child node child (fun c => insert_route_at set val c remaining)
    | Err e => (node, Err e)
    | Panic => (node, Panic)
    end.

(** The route continues with a wildcard and the node has a wildcard child [c] (the last one). *)
Definition wild_clash (parent c : Node) (remaining : UnescapedRef) : option Node :=
  let p := inner (prefix c) in
  if (length p <=? f_len remaining) && negb (bool_decide (take (length p) (f_inner remaining) = p))
  then Some c
  else if bool_decide (node_type c = CatchAll) then Some c
  else if negb (ends_with_slash (prefix parent)) && bool_decide (node_type c = Param true) then
    match find_wildcard (slice_until remaining (segment_end (f_inner remaining))) with
    | Ok (Some (_, we)) =>
        if trivial_suffix (f_inner (slice_off remaining we)) then Some parent else None
    | _ => None
    end
  else None.

(** The route continues with a wildcard and the node has no wildcard child. *)
Definition walk_wildcard (node : Node) (common : nat) (common_remaining remaining : UnescapedRef) : Op :=
  let clash := match find_wildcard remaining with
               | Ok (Some (_, we)) =>
                   (negb (trivial_suffix (f_inner (slice_off remaining we)))
                    && prefix_wild_child_in_segment node)
                   || ((0 <? common)
                       && negb (bool_decide (f_inner common_remaining !! (common - 1) = Some SLASH))
                       && suffix_wild_child_in_segment node)
               | _ => false
               end in
  if clash then (node, conflict route remaining node)
  else insert_route_at set val node remaining.

(** The static child for the next byte, which is not the brace of a wildcard. *)
Definition find_child (node : Node) (remaining : UnescapedRef) : option nat :=
  let next := default 0%Z (f_inner remaining !! 0) in
  if is_brace next && negb (ref_is_escaped remaining 0) then None else position next (indices node).

(** The 'walk loop.  [parent] is the hole of the parent the current node sits in. *)
Fixpoint walk (fuel : nat) (parent : option (Node -> Node)) (node : Node) (remaining : UnescapedRef) : Op :=
  match fuel with
  | O => (node, Panic)
  | S fuel =>
      let common := common_prefix remaining (prefix node) in
      if common <? length (inner (prefix node)) then walk fuel parent (fork node common) remaining
      else if f_len remaining =? common then
        match value node with
        | Some _ => (node, conflict route remaining node)
        | None => (set (with_value (Some val) node), Ok tt)
        end
      else
        let common_remaining := remaining in
        let remaining := slice_off remaining common in
        let descend (node : Node) (i : nat) (touch : Node -> Node) : Op :=
          on_child node i (fun c => walk fuel (Some (plug node i)) (touch c) remaining) in
        match node_type node with
        | Param has_suffix =>
            walk_param (descend node) (parent ≫= fun p => Some (p node)) node has_suffix
              common_remaining remaining
        | _ =>
            match find_child node remaining with
            | Some i =>
                match update_child_priority node i with
                | Ok (i, node) => descend node i id
                | Err e => (node, Err e)
                | Panic => (node, Panic)
                end
            | None =>
                if starts_static remaining && negb (bool_decide (node_type node = CatchAll)) then
                  walk_static node remaining
                else if wild_child node then
                  let i := length (children node) - 1 in
                  on_child node i (fun c =>
                    let c := bump c in
                    match wild_clash (plug node i c) c remaining with
                    | Some at_ => (c, conflict route remaining at_)
                    | None => walk fuel (Some (plug node i)) c remaining
                    end)
                else walk_wildcard node common common_remaining remaining
            end
        end
  end.
End Insert.

Fixpoint height (n : Node) : nat := S (list_max (height <$> children n)).

(** Every second turn of the walk moves to a child, the others fork the node. *)
Definition insert (self : Node) (raw : bytes) (val : T) : Op :=
  match normalize_params (route_new raw) with
  | Err e => (self, Err e)
  | Panic => (self, Panic)
  | Ok (route, names) =>
      let self := bump self in
      match value self, children self with
      | None, [] =>
          match insert_route_at (with_remapping names) val self (as_ref route) with
          | (self, Ok tt) => (with_type Root self, Ok tt)
          | r => r
          end
      | _, _ => walk route names val (2 * height self + 2) None self (as_ref route)
      end
  end.

(** ** Removal ([Node::remove]) *)

(** The node left behind and the removed value; there is no error case. *)
Definition Removed : Type := Node * outcome False (option T).

Definition remove_child (self : Node) (i : nat) (names : ParamRemapping) : Removed :=
  match children self !! i with
  | None => (self, Panic)
  | Some c =>
      if negb (bool_decide (remapping c = names)) then (self, Ok None)
      else
        match children c with
        | [] =>
            let self := with_children (delete i (children self)) self in
            if bool_decide (node_type c = Static) && negb (is_param (node_type self)) then
              if i <? length (indices self)
              then (with_indices (delete i (indices self)) self, Ok (value c))
              else (self, Panic)
            else (with_wild false self, Ok (value c))
        | _ => (plug self i (with_value None c), Ok (value c))
        end
  end.

Definition remove_below (n : Node) (i : nat) (k : Node -> Removed) : Removed :=
  match children n !! i with
  | None => (n, Panic)
  | Some c => let '(c', r) := k c in (plug n i c', r)
  end.

Fixpoint remove_walk (fuel : nat) (names : ParamRemapping) (node : Node) (remaining : bytes) : Removed :=
  match fuel with
  | O => (node, Panic)
  | S fuel =>
      let p := inner (prefix node) in
      if length remaining <=? length p then (node, Ok None)
      else if negb (bool_decide (take (length p) remaining = p)) then (node, Ok None)
      else
        let remaining := drop (length p) remaining in
        let terminator := segment_end remaining in
        let by_suffix := if is_param (node_type node)
                         then list_find (fun c => inner (prefix c) = take terminator remaining) (children node)
                         else None in
        match by_suffix with
        | Some (i, c) =>
            if terminator =? length remaining then remove_child node i names
            else remove_below node i (fun c =>
                   remove_walk fuel names c (drop (terminator - length (inner (prefix c))) remaining))
        | None =>
            let found := match position (default 0%Z (remaining !! 0)) (indices node) with
                         | Some i => Some i
                         | None => if wild_child node then Some (length (children node) - 1) else None
                         end in
            match found with
            | None => (node, Ok None)
            | Some i =>
                match children node !! i with
                | None => (node, Panic)
                | Some c =>
                    if bool_decide (inner (prefix c) = remaining) then remove_child node i names
                    else remove_below node i (fun c => remove_walk fuel names c remaining)
                end
            end
        end
  end.

Definition remove (self : Node) (raw : bytes) : Removed :=
  match normalize_params (route_new raw) with
  | Err _ => (self, Ok None)
  | Panic => (self, Panic)
  | Ok (route, names) =>
      if bool_decide (inner route = inner (prefix self)) then
        let v := value self in
        (match children self with [] => node_default | _ => with_value None self end, Ok v)
      else remove_walk (height self) names self (inner route)
  end.

(** ** Lookup ([Node::at]) *)

(** router/src/params.rs: a parameter is a key and a value. *)
Definition Params : Type := list (bytes * bytes).
Definition push_val (ps : Params) (v : bytes) : Params := ps ++ [([], v)].
Definition push (ps : Params) (k v : bytes) : Params := ps ++ [(k, v)].
Definition params_get (ps : Params) (k : bytes) : option bytes :=
  snd <$> (snd <$> list_find (fun p => p.1 = k) ps).
(** [for_each_key_mut] with the names of a node: an index beyond them panics. *)
Definition remap {E} (names : ParamRemapping) (ps : Params) : outcome E Params :=
  if length ps <=? length names then Ok (zip_with (fun k p => (k, p.2)) names ps) else Panic.

(** [str::split_at]: panics off a character boundary. *)
Definition is_char_boundary (l : bytes) (i : nat) : bool :=
  (i =? 0) || match l !! i with None => i =? length l | Some b => negb (is_cont b) end.
Definition str_split_at (l : bytes) (i : nat) : option (bytes * bytes) :=
  if is_char_boundary l i then Some (take i l, drop i l) else None.

Inductive MatchError : Type := NoMatch.
Definition Found : Type := outcome MatchError (T * Params).

Record Skipped : Type := mkSkipped { sk_node : Node; sk_path : bytes; sk_params : nat }.
Record Search : Type := mkSearch {
  s_node : Node; s_path : bytes; s_back : bool; s_params : Params; s_skipped : list Skipped }.

(** What one turn of the 'walk loop does: return, go on, or leave the loop. *)
Inductive Turn : Type :=
| Return (r : Found)
| Go (s : Search)
| Break (s : Search).

(** Return the value of a node, with the parameters under the node's names. *)
Definition found (v : T) (n : Node) (ps : Params) : Found :=
  ps ← remap (remapping n) ps; Ok (v, ps).

(** The suffixes of a parameter, the longest first. *)
Fixpoint try_suffixes (path : bytes) (terminator : nat) (ps : Params) (sk : list Skipped) (l : list Node) : option Turn :=
  match l with
  | [] => None
  | c :: l =>
      let n := length (inner (prefix c)) in
      if terminator <=? n then try_suffixes path terminator ps sk l
      else
        let start := terminator - n in
        match str_split_at (take terminator path) start with
        | None => Some (Return Panic)
        | Some (param, suffix) =>
            if bool_decide (suffix = inner (prefix c))
            then Some (Go (mkSearch c (drop start path) false (push_val ps param) sk))
            else try_suffixes path terminator ps sk l
        end
  end.

(** The search in the wildcard child [node], at the rest [path] of the path. *)
Definition at_wild (back : bool) (node : Node) (path : bytes) (ps : Params) (sk : list Skipped) : Turn :=
  let stop := Break (mkSearch node path back ps sk) in
  match node_type node with
  | Param false =>
      match position SLASH path with
      | Some O => stop
      | Some i =>
          match str_split_at path i with
          | None => Return Panic
          | Some (param, rest) =>
              match children node with
              | [child] => Go (mkSearch child rest false (push_val ps param) sk)
              | _ => stop
              end
          end
      | None =>
          match value node with
          | None => stop
          | Some v => Return (found v node (push_val ps path))
          end
      end
  | Param true =>
      let slash := position SLASH path in
      match slash with
      | Some O => stop
      | _ =>
          let terminator := match slash with Some i => i + 1 | None => length path end in
          match try_suffixes path terminator ps sk (children node) with
          | Some t => t
          | None =>
              match value node, slash with
              | Some v, None => Return (found v node (push_val ps path))
              | _, _ => stop
              end
          end
      end
  | CatchAll =>
      match value node with
      | None => Return (Err NoMatch)
      | Some v =>
          Return (ps ← remap (remapping node) ps;
                  key ← unwrap (slice 2 (len (inner (prefix node)) - 1) (inner (prefix node)));
                  key ← from_utf8_unwrap key;
                  Ok (v, push ps key path))
      end
  | _ => Return Panic
  end.

(** One turn of the 'walk loop. *)
Definition at_turn (s : Search) : Turn :=
  let '(mkSearch node path back ps sk) := s in
  let p := inner (prefix node) in
  if length path <=? length p then
    if bool_decide (path = p) then
      match value node with
      | Some v => Return (found v node ps)
      | None => Break s
      end
    else Break s
  else
    match str_split_at path (length p) with
    | None => Return Panic
    | Some (pre, rest) =>
        if negb (bool_decide (pre = p)) then Break s
        else
          match (if back then None else position (default 0%Z (rest !! 0)) (indices node)) with
          | Some i =>
              let sk := if wild_child node then mkSkipped node path (length ps) :: sk else sk in
              match children node !! i with
              | None => Return Panic
              | Some c => Go (mkSearch c rest back ps sk)
              end
          | None =>
              if negb (wild_child node) then Break (mkSearch node rest back ps sk)
              else match last (children node) with
                   | None => Return Panic
                   | Some c => at_wild back c rest ps sk
                   end
          end
    end.

(** Go back to the latest skipped node whose path ends with the current one. *)
Fixpoint resume (path : bytes) (ps : Params) (sk : list Skipped) : option Search :=
  match sk with
  | [] => None
  | k :: sk =>
      if ends_with path (sk_path k)
      then Some (mkSearch (sk_node k) (sk_path k) true (take (sk_params k) ps) sk)
      else resume path ps sk
  end.

(** The relaxed catch-all, tried last on the node where the search stopped. *)
Definition relaxed (node : Node) (ps : Params) : Found :=
  match children node with
  | c :: _ =>
      if bool_decide (inner (prefix c) = [LB; STAR; RB]) then
        match value c with Some v => Ok (v, ps) | None => Err NoMatch end
      else Err NoMatch
  | [] => Err NoMatch
  end.

Fixpoint at_loop (fuel : nat) (s : Search) : Found :=
  match fuel with
  | O => Panic
  | S fuel =>
      match at_turn s with
      | Return r => r
      | Go s => at_loop fuel s
      | Break s =>
          match resume (s_path s) (s_params s) (s_skipped s) with
          | Some s => at_loop fuel s
          | None => relaxed (s_node s) (s_params s)
          end
      end
  end.

Fixpoint size (n : Node) : nat := S (sum_list (size <$> children n)).

(** Every node is visited at most twice, the second time after backtracking. *)
Definition at_ (self : Node) (path : bytes) : Found :=
  at_loop (2 * size self) (mkSearch self path false [] []).

(** ** Traversal and merging ([Node::for_each], [Router::merge]) *)

(** The breadth-first queue; every turn takes one node from it. *)
Fixpoint for_each_loop (fuel : nat) (queue : list (UnescapedRoute * Node)) : outcome False (list (bytes * T)) :=
  match fuel, queue with
  | _, [] => Ok []
  | O, _ => Panic
  | S fuel, (pre, node) :: queue =>
      pre ← denormalize_params pre (remapping node);
      visited ← match value node with
                | None => Ok []
                | Some v => path ← from_utf8_unwrap (inner pre); Ok [(path, v)]
                end;
      rest ← for_each_loop fuel (queue ++ ((fun c => (append pre (prefix c), c)) <$> children node));
      Ok (visited ++ rest)
  end.
Definition for_each (self : Node) : outcome False (list (bytes * T)) :=
  for_each_loop (size self) [(prefix self, self)].

Fixpoint insert_all (self : Node) (errors : list InsertError) (l : list (bytes * T)) :
  Node * outcome (list InsertError) unit :=
  match l with
  | [] => (self, match errors with [] => Ok tt | _ => Err errors end)
  | (path, v) :: l =>
      match insert self path v with
      | (self, Ok _) => insert_all self errors l
      | (self, Err e) => insert_all self (errors ++ [e]) l
      | (self, Panic) => (self, Panic)
      end
  end.
Definition merge (self other : Node) : Node * outcome (list InsertError) unit :=
  match for_each other with
  | Ok l => insert_all self [] l
  | _ => (self, Panic)
  end.

End Tree.
Arguments Node : clear implicits.
Arguments Op : clear implicits.
