(* ===== verification/RouterInsert.v ===== *)
(** * What insertion does to the route table

    The routes of a tree ([routes]) are the labels of the paths from its root to the nodes that
    hold a value: patterns of symbols with their parameter names and value.  A shape invariant
    [inv] ties the fast-search fields of the nodes (types, indices, the wildcard flag) to those
    routes.  [insert] keeps the invariant and adds exactly the normalised route, or leaves the
    route table as it was. *)

From S2P Require Import Prelude Utf8 RouterRoute RouterTree.

Local Open Scope nat_scope.

(** A node with all its descendants satisfies what follows from its children. *)
Lemma node_ind' {T} (P : Node T -> Prop) :
  (forall n, Forall P (children n) -> P n) -> forall n, P n.
Proof.
  intros H. fix IH 1. intros n. apply H. destruct n as [? ? ? ? ? cs ? ?]. simpl.
  induction cs as [|c cs IHcs]; constructor; [apply IH|apply IHcs].
Qed.

(** ** Segments *)

Lemma position_cons b c (l : bytes) :
  position b (c :: l) = if decide (b = c) then Some 0 else S <$> position b l.
Proof.
  unfold position. cbn [list_find]. destruct (decide (b = c)); [done|]. destruct (list_find (b =.) l) as [[i x]|]; done.
Qed.
Lemma segment_end_cons c l : segment_end (c :: l) = if decide (SLASH = c) then 1 else S (segment_end l).
Proof.
  unfold segment_end. rewrite position_cons. destruct (decide (SLASH = c)); [done|]. by destruct (position SLASH l).
Qed.
Lemma segment_end_app l k : SLASH ∉ l -> segment_end (l ++ k) = length l + segment_end k.
Proof.
  induction l as [|c l IH]; [done|]. rewrite not_elem_of_cons. intros [? ?]. simpl. rewrite segment_end_cons, decide_False by done.
  by rewrite IH.
Qed.
Lemma segment_end_le l : segment_end l <= length l.
Proof. induction l as [|c l IH]; [done|]. rewrite segment_end_cons. simpl. case_decide; lia. Qed.

(** A normalised route splits after a segment into normalised routes. *)
Lemma normal_segment l n : normal l n -> exists a b, n = a + b
  /\ normal (take (segment_end l.*1) l) a /\ normal (drop (segment_end l.*1) l) b.
Proof.
  assert (Hstep : forall (w l : list sym) k n, SLASH ∉ w.*1 -> (forall l n, normal l n -> normal (w ++ l) (k + n)) ->
    (exists a b, n = a + b /\ normal (take (segment_end l.*1) l) a /\ normal (drop (segment_end l.*1) l) b) ->
    exists a b, k + n = a + b /\ normal (take (segment_end (w ++ l).*1) (w ++ l)) a /\ normal (drop (segment_end (w ++ l).*1) (w ++ l)) b).
  { intros w l' k n' Hw Hwn (a & b & -> & Ha & Hb). exists (k + a), b. split; [lia|].
    rewrite fmap_app, segment_end_app, length_fmap by done. rewrite take_app_add, drop_app_add. split; [by apply Hwn|done]. }
  induction 1 as [|s l n Hs H IH|x l n Hx H IH|e name l n Hn H IH].
  - exists 0, 0. repeat constructor.
  - destruct (decide (SLASH = s.1)) as [Heq|Hne].
    + exists 0, n. cbn [fmap list_fmap]. rewrite segment_end_cons, decide_True by done. simpl. rewrite drop_0.
      split; [done|]. split; [|done]. rewrite take_0. constructor; [done|constructor].
    + apply (Hstep [s] l 0 n); [by intros ?%list_elem_of_singleton|intros; by constructor|done].
  - apply (Hstep [(LB, false); (x, false); (RB, false)] l 1 n); [|intros; by constructor|done].
    simpl. rewrite !not_elem_of_cons. split; [done|]. split; [lia|]. split; [done|apply not_elem_of_nil].
  - assert (Hl : forall k : list sym, (LB, false) :: (STAR, e) :: name ++ (RB, false) :: k = ((LB, false) :: (STAR, e) :: name ++ [(RB, false)]) ++ k).
    { intros k. simpl. by rewrite <- app_assoc. }
    rewrite Hl. apply (Hstep _ l 0 n); [|intros; rewrite <- Hl; by apply normal_catch_all|done].
    simpl. rewrite !not_elem_of_cons, fmap_app, not_elem_of_app. split; [done|]. split; [done|]. split.
    + intros (s & Hs & Hin)%list_elem_of_fmap. by destruct (proj1 (Forall_forall _ _) Hn s Hin) as [[_ ?] _].
    + by intros ?%list_elem_of_singleton.
Qed.

Lemma finds_wildcard_literals f n : normal (fsyms f) n -> finds_wildcard f = false -> literals (fsyms f).
Proof.
  unfold finds_wildcard. rewrite find_wildcard_syms. intros H.
  destruct (normal_split _ _ H) as [?|(pre & rest & Hp & [(x & m & Hx & -> & _)|(e & name & Hn & -> & _)])]; [done| |].
  - by rewrite wildcard_in_param.
  - rewrite wildcard_in_found by done. done.
Qed.

Section Routes.
Context {T : Type}.
Implicit Types (n c : Node T) (p q : list sym).

(** A route of the tree: its pattern, the names of its parameters, its value. *)
Definition Entry : Type := (list sym * ParamRemapping * T)%type.

Definition under p (es : list Entry) : list Entry := (fun e => (p ++ e.1.1, e.1.2, e.2)) <$> es.
Definition own n : list Entry := match value n with Some v => [([], remapping n, v)] | None => [] end.
Fixpoint routes n : list Entry :=
  under (syms (prefix n)) (own n ++ flat_map routes (children n)).

Lemma routes_eq n : routes n = under (syms (prefix n)) (own n ++ flat_map routes (children n)).
Proof. by destruct n. Qed.

#[global] Instance under_perm p : Proper (Permutation ==> Permutation) (under p).
Proof. intros ? ? H. unfold under. by rewrite H. Qed.
Lemma under_app p es es' : under p (es ++ es') = under p es ++ under p es'.
Proof. apply fmap_app. Qed.
Lemma under_under p q es : under p (under q es) = under (p ++ q) es.
Proof. unfold under. rewrite <- list_fmap_compose. apply list_fmap_ext. intros; simpl. by rewrite app_assoc. Qed.
Lemma under_nil es : under [] es = es.
Proof. unfold under. rewrite <- (list_fmap_id es) at 2. apply list_fmap_ext. by intros ? [[? ?] ?] ?. Qed.

Lemma flat_map_insert (f : Node T -> list Entry) (l : list (Node T)) i c c' es : l !! i = Some c ->
  f c' ≡ₚ es ++ f c -> flat_map f (<[i := c']> l) ≡ₚ es ++ flat_map f l.
Proof.
  intros Hi Hc. rewrite <- (take_drop_middle l i c Hi) at 2. rewrite insert_take_drop by by eapply lookup_lt_Some.
  rewrite !flat_map_app. simpl. rewrite Hc, !app_assoc. do 2 f_equiv. apply Permutation_app_comm.
Qed.

(** ** The shape of the tree *)

Definition starts (b : Z) (es : list Entry) : Prop :=
  Forall (fun e : Entry => exists q, e.1.1 = text_sym b :: q) es.
(** A static child is found under the first byte of all its routes. *)
Definition indexed (b : Z) c : Prop := node_type c = Static /\ starts b (routes c).
Definition wild_type (t : NodeType) : bool := match t with Param _ | CatchAll => true | _ => false end.

Definition aligned n : Prop :=
  NoDup (indices n) /\ exists ss w, children n = ss ++ w /\ Forall2 indexed (indices n) ss
    /\ if wild_child n then exists c, w = [c] /\ wild_type (node_type c) = true else w = [].

Definition is_param_prefix p : Prop := exists x, (97 <= x <= 122)%Z /\ p = [(LB, false); (x, false); (RB, false)].
Definition is_catch_all_prefix p : Prop :=
  exists e name, Forall name_sym name /\ p = (LB, false) :: (STAR, e) :: name ++ [(RB, false)].

Definition local n : Prop :=
  match node_type n with
  | Param _ => is_param_prefix (syms (prefix n)) /\ indices n = [] /\ wild_child n = false
               /\ Forall (fun c => node_type c = Static /\ syms (prefix c) <> []) (children n)
  | CatchAll => is_catch_all_prefix (syms (prefix n)) /\ children n = [] /\ indices n = [] /\ wild_child n = false
  | _ => texts (syms (prefix n)) /\ aligned n
  end.

Inductive inv : Node T -> Prop :=
| inv_node n : local n -> Forall inv (children n) -> inv n.

Lemma inv_local n : inv n -> local n.
Proof. by inversion 1. Qed.
Lemma inv_children n : inv n -> Forall inv (children n).
Proof. by inversion 1. Qed.

Lemma not_param (ty : NodeType) (P : Prop) : wild_type ty = false -> is_param ty = true -> P.
Proof. by destruct ty. Qed.

Definition same_kind (a b : NodeType) : Prop :=
  match a, b with Param _, Param _ => True | _, _ => a = b end.
Lemma same_kind_refl a : same_kind a a.
Proof. by destruct a. Qed.
Lemma same_kind_static a : same_kind Static a -> a = Static.
Proof. by destruct a. Qed.
Lemma same_kind_wild a b : same_kind a b -> wild_type a = wild_type b.
Proof. by destruct a, b. Qed.
Lemma same_kind_trans a b d : same_kind a b -> same_kind b d -> same_kind a d.
Proof. destruct a, b, d; simpl; congruence. Qed.

Lemma starts_perm b es es' : es ≡ₚ es' -> starts b es -> starts b es'.
Proof. unfold starts. intros ->. done. Qed.

(** A child may be replaced by one of its kind, its routes still under its index. *)
Lemma local_plug n i c c' : local n -> children n !! i = Some c -> same_kind (node_type c) (node_type c') ->
  (forall b, indices n !! i = Some b -> starts b (routes c) -> starts b (routes c')) ->
  (is_param (node_type n) = true -> syms (prefix c) <> [] -> syms (prefix c') <> []) -> local (plug n i c').
Proof.
  intros Hn Hi Hk Hs Hpp. unfold local, plug in *. simpl.
  assert (Hal : aligned n -> aligned (with_children (<[i := c']> (children n)) n)).
  { intros (Hnd & ss & w & Hc & Hf & Hw). split; [done|]. destruct (decide (i < length ss)) as [Hl|Hl].
    - rewrite Hc, lookup_app_l in Hi by done. exists (<[i := c']> ss), w. simpl. rewrite Hc, insert_app_l by done.
      split; [done|]. split; [|done]. apply Forall2_same_length_lookup. split; [rewrite length_insert; by eapply Forall2_length|].
      intros j b y Hb Hy. destruct (decide (i = j)) as [->|].
      + rewrite list_lookup_insert_eq in Hy by done. simplify_eq. destruct (Forall2_lookup_lr _ _ _ _ _ _ Hf Hb Hi) as [Ht Hst].
        split; [rewrite Ht in Hk; by apply same_kind_static|by apply Hs].
      + rewrite list_lookup_insert_ne in Hy by done. by eapply Forall2_lookup_lr.
    - rewrite Hc, lookup_app_r in Hi by lia. destruct (wild_child n) eqn:Hwc; [|subst w; by rewrite lookup_nil in Hi].
      destruct Hw as (cw & -> & Hcw). apply list_lookup_singleton_Some in Hi as [Hz ->].
      exists ss, [c']. simpl. rewrite Hc, insert_app_r_alt, Hz by lia. split; [done|]. split; [done|]. rewrite Hwc.
      exists c'. split; [done|]. by rewrite <- (same_kind_wild _ _ Hk). }
  destruct (node_type n) eqn:Ht; [naive_solver| |destruct Hn as (_ & Hn & _); by rewrite Hn in Hi|naive_solver].
  destruct Hn as (? & ? & ? & Hst). split_and!; try done. apply Forall_insert; [done|].
  eapply Forall_lookup in Hst as [Hst Hne]; [|done]. rewrite Hst in Hk. split; [by apply same_kind_static|by apply Hpp].
Qed.
(** ** Steps that do not change the routes *)

Lemma routes_plug n i c c' es : children n !! i = Some c -> routes c' ≡ₚ es ++ routes c ->
  routes (plug n i c') ≡ₚ under (syms (prefix n)) es ++ routes n.
Proof.
  intros Hi Hc. rewrite !routes_eq. unfold plug, own. simpl. rewrite <- under_app. f_equiv.
  rewrite (flat_map_insert routes _ _ _ _ _ Hi Hc), !app_assoc. f_equiv. apply Permutation_app_comm.
Qed.

(** The fields that routes and shape do not read. *)
Lemma bump_same n : routes (bump n) = routes n /\ node_type (bump n) = node_type n /\ (inv n -> inv (bump n)).
Proof.
  split; [by rewrite !routes_eq|]. split; [done|]. inversion 1; subst. by constructor.
Qed.

Lemma inv_plug n i c c' : inv n -> children n !! i = Some c -> inv c' -> same_kind (node_type c) (node_type c') ->
  (forall b, indices n !! i = Some b -> starts b (routes c) -> starts b (routes c')) ->
  (is_param (node_type n) = true -> syms (prefix c) <> [] -> syms (prefix c') <> []) -> inv (plug n i c').
Proof.
  intros [m Hl Hc] Hi Hc' Hk Hs Hpp. constructor; [by eapply local_plug|]. by apply Forall_insert.
Qed.

Lemma fork_same n k : inv n -> wild_type (node_type n) = false -> k < length (inner (prefix n)) ->
  inv (fork n k) /\ node_type (fork n k) = node_type n /\ routes (fork n k) = routes n.
Proof.
  intros Hn Ht Hk.
  assert (Hl : texts (syms (prefix n)) /\ aligned n).
  { apply inv_local in Hn. unfold local in Hn. by destruct (node_type n). }
  destruct Hl as [Hlit Hal]. rewrite <- (take_drop k (syms (prefix n))) in Hlit. apply Forall_app in Hlit as [Hl1 Hl2].
  set (child := fork_child n k).
  assert (Hci : inv child).
  { constructor; [|by apply (inv_children n)]. unfold local. simpl. autorewrite with syms. done. }
  assert (Hr : routes child = under (drop k (syms (prefix n))) (own n ++ flat_map routes (children n))).
  { rewrite routes_eq. simpl. by autorewrite with syms. }
  split; [|split; [done|]].
  - constructor; [|by apply Forall_singleton]. unfold local. change (node_type (fork n k)) with (node_type n).
    assert (aligned (fork n k)).
    { destruct (drop k (inner (prefix n))) as [|b t] eqn:Hd; [apply (f_equal length) in Hd; rewrite length_drop in Hd; simpl in Hd; lia|].
      unfold aligned, fork. simpl. rewrite Hd. split; [apply NoDup_singleton|]. exists [child], []. split; [done|]. split; [|done].
      constructor; [|constructor]. split; [done|]. rewrite Hr. apply Forall_fmap, Forall_true. intros e. simpl.
      assert (Hs : drop k (syms (prefix n)) = (b, route_is_escaped (prefix n) k) :: drop (S k) (syms (prefix n))).
      { apply drop_S. rewrite syms_lookup. pose proof (lookup_drop (inner (prefix n)) k 0) as Hz.
        rewrite Hd, Nat.add_0_r in Hz. by rewrite <- Hz. }
      rewrite Hs in Hl2 |- *. apply Forall_cons in Hl2 as [Hb _]. rewrite Hb. simpl. by eexists. }
    unfold wild_type in Ht. destruct (node_type n); try done; simpl; by autorewrite with syms.
  - rewrite (routes_eq (fork n k)). change (children (fork n k)) with [child]. change (own (fork n k)) with (@nil Entry).
    cbn [flat_map app]. rewrite app_nil_r, Hr, under_under. simpl. autorewrite with syms. by rewrite take_drop, (routes_eq n).
Qed.

(** *** Reordering *)

Lemma move_front_spec i (pr : Z) (l : list (Node T)) x u l' : l !! i = Some x -> move_front i pr l = (u, l') ->
  u <= i /\ l' = take u l ++ [x] ++ drop u (take i l) ++ drop (S i) l.
Proof.
  revert l. induction i as [|j IH]; intros l Hx; cbn [move_front].
  - intros [= <- <-]. split; [done|]. simpl. by destruct l; simplify_eq/=.
  - destruct (lookup_lt_is_Some_2 l j) as [a Ha]; [apply lookup_lt_Some in Hx; lia|]. rewrite Ha, Hx.
    assert (Hd : l = take j l ++ a :: x :: drop (S (S j)) l).
    { rewrite <- (take_drop_middle l j a Ha) at 1. do 2 f_equal. by apply drop_S. }
    assert (Hj : length (take j l) = j) by (apply length_take_le; apply lookup_lt_Some in Ha; lia).
    destruct (priority a <? pr)%Z.
    + intros H. apply IH in H as [Hu ->].
      2:{ rewrite list_lookup_insert_eq; [done|]. rewrite length_insert. by apply lookup_lt_Some in Ha. }
      split; [lia|]. assert (Hins : <[j := x]> (<[S j := a]> l) = take j l ++ x :: a :: drop (S (S j)) l).
      { rewrite Hd at 1. rewrite insert_app_r_alt by lia. rewrite Hj. replace (S j - j) with 1 by lia. simpl.
        rewrite insert_app_r_alt by lia. rewrite Hj, Nat.sub_diag. done. }
      rewrite Hins. rewrite !take_app_le by lia. rewrite take_take, Nat.min_l by lia.
      rewrite (take_take l j j), Nat.min_id. rewrite (drop_app_ge _ _ (S j)) by lia. rewrite Hj.
      replace (S j - j) with 1 by lia. simpl.
      rewrite (take_S_r _ _ _ Ha), drop_app_le by (rewrite Hj; lia). by rewrite <- app_assoc.
    + intros [= <- <-]. split; [done|]. rewrite (drop_ge (take (S j) l) (S j)) by (rewrite length_take; lia). simpl.
      by rewrite take_drop_middle.
Qed.

Lemma rotated_perm {A} (l : list A) u i x : l !! i = Some x -> u <= i ->
  take u l ++ [x] ++ drop u (take i l) ++ drop (S i) l ≡ₚ l.
Proof.
  intros Hx Hu. rewrite <- (take_drop_middle l i x Hx) at 4. rewrite <- (take_drop u (take i l)) at 2.
  rewrite take_take, Nat.min_l by done. rewrite <- !app_assoc. f_equiv. simpl. apply Permutation_middle.
Qed.

Lemma Forall2_rotated {A B} (R : A -> B -> Prop) l k u i x y : Forall2 R l k -> R x y ->
  Forall2 R (take u l ++ [x] ++ drop u (take i l) ++ drop (S i) l) (take u k ++ [y] ++ drop u (take i k) ++ drop (S i) k).
Proof.
  intros H Hxy. apply Forall2_app; [by apply Forall2_take|]. simpl. constructor; [done|].
  apply Forall2_app; [by apply Forall2_drop, Forall2_take|by apply Forall2_drop].
Qed.

Lemma update_child_priority_spec n i c : inv n -> wild_type (node_type n) = false -> children n !! i = Some c ->
  i < length (indices n) ->
  exists u n', update_child_priority n i = Ok (u, n') /\ children n' !! u = Some (bump c) /\ inv n'
    /\ node_type n' = node_type n /\ prefix n' = prefix n /\ routes n' ≡ₚ routes n
    /\ indices n' !! u = indices n !! i /\ wild_child n' = wild_child n.
Proof.
  intros Hn Ht Hi Hlt. unfold update_child_priority. rewrite Hi.
  destruct (move_front i (priority (bump c)) (<[i := bump c]> (children n))) as [u cs] eqn:Hm.
  assert (Hli : i < length (children n)) by by eapply lookup_lt_Some.
  apply move_front_spec with (x := bump c) in Hm as [Hu Hcs]; [|by rewrite list_lookup_insert_eq].
  destruct (lookup_lt_is_Some_2 _ _ Hlt) as [b Hb].
  set (ix := take u (indices n) ++ [b] ++ drop u (take i (indices n)) ++ drop (S i) (indices n)).
  assert (Hix : (if u =? i then Ok (u, with_children cs n)
    else match rotate_right1 u i (indices n) with Some ix => Ok (u, with_indices ix (with_children cs n)) | None => Panic end)
    = (Ok (u, with_indices ix (with_children cs n)) : outcome InsertError (nat * Node T))).
  { unfold rotate_right1. rewrite Hb. simpl. rewrite (proj2 (Nat.leb_le u i) Hu). destruct (Nat.eqb_spec u i) as [->|]; [|done].
    f_equal. f_equal. unfold ix. rewrite (drop_ge (take i (indices n)) i) by (rewrite length_take; lia). simpl.
    rewrite take_drop_middle by done. by destruct n. }
  change (indices (with_children cs n)) with (indices n). rewrite Hix. eexists _, _. split; [reflexivity|].
  assert (Hlen : length (take u (<[i:=bump c]> (children n))) = u) by (rewrite length_take, length_insert; lia).
  assert (Hp : cs ≡ₚ <[i := bump c]> (children n)).
  { rewrite Hcs. apply rotated_perm; [by rewrite list_lookup_insert_eq|done]. }
  split; [simpl; rewrite Hcs, lookup_app_r by lia; by rewrite Hlen, Nat.sub_diag|].
  assert (Hlen' : length (take u (indices n)) = u) by (rewrite length_take; lia).
  split; [|split; [done|split; [done|split; [|split; [|done]]]]].
  - destruct (bump_same c) as (Hrb & Htb & Hib). destruct Hn as [n Hl Hch].
    pose proof (local_plug n i c (bump c) Hl Hi) as Hl'. rewrite Hrb, Htb in Hl'. specialize (Hl' (same_kind_refl _) ltac:(done) ltac:(done)).
    constructor.
    + unfold local, plug in Hl' |- *. simpl in *. assert (aligned (with_children (<[i := bump c]> (children n)) n) ->
        aligned (with_indices ix (with_children cs n))) as Hal.
      { intros (Hnd & ss & w & Hc & Hf & Hw). simpl in *. split; simpl.
        { unfold ix. by rewrite (rotated_perm (indices n) u i b Hb Hu). }
        assert (Hss : i < length ss) by (rewrite <- (Forall2_length _ _ _ Hf); done).
        exists (take u ss ++ [bump c] ++ drop u (take i ss) ++ drop (S i) ss), w. split.
        - rewrite Hcs, Hc. rewrite !take_app_le, drop_app_le by lia. by rewrite <- !app_assoc.
        - split; [|done]. apply Forall2_rotated; [done|]. eapply Forall2_lookup_lr; [done|done|].
          rewrite <- (lookup_app_l ss w) by done. by rewrite <- Hc, list_lookup_insert_eq. }
      unfold wild_type in Ht. by destruct (node_type n); naive_solver.
    + simpl. rewrite Hp. apply Forall_insert; [done|]. apply Hib. by eapply Forall_lookup in Hch.
  - rewrite !routes_eq. unfold own. simpl. f_equiv. f_equiv. rewrite Hp. rewrite (flat_map_insert routes _ _ c _ []); [done|done|].
    by destruct (bump_same c) as [-> _].
  - simpl. unfold ix. rewrite lookup_app_r, Hlen', Nat.sub_diag by lia. by rewrite Hb.
Qed.
(** *** New children *)

Lemma inv_aligned n : inv n -> wild_type (node_type n) = false -> texts (syms (prefix n)) /\ aligned n.
Proof. intros H%inv_local. unfold local in H. by destruct (node_type n). Qed.
Lemma aligned_inv n : wild_type (node_type n) = false -> texts (syms (prefix n)) -> aligned n ->
  Forall inv (children n) -> inv n.
Proof. intros Ht Hl Ha Hc. constructor; [|done]. unfold local. by destruct (node_type n). Qed.

Lemma aligned_empty n : indices n = [] -> wild_child n = false -> children n = [] -> aligned n.
Proof. intros Hi Hw Hc. unfold aligned. rewrite Hi, Hw, Hc. split; [constructor|]. by exists [], []. Qed.
Lemma aligned_fresh n : aligned n -> children n = [] -> indices n = [] /\ wild_child n = false.
Proof.
  intros (_ & ss & w & Hc & Hf & Hw) Hn. rewrite Hn in Hc. symmetry in Hc. apply app_eq_nil in Hc as [-> ->].
  apply Forall2_nil_inv_r in Hf. split; [done|]. destruct (wild_child n); [|done]. by destruct Hw as (? & ? & _).
Qed.

(** A static node without children. *)
Lemma inv_leaf (r : UnescapedRoute) (pr : Z) v names : texts (syms r) ->
  inv (mkNode r pr false [] Static [] v names : Node T).
Proof. intros H. apply aligned_inv; try done. by apply aligned_empty. Qed.

Lemma inv_default (pr : Z) : inv (with_priority pr node_default : Node T).
Proof. apply inv_leaf. constructor. Qed.

Lemma routes_children n (cs : list (Node T)) es : flat_map routes cs ≡ₚ es ++ flat_map routes (children n) ->
  routes (with_children cs n) ≡ₚ under (syms (prefix n)) es ++ routes n.
Proof.
  intros H. rewrite !routes_eq. unfold own. simpl. rewrite <- under_app. f_equiv. rewrite H, !app_assoc. f_equiv.
  apply Permutation_app_comm.
Qed.

Lemma add_static_child n b child : inv n -> wild_type (node_type n) = false -> b ∉ indices n ->
  inv child -> indexed b child ->
  exists n', add_child (with_indices (indices n ++ [b]) n) child = (length (indices n), n') /\ inv n'
    /\ children n' !! length (indices n) = Some child /\ node_type n' = node_type n /\ prefix n' = prefix n
    /\ indices n' = indices n ++ [b] /\ routes n' ≡ₚ under (syms (prefix n)) (routes child) ++ routes n.
Proof.
  intros Hn Ht Hb Hci Hcx. destruct (inv_aligned n Hn Ht) as (Hlit & Hnd & ss & w & Hc & Hf & Hw).
  pose proof (Forall2_length _ _ _ Hf) as Hlen.
  assert (Hadd : add_child (with_indices (indices n ++ [b]) n) child
    = (length (indices n), with_children (ss ++ child :: w) (with_indices (indices n ++ [b]) n))).
  { unfold add_child. simpl. rewrite Hc, length_app, Hlen. destruct (wild_child n).
    - destruct Hw as (cw & -> & _). simpl. rewrite (proj2 (Nat.ltb_lt _ _)) by lia. simpl. rewrite Nat.add_sub.
      by rewrite take_app_length, drop_app_length.
    - rewrite Hw. simpl. by rewrite Nat.add_0_r, app_nil_r. }
  rewrite Hadd. eexists. split; [reflexivity|]. simpl. split; [|split; [|split; [done|split; [done|split; [done|]]]]].
  - apply aligned_inv; try done.
    + split; simpl; [apply NoDup_app; split; [done|]; split; [|apply NoDup_singleton]; intros x Hx ->%list_elem_of_singleton; done|].
      exists (ss ++ [child]), w. split; [by rewrite <- app_assoc|]. split; [|done]. apply Forall2_app; [done|]. by constructor.
    + simpl. pose proof (inv_children n Hn) as Hall. rewrite Hc in Hall. apply Forall_app in Hall as [? ?]. apply Forall_app. split; [done|by constructor].
  - by rewrite Hlen, list_lookup_middle.
  - etransitivity; [apply (routes_children (with_indices (indices n ++ [b]) n) _ (routes child))|by rewrite !routes_eq].
    simpl. rewrite Hc, !flat_map_app. simpl. rewrite !app_assoc. f_equiv. apply Permutation_app_comm.
Qed.

Lemma add_wild_child n child : inv n -> wild_type (node_type n) = false -> wild_child n = false ->
  inv child -> wild_type (node_type child) = true ->
  exists i n', add_child n child = (i, n') /\ inv (with_wild true n') /\ children n' !! i = Some child
    /\ indices n' !! i = None /\ node_type n' = node_type n /\ prefix n' = prefix n
    /\ routes (with_wild true n') ≡ₚ under (syms (prefix n)) (routes child) ++ routes n.
Proof.
  intros Hn Ht Hwc Hci Hcw. destruct (inv_aligned n Hn Ht) as (Hlit & Hnd & ss & w & Hc & Hf & Hw).
  rewrite Hwc in Hw. subst w. rewrite app_nil_r in Hc. unfold add_child. rewrite Hwc. simpl. eexists _, _. split; [reflexivity|]. simpl.
  split; [|split; [by rewrite list_lookup_middle|split; [|split; [done|split; [done|]]]]].
  - apply aligned_inv; try done.
    + split; simpl; [done|]. exists ss, [child]. rewrite Hc. split; [done|]. split; [done|]. by exists child.
    + simpl. apply Forall_app. split; [by apply inv_children|by constructor].
  - apply lookup_ge_None_2. by rewrite Hc, (Forall2_length _ _ _ Hf).
  - etransitivity; [|apply (routes_children n (children n ++ [child]) (routes child))]; [by rewrite !routes_eq|].
    rewrite flat_map_app. simpl. rewrite app_nil_r. apply Permutation_app_comm.
Qed.

Lemma partition_point_le (f : Node T -> bool) l : partition_point f l <= length l.
Proof. induction l as [|c l IH]; simpl; [done|]. destruct (f c); lia. Qed.

Lemma add_suffix_child_spec n child : inv n -> is_param (node_type n) = true ->
  inv child -> node_type child = Static -> syms (prefix child) <> [] ->
  exists i n', add_suffix_child n child = (i, n') /\ inv n' /\ children n' !! i = Some child
    /\ indices n' = [] /\ node_type n' = node_type n /\ prefix n' = prefix n
    /\ routes n' ≡ₚ under (syms (prefix n)) (routes child) ++ routes n.
Proof.
  intros Hn Ht Hci Hcs Hne. unfold add_suffix_child. set (i := partition_point _ _). eexists i, _. split; [reflexivity|]. simpl.
  assert (Hi : i <= length (children n)) by apply partition_point_le.
  pose proof (inv_local n Hn) as Hl. unfold local in Hl. destruct (node_type n) eqn:E; try done. destruct Hl as (Hp & Hix & Hw & Hs).
  split; [|split; [|split; [done|split; [done|split; [done|]]]]].
  - constructor; unfold local; simpl.
    + rewrite E. split; [done|]. split; [done|]. split; [done|]. apply Forall_app. split; [by apply Forall_take|]. constructor; [done|]. by apply Forall_drop.
    + pose proof (inv_children n Hn). apply Forall_app. split; [by apply Forall_take|]. constructor; [done|]. by apply Forall_drop.
  - rewrite lookup_app_r by (rewrite length_take; lia). rewrite length_take, Nat.min_l by done. by rewrite Nat.sub_diag.
  - apply (routes_children n (take i (children n) ++ child :: drop i (children n)) (routes child)).
    rewrite <- (take_drop i (children n)) at 3. rewrite !flat_map_app. simpl. rewrite !app_assoc. f_equiv. apply Permutation_app_comm.
Qed.

(** A parameter may become one with suffixes. *)
Lemma with_type_param n t : inv n -> is_param (node_type n) = true ->
  inv (with_type (Param t) n) /\ routes (with_type (Param t) n) = routes n.
Proof.
  intros Hn Ht. split; [|by rewrite !routes_eq]. constructor; [|by apply (inv_children n)].
  apply inv_local in Hn. unfold local in *. by destruct (node_type n).
Qed.
End Routes.
Arguments Entry : clear implicits.
#[global] Arguments routes {T} n : simpl never.

(** ** Operations that add a route *)

Section Adds.
Context {T : Type} (names : ParamRemapping) (val : T) (bad : Prop).
Implicit Types (n c : Node T) (o : Op T).

(** The routes after an operation: one more, or the same; [bad] is the only reason to panic. *)
Definition routes_after (pat : list sym) (before after : list (Entry T)) (r : outcome InsertError unit) : Prop :=
  match r with
  | Ok _ => after ≡ₚ (pat, names, val) :: before
  | Err _ => after ≡ₚ before
  | Panic => after ≡ₚ before /\ bad
  end.

(** A prefix that starts like the route is not cut down to nothing. *)
Definition kept (pat : list sym) n n' : Prop :=
  forall s, head (syms (prefix n)) = Some s -> head pat = Some s -> head (syms (prefix n')) = Some s.
Lemma kept_eq pat n n' : prefix n' = prefix n -> kept pat n n'.
Proof. by intros Hp s Hs _; rewrite Hp. Qed.

Record adds (pat : list sym) n o : Prop := mkAdds {
  adds_inv : inv o.1;
  adds_kept : kept pat n o.1;
  adds_kind : same_kind (node_type n) (node_type o.1);
  adds_routes : routes_after pat (routes n) (routes o.1) o.2 }.

Lemma routes_after_starts pat b before after r : routes_after pat before after r ->
  (exists q, pat = text_sym b :: q) -> starts b before -> starts b after.
Proof.
  intros H Hp Hb. destruct r; simpl in H; [|by eapply starts_perm; [symmetry|]|destruct H; by eapply starts_perm; [symmetry|]].
  eapply starts_perm; [symmetry; exact H|]. by constructor.
Qed.

(** The operation may start from any node with the same routes. *)
Lemma adds_from pat n n' o : routes n' ≡ₚ routes n -> same_kind (node_type n) (node_type n') -> kept pat n n' ->
  adds pat n' o -> adds pat n o.
Proof.
  intros Hr Hk Hp [Hi Hp' Hk' Ho]. split; [done|intros s Hs Hs'; by apply Hp', Hs'; apply Hp|by eapply same_kind_trans|]. destruct o as [m r]. simpl in *.
  unfold routes_after in *. destruct r; by rewrite <- Hr.
Qed.

(** An operation on a child is one on the node, for the route that leads there. *)
Lemma adds_on_child pat n i c k : inv n -> children n !! i = Some c -> adds pat c (k c) ->
  (forall b, indices n !! i = Some b -> exists q, pat = text_sym b :: q) ->
  (is_param (node_type n) = true -> head pat = head (syms (prefix c))) ->
  adds (syms (prefix n) ++ pat) n (on_child n i k).
Proof.
  intros Hn Hi [Hci Hcp Hck Hcr] Hix Hpar. unfold on_child. rewrite Hi. destruct (k c) as [c' r]. simpl in *.
  split; simpl; [|by apply kept_eq|apply same_kind_refl|].
  - eapply inv_plug; try done; [intros b Hb; eapply routes_after_starts; [done|]; by apply Hix|].
    intros Hp Hne. destruct (syms (prefix c)) as [|s l] eqn:Hs; [done|]. specialize (Hcp s). rewrite Hs in Hcp.
    specialize (Hcp eq_refl (Hpar Hp)). by destruct (syms (prefix c')).
  - unfold routes_after in *. destruct r.
    + by rewrite (routes_plug n i c c' [(pat, names, val)] Hi).
    + by rewrite (routes_plug n i c c' [] Hi).
    + destruct Hcr. split; [|done]. by rewrite (routes_plug n i c c' [] Hi).
Qed.

(** Storing the value at a node that has none. *)
Lemma adds_value n : inv n -> value n = None ->
  adds (syms (prefix n)) n (with_remapping names (with_value (Some val) n), Ok tt).
Proof.
  intros Hn Hv. split; simpl; [|by apply kept_eq|apply same_kind_refl|].
  - inversion Hn as [m Hl Hc Hm]; subst. constructor; [|done]. exact Hl.
  - rewrite !routes_eq. unfold own. simpl. rewrite Hv. simpl. unfold under at 1. simpl. by rewrite app_nil_r.
Qed.

Lemma adds_refused pat n e : inv n -> adds pat n (n, Err e).
Proof. intros ?. split; simpl; [done|by apply kept_eq|apply same_kind_refl|done]. Qed.

(** A node that holds nothing yet. *)
Definition fresh n : Prop := value n = None /\ children n = [].
Lemma fresh_routes n : fresh n -> routes n = [].
Proof. intros [Hv Hc]. rewrite routes_eq. unfold own. by rewrite Hv, Hc. Qed.

Lemma fresh_with_prefix n r : inv n -> wild_type (node_type n) = false -> fresh n -> texts (syms r) ->
  inv (with_prefix r n).
Proof.
  intros Hn Ht [_ Hc] Hl. destruct (inv_aligned n Hn Ht) as [_ Ha]. destruct (aligned_fresh n Ha Hc) as [Hi Hw].
  apply aligned_inv; [done|done|by apply aligned_empty|]. simpl. by rewrite Hc.
Qed.

(** [insert_route] on a node: below its prefix if the route starts with a wildcard, in place of
    its prefix otherwise. *)
Definition route_base n (pre : UnescapedRef) : list sym :=
  if starts_static pre then [] else syms (prefix n).
Definition insertable n (pre : UnescapedRef) : Prop :=
  inv n /\ wild_type (node_type n) = false /\ (if starts_static pre then fresh n else wild_child n = false).

(** The node after the literal part before the wildcard is cut off. *)
Definition cut_prefix (ws : nat) (pre : UnescapedRef) n : Node T :=
  if 0 <? ws then with_prefix (to_owned (slice_until pre ws)) n else n.
Definition cut_route (ws : nat) (pre : UnescapedRef) : UnescapedRef := if 0 <? ws then slice_off pre ws else pre.

Lemma cut_route_syms pre st l : fsyms pre = st ++ l -> fsyms (cut_route (length st) pre) = l.
Proof.
  intros H. unfold cut_route. destruct (Nat.ltb_spec 0 (length st)).
  - autorewrite with syms. by rewrite H, drop_app_length.
  - destruct st; [done|simpl in *; lia].
Qed.

Lemma cut_prefix_spec n pre st l : insertable n pre -> fsyms pre = st ++ (LB, false) :: l -> texts st ->
  inv (cut_prefix (length st) pre n) /\ node_type (cut_prefix (length st) pre n) = node_type n
  /\ wild_child (cut_prefix (length st) pre n) = false
  /\ syms (prefix (cut_prefix (length st) pre n)) = route_base n pre ++ st
  /\ routes (cut_prefix (length st) pre n) = routes n.
Proof.
  intros (Hn & Ht & Hs) Hf Hl. unfold route_base in *. unfold starts_static in *. rewrite starts_static_syms, Hf in *.
  unfold cut_prefix. destruct st as [|[c e] st]; simpl length in *; simpl app in *.
  - cbn in Hs |- *. by rewrite app_nil_r.
  - assert (Hc : negb (c =? LB)%Z || e = true) by (apply texts_literals, Forall_cons in Hl as [Hce _]; by apply literal_cases in Hce as [_ ?]).
    cbn -[Z.eqb] in Hs. rewrite Hc in Hs |- *. cbn [Nat.ltb Nat.leb]. destruct (inv_aligned n Hn Ht) as [_ Ha]. pose proof Hs as [Hv Hch].
    destruct (aligned_fresh n Ha Hch) as [_ Hw]. simpl. autorewrite with syms. rewrite Hf. simpl. rewrite take_app_length.
    split; [|split; [done|split; [done|split; [done|]]]].
    + apply fresh_with_prefix; try done. autorewrite with syms. rewrite Hf. simpl. by rewrite take_app_length.
    + rewrite !fresh_routes; by split.
Qed.

Let set : Node T -> Node T := with_remapping names.

(** What the next turn promises for routes of at most [k] bytes. *)
Definition rec_adds (k : nat) (rec : Node T -> UnescapedRef -> Op T) : Prop :=
  forall n pre m, f_len pre <= k -> insertable n pre -> normal (fsyms pre) m -> clean (fsyms pre) ->
    adds (route_base n pre ++ fsyms pre) n (rec n pre).

Lemma first_sym f : starts_static f = true -> f_len f <> 0 -> forall m, normal (fsyms f) m -> clean (fsyms f) ->
  exists b q, f_inner f !! 0 = Some b /\ take 1 (f_inner f) = [b] /\ fsyms f = text_sym b :: q.
Proof.
  intros Hs Hl m Hn Hcl. pose proof (fsyms_bytes f) as Hb. unfold starts_static in Hs. rewrite starts_static_syms in Hs.
  rewrite <- fsyms_length in Hl. destruct (fsyms f) as [|[b esc] q]; [done|]. exists b, q. rewrite <- Hb. simpl. rewrite take_0.
  split; [done|]. split; [done|]. f_equal. apply Forall_cons in Hcl as [Hcl _].
  assert (Hlit : literal (b, esc) = true) by by inversion Hn; subst.
  assert (Htx : texts [(b, esc)]) by (apply texts_iff; split; by constructor). by apply Forall_cons in Htx as [? _].
Qed.

Lemma add_fresh_child n b : inv n -> wild_type (node_type n) = false -> fresh n ->
  exists n', add_child (with_indices (indices n ++ [b]) n) (with_priority 1 node_default) = (0, n') /\ inv n'
    /\ children n' !! 0 = Some (with_priority 1 node_default) /\ node_type n' = node_type n /\ prefix n' = prefix n
    /\ indices n' = [b] /\ routes n' ≡ₚ routes n.
Proof.
  intros Hn Ht Hf. destruct (inv_aligned n Hn Ht) as [_ Ha]. destruct (aligned_fresh n Ha (proj2 Hf)) as [Hi Hw].
  destruct (add_static_child n b (with_priority 1 node_default) Hn Ht) as (n' & He & ? & ? & ? & ? & Hix & Hr).
  - rewrite Hi. apply not_elem_of_nil.
  - apply inv_default.
  - split; [done|]. rewrite fresh_routes by done. constructor.
  - exists n'. rewrite Hi in *. by rewrite (fresh_routes (with_priority 1 node_default)) in Hr.
Qed.

Lemma insert_tail_adds k rec n rest m : rec_adds k rec -> f_len rest <= k -> normal (fsyms rest) m -> clean (fsyms rest) -> inv n -> fresh n ->
  (wild_type (node_type n) = true -> f_len rest = 0) ->
  adds (syms (prefix n) ++ fsyms rest) n (insert_tail set val rec rest n).
Proof.
  intros Hrec Hk Hm Hcl Hn Hf Hw. unfold insert_tail. destruct (Nat.eqb_spec (f_len rest) 0) as [Hz|Hz].
  - rewrite <- fsyms_length in Hz. apply nil_length_inv in Hz. rewrite Hz, app_nil_r. apply adds_value; [done|by destruct Hf].
  - assert (Ht : wild_type (node_type n) = false) by (destruct (wild_type (node_type n)); [by destruct Hz; apply Hw|done]).
    destruct (inv_aligned n Hn Ht) as [_ Ha]. destruct (aligned_fresh n Ha (proj2 Hf)) as [_ Hwc].
    destruct (starts_static rest) eqn:Hs.
    + destruct (first_sym rest Hs Hz m Hm Hcl) as (b & q & Hb & -> & Hsy).
      destruct (add_fresh_child n b Hn Ht Hf) as (n' & -> & Hn' & Hc & Ht' & Hp & Hix & Hr).
      apply (adds_from _ n n'); [done|rewrite Ht'; apply same_kind_refl|by apply kept_eq|]. rewrite <- Hp.
      eapply adds_on_child; [done|done| | |rewrite Ht'; by apply not_param].
      * assert (Hi : insertable (with_priority 1 node_default : Node T) rest).
        { split; [apply inv_default|]. split; [done|]. by rewrite Hs. }
        pose proof (Hrec _ _ _ Hk Hi Hm Hcl) as H. unfold route_base in H. by rewrite Hs in H.
      * intros b'. rewrite Hix. intros [_ ->]%list_lookup_singleton_Some. rewrite Hsy. eauto.
    + assert (Hi : insertable n rest) by (split; [done|]; split; [done|]; by rewrite Hs).
      pose proof (Hrec _ _ _ Hk Hi Hm Hcl) as H. unfold route_base in H. by rewrite Hs in H.
Qed.

(** The bytes of a parameter are not part of what ends the segment. *)
Lemma param_segment_end pre x l : (97 <= x <= 122)%Z -> fsyms pre = (LB, false) :: (x, false) :: (RB, false) :: l ->
  segment_end (f_inner pre) = 3 + segment_end l.*1.
Proof.
  intros Hx Hf. rewrite <- fsyms_bytes, Hf. apply (segment_end_app [LB; x; RB]).
  rewrite !not_elem_of_cons. split; [done|]. split; [lia|]. split; [done|apply not_elem_of_nil].
Qed.

Lemma insert_param_adds k rec n pre x l m : rec_adds k rec -> f_len pre <= k + 3 -> (97 <= x <= 122)%Z ->
  fsyms pre = (LB, false) :: (x, false) :: (RB, false) :: l -> normal l m -> clean l ->
  inv n -> wild_type (node_type n) = false -> wild_child n = false ->
  adds (syms (prefix n) ++ fsyms pre) n (insert_param set val rec n pre 3).
Proof.
  intros Hrec Hk Hx Hf Hm Hcl Hn Ht Hw. unfold insert_param. set (te := segment_end l.*1).
  assert (Hte : segment_end (f_inner pre) = 3 + te) by by apply (param_segment_end _ x).
  assert (Hlen : f_len pre = 3 + length l) by by rewrite <- fsyms_length, Hf.
  assert (Hle : te <= length l) by (etransitivity; [apply segment_end_le|by rewrite length_fmap]).
  assert (Hwl : f_len (slice_until pre (3 + te)) = 3 + te) by (unfold f_len in *; simpl; rewrite length_take; lia).
  rewrite Hte. unfold slice_off_chk. fold (f_len (slice_until pre (3 + te))). rewrite Hwl.
  set (suffix := slice_off (slice_until pre (3 + te)) 3). set (rest := slice_off pre (3 + te)).
  assert (Hsuf : fsyms suffix = take te l) by (unfold suffix; autorewrite with syms; by rewrite Hf).
  assert (Hrest : fsyms rest = drop te l) by (unfold rest; autorewrite with syms; by rewrite Hf).
  destruct (normal_segment l m Hm) as (a & b & -> & Ha & Hb). fold te in Ha, Hb. rewrite <- Hsuf in Ha. rewrite <- Hrest in Hb.
  cbn [Nat.leb Nat.add]. destruct (finds_wildcard suffix) eqn:Hfw; [by apply adds_refused|].
  assert (Hcs : clean (fsyms suffix) /\ clean (fsyms rest)) by (rewrite Hsuf, Hrest; split; [by apply Forall_take|by apply Forall_drop]).
  destruct Hcs as [Hcs Hcr]. assert (Hsl : texts (fsyms suffix)) by (apply texts_iff; split; [by eapply finds_wildcard_literals|done]).
  set (pn := mkNode (to_owned (slice_until pre 3)) 1 false [] (Param (negb (trivial_suffix (f_inner suffix)))) [] None [] : Node T).
  assert (Hps : syms (prefix pn) = [(LB, false); (x, false); (RB, false)]) by (simpl; autorewrite with syms; by rewrite Hf).
  assert (Hpi : inv pn).
  { constructor; [|constructor]. split; [rewrite Hps; by exists x|done]. }
  destruct (add_wild_child n pn Hn Ht Hw Hpi) as (i & n' & -> & Hn' & Hc & Hix & Ht' & Hp & Hr); [done|].
  apply (adds_from _ n (with_wild true n')); [by rewrite Hr, (fresh_routes pn)|simpl; rewrite Ht'; apply same_kind_refl|by apply kept_eq|].
  rewrite <- Hp. change (prefix n') with (prefix (with_wild true n')).
  eapply adds_on_child; [done|done| |by intros ? ?; simplify_eq/=|simpl; rewrite Ht'; by apply not_param].
  rewrite Hf. change (_ :: _ :: _ :: l) with ([(LB, false); (x, false); (RB, false)] ++ l). rewrite <- Hps at 1.
  assert (Hrk : f_len rest <= k) by (rewrite <- fsyms_length, Hrest, length_drop; lia).
  rewrite <- (take_drop te l), <- Hsuf, <- Hrest.
  destruct (Nat.eqb_spec (f_len suffix) 0) as [Hz|Hz].
  - assert (Hnil : fsyms suffix = []) by by apply nil_length_inv; rewrite fsyms_length.
    rewrite Hnil. eapply insert_tail_adds; try done. intros _.
    rewrite Hsuf in Hnil. assert (te = 0 \/ l = []) as [H0 | ->] by (destruct te, l; naive_solver).
    + unfold te in H0. destruct l as [|[c e] l]; [|cbn in H0; rewrite segment_end_cons in H0; by case_decide].
      by rewrite <- fsyms_length, Hrest, drop_nil.
    + by rewrite <- fsyms_length, Hrest, drop_nil.
  - assert (Hsi : inv (mkNode (to_owned suffix) 1 false [] Static [] None [] : Node T)) by (apply inv_leaf; by autorewrite with syms).
    assert (Hne : fsyms suffix <> []) by (intros Hnil; apply Hz; by rewrite <- fsyms_length, Hnil).
    destruct (add_suffix_child_spec pn _ Hpi eq_refl Hsi eq_refl) as (j & p' & -> & Hpi' & Hcj & Hixj & Htp & Hpp & Hrp);
      [by simpl; rewrite syms_to_owned|].
    apply (adds_from _ pn p'); [by rewrite Hrp, (fresh_routes (mkNode _ _ _ _ _ _ _ _))|by rewrite Htp|by apply kept_eq|].
    rewrite <- Hpp, <- (syms_to_owned suffix). rewrite <- (syms_to_owned suffix) in Hne.
    eapply adds_on_child; [done|done| |by rewrite Hixj|intros _; simpl; by destruct (syms (to_owned suffix))].
    by apply (insert_tail_adds k rec (mkNode (to_owned suffix) 1 false [] Static [] None []) rest b).
Qed.

Lemma insertable_texts n pre : insertable n pre -> texts (fsyms pre) -> fresh n /\ starts_static pre = true.
Proof.
  intros (_ & _ & H) Hl. assert (Hs : starts_static pre = true).
  { unfold starts_static. rewrite starts_static_syms. destruct (fsyms pre) as [|[c e] l]; [done|].
    apply texts_literals, Forall_cons in Hl as [Hc _]. by apply literal_cases in Hc as [_ ?]. }
  by rewrite Hs in H.
Qed.

(** A route without wildcards becomes the prefix of the node. *)
Lemma insert_literal_adds n pre : insertable n pre -> texts (fsyms pre) ->
  adds (route_base n pre ++ fsyms pre) n (set (with_prefix (to_owned pre) (with_value (Some val) n)), Ok tt).
Proof.
  intros Hi Hl. destruct (insertable_texts n pre Hi Hl) as [[Hv Hc] Hs]. unfold route_base. rewrite Hs. destruct Hi as (Hn & Ht & _).
  apply (adds_from _ n (with_prefix (to_owned pre) n)); [by rewrite !fresh_routes|apply same_kind_refl|by intros ? _; simpl; rewrite syms_to_owned|].
  pose proof (adds_value (with_prefix (to_owned pre) n)) as H. simpl in H. rewrite syms_to_owned in H. apply H; [|done].
  apply fresh_with_prefix; [done|done|done|by rewrite syms_to_owned].
Qed.

Lemma catch_all_adds n pre e name : inv n -> wild_type (node_type n) = false -> wild_child n = false -> Forall name_sym name ->
  fsyms pre = (LB, false) :: (STAR, e) :: name ++ [(RB, false)] ->
  adds (syms (prefix n) ++ fsyms pre) n
    (with_wild true (add_child n (set (mkNode (to_owned pre) 1 false [] CatchAll [] (Some val) []))).2, Ok tt).
Proof.
  intros Hn Ht Hw Hname Hf. set (c := set _).
  assert (Hci : inv c).
  { constructor; [|constructor]. split; [|done]. exists e, name. split; [done|]. simpl. by rewrite syms_to_owned. }
  destruct (add_wild_child n c Hn Ht Hw Hci) as (i & n' & -> & Hn' & _ & _ & Ht' & Hp & Hr); [done|].
  split; simpl; [done|by apply kept_eq|rewrite Ht'; apply same_kind_refl|]. rewrite Hr. unfold c. rewrite (routes_eq (set _)). simpl.
  unfold under. simpl. by rewrite app_nil_r, syms_to_owned.
Qed.

Lemma wildcard_byte pre st x l : fsyms pre = st ++ (LB, false) :: x :: l -> f_inner pre !! (length st + 1) = Some x.1.
Proof.
  intros Hf. rewrite <- fsyms_bytes, Hf, list_lookup_fmap, lookup_app_r by lia. by replace (length st + 1 - length st) with 1 by lia.
Qed.

Lemma cut_kept {n pre st l} : fsyms pre = st ++ (LB, false) :: l ->
  syms (prefix (cut_prefix (length st) pre n)) = route_base n pre ++ st ->
  kept (route_base n pre ++ st ++ (LB, false) :: l) n (cut_prefix (length st) pre n).
Proof.
  intros Hf Hp s Hs Hh. rewrite Hp. destruct st as [|x st]; [|by destruct (route_base n pre)].
  unfold route_base in *. destruct (starts_static pre) eqn:Hss; [|by rewrite app_nil_r].
  unfold starts_static in Hss. by rewrite starts_static_syms, Hf in Hss.
Qed.

(** [insert_route] adds the route, at the cost of at most one turn per byte. *)
Lemma insert_route_adds k : rec_adds k (insert_route set val (S k)).
Proof.
  induction k as [|k IH]; intros n pre m Hk Hi Hm Hcl; cbn [insert_route]; rewrite find_wildcard_syms.
  all: destruct (normal_split _ _ Hm) as [Hl|(st & rest & Hst & Hw)].
  1,3: rewrite wildcard_in_none by done; apply insert_literal_adds; [done|by apply texts_iff].
  { rewrite <- fsyms_length in Hk. destruct Hw as [(? & ? & _ & Hf & _)|(? & ? & _ & Hf & _)]; rewrite Hf, length_app in Hk; simpl in Hk; lia. }
  assert (Hcut : forall l, fsyms pre = st ++ (LB, false) :: l -> inv (cut_prefix (length st) pre n) /\ _ = _ /\ _ = _ /\ _ = _ /\ _ = _)
    by (intros l Hf; refine (cut_prefix_spec n pre st l Hi Hf _); apply texts_iff; split; [done|];
        rewrite Hf in Hcl; by apply Forall_app in Hcl as [? _]).
  destruct Hw as [(x & m' & Hx & Hf & Hr & ->)|(e & name & Hname & Hf & Hr)];
    destruct (Hcut _ Hf) as (Hn' & Ht' & Hw' & Hp' & Hr'); destruct Hi as (Hn & Ht & _);
    pose proof (cut_route_syms pre st _ Hf) as Hcr; pose proof (wildcard_byte pre st _ _ Hf) as Hx1;
    rewrite <- fsyms_length in Hk; pose proof Hk as Hk'; rewrite Hf, length_app in Hk'; simpl in Hk'.
  - rewrite Hf, wildcard_in_param by done. simpl in Hx1. rewrite Nat.add_0_l, Hx1, bool_decide_eq_false_2 by (intros [= ->]; lia).
    replace (length st + 3 - length st) with 3 by lia. fold (cut_prefix (length st) pre n) (cut_route (length st) pre).
    apply (adds_from _ n (cut_prefix (length st) pre n)); [by rewrite Hr'|rewrite Ht'; apply same_kind_refl|by apply (cut_kept Hf)|].
    rewrite app_assoc, <- Hp', <- Hcr. eapply (insert_param_adds k); try done; [| |by rewrite Ht'].
    + rewrite <- fsyms_length, Hcr. simpl. lia.
    + rewrite Hf in Hcl. apply Forall_app in Hcl as [_ Hcl]. by do 3 apply Forall_inv_tail in Hcl.
  - rewrite Hf, wildcard_in_found by done. rewrite Nat.add_0_l, Hx1, bool_decide_eq_true_2 by done.
    destruct (Nat.eqb_spec (length st + 2 + length name + 1) (f_len pre)) as [He|He]; cbn [negb].
    2:{ by apply adds_refused. }
    assert (rest = []) as ->.
    { rewrite <- fsyms_length, Hf, length_app in He. simpl in He. rewrite length_app in He. simpl in He. apply nil_length_inv. lia. }
    fold (cut_prefix (length st) pre n) (cut_route (length st) pre).
    apply (adds_from _ n (cut_prefix (length st) pre n)); [by rewrite Hr'|rewrite Ht'; apply same_kind_refl|by apply (cut_kept Hf)|].
    rewrite app_assoc, <- Hp', <- Hcr. eapply catch_all_adds; try done. by rewrite Ht'.
Qed.

Lemma insert_route_at_adds n pre m : insertable n pre -> normal (fsyms pre) m -> clean (fsyms pre) ->
  adds (route_base n pre ++ fsyms pre) n (insert_route_at set val n pre).
Proof. intros Hi Hm Hcl. by eapply (insert_route_adds (f_len pre)). Qed.
End Adds.

(** ** The common prefix *)

Lemma common_from_spec fuel i f p k : common_from fuel i f p = k ->
  i <= k <= i + fuel /\ (forall j, i <= j < k -> f_inner f !! j = inner p !! j /\ ref_is_escaped f j = route_is_escaped p j)
  /\ (k < i + fuel -> ~ (f_inner f !! k = inner p !! k /\ ref_is_escaped f k = route_is_escaped p k)).
Proof.
  revert i. induction fuel as [|fuel IH]; intros i; cbn [common_from]; [intros <-; split; [lia|]; split; intros; lia|].
  case_bool_decide as Hb; simpl; [|intros <-; split; [lia|]; split; [intros; lia|by intros _ [? _]]].
  destruct (eqb_spec (ref_is_escaped f i) (route_is_escaped p i)) as [He|He]; simpl.
  - intros (? & Hj & Hk)%IH. split; [lia|]. split; [|intros; apply Hk; lia]. intros j Hij. destruct (decide (i = j)) as [->|]; [done|apply Hj; lia].
  - intros <-. split; [lia|]. split; [intros; lia|by intros _ [_ ?]].
Qed.

(** It is the longest common prefix of the symbols. *)
Lemma common_prefix_spec f p : let k := common_prefix f p in
  k <= f_len f /\ k <= length (inner p) /\ take k (fsyms f) = take k (syms p)
  /\ (k < length (inner p) -> k < f_len f -> fsyms f !! k <> syms p !! k).
Proof.
  intros k. destruct (common_from_spec _ _ _ _ k eq_refl) as (Hk & Hj & Hn). split; [lia|]. split; [lia|]. split.
  - apply list_eq. intros j. destruct (decide (j < k)) as [Hjk|].
    + rewrite !lookup_take_lt, fsyms_lookup, syms_lookup by done. destruct (Hj j) as [-> ->]; [lia|done].
    + rewrite !lookup_take_ge by lia. done.
  - intros H1 H2 He. apply Hn; [lia|]. rewrite fsyms_lookup, syms_lookup in He.
    destruct (lookup_lt_is_Some_2 (inner p) k) as [x Hx]; [lia|]. destruct (lookup_lt_is_Some_2 (f_inner f) k) as [y Hy]; [done|].
    rewrite Hx, Hy in *. simpl in He. by simplify_eq.
Qed.

(** The common prefix is the whole of a prefix that the route starts with, and conversely. *)
Lemma common_prefix_all f p rest : fsyms f = syms p ++ rest -> common_prefix f p = length (inner p).
Proof.
  intros Hf. destruct (common_prefix_spec f p) as (H1 & H2 & _ & Hn). set (k := common_prefix f p) in *.
  destruct (decide (k = length (inner p))); [done|]. exfalso. assert (Hl : f_len f = length (inner p) + length rest).
  { by rewrite <- fsyms_length, Hf, length_app, syms_length. }
  apply Hn; [lia|lia|]. rewrite Hf, lookup_app_l; [done|rewrite syms_length; lia].
Qed.
Lemma common_prefix_inv f p : common_prefix f p = length (inner p) ->
  fsyms f = syms p ++ fsyms (slice_off f (common_prefix f p)).
Proof.
  intros Hk. destruct (common_prefix_spec f p) as (_ & _ & Ht & _). autorewrite with syms.
  rewrite <- (take_drop (common_prefix f p) (fsyms f)) at 1. rewrite Ht. f_equal. apply take_ge. rewrite syms_length. lia.
Qed.

Section Walk.
Context {T : Type} (route : UnescapedRoute) (names : ParamRemapping) (val : T).
Implicit Types (n c : Node T).

(** The report of a conflict panics; nothing else in the walk does. *)
Definition report_panics : Prop := exists pre c, conflict (T := T) route pre c = Panic.

Let adds := adds names val report_panics.
Ltac adds_case := match goal with |- adds _ _ (match ?x with _ => _ end) => destruct x end.

Lemma conflict_adds pat n pre c : inv n -> adds pat n (n, conflict route pre c).
Proof.
  intros Hi. split; [done|by apply kept_eq|apply same_kind_refl|]. simpl. destruct (conflict route pre c) as [[]|e|] eqn:E; simpl; [|done|].
  - exfalso. revert E. unfold conflict. repeat case_match; try done; intros E.
    all: repeat match type of E with context [mbind _ ?m] => destruct m; try done; cbn in E end.
  - split; [done|]. by exists pre, c.
Qed.

(** What the walk from a child promises. *)
Definition walks (walk : Node T -> UnescapedRef -> Op T) c : Prop :=
  forall f m, inv c -> node_type c <> CatchAll -> normal (fsyms f) m -> tidy (fsyms f) ->
    (wild_type (node_type c) = true -> exists rest, fsyms f = syms (prefix c) ++ rest) -> adds (fsyms f) c (walk c f).

Lemma suffix_scan_inl i extra suffix l j : suffix_scan i extra suffix l = inl j ->
  i <= j /\ exists c : Node T, l !! (j - i) = Some c /\ inner (prefix c) = suffix.
Proof.
  revert i extra. induction l as [|c l IH]; intros i extra; cbn [suffix_scan]; [done|]. case_bool_decide as Hb.
  - intros [= <-]. split; [done|]. exists c. by rewrite Nat.sub_diag.
  - intros (Hij & c' & Hc & Hp)%IH. split; [lia|]. exists c'. split; [|done]. by replace (j - i) with (S (j - S i)) by lia.
Qed.

(** The rest of the route after a new suffix node. *)
Lemma suffix_rest_adds n rest m : inv n -> fresh n -> wild_type (node_type n) = false -> f_len rest <> 0 ->
  normal (fsyms rest) m -> clean (fsyms rest) ->
  adds (syms (prefix n) ++ fsyms rest) n
    (if starts_static rest then
       let '(child, node) := add_child n (with_priority 1 node_default) in
       let node := with_indices (indices node ++ take 1 (f_inner rest)) node in
       on_child node child (fun c => insert_route_at (with_remapping names) val c rest)
     else insert_route_at (with_remapping names) val n rest).
Proof.
  intros Hn Hf Ht Hz Hm Hcl.
  pose proof (insert_tail_adds names val report_panics (f_len rest) (insert_route_at (with_remapping names) val) n rest m) as H.
  unfold insert_tail in H. rewrite (proj2 (Nat.eqb_neq _ _) Hz) in H.
  assert (Hrec : rec_adds names val report_panics (f_len rest) (insert_route_at (with_remapping names) val)).
  { intros n' pre m' _ Hi Hm' Hcl'. by eapply insert_route_at_adds. }
  specialize (H Hrec ltac:(lia) Hm Hcl Hn Hf). rewrite Ht in H. specialize (H ltac:(done)).
  destruct (starts_static rest); [|done]. unfold add_child in *. simpl in *. destruct (wild_child n && _); exact H.
Qed.

Lemma walk_param_adds descend parent n t common f m : inv n -> node_type n = Param t ->
  normal (fsyms f) m -> clean (fsyms f) -> f_len f <> 0 ->
  (forall i c, children n !! i = Some c -> inner (prefix c) = take (segment_end (f_inner f)) (f_inner f) ->
     adds (syms (prefix n) ++ fsyms f) n (descend i bump)) ->
  adds (syms (prefix n) ++ fsyms f) n (walk_param route names val descend parent n t common f).
Proof.
  intros Hn Ht Hm Hcl Hz Hd. unfold walk_param. set (te := segment_end (f_inner f)) in *.
  assert (Hte' : te = segment_end (fsyms f).*1) by by unfold te; rewrite fsyms_bytes. clearbody te.
  set (suffix := slice_until f te).
  assert (Hte : te <= f_len f) by (rewrite Hte', <- fsyms_length, <- (length_fmap fst); apply segment_end_le).
  assert (Htz : te <> 0).
  { rewrite <- fsyms_length in Hz. rewrite Hte'. destruct (fsyms f) as [|s l]; [done|]. cbn. rewrite segment_end_cons. by case_decide. }
  destruct (suffix_scan 0 false (f_inner suffix) (children n)) as [i|extra] eqn:Hs.
  { apply suffix_scan_inl in Hs as (_ & c & Hc & Hcp). rewrite Nat.sub_0_r in Hc. by eapply Hd. }
  adds_case; [by apply conflict_adds|].
  destruct (finds_wildcard suffix) eqn:Hfw; [by apply adds_refused|].
  destruct (normal_segment _ _ Hm) as (a & b & -> & Ha & Hb). rewrite <- Hte' in Ha, Hb.
  assert (Hsuf : fsyms suffix = take te (fsyms f)) by by unfold suffix; autorewrite with syms.
  rewrite <- Hsuf in Ha. assert (Hsl : texts (fsyms suffix)).
  { apply texts_iff. split; [by eapply finds_wildcard_literals|]. rewrite Hsuf. by apply Forall_take. }
  set (sn := mkNode (to_owned suffix) 1 false [] Static [] None [] : Node T).
  assert (Hsi : inv sn) by (apply inv_leaf; by autorewrite with syms).
  assert (Hne : syms (prefix sn) <> []).
  { simpl. rewrite syms_to_owned, Hsuf. intros Hnil. apply (f_equal length) in Hnil. rewrite length_take, fsyms_length in Hnil. simpl in Hnil. lia. }
  destruct (add_suffix_child_spec n sn Hn) as (i & n' & -> & Hn' & Hc & Hix & Ht' & Hp & Hr); [by rewrite Ht|done|done|done|].
  set (t' := t || negb (trivial_suffix (f_inner suffix))). rewrite Ht in Ht'.
  destruct (with_type_param n' t' Hn') as [Hn2 Hr2]; [by rewrite Ht'|]. rewrite (fresh_routes sn) in Hr by done.
  apply (adds_from _ _ _ _ n (with_type (Param t') n')); [by rewrite Hr2, Hr|by rewrite Ht|by apply kept_eq|].
  rewrite <- Hp. change (prefix n') with (prefix (with_type (Param t') n')).
  rewrite <- (take_drop te (fsyms f)), <- Hsuf, <- (syms_to_owned suffix). simpl in Hne.
  eapply adds_on_child; [done|done| |simpl; by rewrite Hix|intros _; simpl; by destruct (syms (to_owned suffix))].
  destruct (Nat.eqb_spec te (f_len f)) as [He|He].
  - rewrite (drop_ge (fsyms f)), app_nil_r by (rewrite fsyms_length; lia). by apply (adds_value names val report_panics sn).
  - rewrite <- fsyms_slice_off in Hb |- *. apply (suffix_rest_adds sn (slice_off f te) b); try done.
    + rewrite <- fsyms_length, fsyms_slice_off, length_drop, fsyms_length. lia.
    + autorewrite with syms. by apply Forall_drop.
Qed.

(** A new static child. *)
Lemma walk_static_adds n f m : inv n -> wild_type (node_type n) = false -> normal (fsyms f) m -> clean (fsyms f) -> f_len f <> 0 ->
  starts_static f = true -> default 0%Z (f_inner f !! 0) ∉ indices n ->
  adds (syms (prefix n) ++ fsyms f) n (walk_static route names val n f).
Proof.
  intros Hn Ht Hm Hcl Hz Hs Hix. unfold walk_static. adds_case; [by apply conflict_adds|].
  destruct (first_sym f Hs Hz m Hm Hcl) as (b & q & Hb & -> & Hsy). rewrite Hb in Hix. simpl in Hix.
  assert (Hdi : inv (node_default : Node T)) by (apply inv_leaf; constructor).
  destruct (add_static_child n b node_default Hn Ht Hix Hdi) as (n1 & -> & Hn1 & Hc1 & Ht1 & Hp1 & Hi1 & Hr1).
  { split; [done|]. rewrite fresh_routes by done. constructor. }
  destruct (update_child_priority_spec n1 (length (indices n)) node_default Hn1) as (u & n2 & -> & Hc2 & Hn2 & Ht2 & Hp2 & Hr2 & Hi2 & _);
    [by rewrite Ht1|done|rewrite Hi1, length_app; simpl; lia|].
  apply (adds_from _ _ _ _ n n2);
    [by rewrite Hr2, Hr1, (fresh_routes node_default)|rewrite Ht2, Ht1; apply same_kind_refl|apply kept_eq; congruence|].
  rewrite <- Hp1, <- Hp2. eapply adds_on_child; [done|done| | |rewrite Ht2, Ht1; by apply not_param].
  - assert (Hi : insertable (bump node_default : Node T) f).
    { split; [by apply bump_same|]. split; [done|]. by rewrite Hs. }
    pose proof (insert_route_at_adds names val report_panics _ _ _ Hi Hm Hcl) as H. unfold route_base in H. by rewrite Hs in H.
  - intros b'. rewrite Hi2, Hi1, list_lookup_middle by done. intros [= <-]. eauto.
Qed.

(** A new wildcard child. *)
Lemma walk_wildcard_adds n k common f m : inv n -> wild_type (node_type n) = false -> wild_child n = false ->
  normal (fsyms f) m -> clean (fsyms f) -> starts_static f = false ->
  adds (syms (prefix n) ++ fsyms f) n (walk_wildcard route names val n k common f).
Proof.
  intros Hn Ht Hw Hm Hcl Hs. unfold walk_wildcard. adds_case; [by apply conflict_adds|].
  assert (Hi : insertable n f) by (split; [done|]; split; [done|]; by rewrite Hs).
  pose proof (insert_route_at_adds names val report_panics _ _ _ Hi Hm Hcl) as H. unfold route_base in H. by rewrite Hs in H.
Qed.

Lemma position_Some b (l : bytes) i : position b l = Some i -> l !! i = Some b.
Proof.
  unfold position. destruct (list_find (b =.) l) as [[j x]|] eqn:E; [|done]. intros [= <-].
  by apply list_find_Some in E as (? & -> & _).
Qed.
Lemma position_None b (l : bytes) : position b l = None -> b ∉ l.
Proof.
  unfold position. destruct (list_find (b =.) l) eqn:E; [done|]. intros _ Hin. apply list_find_None in E.
  by apply (proj1 (Forall_forall _ _) E b).
Qed.

(** An unescaped brace at the start of a normalised route opens a wildcard. *)
Lemma normal_head f m : normal (fsyms f) m -> f_len f <> 0 ->
  is_brace (default 0%Z (f_inner f !! 0)) && negb (ref_is_escaped f 0) = negb (starts_static f).
Proof.
  intros Hm Hz. unfold starts_static. rewrite starts_static_syms. rewrite <- fsyms_length in Hz.
  pose proof (fsyms_lookup f 0) as H0. destruct (fsyms f) as [|[c e] l]; [done|]. cbn in H0.
  destruct (f_inner f !! 0) as [b|]; [|done]. cbn in H0. injection H0 as -> ->. cbn [default].
  inversion Hm as [|? ? ? Hl| |]; subst; [|done|done]. unfold literal in Hl. simpl in Hl. unfold is_brace in *. unfold id in *.
  destruct (b =? LB)%Z, (b =? RB)%Z, (ref_is_escaped f 0); done.
Qed.

(** The wildcard child that does not clash is the parameter at the start of the route. *)
Lemma wild_clash_None parent c f m : inv c -> wild_type (node_type c) = true -> normal (fsyms f) m ->
  starts_static f = false -> wild_clash parent c f = None ->
  node_type c <> CatchAll /\ exists rest, fsyms f = syms (prefix c) ++ rest.
Proof.
  intros Hc Ht Hm Hs Hw. unfold wild_clash in Hw. destruct (_ && _) eqn:Hb in Hw; [done|].
  case_bool_decide as Hca; [done|]. split; [done|]. clear Hw. apply inv_local in Hc. unfold local in Hc.
  destruct (node_type c); try done. destruct Hc as [(x & Hx & Hp) _].
  assert (Hpb : inner (prefix c) = [LB; x; RB]) by by rewrite <- syms_bytes, Hp.
  unfold starts_static in Hs. rewrite starts_static_syms in Hs. rewrite Hpb in Hb. rewrite <- fsyms_bytes, <- fsyms_length in Hb.
  inversion Hm as [Hf|[y e] l n Hy Hl Hf|y l n Hy Hl Hf|e name l n Hn Hl Hf]; rewrite <- Hf in Hs, Hb; [done| | |].
  - apply literal_cases in Hy as [_ Hy]. simpl in Hs. by rewrite Hy in Hs.
  - exists l. rewrite Hp. simpl in *. case_bool_decide as Hbd; [|done]. by simplify_eq.
  - apply andb_false_iff in Hb as [Hb|Hb]; [apply Nat.leb_gt in Hb; simpl in Hb; rewrite length_app in Hb; simpl in Hb; lia|].
    case_bool_decide as Hbd; [|done]. simplify_eq/=. lia.
Qed.

Lemma rest_normal n f g m : inv n -> node_type n <> CatchAll -> normal (fsyms f) m ->
  fsyms f = syms (prefix n) ++ fsyms g -> exists k, normal (fsyms g) k.
Proof.
  intros Hn Ht Hm Hf. apply inv_local in Hn. unfold local in Hn. rewrite Hf in Hm.
  destruct (node_type n); [|destruct Hn as [(x & Hx & Hp) _]; rewrite Hp in Hm|done|];
    try (destruct Hn as [Hl _]; exists m; eapply normal_drop_literals; [by apply texts_literals|done]).
  inversion Hm; simplify_eq/=; [eauto|lia].
Qed.

(** The static child for a byte, and the wildcard child, of an aligned node. *)
Lemma aligned_static n i b : aligned n -> indices n !! i = Some b ->
  exists c, children n !! i = Some c /\ node_type c = Static /\ starts b (routes c).
Proof.
  intros (_ & ss & w & Hc & Hf & _) Hi. destruct (Forall2_lookup_l _ _ _ _ _ Hf Hi) as (c & Hs & Ht & Hst).
  exists c. split; [|done]. rewrite Hc. by apply lookup_app_l_Some.
Qed.
Lemma aligned_wild n : aligned n -> wild_child n = true ->
  exists c, children n !! (length (children n) - 1) = Some c /\ last (children n) = Some c
    /\ wild_type (node_type c) = true /\ indices n !! (length (children n) - 1) = None.
Proof.
  intros (_ & ss & w & Hc & Hf & Hw) Hwc. rewrite Hwc in Hw. destruct Hw as (c & -> & Ht). exists c.
  rewrite Hc, length_app, Nat.add_sub, last_snoc. split; [by rewrite list_lookup_middle|]. split; [done|]. split; [done|].
  apply lookup_ge_None_2. by rewrite (Forall2_length _ _ _ Hf).
Qed.

(** What the walk promises for the children it may go to. *)
Definition kids_walk fuel n : Prop :=
  Forall (fun c => forall c' p, height c' = height c -> walks (walk route names val fuel p) c') (children n).

Lemma height_bump c : height (bump c) = height c.
Proof. by destruct c. Qed.

Lemma kid_adds fuel n i c c' p f m : kids_walk fuel n -> children n !! i = Some c -> height c' = height c ->
  node_type c' = Static -> inv c' -> normal (fsyms f) m -> tidy (fsyms f) ->
  adds (fsyms f) c' (walk route names val fuel p c' f).
Proof.
  intros Hk Hi Hh Ht Hc Hm Hcl. pose proof (Forall_lookup_1 _ _ _ _ Hk Hi) as Hw.
  apply (Hw c' p Hh f m); [done|by rewrite Ht|done|done|by rewrite Ht].
Qed.

Lemma walk_at_param fuel parent n t common g m : kids_walk fuel n -> inv n -> node_type n = Param t ->
  normal (fsyms g) m -> tidy (fsyms g) -> f_len g <> 0 -> starts_static g = true ->
  adds (syms (prefix n) ++ fsyms g) n
    (walk_param route names val (fun i touch => on_child n i (fun c => walk route names val fuel (Some (plug n i)) (touch c) g))
       parent n t common g).
Proof.
  intros Hk Hn Ht Hm Hcl Hz Hs. pose proof (tidy_clean _ Hcl) as Hcl'. eapply walk_param_adds; try done. intros i c Hc Hcp.
  pose proof (inv_local n Hn) as Hl. unfold local in Hl. rewrite Ht in Hl. destruct Hl as (_ & Hix & _ & Hst).
  assert (Hci : inv c) by by eapply Forall_lookup_1; [apply inv_children|].
  pose proof (Forall_lookup_1 _ _ _ _ Hst Hc) as [Hct Hne].
  destruct (bump_same c) as (Hr & Htb & Hib). eapply adds_on_child; [done|done| |by rewrite Hix|intros _].
  2:{ destruct (inv_aligned c Hci) as [Htx _]; [by rewrite Hct|]. destruct (first_sym g Hs Hz m Hm Hcl') as (b & q & Hb & _ & Hsy).
      rewrite Hsy. pose proof (syms_bytes (prefix c)) as Hcb. destruct (syms (prefix c)) as [|s l]; [done|].
      apply Forall_cons in Htx as [Htx _]. rewrite Hcp in Hcb. destruct (f_inner g) as [|b' l']; [done|]. simpl in Hb. injection Hb as ->.
      simpl in Hcb. destruct (segment_end (b :: l')); [done|]. simpl in Hcb. injection Hcb as Hs1 _. simpl. by rewrite Htx, Hs1. }
  apply (adds_from _ _ _ _ c (bump c)); [by rewrite Hr|rewrite Htb; apply same_kind_refl|by apply kept_eq|].
  eapply kid_adds; try done; [apply height_bump|by apply Hib].
Qed.

Lemma walk_at_child fuel n i g m : kids_walk fuel n -> inv n -> wild_type (node_type n) = false ->
  find_child n g = Some i -> normal (fsyms g) m -> tidy (fsyms g) -> f_len g <> 0 ->
  adds (syms (prefix n) ++ fsyms g) n
    (match update_child_priority n i with
     | Ok (i, n) => on_child n i (fun c => walk route names val fuel (Some (plug n i)) (id c) g)
     | Err e => (n, Err e)
     | Panic => (n, Panic)
     end).
Proof.
  intros Hk Hn Ht Hfc Hm Hcl Hz. unfold find_child in Hfc. rewrite (normal_head g m Hm Hz) in Hfc.
  destruct (starts_static g) eqn:Hs; [|done]. simpl in Hfc. apply position_Some in Hfc.
  destruct (first_sym g Hs Hz m Hm (tidy_clean _ Hcl)) as (b & q & Hb & _ & Hsy). rewrite Hb in Hfc. simpl in Hfc.
  destruct (inv_aligned n Hn Ht) as [_ Hal]. destruct (aligned_static n i b Hal Hfc) as (c & Hc & Hct & _).
  destruct (update_child_priority_spec n i c Hn Ht Hc) as (u & n2 & -> & Hc2 & Hn2 & Ht2 & Hp2 & Hr2 & Hi2 & _);
    [by eapply lookup_lt_Some|].
  apply (adds_from _ _ _ _ n n2); [done|rewrite Ht2; apply same_kind_refl|by apply kept_eq|]. rewrite <- Hp2.
  eapply adds_on_child; [done|done| |rewrite Hi2, Hfc; intros ? [= <-]; eauto|rewrite Ht2; by apply not_param].
  eapply kid_adds; [done|exact Hc|apply height_bump|done|by eapply Forall_lookup_1; [apply inv_children|]|done|done].
Qed.

Lemma walk_at_wild fuel n g m : kids_walk fuel n -> inv n -> wild_type (node_type n) = false -> wild_child n = true ->
  starts_static g = false -> normal (fsyms g) m -> tidy (fsyms g) ->
  adds (syms (prefix n) ++ fsyms g) n
    (on_child n (length (children n) - 1) (fun c =>
       let c := bump c in
       match wild_clash (plug n (length (children n) - 1) c) c g with
       | Some at_ => (c, conflict route g at_)
       | None => walk route names val fuel (Some (plug n (length (children n) - 1))) c g
       end)).
Proof.
  intros Hk Hn Ht Hw Hs Hm Hcl. destruct (inv_aligned n Hn Ht) as [_ Hal].
  destruct (aligned_wild n Hal Hw) as (c & Hc & _ & Hct & Hix).
  assert (Hci : inv c) by by eapply Forall_lookup_1; [apply inv_children|].
  destruct (bump_same c) as (Hr & Htb & Hib). eapply adds_on_child; [done|done| |by rewrite Hix|by apply not_param]. cbv zeta.
  apply (adds_from _ _ _ _ c (bump c)); [by rewrite Hr|rewrite Htb; apply same_kind_refl|by apply kept_eq|].
  destruct (wild_clash _ (bump c) g) eqn:Hwc; [by apply conflict_adds, Hib|].
  apply wild_clash_None with (m := m) in Hwc as [Hca Hrest]; [|by apply Hib|by rewrite Htb|done|done].
  apply (Forall_lookup_1 _ _ _ _ Hk Hc (bump c) _ (height_bump c) g m); try done. by apply Hib.
Qed.

(** After a parameter the route goes on with text. *)
Lemma param_spaced n f g ty : inv n -> node_type n = Param ty -> tidy (fsyms f) -> fsyms f = syms (prefix n) ++ fsyms g ->
  starts_static g = true.
Proof.
  intros Hn Ht [_ Hsp] Hf. apply inv_local in Hn. unfold local in Hn. rewrite Ht in Hn. destruct Hn as [(x & _ & Hp) _].
  rewrite Hp in Hf. specialize (Hsp 2). rewrite Hf in Hsp. unfold starts_static. rewrite starts_static_syms.
  destruct (fsyms g) as [|[c e] l]; [done|]. simpl in Hsp. specialize (Hsp eq_refl). destruct (Z.eqb_spec c LB) as [->|]; [|done].
  destruct e; [done|]. by destruct Hsp.
Qed.

(** A turn of the walk at a node whose prefix the route starts with.  After a fork the walk does
    not go to the child. *)
Lemma walk_body_adds fuel parent n f m : inv n -> node_type n <> CatchAll -> normal (fsyms f) m -> tidy (fsyms f) ->
  common_prefix f (prefix n) = length (inner (prefix n)) ->
  (kids_walk fuel n \/ (is_param (node_type n) = false /\ wild_child n = false
     /\ (f_len f <> length (inner (prefix n)) -> find_child n (slice_off f (length (inner (prefix n)))) = None))) ->
  adds (fsyms f) n (walk route names val (S fuel) parent n f).
Proof.
  intros Hn Hct Hm Hcl Hk Hrec. cbn [walk]. pose proof (common_prefix_inv f (prefix n) Hk) as Hf. rewrite Hk in Hf |- *.
  rewrite Nat.ltb_irrefl. set (g := slice_off f (length (inner (prefix n)))) in *.
  pose proof (f_equal length Hf) as Hlen. rewrite length_app, syms_length, !fsyms_length in Hlen.
  destruct (Nat.eqb_spec (f_len f) (length (inner (prefix n)))) as [He|He].
  { assert (Hg : fsyms g = []) by (apply nil_length_inv; rewrite fsyms_length; lia). rewrite Hf, Hg, app_nil_r.
    destruct (value n) eqn:Hv; [by apply conflict_adds|by apply (adds_value names val report_panics)]. }
  assert (Hz : f_len g <> 0) by lia. destruct (rest_normal n f g m Hn Hct Hm Hf) as [k Hg].
  assert (Hcg : tidy (fsyms g)) by (unfold g; rewrite fsyms_slice_off; by apply tidy_drop).
  destruct (wild_type (node_type n)) eqn:Ht.
  { destruct (node_type n) as [|t| |] eqn:Hnt; try done. destruct Hrec as [Hrec|[? _]]; [|done].
    pose proof (param_spaced n f g t Hn Hnt Hcl Hf). rewrite Hf. by eapply walk_at_param. }
  rewrite Hf. clear Hcl. rename Hcg into Hcl. pose proof (tidy_clean _ Hcl) as Hcl'.
  assert (Hbody : adds (syms (prefix n) ++ fsyms g) n
    (match find_child n g with
     | Some i => match update_child_priority n i with
                 | Ok (i, n) => on_child n i (fun c => walk route names val fuel (Some (plug n i)) (id c) g)
                 | Err e => (n, Err e)
                 | Panic => (n, Panic)
                 end
     | None => if starts_static g && negb (bool_decide (node_type n = CatchAll)) then walk_static route names val n g
               else if wild_child n then
                 on_child n (length (children n) - 1) (fun c =>
                   let c := bump c in
                   match wild_clash (plug n (length (children n) - 1) c) c g with
                   | Some at_ => (c, conflict route g at_)
                   | None => walk route names val fuel (Some (plug n (length (children n) - 1))) c g
                   end)
               else walk_wildcard route names val n (length (inner (prefix n))) f g
     end)).
  2:{ by destruct (node_type n). }
  destruct (find_child n g) as [i|] eqn:Hfc.
  { destruct Hrec as [Hrec|(_ & _ & Hrec)]; [|by specialize (Hrec He)]. by eapply walk_at_child. }
  rewrite bool_decide_eq_false_2, andb_true_r by done. destruct (starts_static g) eqn:Hs.
  - eapply walk_static_adds; try done. unfold find_child in Hfc. rewrite (normal_head g k Hg Hz), Hs in Hfc. by apply position_None in Hfc.
  - destruct (wild_child n) eqn:Hw; [|by eapply walk_wildcard_adds].
    destruct Hrec as [Hrec|(_ & ? & _)]; [|done]. by eapply walk_at_wild.
Qed.

Lemma height_child n c : c ∈ children n -> height c < height n.
Proof.
  intros Hc. assert (Hn : height n = S (list_max (height <$> children n))) by by destruct n. rewrite Hn.
  apply Nat.lt_succ_r. assert (H : Forall (fun k => k <= list_max (height <$> children n)) (height <$> children n)) by by apply list_max_le.
  apply (proj1 (Forall_forall _ _) H). by apply list_elem_of_fmap_2.
Qed.
Lemma height_pos n : 0 < height n.
Proof. destruct n. simpl. lia. Qed.

(** After a fork no child continues the route. *)
Lemma fork_stuck n f m : inv n -> wild_type (node_type n) = false -> normal (fsyms f) m -> clean (fsyms f) ->
  let k := common_prefix f (prefix n) in k < length (inner (prefix n)) -> f_len f <> k ->
  find_child (fork n k) (slice_off f k) = None.
Proof.
  intros Hn Ht Hm Hcl k Hk Hfk. destruct (common_prefix_spec f (prefix n)) as (Hle & _ & Htake & Hne). fold k in Hle, Htake, Hne.
  destruct (inv_aligned n Hn Ht) as [Htx _]. set (g := slice_off f k).
  assert (Hz : f_len g <> 0) by (unfold g, f_len, slice_off in *; simpl; rewrite length_drop; lia).
  assert (Hf : fsyms f = take k (syms (prefix n)) ++ fsyms g).
  { unfold g. rewrite fsyms_slice_off, <- Htake. by rewrite take_drop. }
  assert (Hg : normal (fsyms g) m).
  { rewrite Hf in Hm. eapply normal_drop_literals; [|done]. by apply texts_literals, Forall_take. }
  assert (Hcg : clean (fsyms g)) by (unfold g; autorewrite with syms; by apply Forall_drop).
  unfold find_child. rewrite (normal_head g m Hg Hz). destruct (starts_static g) eqn:Hs; [|done].
  destruct (first_sym g Hs Hz m Hg Hcg) as (b & q & Hb & _ & Hsy). rewrite Hb. cbn [negb default].
  change (indices (fork n k)) with (take 1 (drop k (inner (prefix n)))).
  destruct (lookup_lt_is_Some_2 (inner (prefix n)) k Hk) as [c Hc]. rewrite (drop_S _ _ _ Hc). simpl. rewrite take_0, position_cons.
  destruct (decide (b = c)) as [->|]; [|done]. exfalso. apply Hne; [done|lia|].
  assert (Hck : syms (prefix n) !! k = Some (text_sym c)).
  { pose proof (syms_lookup (prefix n) k) as Hl. rewrite Hc in Hl. simpl in Hl. pose proof (Forall_lookup_1 _ _ _ _ Htx Hl) as Htc.
    simpl in Htc. by rewrite Hl, Htc. }
  rewrite Hck, Hf, lookup_app_r, length_take, syms_length, Nat.min_l, Nat.sub_diag, Hsy by (rewrite ?length_take, ?syms_length; lia). done.
Qed.

Lemma fork_kept n f : let k := common_prefix f (prefix n) in k < length (inner (prefix n)) -> kept (fsyms f) n (fork n k).
Proof.
  intros k Hk s Hs Hh. destruct (common_prefix_spec f (prefix n)) as (_ & _ & _ & Hne). fold k in Hne. simpl. autorewrite with syms.
  destruct (syms (prefix n)) as [|s' l]; [done|]. destruct k; [|done]. exfalso. destruct (fsyms f) eqn:Hf; [done|].
  apply Hne; [lia|by rewrite <- fsyms_length, Hf; simpl; lia|]. simpl in *. congruence.
Qed.

(** The walk adds the route, in fewer turns than its fuel. *)
Lemma walk_adds fuel parent n : height n < fuel -> walks (walk route names val fuel parent) n.
Proof.
  revert parent n. induction fuel as [|fuel IH]; intros parent n Hh; [lia|]. intros f m Hn Hct Hm Hcl Hw.
  destruct (common_prefix_spec f (prefix n)) as (Hle & Hle2 & Htake & _).
  destruct (decide (common_prefix f (prefix n) < length (inner (prefix n)))) as [Hk|Hk].
  - assert (Ht : wild_type (node_type n) = false).
    { destruct (wild_type (node_type n)); [|done]. destruct Hw as [rest Hf]; [done|]. apply common_prefix_all in Hf. lia. }
    cbn [walk]. rewrite (proj2 (Nat.ltb_lt _ _) Hk). set (k := common_prefix f (prefix n)) in *.
    destruct (fork_same n k Hn Ht Hk) as (Hfi & Hft & Hfr). pose proof (height_pos n). destruct fuel as [|fuel]; [lia|].
    apply (adds_from _ _ _ _ n (fork n k)); [by rewrite Hfr|rewrite Hft; apply same_kind_refl|by apply fork_kept|].
    assert (Hlen : length (inner (prefix (fork n k))) = k) by (simpl; rewrite length_take; lia).
    eapply walk_body_adds; [done|by rewrite Hft|done|done| |right].
    + rewrite Hlen. apply (eq_trans (y := length (inner (prefix (fork n k))))); [|done]. apply common_prefix_all with (rest := drop k (fsyms f)).
      simpl. rewrite syms_to_owned, fsyms_slice_until, fsyms_as_ref, <- Htake. by rewrite take_drop.
    + rewrite Hft, Hlen. split; [by destruct (node_type n)|]. split; [done|]. intros Hne. eapply fork_stuck; try done. by apply tidy_clean.
  - eapply walk_body_adds; [done|done|done|done|lia|left]. apply Forall_forall. intros c Hc c' p Hc'. apply IH.
    rewrite Hc'. pose proof (height_child n c Hc). lia.
Qed.
End Walk.

(** ** Insertion *)

Section Insert.
Context {T : Type}.
Implicit Types (t : Node T).

(** A router: a well-shaped tree whose root is not a wildcard. *)
Definition router_ok t : Prop := inv t /\ wild_type (node_type t) = false.

(** The escapes of the normalised route mark braces, and its wildcards are apart. *)
Definition tidy_route (raw : bytes) : Prop :=
  match normalize_params (route_new raw) with Ok (r, _) => tidy (syms r) | _ => True end.
(** A root without routes that kept a prefix is given routes that replace it. *)
Definition rooted t (raw : bytes) : Prop :=
  value t = None -> children t = [] -> inner (prefix t) = [] \/
  match normalize_params (route_new raw) with Ok (r, _) => starts_static (as_ref r) = true | _ => True end.

Lemma router_new_ok : router_ok (node_default : Node T).
Proof. split; [apply (inv_default 0)|done]. Qed.

Lemma insert_adds t raw v r names : router_ok t -> tidy_route raw -> rooted t raw ->
  normalize_params (route_new raw) = Ok (r, names) ->
  router_ok (insert t raw v).1 /\ routes_after names v (report_panics (T := T) r) (syms r) (routes t) (routes (insert t raw v).1) (insert t raw v).2.
Proof.
  unfold tidy_route, rooted. intros [Ht Hwt] Hcl Hro Hnp. unfold insert. rewrite Hnp in *. pose proof (normalize_normal _ _ _ Hnp) as Hm.
  destruct (bump_same t) as (Hr & Htb & Hib). specialize (Hib Ht). rewrite <- Hr. rewrite <- fsyms_as_ref in Hm, Hcl |- *.
  assert (Hwalk : router_ok (walk r names v (2 * height (bump t) + 2) None (bump t) (as_ref r)).1 /\
    routes_after names v (report_panics (T := T) r) (fsyms (as_ref r)) (routes (bump t))
      (routes (walk r names v (2 * height (bump t) + 2) None (bump t) (as_ref r)).1) (walk r names v (2 * height (bump t) + 2) None (bump t) (as_ref r)).2).
  { destruct (walk_adds r names v (2 * height (bump t) + 2) None (bump t) ltac:(lia) (as_ref r) (length names) Hib) as [Hi _ Hk Ho];
      [rewrite Htb; by destruct (node_type t)|done|done|by rewrite Htb, Hwt|].
    split; [|done]. split; [done|]. by rewrite <- (same_kind_wild _ _ Hk), Htb. }
  change (value (bump t)) with (value t). change (children (bump t)) with (children t).
  destruct (value t) eqn:Hv; [exact Hwalk|]. destruct (children t) eqn:Hc; [|exact Hwalk]. clear Hwalk.
  assert (Hal : wild_child (bump t) = false).
  { destruct (inv_aligned t Ht Hwt) as [_ Ha]. by destruct (aligned_fresh t Ha Hc). }
  assert (Hi : insertable (bump t) (as_ref r)).
  { split; [done|]. split; [done|]. destruct (starts_static _); [by split|done]. }
  destruct (insert_route_at_adds names v (report_panics (T := T) r) _ _ _ Hi Hm (tidy_clean _ Hcl)) as [Hii _ Hik Hio].
  destruct (insert_route_at (with_remapping names) v (bump t) (as_ref r)) as [t' res]. simpl in Hii, Hik, Hio.
  assert (Hb : route_base (bump t) (as_ref r) = []).
  { unfold route_base. destruct (starts_static (as_ref r)); [done|]. destruct Hro as [Hp|?]; [done|done| |done].
    simpl. unfold syms. by rewrite Hp. }
  rewrite Hb in Hio. simpl in Hio. assert (Hwt' : wild_type (node_type t') = false) by by rewrite <- (same_kind_wild _ _ Hik).
  destruct res as [[]|e|]; simpl in *; [|split; [by split|done]|split; [by split|done]].
  destruct (inv_aligned t' Hii Hwt') as [Htx Ha]. split; [split; [|done]|by rewrite routes_eq in Hio |- *].
  constructor; [by split|by apply (inv_children t')].
Qed.
End Insert.
