(* ===== verification/RouterMatch.v ===== *)
(** * What a lookup finds

    The meaning of a route pattern ([fits_pattern], [routed]) is independent of the tree: text
    stands for itself, a parameter for a non-empty string without a slash, a catch-all for a
    non-empty rest.  The lookup with its explicit stack of skipped nodes returns only values of
    routes that fit the path ([at_sound]) and never panics on ASCII paths and routes. *)

From S2P Require Import Prelude Utf8 RouterRoute RouterTree RouterInsert.

Local Open Scope nat_scope.

(** ** Patterns *)

Inductive fits_pattern : list sym -> bytes -> list bytes -> Prop :=
| fits_nil : fits_pattern [] [] []
| fits_text b p l vs : fits_pattern p l vs -> fits_pattern (text_sym b :: p) (b :: l) vs
| fits_param x v p l vs : (97 <= x <= 122)%Z -> v <> [] -> SLASH ∉ v -> fits_pattern p l vs ->
    fits_pattern ((LB, false) :: (x, false) :: (RB, false) :: p) (v ++ l) (v :: vs).

Lemma fits_app p q a b vs ws : fits_pattern p a vs -> fits_pattern q b ws -> fits_pattern (p ++ q) (a ++ b) (vs ++ ws).
Proof.
  intros Hp Hq. induction Hp as [|c p l vs Hp IH|x v p l vs Hx Hv Hs Hp IH]; simpl; [done|by apply fits_text|].
  rewrite <- app_assoc. by apply fits_param.
Qed.
Lemma fits_texts p : texts p -> fits_pattern p p.*1 [].
Proof. induction 1 as [|s p Hs Hp IH]; [constructor|]. rewrite Hs. simpl. by apply fits_text. Qed.
Lemma fits_normal p l vs : fits_pattern p l vs -> normal p (length vs).
Proof.
  induction 1; simpl; [constructor| |by constructor]. apply normal_literal; [|done].
  unfold literal, text_sym. simpl. by destruct (is_brace b).
Qed.

Section Match.
Context {T : Type}.
Implicit Types (t n c : Node T) (e : Entry T).

(** A route, the path that leads to it and the parameters of the match. *)
Inductive routed e (path : bytes) : Params -> Prop :=
| routed_plain vs : fits_pattern e.1.1 path vs -> length vs = length e.1.2 ->
    routed e path (zip e.1.2 vs)
| routed_catch_all p a b vs esc name : e.1.1 = p ++ (LB, false) :: (STAR, esc) :: name ++ [(RB, false)] ->
    path = a ++ b -> fits_pattern p a vs -> b <> [] -> length vs = length e.1.2 ->
    routed e path (zip e.1.2 vs ++ [(name.*1, b)]).

(** ** Where a lookup stands *)

(** [n] is a node of the tree below the prefixes [p]. *)
Inductive located t : Node T -> list sym -> Prop :=
| located_root : located t t []
| located_child n p c : located t n p -> c ∈ children n -> located t c (p ++ syms (prefix n)).

Lemma located_inv t n p : inv t -> located t n p -> inv n.
Proof. intros Ht. induction 1 as [|n p c Hn IH Hc]; [done|]. by apply (proj1 (Forall_forall _ _) (inv_children _ IH)). Qed.

Lemma located_routes t n p e : located t n p -> e ∈ routes n -> (p ++ e.1.1, e.1.2, e.2) ∈ routes t.
Proof.
  intros Hl. revert e. induction Hl as [|n p c Hn IH Hc]; intros e He; [by destruct e as [[? ?] ?]|].
  specialize (IH (syms (prefix n) ++ e.1.1, e.1.2, e.2)). simpl in IH. rewrite app_assoc in IH. apply IH.
  rewrite routes_eq. unfold under. apply list_elem_of_fmap. exists e. split; [done|]. apply elem_of_app. right.
  apply list_elem_of_In, in_flat_map. exists c. by rewrite <- !list_elem_of_In.
Qed.

Lemma located_value t n p v : located t n p -> value n = Some v -> (p ++ syms (prefix n), remapping n, v) ∈ routes t.
Proof.
  intros Hl Hv. apply (located_routes t n p (syms (prefix n), remapping n, v) Hl). rewrite routes_eq. unfold own. rewrite Hv.
  unfold under. simpl. rewrite app_nil_r. by left.
Qed.

Context (t : Node T) (full : bytes).

(** At node [n] with [path] left, the consumed part fits the prefixes above [n]. *)
Definition point n (path : bytes) (vs : list bytes) : Prop :=
  wild_type (node_type n) = false /\ exists p a, located t n p /\ fits_pattern p a vs /\ full = a ++ path.

(** The skipped nodes, each with a prefix of the parameters and an extension of the path. *)
Inductive stack_ok : Params -> bytes -> list (@Skipped T) -> Prop :=
| stack_nil ps path : stack_ok ps path []
| stack_cons k sk ps path : sk_params k <= length ps -> (exists x, sk_path k = x ++ path) ->
    point (sk_node k) (sk_path k) (take (sk_params k) ps).*2 ->
    stack_ok (take (sk_params k) ps) (sk_path k) sk -> stack_ok ps path (k :: sk).

Lemma stack_weaken ps qs path x sk : stack_ok ps (x ++ path) sk -> stack_ok (ps ++ qs) path sk.
Proof.
  inversion 1 as [|k sk' ? ? Hk [y Hy] Hp Hs]; subst; constructor.
  - rewrite length_app. lia.
  - exists (y ++ x). by rewrite Hy, app_assoc.
  - by rewrite take_app_le.
  - by rewrite take_app_le.
Qed.

Definition search_ok (s : @Search T) : Prop :=
  point (s_node s) (s_path s) (s_params s).*2 /\ stack_ok (s_params s) (s_path s) (s_skipped s).

(** What a turn may return. *)
Definition sound (r : @Found T) : Prop :=
  match r with
  | Ok (v, ps) => exists e, e ∈ routes t /\ e.2 = v /\ routed e full ps
  | _ => True
  end.

Lemma remap_zip {E} names (ps r : Params) : remap (E := E) names ps = Ok r -> r = zip names ps.*2.
Proof. unfold remap. case_match; [|done]. intros [= <-]. by rewrite zip_with_fmap_r. Qed.

(** Every route has as many names as parameters. *)
Definition named : Prop := Forall (fun e => normal e.1.1 (length e.1.2)) (routes t).
Context (Ht : inv t) (Hnamed : named).

(** A value found where the path ends. *)
Lemma found_sound n p vs v ps : located t n p -> value n = Some v -> fits_pattern (p ++ syms (prefix n)) full vs -> ps.*2 = vs ->
  sound (found v n ps).
Proof.
  intros Hl Hv Hf Hps. unfold found. destruct (remap (remapping n) ps) as [r| |] eqn:Hr; [|done|done]. simpl.
  apply remap_zip in Hr as ->. pose proof (located_value t n p v Hl Hv) as Hin.
  exists (p ++ syms (prefix n), remapping n, v). split; [done|]. split; [done|]. rewrite Hps. apply (routed_plain (_, _, _)); [done|].
  pose proof (proj1 (Forall_forall _ _) Hnamed _ Hin) as Hn. exact (normal_fun _ _ _ (fits_normal _ _ _ Hf) Hn).
Qed.

(** What a turn of the loop preserves. *)
Definition turn_ok (tn : @Turn T) : Prop :=
  match tn with
  | Return r => sound r
  | Go s => search_ok s
  | Break s => stack_ok (s_params s) (s_path s) (s_skipped s) /\ exists p, located t (s_node s) p
  end.

Lemma position_before b (l : bytes) i : position b l = Some i -> i < length l /\ b ∉ take i l.
Proof.
  unfold position. destruct (list_find (b =.) l) as [[j x]|] eqn:E; [|done]. intros [= <-].
  apply list_find_Some in E as (Hj & <- & Hlt). simpl. split; [by eapply lookup_lt_Some|].
  intros (k & Hk)%list_elem_of_lookup. apply lookup_take_Some in Hk as [Hk Hkj]. by eapply Hlt.
Qed.

Lemma str_split_Some l i a b : str_split_at l i = Some (a, b) -> a = take i l /\ b = drop i l.
Proof. unfold str_split_at. case_match; [|done]. by intros [= <- <-]. Qed.

Lemma param_child n p c : located t n p -> is_param (node_type n) = true -> c ∈ children n -> wild_type (node_type c) = false.
Proof.
  intros Hl Hty Hc. pose proof (inv_local n (located_inv t n p Ht Hl)) as Hn. unfold local in Hn. destruct (node_type n); try done.
  destruct Hn as (_ & _ & _ & Hk). by destruct (proj1 (Forall_forall _ _) Hk c Hc) as [-> _].
Qed.
Lemma not_elem_of_take (b : Z) k l : b ∉ l -> b ∉ take k l.
Proof. intros Hb Hin. apply Hb. rewrite <- (take_drop k l). by apply elem_of_app; left. Qed.

(** The value of a parameter. *)
Lemma param_point n p a vs x (param rest : bytes) ps child : located t n p -> fits_pattern p a vs -> (97 <= x <= 122)%Z ->
  syms (prefix n) = [(LB, false); (x, false); (RB, false)] -> param <> [] -> SLASH ∉ param -> full = a ++ param ++ rest ->
  ps.*2 = vs -> child ∈ children n -> is_param (node_type n) = true -> point child rest (push_val ps param).*2.
Proof.
  intros Hl Hf Hx Hp Hne Hsl Hfull Hps Hc Hty. split; [by eapply param_child|]. exists (p ++ syms (prefix n)), (a ++ param). split; [by eapply located_child|].
  split; [|by rewrite <- app_assoc]. unfold push_val. rewrite fmap_app, Hps, Hp. simpl.
  apply fits_app; [done|]. pose proof (fits_param x param [] [] [] Hx Hne Hsl fits_nil) as H. by rewrite app_nil_r in H.
Qed.

Lemma try_suffixes_ok n p a vs x path te ps sk l : located t n p -> fits_pattern p a vs -> (97 <= x <= 122)%Z ->
  syms (prefix n) = [(LB, false); (x, false); (RB, false)] -> full = a ++ path -> ps.*2 = vs ->
  te <= length path -> SLASH ∉ take (te - 1) path -> is_param (node_type n) = true ->
  l ⊆ children n -> Forall (fun c => inner (prefix c) <> []) l -> stack_ok ps path sk ->
  match try_suffixes path te ps sk l with Some tn => turn_ok tn | None => True end.
Proof.
  intros Hl Hf Hx Hp Hfull Hps Hte Hsl Hty Hsub Hne Hsk. induction Hne as [|c l Hc Hne IH]; cbn [try_suffixes]; [done|].
  assert (IH' := IH ltac:(set_solver)). destruct (Nat.leb_spec te (length (inner (prefix c)))) as [Hle|Hgt]; [done|].
  destruct (str_split_at _ _) as [[param suffix]|] eqn:Hsp; [|done]. apply str_split_Some in Hsp as [Hpa Hsu].
  case_bool_decide as Heq; [|done]. set (start := te - length (inner (prefix c))) in *.
  assert (Hcl : 0 < length (inner (prefix c))) by (destruct (inner (prefix c)); simpl; [done|lia]).
  assert (Hpa' : param = take start path) by (rewrite Hpa, take_take; f_equal; unfold start; lia).
  simpl. split; simpl.
  - rewrite Hpa'. eapply (param_point n p a vs x); try done; [| | |set_solver].
    + intros Hn. apply (f_equal length) in Hn. rewrite length_take in Hn. simpl in Hn. unfold start in Hn. lia.
    + intros Hin. apply Hsl. rewrite <- (take_drop start (take (te - 1) path)), take_take, Nat.min_l by (unfold start; lia).
      by apply elem_of_app; left.
    + by rewrite take_drop.
  - eapply (stack_weaken _ _ _ (take start path)). by rewrite take_drop.
Qed.

Lemma param_shape n ty : inv n -> node_type n = Param ty ->
  exists x, (97 <= x <= 122)%Z /\ syms (prefix n) = [(LB, false); (x, false); (RB, false)]
    /\ Forall (fun c => inner (prefix c) <> []) (children n).
Proof.
  intros Hn%inv_local Hty. unfold local in Hn. rewrite Hty in Hn. destruct Hn as ((x & Hx & Hp) & _ & _ & Hc).
  exists x. split; [done|]. split; [done|]. eapply Forall_impl; [exact Hc|]. intros c [_ Hne] Hi. apply Hne. unfold syms. by rewrite Hi.
Qed.

(** The last segment of the path as a parameter. *)
Lemma param_last n p a vs x v (path : bytes) ps : located t n p -> fits_pattern p a vs -> (97 <= x <= 122)%Z ->
  syms (prefix n) = [(LB, false); (x, false); (RB, false)] -> path <> [] -> SLASH ∉ path -> full = a ++ path ->
  ps.*2 = vs -> value n = Some v -> sound (found v n (push_val ps path)).
Proof.
  intros Hl Hf Hx Hp Hne Hsl Hfull Hps Hv. eapply found_sound; [done|done| |unfold push_val; rewrite fmap_app, Hps; reflexivity].
  rewrite Hfull, Hp. apply fits_app; [done|]. simpl. pose proof (fits_param x path [] [] [] Hx Hne Hsl fits_nil) as H.
  by rewrite app_nil_r in H.
Qed.

(** The key of a catch-all is its name. *)
Lemma catch_all_key n esc name : syms (prefix n) = (LB, false) :: (STAR, esc) :: name ++ [(RB, false)] ->
  slice 2 (len (inner (prefix n)) - 1) (inner (prefix n)) = Some name.*1.
Proof.
  intros Hp. rewrite <- syms_bytes, Hp. cbn [fmap list_fmap]. rewrite fmap_app. apply (slice_app_mid [LB; STAR] name.*1 [RB]); [done|].
  rewrite !len_cons, len_app. unfold len. simpl. lia.
Qed.

Lemma catch_all_sound n p a vs v esc name path ps r : located t n p -> fits_pattern p a vs -> Forall name_sym name ->
  syms (prefix n) = (LB, false) :: (STAR, esc) :: name ++ [(RB, false)] -> path <> [] -> full = a ++ path -> ps.*2 = vs ->
  value n = Some v ->
  (ps ← remap (E := MatchError) (remapping n) ps;
   key ← unwrap (slice 2 (len (inner (prefix n)) - 1) (inner (prefix n)));
   key ← from_utf8_unwrap key;
   Ok (v, push ps key path)) = r -> sound r.
Proof.
  intros Hl Hf Hname Hp Hne Hfull Hps Hv. pose proof (located_value t n p v Hl Hv) as Hin.
  rewrite (catch_all_key n esc name Hp). destruct (remap (remapping n) ps) as [ps'| |] eqn:Hr; [|by intros <-|by intros <-]. cbn [mbind outcome_bind unwrap].
  unfold from_utf8_unwrap. destruct (utf8_valid name.*1); [|by intros <-]. intros <-. simpl. apply remap_zip in Hr as ->.
  exists (p ++ syms (prefix n), remapping n, v). split; [done|]. split; [done|]. rewrite Hps. unfold push.
  eapply (routed_catch_all (_, _, _)); simpl; [by rewrite Hp|done|done|done|].
  pose proof (proj1 (Forall_forall _ _) Hnamed _ Hin) as Hn. simpl in Hn. rewrite Hp in Hn.
  assert (Hp' : normal (p ++ (LB, false) :: (STAR, esc) :: name ++ [(RB, false)]) (length vs + 0)).
  { apply normal_app; [by eapply fits_normal|]. by apply normal_catch_all; [|constructor]. }
  rewrite Nat.add_0_r in Hp'. exact (normal_fun _ _ _ Hp' Hn).
Qed.

Lemma at_wild_ok back n p a vs path ps sk : located t n p -> fits_pattern p a vs -> full = a ++ path -> ps.*2 = vs ->
  path <> [] -> stack_ok ps path sk -> turn_ok (at_wild back n path ps sk).
Proof.
  intros Hl Hf Hfull Hps Hne Hsk. pose proof (located_inv t n p Ht Hl) as Hn.
  assert (Hstop : turn_ok (Break (mkSearch n path back ps sk))) by (split; [done|by exists p]).
  unfold at_wild. destruct (node_type n) as [|ty| |] eqn:Hty; [done| | |done].
  - destruct (param_shape n ty Hn Hty) as (x & Hx & Hp & Hkids). destruct ty.
    + destruct (position SLASH path) as [i|] eqn:Hi.
      * apply position_before in Hi as [Hi Hsl]. destruct i as [|i]; [done|].
        pose proof (try_suffixes_ok n p a vs x path (S i + 1) ps sk (children n) Hl Hf Hx Hp Hfull Hps ltac:(lia)) as H.
        replace (S i + 1 - 1) with (S i) in H by lia. specialize (H Hsl ltac:(by rewrite Hty) ltac:(done) Hkids Hsk).
        destruct (try_suffixes _ _ _ _ _); [done|]. by destruct (value n).
      * pose proof (position_None _ _ Hi) as Hsl.
        pose proof (try_suffixes_ok n p a vs x path (length path) ps sk (children n) Hl Hf Hx Hp Hfull Hps ltac:(lia)) as H.
        specialize (H (not_elem_of_take _ _ _ Hsl) ltac:(by rewrite Hty) ltac:(done) Hkids Hsk).
        destruct (try_suffixes _ _ _ _ _); [done|]. destruct (value n) eqn:Hv; [|done]. by eapply (param_last n p a vs x).
    + destruct (position SLASH path) as [[|i]|] eqn:Hi; [done| |].
      * apply position_before in Hi as [Hi Hsl]. destruct (str_split_at path (S i)) as [[param rest]|] eqn:Hsp; [|done].
        apply str_split_Some in Hsp as [-> ->]. destruct (children n) as [|child [|]] eqn:Hc; [done| |done].
        split; simpl; [|eapply (stack_weaken _ _ _ (take (S i) path)); by rewrite take_drop].
        eapply (param_point n p a vs x); try done; [by destruct path|by rewrite take_drop|rewrite Hc; by left|by rewrite Hty].
      * apply position_None in Hi. destruct (value n) eqn:Hv; [|done]. by eapply (param_last n p a vs x).
  - pose proof (inv_local n Hn) as Hloc. unfold local in Hloc. rewrite Hty in Hloc. destruct Hloc as [(esc & name & Hname & Hp) _].
    destruct (value n) eqn:Hv; [|done]. by eapply (catch_all_sound n p a vs).
Qed.

Lemma at_turn_ok s : search_ok s -> turn_ok (at_turn s).
Proof.
  destruct s as [n path back ps sk]. intros [(Hty & p & a & Hl & Hf & Hfull) Hsk]. simpl in *.
  pose proof (located_inv t n p Ht Hl) as Hn.
  assert (Hstop : turn_ok (Break (mkSearch n path back ps sk))) by (split; [done|by exists p]).
  destruct (inv_aligned n Hn Hty) as [Htx Hal].
  assert (Hpre : fits_pattern (p ++ syms (prefix n)) (a ++ inner (prefix n)) ps.*2).
  { rewrite <- (app_nil_r ps.*2). apply fits_app; [done|]. rewrite <- syms_bytes. by apply fits_texts. }
  destruct (Nat.leb_spec (length path) (length (inner (prefix n)))) as [Hle|Hgt].
  - case_bool_decide as Heq; [|done]. destruct (value n) eqn:Hv; [|done]. eapply found_sound; [done|done| |done]. by rewrite Hfull, Heq.
  - destruct (str_split_at path (length (inner (prefix n)))) as [[pre rest]|] eqn:Hsp; [|done].
    apply str_split_Some in Hsp as [-> Hrest]. case_bool_decide as Heq; [|done]. simpl.
    assert (Hpath : path = inner (prefix n) ++ rest) by (rewrite <- Heq, Hrest at 1; by rewrite take_drop).
    assert (Hsk' : stack_ok ps rest sk).
    { rewrite <- (app_nil_r ps). apply (stack_weaken _ _ _ (inner (prefix n))). by rewrite <- Hpath. }
    assert (Hne : rest <> []) by (intros ->; rewrite Hpath, length_app in Hgt; simpl in Hgt; lia).
    assert (Hf' : full = (a ++ inner (prefix n)) ++ rest) by by rewrite <- app_assoc, <- Hpath.
    destruct (if back then None else position (default 0%Z (rest !! 0)) (indices n)) as [i|] eqn:Hpos.
    + destruct back; [done|]. apply position_Some in Hpos. destruct (aligned_static n i _ Hal Hpos) as (c & Hc & Hct & _). rewrite Hc.
      assert (Hcin : c ∈ children n) by by eapply list_elem_of_lookup_2. split; simpl.
      * split; [by rewrite Hct|]. exists (p ++ syms (prefix n)), (a ++ inner (prefix n)). split; [by eapply located_child|done].
      * destruct (wild_child n); [|done]. constructor; simpl; [done|by exists (inner (prefix n))| |by rewrite firstn_all].
        rewrite firstn_all. split; [done|]. by exists p, a.
    + destruct (wild_child n) eqn:Hw; simpl; [|by split; [|exists p]]. destruct (aligned_wild n Hal Hw) as (c & Hc & -> & _ & _).
      assert (Hcin : c ∈ children n) by by eapply list_elem_of_lookup_2.
      eapply (at_wild_ok back c (p ++ syms (prefix n)) (a ++ inner (prefix n))); try done. by eapply located_child.
Qed.

Lemma ends_with_app (x l : bytes) : ends_with l (x ++ l) = true.
Proof.
  unfold ends_with. rewrite length_app, Nat.add_sub, drop_app_length. rewrite (proj2 (Nat.leb_le _ _)) by lia. by rewrite bool_decide_eq_true_2.
Qed.

(** Backtracking always goes to the latest skipped node. *)
Lemma resume_ok ps path sk : stack_ok ps path sk ->
  match sk with
  | [] => resume path ps sk = None
  | k :: sk => let s := mkSearch (sk_node k) (sk_path k) true (take (sk_params k) ps) sk in
               resume path ps (k :: sk) = Some s /\ search_ok s
  end.
Proof.
  inversion 1 as [|k sk' ? ? Hk [x Hx] Hp Hs]; subst; [done|]. simpl. rewrite Hx, ends_with_app. rewrite <- Hx. done.
Qed.

(** A relaxed catch-all ends with the bytes [{*}]. *)
Definition is_relaxed e : Prop := exists q, e.1.1.*1 = q ++ [LB; STAR; RB].

Lemma relaxed_sound n p ps v ps' : located t n p -> relaxed n ps = Ok (v, ps') -> exists e, e ∈ routes t /\ e.2 = v /\ is_relaxed e.
Proof.
  intros Hl. unfold relaxed. destruct (children n) as [|c cs] eqn:Hc; [done|]. case_bool_decide as Hp; [|done].
  destruct (value c) eqn:Hv; [|done]. intros [= <- _]. assert (Hlc : located t c (p ++ syms (prefix n))).
  { eapply located_child; [done|]. rewrite Hc. by left. }
  eexists. split; [by eapply located_value|]. split; [done|]. exists (p ++ syms (prefix n)).*1. simpl.
  by rewrite fmap_app, syms_bytes, Hp.
Qed.

Lemma at_loop_sound fuel s v ps : search_ok s -> at_loop fuel s = Ok (v, ps) ->
  exists e, e ∈ routes t /\ e.2 = v /\ (routed e full ps \/ is_relaxed e).
Proof.
  revert s. induction fuel as [|fuel IH]; intros s Hs; cbn [at_loop]; [done|]. pose proof (at_turn_ok s Hs) as Hturn.
  destruct (at_turn s) as [r|s'|s']; simpl in Hturn.
  - intros ->. destruct Hturn as (e & ? & ? & ?). eauto 6.
  - by apply IH.
  - destruct Hturn as [Hst [p Hl]]. apply resume_ok in Hst. destruct (s_skipped s') as [|k sk].
    + rewrite Hst. intros (e & ? & ? & ?)%(relaxed_sound _ p); [|done]. eauto 6.
    + destruct Hst as [-> Hok]. by apply IH.
Qed.

(** *** The lookup ends, without a panic *)

Definition ascii (l : bytes) : Prop := Forall (fun b => 0 <= b < 128)%Z l.
Definition ascii_routes : Prop := Forall (fun e => ascii e.1.1.*1) (routes t).

Lemma ascii_boundary l i : ascii l -> i <= length l -> is_char_boundary l i = true.
Proof.
  intros Ha Hi. unfold is_char_boundary. apply orb_true_iff. right. destruct (l !! i) as [b|] eqn:Hb.
  - pose proof (Forall_lookup_1 _ _ _ _ Ha Hb) as Hbb. simpl in Hbb. apply negb_true_iff. unfold is_cont. apply Z.eqb_neq. intros He.
    assert (Hbit : Z.testbit (Z.land b 192) 7 = true) by by rewrite He. rewrite Z.land_spec in Hbit. apply andb_prop in Hbit as [Hbit _].
    rewrite Z.bits_above_log2 in Hbit; [done|lia|]. destruct (decide (b = 0)%Z) as [->|]; [done|]. apply Z.log2_lt_pow2; lia.
  - apply lookup_ge_None in Hb. apply Nat.eqb_eq. lia.
Qed.
Lemma ascii_split l i : ascii l -> i <= length l -> str_split_at l i = Some (take i l, drop i l).
Proof. intros Ha Hi. unfold str_split_at. by rewrite ascii_boundary. Qed.

Lemma remap_total {E} names (ps : Params) : length ps = length names -> exists r, remap (E := E) names ps = Ok r.
Proof. intros H. unfold remap. rewrite (proj2 (Nat.leb_le _ _)) by lia. eauto. Qed.

Definition wild_cost n : nat := 1 + 2 * match last (children n) with Some c => size c | None => 0 end.
Definition cost (s : @Search T) : nat :=
  (if s_back s then wild_cost (s_node s) else 2 * size (s_node s)) + sum_list ((fun k => wild_cost (sk_node k)) <$> s_skipped s).

Lemma size_eq n : size n = S (sum_list (size <$> children n)).
Proof. by destruct n. Qed.
Lemma size_child n i c : children n !! i = Some c -> size c < size n.
Proof.
  intros Hi. rewrite (size_eq n). rewrite <- (take_drop_middle _ _ _ Hi), fmap_app. simpl. rewrite sum_list_with_app. simpl. lia.
Qed.

(** The static child and the wildcard child are two children. *)
Lemma size_two n i c w : aligned n -> wild_child n = true -> indices n !! i <> None -> children n !! i = Some c ->
  last (children n) = Some w -> size c + size w < size n.
Proof.
  intros Hal Hw Hi Hc Hl. destruct (aligned_wild n Hal Hw) as (w' & Hw' & Hl' & _ & Hno). simplify_eq.
  rewrite (size_eq n). assert (Hne : i <> length (children n) - 1) by by intros ->.
  destruct Hal as (_ & ss & ws & Hch & _ & Hws). rewrite Hw in Hws. destruct Hws as (w1 & -> & _). rewrite Hch, last_snoc in Hl. simplify_eq.
  rewrite Hch in Hc, Hne |- *. rewrite length_app in Hne. simpl in Hne. apply lookup_app_Some in Hc as [Hc|[? Hc]].
  - rewrite <- (take_drop_middle _ _ _ Hc), !fmap_app. simpl. rewrite !sum_list_with_app. simpl. lia.
  - apply list_lookup_singleton_Some in Hc as [? _]. lia.
Qed.

(** What a turn leaves: no panic, and a smaller cost. *)
Definition turn_total (k : nat) (sk : list (@Skipped T)) (tn : @Turn T) : Prop :=
  match tn with
  | Return r => r <> Panic
  | Go s => cost s < k
  | Break s => s_skipped s = sk
  end.

Context (Hfull : ascii full) (Hroutes : ascii_routes).

Lemma point_ascii a path : full = a ++ path -> ascii path.
Proof. intros H. rewrite H in Hfull. by apply Forall_app in Hfull as [_ ?]. Qed.

Lemma names_length n p vs v : located t n p -> value n = Some v -> fits_pattern (p ++ syms (prefix n)) full vs ->
  length vs = length (remapping n).
Proof.
  intros Hl Hv Hf. pose proof (proj1 (Forall_forall _ _) Hnamed _ (located_value t n p v Hl Hv)) as Hn.
  exact (normal_fun _ _ _ (fits_normal _ _ _ Hf) Hn).
Qed.

Lemma found_total n p vs v ps : located t n p -> value n = Some v -> fits_pattern (p ++ syms (prefix n)) full vs -> ps.*2 = vs ->
  found v n ps <> Panic.
Proof.
  intros Hl Hv Hf Hps. unfold found. destruct (@remap_total MatchError (remapping n) ps) as [r ->]; [|done].
  rewrite <- (names_length n p vs v Hl Hv Hf), <- Hps. by rewrite length_fmap.
Qed.

Lemma fits_last_param p a vs x path : fits_pattern p a vs -> (97 <= x <= 122)%Z -> path <> [] -> SLASH ∉ path -> full = a ++ path ->
  fits_pattern (p ++ [(LB, false); (x, false); (RB, false)]) full (vs ++ [path]).
Proof.
  intros Hf Hx Hne Hsl ->. apply fits_app; [done|]. pose proof (fits_param x path [] [] [] Hx Hne Hsl fits_nil) as H. by rewrite app_nil_r in H.
Qed.

Lemma cost_child c path ps sk k : size c < k -> 0 < k -> cost (mkSearch c path false ps sk) < 2 * k + sum_list ((fun k => wild_cost (sk_node k)) <$> sk).
Proof. intros. unfold cost. cbn [s_back s_node s_skipped]. lia. Qed.

Lemma try_suffixes_total n path te ps sk l : ascii path -> te <= length path -> l ⊆ children n ->
  match try_suffixes path te ps sk l with
  | Some tn => turn_total (2 * size n + sum_list ((fun k => wild_cost (sk_node k)) <$> sk)) sk tn
  | None => True
  end.
Proof.
  intros Ha Hte Hsub. induction l as [|c l IH]; cbn [try_suffixes]; [done|]. assert (IH' := IH ltac:(set_solver)).
  destruct (Nat.leb_spec te (length (inner (prefix c)))); [done|].
  rewrite ascii_split by (first [by apply Forall_take|rewrite length_take; lia]). case_bool_decide; [|done].
  assert (Hc : c ∈ children n) by set_solver. apply list_elem_of_lookup in Hc as [i Hc]. pose proof (size_child n i c Hc).
  by apply cost_child; lia.
Qed.

Lemma at_wild_total back n p a vs path ps sk : located t n p -> wild_type (node_type n) = true -> fits_pattern p a vs -> full = a ++ path ->
  ps.*2 = vs -> path <> [] -> turn_total (2 * size n + sum_list ((fun k => wild_cost (sk_node k)) <$> sk)) sk (at_wild back n path ps sk).
Proof.
  intros Hl Hwt Hf Hp0 Hps Hne. pose proof (located_inv t n p Ht Hl) as Hn. pose proof (point_ascii a path Hp0) as Ha.
  unfold at_wild. destruct (node_type n) as [|ty| |] eqn:Hty; try done.
  - destruct (param_shape n ty Hn Hty) as (x & Hx & Hp & Hkids).
    assert (Hlast : forall v, value n = Some v -> SLASH ∉ path -> found v n (push_val ps path) <> Panic).
    { intros v Hv Hsl. eapply found_total; [done|done|rewrite Hp; by eapply fits_last_param|unfold push_val; by rewrite fmap_app, Hps]. }
    destruct ty.
    + destruct (position SLASH path) as [i|] eqn:Hi.
      * apply position_before in Hi as [Hi _]. destruct i as [|i]; [done|].
        pose proof (try_suffixes_total n path (S i + 1) ps sk (children n) Ha ltac:(lia) ltac:(done)) as H.
        destruct (try_suffixes _ _ _ _ _); [done|]. by destruct (value n).
      * pose proof (try_suffixes_total n path (length path) ps sk (children n) Ha ltac:(lia) ltac:(done)) as H.
        destruct (try_suffixes _ _ _ _ _); [done|]. destruct (value n) eqn:Hv; [|done]. apply Hlast; [done|by apply position_None].
    + destruct (position SLASH path) as [[|i]|] eqn:Hi; [done| |].
      * apply position_before in Hi as [Hi _]. rewrite ascii_split by (try done; lia).
        destruct (children n) as [|c [|]] eqn:Hc; [done| |done]. assert (Hsz : size c < size n) by (apply (size_child n 0); by rewrite Hc).
        by apply cost_child; lia.
      * destruct (value n) eqn:Hv; [|done]. apply Hlast; [done|by apply position_None].
  - pose proof (inv_local n Hn) as Hloc. unfold local in Hloc. rewrite Hty in Hloc. destruct Hloc as [(esc & name & Hname & Hp) _].
    destruct (value n) as [v|] eqn:Hv; [|done]. simpl. pose proof (located_value t n p v Hl Hv) as Hin.
    pose proof (proj1 (Forall_forall _ _) Hnamed _ Hin) as Hn1. pose proof (proj1 (Forall_forall _ _) Hroutes _ Hin) as Hn2. simpl in Hn1, Hn2.
    assert (Hnl : length ps = length (remapping n)).
    { assert (Hp' : normal (p ++ syms (prefix n)) (length vs + 0)).
      { apply normal_app; [by eapply fits_normal|]. rewrite Hp. by apply normal_catch_all; [|constructor]. }
      rewrite Nat.add_0_r in Hp'. rewrite <- (normal_fun _ _ _ Hp' Hn1), <- Hps. by rewrite length_fmap. }
    destruct (@remap_total MatchError (remapping n) ps Hnl) as [r ->]. cbn [mbind outcome_bind].
    rewrite (catch_all_key n esc name Hp). cbn [unwrap mbind outcome_bind]. unfold from_utf8_unwrap. rewrite utf8_valid_ascii; [done|].
    rewrite Hp, fmap_app in Hn2. apply Forall_app in Hn2 as [_ Hn2]. cbn [fmap list_fmap] in Hn2. do 2 apply Forall_inv_tail in Hn2.
    rewrite fmap_app in Hn2. apply Forall_app in Hn2 as [Hn2 _]. eapply Forall_impl; [exact Hn2|]. simpl. lia.
Qed.

Lemma size_pos n : 0 < size n.
Proof. rewrite size_eq. lia. Qed.

Lemma turn_total_weaken k k' sk tn : k <= k' -> turn_total k sk tn -> turn_total k' sk tn.
Proof. destruct tn; simpl; try done. lia. Qed.

Lemma at_turn_total s : search_ok s -> turn_total (cost s) (s_skipped s) (at_turn s).
Proof.
  destruct s as [n path back ps sk]. intros [(Hty & p & a & Hl & Hf & Hp0) Hsk]. simpl in *.
  pose proof (located_inv t n p Ht Hl) as Hn. pose proof (point_ascii a path Hp0) as Ha. destruct (inv_aligned n Hn Hty) as [Htx Hal].
  assert (Hpre : fits_pattern (p ++ syms (prefix n)) (a ++ inner (prefix n)) ps.*2).
  { rewrite <- (app_nil_r ps.*2). apply fits_app; [done|]. rewrite <- syms_bytes. by apply fits_texts. }
  destruct (Nat.leb_spec (length path) (length (inner (prefix n)))) as [Hle|Hgt].
  - case_bool_decide as Heq; [|done]. destruct (value n) eqn:Hv; [|done]. eapply found_total; [done|done| |done]. by rewrite Hp0, Heq.
  - rewrite ascii_split by (try done; lia). case_bool_decide as Heq; [|done]. simpl. set (rest := drop (length (inner (prefix n))) path).
    assert (Hpath : path = inner (prefix n) ++ rest) by (rewrite <- Heq at 1; unfold rest; by rewrite take_drop).
    assert (Hne : rest <> []) by (intros Hr; rewrite Hpath, Hr, length_app in Hgt; simpl in Hgt; lia).
    assert (Hf' : full = (a ++ inner (prefix n)) ++ rest) by by rewrite <- app_assoc, <- Hpath.
    set (costs := sum_list ((fun k => wild_cost (sk_node k)) <$> sk)).
    destruct (if back then None else position (default 0%Z (rest !! 0)) (indices n)) as [i|] eqn:Hpos.
    + destruct back; [done|]. apply position_Some in Hpos. destruct (aligned_static n i _ Hal Hpos) as (c & Hc & _ & _). rewrite Hc.
      pose proof (size_child n i c Hc). unfold turn_total, cost. cbn [s_back s_node s_skipped]. destruct (wild_child n) eqn:Hw; [|lia].
      destruct (aligned_wild n Hal Hw) as (w & _ & Hlast & _ & _). cbn [fmap list_fmap sum_list_with sum_list sk_node]. unfold wild_cost at 1. rewrite Hlast.
      assert (Hi : indices n !! i <> None) by by rewrite Hpos. pose proof (size_two n i c w Hal Hw Hi Hc Hlast). fold costs. simpl. fold costs. lia.
    + destruct (wild_child n) eqn:Hw; simpl; [|done]. destruct (aligned_wild n Hal Hw) as (c & Hc & Hlast & Hcw & _). rewrite Hlast.
      assert (Hcin : c ∈ children n) by by eapply list_elem_of_lookup_2.
      pose proof (at_wild_total back c (p ++ syms (prefix n)) (a ++ inner (prefix n)) ps.*2 rest ps sk) as H.
      eapply turn_total_weaken; [|apply H; try done; by eapply located_child]. fold costs. unfold cost. cbn [s_back s_node s_skipped]. fold costs.
      pose proof (size_child n _ c Hc). unfold wild_cost. rewrite Hlast. destruct back; lia.
Qed.

Lemma cost_pos s : 0 < cost s.
Proof. unfold cost, wild_cost. pose proof (size_pos (s_node s)). destruct (s_back s); lia. Qed.

Lemma at_loop_total fuel s : search_ok s -> cost s <= fuel -> at_loop fuel s <> Panic.
Proof.
  revert s. induction fuel as [|fuel IH]; intros s Hs Hc; [pose proof (cost_pos s); lia|]. cbn [at_loop].
  pose proof (at_turn_ok s Hs) as Hok. pose proof (at_turn_total s Hs) as Htot. destruct (at_turn s) as [r|s'|s']; simpl in Hok, Htot; [done| |].
  - apply IH; [done|lia].
  - destruct Hok as [Hst _]. apply resume_ok in Hst. rewrite Htot in *. destruct (s_skipped s) as [|k sk] eqn:Hsk.
    + rewrite Hst. unfold relaxed. destruct (children (s_node s')) as [|c cs]; [done|]. case_bool_decide; [|done]. by destruct (value c).
    + destruct Hst as [-> Hok']. apply IH; [done|]. unfold cost in *. rewrite Hsk in Hc. cbn in Hc |- *.
      destruct (s_back s); unfold wild_cost in *; pose proof (size_pos (s_node s)); lia.
Qed.
End Match.

(** ** Lookup in a router *)

Section Lookup.
Context {T : Type}.
Implicit Types (t n c : Node T).

Lemma search_start t path : router_ok t -> search_ok t path (mkSearch t path false [] []).
Proof.
  intros [Hi Hw]. split; simpl; [|constructor]. split; [done|]. exists [], []. split; [constructor|]. split; [constructor|done].
Qed.

Lemma at_sound t path v ps : router_ok t -> named t -> at_ t path = Ok (v, ps) ->
  exists e, e ∈ routes t /\ e.2 = v /\ (routed e path ps \/ is_relaxed e).
Proof. intros Ht Hn. apply at_loop_sound; [apply Ht|done|by apply search_start]. Qed.

Lemma at_total t path : router_ok t -> named t -> ascii_routes t -> ascii path -> at_ t path <> Panic.
Proof.
  intros Ht Hn Hr Hp. apply at_loop_total with (t := t) (full := path); try done; [apply Ht|by apply search_start|]. unfold cost. simpl. lia.
Qed.

(** *** Static routes have priority *)

Lemma under_elem (p : list sym) (es : list (Entry T)) e : e ∈ under p es -> exists e', e' ∈ es /\ e = (p ++ e'.1.1, e'.1.2, e'.2).
Proof. intros (e' & -> & He)%list_elem_of_fmap. eauto. Qed.

(** The routes of a wildcard start with its brace. *)
Lemma wild_routes c e : inv c -> wild_type (node_type c) = true -> e ∈ routes c -> head e.1.1 = Some (LB, false).
Proof.
  intros Hc Hw. rewrite routes_eq. intros (e' & _ & ->)%under_elem. apply inv_local in Hc. unfold local in Hc. simpl.
  destruct (node_type c); try done; [destruct Hc as [(x & _ & ->) _]|destruct Hc as [(? & ? & _ & ->) _]]; done.
Qed.

(** Below a node, a text route is the node's own or goes through the child under its next byte. *)
Lemma text_route_step n e : inv n -> wild_type (node_type n) = false -> e ∈ routes n -> texts e.1.1 ->
  (e.1.1 = syms (prefix n) /\ value n = Some e.2 /\ remapping n = e.1.2) \/
  exists b q i c, e.1.1 = syms (prefix n) ++ text_sym b :: q /\ position b (indices n) = Some i /\ children n !! i = Some c
    /\ node_type c = Static /\ (text_sym b :: q, e.1.2, e.2) ∈ routes c.
Proof.
  intros Hn Hw. rewrite routes_eq. intros (e' & He & ->)%under_elem Htx. simpl in *. apply Forall_app in Htx as [_ Htx].
  apply elem_of_app in He as [He|He].
  - left. unfold own in He. destruct (value n); [|by apply elem_of_nil in He]. apply list_elem_of_singleton in He as ->. by rewrite app_nil_r.
  - right. apply list_elem_of_In, in_flat_map in He as (c & Hc & He). apply list_elem_of_In in Hc. apply list_elem_of_In in He.
    destruct (inv_aligned n Hn Hw) as (_ & Hnd & ss & w & Hch & Hf & Hws).
    assert (Hci : inv c) by by apply (proj1 (Forall_forall _ _) (inv_children n Hn)).
    rewrite Hch in Hc. apply elem_of_app in Hc as [Hc|Hc].
    + apply list_elem_of_lookup in Hc as [i Hc]. destruct (Forall2_lookup_r _ _ _ _ _ Hf Hc) as (b & Hb & Hct & Hst).
      destruct (proj1 (Forall_forall _ _) Hst e' He) as [q Hq]. exists b, q, i, c. rewrite Hq. split; [done|]. split.
      * unfold position. destruct (list_find (b =.) (indices n)) as [[j x]|] eqn:Hj; simpl.
        -- apply list_find_Some in Hj as (Hj & <- & _). f_equal. by eapply NoDup_lookup.
        -- apply list_find_None in Hj. by eapply Forall_lookup_1 in Hj; [|done].
      * split; [rewrite Hch; by apply lookup_app_l_Some|]. split; [done|]. rewrite <- Hq. by destruct e' as [[? ?] ?].
    + exfalso. destruct (wild_child n); [|subst w; by apply elem_of_nil in Hc]. destruct Hws as (cw & -> & Hcw).
      apply list_elem_of_singleton in Hc as ->. pose proof (wild_routes cw e' Hci Hcw He) as Hh.
      destruct e'.1.1 as [|s q]; [done|]. simpl in Hh. injection Hh as ->. by apply Forall_cons in Htx as [? _].
Qed.

Lemma at_loop_text fuel n e sk : inv n -> wild_type (node_type n) = false -> e ∈ routes n -> texts e.1.1 -> ascii e.1.1.*1 ->
  height n <= fuel -> at_loop fuel (mkSearch n e.1.1.*1 false [] sk) = Ok (e.2, []).
Proof.
  revert n e sk. induction fuel as [|fuel IH]; intros n e sk Hn Hw He Htx Ha Hh; [pose proof (height_pos n); lia|].
  cbn [at_loop at_turn]. pose proof (syms_bytes (prefix n)) as Hpb. pose proof (syms_length (prefix n)) as Hpl.
  destruct (text_route_step n e Hn Hw He Htx) as [(Hp & Hv & Hr)|(b & q & i & c & Hp & Hi & Hc & Hct & Hec)].
  - rewrite Hp, Hpb, Nat.leb_refl, bool_decide_eq_true_2, Hv by done. unfold found, remap. simpl. by destruct (remapping n).
  - rewrite Hp, fmap_app, Hpb in Ha |- *. simpl in Ha |- *. set (rest := b :: q.*1) in *.
    rewrite (proj2 (Nat.leb_gt _ _)) by (rewrite length_app; simpl; lia).
    rewrite ascii_split by (try done; rewrite length_app; lia). rewrite take_app_length, drop_app_length, bool_decide_eq_true_2 by done.
    unfold rest. cbn [negb lookup list_lookup default]. unfold id. rewrite Hi, Hc. apply (IH c (text_sym b :: q, e.1.2, e.2)); try done.
    + by apply (Forall_lookup_1 _ _ _ _ (inv_children n Hn) Hc).
    + by rewrite Hct.
    + simpl. rewrite Hp in Htx. by apply Forall_app in Htx as [_ ?].
    + simpl. by apply Forall_app in Ha as [_ ?].
    + pose proof (height_child n c ltac:(by eapply list_elem_of_lookup_2)). lia.
Qed.

Lemma height_size n : height n <= size n.
Proof.
  induction n as [n IH] using node_ind'. rewrite size_eq. replace (height n) with (S (list_max (height <$> children n))) by by destruct n.
  apply le_n_S. apply list_max_le. apply Forall_fmap, Forall_forall. intros c Hc. simpl.
  etransitivity; [by apply (proj1 (Forall_forall _ _) IH)|]. apply list_elem_of_lookup in Hc as [i Hc].
  rewrite <- (take_drop_middle _ _ _ Hc), fmap_app. simpl. rewrite sum_list_with_app. simpl. lia.
Qed.

Lemma at_text t e : router_ok t -> e ∈ routes t -> texts e.1.1 -> ascii e.1.1.*1 -> at_ t e.1.1.*1 = Ok (e.2, []).
Proof. intros [Ht Hw] He Htx Ha. apply at_loop_text; try done. pose proof (height_size t). lia. Qed.
End Lookup.
