(* ===== verification/RouterRemove.v ===== *)
(** * What removal does to the route table

    [Node::remove] of router/src/tree.rs: the walk keeps the shape of the tree, never panics on a
    well-shaped one, and takes at most one route from the table, one with the bytes and the
    parameter names that were asked for. *)

From S2P Require Import Prelude Utf8 RouterRoute RouterTree RouterInsert RouterMatch.

Local Open Scope nat_scope.

Section Remove.
Context {T : Type} (names : ParamRemapping).
Implicit Types (n c : Node T) (e : Entry T) (o : @Removed T).

(** What is taken from [before] to leave [after]: nothing, or a route whose pattern is in [P]. *)
Definition taken (P : list sym -> Prop) (before after : list (Entry T)) (r : outcome False (option T)) : Prop :=
  match r with
  | Ok None => after ≡ₚ before
  | Ok (Some v) => exists e, (P e.1.1 /\ e.1.2 = names /\ e.2 = v) /\ before ≡ₚ e :: after
  | _ => False
  end.

(** The patterns of [P] below a prefix. *)
Definition below (p : list sym) (P : list sym -> Prop) (pat : list sym) : Prop := exists q, pat = p ++ q /\ P q.

Record removes (P : list sym -> Prop) n o : Prop := mkRemoves {
  removes_inv : inv o.1;
  removes_type : node_type o.1 = node_type n;
  removes_prefix : prefix o.1 = prefix n;
  removes_routes : taken P (routes n) (routes o.1) o.2 }.

Lemma removes_nothing P n : inv n -> removes P n (n, Ok None).
Proof. intros. split; simpl; done. Qed.

Lemma removes_mono (P Q : list sym -> Prop) n o : (forall p, P p -> Q p) -> removes P n o -> removes Q n o.
Proof.
  intros HPQ [Hi Ht Hp Hr]. split; try done. destruct (o.2) as [[v|]| |]; try done. destruct Hr as (e & (? & ? & ?) & ?). exists e. eauto 6.
Qed.

Lemma taken_starts b P before after r : taken P before after r -> starts b before -> starts b after.
Proof.
  intros H Hs. destruct r as [[v|]| |]; simpl in H; try done; [|by eapply starts_perm; [symmetry|]].
  destruct H as (e & _ & Hp). eapply starts_perm in Hs; [|exact Hp]. by apply Forall_cons in Hs as [_ ?].
Qed.

(** The routes of a node with a child replaced. *)
Lemma plug_taken n i c c' P r : children n !! i = Some c -> taken P (routes c) (routes c') r ->
  taken (below (syms (prefix n)) P) (routes n) (routes (plug n i c')) r.
Proof.
  intros Hi Ht. destruct r as [[v|]| |]; simpl in *; try done; [|by rewrite (routes_plug n i c c' [] Hi)].
  destruct Ht as (e & (He1 & He2 & He3) & Hp). exists (syms (prefix n) ++ e.1.1, e.1.2, e.2).
  split; [split; [by eexists|done]|]. assert (Hc : children (plug n i c') !! i = Some c') by (simpl; apply list_lookup_insert_eq; by eapply lookup_lt_Some).
  assert (Hn : plug (plug n i c') i c = n) by (destruct n; unfold plug; simpl in *; by rewrite list_insert_insert_eq, list_insert_id).
  rewrite <- Hn at 1. by rewrite (routes_plug (plug n i c') i c' c [e] Hc Hp).
Qed.

Lemma removes_below P n i c k : inv n -> children n !! i = Some c -> removes P c (k c) ->
  removes (below (syms (prefix n)) P) n (remove_below n i k).
Proof.
  intros Hn Hi [Hci Hct Hcp Hcr]. unfold remove_below. rewrite Hi. destruct (k c) as [c' r]. simpl in *. split; simpl; [|done|done|by eapply plug_taken].
  eapply inv_plug; try done; [rewrite Hct; apply same_kind_refl|intros b _; by eapply taken_starts|by rewrite Hcp].
Qed.

(** The value of a node is the route that ends there. *)
Lemma own_taken c v : value c = v -> remapping c = names ->
  taken (fun p => p = syms (prefix c)) (routes c) (routes (with_value None c)) (Ok v).
Proof.
  intros <- Hr. rewrite !routes_eq. unfold own. simpl. destruct (value c) as [v|] eqn:Hv; [|done].
  exists (syms (prefix c), names, v). split; [done|]. unfold under. simpl. by rewrite app_nil_r, Hr.
Qed.
Lemma leaf_taken c : children c = [] -> remapping c = names -> taken (fun p => p = syms (prefix c)) (routes c) [] (Ok (value c)).
Proof.
  intros Hc Hr. pose proof (own_taken c (value c) eq_refl Hr) as H. rewrite (routes_eq (with_value None c)) in H. unfold own in H. simpl in H.
  by rewrite Hc in H.
Qed.

Lemma routes_delete n i c : children n !! i = Some c ->
  routes n ≡ₚ under (syms (prefix n)) (routes c) ++ routes (with_children (delete i (children n)) n).
Proof.
  intros Hi. rewrite (routes_eq n), (routes_eq (with_children _ n)). simpl. change (own (with_children _ n)) with (own n).
  rewrite <- under_app. f_equiv. rewrite <- (take_drop_middle _ _ _ Hi) at 1.
  rewrite delete_take_drop, !flat_map_app. simpl. rewrite (Permutation_app_swap_app (flat_map routes (take i (children n)))).
  apply Permutation_app_swap_app.
Qed.

Lemma delete_taken n i c P r : children n !! i = Some c -> taken P (routes c) [] r ->
  taken (below (syms (prefix n)) P) (routes n) (routes (with_children (delete i (children n)) n)) r.
Proof.
  intros Hi Ht. pose proof (routes_delete n i c Hi) as Hp. destruct r as [[v|]| |]; simpl in *; try done.
  - destruct Ht as (e & (He1 & He2 & He3) & Hc). exists (syms (prefix n) ++ e.1.1, e.1.2, e.2).
    split; [split; [by eexists|done]|]. by rewrite Hp, Hc.
  - by rewrite Hp, <- Ht.
Qed.

(** Without its [i]'th child, the node is still well shaped. *)
Lemma aligned_delete_static n i b : aligned n -> indices n !! i = Some b ->
  aligned (with_indices (delete i (indices n)) (with_children (delete i (children n)) n)).
Proof.
  intros (Hnd & ss & w & Hc & Hf & Hw) Hi. assert (Hl : i < length ss) by (rewrite <- (Forall2_length _ _ _ Hf); by eapply lookup_lt_Some).
  split; simpl; [by eapply sublist_NoDup; [|apply sublist_delete]|]. exists (delete i ss), w.
  split; [rewrite Hc, !delete_take_drop, take_app_le, drop_app_le by lia; by rewrite app_assoc|]. split; [by apply Forall2_delete|done].
Qed.

Lemma aligned_delete_wild n i c : aligned n -> children n !! i = Some c -> wild_type (node_type c) = true ->
  aligned (with_wild false (with_children (delete i (children n)) n)).
Proof.
  intros (Hnd & ss & w & Hc & Hf & Hw) Hi Ht. rewrite Hc in Hi. apply lookup_app_Some in Hi as [Hi|[Hge Hi]].
  - destruct (Forall2_lookup_r _ _ _ _ _ Hf Hi) as (b & _ & Hct & _). by rewrite Hct in Ht.
  - destruct (wild_child n); [|by subst w; rewrite lookup_nil in Hi]. destruct Hw as (cw & -> & _).
    apply list_lookup_singleton_Some in Hi as [Hz ->]. split; simpl; [done|]. exists ss, []. rewrite Hc. replace i with (length ss) by lia.
    by rewrite delete_middle.
Qed.

Lemma static_index n i c : aligned n -> children n !! i = Some c -> node_type c = Static -> exists b, indices n !! i = Some b.
Proof.
  intros (_ & ss & w & Hc & Hf & Hw) Hi Ht. rewrite Hc in Hi. apply lookup_app_Some in Hi as [Hi|[_ Hi]].
  - destruct (Forall2_lookup_r _ _ _ _ _ Hf Hi) as (b & Hb & _). eauto.
  - destruct (wild_child n); [|by subst w; rewrite lookup_nil in Hi]. destruct Hw as (cw & -> & Hcw).
    apply list_lookup_singleton_Some in Hi as [_ ->]. by rewrite Ht in Hcw.
Qed.

Lemma inv_without n i : inv n -> is_param (node_type n) = true -> inv (with_wild false (with_children (delete i (children n)) n)).
Proof.
  intros Hn Hp. constructor; simpl; [|by apply Forall_delete, inv_children]. apply inv_local in Hn. unfold local in *. simpl.
  destruct (node_type n); try done. destruct Hn as (? & ? & ? & Hc). split; [done|]. split; [done|]. split; [done|]. by apply Forall_delete.
Qed.

Lemma remove_child_removes n i c : inv n -> children n !! i = Some c ->
  removes (below (syms (prefix n)) (fun p => p = syms (prefix c))) n (remove_child n i names).
Proof.
  intros Hn Hi. pose proof (Forall_lookup_1 _ _ _ _ (inv_children n Hn) Hi) as Hci. unfold remove_child. rewrite Hi.
  case_bool_decide as Hr; [|by apply removes_nothing]. cbn [negb]. destruct (children c) as [|c1 cs] eqn:Hcc.
  - pose proof (delete_taken n i c _ _ Hi (leaf_taken c Hcc Hr)) as Htk. destruct (is_param (node_type n)) eqn:Hp.
    { cbn [node_type with_children]. rewrite Hp, andb_false_r. split; simpl; [by apply inv_without|done|done|]. by rewrite routes_eq in Htk |- *. }
    assert (Hwt : wild_type (node_type n) = false).
    { pose proof (inv_local n Hn) as Hl. unfold local in Hl. destruct (node_type n); try done. destruct Hl as (_ & Hl & _). by rewrite Hl in Hi. }
    destruct (inv_aligned n Hn Hwt) as [Htx Hal]. cbn [node_type with_children]. rewrite Hp, andb_true_r. case_bool_decide as Hst.
    + destruct (static_index n i c Hal Hi Hst) as [b Hb]. cbn [indices with_children].
      rewrite (proj2 (Nat.ltb_lt _ _)) by by eapply lookup_lt_Some. split; simpl; [|done|done|by rewrite routes_eq in Htk |- *].
      apply aligned_inv; [done|done|by eapply aligned_delete_static|simpl; by apply Forall_delete, inv_children].
    + split; simpl; [|done|done|by rewrite routes_eq in Htk |- *].
      apply aligned_inv; [done|done| |simpl; by apply Forall_delete, inv_children]. eapply aligned_delete_wild; [done|done|].
      destruct Hal as (_ & ss & w & Hc & Hf & Hw). rewrite Hc in Hi. apply lookup_app_Some in Hi as [Hi|[_ Hi]].
      * by destruct (Forall2_lookup_r _ _ _ _ _ Hf Hi) as (b & _ & Hct & _).
      * destruct (wild_child n); [|by subst w; rewrite lookup_nil in Hi]. destruct Hw as (cw & -> & Hcw).
        by apply list_lookup_singleton_Some in Hi as [_ ->].
  - pose proof (own_taken c _ eq_refl Hr) as Htk. split; simpl; [|done|done|exact (plug_taken n i c _ _ _ Hi Htk)].
    eapply inv_plug; try done; [|apply same_kind_refl|intros b _; by eapply taken_starts].
    inversion Hci as [m Hl Hc Hm]; subst. constructor; [exact Hl|done].
Qed.

(** The walk of [remove]. *)
Lemma remove_walk_removes fuel n rest : inv n -> height n <= fuel -> removes (fun p => p.*1 = rest) n (remove_walk fuel names n rest).
Proof.
  revert n rest. induction fuel as [|fuel IH]; intros n rest Hn Hh; [pose proof (height_pos n); lia|]. cbn [remove_walk].
  destruct (Nat.leb_spec (length rest) (length (inner (prefix n)))) as [Hle|Hgt]; [by apply removes_nothing|].
  case_bool_decide as Hpre; [|by apply removes_nothing]. cbn [negb]. set (r := drop (length (inner (prefix n))) rest).
  assert (Hrest : rest = inner (prefix n) ++ r) by (rewrite <- Hpre at 1; unfold r; by rewrite take_drop).
  assert (Hbelow : forall i c, children n !! i = Some c -> removes (fun p => p.*1 = rest) n (remove_below n i (fun c => remove_walk fuel names c r))).
  { intros i c Hc. apply (removes_mono (below (syms (prefix n)) (fun q => q.*1 = r))).
    { intros p (q & -> & Hq). by rewrite fmap_app, syms_bytes, Hrest, Hq. }
    eapply removes_below; [done|done|]. apply IH; [by eapply Forall_lookup_1; [apply inv_children|]|].
    pose proof (height_child n c ltac:(by eapply list_elem_of_lookup_2)). lia. }
  assert (Hchild : forall i c, children n !! i = Some c -> inner (prefix c) = r -> removes (fun p => p.*1 = rest) n (remove_child n i names)).
  { intros i c Hc Hp. eapply removes_mono; [|by apply (remove_child_removes n i c)].
    intros p (q & -> & ->). by rewrite fmap_app, !syms_bytes, Hrest, Hp. }
  destruct (if is_param (node_type n) then _ else None) as [[i c]|] eqn:Hs.
  - destruct (is_param (node_type n)); [|done]. apply list_find_Some in Hs as (Hc & Hp & _).
    assert (Hz : segment_end r - length (inner (prefix c)) = 0) by (rewrite Hp, length_take; pose proof (segment_end_le r); lia).
    destruct (Nat.eqb_spec (segment_end r) (length r)) as [He|He].
    + rewrite He, firstn_all in Hp. by eapply Hchild.
    + pose proof (Hbelow i c Hc) as H. unfold remove_below in *. rewrite Hc in *. by rewrite Hz, drop_0.
  - set (found := match position _ _ with Some i => Some i | None => _ end).
    assert (Hf : forall i, found = Some i -> exists c, children n !! i = Some c).
    { intros i. unfold found. destruct (wild_type (node_type n)) eqn:Hwt.
      - pose proof (inv_local n Hn) as Hl. unfold local in Hl. destruct (node_type n); try done.
        + by destruct Hl as (_ & -> & -> & _).
        + by destruct Hl as (_ & _ & -> & ->).
      - destruct (inv_aligned n Hn Hwt) as [_ Hal]. destruct (position _ (indices n)) as [j|] eqn:Hj.
        + intros [= <-]. apply position_Some in Hj. destruct (aligned_static n j _ Hal Hj) as (c & Hc & _). eauto.
        + destruct (wild_child n) eqn:Hw; [|done]. intros [= <-]. destruct (aligned_wild n Hal Hw) as (c & Hc & _). eauto. }
    destruct found as [i|]; [|by apply removes_nothing]. destruct (Hf i eq_refl) as [c Hc]. rewrite Hc.
    case_bool_decide as Hp; [by eapply Hchild|by eapply Hbelow].
Qed.

(** A text route that is not the node's own is found and taken. *)
Lemma texts_bytes p q : texts p -> texts q -> p.*1 = q.*1 -> p = q.
Proof.
  intros Hp. revert q. induction Hp as [|s p Hs Hp IH]; intros [|s' q] Hq He; try done. apply Forall_cons in Hq as [Hs' Hq].
  simpl in He. injection He as H1 H2. rewrite Hs, Hs', H1. f_equal. by apply IH.
Qed.

Lemma remove_walk_text fuel n e : inv n -> wild_type (node_type n) = false -> e ∈ routes n -> texts e.1.1 -> e.1.2 = names ->
  e.1.1 <> syms (prefix n) -> height n <= fuel ->
  removes (fun p => p = e.1.1) n (remove_walk fuel names n e.1.1.*1) /\ (remove_walk fuel names n e.1.1.*1).2 = Ok (Some e.2).
Proof.
  revert n e. induction fuel as [|fuel IH]; intros n e Hn Hw He Htx Hnm Hne Hh; [pose proof (height_pos n); lia|]. cbn [remove_walk].
  destruct (text_route_step n e Hn Hw He Htx) as [(Hp & _)|(b & q & i & c & Hp & Hi & Hc & Hct & Hec)]; [done|].
  rewrite Hp, fmap_app, syms_bytes. cbn [fmap list_fmap]. change (text_sym b).1 with b. set (rest := b :: q.*1).
  rewrite (proj2 (Nat.leb_gt _ _)) by (rewrite length_app; unfold rest; simpl; lia).
  rewrite take_app_length, drop_app_length, bool_decide_eq_true_2 by done. cbn [negb].
  replace (is_param (node_type n)) with false by by destruct (node_type n).
  change (default 0%Z (rest !! 0)) with b. rewrite Hi, Hc.
  pose proof (Forall_lookup_1 _ _ _ _ (inv_children n Hn) Hc) as Hci. assert (Hcw : wild_type (node_type c) = false) by by rewrite Hct.
  assert (Htq : texts (text_sym b :: q)) by (rewrite Hp in Htx; by apply Forall_app in Htx as [_ ?]).
  assert (Hmono : forall o, removes (below (syms (prefix n)) (fun p => p = text_sym b :: q)) n o ->
    removes (fun p => p = syms (prefix n) ++ text_sym b :: q) n o).
  { intros o. apply removes_mono. by intros p (? & -> & ->). }
  case_bool_decide as Hcp.
  - destruct (inv_aligned c Hci Hcw) as [Hctx _].
    assert (Hcs : syms (prefix c) = text_sym b :: q) by (apply texts_bytes; [done|done|by rewrite syms_bytes]).
    destruct (text_route_step c (text_sym b :: q, e.1.2, e.2) Hci Hcw Hec Htq) as [(_ & Hv & Hr)|(? & ? & ? & ? & Hbad & _)]; simpl in *.
    2:{ apply (f_equal length) in Hbad. rewrite Hcs, length_app in Hbad. simpl in Hbad. lia. }
    rewrite <- Hcs in Hmono |- *. split; [by apply Hmono, remove_child_removes|]. unfold remove_child. rewrite Hc, Hr, Hnm, bool_decide_eq_true_2 by done.
    cbn [negb]. destruct (children c); [|by rewrite <- Hv]. cbn [node_type with_children].
    replace (is_param (node_type n)) with false by by destruct (node_type n). rewrite Hct, bool_decide_eq_true_2 by done. cbn [negb andb indices].
    apply position_Some in Hi. rewrite (proj2 (Nat.ltb_lt _ _)) by by eapply lookup_lt_Some. simpl. by rewrite Hv.
  - pose proof (height_child n c ltac:(by eapply list_elem_of_lookup_2)) as Hhc.
    destruct (IH c (text_sym b :: q, e.1.2, e.2) Hci Hcw Hec Htq Hnm) as [H1 H2]; [|lia|].
    { simpl. intros Heq. apply Hcp. by rewrite <- syms_bytes, <- Heq. }
    split; [by eapply Hmono, removes_below|]. unfold remove_below. rewrite Hc.
    change ((remove_walk fuel names c rest).2 = Ok (Some e.2)) in H2. destruct (remove_walk fuel names c rest). exact H2.
Qed.
End Remove.
