(* ===== verification/RouterSpec.v ===== *)
(** * The router as a table of routes

    The theorems about router/src: escapes, insertion as an update of the route table, lookups in
    routers built by insertion, removal; and concrete runs of the behaviours that surprise. *)

From S2P Require Import Prelude Utf8 RouterRoute RouterTree RouterInsert RouterMatch RouterRemove.

Local Open Scope nat_scope.

(** ** Escapes *)

(** The reading of a route, left to right: a doubled brace is one escaped brace. *)
Fixpoint unescape (l : bytes) : list sym :=
  match l with
  | [] => []
  | c :: l' =>
      match l' with
      | d :: l'' => if is_brace c && (c =? d)%Z then (c, true) :: unescape l'' else (c, false) :: unescape l'
      | [] => [(c, false)]
      end
  end.
(** A text written so that it stands for itself. *)
Definition escape (l : bytes) : bytes := flat_map (fun b => if is_brace b then [b; b] else [b]) l.

Lemma unescape_cons2 c d l : unescape (c :: d :: l)
  = if is_brace c && (c =? d)%Z then (c, true) :: unescape l else (c, false) :: unescape (d :: l).
Proof. done. Qed.

Lemma unescape_escape p : unescape (escape p) = text_sym <$> p.
Proof.
  induction p as [|b p IH]; [done|]. unfold escape. cbn [flat_map]. fold (escape p). unfold text_sym at 1. simpl.
  destruct (is_brace b) eqn:Hb.
  - cbn [app unescape]. rewrite Hb, Z.eqb_refl. simpl. by rewrite IH.
  - cbn [app unescape]. rewrite IH. destruct (escape p) as [|d l] eqn:He; [by destruct p|]. by rewrite Hb.
Qed.

Lemma brace_pair (d : bytes) c q :
  ((c =? LB)%Z && bool_decide ((d ++ c :: q) !! (length d + 1) = Some LB))
  || ((c =? RB)%Z && bool_decide ((d ++ c :: q) !! (length d + 1) = Some RB)) = is_brace c && bool_decide (head q = Some c).
Proof.
  rewrite lookup_app_r by lia. replace (length d + 1 - length d) with 1 by lia. simpl.
  replace (q !! 0) with (head q) by by destruct q. unfold is_brace.
  destruct (Z.eqb_spec c LB) as [->|]; simpl; [by rewrite orb_false_r|]. by destruct (Z.eqb_spec c RB) as [->|].
Qed.

Lemma syms_app_marks d q esc : Forall (fun i => i < length d) esc ->
  syms (mkRoute (d ++ q) esc) = syms (mkRoute d esc) ++ ((fun b => (b, false)) <$> q).
Proof.
  intros He. apply list_eq. intros i. rewrite syms_lookup. simpl. destruct (decide (i < length d)).
  - rewrite !lookup_app_l, syms_lookup by (rewrite ?syms_length; done). done.
  - rewrite !lookup_app_r, syms_length, list_lookup_fmap by (rewrite ?syms_length; simpl; lia). simpl.
    destruct (q !! _); [|done]. simpl. do 2 f_equal. apply bool_decide_eq_false. intros Hi.
    pose proof (proj1 (Forall_forall _ _) He i Hi). simpl in *. lia.
Qed.

Lemma syms_snoc_mark d b esc : Forall (fun i => i < length d) esc ->
  syms (mkRoute (d ++ [b]) (esc ++ [length d])) = syms (mkRoute d esc) ++ [(b, true)].
Proof.
  intros He. apply list_eq. intros i. rewrite syms_lookup. unfold route_is_escaped. simpl. destruct (decide (i < length d)) as [Hi|Hi].
  - rewrite !lookup_app_l, syms_lookup by (rewrite ?syms_length; done). simpl. destruct (d !! i); [|done]. simpl. do 2 f_equal.
    apply bool_decide_ext. rewrite elem_of_app, list_elem_of_singleton. split; [intros [? | ->]; [done|lia]|by left].
  - rewrite !lookup_app_r, syms_length by (rewrite ?syms_length; simpl; lia). simpl.
    destruct (i - length d) as [|k] eqn:Hk; simpl; [|done]. do 2 f_equal. apply bool_decide_eq_true.
    replace i with (length d) by lia. apply elem_of_app. right. by left.
Qed.

Lemma new_loop_syms fuel d q esc : length q <= fuel -> Forall (fun i => i < length d) esc ->
  syms (new_loop fuel (d ++ q) esc (length d)) = syms (mkRoute d esc) ++ unescape q.
Proof.
  revert d q esc. induction fuel as [|fuel IH]; intros d q esc Hl He.
  { destruct q; [|simpl in Hl; lia]. cbn [new_loop unescape]. by rewrite app_nil_r, app_nil_r. }
  destruct q as [|c q].
  { cbn [new_loop unescape]. rewrite !app_nil_r. by rewrite lookup_ge_None_2. }
  cbn [new_loop]. rewrite list_lookup_middle, brace_pair by done. simpl in Hl.
  destruct (is_brace c && bool_decide (head q = Some c)) eqn:Hb.
  - apply andb_prop in Hb as [Hb Hd]. apply bool_decide_eq_true in Hd. destruct q as [|c' q]; [done|]. simpl in Hd. injection Hd as ->.
    rewrite delete_middle. cbn [unescape]. rewrite Hb, Z.eqb_refl. cbn [andb].
    replace (d ++ c :: q) with ((d ++ [c]) ++ q) by by rewrite <- app_assoc.
    replace (length d + 1) with (length (d ++ [c])) by by rewrite length_app.
    rewrite IH; [by rewrite syms_snoc_mark, <- app_assoc|simpl in Hl; lia|].
    rewrite length_app. simpl. apply Forall_app. split; [|constructor; [lia|constructor]]. eapply Forall_impl; [exact He|]. simpl. lia.
  - replace (d ++ c :: q) with ((d ++ [c]) ++ q) by by rewrite <- app_assoc.
    replace (length d + 1) with (length (d ++ [c])) by by rewrite length_app.
    rewrite IH; [|lia|rewrite length_app; eapply Forall_impl; [exact He|]; simpl; lia].
    rewrite syms_app_marks, <- app_assoc by done. simpl. f_equal. cbn [unescape]. destruct q as [|c' q]; [done|].
    destruct (is_brace c); [|done]. simpl in Hb |- *. case_bool_decide as Hcc; [done|]. rewrite (proj2 (Z.eqb_neq c c')); [done|congruence].
Qed.

Lemma route_new_syms raw : syms (route_new raw) = unescape raw.
Proof. apply (new_loop_syms (length raw) [] raw []); [done|constructor]. Qed.

(** The in-place unescaping of a route is its left-to-right reading, and it inverts escaping:
    a text with its braces doubled is read as that text, every symbol standing for itself. *)
Theorem router_escape_roundtrip raw p :
  syms (route_new raw) = unescape raw /\ inner (route_new (escape p)) = p /\ texts (syms (route_new (escape p))).
Proof.
  split; [apply route_new_syms|]. rewrite <- syms_bytes, route_new_syms, unescape_escape. split.
  - rewrite <- list_fmap_compose. apply list_fmap_id.
  - apply Forall_fmap, Forall_true. done.
Qed.

(** ** What normalisation keeps *)

(** A property of byte lists that the replacement of a wildcard keeps, all of the route keeps. *)
Lemma normalize_keeps (P : bytes -> Prop) fuel path original start next r names :
  (97 <= next)%Z -> P (inner path) -> start <= length (inner path) ->
  (forall l a b x, P l -> a + 2 <= b -> b <= length l -> l !! a = Some LB -> (97 <= x <= 122)%Z ->
     P (take a l ++ [LB; x; RB] ++ drop b l)) ->
  (next <= 122)%Z -> normalize_loop fuel path original start next = Ok (r, names) -> P (inner r).
Proof.
  intros Hx HP Hs Hstep Hz. revert path original start next Hx HP Hs Hz.
  induction fuel as [|fuel IH]; intros path original start next Hx HP Hs Hz; [done|].
  cbn [normalize_loop]. rewrite find_wildcard_syms. autorewrite with syms.
  destruct (wildcard_in 0 (drop start (syms path))) as [w|e|] eqn:E; [|done|done]. apply wildcard_in_Ok in E.
  cbn [mbind outcome_bind]. destruct w as [[ws we]|]; [|by intros [= <- <-]].
  destruct E as (pre & x & name & rest & Hd & Hpre & Hname & -> & -> & Hxr). rewrite Nat.add_0_l.
  set (ws := length pre + start). set (we := length pre + 2 + length name + 1 + start).
  assert (Hlen : length (drop start (syms path)) = length (inner path) - start) by by rewrite length_drop, syms_length.
  rewrite Hd, length_app in Hlen. simpl in Hlen. rewrite length_app in Hlen. simpl in Hlen.
  assert (Hb : inner path !! ws = Some LB).
  { rewrite <- syms_bytes, list_lookup_fmap. unfold ws. rewrite Nat.add_comm, <- lookup_drop, Hd, list_lookup_middle by done. done. }
  case_match; [done|]. case_bool_decide; [apply IH; try done; unfold we; lia|].
  destruct (@splice_spec InsertError path ws we [LB; next; RB]) as (r1 & -> & Hin & _); [unfold ws, we; lia|].
  cbn [mbind outcome_bind]. destruct (from_utf8_unwrap _); [|done|done]. cbn [mbind outcome_bind].
  destruct (Z.ltb_spec 122 (next + 1)); [done|]. apply IH; [lia| | |lia].
  - rewrite Hin. apply (Hstep _ ws we); try done; [unfold ws, we; lia|unfold we; lia].
  - rewrite Hin, !length_app, length_take. simpl. rewrite length_drop. unfold ws, we in *. lia.
Qed.

Lemma normalize_ascii raw r names : ascii raw -> normalize_params (route_new raw) = Ok (r, names) -> ascii (inner r).
Proof.
  intros Ha. apply normalize_keeps; [done| |lia| |done].
  - rewrite <- syms_bytes, route_new_syms. clear r names. remember (length raw) as k eqn:Hk. assert (Hle : length raw <= k) by lia. clear Hk.
    revert raw Ha Hle. induction k as [|k IH]; intros raw Ha Hle; [destruct raw; [by constructor|simpl in Hle; lia]|].
    destruct raw as [|c [|d l]]; [by constructor|done|]. simpl in Hle. rewrite unescape_cons2.
    apply Forall_cons in Ha as [Hc Ha]. pose proof Ha as [Hd Ha']%Forall_cons.
    destruct (is_brace c && (c =? d)%Z); cbn [fmap list_fmap]; (constructor; [done|]); apply IH; try done; simpl; lia.
  - intros l a b x Hl _ _ _ Hx. apply Forall_app. split; [by apply Forall_take|]. apply Forall_app. split; [|by apply Forall_drop].
    repeat (constructor; [simpl; lia|]). constructor.
Qed.

Lemma normalize_head raw r names b : head raw = Some b -> is_brace b = false ->
  normalize_params (route_new raw) = Ok (r, names) -> head (inner r) = Some b.
Proof.
  intros Hh Hb. apply (normalize_keeps (fun l => head l = Some b)); [done| |lia| |done].
  - rewrite <- syms_bytes, route_new_syms. destruct raw as [|c [|d l]]; [done|done|]. simpl in Hh. injection Hh as ->. cbn [unescape]. by rewrite Hb.
  - intros l a e x Hl Ha _ Hla _. destruct l as [|c l]; [done|]. simpl in Hl. injection Hl as ->. destruct a; [|done]. simpl in Hla.
    injection Hla as ->. done.
Qed.

Lemma normalize_texts raw : texts (syms (route_new raw)) -> normalize_params (route_new raw) = Ok (route_new raw, []).
Proof.
  intros Ht. unfold normalize_params. cbn [normalize_loop]. rewrite find_wildcard_syms. autorewrite with syms. rewrite drop_0.
  rewrite wildcard_in_none by by apply texts_literals. done.
Qed.

(** ** Routers built by insertion *)

Section Router.
Context {T : Type}.
Implicit Types (t : Node T).

Lemma rooted_slash t raw : head raw = Some SLASH -> rooted t raw.
Proof.
  intros Hh _ _. right. destruct (normalize_params (route_new raw)) as [[r names]| |] eqn:Hn; [|done|done].
  apply (normalize_head _ _ _ SLASH) in Hn; [|done|done]. unfold starts_static. simpl. destruct (inner r) as [|b l]; [done|].
  simpl in *. by injection Hn as ->.
Qed.

(** C13: inserting a tidy route into a well-shaped router keeps it well shaped and adds exactly the
    normalised route with its parameter names and value, or, when it is refused, leaves the route
    table as it was.  The only panics are those of the normalisation (too many parameters) and of
    the report of a conflict, and they leave the table as it was too.  A route is tidy when its
    wildcards are apart and its escapes mark braces ([router_adjacent_params] is an insertion of
    one that is not), and it must start with a literal, as every route with a leading slash does,
    when the root has no routes but has kept a prefix, from routes that were removed or refused
    ([router_stale_prefix], [router_refused_prefix]). *)
Theorem router_insert_refines t t' raw v res : router_ok t -> tidy_route raw -> rooted t raw -> insert t raw v = (t', res) ->
  router_ok t' /\
  match normalize_params (route_new raw) with
  | Ok (r, names) =>
      match res with
      | Ok _ => routes t' ≡ₚ (syms r, names, v) :: routes t
      | Err _ => routes t' ≡ₚ routes t
      | Panic => routes t' ≡ₚ routes t /\ report_panics (T := T) r
      end
  | Err e => t' = t /\ res = Err e
  | Panic => t' = t /\ res = Panic
  end.
Proof.
  intros Ht Htd Hr He. destruct (normalize_params (route_new raw)) as [[r names]| |] eqn:Hn.
  - destruct (insert_adds t raw v r names Ht Htd Hr Hn) as [Hok Ha]. rewrite He in Hok, Ha. split; [done|]. by destruct res.
  - unfold insert in He. rewrite Hn in He. by simplify_eq.
  - unfold insert in He. rewrite Hn in He. by simplify_eq.
Qed.

(** The routes this is about: ASCII, with a leading slash, tidy once normalised. *)
Definition good_route (raw : bytes) : Prop := ascii raw /\ head raw = Some SLASH /\ tidy_route raw.

(** Sequences of insertions, successful or not. *)
Inductive inserts t : Node T -> Prop :=
| inserts_nil : inserts t t
| inserts_snoc t1 raw v : inserts t t1 -> good_route raw -> inserts t (insert t1 raw v).1.

Definition built_ok t : Prop := router_ok t /\ named t /\ ascii_routes t.

Lemma insert_table t raw v : router_ok t -> good_route raw ->
  router_ok (insert t raw v).1 /\
  (routes (insert t raw v).1 ≡ₚ routes t \/
   exists r names, normalize_params (route_new raw) = Ok (r, names) /\ (insert t raw v).2 = Ok tt
     /\ routes (insert t raw v).1 ≡ₚ (syms r, names, v) :: routes t).
Proof.
  intros Ht (Ha & Hh & Htd). pose proof (insert_adds t raw v) as H. unfold insert in *.
  destruct (normalize_params (route_new raw)) as [[r names]| |] eqn:Hn; [|by split; [|left]|by split; [|left]].
  destruct (H r names Ht Htd (rooted_slash t raw Hh) eq_refl) as [Hok Ho]. split; [done|]. clear H.
  destruct (match value (bump t) with Some _ => _ | None => _ end) as [t' [[]|e|]]; simpl in Ho |- *; [right|by left|left; by destruct Ho].
  by exists r, names.
Qed.

Lemma insert_built t raw v : built_ok t -> good_route raw -> built_ok (insert t raw v).1.
Proof.
  intros (Hok & Hn & Ha) Hg. destruct (insert_table t raw v Hok Hg) as [Hok' Hr]. split; [done|].
  unfold named, ascii_routes in *. destruct Hr as [Hr|(r & names & Hnp & _ & Hr)]; [by rewrite !Hr|]. rewrite !Hr. split; constructor; try done; simpl.
  - by eapply normalize_normal.
  - rewrite syms_bytes. eapply normalize_ascii; [by destruct Hg|done].
Qed.

Lemma inserts_built t t' : built_ok t -> inserts t t' -> built_ok t'.
Proof. intros Ht. induction 1; [done|]. by apply insert_built. Qed.
Lemma new_built : built_ok (node_default : Node T).
Proof. split; [apply router_new_ok|]. split; constructor. Qed.

Lemma inserts_routes t t' e : built_ok t -> inserts t t' -> e ∈ routes t -> e ∈ routes t'.
Proof.
  intros Ht H He. induction H as [|t1 raw v H IH Hg]; [done|]. destruct (insert_table t1 raw v) as [_ [Hr|(r & names & _ & _ & Hr)]]; try done.
  - by destruct (inserts_built t t1 Ht H).
  - by rewrite Hr.
  - rewrite Hr. by right.
Qed.

(** C14: in a router built by insertions, accepted or refused, of ASCII routes with a leading slash
    whose wildcards are apart and whose escapes mark braces, the lookup of an ASCII path ends without
    a panic, and what it finds is the value of a route that fits the path, with the route's parameter
    names and the matched parts of the path -- or of a relaxed catch-all, a route that ends in
    [{*}].  Without these conditions it is false: [router_splits_characters],
    [router_adjacent_params], [router_refused_prefix]. *)
Theorem router_lookup_sound t path : inserts node_default t -> ascii path ->
  at_ t path <> Panic /\
  forall v ps, at_ t path = Ok (v, ps) -> exists e, e ∈ routes t /\ e.2 = v /\ (routed e path ps \/ is_relaxed e).
Proof.
  intros H Hp. destruct (inserts_built _ _ new_built H) as (Hok & Hn & Ha). split; [by apply at_total|].
  intros v ps. by apply at_sound.
Qed.

(** A text, written as a route. *)
Lemma text_route p : ascii p -> head p = Some SLASH ->
  normalize_params (route_new (escape p)) = Ok (route_new (escape p), []) /\ syms (route_new (escape p)) = text_sym <$> p
  /\ texts (text_sym <$> p) /\ (text_sym <$> p).*1 = p /\ good_route (escape p).
Proof.
  intros Ha Hh. pose proof (route_new_syms (escape p)) as Hs. rewrite unescape_escape in Hs.
  assert (Htx : texts (text_sym <$> p)) by (apply Forall_fmap, Forall_true; done).
  assert (Hnp : normalize_params (route_new (escape p)) = Ok (route_new (escape p), [])) by (apply normalize_texts; by rewrite Hs).
  split; [done|]. split; [done|]. split; [done|]. split; [rewrite <- list_fmap_compose; apply list_fmap_id|]. split; [|split].
  - unfold escape. apply Forall_forall. intros b Hb%list_elem_of_In%in_flat_map. destruct Hb as (x & Hx & Hb).
    apply list_elem_of_In in Hx. pose proof (proj1 (Forall_forall _ _) Ha x Hx) as Hxa. simpl in Hxa.
    destruct (is_brace x); simpl in Hb; naive_solver.
  - destruct p as [|c p]; [done|]. simpl in Hh. by injection Hh as ->.
  - unfold tidy_route. rewrite Hnp, Hs. split; [by apply texts_iff in Htx as [_ ?]|]. intros i _ Hi.
    rewrite list_lookup_fmap in Hi. destruct (p !! S i) as [b|]; [|done]. simpl in Hi. unfold text_sym in Hi. simplify_eq/=.
Qed.

Lemma insert_text t t' p v : router_ok t -> ascii p -> head p = Some SLASH -> insert t (escape p) v = (t', Ok tt) ->
  routes t' ≡ₚ (text_sym <$> p, [], v) :: routes t.
Proof.
  intros Ht Ha Hh Hins. destruct (text_route p Ha Hh) as (Hnp & Hs & _ & _ & _ & Hsl & Htd).
  pose proof (insert_adds t (escape p) v (route_new (escape p)) [] Ht Htd (rooted_slash t _ Hsl) Hnp) as [_ Hr]. by rewrite Hins, Hs in Hr.
Qed.

(** A text inserted with its braces doubled is found under that text, with no parameters,
    whatever parameters and catch-alls the router has, and whatever is inserted later. *)
Theorem router_static_roundtrip t1 t2 t3 p v :
  inserts node_default t1 -> ascii p -> head p = Some SLASH -> insert t1 (escape p) v = (t2, Ok tt) -> inserts t2 t3 ->
  at_ t3 p = Ok (v, []).
Proof.
  intros H1 Ha Hh Hins H3. pose proof (inserts_built _ _ new_built H1) as Hb1.
  destruct (text_route p Ha Hh) as (_ & _ & Htx & Hby & Hg). pose proof (insert_built t1 (escape p) v Hb1 Hg) as Hb2. rewrite Hins in Hb2. simpl in Hb2.
  pose proof (at_text t3 (text_sym <$> p, [], v)) as Hat. simpl in Hat. rewrite Hby in Hat. apply Hat; try done.
  - by destruct (inserts_built _ _ Hb2 H3).
  - apply (inserts_routes t2 t3); [done|done|]. rewrite (insert_text t1 t2 p v) by (try done; by destruct Hb1). by left.
Qed.

(** C15: removal keeps the router well shaped and never panics but in the normalisation; it takes
    nothing from the route table, or one route, whose pattern has the bytes that were asked for
    and whose parameter names are the same (the root's own route is taken whatever the names). *)
Theorem router_remove_refines t t' raw res : router_ok t -> remove t raw = (t', res) ->
  router_ok t' /\
  match res with
  | Ok None => routes t' ≡ₚ routes t
  | Ok (Some v) => exists r names e, normalize_params (route_new raw) = Ok (r, names) /\ routes t ≡ₚ e :: routes t'
      /\ e.1.1.*1 = inner r /\ (e.1.2 = names \/ e.1.1 = syms (prefix t)) /\ e.2 = v
  | Panic => normalize_params (route_new raw) = Panic
  | Err _ => False
  end.
Proof.
  intros [Ht Hw] He. unfold remove in He. destruct (normalize_params (route_new raw)) as [[r names]|e|] eqn:Hn; [|by simplify_eq|by simplify_eq].
  case_bool_decide as Hp.
  - pose proof (own_taken (remapping t) t (value t) eq_refl eq_refl) as Htk. injection He as <- <-.
    assert (Hrt : routes (match children t with [] => node_default | _ :: _ => with_value None t end) = routes (with_value None t)).
    { destruct (children t) eqn:Hc; [|done]. rewrite !routes_eq. unfold own. simpl. by rewrite Hc. }
    split.
    + destruct (children t); [apply router_new_ok|]. split; [|done]. inversion Ht as [m Hl Hc Hm]; subst. constructor; [exact Hl|done].
    + rewrite Hrt. destruct (value t) as [v|]; [|done]. destruct Htk as (e & (He1 & He2 & He3) & Hperm). exists r, names, e. rewrite He1, syms_bytes. auto 6.
  - destruct (remove_walk_removes names (height t) t (inner r) Ht ltac:(lia)) as [Hi Hty _ Htk]. rewrite He in *. simpl in *.
    split; [split; [done|by rewrite Hty]|]. destruct res as [[v|]| |]; try done. destruct Htk as (e & (He1 & He2 & He3) & Hperm). exists r, names, e. auto 6.
Qed.

(** A text route that was inserted is removed by the same route string, which gives back its
    value and the route table from before the insertion. *)
Theorem router_remove_static t1 t2 p v : inserts node_default t1 -> ascii p -> head p = Some SLASH ->
  insert t1 (escape p) v = (t2, Ok tt) ->
  exists t3, remove t2 (escape p) = (t3, Ok (Some v)) /\ routes t3 ≡ₚ routes t1.
Proof.
  intros H1 Ha Hh Hins. pose proof (inserts_built _ _ new_built H1) as Hb1.
  destruct (text_route p Ha Hh) as (Hnp & Hs & Htx & Hby & Hg). pose proof (insert_built t1 (escape p) v Hb1 Hg) as Hb2. rewrite Hins in Hb2.
  destruct Hb2 as ((Hi2 & Hw2) & Hn2 & _). simpl in *. pose proof (insert_text t1 t2 p v (proj1 Hb1) Ha Hh Hins) as Hr.
  assert (Hin : (text_sym <$> p, [], v) ∈ routes t2) by (rewrite Hr; by left).
  assert (Hip : inner (route_new (escape p)) = p) by by rewrite <- syms_bytes, Hs.
  destruct (inv_aligned t2 Hi2 Hw2) as [Htx2 _]. unfold remove. rewrite Hnp, Hip. case_bool_decide as Hp.
  - assert (Hps : text_sym <$> p = syms (prefix t2)) by (apply texts_bytes; [done|done|by rewrite Hby, syms_bytes]).
    destruct (text_route_step t2 _ Hi2 Hw2 Hin Htx) as [(_ & Hv & Hrm)|(? & ? & ? & ? & Hbad & _)]; simpl in *.
    2:{ apply (f_equal length) in Hbad. rewrite Hps, length_app in Hbad. simpl in Hbad. lia. }
    pose proof (own_taken [] t2 (value t2) eq_refl Hrm) as Htk. rewrite Hv in Htk |- *. destruct Htk as (e & (He1 & He2 & He3) & Hperm).
    eexists. split; [reflexivity|].
    assert (Hrt : routes (match children t2 with [] => node_default | _ :: _ => with_value None t2 end) = routes (with_value None t2)).
    { destruct (children t2) eqn:Hc; [|done]. rewrite !routes_eq. unfold own. simpl. by rewrite Hc. }
    rewrite Hrt. rewrite Hr in Hperm. assert (e = (text_sym <$> p, [], v)) as ->
      by (destruct e as [[? ?] ?]; cbn [fst snd] in He1, He2, He3; subst; by rewrite Hps).
    symmetry. by eapply Permutation_cons_inv.
  - destruct (remove_walk_text [] (height t2) t2 (text_sym <$> p, [], v)) as [[_ _ _ Htk] Hv]; try done.
    { simpl. intros Heq. apply Hp. by rewrite <- syms_bytes, <- Heq. }
    simpl in Htk, Hv. rewrite Hby in Htk, Hv. destruct (remove_walk (height t2) [] t2 p) as [t3 res]. simpl in *. subst res.
    exists t3. split; [done|]. destruct Htk as (e & (He1 & He2 & He3) & Hperm). rewrite Hr in Hperm.
    assert (e = (text_sym <$> p, [], v)) as -> by (destruct e as [[? ?] ?]; cbn [fst snd] in He1, He2, He3; by subst). symmetry. by eapply Permutation_cons_inv.
Qed.
End Router.

(** ** Concrete routers *)

Lemma good_check raw : forallb (fun b => (0 <=? b) && (b <? 128))%Z raw && bool_decide (head raw = Some SLASH)
    && match normalize_params (route_new raw) with Ok (r, _) => bool_decide (clean (syms r)) && spacedb (syms r) | _ => true end = true ->
  good_route raw.
Proof.
  intros [[Ha Hh]%andb_prop Ht]%andb_prop. split; [|split; [by apply bool_decide_eq_true in Hh|]].
  - apply Forall_forall. intros b Hb%list_elem_of_In. rewrite forallb_forall in Ha. specialize (Ha b Hb). simpl. lia.
  - unfold tidy_route. destruct (normalize_params _) as [[r ?]| |]; [by apply tidy_check|done|done].
Qed.

(** The router left by inserting routes, the [i]'th with value [i]. *)
Fixpoint table_from (t : Node Z) (v : Z) (l : list string) : Node Z :=
  match l with [] => t | r :: l => table_from (insert t (bs r) v).1 (v + 1)%Z l end.
Definition table : list string -> Node Z := table_from node_default 0%Z.

Lemma table_inserts t0 t v l : inserts t0 t -> Forall (fun r => good_route (bs r)) l -> inserts t0 (table_from t v l).
Proof.
  revert t v. induction l as [|r l IH]; intros t v Ht Hl; [done|]. apply Forall_cons in Hl as [Hr Hl]. simpl. apply IH; [|done]. by constructor.
Qed.

Definition demo_routes : list string := ["/users/{id}"; "/users/new"; "/users/{id}/posts/{post}"; "/files/{*path}"; "/{{x}}"].
Lemma demo_good : Forall (fun r => good_route (bs r)) demo_routes.
Proof. repeat (constructor; [apply good_check; vm_compute; reflexivity|]). constructor. Qed.
Definition demo : Node Z := table demo_routes.
Lemma demo_inserts : inserts node_default demo.
Proof. apply table_inserts; [constructor|apply demo_good]. Qed.

Lemma router_insert_refines_witness :
  router_ok demo /\ tidy_route (bs "/users/{name}/edit") /\
  routes (insert demo (bs "/users/{name}/edit") 9%Z).1 ≡ₚ (unescape (bs "/users/{a}/edit"), [bs "name"], 9%Z) :: routes demo.
Proof.
  assert (Hok : router_ok demo) by apply (inserts_built _ _ new_built demo_inserts).
  assert (Hg : good_route (bs "/users/{name}/edit")) by (apply good_check; vm_compute; reflexivity).
  split; [exact Hok|]. split; [apply Hg|].
  destruct (router_insert_refines demo (insert demo (bs "/users/{name}/edit") 9%Z).1 (bs "/users/{name}/edit") 9%Z (Ok tt) Hok
              (proj2 (proj2 Hg)) (rooted_slash demo (bs "/users/{name}/edit") eq_refl)) as [_ H].
  - vm_compute. reflexivity.
  - revert H. vm_compute. intros H. exact H.
Defined.

Lemma router_lookup_sound_witness :
  inserts node_default demo /\ at_ demo (bs "/users/7/posts/x") = Ok (2%Z, [(bs "id", bs "7"); (bs "post", bs "x")])
  /\ at_ demo (bs "/files/a/b") = Ok (3%Z, [(bs "path", bs "a/b")])
  /\ exists e, e ∈ routes demo /\ e.2 = 2%Z /\ (routed e (bs "/users/7/posts/x") [(bs "id", bs "7"); (bs "post", bs "x")] \/ is_relaxed e).
Proof.
  assert (H : at_ demo (bs "/users/7/posts/x") = Ok (2%Z, [(bs "id", bs "7"); (bs "post", bs "x")])) by (vm_compute; reflexivity).
  split; [apply demo_inserts|]. split; [exact H|]. split; [vm_compute; reflexivity|].
  refine (proj2 (router_lookup_sound demo (bs "/users/7/posts/x") demo_inserts _) _ _ H).
  apply (bool_decide_unpack _). vm_compute. exact I.
Defined.

Lemma router_static_roundtrip_witness :
  insert demo (escape (bs "/users/{me}")) 8%Z = ((insert demo (bs "/users/{{me}}") 8%Z).1, Ok tt)
  /\ at_ (insert demo (bs "/users/{{me}}") 8%Z).1 (bs "/users/{me}") = Ok (8%Z, []).
Proof.
  assert (H : insert demo (escape (bs "/users/{me}")) 8%Z = ((insert demo (bs "/users/{{me}}") 8%Z).1, Ok tt)) by (vm_compute; reflexivity).
  split; [exact H|].
  refine (router_static_roundtrip demo _ _ (bs "/users/{me}") 8%Z demo_inserts _ eq_refl H (inserts_nil _)).
  apply (bool_decide_unpack _). vm_compute. exact I.
Defined.

Lemma router_remove_refines_witness :
  (remove demo (bs "/users/{id}")).2 = Ok (Some 0%Z)
  /\ exists r names e, normalize_params (route_new (bs "/users/{id}")) = Ok (r, names) /\ routes demo ≡ₚ e :: routes (remove demo (bs "/users/{id}")).1
       /\ e.1.1.*1 = inner r /\ (e.1.2 = names \/ e.1.1 = syms (prefix demo)) /\ e.2 = 0%Z.
Proof.
  split; [vm_compute; reflexivity|].
  refine (proj2 (router_remove_refines demo (remove demo (bs "/users/{id}")).1 (bs "/users/{id}") (Ok (Some 0%Z)) _ _)).
  - apply (inserts_built _ _ new_built demo_inserts).
  - vm_compute. reflexivity.
Defined.

Lemma router_remove_static_witness :
  exists t3, remove (insert demo (bs "/users/{{me}}") 8%Z).1 (escape (bs "/users/{me}")) = (t3, Ok (Some 8%Z)) /\ routes t3 ≡ₚ routes demo.
Proof.
  refine (router_remove_static demo _ (bs "/users/{me}") 8%Z demo_inserts _ eq_refl _).
  - apply (bool_decide_unpack _). vm_compute. exact I.
  - vm_compute. reflexivity.
Defined.

(** ** Behaviours worth knowing *)

(** An escaped brace directly after a parameter whose name is not one byte long loses its mark:
    [splice] does not move an escape that sits at the end of the replaced range. *)
Lemma router_escape_after_param :
  (insert (table []) (bs "/{abc}{{x") 0%Z).2 = Err InvalidParam /\ (insert (table []) (bs "/{a}{{x") 0%Z).2 = Ok tt.
Proof. vm_compute. done. Qed.

(** With a relaxed catch-all, a path that has nothing to do with the route is matched. *)
Lemma router_relaxed_matches_all : at_ (table ["/foo/{*}"]) (bs "/bar") = Ok (0%Z, []).
Proof. vm_compute. done. Qed.
(** Its documented match of the slash alone is lost when another route comes first. *)
Lemma router_relaxed_not_first : at_ (table ["/{*}"]) (bs "/") = Ok (0%Z, []) /\ at_ (table ["/{*}"; "/a"]) (bs "/") = Err NoMatch.
Proof. vm_compute. done. Qed.
(** Its parameters are not named. *)
Lemma router_relaxed_unnamed : at_ (table ["/{id}/{*}"]) (bs "/1/") = Ok (0%Z, [([], bs "1")]).
Proof. vm_compute. done. Qed.

(** Two routes that differ inside a UTF-8 character make the lookup of either panic. *)
Lemma router_splits_characters :
  at_ (insert (insert node_default [47; 195; 169]%Z 1%Z).1 [47; 195; 170]%Z 2%Z).1 [47; 195; 169]%Z = Panic.
Proof. vm_compute. done. Qed.

(** Removal compares bytes without their escapes. *)
Lemma router_remove_unescaped : (remove (table ["/{{a}}"]) (bs "/{a}")).2 = Ok (Some 0%Z)
  /\ (remove (table ["/{{x"; "/{id}"]) (bs "/{id}")).2 = Ok None.
Proof. vm_compute. done. Qed.

(** A root that has lost all its routes keeps its prefix under a route that starts with a parameter. *)
Lemma router_stale_prefix :
  let t := (remove (remove (table ["/a"; "/b"]) (bs "/a")).1 (bs "/b")).1 in
  at_ (insert t (bs "{x}") 7%Z).1 (bs "foo") = Err NoMatch /\ at_ (insert t (bs "{x}") 7%Z).1 (bs "/foo") = Ok (7%Z, [(bs "x", bs "foo")]).
Proof. vm_compute. done. Qed.

(** So does a root whose only insertion was refused. *)
Lemma router_refused_prefix :
  let t := (insert (table []) (bs "/{x}{y}") 9%Z).1 in
  routes t = [] /\ (insert t (bs "{x}") 7%Z).2 = Ok tt /\ at_ (insert t (bs "{x}") 7%Z).1 (bs "foo") = Err NoMatch
  /\ at_ (insert t (bs "{x}") 7%Z).1 (bs "/foo") = Ok (7%Z, [(bs "x", bs "foo")]).
Proof. vm_compute. done. Qed.

(** Merging writes the routes without their escapes: a text becomes a parameter. *)
Lemma router_merge_unescapes :
  at_ (merge (table []) (table ["/{{a}}"])).1 (bs "/zzz") = Ok (0%Z, [(bs "a", bs "zzz")]).
Proof. vm_compute. done. Qed.

(** Two parameters in one segment are refused, except where the second one is spelled like
    an escaped suffix that is already there. *)
Lemma router_adjacent_params :
  (insert (table []) (bs "/{x}{y}") 9%Z).2 = Err InvalidParamSegment
  /\ (insert (table ["/{x}{{b}}"]) (bs "/{x}{y}") 9%Z).2 = Ok tt.
Proof. vm_compute. done. Qed.

(** The longest suffix wins, even when only a shorter one leads to a route. *)
Lemma router_longest_suffix_only :
  at_ (table ["/{x}a/foo"; "/{x}/bar"]) (bs "/foob/bar") = Ok (1%Z, [(bs "x", bs "foob")])
  /\ at_ (table ["/{x}a/foo"; "/{x}/bar"]) (bs "/fooa/bar") = Err NoMatch.
Proof. vm_compute. done. Qed.
