(* ===== verification/ServiceRouter.v ===== *)
(** * Routing of requests to services (http/src/util/service/{router,route}.rs)

    The service side of routing: [Route] chooses a service by the request's method, [Router] by its
    path, with the radix tree of [RouterTree], and routers are mounted in routers.  A service is a
    function from requests to responses; a builder's tree of routes is [Builder], and [resolve_path] is
    the way a request takes through it. *)

From S2P Require Import Prelude Utf8 Http RouterRoute RouterTree RouterInsert RouterMatch RouterSpec.

Section Service.
Context {X Res E : Type}.

(** A request, as far as routing looks at it and writes to it. *)
Record Request : Type := mkReq { rq_method : Method; rq_path : bytes; rq_params : Params; rq_ext : X }.
Definition with_params (ps : Params) (r : Request) : Request := mkReq (rq_method r) (rq_path r) ps (rq_ext r).
Definition Handler : Type := Request -> outcome E Res.

Inductive RouterError : Type := Match_ (e : MatchError) | NotAllowed (allowed : list Method) | Service_ (e : E).

(** ** Methods (route.rs) *)

(** A chain of routes, which ends in [MethodNotAllowedBuilder]. *)
Inductive Route : Type := MethodNotAllowed | RouteCons (methods : list Method) (route : Handler) (next : Route).

Definition route_builder (methods : list Method) (h : Handler) : outcome False Route :=
  if bool_decide (methods = []) then Panic else Ok (RouteCons methods h MethodNotAllowed).
(** [Route::next]: the new route goes behind the first one. *)
Definition route_next (self : Route) (methods : list Method) (h : Handler) : outcome False Route :=
  match self with
  | MethodNotAllowed => Ok (RouteCons methods h MethodNotAllowed)
  | RouteCons ms route next =>
      if existsb (fun m => bool_decide (m ∈ ms)) methods then Panic
      else Ok (RouteCons ms route (RouteCons methods h next))
  end.
Definition try_append_allowed (methods : list Method) (e : RouterError) : RouterError :=
  match e with NotAllowed l => NotAllowed (l ++ methods) | e => e end.
Fixpoint route_call (r : Route) (req : Request) : outcome RouterError Res :=
  match r with
  | MethodNotAllowed => Err (NotAllowed [])
  | RouteCons methods route next =>
      if bool_decide (rq_method req ∈ methods) then map_err Service_ (route req)
      else map_err (try_append_allowed methods) (route_call next req)
  end.

(** ** Paths (router.rs) *)

(** What is inserted in a router: a handler (whose errors [RouterMapErr] wraps), a chain of methods,
    or another router, with the prefix it leaves out and its map of routes. *)
Inductive Builder : Type :=
| HandlerService (h : Handler)
| MethodRoute (r : Route)
| Nested (prefix : nat) (routes : list (bytes * Builder)).
Definition router_new : nat * list (bytes * Builder) := (0%nat, []).

(** [PathGen::path_gen]: the path below which a router is mounted, without its tail. *)
Definition CATCH_ALL : bytes := bs "/{*}".
Definition mount (path : bytes) : bytes :=
  let path := if ends_with CATCH_ALL path then take 3 path else path in
  if ends_with (bs "/") path then take (length path - 1) path else path.
Fixpoint path_gen (path : bytes) (b : Builder) : Builder :=
  match b with
  | Nested prefix routes =>
      let path := mount path in
      Nested (prefix + length path) (map (fun e => (e.1, path_gen path e.2)) routes)
  | b => b
  end.
Definition gen_path (path : bytes) (b : Builder) : bytes :=
  match b with Nested _ _ => mount path ++ CATCH_ALL | _ => path end.
(** [Router::insert]; [HashMap::insert] must not find the path. *)
Definition router_insert (self : nat * list (bytes * Builder)) (path : bytes) (b : Builder) : outcome False (nat * list (bytes * Builder)) :=
  let key := gen_path path b in
  if bool_decide (key ∈ self.2.*1) then Panic else Ok (self.1, self.2 ++ [(key, path_gen path b)]).

(** [Service::call] of the builder: the routes go in a tree, by their position in the map's order. *)
Fixpoint build_tree (i : nat) (keys : list bytes) (t : Node nat) : outcome False (Node nat) :=
  match keys with
  | [] => Ok t
  | key :: keys => match insert t key i with (t, Ok _) => build_tree (S i) keys t | (_, _) => Panic end
  end.

(** [RouterService::call], up to the service that is called in the end, with the parameters it sees;
    [fuel] bounds the depth of the routers. *)
Fixpoint resolve_path (fuel : nat) (b : Builder) (ps : Params) (path : bytes) : outcome MatchError (Builder * Params) :=
  match b with
  | Nested prefix routes =>
      match fuel with
      | O => Panic
      | S fuel =>
          match build_tree 0 routes.*1 node_default with
          | Ok t =>
              if (length path <? prefix)%nat || negb (is_char_boundary path prefix) then Panic
              else
                '(i, ps) ← at_ t (drop prefix path);
                match routes !! i with
                | Some (_, v) => resolve_path fuel v ps path
                | None => Panic
                end
          | _ => Panic
          end
      end
  | b => Ok (b, ps)
  end.
Definition router_call (fuel : nat) (b : Builder) (req : Request) : outcome RouterError Res :=
  match resolve_path fuel b (rq_params req) (rq_path req) with
  | Ok (HandlerService h, ps) => map_err Service_ (h (with_params ps req))
  | Ok (MethodRoute r, ps) => route_call r (with_params ps req)
  | Ok (Nested _ _, _) => Panic
  | Err e => Err (Match_ e)
  | Panic => Panic
  end.

(** ** Properties *)

(** The registrations of a chain, in the order they were made. *)
Inductive registered : Route -> list (list Method * Handler) -> Prop :=
| registered_new methods h r : route_builder methods h = Ok r -> registered r [(methods, h)]
| registered_next r regs methods h r' : registered r regs -> route_next r methods h = Ok r' -> registered r' (regs ++ [(methods, h)]).
Fixpoint entries (r : Route) : list (list Method * Handler) :=
  match r with MethodNotAllowed => [] | RouteCons ms h next => (ms, h) :: entries next end.
Definition methods_of (l : list (list Method * Handler)) : list Method := mjoin l.*1.

Lemma registered_entries r regs : registered r regs -> entries r ≡ₚ regs.
Proof.
  induction 1 as [methods h r Hr|r regs methods h r' Hr IH Hn].
  - unfold route_builder in Hr. case_bool_decide; [done|]. by injection Hr as <-.
  - unfold route_next in Hn. destruct r as [|ms route next].
    + injection Hn as <-. rewrite <- IH. done.
    + destruct (existsb _ methods); [done|]. injection Hn as <-. rewrite <- IH. cbn. by rewrite <- Permutation_cons_append.
Qed.
Lemma methods_of_perm l l' : l ≡ₚ l' -> methods_of l ≡ₚ methods_of l'.
Proof. unfold methods_of. by intros ->. Qed.
Lemma elem_methods_of m l : m ∈ methods_of l <-> exists ms h, (ms, h) ∈ l /\ m ∈ ms.
Proof.
  unfold methods_of. rewrite list_elem_of_join. split.
  - intros (ms & Hm & ([ms' h] & -> & Hin)%list_elem_of_fmap). by exists ms', h.
  - intros (ms & h & Hin & Hm). exists ms. split; [done|]. apply list_elem_of_fmap. by exists (ms, h).
Qed.
Lemma route_call_refused r req : rq_method req ∉ methods_of (entries r) -> exists l, route_call r req = Err (NotAllowed l) /\ l ≡ₚ methods_of (entries r).
Proof.
  induction r as [|ms h next IH]; cbn; intros Hn; [by exists []|]. change (methods_of ((ms, h) :: entries next)) with (ms ++ methods_of (entries next)) in *.
  rewrite elem_of_app in Hn. destruct IH as (l & -> & Hl); [tauto|]. rewrite bool_decide_false by tauto. exists (l ++ ms). split; [done|]. rewrite Hl. apply Permutation_app_comm.
Qed.
Lemma route_call_served r req ms h : NoDup (methods_of (entries r)) -> (ms, h) ∈ entries r -> rq_method req ∈ ms -> route_call r req = map_err Service_ (h req).
Proof.
  induction r as [|ms' h' next IH]; cbn; intros Hd Hin Hm; [by apply not_elem_of_nil in Hin|].
  change (methods_of ((ms', h') :: entries next)) with (ms' ++ methods_of (entries next)) in Hd. apply NoDup_app in Hd as (_ & Hdis & Hd).
  apply elem_of_cons in Hin as [[= -> ->]|Hin]; [by rewrite bool_decide_true|]. rewrite bool_decide_false.
  - rewrite IH by done. by destruct (h req).
  - intros Hm'. apply (Hdis _ Hm'). apply elem_methods_of. by exists ms, h.
Qed.

(** *** Mounted routers *)

(** A mount path that [path_gen] leaves as it is. *)
Definition mount_point (p : bytes) : Prop := mount p = p.
(** The rest of a path begins at a character. *)
Definition cut_ok (p rest : bytes) : Prop := is_char_boundary (p ++ rest) (length p) = true.
Lemma boundary_shift p rest prefix : cut_ok p rest -> is_char_boundary (p ++ rest) (prefix + length p) = is_char_boundary rest prefix.
Proof.
  intros Hc. destruct (Nat.eq_dec prefix 0%nat) as [->|Hz]; [exact Hc|]. unfold is_char_boundary.
  rewrite (proj2 (Nat.eqb_neq (prefix + length p) 0%nat)), (proj2 (Nat.eqb_neq prefix 0%nat)) by lia. cbn [orb].
  rewrite lookup_app_r, length_app by lia. replace (prefix + length p - length p)%nat with prefix by lia.
  destruct (rest !! prefix); [done|]. destruct (Nat.eq_dec prefix (length rest)) as [<-|Hne]; [rewrite Nat.eqb_refl; apply Nat.eqb_eq; lia|].
  rewrite (proj2 (Nat.eqb_neq prefix (length rest)) Hne). apply Nat.eqb_neq. lia.
Qed.
Lemma resolve_shift n : forall b ps p rest, mount_point p -> cut_ok p rest -> resolve_path n (path_gen p b) ps (p ++ rest) =
  '(v, ps) ← resolve_path n b ps rest; Ok (path_gen p v, ps).
Proof.
  induction n as [|n IH]; intros [h|r|prefix routes] ps p rest Hp Hc; try done. cbn [path_gen]. rewrite Hp. cbn [resolve_path].
  replace ((map (fun e => (e.1, path_gen p e.2)) routes).*1) with (routes.*1) by (rewrite <- list_fmap_compose; by apply list_fmap_ext; intros ? []).
  destruct (build_tree 0 routes.*1 node_default) as [t|[]|]; [|done].
  rewrite length_app, boundary_shift by done. replace (length p + length rest <? prefix + length p)%nat with (length rest <? prefix)%nat
    by (destruct (Nat.ltb_spec (length rest) prefix), (Nat.ltb_spec (length p + length rest) (prefix + length p)); lia).
  destruct (_ || _); [done|]. rewrite drop_app, drop_ge, app_nil_l by lia. replace (prefix + length p - length p)%nat with prefix by lia.
  destruct (at_ t (drop prefix rest)) as [[i qs]| |]; cbn [mbind outcome_bind]; [|done|done].
  replace (map _ routes !! i) with ((fun e : bytes * Builder => (e.1, path_gen p e.2)) <$> routes !! i) by (symmetry; apply list_lookup_fmap).
  destruct (routes !! i) as [[key v]|]; cbn; [by apply IH|done].
Qed.
Lemma path_gen_mount p b : mount_point (mount p) -> path_gen p b = path_gen (mount p) b.
Proof. intros Hp. destruct b as [h|r|prefix routes]; try done. cbn [path_gen]. by rewrite Hp. Qed.
Definition leaf (b : Builder) : Prop := match b with Nested _ _ => False | _ => True end.
Lemma resolve_leaf n b ps path v ps' : resolve_path n b ps path = Ok (v, ps') -> leaf v.
Proof.
  revert b ps. induction n as [|n IH]; intros [h|r|prefix routes] ps; cbn [resolve_path]; try (by intros [= <- <-]).
  destruct (build_tree 0 routes.*1 node_default) as [t|[]|]; [|done]. destruct (_ || _); [done|].
  destruct (at_ t (drop prefix path)) as [[i qs]| |]; cbn; [|done|done]. destruct (routes !! i) as [[key w]|]; [apply IH|done].
Qed.
Lemma path_gen_leaf p b : leaf b -> path_gen p b = b.
Proof. by destruct b. Qed.
Lemma resolve_mounted n b ps p rest : mount_point p -> cut_ok p rest -> resolve_path n (path_gen p b) ps (p ++ rest) = resolve_path n b ps rest.
Proof.
  intros Hp Hc. rewrite resolve_shift by done. destruct (resolve_path n b ps rest) as [[v qs]| |] eqn:Er; [|done|done]. cbn.
  rewrite path_gen_leaf; [done|]. by eapply resolve_leaf.
Qed.

(** *** Literal paths *)

Definition leaf_call (b : Builder) (req : Request) : outcome RouterError Res :=
  match b with HandlerService h => map_err Service_ (h req) | MethodRoute r => route_call r req | Nested _ _ => Panic end.
Lemma inserts_trans (t1 t2 t3 : Node nat) : inserts t1 t2 -> inserts t2 t3 -> inserts t1 t3.
Proof. intros H12. induction 1 as [|t raw v Hb IHb Hr]; [done|]. by apply inserts_snoc. Qed.
Lemma build_tree_inserts i keys t t' : Forall good_route keys -> build_tree i keys t = Ok t' -> inserts t t'.
Proof.
  intros Hk. revert i t. induction Hk as [|key keys Hg Hk IH]; intros i t; cbn; [intros [= <-]; constructor|].
  destruct (insert t key i) as [t1 [[]| |]] eqn:Ei; [|done|done]. intros Hb%IH.
  assert (H1 : inserts t t1) by (replace t1 with (insert t key i).1 by (by rewrite Ei); by apply inserts_snoc; [constructor|]).
  by eapply inserts_trans.
Qed.
Lemma build_tree_app i keys1 keys2 t t' : build_tree i (keys1 ++ keys2) t = Ok t' ->
  exists t1, build_tree i keys1 t = Ok t1 /\ build_tree (i + length keys1) keys2 t1 = Ok t'.
Proof.
  revert i t. induction keys1 as [|key keys1 IH]; intros i t; cbn; [intros H; exists t; by rewrite Nat.add_0_r|].
  destruct (insert t key i) as [t1 [[]| |]]; [|done|done]. intros (t2 & H1 & H2)%IH. exists t2. split; [done|]. by rewrite <- Nat.add_succ_comm.
Qed.
Lemma static_resolves n routes t p v ps : Forall good_route routes.*1 -> build_tree 0 routes.*1 node_default = Ok t -> (escape p, v) ∈ routes ->
  ascii p -> head p = Some SLASH -> resolve_path (S n) (Nested 0 routes) ps p = resolve_path n v [] p.
Proof.
  intros Hg Hb (l1 & l2 & ->)%list_elem_of_split Ha Hh. cbn [resolve_path]. rewrite Hb. cbn [Nat.ltb Nat.leb orb is_char_boundary Nat.eqb negb]. rewrite drop_0.
  rewrite fmap_app, fmap_cons in Hb, Hg. cbn in Hb, Hg. apply Forall_app in Hg as [Hg1 [_ Hg2]%Forall_cons].
  apply build_tree_app in Hb as (t1 & Hb1 & Hb2). cbn in Hb2. destruct (insert t1 (escape p) (length l1.*1)) as [t2 [[]| |]] eqn:Ei; [|done|done].
  rewrite (router_static_roundtrip t1 t2 t p (length l1.*1)); [|exact (build_tree_inserts _ _ _ _ Hg1 Hb1)|done|done|exact Ei|exact (build_tree_inserts _ _ _ _ Hg2 Hb2)].
  cbn [mbind outcome_bind]. rewrite length_fmap, lookup_app_r, Nat.sub_diag by lia. done.
Qed.
End Service.

(** C38: the method of a request selects its service.  For a chain of routes built with [new] and
    [next] in which no method is registered twice, a request whose method is registered is answered
    by the service it is registered for, with that service's errors wrapped, and any other request
    is refused with the list of all registered methods. *)
Theorem method_routing {X Res E} (r : Route (X := X) (Res := Res) (E := E)) regs req : registered r regs -> NoDup (methods_of regs) ->
  (forall ms h, (ms, h) ∈ regs -> rq_method req ∈ ms -> route_call r req = map_err Service_ (h req)) /\
  (rq_method req ∉ methods_of regs -> exists allowed, route_call r req = Err (NotAllowed allowed) /\ allowed ≡ₚ methods_of regs).
Proof.
  intros Hr Hd. pose proof (registered_entries r regs Hr) as Hp. pose proof (methods_of_perm _ _ Hp) as Hm. split.
  - intros ms h Hin Hms. apply (route_call_served r req ms h); [by rewrite Hm|by rewrite Hp|done].
  - intros Hn. rewrite <- Hm in Hn. destruct (route_call_refused r req Hn) as (l & Hl & Hlp). exists l. split; [done|]. by rewrite Hlp.
Qed.

(** C19: a mounted router sees the path without its mount point.  The mount point is the path given,
    less a slash at its end ([mount]), and must not end in another slash; the request's path begins
    with the text of the mount point, and a character ends there.  Whatever is mounted -- services,
    chains of methods, routers to any depth -- then resolves the request as it resolves the rest of
    the path on its own, and when the router it was mounted in selects it, the request is resolved
    by it on the rest of the path.  A request that reaches it another way, through a parameter in
    the mount point or a relaxed catch-all, is not resolved so ([mounted_router_parameter],
    [mounted_router_short_path]), and a path that ends in a catch-all is given another mount point
    than its text before it ([mount_catch_all_truncated]). *)
Theorem mounted_router_strips {X Res E} n (b : Builder (X := X) (Res := Res) (E := E)) ps p rest :
  mount_point (mount p) -> cut_ok (mount p) rest ->
  resolve_path n (path_gen p b) ps (mount p ++ rest) = resolve_path n b ps rest /\
  forall routes routes' iprefix iroutes t i ps', b = Nested iprefix iroutes ->
    router_insert (0%nat, routes) p b = Ok (0%nat, routes') -> build_tree 0 routes'.*1 node_default = Ok t ->
    at_ t (mount p ++ rest) = Ok (i, ps') -> i = length routes ->
    gen_path p b = mount p ++ CATCH_ALL /\ resolve_path (S n) (Nested 0 routes') ps (mount p ++ rest) = resolve_path n b ps' rest.
Proof.
  intros Hp Hc. split; [rewrite path_gen_mount by done; by apply resolve_mounted|]. intros routes routes' ipre iroutes t i ps' -> Hins Hb Hat ->.
  unfold router_insert in Hins. case_bool_decide; [done|]. injection Hins as <-. split; [done|].
  cbn [resolve_path]. rewrite Hb. cbn [Nat.ltb Nat.leb orb is_char_boundary Nat.eqb negb]. rewrite drop_0, Hat. cbn [mbind outcome_bind snd]. rewrite lookup_app_r, Nat.sub_diag by done.
  pose proof (resolve_mounted n (Nested ipre iroutes) ps' (mount p) rest Hp Hc) as Hr. by rewrite <- path_gen_mount in Hr.
Qed.

(** C18: a service inserted at a literal path answers the requests for that path.  However the map
    orders the routes, and whatever else is inserted -- parameters, catch-alls, mounted routers --
    among ASCII routes with a leading slash whose wildcards are apart and whose escapes mark braces,
    all of which the router accepts, a request for the path, which is ASCII and starts with a slash,
    is answered by its service, with no parameters. *)
Theorem service_static_route {X Res E} n (routes : list (bytes * Builder (X := X) (Res := Res) (E := E))) t p v req :
  Forall good_route routes.*1 -> build_tree 0 routes.*1 node_default = Ok t -> (escape p, v) ∈ routes -> leaf v ->
  ascii p -> head p = Some SLASH -> rq_path req = p ->
  router_call (S n) (Nested 0 routes) req = leaf_call v (with_params [] req).
Proof.
  intros Hg Hb Hin Hl Ha Hh Hreq. unfold router_call. rewrite Hreq, (static_resolves n routes t p v) by done. by destruct v, n.
Qed.

(** ** Routers to run *)

(** A handler that answers with its name and the parameters it sees. *)
Definition say (name : string) : Handler (X := unit) (Res := bytes * Params) (E := unit) := fun req => Ok (bs name, rq_params req).
Definition req (m : Method) (path : string) : Request (X := unit) := mkReq m (bs path) [] tt.
Abbreviation DemoBuilder := (Builder (X := unit) (Res := bytes * Params) (E := unit)).

Definition get_post : outcome False (Route (X := unit) (Res := bytes * Params) (E := unit)) :=
  r ← route_builder [GET] (say "get"); route_next r [POST] (say "post").
Definition get_post_route := RouteCons [GET] (say "get") (RouteCons [POST] (say "post") MethodNotAllowed).
Lemma method_routing_witness :
  route_call get_post_route (req POST "/") = Ok (bs "post", []) /\
  exists allowed, route_call get_post_route (req PUT "/") = Err (NotAllowed allowed) /\ allowed ≡ₚ [GET; POST].
Proof.
  assert (Hr : registered get_post_route ([([GET], say "get")] ++ [([POST], say "post")])).
  { eapply registered_next; [apply registered_new; reflexivity|reflexivity]. }
  assert (Hd : NoDup (methods_of ([([GET], say "get")] ++ [([POST], say "post")]))) by (apply (bool_decide_unpack _); vm_compute; exact I).
  split.
  - apply (proj1 (method_routing get_post_route _ (req POST "/") Hr Hd) [POST] (say "post")).
    + apply elem_of_app. right. by apply list_elem_of_singleton.
    + by apply list_elem_of_singleton.
  - apply (proj2 (method_routing get_post_route _ (req PUT "/") Hr Hd)). apply (bool_decide_unpack _). vm_compute. exact I.
Defined.
(** [next] is said to panic when the routes contain overlapping methods, but looks at the first route
    of the chain only: a second registration of [POST] is accepted, and takes the requests from the
    one that was there. *)
Lemma method_overlap_shadows : exists r, (r ← get_post; route_next r [POST] (say "other")) = Ok r /\
  route_call r (req POST "/") = Ok (bs "other", []).
Proof. eexists. split; [reflexivity|]. reflexivity. Qed.

Definition inner : nat * list (bytes * DemoBuilder) := (0%nat, [(bs "/nest", HandlerService (say "nest")); (bs "/{id}", HandlerService (say "id"))]).
Definition mount_at (path : string) (others : list (bytes * DemoBuilder)) : DemoBuilder :=
  match router_insert (0%nat, others) (bs path) (Nested inner.1 inner.2) with Ok r => Nested r.1 r.2 | _ => Nested 0 [] end.
Definition others : list (bytes * DemoBuilder) := [(bs "/raw", HandlerService (say "raw")); (bs "/{any}", HandlerService (say "any"))].
Definition scope_routes : list (bytes * DemoBuilder) := others ++ [(bs "/scope/{*}", path_gen (bs "/scope") (Nested inner.1 inner.2))].
Definition scope_tree : Node nat := match build_tree 0 scope_routes.*1 node_default with Ok t => t | _ => node_default end.
Lemma mounted_router_strips_witness : router_call 2 (mount_at "/scope/" others) (req GET "/scope/7") = Ok (bs "id", [(bs "id", bs "7")]) /\
  resolve_path 2 (mount_at "/scope/" others) [] (bs "/scope" ++ bs "/7") = resolve_path (X := unit) (Res := bytes * Params) (E := unit) 1 (Nested inner.1 inner.2) [([], bs "7")] (bs "/7").
Proof.
  split; [vm_compute; reflexivity|].
  refine (proj2 (proj2 (mounted_router_strips 1 (Nested inner.1 inner.2) [] (bs "/scope/") (bs "/7") _ _) others scope_routes inner.1 inner.2 scope_tree 2%nat _ eq_refl _ _ _ eq_refl));
    vm_compute; reflexivity.
Defined.
Lemma service_static_route_witness : router_call 1 (Nested 0 others) (req GET "/raw") = Ok (bs "raw", []).
Proof.
  destruct (build_tree 0 others.*1 node_default) as [t|[]|] eqn:Et; [|vm_compute in Et; discriminate Et].
  apply (service_static_route 0 others t (bs "/raw") (HandlerService (say "raw")) (req GET "/raw")); try reflexivity; try exact I.
  - apply Forall_forall. intros key Hk. apply good_check. revert key Hk. apply Forall_forall. apply (bool_decide_unpack _). vm_compute. exact I.
  - exact Et.
  - apply elem_of_cons. by left.
  - apply (bool_decide_unpack _). vm_compute. exact I.
Defined.

(** A router mounted below a path that already ends in the catch-all loses that path but for its
    first three bytes: [split_off] keeps the head of the string. *)
Lemma mount_catch_all_truncated : mount (bs "/users/{*}") = bs "/us" /\ gen_path (bs "/users/{*}") (Nested inner.1 inner.2) = bs "/us/{*}".
Proof. by vm_compute. Qed.
(** A mounted router cuts the length of its mount point from every path that reaches it.  Paths that
    do not begin with the mount point reach it through the relaxed catch-all; shorter ones panic. *)
Lemma mounted_router_short_path : router_call 2 (mount_at "/scope" []) (req GET "/x") = Panic /\
  router_call 2 (mount_at "/scope" []) (req GET "/unrelated/nest") = Err (Match_ NoMatch) /\
  router_call 2 (mount_at "/scope" []) (req GET "/other/nest") = Ok (bs "nest", []).
Proof. by vm_compute. Qed.
(** Below a parameter, the length of the route's text is cut instead of that of the path it matched:
    only values as long as the parameter with its braces are served. *)
Lemma mounted_router_parameter : router_call 2 (mount_at "/{user}" []) (req GET "/me/nest") = Err (Match_ NoMatch) /\
  router_call 2 (mount_at "/{user}" []) (req GET "/alice1/nest") = Ok (bs "nest", []) /\
  router_call 2 (mount_at "/{user}" []) (req GET "/a/x") = Panic.
Proof. by vm_compute. Qed.
