(* ===== verification/BoundQueue.v ===== *)
(** * Bounded ring buffers (unsafe_collection/src/bound_queue)

    [Bounded] is a FIFO queue over a fixed number of cells: the index of the next free cell and
    the number of items.  The cells are reached through the unsafe methods of [Queueable]; an
    access to a cell that is out of range, not initialised or moved out of is undefined
    behaviour and modelled as [Panic].  [StackQueue] keeps an array of possibly uninitialised
    cells, [HeapQueue] an allocation.  Every sequence of operations is shown to behave as a
    list bounded by the capacity, without touching a dead cell.

    The capacity of an allocation is below 2^63, so the additions on indices do not overflow;
    subtractions are checked. *)

From S2P Require Import Prelude.

Local Open Scope nat_scope.

Definition nat_sub {E} (a b : nat) : outcome E nat := if b <=? a then Ok (a - b) else Panic.

(** ** Cells (the [Queueable] trait) *)

Class Queueable (Q T : Type) : Type := {
  uninit : nat -> Q;
  capacity : Q -> nat;
  get_unchecked {E} : Q -> nat -> outcome E T;
  read_unchecked {E} : nat -> M Q E T;
  write_unchecked {E} : nat -> T -> M Q E unit;
}.

(** What the queue relies on: the methods act on the live cells. *)
Class QueueableLaws (Q T : Type) `{Queueable Q T} : Type := {
  cell : Q -> nat -> option T;
  capacity_uninit n : capacity (uninit n) = n;
  get_cell {E} q i : get_unchecked (E := E) q i = unwrap (cell q i);
  read_cell {E} q i x : cell q i = Some x ->
    exists q', read_unchecked (E := E) i q = (q', Ok x) /\ capacity q' = capacity q
      /\ (forall j, j <> i -> cell q' j = cell q j);
  write_cell {E} q i x : i < capacity q ->
    exists q', write_unchecked (E := E) i x q = (q', Ok tt) /\ capacity q' = capacity q
      /\ cell q' i = Some x /\ (forall j, j <> i -> cell q' j = cell q j);
}.

(** [[MaybeUninit<T>; N]]: reading moves the item out of its cell. *)
Section Stack.
Context {T : Type}.
Definition StackCells : Type := list (option T).
#[global] Instance stack_queueable : Queueable StackCells T := {
  uninit n := replicate n None;
  capacity q := length q;
  get_unchecked E q i := unwrap (mjoin (q !! i));
  read_unchecked E i q := match mjoin (q !! i) with Some x => (<[i := None]> q, Ok x) | None => (q, Panic) end;
  write_unchecked E i x q := if i <? length q then (<[i := Some x]> q, Ok tt) else (q, Panic);
}.
#[global] Program Instance stack_laws : QueueableLaws StackCells T := {
  cell q i := mjoin (q !! i);
}.
Next Obligation. intros n. apply length_replicate. Qed.
Next Obligation. done. Qed.
Next Obligation.
  intros E q i x H. exists (<[i := None]> q). simpl. rewrite H. split; [done|]. split; [apply length_insert|].
  intros j Hj. simpl. f_equal. by apply list_lookup_insert_ne.
Qed.
Next Obligation.
  intros E q i x H. exists (<[i := Some x]> q). simpl in *. rewrite (proj2 (Nat.ltb_lt _ _)) by done.
  split; [done|]. split; [apply length_insert|]. split; [by rewrite (list_lookup_insert_eq (A := option T)) by done|].
  intros j Hj. f_equal. by apply list_lookup_insert_ne.
Qed.
End Stack.
Arguments StackCells : clear implicits.

(** [HeapQueueInner]: an allocation of [CAP] items, of which some are initialised. *)
Section Heap.
Context {T : Type}.
Record HeapQueueInner : Type := mkHeap { cap : nat; ptr : gmap nat T }.
#[global] Instance heap_queueable : Queueable HeapQueueInner T := {
  uninit n := mkHeap n ∅;
  capacity q := cap q;
  get_unchecked E q i := if i <? cap q then unwrap (ptr q !! i) else Panic;
  read_unchecked E i q :=
    if i <? cap q then
      match ptr q !! i with Some x => (mkHeap (cap q) (delete i (ptr q)), Ok x) | None => (q, Panic) end
    else (q, Panic);
  write_unchecked E i x q :=
    if i <? cap q then (mkHeap (cap q) (<[i := x]> (ptr q)), Ok tt) else (q, Panic);
}.
#[global] Program Instance heap_laws : QueueableLaws HeapQueueInner T := {
  cell q i := if i <? cap q then ptr q !! i else None;
}.
Next Obligation. done. Qed.
Next Obligation. intros E q i. simpl. by destruct (i <? cap q). Qed.
Next Obligation.
  intros E q i x. simpl. destruct (i <? cap q); [|done]. intros ->. eexists. split; [done|]. split; [done|].
  intros j Hj. simpl. by rewrite lookup_delete_ne.
Qed.
Next Obligation.
  intros E q i x Hi. simpl in *. rewrite (proj2 (Nat.ltb_lt _ _)) by done. eexists. split; [done|]. split; [done|].
  simpl. rewrite (proj2 (Nat.ltb_lt _ _)) by done. rewrite lookup_insert_eq. split; [done|].
  intros j Hj. by rewrite lookup_insert_ne.
Qed.
End Heap.
Arguments HeapQueueInner : clear implicits.

(** ** The queue (bound_queue/mod.rs) *)

Record Bounded (Q : Type) : Type := mkBounded { queue : Q; next : nat; qlen : nat }.
Arguments mkBounded {Q} _ _ _.
Arguments queue {Q} _.
Arguments next {Q} _.
Arguments qlen {Q} _.

Section Queue.
Context {Q T : Type} `{Queueable Q T}.
Implicit Types q : Bounded Q.

Definition queue_new (n : nat) : Bounded Q := mkBounded (uninit n) 0 0.
Definition is_empty q : bool := qlen q =? 0.
Definition is_full q : bool := qlen q =? capacity (queue q).

Definition incr_tail_len q : Bounded Q :=
  let next := next q + 1 in
  let len := qlen q + 1 in
  mkBounded (queue q) (if next =? capacity (queue q) then 0 else next) len.

Definition front_idx {E} q : outcome E nat :=
  if qlen q <=? next q then Ok (next q - qlen q)
  else nat_sub (capacity (queue q) + next q) (qlen q).

Definition front_unchecked {E} q : outcome E T := idx ← front_idx q; get_unchecked (queue q) idx.
Definition front {E} q : outcome E (option T) :=
  if is_empty q then Ok None else x ← front_unchecked q; Ok (Some x).

(** The reference handed out by [front_mut] is used to replace the item by [f] of it. *)
Definition front_mut_unchecked {E} (f : T -> T) : M (Bounded Q) E unit := fun q =>
  match (idx ← front_idx (E := E) q; x ← get_unchecked (queue q) idx; Ok (idx, x)) with
  | Ok (idx, x) =>
      let '(c, r) := write_unchecked idx (f x) (queue q) in (mkBounded c (next q) (qlen q), r)
  | Err e => (q, Err e)
  | Panic => (q, Panic)
  end.
Definition front_mut {E} (f : T -> T) : M (Bounded Q) E bool := fun q =>
  if is_empty q then (q, Ok false) else (front_mut_unchecked f ;; mret true) q.

Definition truncate {E} (n : nat) : M (Bounded Q) E unit := fun q =>
  if n <? qlen q then
    let delta := qlen q - n in
    match (if next q <? delta then nat_sub (E := E) (capacity (queue q) + next q) delta
           else Ok (next q - delta)) with
    | Ok next => (mkBounded (queue q) next n, Ok tt)
    | Err e => (q, Err e)
    | Panic => (q, Panic)
    end
  else (q, Ok tt).

Definition pop_front_unchecked {E} : M (Bounded Q) E T := fun q =>
  match (idx ← front_idx (E := E) q; len ← nat_sub (qlen q) 1; Ok (idx, len)) with
  | Ok (idx, len) =>
      let '(c, r) := read_unchecked idx (queue q) in (mkBounded c (next q) len, r)
  | Err e => (q, Err e)
  | Panic => (q, Panic)
  end.
Definition pop_front {E} : M (Bounded Q) E (option T) := fun q =>
  if is_empty q then (q, Ok None) else (x ← pop_front_unchecked; mret (Some x)) q.

Definition push_back_unchecked {E} (item : T) : M (Bounded Q) E unit := fun q =>
  let '(c, r) := write_unchecked (next q) item (queue q) in
  match r with
  | Ok _ => (incr_tail_len (mkBounded c (next q) (qlen q)), Ok tt)
  | Err e => (q, Err e)
  | Panic => (q, Panic)
  end.
(** The error is the item that was not taken. *)
Definition push_back (item : T) : M (Bounded Q) T unit := fun q =>
  if is_full q then (q, Err item) else push_back_unchecked item q.

(** [while self.pop_front().is_some() {}]: every turn takes an item. *)
Fixpoint clear_loop {E} (fuel : nat) : M (Bounded Q) E unit :=
  match fuel with
  | O => panic
  | S fuel => x ← pop_front; match x with None => mret tt | Some _ => clear_loop fuel end
  end.
Definition clear {E} : M (Bounded Q) E unit := fun q =>
  (clear_loop (S (qlen q)) ;; q' ← get; put (mkBounded (queue q') 0 0)) q.

(** The iterator: the queue's cells, its tail and the items that are left. *)
Record Iter : Type := mkIter { it_queue : Q; it_tail : nat; it_len : nat }.
Definition iter q : Iter := mkIter (queue q) (next q) (qlen q).
Definition iter_next {E} (it : Iter) : outcome E (option (T * Iter)) :=
  if it_len it =? 0 then Ok None
  else
    idx ← (if it_len it <=? it_tail it then Ok (it_tail it - it_len it)
           else nat_sub (capacity (it_queue it) + it_tail it) (it_len it));
    x ← get_unchecked (it_queue it) idx;
    Ok (Some (x, mkIter (it_queue it) (it_tail it) (it_len it - 1))).
(** All the items, front to back: the [for] loop over the iterator. *)
Fixpoint iter_collect {E} (fuel : nat) (it : Iter) : outcome E (list T) :=
  match fuel with
  | O => Panic
  | S fuel =>
      o ← iter_next it;
      match o with
      | None => Ok []
      | Some (x, it) => l ← iter_collect fuel it; Ok (x :: l)
      end
  end.
Definition items {E} q : outcome E (list T) := iter_collect (S (qlen q)) (iter q).
End Queue.

(** ** The queue as a list *)

Section Refinement.
Context {Q T : Type} `{QueueableLaws Q T}.
Implicit Types (q : Bounded Q) (l : list T).

(** The cell of the [i]'th of [k] items, [n] the next free cell of [c]. *)
Definition slot (c n k i : nat) : nat := if k <=? n + i then n + i - k else c + n + i - k.

Record holds q l : Prop := {
  holds_len : qlen q = length l;
  holds_cap : length l <= capacity (queue q);
  holds_next : next q < capacity (queue q) \/ capacity (queue q) = 0 /\ next q = 0;
  holds_cell i x : l !! i = Some x ->
    cell (queue q) (slot (capacity (queue q)) (next q) (length l) i) = Some x;
}.

Ltac slots := unfold slot; cbn [length] in *; repeat match goal with |- context [?a <=? ?b] => destruct (Nat.leb_spec a b) end; lia.

Lemma new_holds n : holds (queue_new n) [].
Proof. split; simpl; rewrite ?capacity_uninit; [done|lia|lia|done]. Qed.

Lemma is_empty_spec q l : holds q l -> is_empty q = bool_decide (l = []).
Proof. intros Hq. unfold is_empty. rewrite (holds_len _ _ Hq). by destruct l. Qed.
Lemma is_full_spec q l : holds q l -> is_full q = (length l =? capacity (queue q)).
Proof. intros Hq. unfold is_full. by rewrite (holds_len _ _ Hq). Qed.

Lemma front_idx_spec {E} q l : holds q l -> 
  front_idx (E := E) q = Ok (slot (capacity (queue q)) (next q) (length l) 0).
Proof.
  intros [Hl Hc _ _]. unfold front_idx, nat_sub, slot. rewrite Hl, !Nat.add_0_r.
  destruct (Nat.leb_spec (length l) (next q)); [done|]. by rewrite (proj2 (Nat.leb_le _ _)) by lia.
Qed.

Lemma front_unchecked_spec {E} q x l : holds q (x :: l) -> front_unchecked (E := E) q = Ok x.
Proof.
  intros Hq. unfold front_unchecked. rewrite (front_idx_spec _ _ Hq). cbn [mbind outcome_bind].
  by rewrite get_cell, (holds_cell _ _ Hq 0 x).
Qed.
Lemma front_spec {E} q l : holds q l -> front (E := E) q = Ok (head l).
Proof.
  intros Hq. unfold front. rewrite (is_empty_spec _ _ Hq). destruct l as [|x l]; [done|]. simpl.
  by rewrite (front_unchecked_spec _ x l).
Qed.

Lemma pop_front_unchecked_spec {E} q x l : holds q (x :: l) ->
  exists q', pop_front_unchecked (E := E) q = (q', Ok x) /\ holds q' l /\ capacity (queue q') = capacity (queue q).
Proof.
  intros Hq. pose proof Hq as [Hl Hc Hn Hx]. simpl in Hl, Hc.
  destruct (read_cell (E := E) (queue q) _ x (Hx 0 x eq_refl)) as (c & Hr & Hcap & Hne).
  exists (mkBounded c (next q) (length l)). unfold pop_front_unchecked. rewrite (front_idx_spec _ _ Hq). cbn [mbind outcome_bind].
  unfold nat_sub. rewrite Hl. cbn [Nat.leb mbind outcome_bind Nat.sub]. rewrite Nat.sub_0_r, Hr. split; [done|]. split; [|done].
  split; simpl; rewrite ?Hcap; [done|lia|done|]. intros i y Hi. apply lookup_lt_Some in Hi as Hil.
  rewrite Hne.
  - rewrite <- (Hx (S i) y Hi). f_equal. cbn [length]. slots.
  - slots.
Qed.
Lemma pop_front_spec {E} q l : holds q l ->
  exists q', pop_front (E := E) q = (q', Ok (head l)) /\ holds q' (tail l) /\ capacity (queue q') = capacity (queue q).
Proof.
  intros Hq. unfold pop_front. rewrite (is_empty_spec _ _ Hq). destruct l as [|x l]; [by exists q|]. simpl.
  destruct (pop_front_unchecked_spec (E := E) _ _ _ Hq) as (q' & Hp & Hq'). exists q'.
  by rewrite (bind_ok _ _ _ _ _ Hp).
Qed.

Lemma push_back_unchecked_spec {E} q l x : holds q l -> length l < capacity (queue q) ->
  exists q', push_back_unchecked (E := E) x q = (q', Ok tt) /\ holds q' (l ++ [x]) /\ capacity (queue q') = capacity (queue q).
Proof.
  intros [Hl Hc Hn Hx] Hlt. destruct Hn as [Hn|]; [|lia].
  destruct (write_cell (E := E) (queue q) (next q) x Hn) as (c & Hw & Hcap & Hi & Hne).
  unfold push_back_unchecked. rewrite Hw. eexists. split; [done|]. unfold incr_tail_len. cbn [queue next qlen]. rewrite Hcap. split; [|done].
  rewrite !Nat.add_1_r, Hl.
  assert (Hs : forall i, i < length l -> slot (capacity (queue q)) (if S (next q) =? capacity (queue q) then 0 else S (next q)) (S (length l)) i
     = slot (capacity (queue q)) (next q) (length l) i).
  { intros i Hil. destruct (Nat.eqb_spec (S (next q)) (capacity (queue q))); slots. }
  split; cbn [queue next qlen]; rewrite ?length_app, ?Nat.add_1_r, ?Hcap.
  - done.
  - lia.
  - destruct (Nat.eqb_spec (S (next q)) (capacity (queue q))); lia.
  - intros i y [Hy|(Hge & Hy)]%lookup_app_Some.
    + apply lookup_lt_Some in Hy as Hil. rewrite Hs by done. rewrite Hne; [by apply Hx|]. slots.
    + apply list_lookup_singleton_Some in Hy as [Hi0 <-]. replace i with (length l) by lia.
      rewrite <- Hi. f_equal. destruct (Nat.eqb_spec (S (next q)) (capacity (queue q))); slots.
Qed.
Lemma push_back_spec q l x : holds q l ->
  exists q', push_back x q = (q', if length l =? capacity (queue q) then Err x else Ok tt)
    /\ holds q' (if length l =? capacity (queue q) then l else l ++ [x]) /\ capacity (queue q') = capacity (queue q).
Proof.
  intros Hq. unfold push_back. rewrite (is_full_spec _ _ Hq).
  destruct (Nat.eqb_spec (length l) (capacity (queue q))); [by exists q|].
  apply push_back_unchecked_spec; [done|]. pose proof (holds_cap _ _ Hq). lia.
Qed.

Lemma front_mut_spec {E} f q l : holds q l ->
  exists q', front_mut (E := E) f q = (q', Ok (negb (bool_decide (l = []))))
    /\ holds q' (match l with [] => [] | x :: l => f x :: l end) /\ capacity (queue q') = capacity (queue q).
Proof.
  intros Hq. unfold front_mut. rewrite (is_empty_spec _ _ Hq). destruct l as [|x l]; [by exists q|]. simpl.
  pose proof Hq as [Hl Hc Hn Hx]. simpl in Hl, Hc.
  set (i0 := slot (capacity (queue q)) (next q) (length (x :: l)) 0). assert (Hi0 : i0 < capacity (queue q)) by (subst i0; cbn [length]; slots).
  destruct (write_cell (E := E) (queue q) i0 (f x) Hi0) as (c & Hw & Hcap & Hi & Hne).
  exists (mkBounded c (next q) (qlen q)). unfold front_mut_unchecked. unfold mbind at 1, M_bind.
  rewrite (front_idx_spec _ _ Hq). cbn [mbind outcome_bind]. rewrite get_cell, (Hx 0 x eq_refl). cbn [mbind outcome_bind unwrap]. fold i0. rewrite Hw.
  split; [done|]. split; [|done]. split; simpl; rewrite ?Hcap; [done|done|done|].
  intros [|i] y Hy; simpl in Hy.
  - injection Hy as <-. exact Hi.
  - apply lookup_lt_Some in Hy as Hil. rewrite Hne; [exact (Hx (S i) y Hy)|]. subst i0. slots.
Qed.

Lemma truncate_spec {E} n q l : holds q l ->
  exists q', truncate (E := E) n q = (q', Ok tt) /\ holds q' (take n l) /\ capacity (queue q') = capacity (queue q).
Proof.
  intros Hq. pose proof Hq as [Hl Hc Hn Hx]. unfold truncate. rewrite Hl. destruct (Nat.ltb_spec n (length l)).
  - unfold nat_sub. rewrite (proj2 (Nat.leb_le (length l - n) (capacity (queue q) + next q))) by lia.
    assert (Hk : forall k, k = (if next q <? length l - n then capacity (queue q) + next q - (length l - n) else next q - (length l - n)) ->
      holds (mkBounded (queue q) k n) (take n l)).
    { intros k Hk. assert (k < capacity (queue q)) by (destruct (Nat.ltb_spec (next q) (length l - n)); lia).
      split; simpl; rewrite ?length_take, ?(Nat.min_l n) by lia; [done|lia|lia|].
      intros i y Hy. apply lookup_take_Some in Hy as [Hy Hi]. rewrite <- (Hx i y Hy). f_equal.
      destruct (Nat.ltb_spec (next q) (length l - n)); slots. }
    destruct (Nat.ltb_spec (next q) (length l - n)); eexists; (split; [done|]); (split; [by apply Hk|done]).
  - exists q. rewrite take_ge by lia. done.
Qed.

Lemma clear_loop_spec {E} fuel q l : holds q l -> length l < fuel ->
  exists q', clear_loop (E := E) fuel q = (q', Ok tt) /\ capacity (queue q') = capacity (queue q).
Proof.
  revert q l. induction fuel as [|fuel IH]; intros q l Hq Hf; [lia|]. simpl.
  destruct (pop_front_spec (E := E) q l Hq) as (q1 & Hp & Hq1 & Hc). rewrite (bind_ok _ _ _ _ _ Hp).
  destruct l as [|x l]; simpl in *; [by exists q1|]. destruct (IH q1 l Hq1 ltac:(lia)) as (q2 & H2 & Hc2).
  exists q2. split; [done|]. by rewrite Hc2.
Qed.
Lemma clear_spec {E} q l : holds q l ->
  exists q', clear (E := E) q = (q', Ok tt) /\ holds q' [] /\ capacity (queue q') = capacity (queue q).
Proof.
  intros Hq. unfold clear. destruct (clear_loop_spec (E := E) (S (qlen q)) q l Hq) as (q' & Hc & Hcap).
  { rewrite (holds_len _ _ Hq). lia. }
  rewrite (bind_ok _ _ _ _ _ Hc). eexists. split; [done|]. split; [|done]. split; simpl; [done|lia|lia|done].
Qed.

Lemma iter_collect_spec {E} fuel q l k : holds q l -> k <= length l -> k < fuel ->
  iter_collect (E := E) fuel (mkIter (queue q) (next q) k) = Ok (drop (length l - k) l).
Proof.
  intros Hq. revert k. induction fuel as [|fuel IH]; intros k Hk Hf; [lia|]. cbn [iter_collect]. unfold iter_next.
  cbn [it_queue it_tail it_len]. destruct k as [|k]; cbn [Nat.eqb mbind outcome_bind]; [by rewrite Nat.sub_0_r, drop_all|].
  pose proof (holds_cap _ _ Hq) as Hc. destruct (lookup_lt_is_Some_2 l (length l - S k) ltac:(lia)) as [x Hx].
  pose proof (holds_cell _ _ Hq _ _ Hx) as Hcell.
  assert (Hs : (if S k <=? next q then Ok (next q - S k) else nat_sub (capacity (queue q) + next q) (S k))
               = Ok (E := E) (slot (capacity (queue q)) (next q) (length l) (length l - S k))).
  { unfold nat_sub, slot. destruct (Nat.leb_spec (S k) (next q)) as [|Hgt].
    - rewrite (proj2 (Nat.leb_le _ _)) by lia. f_equal. lia.
    - rewrite (proj2 (Nat.leb_le _ _)) by lia. rewrite (proj2 (Nat.leb_gt _ _)) by lia. f_equal. lia. }
  rewrite Hs. cbn [mbind outcome_bind]. rewrite get_cell, Hcell. simpl. rewrite Nat.sub_0_r, IH by lia. simpl.
  rewrite (drop_S l x (length l - S k) Hx). do 2 f_equal. f_equal. lia.
Qed.
Lemma items_spec {E} q l : holds q l -> items (E := E) q = Ok l.
Proof.
  intros Hq. unfold items, iter. rewrite (holds_len _ _ Hq), (iter_collect_spec _ _ l) by (done || lia).
  by rewrite Nat.sub_diag.
Qed.
End Refinement.

(** ** Sequences of operations *)

Section Sequences.
Context {T : Type}.

Inductive QueueOp : Type :=
| PushBack (x : T) | PopFront | Front | FrontMut (f : T -> T) | Truncate (n : nat) | Clear
| Items | IsEmpty | IsFull.
Inductive QueueOut : Type :=
| Pushed (refused : option T) | Item (o : option T) | All (l : list T) | Flag (b : bool) | Done.

(** What a client sees: a list of at most [c] items. *)
Definition spec_op (c : nat) (o : QueueOp) (l : list T) : list T * QueueOut :=
  match o with
  | PushBack x => if length l =? c then (l, Pushed (Some x)) else (l ++ [x], Pushed None)
  | PopFront => (tail l, Item (head l))
  | Front => (l, Item (head l))
  | FrontMut f => (match l with [] => [] | x :: l => f x :: l end, Flag (negb (bool_decide (l = []))))
  | Truncate n => (take n l, Done)
  | Clear => ([], Done)
  | Items => (l, All l)
  | IsEmpty => (l, Flag (bool_decide (l = [])))
  | IsFull => (l, Flag (length l =? c))
  end.
Fixpoint spec_run (c : nat) (os : list QueueOp) (l : list T) : list T * list QueueOut :=
  match os with
  | [] => (l, [])
  | o :: os =>
      let '(l, r) := spec_op c o l in
      let '(l, rs) := spec_run c os l in (l, r :: rs)
  end.

Context {Q : Type} `{Queueable Q T}.

(** The same operation on the ring buffer. *)
Definition queue_op (o : QueueOp) : M (Bounded Q) False QueueOut := fun q =>
  match o with
  | PushBack x =>
      match push_back x q with
      | (q, Ok _) => (q, Ok (Pushed None))
      | (q, Err x) => (q, Ok (Pushed (Some x)))
      | (q, Panic) => (q, Panic)
      end
  | PopFront => (x ← pop_front; mret (Item x)) q
  | Front => (q, Item <$> front q)
  | FrontMut f => (b ← front_mut f; mret (Flag b)) q
  | Truncate n => (truncate n ;; mret Done) q
  | Clear => (clear ;; mret Done) q
  | Items => (q, All <$> items q)
  | IsEmpty => (q, Ok (Flag (is_empty q)))
  | IsFull => (q, Ok (Flag (is_full q)))
  end.
Fixpoint queue_run (os : list QueueOp) : M (Bounded Q) False (list QueueOut) :=
  match os with
  | [] => mret []
  | o :: os => r ← queue_op o; rs ← queue_run os; mret (r :: rs)
  end.
End Sequences.
Arguments QueueOp : clear implicits.
Arguments QueueOut : clear implicits.

Section Runs.
Context {Q T : Type} `{QueueableLaws Q T}.

Lemma queue_op_refines (o : QueueOp T) (q : Bounded Q) l : holds q l ->
  exists q', queue_op o q = (q', Ok (spec_op (capacity (queue q)) o l).2)
    /\ holds q' (spec_op (capacity (queue q)) o l).1 /\ capacity (queue q') = capacity (queue q).
Proof.
  intros Hq. destruct o as [x| | |f|n| | | |]; cbn [queue_op spec_op].
  - destruct (push_back_spec q l x Hq) as (q' & -> & ?). exists q'. by destruct (_ =? _).
  - destruct (pop_front_spec (E := False) q l Hq) as (q' & Hp & ?). exists q'. by rewrite (bind_ok _ _ _ _ _ Hp).
  - exists q. by rewrite (front_spec q l).
  - destruct (front_mut_spec (E := False) f q l Hq) as (q' & Hp & ?). exists q'. by rewrite (bind_ok _ _ _ _ _ Hp).
  - destruct (truncate_spec (E := False) n q l Hq) as (q' & Hp & ?). exists q'. by rewrite (bind_ok _ _ _ _ _ Hp).
  - destruct (clear_spec (E := False) q l Hq) as (q' & Hp & ?). exists q'. by rewrite (bind_ok _ _ _ _ _ Hp).
  - exists q. by rewrite (items_spec q l).
  - exists q. by rewrite (is_empty_spec q l).
  - exists q. by rewrite (is_full_spec q l).
Qed.

Lemma queue_run_refines os (q : Bounded Q) l : holds q l ->
  exists q', queue_run os q = (q', Ok (spec_run (capacity (queue q)) os l).2)
    /\ holds q' (spec_run (capacity (queue q)) os l).1 /\ capacity (queue q') = capacity (queue q).
Proof.
  revert q l. induction os as [|o os IH]; intros q l Hq; [by exists q|]. simpl.
  destruct (queue_op_refines o q l Hq) as (q1 & Ho & Hq1 & Hc). rewrite (bind_ok _ _ _ _ _ Ho).
  destruct (spec_op (capacity (queue q)) o l) as [l1 r1]. simpl in *.
  destruct (IH q1 l1 Hq1) as (q2 & Hr & Hq2). rewrite (bind_ok _ _ _ _ _ Hr). rewrite Hc in *. exists q2.
  by destruct (spec_run (capacity (queue q)) os l1).
Qed.
End Runs.

(** C34: Over any cells that keep the contract of [Queueable] -- the array of possibly
    uninitialised cells and the allocation both do -- every sequence of operations on a new
    queue of capacity [n] runs without touching a dead cell and answers as a list bounded by
    [n] does: items come out in the order they went in, a push into a full queue gives the
    item back. *)
Theorem bound_queue_refines {Q T} `{QueueableLaws Q T} (n : nat) (os : list (QueueOp T)) :
  exists q : Bounded Q, queue_run os (queue_new n) = (q, Ok (spec_run n os []).2)
    /\ items (E := False) q = Ok (spec_run n os []).1 /\ length (spec_run n os []).1 <= n.
Proof.
  destruct (queue_run_refines os (queue_new n) [] (new_holds n)) as (q & Hr & Hq & Hc). simpl in *.
  rewrite capacity_uninit in *. exists q. split; [done|]. split; [by apply items_spec|].
  pose proof (holds_cap _ _ Hq) as Hle. by rewrite Hc in Hle.
Qed.
Lemma bound_queue_refines_witness :
  let os := [PushBack 1%Z; PushBack 2%Z; PushBack 3%Z; PopFront; PushBack 4%Z; FrontMut Z.opp; Items; Truncate 1; PushBack 5%Z] in
  (queue_run os (queue_new (Q := StackCells Z) 2)).2 =
    Ok [Pushed None; Pushed None; Pushed (Some 3%Z); Item (Some 1%Z); Pushed None; Flag true; All [(-2)%Z; 4%Z]; Done; Pushed None]
  /\ (exists q, queue_run os (queue_new (Q := StackCells Z) 2) = (q, Ok (spec_run 2 os []).2)
        /\ items (E := False) q = Ok [(-2)%Z; 5%Z] /\ 2 <= 2)
  /\ (exists q, queue_run os (queue_new (Q := HeapQueueInner Z) 2) = (q, Ok (spec_run 2 os []).2)
        /\ items (E := False) q = Ok [(-2)%Z; 5%Z] /\ 2 <= 2).
Proof.
  intros os. split; [vm_compute; reflexivity|]. split.
  - exact (bound_queue_refines (Q := StackCells Z) 2 os).
  - exact (bound_queue_refines (Q := HeapQueueInner Z) 2 os).
Defined.
