(* ===== verification/BufList.v ===== *)
(** * Lists of buffers (unsafe_collection/src/bytes/buf_list.rs, uninit.rs)

    [BufList] queues buffers in a bounded ring and is itself a buffer: it keeps the number of
    bytes left, drops the front buffers as they are consumed and fills a vector of slices for
    vectored writes.  The [Buf] trait is the bytes crate's; its documented contract is a class
    of laws, and what the list does is stated on the bytes a buffer has left ([view]). *)

From S2P Require Import Prelude BoundQueue.

Local Open Scope nat_scope.

(** ** Buffers *)

(** [remaining], [chunk], [advance] and [copy_to_bytes] of the bytes crate's [Buf]. *)
Class Buf (B : Type) : Type := {
  remaining : B -> nat;
  chunk : B -> bytes;
  advance {E} : nat -> M B E unit;
  copy_to_bytes {E} : nat -> M B E bytes;
}.
#[global] Hint Mode Buf ! : typeclass_instances.
Class BufLaws (B : Type) `{Buf B} : Type := {
  view : B -> bytes;
  remaining_view b : remaining b = length (view b);
  chunk_view b : exists r, view b = chunk b ++ r;
  chunk_more b : view b <> [] -> chunk b <> [];
  advance_view {E} n b : n <= remaining b -> exists b', advance (E := E) n b = (b', Ok tt) /\ view b' = drop n (view b);
  copy_view {E} n b : n <= remaining b ->
    exists b', copy_to_bytes (E := E) n b = (b', Ok (take n (view b))) /\ view b' = drop n (view b);
}.
#[global] Hint Mode BufLaws ! - : typeclass_instances.

(** [ChunkVectoredUninit]: the slices written to a destination of [room] entries. *)
Class ChunkVectoredUninit (B : Type) : Type :=
  chunks_vectored_uninit : forall E, nat -> B -> outcome E (list bytes).
Arguments chunks_vectored_uninit {B _ E} room b : rename.
#[global] Hint Mode ChunkVectoredUninit ! : typeclass_instances.
Record vector_of (room : nat) (l : bytes) (cs : list bytes) : Prop := {
  vector_room : length cs <= room;
  vector_view : exists r, l = concat cs ++ r;
  vector_full : length cs < room -> l = concat cs;
  vector_nonempty : Forall (fun c => c <> []) cs;
}.
Class VectoredLaws (B : Type) `{BufLaws B, ChunkVectoredUninit B} : Prop :=
  chunks_vector : forall E room (b : B), exists cs, chunks_vectored_uninit (E := E) room b = Ok cs /\ vector_of room (view b) cs.

(** [bm.put(self.take(len))]: chunk by chunk, each consumed from the source.  This is also how
    the trait provides [copy_to_bytes]. *)
Fixpoint copy_loop {S E} (chunk : S -> outcome E bytes) (advance : nat -> M S E unit) (fuel len : nat) (bm : bytes) : M S E bytes :=
  if len =? 0 then mret bm
  else
    match fuel with
    | O => panic
    | S fuel =>
        s ← get;
        c ← lift (chunk s);
        let piece := take len c in
        advance (length piece) ;;
        copy_loop chunk advance fuel (len - length piece) (bm ++ piece)
    end.
Section Copy.
Context {S E : Type} (chunk : S -> outcome E bytes) (advance : nat -> M S E unit) (rep : S -> bytes -> Prop).
Context (Hchunk : forall s l, rep s l -> exists c r, chunk s = Ok c /\ l = c ++ r /\ (l <> [] -> c <> [])).
Context (Hadv : forall s l n, rep s l -> n <= length l -> exists s', advance n s = (s', Ok tt) /\ rep s' (drop n l)).
Lemma copy_loop_spec fuel len bm s l : rep s l -> len <= length l -> len <= fuel ->
  exists s', copy_loop chunk advance fuel len bm s = (s', Ok (bm ++ take len l)) /\ rep s' (drop len l).
Proof.
  revert len bm s l. induction fuel as [|fuel IH]; intros len bm s l Hs Hl Hf.
  { replace len with 0 by lia. exists s. simpl. by rewrite drop_0, take_0, app_nil_r. }
  simpl. destruct (Nat.eqb_spec len 0) as [->|Hne]; [exists s; by rewrite drop_0, take_0, app_nil_r|].
  destruct (Hchunk s l Hs) as (c & r & Hc & -> & Hcne). unfold mbind at 1, M_bind. simpl.
  unfold mbind at 1, M_bind, lift. rewrite Hc.
  assert (Hk : 0 < length (take len c)).
  { rewrite length_take. destruct c as [|? c]; [|simpl; lia]. exfalso. apply Hcne; [|done]. destruct r; [simpl in *; lia|done]. }
  pose proof (length_take_le c len) as Hle.
  set (k := length (take len c)) in *. assert (Hkl : k <= len /\ k <= length c) by (subst k; rewrite length_take; lia).
  destruct (Hadv s (c ++ r) k Hs) as (s1 & Ha & Hs1); [rewrite length_app; lia|].
  rewrite (bind_ok _ _ _ _ _ Ha).
  destruct (IH (len - k) (bm ++ take len c) s1 (drop k (c ++ r)) Hs1) as (s2 & Hc2 & Hs2).
  { rewrite length_drop. lia. }
  { lia. }
  exists s2. rewrite Hc2, <- app_assoc. split.
  - do 3 f_equal. replace len with (k + (len - k)) at 3 by lia. rewrite <- take_take_drop. f_equal.
    rewrite take_app_le by lia. subst k. rewrite length_take. destruct (decide (len <= length c)).
    + by rewrite Nat.min_l.
    + rewrite Nat.min_r, !take_ge by lia. done.
  - rewrite drop_drop in Hs2. by replace (k + (len - k)) with len in Hs2 by lia.
Qed.
End Copy.

(** [Bytes] and [&[u8]]. *)
#[global] Instance bytes_buf : Buf bytes := {
  remaining b := length b;
  chunk b := b;
  advance E n b := if n <=? length b then (drop n b, Ok tt) else (b, Panic);
  copy_to_bytes E n b := if n <=? length b then (drop n b, Ok (take n b)) else (b, Panic);
}.
#[global] Program Instance bytes_laws : BufLaws bytes := { view b := b }.
Next Obligation. done. Qed.
Next Obligation. intros b. exists []. simpl. by rewrite app_nil_r. Qed.
Next Obligation. done. Qed.
Next Obligation. intros E n b Hn. simpl in *. rewrite (proj2 (Nat.leb_le _ _)) by done. by eexists. Qed.
Next Obligation. intros E n b Hn. simpl in *. rewrite (proj2 (Nat.leb_le _ _)) by done. by eexists. Qed.
#[global] Instance bytes_vectored : ChunkVectoredUninit bytes := fun E room b =>
  if room =? 0 then Ok [] else if 0 <? remaining b then Ok [chunk b] else Ok [].
#[global] Instance bytes_vectored_laws : VectoredLaws bytes.
Proof.
  intros E [|room] b; unfold chunks_vectored_uninit, bytes_vectored; simpl.
  - exists []. split; [done|]. split; simpl; [lia|by exists b|lia|constructor].
  - destruct b as [|x b]; simpl.
    + exists []. split; [done|]. split; simpl; [lia|by exists []|done|constructor].
    + exists [x :: b]. split; [done|]. split; simpl; rewrite ?app_nil_r; [lia|exists []; by rewrite app_nil_r|done|by constructor].
Qed.

Inductive EitherBuf (L R : Type) : Type := Left (l : L) | Right (r : R).
Arguments Left {L R} l.
Arguments Right {L R} r.
Section Either.
Context {L R : Type} `{BufLaws L, BufLaws R}.
Definition either_remaining (b : EitherBuf L R) : nat := match b with Left b => remaining b | Right b => remaining b end.
Definition either_chunk (b : EitherBuf L R) : bytes := match b with Left b => chunk b | Right b => chunk b end.
Definition either_advance {E} (n : nat) : M (EitherBuf L R) E unit := fun b =>
  match b with
  | Left b => let '(b, r) := advance n b in (Left b, r)
  | Right b => let '(b, r) := advance n b in (Right b, r)
  end.
#[global] Instance either_buf : Buf (EitherBuf L R) := {
  remaining := either_remaining;
  chunk := either_chunk;
  advance E := either_advance;
  copy_to_bytes E n := fun b =>
    if n <=? either_remaining b then copy_loop (fun b => Ok (either_chunk b)) either_advance n n [] b else (b, Panic);
}.
Definition either_view (b : EitherBuf L R) : bytes := match b with Left b => view b | Right b => view b end.
Lemma either_advance_view {E} n (b : EitherBuf L R) : n <= length (either_view b) ->
  exists b', either_advance (E := E) n b = (b', Ok tt) /\ either_view b' = drop n (either_view b).
Proof.
  destruct b as [b|b]; simpl; rewrite <- remaining_view; intros Hn;
    destruct (advance_view (E := E) n b Hn) as (b' & -> & Hv); by eexists.
Qed.
Lemma either_chunk_view (b : EitherBuf L R) :
  exists r, either_view b = either_chunk b ++ r /\ (either_view b <> [] -> either_chunk b <> []).
Proof. destruct b as [b|b]; simpl; destruct (chunk_view b) as [r Hr]; exists r; (split; [done|apply chunk_more]). Qed.
#[global] Program Instance either_laws : BufLaws (EitherBuf L R) := { view := either_view }.
Next Obligation. intros [b|b]; apply (remaining_view b). Qed.
Next Obligation. intros b. destruct (either_chunk_view b) as (r & ? & _). by exists r. Qed.
Next Obligation. intros b. by destruct (either_chunk_view b) as (r & _ & ?). Qed.
Next Obligation.
  intros E n b Hn. apply either_advance_view. destruct b as [b|b]; simpl in *; by rewrite <- remaining_view.
Qed.
Next Obligation.
  intros E n b Hn. simpl in *. rewrite (proj2 (Nat.leb_le _ _)) by done.
  refine (copy_loop_spec _ _ (fun b l => either_view b = l) _ _ n n [] b _ eq_refl _ _); [| | |done].
  - intros s l <-. destruct (either_chunk_view s) as (r & ? & ?). by exists (either_chunk s), r.
  - intros s l k <- Hk. by apply either_advance_view.
  - destruct b as [b|b]; simpl in *; by rewrite <- remaining_view.
Qed.
Context `{ChunkVectoredUninit L, ChunkVectoredUninit R}.
#[global] Instance either_vectored : ChunkVectoredUninit (EitherBuf L R) := fun E room b =>
  match b with Left b => chunks_vectored_uninit room b | Right b => chunks_vectored_uninit room b end.
#[global] Instance either_vectored_laws : VectoredLaws L -> VectoredLaws R -> VectoredLaws (EitherBuf L R).
Proof. intros HL HR E room [b|b]; [apply HL|apply HR]. Qed.
End Either.

(** The bytes crate's [Chain<T, U>]: a type [C] built from two buffers that it gives back and
    whose bytes are theirs in order. *)
Class Chain (T U C : Type) `{BufLaws T, BufLaws U, BufLaws C} : Type := {
  chain : T -> U -> C;
  first_ref : C -> T;
  last_ref : C -> U;
  chain_view t u : view (chain t u) = view t ++ view u;
  refs_view c : view c = view (first_ref c) ++ view (last_ref c);
}.
Lemma vector_app room l1 l2 cs1 cs2 :
  vector_of room l1 cs1 -> vector_of (room - length cs1) l2 cs2 -> vector_of room (l1 ++ l2) (cs1 ++ cs2).
Proof.
  intros [Hr1 [r1 Hv1] Hf1 Hn1] [Hr2 [r2 Hv2] Hf2 Hn2]. split.
  - rewrite length_app. lia.
  - rewrite concat_app. destruct (decide (length cs1 < room)) as [Hlt|Hge].
    + exists r2. rewrite (Hf1 Hlt) at 1. rewrite <- app_assoc. by f_equal.
    + assert (cs2 = []) as -> by (destruct cs2; [done|simpl in *; lia]).
      exists (r1 ++ l2). rewrite Hv1 at 1. simpl. by rewrite app_nil_r, app_assoc.
  - rewrite length_app, concat_app. intros Hlt. rewrite Hf1, Hf2 by lia. done.
  - by apply Forall_app.
Qed.

#[global] Hint Mode Chain - - ! - - - - - - : typeclass_instances.

Section Chained.
Context {T U C : Type} `{Chain T U C, ChunkVectoredUninit T, ChunkVectoredUninit U}.
(** [&mut dst[n..]] panics when more slices than room were reported. *)
Definition chain_vectored : ChunkVectoredUninit C := fun E room c =>
  cs ← chunks_vectored_uninit (E := E) room (first_ref (T := T) c);
  room ← nat_sub room (length cs);
  cs' ← chunks_vectored_uninit room (last_ref (U := U) c);
  Ok (cs ++ cs').
Lemma chain_vectored_laws : VectoredLaws T -> VectoredLaws U -> VectoredLaws (H1 := chain_vectored) C.
Proof.
  intros HT HU E room c. unfold chunks_vectored_uninit at 1. unfold chain_vectored.
  destruct (HT E room (first_ref (T := T) c)) as (cs1 & Hc1 & Hv1). rewrite Hc1. simpl.
  unfold nat_sub. rewrite (proj2 (Nat.leb_le _ _)) by apply Hv1. simpl.
  destruct (HU E (room - length cs1) (last_ref (U := U) c)) as (cs2 & Hc2 & Hv2). rewrite Hc2. simpl.
  exists (cs1 ++ cs2). split; [done|]. rewrite refs_view. by apply vector_app.
Qed.
End Chained.

(** ** The list *)

Record BufList (B : Type) : Type := mkBufList { bufs : Bounded (HeapQueueInner B); bl_remaining : nat }.
Arguments mkBufList {B} _ _.
Arguments bufs {B} _.
Arguments bl_remaining {B} _.

Section List.
Context {B : Type} `{Buf B}.
Abbreviation Bufs := (Bounded (HeapQueueInner B)).
Implicit Types bl : BufList B.

Definition buf_list_new (n : nat) : BufList B := mkBufList (queue_new n) 0.
Definition list_is_full bl : bool := is_full (bufs bl).
Definition list_is_empty bl : bool := is_empty (bufs bl).

(** An empty buffer fails the debug assertion, a full list the [expect]. *)
Definition list_push {E} (buf : B) : M (BufList B) E unit := fun bl =>
  if 0 <? remaining buf then
    let r := bl_remaining bl + remaining buf in
    match push_back buf (bufs bl) with
    | (q, Ok _) => (mkBufList q r, Ok tt)
    | (q, _) => (mkBufList q r, Panic)
    end
  else (bl, Panic).

Definition list_chunk {E} bl : outcome E bytes :=
  o ← front (bufs bl); Ok (match o with Some b => chunk b | None => [] end).

(** The effect of [m] on the front buffer [b], through the reference of [front_mut]. *)
Definition with_front {E A} (m : M B E A) (b : B) : M Bufs E A :=
  let '(b', r) := m b in front_mut (fun _ => b') ;; lift r.

(** [while cnt > 0]: every turn but the last drops a buffer. *)
Fixpoint advance_loop {E} (fuel cnt : nat) : M Bufs E unit :=
  if cnt =? 0 then mret tt
  else
    match fuel with
    | O => panic
    | S fuel =>
        q ← get;
        o ← lift (front q);
        b ← lift (unwrap o);
        let rem := remaining b in
        if cnt <? rem then with_front (advance cnt) b
        else
          with_front (advance rem) b ;;
          o ← pop_front;
          lift (unwrap o) ;;
          advance_loop fuel (cnt - rem)
    end.
Definition list_advance {E} (cnt : nat) : M (BufList B) E unit := fun bl =>
  if cnt <=? bl_remaining bl then
    let '(q, r) := advance_loop (S (qlen (bufs bl))) cnt (bufs bl) in
    (mkBufList q (bl_remaining bl - cnt), r)
  else (bl, Panic).

Context `{ChunkVectoredUninit B}.
(** The loop over the buffers, which stops when the destination is full. *)
Fixpoint vectored_loop {E} (room : nat) (l : list B) : outcome E (list bytes) :=
  match l with
  | [] => Ok []
  | b :: l =>
      cs ← chunks_vectored_uninit room b;
      room ← nat_sub room (length cs);
      if room =? 0 then Ok cs else cs' ← vectored_loop room l; Ok (cs ++ cs')
  end.
Definition list_vectored {E} (room : nat) bl : outcome E (list bytes) :=
  if room =? 0 then Panic else l ← items (bufs bl); vectored_loop room l.

(** [copy_to_bytes]: the front buffer alone when it is enough, or a copy piece by piece. *)
Definition list_copy_to_bytes {E} (len : nat) : M (BufList B) E bytes := fun bl =>
  match front (E := E) (bufs bl) with
  | Ok (Some b) =>
      if remaining b =? len then
        let '(q, r) := (c ← with_front (copy_to_bytes len) b; pop_front ;; mret c) (bufs bl) in
        (mkBufList q (bl_remaining bl - len), r)
      else if len <? remaining b then
        let '(q, r) := with_front (copy_to_bytes len) b (bufs bl) in
        (mkBufList q (bl_remaining bl - len), r)
      else if len <=? bl_remaining bl then copy_loop list_chunk list_advance len len [] bl
      else (bl, Panic)
  | Ok None => if len <=? bl_remaining bl then copy_loop list_chunk list_advance len len [] bl else (bl, Panic)
  | Err e => (bl, Err e)
  | Panic => (bl, Panic)
  end.
End List.

(** ** A list of buffers is a buffer *)

Section ListSpec.
Context {B : Type} `{BufLaws B}.
Implicit Types (bl : BufList B) (l : list B).

(** The bytes of the buffers, in order. *)
Definition views l : bytes := concat (view <$> l).
Record list_ok bl l : Prop := {
  list_holds : holds (bufs bl) l;
  list_remaining : bl_remaining bl = length (views l);
  list_nonempty : Forall (fun b => view b <> []) l;
}.
Definition list_capacity bl : nat := capacity (queue (bufs bl)).

Lemma views_cons b l : views (b :: l) = view b ++ views l.
Proof. done. Qed.
Lemma views_nil l : Forall (fun b => view b <> []) l -> views l = [] -> l = [].
Proof. destruct l as [|b l]; [done|]. rewrite views_cons. by intros [? _]%Forall_cons [? _]%app_nil. Qed.

Lemma buf_list_new_ok n : list_ok (buf_list_new n) [] /\ list_capacity (buf_list_new n) = n.
Proof. split; [|done]. split; [apply new_holds|done|constructor]. Qed.

Lemma list_is_empty_spec bl l : list_ok bl l -> list_is_empty bl = bool_decide (views l = []).
Proof.
  intros [Hq _ Hn]. unfold list_is_empty. rewrite (is_empty_spec _ l Hq).
  apply bool_decide_ext. split; [by intros ->|by apply views_nil].
Qed.
Lemma list_is_full_spec bl l : list_ok bl l -> list_is_full bl = (length l =? list_capacity bl).
Proof. intros [Hq _ _]. apply (is_full_spec _ l Hq). Qed.

Lemma list_push_spec {E} b bl l : list_ok bl l -> view b <> [] -> length l < list_capacity bl ->
  exists bl', list_push (E := E) b bl = (bl', Ok tt) /\ list_ok bl' (l ++ [b]) /\ list_capacity bl' = list_capacity bl.
Proof.
  intros [Hq Hr Hn] Hb Hc. unfold list_push, list_capacity in *.
  assert (0 < length (view b)) by (destruct (view b); [done|simpl; lia]).
  rewrite (proj2 (Nat.ltb_lt _ _)) by (rewrite remaining_view; lia).
  destruct (push_back_spec (bufs bl) l b Hq) as (q & Hp & Hq' & Hcap). rewrite Hp.
  destruct (Nat.eqb_spec (length l) (capacity (queue (bufs bl)))); [lia|].
  eexists. split; [done|]. split; [|done]. split; simpl; [done| |].
  - rewrite Hr, remaining_view. unfold views. rewrite fmap_app, concat_app. simpl. by rewrite app_nil_r, length_app.
  - apply Forall_app. split; [done|by constructor].
Qed.

Lemma list_chunk_spec {E} bl l : list_ok bl l ->
  exists c r, list_chunk (E := E) bl = Ok c /\ views l = c ++ r /\ (views l <> [] -> c <> []).
Proof.
  intros [Hq _ Hn]. unfold list_chunk. rewrite (front_spec _ l Hq). simpl. destruct l as [|b l].
  - by exists [], [].
  - apply Forall_cons in Hn as [Hb _]. destruct (chunk_view b) as [r Hr]. exists (chunk b), (r ++ views l).
    split; [done|]. rewrite views_cons, Hr at 1. rewrite <- app_assoc. split; [done|]. intros _. by apply chunk_more.
Qed.

Lemma with_front_spec {E A} (m : M B E A) b b' r q l : holds q (b :: l) -> m b = (b', r) ->
  exists q', with_front m b q = (q', r) /\ holds q' (b' :: l) /\ capacity (queue q') = capacity (queue q).
Proof.
  intros Hq Hm. unfold with_front. rewrite Hm.
  destruct (front_mut_spec (E := E) (fun _ => b') q (b :: l) Hq) as (q' & Hf & Hq' & Hc).
  exists q'. rewrite (bind_ok _ _ _ _ _ Hf). done.
Qed.

Lemma advance_loop_spec {E} fuel cnt q l : holds q l -> Forall (fun b => view b <> []) l ->
  cnt <= length (views l) -> length l < fuel ->
  exists q' l', advance_loop (E := E) fuel cnt q = (q', Ok tt) /\ holds q' l' /\ Forall (fun b => view b <> []) l'
    /\ views l' = drop cnt (views l) /\ capacity (queue q') = capacity (queue q) /\ length l' <= length l.
Proof.
  revert cnt q l. induction fuel as [|fuel IH]; intros cnt q l Hq Hn Hc Hf; [lia|]. simpl.
  destruct (Nat.eqb_spec cnt 0) as [->|Hne]; [by exists q, l|].
  destruct l as [|b l]; [simpl in *; lia|]. apply Forall_cons in Hn as [Hb Hn].
  unfold mbind at 1, M_bind. simpl. unfold mbind at 1, M_bind, lift. rewrite (front_spec q _ Hq). simpl.
  unfold mbind at 1, M_bind. rewrite views_cons, length_app in *.
  destruct (Nat.ltb_spec cnt (remaining b)) as [Hlt|Hge]; rewrite remaining_view in *.
  - destruct (advance_view (E := E) cnt b) as (b' & Ha & Hv); [rewrite remaining_view; lia|].
    destruct (with_front_spec (advance cnt) b b' (Ok tt) q l Hq Ha) as (q' & Hw & Hq' & Hcap).
    exists q', (b' :: l). rewrite Hw, views_cons, Hv, drop_app_le by lia. split; [done|]. split; [done|].
    split; [|done]. constructor; [|done]. rewrite Hv. intros Hd%(f_equal length). rewrite length_drop in Hd. simpl in Hd. lia.
  - destruct (advance_view (E := E) (length (view b)) b) as (b' & Ha & Hv); [by rewrite remaining_view|].
    destruct (with_front_spec (advance (length (view b))) b b' (Ok tt) q l Hq Ha) as (q1 & Hw & Hq1 & Hcap1).
    rewrite (bind_ok _ _ _ _ _ Hw). destruct (pop_front_spec (E := E) q1 _ Hq1) as (q2 & Hp & Hq2 & Hcap2). simpl in *.
    rewrite (bind_ok _ _ _ _ _ Hp). unfold mbind at 1, M_bind. simpl.
    destruct (IH (cnt - length (view b)) q2 l Hq2 Hn) as (q3 & l3 & Ha3 & Hq3 & Hn3 & Hv3 & Hcap3 & Hl3); [lia|lia|].
    exists q3, l3. rewrite Ha3. split_and!; [done|done|done| |congruence|lia].
    rewrite Hv3, drop_app_ge by lia. done.
Qed.

Lemma list_advance_spec {E} cnt bl l : list_ok bl l -> cnt <= length (views l) ->
  exists bl' l', list_advance (E := E) cnt bl = (bl', Ok tt) /\ list_ok bl' l' /\ views l' = drop cnt (views l)
    /\ list_capacity bl' = list_capacity bl /\ length l' <= length l.
Proof.
  intros [Hq Hr Hn] Hc. unfold list_advance. rewrite Hr. rewrite (proj2 (Nat.leb_le _ _)) by done.
  destruct (advance_loop_spec (E := E) (S (qlen (bufs bl))) cnt (bufs bl) l Hq Hn Hc) as (q' & l' & -> & Hq' & Hn' & Hv & Hcap & Hl).
  { rewrite (holds_len _ _ Hq). lia. }
  exists (mkBufList q' (length (views l) - cnt)), l'. split; [done|]. split; [|done].
  split; simpl; [done|by rewrite Hv, length_drop|done].
Qed.

Lemma list_copy_spec {E} n bl l : list_ok bl l -> n <= length (views l) ->
  exists bl' l', list_copy_to_bytes (E := E) n bl = (bl', Ok (take n (views l))) /\ list_ok bl' l' /\ views l' = drop n (views l).
Proof.
  intros Hok Hn. assert (Hloop : exists bl' l', copy_loop (E := E) list_chunk list_advance n n [] bl = (bl', Ok (take n (views l)))
     /\ list_ok bl' l' /\ views l' = drop n (views l)).
  { destruct (copy_loop_spec (E := E) list_chunk list_advance (fun bl v => exists l, list_ok bl l /\ views l = v)) with
      (fuel := n) (len := n) (bm := @nil Z) (s := bl) (l := views l) as (bl' & Hc & l' & Hok' & Hv); try done.
    - intros s v (k & Hk & <-). by apply list_chunk_spec.
    - intros s v c (k & Hk & <-) Hc. destruct (list_advance_spec (E := E) c s k Hk Hc) as (s' & k' & Ha & Hk' & Hv & _).
      exists s'. split; [done|]. by exists k'.
    - by exists l.
    - by exists bl', l'. }
  pose proof Hok as [Hq Hr Hne]. unfold list_copy_to_bytes. rewrite (front_spec _ l Hq), Hr, (proj2 (Nat.leb_le _ _)) by done.
  destruct l as [|b l]; [exact Hloop|]. apply Forall_cons in Hne as [Hb Hne]. cbn [head].
  destruct (Nat.eqb_spec (remaining b) n) as [He|]; [|destruct (Nat.ltb_spec n (remaining b)) as [Hlt|]; [|exact Hloop]].
  - destruct (copy_view (E := E) n b ltac:(lia)) as (b' & Hc & Hv). rewrite remaining_view in He.
    destruct (with_front_spec (copy_to_bytes n) b b' _ _ l Hq Hc) as (q1 & Hw & Hq1 & _). rewrite (bind_ok _ _ _ _ _ Hw).
    destruct (pop_front_spec (E := E) q1 _ Hq1) as (q2 & Hp & Hq2 & _). rewrite (bind_ok _ _ _ _ _ Hp). simpl in Hq2.
    eexists _, l. rewrite views_cons, take_app_le, drop_app_ge by lia. rewrite <- He, Nat.sub_diag, drop_0. split; [done|]. split; [|done].
    split; simpl; [done|rewrite length_app; lia|done].
  - destruct (copy_view (E := E) n b ltac:(lia)) as (b' & Hc & Hv). rewrite remaining_view in Hlt.
    destruct (with_front_spec (copy_to_bytes n) b b' _ _ l Hq Hc) as (q1 & Hw & Hq1 & _). rewrite Hw.
    eexists _, (b' :: l). rewrite !views_cons, take_app_le, drop_app_le, Hv by lia. split; [done|]. split; [|done].
    split; simpl; [done| |].
    + rewrite views_cons, !length_app, Hv, length_drop. lia.
    + constructor; [|done]. rewrite Hv. intros Hd%(f_equal length). rewrite length_drop in Hd. simpl in Hd. lia.
Qed.

Context `{ChunkVectoredUninit B, !VectoredLaws B}.

Lemma vectored_loop_spec {E} room l : exists cs, vectored_loop (E := E) room l = Ok cs /\ vector_of room (views l) cs.
Proof.
  revert room. induction l as [|b l IH]; intros room; simpl.
  - exists []. split; [done|]. split; simpl; [lia|by exists []|done|constructor].
  - destruct (chunks_vector E room b) as (cs & -> & Hv). simpl. unfold nat_sub.
    rewrite (proj2 (Nat.leb_le _ _)) by apply Hv. simpl. rewrite views_cons.
    destruct (IH (room - length cs)) as (cs' & -> & Hv').
    destruct (Nat.eqb_spec (room - length cs) 0) as [Hz|].
    + exists cs. split; [done|]. pose proof (vector_app room _ (views l) cs [] Hv) as Happ. rewrite app_nil_r in Happ.
      apply Happ. rewrite Hz. split; simpl; [lia|by exists (views l)|lia|constructor].
    + exists (cs ++ cs'). split; [done|]. by apply vector_app.
Qed.

Lemma list_vectored_spec {E} room bl l : list_ok bl l -> 0 < room ->
  exists cs, list_vectored (E := E) room bl = Ok cs /\ vector_of room (views l) cs.
Proof.
  intros [Hq _ _] Hroom. unfold list_vectored. destruct (Nat.eqb_spec room 0); [lia|].
  rewrite (items_spec _ l Hq). apply vectored_loop_spec.
Qed.
End ListSpec.
