(* ===== verification/WriteBuffers.v ===== *)
(** * Write buffers (io/src/bytes.rs, http/src/util/buffered/buffer.rs, http/src/h1/proto/buf_write.rs)

    The dispatcher writes a response into a buffer and drains it into the socket.  The flat
    [WriteBuf] copies everything into one byte string; [ListWriteBuf] queues the buffers and
    writes them vectored.  Both are instances of one interface, whose contract says that the
    socket receives what was written, in order, and that a drained buffer has been flushed.
    The socket is any [io::Write]: it may take part of what it is given, block, or fail. *)

From S2P Require Import Prelude BoundQueue BufList H1Codec.

Local Open Scope nat_scope.

(** ** The socket ([io::Write]) *)

Inductive ErrorKind : Type := WouldBlock | WriteZero | UnexpectedEof | ConnectionReset | Interrupted | OtherKind (n : Z).
#[global] Instance ErrorKind_eq_dec : EqDecision ErrorKind.
Proof. solve_decision. Defined.

Class IoWrite (Io : Type) : Type := {
  io_write : bytes -> Io -> Io * outcome ErrorKind nat;
  io_write_vectored : list bytes -> Io -> Io * outcome ErrorKind nat;
  io_flush : Io -> Io * outcome ErrorKind unit;
}.
(** [accepted] is what the socket has taken, [flushed] what it had taken at the last
    successful flush.  A write takes a part of what it is offered or nothing; a non-blocking
    socket does not report an interrupted call. *)
Definition takes {Io} (accepted : Io -> bytes) (l : bytes) (io : Io) (r : Io * outcome ErrorKind nat) : Prop :=
  match r.2 with
  | Ok n => n <= length l /\ accepted r.1 = accepted io ++ take n l
  | Err e => e <> Interrupted /\ accepted r.1 = accepted io
  | Panic => False
  end.
Class IoWriteLaws (Io : Type) `{IoWrite Io} : Type := {
  accepted : Io -> bytes;
  flushed : Io -> bytes;
  write_takes l io : takes accepted l io (io_write l io);
  write_vectored_takes cs io : takes accepted (concat cs) io (io_write_vectored cs io);
  flush_law io :
    match io_flush io with
    | (io', Ok _) => accepted io' = accepted io /\ flushed io' = accepted io
    | (io', Err e) => e <> Interrupted /\ accepted io' = accepted io
    | (_, Panic) => False
    end;
}.
(** A finished operation: no panic, and no error that asks to try again. *)
Definition settled {A} (r : outcome ErrorKind A) : Prop := r <> Panic /\ r <> Err WouldBlock /\ r <> Err Interrupted.
Lemma settled_ok {A} (a : A) : settled (Ok a).
Proof. done. Qed.
Lemma settled_err e : e <> Interrupted -> settled (if decide (e = WouldBlock) then Ok tt else Err e).
Proof. intros He. unfold settled. destruct (decide _); [done|]. split_and!; congruence. Qed.

(** ** The interface ([BufInterest], [BufWrite], [H1BufWrite]) *)

(** A closure that writes into a byte buffer and may fail. *)
Definition Writer (E A : Type) : Type := bytes -> bytes * outcome E A.
Class WriteBuffer (W : Type) : Type := {
  want_write_buf : W -> bool;
  want_write_io : W -> bool;
  write_buf_head {E A} : Writer E A -> M W E A;
  write_buf_static {E} : bytes -> M W E unit;
  write_buf_bytes {E} : bytes -> M W E unit;
  write_bytes_chunked {E} : bytes -> M W E unit;
  do_io {Io} `{IoWrite Io} : M (W * Io) ErrorKind unit;
}.

(** Closures of the encoder only append. *)
Definition appends {E A} (f : Writer E A) (out : bytes) (r : outcome E A) : Prop :=
  forall buf, f buf = (buf ++ out, r).

(** A chunk of the chunked coding. *)
Definition chunked_piece (b : bytes) : bytes := hex_upper (len b) ++ CRLF ++ b ++ CRLF.

Lemma chunked_piece_nonempty b : chunked_piece b <> [].
Proof. unfold chunked_piece. by intros [_ ?]%app_nil. Qed.

(** What the operations of the socket keep. *)
Record io_keeps {Io} `{IoWrite Io} (P : Io -> Prop) : Prop := {
  keeps_write l io : P io -> P (io_write l io).1;
  keeps_vectored cs io : P io -> P (io_write_vectored cs io).1;
  keeps_flush io : P io -> P (io_flush io).1;
}.

(** A write appends or panics; with room for it and something to write it does not panic. *)
Definition writes {W E A} (pending : W -> bytes -> Prop) (room : bool) (p out : bytes) (a : A) (r : W * outcome E A) : Prop :=
  (r.2 = Panic \/ exists w', r = (w', Ok a) /\ pending w' (p ++ out)) /\ (room = true -> out <> [] -> r.2 <> Panic).
Class WriteBufferLaws (W : Type) `{WriteBuffer W} : Type := {
  pending : W -> bytes -> Prop;
  has_room : W -> bool;
  want_has_room w : want_write_buf w = true -> has_room w = true;
  static_writes {E} w p b : pending w p -> writes pending (has_room w) p b tt (write_buf_static (E := E) b w);
  bytes_writes {E} w p b : pending w p -> writes pending (has_room w) p b tt (write_buf_bytes (E := E) b w);
  chunked_writes {E} w p b : pending w p -> writes pending (has_room w) p (chunked_piece b) tt (write_bytes_chunked (E := E) b w);
  head_writes {E A} w p (f : Writer E A) out a : pending w p -> appends f out (Ok a) -> writes pending (has_room w) p out a (write_buf_head f w);
  write_head_error {E A} w p (f : Writer E A) out e : pending w p -> appends f out (Err e) ->
    exists w', write_buf_head f w = (w', Err e) /\ pending w' p;
  write_head_panic {E A} w (f : Writer E A) : (forall buf, (f buf).2 = Panic) -> (write_buf_head f w).2 = Panic;
  do_io_law {Io} `{IoWriteLaws Io} w p (io : Io) : pending w p -> want_write_io w = true ->
    exists w' io' p' r, do_io (w, io) = ((w', io'), r) /\ settled r /\ pending w' p'
      /\ accepted io' ++ p' = accepted io ++ p
      /\ (want_write_io w' = false -> p' = [] /\ flushed io' = accepted io');
  do_io_keeps {Io} `{IoWrite Io} (P : Io -> Prop) w io : io_keeps P -> P io -> P (do_io (w, io)).1.2;
}.
Lemma writes_ok {W E A} (pending : W -> bytes -> Prop) room p out (a : A) (r : W * outcome E A) :
  writes pending room p out a r -> room = true -> out <> [] -> exists w', r = (w', Ok a) /\ pending w' (p ++ out).
Proof. intros [[Hp|Hw] Hn] Hr Ho; [|done]. by destruct (Hn Hr Ho). Qed.
Lemma writes_intro {W E A} (pending : W -> bytes -> Prop) room p out (a : A) (r : W * outcome E A) :
  (exists w', r = (w', Ok a) /\ pending w' (p ++ out)) -> writes pending room p out a r.
Proof. intros (w' & -> & Hp). split; [right; by exists w'|done]. Qed.

(** ** The flat buffer *)

(** [<BytesMut as BufWrite>::write_buf]: an error takes the buffer back. *)
Definition bytes_mut_write_buf {E A} (f : Writer E A) : M bytes E A := fun buf =>
  let '(buf', r) := f buf in
  (match r with Err _ => take (length buf) buf' | _ => buf' end, r).

Record WriteBuf : Type := mkWriteBuf { wb_buf : bytes; wb_want_flush : bool }.
Definition write_buf_new : WriteBuf := mkWriteBuf [] false.
Definition write_buf_clear (w : WriteBuf) : WriteBuf := mkWriteBuf [] false.
Definition wb_want_write_io (w : WriteBuf) : bool := negb (bool_decide (wb_buf w = [])) || wb_want_flush w.
Definition wb_write_buf {E A} (f : Writer E A) : M WriteBuf E A := fun w =>
  let '(buf, r) := bytes_mut_write_buf f (wb_buf w) in
  (mkWriteBuf buf (match r with Ok _ => false | _ => wb_want_flush w end), r).

(** One turn of the loop either consumes bytes, or flushes and ends. *)
Fixpoint wb_io_loop {Io} `{IoWrite Io} (fuel : nat) : M (WriteBuf * Io) ErrorKind unit := fun s =>
  let '(w, io) := s in
  match fuel with
  | O => (s, Panic)
  | S fuel =>
      if wb_want_flush w then
        match io_flush io with
        | (io, Ok _) => ((mkWriteBuf (wb_buf w) false, io), Ok tt)
        | (io, Err e) => ((w, io), if decide (e = WouldBlock) then Ok tt else Err e)
        | (io, Panic) => ((w, io), Panic)
        end
      else
        match io_write (wb_buf w) io with
        | (io, Ok 0) => ((w, io), Err WriteZero)
        | (io, Ok n) =>
            let buf := drop n (wb_buf w) in
            if n <=? length (wb_buf w) then wb_io_loop fuel (mkWriteBuf buf (bool_decide (buf = [])), io)
            else ((w, io), Panic)
        | (io, Err e) => ((w, io), if decide (e = WouldBlock) then Ok tt else Err e)
        | (io, Panic) => ((w, io), Panic)
        end
  end.
Definition wb_do_io {Io} `{IoWrite Io} : M (WriteBuf * Io) ErrorKind unit := fun s =>
  wb_io_loop (length (wb_buf s.1) + 2) s.

(** [put_slice], and the default methods of [H1BufWrite] with it. *)
Definition put_slice {E} (b : bytes) : Writer E unit := fun buf => (buf ++ b, Ok tt).
Definition put_chunked {E} (b : bytes) : Writer E unit := fun buf => (write_buf_bytes_chunked buf b, Ok tt).

(** [WriteBuf<LIMIT>] of the http crate. *)
Record LimitedBuf (limit : nat) : Type := mkLimited { lim_buf : WriteBuf }.
Arguments mkLimited {limit} _.
Arguments lim_buf {limit} _.
Definition on_limited {limit E A} (m : M WriteBuf E A) : M (LimitedBuf limit) E A := fun w =>
  let '(b, r) := m (lim_buf w) in (mkLimited b, r).
#[global] Instance flat_buffer limit : WriteBuffer (LimitedBuf limit) := {
  want_write_buf w := length (wb_buf (lim_buf w)) <? limit;
  want_write_io w := wb_want_write_io (lim_buf w);
  write_buf_head E A f := on_limited (wb_write_buf f);
  write_buf_static E b := on_limited (wb_write_buf (put_slice b));
  write_buf_bytes E b := on_limited (wb_write_buf (put_slice b));
  write_bytes_chunked E b := on_limited (wb_write_buf (put_chunked b));
  do_io Io _ s :=
    let '(w, io) := s in
    let '((b, io), r) := wb_do_io (lim_buf w, io) in ((mkLimited b, io), r);
}.

Definition flat_pending (w : WriteBuf) (p : bytes) : Prop := wb_buf w = p /\ (wb_want_flush w = true -> p = []).

Lemma wb_write_spec {E A} (f : Writer E A) out a w p : flat_pending w p -> appends f out (Ok a) ->
  exists w', wb_write_buf f w = (w', Ok a) /\ flat_pending w' (p ++ out).
Proof.
  intros [<- _] Hf. unfold wb_write_buf, bytes_mut_write_buf. rewrite (Hf (wb_buf w)). by eexists.
Qed.
Lemma wb_write_error {E A} (f : Writer E A) out e w p : flat_pending w p -> appends f out (Err e) ->
  exists w', wb_write_buf f w = (w', Err e) /\ flat_pending w' p.
Proof.
  intros [<- Hp] Hf. unfold wb_write_buf, bytes_mut_write_buf. rewrite (Hf (wb_buf w)). eexists. split; [done|].
  split; simpl; [apply take_app_length|done].
Qed.

Lemma wb_io_loop_spec {Io} `{IoWriteLaws Io} fuel w p (io : Io) :
  flat_pending w p -> wb_want_write_io w = true -> length p + (if wb_want_flush w then 0 else 1) < fuel ->
  exists w' io' p' r, wb_io_loop fuel (w, io) = ((w', io'), r) /\ settled r /\ flat_pending w' p'
    /\ accepted io' ++ p' = accepted io ++ p
    /\ (wb_want_write_io w' = false -> p' = [] /\ flushed io' = accepted io').
Proof.
  revert w p io. induction fuel as [|fuel IH]; intros w p io Hp Hw Hf; [lia|]. simpl.
  destruct Hp as [<- Hp]. assert (Hp0 : flat_pending w (wb_buf w)) by done. destruct (wb_want_flush w) eqn:Hfl.
  - pose proof (flush_law io) as Hl. rewrite (Hp eq_refl). destruct (io_flush io) as [io' [u|e|]]; [| |done].
    + destruct Hl as [Ha Hfd]. eexists _, io', [], (Ok tt). split; [done|]. split; [done|]. rewrite Ha. repeat split; done.
    + destruct Hl as [Hi Hl]. eexists w, io', [], _. split; [done|]. split; [by apply settled_err|]. split; [by split; [apply Hp|]|]. rewrite Hl.
      split; [done|]. by rewrite Hw.
  - unfold wb_want_write_io in Hw. rewrite Hfl, orb_false_r in Hw. apply negb_true_iff, bool_decide_eq_false in Hw.
    pose proof (write_takes (wb_buf w) io) as Hl. unfold takes in Hl.
    assert (Hstuck : wb_want_write_io w = true) by (unfold wb_want_write_io; by rewrite bool_decide_eq_false_2).
    destruct (io_write (wb_buf w) io) as [io' [[|n]|e|]]; simpl in Hl; [| | |done].
    + destruct Hl as [_ Ha]. rewrite app_nil_r in Ha. exists w, io', (wb_buf w), (Err WriteZero). rewrite Hstuck, Ha. by split_and!.
    + destruct Hl as [Hn Ha]. change (match length (wb_buf w) with 0 => false | S m' => n <=? m' end) with (S n <=? length (wb_buf w)).
      rewrite (proj2 (Nat.leb_le _ _)) by done. change (match wb_buf w with [] => [] | _ :: l => drop n l end) with (drop (S n) (wb_buf w)).
      set (k := mkWriteBuf (drop (S n) (wb_buf w)) (bool_decide (drop (S n) (wb_buf w) = []))).
      destruct (IH k (drop (S n) (wb_buf w)) io') as (w' & io2 & p' & r & Hr & Hnp & Hp' & Hacc & Hdone).
      * split; [done|]. intros ?%bool_decide_eq_true. done.
      * unfold wb_want_write_io, k. simpl. by destruct (bool_decide _).
      * rewrite length_drop. destruct (wb_want_flush k); lia.
      * exists w', io2, p', r. split; [done|]. split; [done|]. split; [done|]. split; [|done].
        rewrite Hacc, Ha, <- app_assoc. f_equal. exact (take_drop (S n) (wb_buf w)).
    + destruct Hl as [Hi Hl]. exists w, io', (wb_buf w), (if decide (e = WouldBlock) then Ok tt else Err e). rewrite Hstuck, Hl.
      split; [done|]. split; [by apply settled_err|]. done.
Qed.

Lemma limited_writes {limit E A} (f : Writer E A) out a (w : LimitedBuf limit) p :
  flat_pending (lim_buf w) p -> appends f out (Ok a) ->
  writes (fun w => flat_pending (lim_buf w)) true p out a (on_limited (wb_write_buf f) w).
Proof.
  intros Hp Hf. destruct (wb_write_spec f out a _ p Hp Hf) as (w' & Hw & Hp'). apply writes_intro.
  exists (mkLimited w'). unfold on_limited. by rewrite Hw.
Qed.

Lemma wb_io_loop_keeps {Io} `{IoWrite Io} (P : Io -> Prop) fuel w io : io_keeps P -> P io -> P (wb_io_loop fuel (w, io)).1.2.
Proof.
  intros Hk. revert w io. induction fuel as [|fuel IH]; intros w io Hp; [done|]. cbn [wb_io_loop].
  pose proof (keeps_flush _ Hk io Hp) as Hf. pose proof (keeps_write _ Hk (wb_buf w) io Hp) as Hw.
  destruct (wb_want_flush w); [by destruct (io_flush io) as [io' []]|].
  destruct (io_write (wb_buf w) io) as [io' [[|n]|e|]]; simpl in *; try done. case_match; [by apply IH|done].
Qed.

#[global] Program Instance flat_laws limit : WriteBufferLaws (LimitedBuf limit) := {
  pending w := flat_pending (lim_buf w);
  has_room _ := true;
}.
Next Obligation. done. Qed.
Next Obligation. intros limit E w p b Hp. by apply limited_writes. Qed.
Next Obligation. intros limit E w p b Hp. by apply limited_writes. Qed.
Next Obligation. intros limit E w p b Hp. by apply limited_writes. Qed.
Next Obligation. intros limit E A w p f out a Hp Hf. by apply limited_writes. Qed.
Next Obligation.
  intros limit E A w p f out e Hp Hf. destruct (wb_write_error f out e _ p Hp Hf) as (w' & Hw & Hp').
  exists (mkLimited w'). simpl. unfold on_limited. by rewrite Hw.
Qed.
Next Obligation.
  intros limit E A w f Hf. simpl. unfold on_limited, wb_write_buf, bytes_mut_write_buf. specialize (Hf (wb_buf (lim_buf w))).
  destruct (f _) as [b r]. simpl in *. by subst r.
Qed.
Next Obligation.
  intros limit Io HI HL w p io Hp Hw.
  destruct (wb_io_loop_spec (length (wb_buf (lim_buf w)) + 2) (lim_buf w) p io Hp Hw) as (w' & io' & p' & r & Hr & H').
  { destruct Hp as [-> _]. destruct (wb_want_flush _); lia. }
  exists (mkLimited w'), io', p', r. simpl. unfold wb_do_io. simpl. by rewrite Hr.
Qed.
Next Obligation.
  intros limit Io HI P w io Hk Hp. simpl. unfold wb_do_io.
  pose proof (wb_io_loop_keeps P (length (wb_buf (lim_buf w)) + 2) (lim_buf w) io Hk Hp) as Hl. simpl.
  by destruct (wb_io_loop _ _) as [[? ?] ?].
Qed.

(** ** The list of buffers *)

Definition BUF_LIST_CNT : nat := 32.

Record ListWriteBuf (limit : nat) (B : Type) : Type := mkListBuf {
  lw_buf : bytes; lw_list : BufList B; lw_want_flush : bool }.
Arguments mkListBuf {limit B} _ _ _.
Arguments lw_buf {limit B} _.
Arguments lw_list {limit B} _.
Arguments lw_want_flush {limit B} _.

Section ListBuf.
Context {limit : nat} {B : Type} `{Buf B, ChunkVectoredUninit B}.
Abbreviation ListBuf := (ListWriteBuf limit B).

Definition list_buf_default : ListBuf := mkListBuf [] (buf_list_new BUF_LIST_CNT) false.

(** [buffer]: into the list; [split_buf] takes the temporary buffer out. *)
Definition list_buffer {E} (b : B) : M ListBuf E unit := fun w =>
  let '(l, r) := list_push b (lw_list w) in
  (mkListBuf (lw_buf w) l (match r with Ok _ => false | _ => lw_want_flush w end), r).
Definition split_buf {E} : M ListBuf E bytes := fun w =>
  (mkListBuf [] (lw_list w) (lw_want_flush w), Ok (lw_buf w)).

Definition lw_want_write_buf (w : ListBuf) : bool :=
  (bl_remaining (lw_list w) <? limit) && negb (list_is_full (lw_list w)).
Definition lw_want_write_io (w : ListBuf) : bool :=
  negb (bl_remaining (lw_list w) =? 0) || lw_want_flush w.

(** The temporary buffer is cleared when the closure fails. *)
Definition lw_write_buf {E A} (f : Writer E A) : M ListBuf E A := fun w =>
  let '(buf, r) := f (lw_buf w) in
  (mkListBuf (match r with Err _ => [] | _ => buf end) (lw_list w) (lw_want_flush w), r).

Definition write_zero (want_write : bool) : outcome ErrorKind unit :=
  if want_write then Err WriteZero else Panic.

Fixpoint lw_io_loop {Io} `{IoWrite Io} (fuel : nat) : M (ListBuf * Io) ErrorKind unit := fun s =>
  let '(w, io) := s in
  match fuel with
  | O => (s, Panic)
  | S fuel =>
      if lw_want_flush w then
        match io_flush io with
        | (io, Ok _) => ((mkListBuf (lw_buf w) (lw_list w) false, io), Ok tt)
        | (io, Err e) => ((w, io), if decide (e = WouldBlock) then Ok tt else Err e)
        | (io, Panic) => ((w, io), Panic)
        end
      else
        match list_vectored (E := ErrorKind) BUF_LIST_CNT (lw_list w) with
        | Ok slice =>
            match io_write_vectored slice io with
            | (io, Ok 0) => ((w, io), write_zero (lw_want_write_io w))
            | (io, Ok n) =>
                match list_advance (E := ErrorKind) n (lw_list w) with
                | (l, Ok _) => lw_io_loop fuel (mkListBuf (lw_buf w) l (if list_is_empty l then true else lw_want_flush w), io)
                | (l, Err e) => ((mkListBuf (lw_buf w) l (lw_want_flush w), io), Err e)
                | (l, Panic) => ((mkListBuf (lw_buf w) l (lw_want_flush w), io), Panic)
                end
            | (io, Err e) => ((w, io), if decide (e = WouldBlock) then Ok tt else Err e)
            | (io, Panic) => ((w, io), Panic)
            end
        | Err e => (s, Err e)
        | Panic => (s, Panic)
        end
  end.
Definition lw_do_io {Io} `{IoWrite Io} : M (ListBuf * Io) ErrorKind unit := fun s =>
  lw_io_loop (bl_remaining (lw_list s.1) + 2) s.
End ListBuf.

Section ListBufSpec.
Context {limit : nat} {B : Type} `{BufLaws B, ChunkVectoredUninit B, !VectoredLaws B}.
Abbreviation ListBuf := (ListWriteBuf limit B).

Record list_pending (w : ListBuf) (p : bytes) : Prop := {
  lp_buf : lw_buf w = [];
  lp_cap : list_capacity (lw_list w) = BUF_LIST_CNT;
  lp_list : exists l, list_ok (lw_list w) l /\ p = views l;
  lp_flush : lw_want_flush w = true -> p = [];
}.

Lemma list_buf_new_pending : list_pending list_buf_default [].
Proof.
  destruct (buf_list_new_ok (B := B) BUF_LIST_CNT) as [Hok Hc]. split; [done|exact Hc|by exists []|done].
Qed.

Lemma list_buffer_writes {E} b w p : list_pending w p ->
  writes list_pending (negb (list_is_full (lw_list w))) p (view b) tt (list_buffer (E := E) b w).
Proof.
  intros [Hb Hc (l & Hok & ->) _]. rewrite (list_is_full_spec _ l Hok).
  pose proof (holds_cap _ _ (list_holds _ _ Hok)) as Hle. change (length l <= list_capacity (lw_list w)) in Hle.
  assert (Hfail : view b = [] \/ length l = list_capacity (lw_list w) -> (list_buffer (E := E) b w).2 = Panic).
  { unfold list_buffer, list_push, push_back. rewrite (is_full_spec _ l (list_holds _ _ Hok)). intros [Hv|Hl].
    - by rewrite remaining_view, Hv.
    - unfold list_capacity in Hl. rewrite Hl, Nat.eqb_refl. by destruct (0 <? remaining b). }
  destruct (decide (view b = [])) as [Hv|Hv]; [by split; [left; auto|]|].
  destruct (Nat.eqb_spec (length l) (list_capacity (lw_list w))); [by split; [left; auto|]|]. apply writes_intro.
  unfold list_buffer. destruct (list_push_spec (E := E) b (lw_list w) l Hok Hv) as (bl & -> & Hok' & Hc'); [lia|].
  eexists. split; [done|]. split; simpl; [done|by rewrite Hc'| |done].
  exists (l ++ [b]). split; [done|]. unfold views. rewrite fmap_app, concat_app. simpl. by rewrite app_nil_r.
Qed.

Lemma lw_want_write_io_spec w p : list_pending w p -> lw_want_write_io w = negb (bool_decide (p = [])) || lw_want_flush w.
Proof.
  intros [_ _ (l & Hok & ->) _]. unfold lw_want_write_io. rewrite (list_remaining _ _ Hok). by destruct (views l).
Qed.

Lemma lw_io_loop_spec {Io} `{IoWriteLaws Io} fuel w p (io : Io) :
  list_pending w p -> lw_want_write_io w = true -> length p + (if lw_want_flush w then 0 else 1) < fuel ->
  exists w' io' p' r, lw_io_loop fuel (w, io) = ((w', io'), r) /\ settled r /\ list_pending w' p'
    /\ accepted io' ++ p' = accepted io ++ p
    /\ (lw_want_write_io w' = false -> p' = [] /\ flushed io' = accepted io').
Proof.
  revert w p io. induction fuel as [|fuel IH]; intros w p io Hp Hw Hf; [lia|]. simpl.
  destruct (lw_want_flush w) eqn:Hfl.
  - pose proof (lp_flush _ _ Hp Hfl) as ->. pose proof (flush_law io) as Hl. destruct (io_flush io) as [io' [u|e|]]; [| |done].
    + destruct Hl as [Ha Hfd]. eexists _, io', [], (Ok tt). split; [done|]. split; [done|]. rewrite Ha.
      split; [by destruct Hp; split|]. done.
    + destruct Hl as [Hi Hl]. exists w, io', [], (if decide (e = WouldBlock) then Ok tt else Err e). split; [done|]. split; [by apply settled_err|].
      rewrite Hl, Hw. done.
  - pose proof Hw as Hne. rewrite (lw_want_write_io_spec _ _ Hp), Hfl, orb_false_r in Hne. apply negb_true_iff, bool_decide_eq_false in Hne.
    pose proof Hp as [Hb Hc (l & Hok & ->) _].
    destruct (list_vectored_spec (E := ErrorKind) BUF_LIST_CNT (lw_list w) l Hok ltac:(unfold BUF_LIST_CNT; lia)) as (cs & -> & Hv).
    destruct (vector_view _ _ _ Hv) as [rest Hrest].
    pose proof (write_vectored_takes cs io) as Hl. unfold takes in Hl.
    destruct (io_write_vectored cs io) as [io' [[|n]|e|]]; simpl in Hl; [| | |done].
    + destruct Hl as [_ Ha]. rewrite app_nil_r in Ha. exists w, io', (views l), (Err WriteZero). rewrite Hw, Ha. done.
    + destruct Hl as [Hn Ha].
      destruct (list_advance_spec (E := ErrorKind) (S n) (lw_list w) l Hok) as (bl & l' & -> & Hok' & Hv' & Hc' & _).
      { rewrite Hrest, length_app. lia. }
      set (k := mkListBuf (lw_buf w) bl (if list_is_empty bl then true else false) : ListBuf).
      assert (Hk : list_pending k (views l')).
      { split; simpl; [done|by rewrite Hc'|by exists l'|]. rewrite (list_is_empty_spec bl l' Hok'). by case_bool_decide. }
      destruct (IH k (views l') io' Hk) as (w' & io2 & p' & r & Hr & Hnp & Hp' & Hacc & Hdone).
      * rewrite (lw_want_write_io_spec _ _ Hk). simpl. rewrite (list_is_empty_spec bl l' Hok'). by case_bool_decide.
      * rewrite Hv', length_drop. assert (0 < length (views l)) by (destruct (views l); [done|simpl; lia]). destruct (lw_want_flush k); lia.
      * exists w', io2, p', r. split; [done|]. split; [done|]. split; [done|]. split; [|done].
        rewrite Hacc, Ha, Hv', <- app_assoc. f_equal. change (take (S n) (concat cs) ++ drop (S n) (views l) = views l).
        rewrite <- (take_drop (S n) (views l)) at 2. f_equal. rewrite Hrest, take_app_le by lia. done.
    + destruct Hl as [Hi Hl]. exists w, io', (views l), (if decide (e = WouldBlock) then Ok tt else Err e). rewrite Hw, Hl.
      split; [done|]. split; [by apply settled_err|]. done.
Qed.

Lemma lw_io_loop_keeps {Io} `{IoWrite Io} (P : Io -> Prop) fuel (w : ListBuf) io : io_keeps P -> P io -> P (lw_io_loop fuel (w, io)).1.2.
Proof.
  intros Hk. revert w io. induction fuel as [|fuel IH]; intros w io Hp; [done|]. cbn [lw_io_loop].
  pose proof (keeps_flush _ Hk io Hp) as Hf. destruct (lw_want_flush w); [by destruct (io_flush io) as [io' []]|].
  destruct (list_vectored BUF_LIST_CNT (lw_list w)) as [cs|e|]; try done. pose proof (keeps_vectored _ Hk cs io Hp) as Hw.
  destruct (io_write_vectored cs io) as [io' [[|n]|e|]]; simpl in *; try done.
  destruct (list_advance (S n) (lw_list w)) as [l [u|e|]]; [by apply IH|done..].
Qed.
End ListBufSpec.

(** [Eof] is a chunk with its size line and its end: a chain of a chain. *)
Section H1List.
Context {C1 Eof : Type} `{BufLaws C1, BufLaws Eof, !Chain bytes bytes C1, !Chain C1 bytes Eof}.
Abbreviation EncodedBuf := (EitherBuf bytes (EitherBuf Eof bytes)).
#[local] Instance C1_vectored : ChunkVectoredUninit C1 := chain_vectored (T := bytes) (U := bytes).
#[local] Instance Eof_vectored : ChunkVectoredUninit Eof := chain_vectored (T := C1) (U := bytes).
#[local] Instance C1_vectored_laws : VectoredLaws C1.
Proof. apply (chain_vectored_laws (T := bytes) (U := bytes)); apply _. Qed.
#[local] Instance Eof_vectored_laws : VectoredLaws Eof.
Proof. apply (chain_vectored_laws (T := C1) (U := bytes)); apply _. Qed.

Context (limit : nat).
Abbreviation ListBuf := (ListWriteBuf limit EncodedBuf).

(** The head is written into the temporary buffer, which then moves to the list. *)
Definition lw_write_buf_head {E A} (f : Writer E A) : M ListBuf E A :=
  a ← lw_write_buf f;
  head ← split_buf;
  list_buffer (Left head) ;;
  mret a.
Definition lw_write_buf_bytes_chunked {E} (b : bytes) : M ListBuf E unit :=
  list_buffer (Right (Left (chain (C := Eof) (chain (C := C1) (hex_upper (len b) ++ CRLF) b) CRLF))).

#[global] Instance list_buffer_h1 : WriteBuffer ListBuf := {
  want_write_buf := lw_want_write_buf;
  want_write_io := lw_want_write_io;
  write_buf_head E A f := lw_write_buf_head f;
  write_buf_static E b := list_buffer (Right (Right b));
  write_buf_bytes E b := list_buffer (Left b);
  write_bytes_chunked E b := lw_write_buf_bytes_chunked b;
  do_io Io _ := lw_do_io;
}.

Lemma chunked_view (b : bytes) :
  view (Right (Left (chain (C := Eof) (chain (C := C1) (hex_upper (len b) ++ CRLF) b) CRLF)) : EncodedBuf) = chunked_piece b.
Proof. simpl. rewrite !chain_view. unfold chunked_piece. simpl. by rewrite <- !app_assoc. Qed.

#[global] Program Instance list_laws_h1 : WriteBufferLaws ListBuf := {
  pending := list_pending; has_room w := negb (list_is_full (lw_list w)) }.
Next Obligation. by intros w [_ ?]%andb_prop. Qed.
Next Obligation. intros E w p b Hp. exact (list_buffer_writes (Right (Right b) : EncodedBuf) w p Hp). Qed.
Next Obligation. intros E w p b Hp. exact (list_buffer_writes (Left b : EncodedBuf) w p Hp). Qed.
Next Obligation. intros E w p b Hp. rewrite <- chunked_view. exact (list_buffer_writes _ w p Hp). Qed.
Next Obligation.
  intros E A w p f out a Hp Hf. simpl. unfold lw_write_buf_head, lw_write_buf.
  pose proof (Hf (lw_buf w)) as Hfb. rewrite (lp_buf _ _ Hp) in Hfb. simpl in Hfb. unfold mbind at 1, M_bind. rewrite (lp_buf _ _ Hp), Hfb.
  unfold mbind at 1, M_bind. simpl.
  pose proof (list_buffer_writes (limit := limit) (E := E) (Left out : EncodedBuf) (mkListBuf [] (lw_list w) (lw_want_flush w)) p) as Hl.
  destruct Hl as [Hl Hn]; [by destruct Hp; split|]. unfold mbind, M_bind. split.
  - destruct Hl as [Hl|(w' & -> & Hp')]; [left|right; by exists w']. by destruct (list_buffer _ _) as [? []].
  - intros Hr Ho. specialize (Hn Hr Ho). by destruct (list_buffer _ _) as [? []].
Qed.
Next Obligation.
  intros E A w p f out e Hp Hf. simpl. unfold lw_write_buf_head, lw_write_buf. unfold mbind at 1, M_bind.
  rewrite (Hf (lw_buf w)). eexists. split; [done|]. by destruct Hp; split.
Qed.
Next Obligation.
  intros E A w f Hf. simpl. unfold lw_write_buf_head, lw_write_buf. unfold mbind at 1, M_bind. specialize (Hf (lw_buf w)).
  destruct (f (lw_buf w)) as [b r]. simpl in *. by subst r.
Qed.
Next Obligation.
  intros Io HI HL w p io Hp Hw. apply lw_io_loop_spec; [done|done|].
  destruct (lp_list _ _ Hp) as (l & Hok & ->). simpl. rewrite (list_remaining _ _ Hok). destruct (lw_want_flush w); lia.
Qed.
Next Obligation. intros Io HI P w io Hk Hp. simpl. unfold lw_do_io. by apply lw_io_loop_keeps. Qed.
End H1List.

(** ** The body encoder over any buffer ([TransferCoding::encode], [encode_eof]) *)

Section Encoder.
Context {W : Type} `{WriteBuffer W}.
Definition on_buf {E A} (self : TransferCoding) (m : M W E A) : M (TransferCoding * W) E A := fun s =>
  let '(w, r) := m s.2 in ((self, w), r).
Definition encode_into {E} (bytes : bytes) : M (TransferCoding * W) E unit := fun s =>
  let '(self, w) := s in
  if bool_decide (bytes = []) then (s, Ok tt)
  else match self with
       | Upgrade => on_buf self (write_buf_bytes bytes) s
       | EncodeChunked => on_buf self (write_bytes_chunked bytes) s
       | Length rem =>
           let n := len bytes in
           if (n <=? rem)%Z then on_buf (Length (rem - n)) (write_buf_bytes bytes) s
           else on_buf (Length 0) (write_buf_bytes (take (Z.to_nat rem) bytes)) s
       | Eof => (s, Ok tt)
       | Corrupted | DecodeChunked _ _ => (s, Panic)
       end.
Definition encode_eof_into {E} : M (TransferCoding * W) E unit := fun s =>
  match s.1 with
  | Eof | Upgrade | Length 0 => (s, Ok tt)
  | EncodeChunked => on_buf s.1 (write_buf_static (bs "0" ++ CRLF ++ CRLF)) s
  | _ => (s, Panic)
  end.
End Encoder.

(** What the encoder puts into a buffer is what the flat encoder appends; it panics when the
    flat encoder does, when there is no room, or when the declared length is used up. *)
Definition encodes {W E} `{WriteBufferLaws W} (w : W) (flat : (TransferCoding * list Z) * outcome E unit) (r : (TransferCoding * W) * outcome E unit) : Prop :=
  r.2 = Panic \/ exists w', r = ((flat.1.1, w'), flat.2) /\ pending w' flat.1.2.
Lemma encodes_buf {W E} `{WriteBufferLaws W} (w : W) (m : M W E unit) c c' p out :
  writes pending (has_room w) p out tt (m w) -> encodes w ((c, p ++ out), Ok tt) (on_buf c m (c', w)).
Proof.
  intros [[Hm|(w' & Hm & Hp)] _]; unfold encodes, on_buf; simpl; [left|right].
  - by destruct (m w) as [? []].
  - exists w'. by rewrite Hm.
Qed.
Lemma encode_into_encodes {W E} `{WriteBufferLaws W} c b (w : W) p :
  pending w p -> encodes w (encode (E := E) b (c, p)) (encode_into (E := E) b (c, w)).
Proof.
  intros Hp. assert (Hid : forall r : outcome E unit, encodes w ((c, p), r) ((c, w), r)) by (intros r; right; by exists w).
  unfold encode_into, encode. case_bool_decide as Hb; [apply Hid|]. destruct c as [| |n|st size| |]; try apply Hid.
  - destruct (len b <=? n)%Z; by apply encodes_buf, bytes_writes.
  - unfold write_buf_bytes_chunked. by apply encodes_buf, chunked_writes.
  - by apply encodes_buf, bytes_writes.
Qed.
Lemma encode_eof_into_encodes {W E} `{WriteBufferLaws W} c (w : W) p :
  pending w p -> encodes w (encode_eof (E := E) (c, p)) (encode_eof_into (E := E) (c, w)).
Proof.
  intros Hp. assert (Hid : forall r : outcome E unit, encodes w ((c, p), r) ((c, w), r)) by (intros r; right; by exists w).
  unfold encode_eof_into, encode_eof. simpl. destruct c as [| |n|st size| |]; try apply Hid; [by destruct n; apply Hid|].
  by apply encodes_buf, static_writes.
Qed.
Lemma on_buf_panic {W E} (c : TransferCoding) (m : M W E unit) s : (m s.2).2 <> Panic -> (on_buf c m s).2 <> Panic.
Proof. unfold on_buf. by destruct (m s.2) as [? []]. Qed.
Lemma encode_into_panic {W E} `{WriteBufferLaws W} c b (w : W) p :
  pending w p -> has_room w = true -> c <> Length 0 -> (forall n, c = Length n -> (0 <= n)%Z) -> (encode (E := E) b (c, p)).2 <> Panic -> (encode_into (E := E) b (c, w)).2 <> Panic.
Proof.
  intros Hp Hr Hz Hc. unfold encode_into, encode. case_bool_decide as Hb; [done|]. destruct c as [| |n|st size| |]; try done; intros _.
  - specialize (Hc n eq_refl). destruct (Z.leb_spec (len b) n); apply on_buf_panic, (bytes_writes w p _ Hp); try done.
    intros Ht%(f_equal length). rewrite length_take in Ht. unfold len in *. simpl in Ht. assert (n <> 0%Z) by congruence. lia.
  - apply on_buf_panic, (chunked_writes w p _ Hp); [done|apply chunked_piece_nonempty].
  - by apply on_buf_panic, (bytes_writes w p _ Hp).
Qed.
Lemma encode_eof_into_panic {W E} `{WriteBufferLaws W} c (w : W) p :
  pending w p -> has_room w = true -> (encode_eof (E := E) (c, p)).2 <> Panic -> (encode_eof_into (E := E) (c, w)).2 <> Panic.
Proof.
  intros Hp Hr. unfold encode_eof_into, encode_eof. simpl. destruct c as [| |n|st size| |]; try done; [by destruct n|]. intros _.
  by apply on_buf_panic, (static_writes w p _ Hp).
Qed.

(** ** A connection *)

(** What the dispatcher does with a write buffer: it writes while the buffer wants more, and
    drains it while it wants to write to the socket. *)
Section Connection.
Context {W Io : Type} `{WriteBuffer W, IoWrite Io}.

Inductive Write : Type := Head (out : bytes) | FailedHead (out : bytes) | StaticPart (b : bytes) | Part (b : bytes) | Chunk (b : bytes).
Definition write_bytes (x : Write) : bytes :=
  match x with Head out => out | FailedHead _ => [] | StaticPart b | Part b => b | Chunk b => chunked_piece b end.
Definition write_raw (x : Write) : bytes :=
  match x with Head b | FailedHead b | StaticPart b | Part b | Chunk b => b end.
Definition do_write (x : Write) : M W unit unit :=
  match x with
  | Head out => write_buf_head (put_slice out)
  | FailedHead out => write_buf_head (fun buf => (buf ++ out, Err tt))
  | StaticPart b => write_buf_static b
  | Part b => write_buf_bytes b
  | Chunk b => write_bytes_chunked b
  end.
Definition write_ok (x : Write) : outcome unit unit := match x with FailedHead _ => Err tt | _ => Ok tt end.

(** [conn ws (w, io)]: the writes [ws] have been done, in this order. *)
Inductive conn (w0 : W) (io0 : Io) : list Write -> W * Io -> Prop :=
| conn_start : conn w0 io0 [] (w0, io0)
| conn_write ws x w io w' r : conn w0 io0 ws (w, io) -> want_write_buf w = true -> write_raw x <> [] ->
    do_write x w = (w', r) -> conn w0 io0 (ws ++ [x]) (w', io)
| conn_io ws w io s' r : conn w0 io0 ws (w, io) -> want_write_io w = true ->
    do_io (w, io) = (s', r) -> conn w0 io0 ws s'.
End Connection.

Section ConnectionSpec.
Context {W Io : Type} `{WriteBufferLaws W, IoWriteLaws Io}.

Lemma do_write_spec x (w : W) p : pending w p -> want_write_buf w = true -> write_raw x <> [] ->
  exists w', do_write x w = (w', write_ok x) /\ pending w' (p ++ write_bytes x).
Proof.
  intros Hp Hw%want_has_room Hb. destruct x as [out|out|b|b|b]; simpl in *.
  - by apply (writes_ok _ _ _ _ _ _ (head_writes w p (put_slice out) out tt Hp ltac:(done))).
  - rewrite app_nil_r. by apply (write_head_error w p _ out tt).
  - by apply (writes_ok _ _ _ _ _ _ (static_writes w p b Hp)).
  - by apply (writes_ok _ _ _ _ _ _ (bytes_writes w p b Hp)).
  - apply (writes_ok _ _ _ _ _ _ (chunked_writes w p b Hp)); [done|apply chunked_piece_nonempty].
Qed.

Lemma conn_pending (w0 : W) (io0 : Io) p0 ws s : pending w0 p0 -> conn w0 io0 ws s ->
  exists p, pending s.1 p /\ accepted s.2 ++ p = accepted io0 ++ p0 ++ concat (write_bytes <$> ws).
Proof.
  intros Hp0 Hc. induction Hc as [|ws x w io w' r Hc (p & Hp & Ha) Hw Hx Hd|ws w io [w' io'] r Hc (p & Hp & Ha) Hw Hd]; simpl in *.
  - exists p0. by rewrite app_nil_r.
  - destruct (do_write_spec x w p Hp Hw Hx) as (w1 & Hd1 & Hp1). rewrite Hd in Hd1. injection Hd1 as <- _.
    exists (p ++ write_bytes x). split; [done|]. rewrite fmap_app, concat_app. simpl. rewrite app_nil_r, app_assoc, Ha, <- !app_assoc. done.
  - destruct (do_io_law w p io Hp Hw) as (w1 & io1 & p1 & r1 & Hd1 & _ & Hp1 & Ha1 & _). rewrite Hd in Hd1. injection Hd1 as <- <- _.
    exists p1. by rewrite Ha1.
Qed.
End ConnectionSpec.

(** C27: A connection over any write buffer that keeps the interface's contract -- the flat
    buffer and the list of buffers both do -- and any socket, where every write is of at least a
    byte and is made when the buffer has said that it wants one, and every drain when it has said
    that it wants one.  However such writes and drains interleave, and however the socket splits,
    blocks or fails: the socket has received a prefix of what was written, in order, chunks with
    their framing and a head that failed to encode left out; no such write and no such drain
    panics; and a drain that leaves nothing to do has delivered and flushed everything.  Writes
    that are not asked for, and empty ones, may panic in the list of buffers ([h1_list_overflow],
    [empty_buffer_panics]). *)
Theorem connection_delivers {W Io} `{WriteBufferLaws W, IoWriteLaws Io} (w0 w : W) (io0 io : Io) ws :
  pending w0 [] -> accepted io0 = [] -> conn w0 io0 ws (w, io) ->
  accepted io `prefix_of` concat (write_bytes <$> ws)
  /\ (forall x, want_write_buf w = true -> write_raw x <> [] -> (do_write x w).2 = write_ok x)
  /\ (want_write_io w = true -> exists w' io' r, do_io (w, io) = ((w', io'), r) /\ r <> Panic
        /\ (want_write_io w' = false -> accepted io' = concat (write_bytes <$> ws) /\ flushed io' = accepted io')).
Proof.
  intros Hw0 Hio0 Hc. destruct (conn_pending w0 io0 [] ws (w, io) Hw0 Hc) as (p & Hp & Ha). simpl in *. rewrite Hio0 in Ha. simpl in Ha.
  split; [by exists p|]. split.
  - intros x Hw Hx. by destruct (do_write_spec x w p Hp Hw Hx) as (w' & -> & _).
  - intros Hw. destruct (do_io_law w p io Hp Hw) as (w' & io' & p' & r & Hd & Hr & _ & Ha' & Hdone).
    exists w', io', r. split; [done|]. split; [apply Hr|]. intros Hw'. destruct (Hdone Hw') as [-> Hf]. split; [|done].
    by rewrite <- Ha, <- Ha', app_nil_r.
Qed.

(** ** An instance of the parameters *)

(** A chain as a pair: the first buffer is consumed before the second. *)
Section Pair.
Context {T U : Type} `{BufLaws T, BufLaws U}.
Definition pair_chunk (c : T * U) : bytes := if 0 <? remaining c.1 then chunk c.1 else chunk c.2.
Definition pair_advance {E} (n : nat) : M (T * U) E unit := fun c =>
  let k := n `min` remaining c.1 in
  let '(t, r) := advance k c.1 in
  match r with
  | Ok _ => let '(u, r) := advance (n - k) c.2 in ((t, u), r)
  | _ => ((t, c.2), r)
  end.
Definition pair_view (c : T * U) : bytes := view c.1 ++ view c.2.
Lemma pair_chunk_view c : exists r, pair_view c = pair_chunk c ++ r /\ (pair_view c <> [] -> pair_chunk c <> []).
Proof.
  unfold pair_view, pair_chunk. rewrite remaining_view. destruct (Nat.ltb_spec 0 (length (view c.1))) as [Hlt|Hge].
  - destruct (chunk_view c.1) as [r Hr]. exists (r ++ view c.2). rewrite Hr at 1. rewrite <- app_assoc. split; [done|].
    intros _. apply chunk_more. by destruct (view c.1); [simpl in *; lia|].
  - destruct (chunk_view c.2) as [r Hr]. exists r. destruct (view c.1); [|simpl in *; lia]. simpl. split; [done|apply chunk_more].
Qed.
Lemma pair_advance_view {E} n c : n <= length (pair_view c) ->
  exists c', pair_advance (E := E) n c = (c', Ok tt) /\ pair_view c' = drop n (pair_view c).
Proof.
  unfold pair_view, pair_advance. rewrite length_app, <- !remaining_view. intros Hn.
  destruct (advance_view (E := E) (n `min` remaining c.1) c.1) as (t & -> & Ht); [lia|].
  destruct (advance_view (E := E) (n - n `min` remaining c.1) c.2) as (u & -> & Hu); [lia|].
  exists (t, u). split; [done|]. simpl. rewrite Ht, Hu, drop_app, <- remaining_view. f_equal.
  - destruct (Nat.le_ge_cases n (remaining c.1)); [by rewrite Nat.min_l|].
    rewrite Nat.min_r, !drop_ge by (rewrite <- ?remaining_view; lia). done.
  - f_equal. lia.
Qed.
#[local] Instance pair_buf : Buf (T * U) := {
  remaining c := remaining c.1 + remaining c.2;
  chunk := pair_chunk;
  advance E := pair_advance;
  copy_to_bytes E n := copy_loop (fun c => Ok (pair_chunk c)) pair_advance n n [];
}.
#[local] Program Instance pair_laws : BufLaws (T * U) := { view := pair_view }.
Next Obligation. intros c. simpl. unfold pair_view. by rewrite length_app, !remaining_view. Qed.
Next Obligation. intros c. destruct (pair_chunk_view c) as (r & ? & _). by exists r. Qed.
Next Obligation. intros c. by destruct (pair_chunk_view c) as (r & _ & ?). Qed.
Next Obligation. intros E n c Hn. apply pair_advance_view. unfold pair_view. rewrite length_app, <- !remaining_view. done. Qed.
Next Obligation.
  intros E n c Hn. simpl in *. refine (copy_loop_spec _ _ (fun c l => pair_view c = l) _ _ n n [] c _ eq_refl _ _); [| | |done].
  - intros s l <-. destruct (pair_chunk_view s) as (r & ? & ?). by exists (pair_chunk s), r.
  - intros s l k <- Hk. by apply pair_advance_view.
  - unfold pair_view. by rewrite length_app, <- !remaining_view.
Qed.
#[local] Program Instance pair_chain : Chain T U (T * U) := { chain t u := (t, u); first_ref := fst; last_ref := snd }.
Next Obligation. done. Qed.
Next Obligation. done. Qed.
End Pair.

(** A socket that follows a script of answers, then takes everything; an interrupted call is
    reported as one that would block. *)
Record Script : Type := mkScript { script : list (nat + ErrorKind); sc_log : bytes; sc_flushed : bytes }.
Definition script_write (l : bytes) (io : Script) : Script * outcome ErrorKind nat :=
  match script io with
  | inl n :: sc => (mkScript sc (sc_log io ++ take n l) (sc_flushed io), Ok (n `min` length l))
  | inr e :: sc => (mkScript sc (sc_log io) (sc_flushed io), Err (if decide (e = Interrupted) then WouldBlock else e))
  | [] => (mkScript [] (sc_log io ++ l) (sc_flushed io), Ok (length l))
  end.
#[global] Instance script_io : IoWrite Script := {
  io_write := script_write;
  io_write_vectored cs := script_write (concat cs);
  io_flush io := (mkScript (script io) (sc_log io) (sc_log io), Ok tt);
}.
Lemma script_takes l io : takes sc_log l io (script_write l io).
Proof.
  unfold takes, script_write. destruct (script io) as [|[n|e] sc]; simpl; [by rewrite take_ge| |split; [by case_decide|done]]. split; [lia|].
  f_equal. destruct (Nat.le_ge_cases n (length l)); [by rewrite Nat.min_l|]. by rewrite Nat.min_r, !take_ge by lia.
Qed.
#[global] Program Instance script_laws : IoWriteLaws Script := { accepted := sc_log; flushed := sc_flushed }.
Next Obligation. apply script_takes. Qed.
Next Obligation. intros cs. apply script_takes. Qed.
Next Obligation. done. Qed.

(** A head and a chunk, drained in three attempts over a socket that takes five bytes, blocks,
    then takes the rest. *)
Section Demo.
Context {W : Type} `{WriteBuffer W} (w0 : W).
Definition demo_io : Script := mkScript [inl 5; inr WouldBlock] [] [].
Definition demo_w1 : W := (do_write (Head (bs "HTTP/1.1 200 OK")) w0).1.
Definition demo_w2 : W := (do_write (Chunk (bs "abc")) demo_w1).1.
Definition demo_s3 : W * Script := (do_io (demo_w2, demo_io)).1.
Definition demo_writes : list Write := [Head (bs "HTTP/1.1 200 OK"); Chunk (bs "abc")].
Lemma demo_conn : want_write_buf w0 = true -> want_write_buf demo_w1 = true -> want_write_io demo_w2 = true ->
  conn w0 demo_io demo_writes (demo_s3.1, demo_s3.2).
Proof.
  intros H0 H1 H2. rewrite <- surjective_pairing. apply (conn_io _ _ _ demo_w2 demo_io _ (do_io (demo_w2, demo_io)).2);
    [|done|apply surjective_pairing].
  apply (conn_write _ _ [Head (bs "HTTP/1.1 200 OK")] (Chunk (bs "abc")) demo_w1 _ _ (do_write (Chunk (bs "abc")) demo_w1).2);
    [|done|done|apply surjective_pairing].
  apply (conn_write _ _ [] (Head (bs "HTTP/1.1 200 OK")) w0 _ _ (do_write (Head (bs "HTTP/1.1 200 OK")) w0).2);
    [|done|done|apply surjective_pairing].
  constructor.
Qed.
End Demo.

#[local] Existing Instance pair_buf.
#[local] Existing Instance pair_laws.
#[local] Existing Instance pair_chain.
Definition demo_list : ListWriteBuf 64 (EitherBuf bytes (EitherBuf (bytes * bytes * bytes) bytes)) := list_buf_default.
#[local] Instance demo_list_buffer : WriteBuffer (ListWriteBuf 64 (EitherBuf bytes (EitherBuf (bytes * bytes * bytes) bytes))) :=
  list_buffer_h1 (C1 := bytes * bytes) (Eof := bytes * bytes * bytes) 64.
#[local] Instance demo_list_laws : WriteBufferLaws (ListWriteBuf 64 (EitherBuf bytes (EitherBuf (bytes * bytes * bytes) bytes))) :=
  list_laws_h1 (C1 := bytes * bytes) (Eof := bytes * bytes * bytes) 64.

Lemma connection_delivers_witness :
  accepted (demo_s3 demo_list).2 = bs "HTTP/" /\
  (exists w' io' r, do_io ((demo_s3 demo_list).1, (demo_s3 demo_list).2) = ((w', io'), r) /\ r <> Panic
    /\ (want_write_io w' = false -> accepted io' = bs "HTTP/1.1 200 OK3" ++ CRLF ++ bs "abc" ++ CRLF /\ flushed io' = accepted io'))
  /\ (do_io ((demo_s3 demo_list).1, (demo_s3 demo_list).2)).2 = Ok tt.
Proof.
  split; [vm_compute; reflexivity|]. split; [|vm_compute; reflexivity].
  refine (proj2 (proj2 (connection_delivers demo_list _ demo_io _ demo_writes _ eq_refl (demo_conn demo_list _ _ _))) _).
  - apply list_buf_new_pending.
  - vm_compute. reflexivity.
  - vm_compute. reflexivity.
  - vm_compute. reflexivity.
  - vm_compute. reflexivity.
Defined.

(** Without the debug assertion of [push] (in a release build) an empty buffer behind the last
    bytes keeps the list from being empty when everything is written; the drain goes on to
    offer nothing to the socket and then fails its own assertion. *)
Lemma empty_buffer_panics :
  let w := (write_buf_bytes (E := unit) (bs "x") demo_list).1 in
  let q := (push_back (Left []) (bufs (lw_list w))).1 in
  (do_io (mkListBuf [] (mkBufList q 1) false : ListWriteBuf 64 _, mkScript [] [] [])).2 = Panic.
Proof. vm_compute. reflexivity. Qed.

(** Such a buffer is written for a body that goes on after its declared length. *)
Lemma excess_body_writes_nothing :
  encode_into (E := unit) (bs "more") (Length 0, demo_list)
  = let '(w, r) := write_buf_bytes [] demo_list in ((Length 0, w), r).
Proof. vm_compute. reflexivity. Qed.

(** Encoding a body over any write buffer that keeps its contract puts into it exactly the
    bytes of the flat encoder, and leaves the same coder behind; the end of the body likewise.
    A coder whose declared length is used up is not given more. *)
Theorem encode_any_buffer {W} `{WriteBufferLaws W} c b (w : W) p :
  pending w p -> has_room w = true -> (forall n, c = Length n -> (0 < n)%Z) ->
  (exists w', encode_into (E := False) b (c, w) = (((encode (E := False) b (c, p)).1.1, w'), (encode (E := False) b (c, p)).2)
      /\ pending w' (encode (E := False) b (c, p)).1.2)
  /\ (exists w', encode_eof_into (E := False) (c, w) = (((encode_eof (E := False) (c, p)).1.1, w'), (encode_eof (E := False) (c, p)).2)
      /\ pending w' (encode_eof (E := False) (c, p)).1.2).
Proof.
  intros Hp Hw Hc. split.
  - destruct c as [| |n|st size| |]; try (by unfold encode_into, encode; case_bool_decide; exists w).
    1: specialize (Hc n eq_refl).
    all: edestruct (encode_into_encodes (E := False)) as [Hn|(w' & -> & Hp')]; [exact Hp|exfalso; revert Hn; apply (encode_into_panic _ _ _ p)|by exists w'].
    all: try done; try (intros m [= <-]; lia); try (intros [= ->]; lia).
    all: unfold encode; case_bool_decide; [done|]; try case_match; done.
  - destruct c as [| |n|st size| |]; try (by exists w).
    + specialize (Hc n eq_refl). destruct n; [lia|by exists w|lia].
    + edestruct (encode_eof_into_encodes (E := False)) as [Hn|(w' & -> & Hp')]; [exact Hp| |by exists w'].
      exfalso. revert Hn. by apply (encode_eof_into_panic _ _ p).
Qed.
Lemma encode_any_buffer_witness :
  pending demo_list [] /\ (exists w', encode_into (E := False) (bs "abc") (EncodeChunked, demo_list) = ((EncodeChunked, w'), Ok tt)
     /\ pending w' (bs "3" ++ CRLF ++ bs "abc" ++ CRLF)).
Proof.
  assert (Hp : pending demo_list []) by apply list_buf_new_pending. split; [exact Hp|].
  refine (proj1 (encode_any_buffer EncodeChunked (bs "abc") demo_list [] Hp _ _)); [vm_compute; reflexivity|].
  intros n Hn. discriminate Hn.
Defined.
