(* ===== verification/H1Body.v ===== *)
(** * The request body channel (http/src/h1/body.rs)

    The buffer a connection task fills and a service drains, shared by two handles.  A waker is
    the number of the task it wakes; [woken] records the tasks woken so far. *)

From S2P Require Import Prelude BoundQueue BufList H1Codec WriteBuffers.

Definition MAX_BUFFER_SIZE : Z := 32768.

(** [io::Error]: the kind of a socket error, or an error of the decoder. *)
Inductive BodyError := IoKind (kind : ErrorKind) | CodecError (e : IoError).

Record Inner := mkInner {
  i_eof : bool; i_len : Z; i_err : option BodyError; i_items : list bytes;
  i_task : option nat; i_io_task : option nat }.
Definition inner_default : Inner := mkInner false 0 None [] None None.

(** A step on the shared state may wake tasks. *)
Definition woken (w : option nat) : list nat := match w with Some t => [t] | None => [] end.
Definition wake (i : Inner) : Inner * list nat :=
  (mkInner (i_eof i) (i_len i) (i_err i) (i_items i) None (i_io_task i), woken (i_task i)).
Definition wake_io (i : Inner) : Inner * list nat :=
  (mkInner (i_eof i) (i_len i) (i_err i) (i_items i) (i_task i) None, woken (i_io_task i)).
Definition waiting (i : Inner) : bool := match i_task i with Some _ => true | None => false end.
Definition register (cx : nat) (i : Inner) : Inner :=
  if (match i_task i with Some w => negb (Nat.eqb cx w) | None => true end)
  then mkInner (i_eof i) (i_len i) (i_err i) (i_items i) (Some cx) (i_io_task i) else i.
Definition register_io (cx : nat) (i : Inner) : Inner :=
  if (match i_io_task i with Some w => negb (Nat.eqb cx w) | None => true end)
  then mkInner (i_eof i) (i_len i) (i_err i) (i_items i) (i_task i) (Some cx) else i.
Definition inner_feed_error (e : BodyError) (i : Inner) : Inner * list nat :=
  wake (mkInner (i_eof i) (i_len i) (Some e) (i_items i) (i_task i) (i_io_task i)).
Definition inner_feed_eof (i : Inner) : Inner * list nat :=
  wake (mkInner true (i_len i) (i_err i) (i_items i) (i_task i) (i_io_task i)).
Definition inner_feed_data (data : bytes) (i : Inner) : Inner * list nat :=
  wake (mkInner (i_eof i) (i_len i + len data) (i_err i) (i_items i ++ [data]) (i_task i) (i_io_task i)).
Definition backpressure (i : Inner) : bool := MAX_BUFFER_SIZE <=? i_len i.

(** [Inner::poll_next_unpin]: [None] is [Pending]. *)
Definition poll_next_unpin (cx : nat) (i : Inner) :
  Inner * list nat * option (option (BodyError + bytes)) :=
  match i_items i with
  | data :: items =>
      (mkInner (i_eof i) (i_len i - len data) (i_err i) items (i_task i) (i_io_task i), [], Some (Some (inr data)))
  | [] =>
      match i_err i with
      | Some e => (mkInner (i_eof i) (i_len i) None [] (i_task i) (i_io_task i), [], Some (Some (inl e)))
      | None =>
          if i_eof i then (i, [], Some None)
          else let '(i', w) := wake_io (register cx i) in (i', w, None)
      end
  end.

(** The two owners of the shared state. *)
Record Channel := mkChan { ch : Inner; reader_alive : bool; sender_alive : bool }.
Definition channel_new : Channel := mkChan inner_default true true.

(** [ChannelBody::try_inner]: nothing happens when the other handle is gone. *)
Definition feed (f : Inner -> Inner * list nat) (c : Channel) : Channel * list nat :=
  if reader_alive c then let '(i, w) := f (ch c) in (mkChan i true (sender_alive c), w) else (c, []).
Definition feed_data (data : bytes) : Channel -> Channel * list nat := feed (inner_feed_data data).
Definition feed_eof : Channel -> Channel * list nat := feed inner_feed_eof.
Definition feed_error (e : BodyError) : Channel -> Channel * list nat := feed (inner_feed_error e).

(** [ready_with]: [None] is [Pending]. *)
Definition ready_with (func : Inner -> bool) (cx : nat) (c : Channel) : Channel * option (option BodyError) :=
  if reader_alive c then
    if func (ch c) then (c, Some None)
    else (mkChan (register_io cx (ch c)) true (sender_alive c), None)
  else (c, Some (Some (IoKind UnexpectedEof))).
Definition ready : nat -> Channel -> Channel * option (option BodyError) := ready_with (fun i => negb (backpressure i)).
Definition wait_for_poll : nat -> Channel -> Channel * option (option BodyError) := ready_with waiting.

(** [Drop] of the sending and of the reading handle. *)
Definition drop_error (i : Inner) : Inner * list nat :=
  if i_eof i then (i, []) else inner_feed_error (IoKind UnexpectedEof) i.
Definition drop_sender (c : Channel) : Channel * list nat :=
  if reader_alive c then let '(i, w) := drop_error (ch c) in (mkChan i true false, w)
  else (mkChan (ch c) false false, []).
Definition drop_reader (c : Channel) : Channel * list nat :=
  if sender_alive c then let '(i, w) := drop_error (ch c) in (mkChan i false true, w)
  else (mkChan (ch c) false false, []).
Definition poll_next (cx : nat) (c : Channel) : Channel * list nat * option (option (BodyError + bytes)) :=
  let '(i, w, r) := poll_next_unpin cx (ch c) in (mkChan i (reader_alive c) (sender_alive c), w, r).

(** *** Runs of the two tasks *)

(** A run keeps what was fed and what was delivered. *)
Record Run := mkRun { r_chan : Channel; r_fed : list bytes; r_got : list bytes }.
Definition run_new : Run := mkRun channel_new [] [].

Inductive body_step : Run -> Run -> Prop :=
| st_feed d c fed got : sender_alive c = true -> reader_alive c = true ->
    body_step (mkRun c fed got) (mkRun (feed_data d c).1 (fed ++ [d]) got)
| st_eof c fed got : sender_alive c = true ->
    body_step (mkRun c fed got) (mkRun (feed_eof c).1 fed got)
| st_error e c fed got : sender_alive c = true ->
    body_step (mkRun c fed got) (mkRun (feed_error e c).1 fed got)
| st_ready cx c fed got : sender_alive c = true ->
    body_step (mkRun c fed got) (mkRun (ready cx c).1 fed got)
| st_wait cx c fed got : sender_alive c = true ->
    body_step (mkRun c fed got) (mkRun (wait_for_poll cx c).1 fed got)
| st_poll cx c fed got : reader_alive c = true ->
    body_step (mkRun c fed got)
      (mkRun (poll_next cx c).1.1 fed (match (poll_next cx c).2 with Some (Some (inr d)) => got ++ [d] | _ => got end))
| st_drop_sender c fed got : sender_alive c = true ->
    body_step (mkRun c fed got) (mkRun (drop_sender c).1 fed got)
| st_drop_reader c fed got : reader_alive c = true ->
    body_step (mkRun c fed got) (mkRun (drop_reader c).1 fed got).

Definition total (l : list bytes) : Z := len (mjoin l).
Lemma total_cons d l : total (d :: l) = len d + total l.
Proof. unfold total. change (mjoin (d :: l)) with (d ++ mjoin l). apply len_app. Qed.
Lemma total_snoc l d : total (l ++ [d]) = total l + len d.
Proof. unfold total. rewrite join_app, len_app. change (mjoin [d]) with (d ++ []). by rewrite app_nil_r. Qed.

(** Every byte fed is delivered or buffered, in order; the length is that of the buffer; and a
    reader that waits has nothing to read. *)
Definition body_inv (r : Run) : Prop :=
  let i := ch (r_chan r) in
  r_fed r = r_got r ++ i_items i /\ i_len i = total (i_items i) /\
  (i_task i <> None -> i_items i = [] /\ i_err i = None /\ i_eof i = false).

Lemma body_step_inv r r' : body_step r r' -> body_inv r -> body_inv r'.
Proof.
  unfold body_inv. destruct 1 as [d c fed got Hs Hr|c fed got Hs|e c fed got Hs|cx c fed got Hs|cx c fed got Hs
    |cx c fed got Hr|c fed got Hs|c fed got Hr]; cbn [r_chan r_fed r_got]; destruct c as [i ra sa];
    cbn [ch reader_alive sender_alive] in *; intros (Hf & Hl & Ht).
  - unfold feed_data, feed. cbn [reader_alive]. rewrite Hr. simpl. split_and!; try done.
    + by rewrite Hf, app_assoc.
    + by rewrite total_snoc, Hl.
  - unfold feed_eof, feed. cbn [reader_alive]. by destruct ra.
  - unfold feed_error, feed. cbn [reader_alive]. by destruct ra.
  - unfold ready, ready_with, register_io. cbn [reader_alive ch]. repeat case_match; done.
  - unfold wait_for_poll, ready_with, register_io. cbn [reader_alive ch]. repeat case_match; done.
  - unfold poll_next, poll_next_unpin. cbn [ch reader_alive sender_alive].
    destruct (i_items i) as [|d items] eqn:Ei.
    + destruct (i_err i) as [e|] eqn:Ee.
      { simpl. split_and!; try done. intros Hn. by destruct (Ht Hn) as (_ & ? & _). }
      destruct (i_eof i) eqn:Eo; [simpl; rewrite Ei, Eo, Ee; done|].
      unfold register. destruct (i_task i) as [t|] eqn:Ek; simpl; [destruct (negb (Nat.eqb cx t))|];
        simpl; rewrite ?Ei, ?Ee, ?Eo; done.
    + simpl. rewrite Hl, total_cons. split_and!; [by rewrite Hf, <- app_assoc|lia|].
      intros Hn. by destruct (Ht Hn) as (? & _).
  - unfold drop_sender, drop_error. cbn [reader_alive ch]. destruct ra; simpl; [|done].
    by destruct (i_eof i) eqn:Eo; simpl; rewrite ?Eo.
  - unfold drop_reader, drop_error. cbn [sender_alive ch]. destruct sa; simpl; [|done].
    by destruct (i_eof i) eqn:Eo; simpl; rewrite ?Eo.
Qed.

Lemma body_reachable_inv r : rtc body_step run_new r -> body_inv r.
Proof.
  intros Hs. assert (H0 : body_inv run_new) by (unfold body_inv; simpl; done).
  induction Hs as [|x y z Hxy _ IH]; [done|]. eauto using body_step_inv.
Qed.

(** *** Properties *)

(** The body channel under every interleaving of the connection task and the service: what
    the service got followed by what is buffered is what was fed, in order; the length that
    drives backpressure is that of the buffer; and no wake-up is lost: a service that waits has
    no data, error or end of body to see. *)
Theorem h1_body_channel r :
  rtc body_step run_new r ->
  let i := ch (r_chan r) in
  r_fed r = r_got r ++ i_items i /\ i_len i = total (i_items i) /\
  (i_task i <> None -> i_items i = [] /\ i_err i = None /\ i_eof i = false) /\
  backpressure i = (MAX_BUFFER_SIZE <=? total (i_items i)).
Proof.
  intros Hs. destruct (body_reachable_inv r Hs) as (Hf & Hl & Ht). cbv zeta. split_and!; try done.
  unfold backpressure. by rewrite Hl.
Qed.

Definition sample_run : Run := mkRun (poll_next 1 (feed_data [7] channel_new).1).1.1 [[7]] [[7]].
Lemma h1_body_channel_witness : r_fed sample_run = r_got sample_run ++ i_items (ch (r_chan sample_run)).
Proof.
  assert (Hs : rtc body_step run_new sample_run).
  { eapply rtc_l; [by apply (st_feed [7])|]. eapply rtc_l; [by apply (st_poll 1)|]. apply rtc_refl. }
  apply (h1_body_channel sample_run Hs).
Defined.
