(* ===== verification/H1Dispatch.v ===== *)
(** * The HTTP/1 dispatcher (http/src/h1/dispatcher.rs)

    One connection: reading into a limited buffer (http/src/util/buffered/buffered_io.rs), the
    keep-alive timer (http/src/util/timer.rs), and the loop that decodes a request, calls the
    service while its body is fed, writes the response while the socket is read and written, and
    goes on with the next request.  A future that awaits is a [Phase]; what it can be woken by --
    the socket, the timer, the service, the response body -- is an [Event], and [disp_step] is
    what the task does until it awaits again.  A run is any sequence of events.  An event that
    the phase does not wait for does nothing.

    Request bodies are shared with the service: they live in a list of channels, one for each
    request, and the service may use or drop its end at any time.  The [Exchange]s are a record
    of what happened; no step looks at them. *)

From S2P Require Import Prelude Http BoundQueue BufList H1Codec H1Head WriteBuffers H1Body.

(** ** The socket as a reader *)

(** [read_buf]: what the socket writes into the spare capacity of the buffer; nothing at the end
    of the stream. *)
Class IoRead (Io : Type) : Type := { io_read : Io -> Io * outcome ErrorKind bytes }.

(** [received] is what the socket has handed out. *)
Class IoLaws (Io : Type) `{!IoRead Io, !IoWrite Io, !IoWriteLaws Io} : Type := {
  received : Io -> bytes;
  read_law io :
    match io_read io with
    | (io', Ok b) => received io' = received io ++ b /\ accepted io' = accepted io
    | (io', Err e) => e <> Interrupted /\ received io' = received io /\ accepted io' = accepted io
    | (_, Panic) => False
    end;
  write_received l io : received (io_write l io).1 = received io;
  write_vectored_received cs io : received (io_write_vectored cs io).1 = received io;
  flush_received io : received (io_flush io).1 = received io;
}.

(** [BufferedIo::try_read]: until the socket blocks, ends or the buffer is full.  Every turn but
    the last reads a byte and leaves the buffer under its limit. *)
Fixpoint try_read_loop {Io} `{IoRead Io} (limit : Z) (fuel : nat) (read : Z) : M (Io * bytes) ErrorKind (option Z) := fun s =>
  let '(io, buf) := s in
  match fuel with
  | O => (s, Panic)
  | S fuel =>
      match io_read io with
      | (io, Ok []) => ((io, buf), Ok (Some read))
      | (io, Ok b) =>
          let read := read + len b in
          let buf := buf ++ b in
          if negb (len buf <? limit) then ((io, buf), Ok (Some read)) else try_read_loop limit fuel read (io, buf)
      | (io, Err e) =>
          if negb (read =? 0) then ((io, buf), Ok (Some read))
          else if decide (e = WouldBlock) then ((io, buf), Ok None)
          else ((io, buf), Err e)
      | (io, Panic) => ((io, buf), Panic)
      end
  end.
Definition try_read {Io} `{IoRead Io} (limit : Z) : M (Io * bytes) ErrorKind (option Z) := fun s =>
  try_read_loop limit (S (Z.to_nat (limit - len s.2))) 0 s.

(** ** The timer *)

(** Instants and durations are numbers of one unit.  [ka_timer] is the deadline the sleep was
    last armed with. *)
Record KeepAlive : Type := mkKeepAlive { ka_timer : Z; ka_deadline : Z }.
Definition ka_update (deadline : Z) (k : KeepAlive) : KeepAlive := mkKeepAlive (ka_timer k) deadline.
Definition ka_reset (k : KeepAlive) : KeepAlive := mkKeepAlive (ka_deadline k) (ka_deadline k).
Definition ka_is_expired (k : KeepAlive) : bool := ka_deadline k <=? ka_timer k.
(** [poll] at an instant; whether it is ready.  After one [reset] the sleep has the deadline. *)
Fixpoint ka_poll_loop (fuel : nat) (now : Z) (k : KeepAlive) : KeepAlive * bool :=
  if now <? ka_timer k then (k, false)
  else if ka_is_expired k then (k, true)
  else match fuel with O => (k, false) | S fuel => ka_poll_loop fuel now (ka_reset k) end.
Definition ka_poll : Z -> KeepAlive -> KeepAlive * bool := ka_poll_loop 1.

Inductive TimerState : Type := Idle | Wait | Throttle.
Record Timer : Type := mkTimer { t_timer : KeepAlive; t_state : TimerState; ka_dur : Z; req_dur : Z }.
Definition timer_new (k : KeepAlive) (ka_dur req_dur : Z) : Timer := mkTimer k Idle ka_dur req_dur.
Definition reset_state (t : Timer) : Timer := mkTimer (t_timer t) Idle (ka_dur t) (req_dur t).
Definition timer_update (now : Z) (t : Timer) : Timer :=
  match t_state t with
  | Idle => mkTimer (ka_update (now + ka_dur t) (t_timer t)) Wait (ka_dur t) (req_dur t)
  | Wait => mkTimer (ka_update (now + req_dur t) (t_timer t)) Throttle (ka_dur t) (req_dur t)
  | Throttle => t
  end.

(** ** Errors (http/src/h1/error.rs) *)

Inductive Error (SE BE : Type) : Type :=
| KeepAliveExpire | RequestTimeout | Closed | Service (e : SE) | Body_ (e : BE) | Io_ (e : ErrorKind) | Proto (e : ProtoError).
Arguments KeepAliveExpire {SE BE}.
Arguments RequestTimeout {SE BE}.
Arguments Closed {SE BE}.
Arguments Service {SE BE} e.
Arguments Body_ {SE BE} e.
Arguments Io_ {SE BE} e.
Arguments Proto {SE BE} e.
Definition error_from_io {SE BE X} (e : ErrorKind) : outcome (Error SE BE) X :=
  match e with
  | ConnectionReset | UnexpectedEof | WriteZero => Err Closed
  | WouldBlock | Interrupted => Panic
  | OtherKind _ => Err (Io_ e)
  end.
Definition map_to_err {SE BE X} (t : Timer) : outcome (Error SE BE) X :=
  match t_state t with
  | Wait => Err KeepAliveExpire
  | Throttle => Err RequestTimeout
  | Idle => Panic
  end.

(** ** The request body as the dispatcher feeds it *)

(** The task of the connection, and that of the service, as wakers. *)
Definition IO_TASK : nat := 0.
Definition SERVICE_TASK : nat := 1.

(** [BodyReader]: [tx] is [None] for a request without a body. *)
Record BodyReader : Type := mkReader { br_decoder : TransferCoding; br_tx : option Channel }.
Definition from_coding (decoder : TransferCoding) : outcome False BodyReader :=
  eof ← is_eof (E := False) decoder; Ok (mkReader decoder (match eof with true => None | false => Some channel_new end)).
Definition set_corrupted (br : BodyReader) : BodyReader := mkReader Corrupted (br_tx br).
(** A use of the sender of a request without a body panics. *)
Definition tx_feed (f : Channel -> Channel * list nat) (br : BodyReader) : outcome False BodyReader :=
  match br_tx br with
  | None => Panic
  | Some c => Ok (mkReader (br_decoder br) (Some (f c).1))
  end.
Definition reader_feed_error (e : BodyError) (br : BodyReader) : outcome False BodyReader :=
  br ← tx_feed (feed_error e) br; Ok (set_corrupted br).

(** [BodyReader::ready]: the reader, what it leaves of the buffer, the data it decoded, and
    whether it is ready.  A poll that resumes in [tx.ready()] finds decoder and buffer as it left
    them and decodes nothing, so that every poll starts at the loop.  A turn takes a byte or
    is one of the last three. *)
Fixpoint ready_loop (fuel : nat) (br : BodyReader) (buf : bytes) : outcome False (BodyReader * bytes * bytes * bool) :=
  match fuel with
  | O => Panic
  | S fuel =>
      '(decoder, buf, res) ← unwrap (decode (br_decoder br) buf);
      let br := mkReader decoder (br_tx br) in
      match res with
      | COk b =>
          br ← tx_feed (feed_data b) br;
          '(br, buf, data, r) ← ready_loop fuel br buf;
          Ok (br, buf, b ++ data, r)
      | InsufficientData =>
          c ← unwrap (br_tx br);
          match ready IO_TASK c with
          | (c, Some None) => Ok (mkReader decoder (Some c), buf, [], true)
          | (c, Some (Some _)) => ready_loop fuel (set_corrupted (mkReader decoder (Some c))) buf
          | (c, None) => Ok (mkReader decoder (Some c), buf, [], false)
          end
      | OnEof => br ← tx_feed feed_eof br; ready_loop fuel br buf
      | AlreadyEof | CCorrupted => Ok (br, buf, [], false)
      | CErr e => br ← reader_feed_error (CodecError e) br; ready_loop fuel br buf
      end
  end.
Definition body_ready (br : BodyReader) (buf : bytes) : outcome False (BodyReader * bytes * bytes * bool) :=
  ready_loop (length buf + 3) br buf.

(** [BodyReader::wait_for_poll]: [None] is pending, and otherwise whether the body is wanted. *)
Definition reader_wait_for_poll (br : BodyReader) : outcome False (BodyReader * option bool) :=
  c ← unwrap (br_tx br);
  match wait_for_poll IO_TASK c with
  | (c, Some None) => Ok (mkReader (br_decoder br) (Some c), Some true)
  | (c, Some (Some _)) => Ok (set_corrupted (mkReader (br_decoder br) (Some c)), Some false)
  | (c, None) => Ok (mkReader (br_decoder br) (Some c), None)
  end.

(** ** The state of a connection *)

Section Dispatcher.
Context `{HP : Httparse} {W Io SE BE : Type} `{!WriteBuffer W, !IoRead Io, !IoWrite Io}.
(** The limit of the read buffer; [StatusCode::canonical_reason]; the date at an instant. *)
Context (READ_BUF_LIMIT : Z) (reason : Z -> option bytes) (date : Z -> bytes).
Abbreviation Error := (Error SE BE).

(** A response as the service returns it: its head and the size its body announces.  The items
    of the body are events. *)
Record Response : Type := mkResponse { rs_version : Version; rs_status : Z; rs_items : list (option bytes * bytes); rs_size : BodySize }.

(** What [request_body_handler] awaits. *)
Inductive Stage : Type := AwaitPoll | DrainContinue | AwaitBody | AwaitRead.
(** What the task awaits: input for a head; the service, beside the handler of its request body;
    an item of the response body, beside the socket ([rd]: the body reader is ready and readiness
    to read is awaited); the socket, to drain the write buffer; the shutdown of the socket. *)
Inductive Phase : Type :=
| Reading
| Calling (decoder : TransferCoding) (st : Stage)
| Answering (decoder encoder : TransferCoding) (rd : bool)
| Draining
| ShuttingDown
| Finished (e : option Error).

(** The record of an answer: its head, the coding and the items of its body, whether it ended. *)
Record Answer : Type := mkAnswer { a_head : bytes; a_coding : TransferCoding; a_items : list bytes; a_ended : bool }.
(** The record of a request: its head and the coding of its body, the bytes of its body taken so
    far, what they decoded to, what the service has read, whether [CONTINUE] was written, and
    the answer. *)
Record Exchange : Type := mkExchange {
  x_head : bytes; x_coding : TransferCoding; x_raw : bytes; x_data : bytes; x_got : bytes; x_continue : bool; x_answer : option Answer }.

Record Disp : Type := mkDisp {
  d_io : Io; d_read : bytes; d_write : W; d_timer : Timer; d_ctx : Context; d_now : Z; d_phase : Phase;
  d_chans : list (option Channel);
  (** The record: the exchanges, the head of a refused request, the answer to it. *)
  d_log : list Exchange; d_taken : bytes; d_error : bytes }.
Definition set_io (io : Io) (buf : bytes) (w : W) (d : Disp) : Disp :=
  mkDisp io buf w (d_timer d) (d_ctx d) (d_now d) (d_phase d) (d_chans d) (d_log d) (d_taken d) (d_error d).
Definition set_timer (t : Timer) (d : Disp) : Disp :=
  mkDisp (d_io d) (d_read d) (d_write d) t (d_ctx d) (d_now d) (d_phase d) (d_chans d) (d_log d) (d_taken d) (d_error d).
Definition set_ctx (c : Context) (d : Disp) : Disp :=
  mkDisp (d_io d) (d_read d) (d_write d) (d_timer d) c (d_now d) (d_phase d) (d_chans d) (d_log d) (d_taken d) (d_error d).
Definition set_now (t : Z) (d : Disp) : Disp :=
  mkDisp (d_io d) (d_read d) (d_write d) (d_timer d) (d_ctx d) t (d_phase d) (d_chans d) (d_log d) (d_taken d) (d_error d).
Definition set_phase (p : Phase) (d : Disp) : Disp :=
  mkDisp (d_io d) (d_read d) (d_write d) (d_timer d) (d_ctx d) (d_now d) p (d_chans d) (d_log d) (d_taken d) (d_error d).
Definition set_chans (cs : list (option Channel)) (d : Disp) : Disp :=
  mkDisp (d_io d) (d_read d) (d_write d) (d_timer d) (d_ctx d) (d_now d) (d_phase d) cs (d_log d) (d_taken d) (d_error d).
Definition set_log (xs : list Exchange) (taken error : bytes) (d : Disp) : Disp :=
  mkDisp (d_io d) (d_read d) (d_write d) (d_timer d) (d_ctx d) (d_now d) (d_phase d) (d_chans d) xs taken error.

(** The record of the current request, and the channel of its body. *)
Definition on_last {A} (f : A -> A) (l : list A) : list A := alter f (pred (length l)) l.
Definition note (f : Exchange -> Exchange) (d : Disp) : Disp := set_log (on_last f (d_log d)) (d_taken d) (d_error d) d.
Definition noted_body (raw data : bytes) (x : Exchange) : Exchange :=
  mkExchange (x_head x) (x_coding x) (x_raw x ++ raw) (x_data x ++ data) (x_got x) (x_continue x) (x_answer x).
Definition noted_got (b : bytes) (x : Exchange) : Exchange :=
  mkExchange (x_head x) (x_coding x) (x_raw x) (x_data x) (x_got x ++ b) (x_continue x) (x_answer x).
Definition noted_continue (x : Exchange) : Exchange :=
  mkExchange (x_head x) (x_coding x) (x_raw x) (x_data x) (x_got x) true (x_answer x).
Definition noted_answer (f : option Answer -> option Answer) (x : Exchange) : Exchange :=
  mkExchange (x_head x) (x_coding x) (x_raw x) (x_data x) (x_got x) (x_continue x) (f (x_answer x)).
Definition add_item (b : bytes) (a : Answer) : Answer := mkAnswer (a_head a) (a_coding a) (a_items a ++ [b]) (a_ended a).
Definition end_answer (a : Answer) : Answer := mkAnswer (a_head a) (a_coding a) (a_items a) true.
Definition current (d : Disp) : option Channel := mjoin (last (d_chans d)).
Definition set_current (tx : option Channel) (d : Disp) : Disp := set_chans (on_last (fun _ => tx) (d_chans d)) d.

(** ** Steps *)

(** Whether [_run] awaits or has returned. *)
Inductive Flow : Type := Awaits | Returned.
Abbreviation Step := (M Disp Error Flow).
Definition await (p : Phase) : Step := fun d => (set_phase p d, Ok Awaits).
Definition never {X} (o : outcome False X) : outcome Error X :=
  match o with Ok x => Ok x | Err e => match e with end | Panic => Panic end.

(** An operation of [BufferedIo], with the error as it is and with the [?] operator. *)
Definition disp_read : M Disp ErrorKind (option Z) := fun d =>
  let '((io, buf), r) := try_read READ_BUF_LIMIT (d_io d, d_read d) in (set_io io buf (d_write d) d, r).
Definition disp_write : M Disp ErrorKind unit := fun d =>
  let '((w, io), r) := do_io (d_write d, d_io d) in (set_io io (d_read d) w d, r).
Definition try_io {A} (m : M Disp ErrorKind A) : M Disp Error A := fun d =>
  match m d with
  | (d, Ok a) => (d, Ok a)
  | (d, Err e) => (d, error_from_io e)
  | (d, Panic) => (d, Panic)
  end.

(** [Context::encode_head] into the write buffer. *)
Definition response_head (now : Z) (r : Response) : M (Context * bytes) ProtoError TransferCoding :=
  encode_head reason (date now) (rs_version r) (rs_status r) (rs_items r) (rs_size r).
Definition head_writer (now : Z) (r : Response) (c : Context) : Writer (Context * ProtoError) (Context * TransferCoding) := fun buf =>
  match response_head now r (c, buf) with
  | ((c, buf), Ok enc) => (buf, Ok (c, enc))
  | ((c, buf), Err e) => (buf, Err (c, e))
  | ((_, buf), Panic) => (buf, Panic)
  end.
Definition disp_encode_head (r : Response) : M Disp ProtoError TransferCoding := fun d =>
  match write_buf_head (head_writer (d_now d) r (d_ctx d)) (d_write d) with
  | (w, Ok (c, enc)) => (set_ctx c (set_io (d_io d) (d_read d) w d), Ok enc)
  | (w, Err (c, e)) => (set_ctx c (set_io (d_io d) (d_read d) w d), Err e)
  | (w, Panic) => (set_io (d_io d) (d_read d) w d, Panic)
  end.
(** The bytes of the head, for the record. *)
Definition head_bytes (r : Response) (d : Disp) : bytes := (response_head (d_now d) r (d_ctx d, [])).1.2.

(** The sender of the request body is dropped with the body reader. *)
Definition drop_body_reader (d : Disp) : Disp :=
  match d_phase d with
  | Calling _ _ | Answering _ _ _ => set_current ((fun c => (drop_sender c).1) <$> current d) d
  | _ => d
  end.

(** [set_close], and [_run] returns. *)
Definition return_close : Step := fun d => (set_ctx (set_close (d_ctx d)) d, Ok Returned).
(** The head of the [while] loop of [_run]. *)
Definition next_request : Step := fun d =>
  match decode_head READ_BUF_LIMIT (d_ctx d, d_read d) with
  | ((c, buf), Ok None) => (set_ctx c (set_io (d_io d) buf (d_write d) d), Ok Returned)
  | ((c, buf), Ok (Some (req, decoder))) =>
      let d' := set_timer (reset_state (d_timer d)) (set_ctx c (set_io (d_io d) buf (d_write d) d)) in
      match from_coding decoder with
      | Ok br =>
          let x := mkExchange (take (length (d_read d) - length buf) (d_read d)) decoder [] [] [] false None in
          let d' := set_log (d_log d ++ [x]) (d_taken d) (d_error d) (set_chans (d_chans d ++ [br_tx br]) d') in
          await (Calling (br_decoder br) (if is_expect_header c then AwaitPoll else AwaitBody)) d'
      | Err e => match e with end
      | Panic => (d', Panic)
      end
  | ((c, buf), Err e) =>
      (set_log (d_log d) (d_taken d ++ take (length (d_read d) - length buf) (d_read d)) (d_error d)
         (set_ctx c (set_io (d_io d) buf (d_write d) d)), Err (Proto e))
  | ((c, buf), Panic) => (set_ctx c (set_io (d_io d) buf (d_write d) d), Panic)
  end.

(** [_run] up to the request: the read, and what follows it. *)
Definition read_head : Step :=
  o ← try_io disp_read;
  match o with
  | None => mret Awaits
  | Some read =>
      if read =? 0 then return_close
      else next_request
  end.

(** A poll of [body_reader.ready]. *)
Definition feed_body (decoder : TransferCoding) (k : TransferCoding -> bool -> Phase) : Step := fun d =>
  match body_ready (mkReader decoder (current d)) (d_read d) with
  | Ok (br, buf, data, r) =>
      let raw := take (length (d_read d) - length buf) (d_read d) in
      await (k (br_decoder br) r) (note (noted_body raw data) (set_current (br_tx br) (set_io (d_io d) buf (d_write d) d)))
  | Err e => match e with end
  | Panic => (d, Panic)
  end.
(** [body_reader.feed_error]. *)
Definition disp_feed_error (decoder : TransferCoding) (e : BodyError) (k : TransferCoding -> Phase) : Step := fun d =>
  match reader_feed_error e (mkReader decoder (current d)) with
  | Ok br => await (k (br_decoder br)) (set_current (br_tx br) d)
  | Err e => match e with end
  | Panic => (d, Panic)
  end.

(** [request_body_handler]. *)
Definition CONTINUE : bytes := bs "HTTP/1.1 100 Continue" ++ CRLF ++ CRLF.
Definition write_continue : M Disp Error unit := fun d =>
  match write_buf_static (E := Error) CONTINUE (d_write d) with
  | (w, r) => (note noted_continue (set_io (d_io d) (d_read d) w d), r)
  end.
Definition drain_or (next wait : Phase) : Step := fun d => await (if want_write_io (d_write d) then wait else next) d.
Definition handler_poll (decoder : TransferCoding) (st : Stage) : Step := fun d =>
  match st with
  | AwaitPoll =>
      match reader_wait_for_poll (mkReader decoder (current d)) with
      | Ok (br, r) =>
          let d := set_current (br_tx br) d in
          match r with
          | None => await (Calling (br_decoder br) AwaitPoll) d
          | Some true => (write_continue ;; drain_or (Calling (br_decoder br) AwaitBody) (Calling (br_decoder br) DrainContinue)) d
          | Some false => await (Calling (br_decoder br) AwaitBody) d
          end
      | Err e => match e with end
      | Panic => (d, Panic)
      end
  | AwaitBody => feed_body decoder (fun decoder r => Calling decoder (if r then AwaitRead else AwaitBody)) d
  | DrainContinue | AwaitRead => (d, Ok Awaits)
  end.
Definition handler_ready (decoder : TransferCoding) (st : Stage) (r w : bool) : Step :=
  match st with
  | DrainContinue =>
      if w then try_io disp_write ;; drain_or (Calling decoder AwaitBody) (Calling decoder DrainContinue) else mret Awaits
  | AwaitRead =>
      if r then
        o ← try_io disp_read;
        match o with
        | None => mret Awaits
        | Some read =>
            if read =? 0 then disp_feed_error decoder (IoKind UnexpectedEof) (fun decoder => Calling decoder AwaitBody)
            else await (Calling decoder AwaitBody)
        end
      else mret Awaits
  | AwaitPoll | AwaitBody => mret Awaits
  end.

(** The service returned a response. *)
Definition respond (decoder : TransferCoding) (r : Response) : Step := fun d =>
  match disp_encode_head r d with
  | (d', Ok enc) => await (Answering decoder enc false) (note (noted_answer (fun _ => Some (mkAnswer (head_bytes r d) enc [] false))) d')
  | (d', Err e) => (d', Err (Proto e))
  | (d', Panic) => (d', Panic)
  end.

(** The body of the response yielded an item, or ended. *)
Definition encode_item (decoder encoder : TransferCoding) (b : bytes) : Step := fun d =>
  match encode_into (E := Error) b (encoder, d_write d) with
  | ((enc, w), Ok _) => await (Answering decoder enc false) (note (noted_answer (fmap (add_item b))) (set_io (d_io d) (d_read d) w d))
  | ((_, w), Err e) => (set_io (d_io d) (d_read d) w d, Err e)
  | ((_, w), Panic) => (set_io (d_io d) (d_read d) w d, Panic)
  end.
Definition body_end (decoder encoder : TransferCoding) : Step := fun d =>
  match encode_eof_into (E := Error) (encoder, d_write d) with
  | ((_, w), Ok _) =>
      let d := note (noted_answer (fmap end_answer)) (set_io (d_io d) (d_read d) w d) in
      match is_eof (E := Error) decoder with
      | Ok eof =>
          let d := drop_body_reader d in
          (if negb eof then return_close else next_request) d
      | Err e => (d, Err e)
      | Panic => (d, Panic)
      end
  | ((_, w), Err e) => (set_io (d_io d) (d_read d) w d, Err e)
  | ((_, w), Panic) => (set_io (d_io d) (d_read d) w d, Panic)
  end.
(** The socket is ready for what [io_ready] asked for. *)
Definition answer_readable (decoder encoder : TransferCoding) : Step := fun d =>
  match disp_read d with
  | (d, Ok (Some 0)) => disp_feed_error decoder (IoKind UnexpectedEof) (fun decoder => Answering decoder encoder false) d
  | (d, Ok _) => await (Answering decoder encoder false) d
  | (d, Err e) => disp_feed_error decoder (IoKind e) (fun decoder => Answering decoder encoder false) d
  | (d, Panic) => (d, Panic)
  end.
Definition answer_ready (decoder encoder : TransferCoding) (r w : bool) : Step :=
  (if r then answer_readable decoder encoder else await (Answering decoder encoder false)) ;;
  (if w then try_io disp_write ;; mret Awaits else mret Awaits).

(** [handle_error]. *)
Definition error_response (status : Z) : Response := mkResponse HTTP_11 status [] BNone.
Definition handle_error (e : Error) : M Disp Error unit := fun d =>
  let d := set_ctx (set_close (d_ctx d)) d in
  let respond status :=
    match disp_encode_head (error_response status) d with
    | (d', Ok _) => (set_log (d_log d) (d_taken d) (head_bytes (error_response status) d) d', Ok tt)
    | (d', _) => (d', Panic)
    end in
  match e with
  | KeepAliveExpire => (d, Ok tt)
  | RequestTimeout => respond 408
  | Proto EHeaderTooLarge => respond 431
  | Proto _ => respond 400
  | e => (d, Err e)
  end.

(** The loop of [run]: a new turn, after a drain, after [_run]. *)
Definition run_start (d : Disp) : Disp := set_phase Reading (set_timer (timer_update (d_now d) (d_timer d)) d).
Definition after_drain (d : Disp) : Disp :=
  if is_connection_closed (d_ctx d) then set_phase ShuttingDown d else run_start d.
Definition drain_start (d : Disp) : Disp := if want_write_io (d_write d) then set_phase Draining d else after_drain d.
Definition settle (r : Disp * outcome Error Flow) : outcome False Disp :=
  match r with
  | (d, Ok Awaits) => Ok d
  | (d, Ok Returned) => Ok (drain_start d)
  | (d, Err e) =>
      match handle_error e (drop_body_reader d) with
      | (d, Ok _) => Ok (drain_start d)
      | (d, Err e) => Ok (set_phase (Finished (Some e)) d)
      | (_, Panic) => Panic
      end
  | (_, Panic) => Panic
  end.
(** An error of [run] itself ends the connection. *)
Definition run_io {A} (r : Disp * outcome Error A) (k : Disp -> Disp) : outcome False Disp :=
  match r with
  | (d, Ok _) => Ok (k d)
  | (d, Err e) => Ok (set_phase (Finished (Some e)) d)
  | (_, Panic) => Panic
  end.

(** ** Events *)

Inductive Event : Type :=
| Clock (t : Z)                       (* the date service ticks *)
| Ready (r w : bool)                  (* the socket is readable, writable *)
| ReadyError (e : ErrorKind)          (* the readiness of the socket fails *)
| Timeout (t : Z)                     (* the timer is polled at an instant *)
| Poll                                (* the task is polled *)
| Respond (r : Response)              (* the service returns *)
| ServiceFail (e : SE)
| Item (b : bytes)                    (* the response body yields an item, fails, ends *)
| BodyFail (e : BE)
| BodyEnded
| ServicePoll (k : nat)               (* the service polls or drops the body of request [k] *)
| ServiceDrop (k : nat)
| Shutdown (e : option ErrorKind).    (* the shutdown of the socket completes *)

(** Only what was asked for is reported by [AsyncIo::ready]. *)
Definition interest (rd want : bool) (r w : bool) : bool * bool := (rd && r, want && w).

Definition service_poll (k : nat) (d : Disp) : Disp :=
  match d_chans d !! k with
  | Some (Some c) =>
      if reader_alive c then
        let '(c', _, r) := poll_next SERVICE_TASK c in
        let d := set_chans (<[k := Some c']> (d_chans d)) d in
        match r with
        | Some (Some (inr b)) => set_log (alter (noted_got b) k (d_log d)) (d_taken d) (d_error d) d
        | _ => d
        end
      else d
  | _ => d
  end.
Definition service_drop (k : nat) (d : Disp) : Disp :=
  match d_chans d !! k with
  | Some (Some c) => if reader_alive c then set_chans (<[k := Some (drop_reader c).1]> (d_chans d)) d else d
  | _ => d
  end.

Definition disp_step (ev : Event) (d : Disp) : outcome False Disp :=
  match ev, d_phase d with
  | Clock t, _ => Ok (set_now t d)
  | ServicePoll k, _ => Ok (service_poll k d)
  | ServiceDrop k, _ => Ok (service_drop k d)
  (* [_run]: reading a head *)
  | Ready r _, Reading => if r then settle (read_head d) else Ok d
  | ReadyError e, Reading => settle (d, error_from_io e)
  | Timeout t, Reading =>
      let '(k, fired) := ka_poll t (t_timer (d_timer d)) in
      let tm := mkTimer k (t_state (d_timer d)) (ka_dur (d_timer d)) (req_dur (d_timer d)) in
      let d := set_timer tm d in
      if fired then settle (d, map_to_err tm) else Ok d
  (* the service *)
  | Poll, Calling decoder st => settle (handler_poll decoder st d)
  | Ready r w, Calling decoder st => settle (handler_ready decoder st r w d)
  | ReadyError e, Calling _ (DrainContinue | AwaitRead) => settle (d, error_from_io e)
  | Respond r, Calling decoder _ => settle (respond decoder r d)
  | ServiceFail e, Calling _ _ => settle (d, Err (Service e))
  (* the response body *)
  | Poll, Answering decoder encoder false => settle (feed_body decoder (fun decoder r => Answering decoder encoder r) d)
  | Ready r w, Answering decoder encoder rd =>
      let '(r, w) := interest rd (want_write_io (d_write d)) r w in
      if r || w then settle (answer_ready decoder encoder r w d) else Ok d
  | ReadyError e, Answering _ _ rd => if rd || want_write_io (d_write d) then settle (d, error_from_io e) else Ok d
  | Item b, Answering decoder encoder _ => if want_write_buf (d_write d) then settle (encode_item decoder encoder b d) else Ok d
  | BodyFail e, Answering _ _ _ => if want_write_buf (d_write d) then settle (d, Err (Body_ e)) else Ok d
  | BodyEnded, Answering decoder encoder _ => if want_write_buf (d_write d) then settle (body_end decoder encoder d) else Ok d
  (* [run]: draining, shutting down *)
  | Ready _ w, Draining =>
      if w then run_io (try_io disp_write d) (fun d => if want_write_io (d_write d) then d else after_drain d) else Ok d
  | ReadyError e, Draining => run_io (A := unit) (d, error_from_io e) id
  | Shutdown None, ShuttingDown => Ok (set_phase (Finished None) d)
  | Shutdown (Some e), ShuttingDown => run_io (A := unit) (d, error_from_io e) id
  | _, _ => Ok d
  end.
Fixpoint disp_run (evs : list Event) (d : Disp) : outcome False Disp :=
  match evs with
  | [] => Ok d
  | ev :: evs => d ← disp_step ev d; disp_run evs d
  end.

(** [Dispatcher::new] and the first turn of [run]. *)
Definition disp_new (io : Io) (w : W) (k : KeepAlive) (ka_dur req_dur now : Z) : Disp :=
  run_start (mkDisp io [] w (timer_new k ka_dur req_dur) context_new now Reading [] [] [] []).
End Dispatcher.
