(* ===== verification/H1Server.v ===== *)
(** * What an HTTP/1 connection does, for every sequence of events

    Facts about the parts of the dispatcher -- heads append to the buffer, decoders take a
    prefix of it, reads and writes account for every byte -- then the invariant of the connection
    ([disp_ok]) and the theorems: requests are cut out of the input where the previous one ended,
    responses are written whole and in order, and nothing panics but for the defects shown at the
    end. *)

From S2P Require Import Prelude Decimal Http BoundQueue BufList H1Codec H1Head WriteBuffers H1Body H1Dispatch.

(** ** Heads append to the buffer *)

Section Heads.
Context `{HP : Httparse}.

Definition prepend (x : bytes) (e : Enc) : Enc := mkEnc (e_ctx e) (e_name e) (e_encoding e) (e_skip_date e) (e_skip_ct_te e) (x ++ e_buf e).

Lemma encode_field_prepend x item e : encode_field item (prepend x e) = prepend x <$> encode_field item e.
Proof.
  destruct item as [next value]. unfold encode_field, prepend. destruct e as [c nm en sd sk b]. cbn [e_ctx e_name e_encoding e_skip_date e_skip_ct_te e_buf].
  destruct next as [n|];
    repeat first [case_decide | case_match];
    simpl; rewrite <- ?app_assoc; try done;
    match goal with |- context[mbind _ ?m] => destruct m; simpl; rewrite <- ?app_assoc; try done end.
  all: repeat case_match; simpl; rewrite <- ?app_assoc; done.
Qed.
Lemma encode_fields_prepend x items e :
  encode_fields items (prepend x e) = (prepend x (encode_fields items e).1, (encode_fields items e).2).
Proof.
  revert e. induction items as [|i items IH]; intros e; [done|]. cbn [encode_fields]. rewrite encode_field_prepend.
  destruct (encode_field i e) as [e'|er|]; [apply IH|done..].
Qed.
Lemma encode_headers_prepend x date items size skip c buf :
  encode_headers date items size skip (c, x ++ buf)
  = (((encode_headers date items size skip (c, buf)).1.1, x ++ (encode_headers date items size skip (c, buf)).1.2), (encode_headers date items size skip (c, buf)).2).
Proof.
  unfold encode_headers. cbn [fst snd].
  change (mkEnc c (bs "te") eof false skip (x ++ buf)) with (prepend x (mkEnc c (bs "te") eof false skip buf)). rewrite encode_fields_prepend.
  destruct (encode_fields items _) as [e [u|er|]]; cbn [fst snd prepend e_ctx e_buf e_skip_ct_te e_skip_date e_encoding]; [|done..].
  unfold try_remove_body, write_length_header. repeat case_match; simplify_eq; cbn [fst snd]; rewrite <- ?app_assoc; done.
Qed.
Lemma status_line_prepend reason x buf v st : encode_version_status_reason reason (x ++ buf) v st = x ++ encode_version_status_reason reason buf v st.
Proof. unfold encode_version_status_reason. case_match; by rewrite <- app_assoc. Qed.

Lemma encode_head_appends reason date v st items size c buf :
  encode_head reason date v st items size (c, buf)
  = (((encode_head reason date v st items size (c, [])).1.1, buf ++ (encode_head reason date v st items size (c, [])).1.2),
     (encode_head reason date v st items size (c, [])).2).
Proof.
  unfold encode_head. pose proof (status_line_prepend reason buf [] v st) as Hs. rewrite app_nil_r in Hs. rewrite Hs.
  rewrite !encode_headers_prepend.
  destruct (encode_headers date items size true _) as [[c1 b1] [u1|e1|]], (encode_headers date items size false _) as [[c2 b2] [u2|e2|]];
    cbn [fst snd]; repeat case_match; cbn [fst snd]; rewrite ?app_nil_r; done.
Qed.

Lemma encode_headers_nonempty date items size skip s enc :
  (encode_headers date items size skip s).2 = Ok enc -> (encode_headers date items size skip s).1.2 <> [].
Proof.
  unfold encode_headers. destruct (encode_fields items _) as [e [u|er|]]; [|done..]. destruct (if is_head_method _ then _ else _) as [b en].
  cbn [fst snd]. by intros _ [_ ?]%app_nil.
Qed.
Lemma encode_head_nonempty reason date v st items size c enc :
  (encode_head reason date v st items size (c, [])).2 = Ok enc -> (encode_head reason date v st items size (c, [])).1.2 <> [].
Proof.
  unfold encode_head. pose proof (encode_headers_nonempty date items size) as Hn.
  repeat case_match; try done; cbn [fst snd]; intros _;
    match goal with H : encode_headers _ _ _ ?k ?s = (_, Ok ?en) |- _ => specialize (Hn k s en); rewrite H in Hn; by apply Hn end.
Qed.

(** The coder of a response body is never one that decodes. *)
Definition encoder_ok (c : TransferCoding) : Prop := match c with Corrupted | DecodeChunked _ _ => False | _ => True end.
Lemma encode_field_encoder item e e' : encoder_ok (e_encoding e) -> encode_field item e = Ok e' -> encoder_ok (e_encoding e').
Proof.
  destruct item as [next value], e as [c nm en sd sk b]. unfold encode_field. cbn [e_ctx e_name e_encoding e_skip_date e_skip_ct_te e_buf].
  intros He. destruct (match next with Some n => (n, false) | None => (nm, true) end) as [name multi]. unfold mbind, outcome_bind.
  repeat first [case_decide | case_match]; try done; by intros [= <-].
Qed.
Lemma encode_fields_encoder items e : encoder_ok (e_encoding e) -> encoder_ok (e_encoding (encode_fields items e).1).
Proof.
  revert e. induction items as [|i items IH]; intros e He; [done|]. cbn [encode_fields].
  destruct (encode_field i e) as [e'|er|] eqn:Ef; [|done..]. by apply IH, (encode_field_encoder i e).
Qed.
Lemma encode_headers_encoder date items size skip s enc : (encode_headers date items size skip s).2 = Ok enc -> encoder_ok enc.
Proof.
  unfold encode_headers. pose proof (encode_fields_encoder items (mkEnc s.1 (bs "te") eof false skip s.2) I) as He.
  destruct (encode_fields items _) as [e [u|er|]]; [|done..]. simpl in *. unfold try_remove_body. repeat case_match; simplify_eq; by intros [= <-].
Qed.
Lemma encode_head_encoder reason date v st items size s enc :
  (encode_head reason date v st items size s).2 = Ok enc -> encoder_ok enc.
Proof.
  unfold encode_head. destruct s as [c buf]. pose proof (encode_headers_encoder date items size) as Hn.
  repeat case_match; try done; cbn [fst snd]; intros [= <-];
    match goal with H : encode_headers _ _ _ ?k ?s = (_, Ok ?en) |- _ => apply (Hn k s en); by rewrite H end.
Qed.
End Heads.

(** ** Bodies append to the buffer *)

Lemma encode_appends {E} b c p :
  encode (E := E) b (c, p) = (((encode (E := E) b (c, [])).1.1, p ++ (encode (E := E) b (c, [])).1.2), (encode (E := E) b (c, [])).2).
Proof. unfold encode, write_buf_bytes_chunked. case_bool_decide; [by rewrite app_nil_r|]. destruct c; simpl; rewrite ?app_nil_r; try done. by case_match. Qed.
Lemma encode_eof_appends {E} c p :
  encode_eof (E := E) (c, p) = (((encode_eof (E := E) (c, [])).1.1, p ++ (encode_eof (E := E) (c, [])).1.2), (encode_eof (E := E) (c, [])).2).
Proof. unfold encode_eof. destruct c as [| |n| | |]; simpl; rewrite ?app_nil_r; try done. by destruct n; simpl; rewrite ?app_nil_r. Qed.

(** The encoder does not fail, whatever its type of errors; it keeps its kind. *)
Lemma encode_flat {E} b c : encoder_ok c -> exists c' o, encoder_ok c' /\
  forall p, encode (E := E) b (c, p) = ((c', p ++ o), Ok tt) /\ encode (E := False) b (c, p) = ((c', p ++ o), Ok tt).
Proof.
  intros Hc. unfold encode. case_bool_decide; [exists c, []; split; [done|]; intros p; by rewrite app_nil_r|].
  destruct c as [| |n| | |]; try done.
  - exists Eof, []. split; [done|]. intros p. by rewrite app_nil_r.
  - destruct (len b <=? n); [by exists (Length (n - len b)), b|by exists (Length 0), (take (Z.to_nat n) b)].
  - by exists EncodeChunked, (chunked_piece b).
  - by exists Upgrade, b.
Qed.
Lemma encode_eof_flat {E} c : (encode_eof (E := False) (c, [])).2 <> Panic -> exists c' o,
  forall p, encode_eof (E := E) (c, p) = ((c', p ++ o), Ok tt) /\ encode_eof (E := False) (c, p) = ((c', p ++ o), Ok tt).
Proof.
  unfold encode_eof. assert (Hid : forall c' : TransferCoding, exists (c'' : TransferCoding) (o : bytes), forall p : bytes, ((c', p), @Ok E unit tt) = ((c'', p ++ o), Ok tt) /\ ((c', p), @Ok False unit tt) = ((c'', p ++ o), Ok tt)).
  { intros c'. exists c', []. intros p. by rewrite app_nil_r. }
  destruct c as [| |n| | |]; simpl; intros Hc; try done; try apply Hid.
  - destruct n; [apply Hid|done..].
  - by exists EncodeChunked, (bs "0" ++ CRLF ++ CRLF).
Qed.

(** The items so far, without the end. *)
Fixpoint encode_items (items : list bytes) : M (TransferCoding * list Z) False unit :=
  match items with
  | [] => mret tt
  | b :: items => encode b ;; encode_items items
  end.
Lemma encode_items_snoc items b s c p :
  encode_items items s = ((c, p), Ok tt) -> encode_items (items ++ [b]) s = encode b (c, p).
Proof.
  revert s. induction items as [|i items IH]; intros s; cbn [encode_items app].
  - intros [= ->]. unfold mbind, M_bind. destruct (encode b (c, p)) as [? [[]|[]|]]; reflexivity.
  - unfold mbind, M_bind. destruct (encode i s) as [s' [u|e|]]; [|done..]. apply IH.
Qed.
Lemma encode_items_all items s c p :
  encode_items items s = ((c, p), Ok tt) -> encode_all (E := False) items s = encode_eof (c, p).
Proof.
  revert s. induction items as [|i items IH]; intros s; cbn [encode_items encode_all]; [by intros [= ->]|].
  unfold mbind, M_bind. destruct (encode i s) as [s' [u|e|]]; [|done..]. apply IH.
Qed.

(** ** Bodies are a prefix of the input *)

(** A decoder that has taken [raw] from where [c0] starts, and decoded [data].  A corrupted one
    has decoded some prefix. *)
Definition body_live (c0 : TransferCoding) (raw data : bytes) (c : TransferCoding) : Prop :=
  match c0, c with
  | Eof, Eof => raw = [] /\ data = []
  | Length n, Length m => raw = data /\ 0 <= m /\ m = n - len raw
  | Length n, Eof => raw = data /\ n = len raw
  | DecodeChunked st size, DecodeChunked st' size' =>
      st' <> End_ /\ chunk_ok (st', size') /\ run (st, size) raw = ((st', size'), data, [], None)
  | DecodeChunked st size, Eof => exists size', run (st, size) raw = ((End_, size'), data, [], None)
  | Upgrade, Upgrade => raw = data
  | _, _ => False
  end.
Definition body_at (c0 : TransferCoding) (raw data : bytes) (c : TransferCoding) : Prop :=
  if decide (c = Corrupted) then exists used c', used `prefix_of` raw /\ body_live c0 used data c' else body_live c0 raw data c.
(** The codings of requests. *)
Definition coding_ok (c : TransferCoding) : Prop :=
  match c with
  | Eof | Upgrade => True
  | Length n => 0 <= n
  | DecodeChunked st size => st <> End_ /\ chunk_ok (st, size)
  | _ => False
  end.
Lemma body_at_start c : coding_ok c -> body_at c [] [] c.
Proof. unfold body_at. destruct c; simpl; try done; intros H; [|by destruct H]. change (len []) with 0. split_and!; [done|lia..]. Qed.
Lemma body_at_corrupted c0 raw data c : body_at c0 raw data c -> body_at c0 raw data Corrupted.
Proof.
  unfold body_at. rewrite (decide_True (P := Corrupted = Corrupted)) by done. case_decide; [done|]. intros Hl. by exists raw, c.
Qed.

Lemma run_suffix c l c' o rest e : run c l = (c', o, rest, e) -> exists used, l = used ++ rest.
Proof.
  revert c o. induction l as [|b l IH]; intros c o; simpl; [intros [= _ _ <- _]; by exists []|].
  case_decide; [intros [= _ _ <- _]; by exists []|]. destruct (byte_step c b) as [[c1 o1]|e1|].
  - destruct (run c1 l) as [[[c2 o2] r2] e2] eqn:E2. intros [= -> _ <- ->]. destruct (IH _ _ E2) as [used ->]. by exists (b :: used).
  - intros [= _ _ <- _]. by exists [b].
  - intros [= _ _ <- _]. by exists [b].
Qed.
Lemma body_live_decode c0 raw data c src : body_live c0 raw data c ->
  exists c' used rest res, decode c src = Some (c', rest, res) /\ src = used ++ rest /\
    match res with
    | CErr _ => True
    | COk b => used <> [] /\ body_live c0 (raw ++ used) (data ++ b) c'
    | InsufficientData => rest = [] /\ c' <> Eof /\ body_live c0 (raw ++ used) data c'
    | OnEof => c' = Eof /\ c <> Eof /\ body_live c0 (raw ++ used) data c'
    | AlreadyEof => c = Eof /\ c' = Eof /\ used = []
    | CCorrupted => False
    end.
Proof.
  intros Hl. destruct c0 as [| |n|st0 size0| |], c as [| |m|st size| |]; simpl in Hl; try done.
  - by exists Eof, [], src, AlreadyEof.
  - by exists Eof, [], src, AlreadyEof.
  - destruct Hl as (<- & Hm & ->). destruct (decide (n - len raw = 0)) as [E0|E0].
    { exists Eof, [], src, OnEof. rewrite E0, !app_nil_r. simpl. split_and!; try done. lia. }
    destruct src as [|b t].
    { exists (Length (n - len raw)), [], [], InsufficientData. rewrite !app_nil_r. split; [by destruct (n - len raw)|]. simpl. split_and!; done || lia. }
    pose proof (decode_length (n - len raw) (b :: t) ltac:(lia) ltac:(done)) as Hd. unfold bounded_split in Hd.
    destruct (Z.leb_spec (len (b :: t)) (n - len raw)) as [Hle|Hgt].
    + exists (Length (n - len raw - len (b :: t))), (b :: t), [], (COk (b :: t)). rewrite Hd, !app_nil_r. simpl.
      rewrite len_app. split_and!; try done; lia.
    + exists (Length 0), (take (Z.to_nat (n - len raw)) (b :: t)), (drop (Z.to_nat (n - len raw)) (b :: t)), (COk (take (Z.to_nat (n - len raw)) (b :: t))).
      rewrite take_drop. assert (Hlen : len (take (Z.to_nat (n - len raw)) (b :: t)) = n - len raw) by (unfold len in *; rewrite length_take; lia).
      split; [done|]. split; [done|]. split; [intros He; rewrite He in Hlen; change (len (@nil Z)) with 0 in Hlen; lia|].
      simpl. rewrite len_app, Hlen. split_and!; try done; lia.
  - by exists Eof, [], src, AlreadyEof.
  - destruct Hl as (He & Hok & Hr). destruct src as [|b t].
    { exists (DecodeChunked st size), [], [], InsufficientData. split; [by destruct st|]. rewrite !app_nil_r. simpl. done. }
    pose proof (decode_loop_run (S (length (b :: t))) st size (b :: t) Hok He ltac:(lia)) as Hd.
    assert (Hdec : decode (DecodeChunked st size) (b :: t) = decode_loop (S (length (b :: t))) st size (b :: t)) by (by destruct st).
    rewrite Hdec. destruct (decode_loop _ st size (b :: t)) as [[[c' rest] res]|]; [|done].
    destruct c' as [| | |st' size'| |], res as [buf|e| | | |]; try done.
    + destruct Hd as (used & sz & Hs & Hr'). exists Eof, used, rest, OnEof. split; [done|]. split; [done|]. split; [done|]. split; [done|].
      simpl. exists sz. rewrite (run_app _ _ _ _ _ Hr), Hr'. by rewrite !app_nil_r.
    + destruct Hd as (He' & Hok' & used & Hne & Hs & Hr'). exists (DecodeChunked st' size'), used, rest, (COk buf).
      split; [done|]. split; [done|]. split; [done|]. simpl. split; [done|]. split; [done|]. by rewrite (run_app _ _ _ _ _ Hr), Hr'.
    + destruct Hd as [c Hd]. destruct (run_suffix _ _ _ _ _ _ Hd) as [used Hu]. by exists (DecodeChunked st' size'), used, rest, (CErr e).
    + destruct Hd as (He' & Hok' & -> & Hr'). exists (DecodeChunked st' size'), (b :: t), [], InsufficientData.
      rewrite !app_nil_r. split; [done|]. split; [done|]. split; [done|]. split; [done|]. simpl. split; [done|]. split; [done|].
      rewrite (run_app _ _ _ _ _ Hr), Hr'. by rewrite !app_nil_r.
  - subst data. destruct src as [|b t].
    + exists Upgrade, [], [], InsufficientData. by rewrite !app_nil_r.
    + exists Upgrade, (b :: t), [], (COk (b :: t)). by rewrite !app_nil_r.
Qed.

(** ** Heads of requests *)

Section Requests.
Context `{HP : Httparse}.

Lemma set_close_closed c : is_connection_closed (set_close c) = true.
Proof.
  unfold is_connection_closed, CtxState.contains, CtxState.CLOSE. simpl. unfold CtxState.insert, CtxState.CLOSE. apply Z.eqb_eq.
  rewrite Z.land_comm. apply Z.bits_inj'. intros n Hn. rewrite Z.land_spec, Z.lor_spec. by destruct (Z.testbit 8 n), (Z.testbit (state c) n).
Qed.
Lemma parse_content_length_nonneg v n : parse_content_length v = Ok n -> 0 <= n.
Proof.
  unfold parse_content_length. destruct (to_str v ≫= parse_u64) as [m|] eqn:Ev; [|done]. intros [= <-].
  destruct (to_str v) as [w|]; [|done]. by apply (parse_u64_nonneg w).
Qed.
Lemma try_set_cases d x d' : try_set d x = Ok d' -> d' = d \/ d' = x.
Proof. unfold try_set. repeat case_match; try done; intros [= <-]; auto. Qed.
Lemma set_all_coding d ss d' : coding_ok d -> Forall coding_ok ss -> set_all d ss = Ok d' -> coding_ok d'.
Proof.
  intros Hd Hs. revert d Hd. induction Hs as [|x ss Hx Hs IH]; intros d Hd; simpl; [by intros [= <-]|].
  destruct (try_set d x) as [d1|e|] eqn:E1; [|done..]. simpl. apply IH. by destruct (try_set_cases _ _ _ E1) as [->| ->].
Qed.
Lemma field_settings_coding f : Forall coding_ok (field_settings f).
Proof.
  unfold field_settings. repeat case_match; try constructor; try done; try by repeat constructor.
  - apply Forall_forall. intros x (t & _ & Ht)%list_elem_of_omap. unfold chunked_setting in Ht. case_match; [|done]. injection Ht as <-.
    split; [done|]. split; simpl; [lia|done].
  - by eapply parse_content_length_nonneg.
Qed.

(** The result of [decode_head] as the dispatcher uses it. *)
Lemma decode_head_cases limit c buf :
  let '((c', rest), r) := decode_head limit (c, buf) in
  (exists used, buf = used ++ rest) /\
  match r with
  | Ok None => c' = c /\ rest = buf
  | Ok (Some (_, decoder)) => coding_ok decoder
  | Err _ => True
  | Panic => False
  end.
Proof.
  destruct (parse_request buf) as [[p|]|e|] eqn:Hp.
  - pose proof (decode_head_complete limit c buf p Hp) as Hc.
    assert (Ht : exists used, buf = used ++ (decode_head limit (c, buf)).1.2).
    { unfold decode_head. rewrite Hp. destruct (method_from_bytes (p_method p)) as [m|]; [|by exists []].
      destruct (request_line m (p_version p) (reset c)) as [[c2 d1] v]. unfold m_split_to. destruct (p_len p <=? len buf); [|by exists []].
      repeat case_match; simplify_eq; simpl; exists (take (Z.to_nat (p_len p)) buf); by rewrite take_drop. }
    destruct (decode_head limit (c, buf)) as [[c' rest] [[[req dec]|]|er|]]; try done. split; [done|].
    destruct Hc as (m & fs & head & d0 & v & c0 & _ & _ & _ & Hrl & _ & _ & Hset & _). apply (set_all_coding d0 (fs ≫= field_settings)); [|apply Forall_bind, Forall_forall; intros f _; apply field_settings_coding|done].
    pose proof (request_line_flags m (p_version p) c) as Hr. rewrite Hrl in Hr. destruct Hr as (_ & _ & -> & _). by case_match.
  - unfold decode_head. rewrite Hp. destruct (limit <=? len buf); (split; [by exists []|done]).
  - unfold decode_head. rewrite Hp. by split; [exists []|].
  - by apply parse_request_total in Hp.
Qed.
End Requests.

(** ** Reads and writes *)

Section Transfers.
Context {Io : Type} `{IoLaws Io}.

(** A read appends to the buffer what it takes from the socket. *)
Definition reads (s : Io * bytes) (r : (Io * bytes) * outcome ErrorKind (option Z)) : Prop :=
  (exists b, r.1.2 = s.2 ++ b /\ received r.1.1 = received s.1 ++ b) /\ accepted r.1.1 = accepted s.1 /\ settled r.2.
Lemma try_read_loop_reads limit fuel read io buf :
  (Z.to_nat (limit - len buf) < fuel)%nat -> reads (io, buf) (try_read_loop limit fuel read (io, buf)).
Proof.
  revert read io buf. induction fuel as [|fuel IH]; intros read io buf Hf; [lia|]. cbn [try_read_loop].
  pose proof (read_law io) as Hl. destruct (io_read io) as [io' [b|e|]]; [| |done].
  - destruct Hl as [Hr Ha].
    assert (Hdone : forall r, settled r -> reads (io, buf) ((io', buf ++ b), r)) by (intros r Hr'; split_and!; [by exists b|done|apply Hr'..]).
    destruct b as [|b0 bt]; [rewrite <- (app_nil_r buf) at 2; by apply Hdone|]. set (b := b0 :: bt) in *.
    destruct (Z.ltb_spec (len (buf ++ b)) limit) as [Hlt|Hge]; [|by apply Hdone].
    destruct (IH (read + len b) io' (buf ++ b)) as ((b' & Hb & Hr') & Ha' & Hs).
    { rewrite len_app in *. unfold b in *. rewrite len_cons in *. pose proof (len_nonneg bt). lia. }
    simpl in *. split_and!; [exists (b ++ b')|by rewrite Ha'|apply Hs..]. by rewrite Hb, Hr', Hr, <- !app_assoc.
  - destruct Hl as (He & Hr & Ha). assert (Hnil : forall r, settled r -> reads (io, buf) ((io', buf), r)).
    { intros r Hr'. split_and!; [exists []; by rewrite !app_nil_r|done|apply Hr'..]. }
    case_match; [by apply Hnil|]. case_decide; [by apply Hnil|]. apply Hnil. split_and!; congruence.
Qed.
Lemma try_read_reads limit io buf : reads (io, buf) (try_read limit (io, buf)).
Proof. apply try_read_loop_reads. simpl. lia. Qed.

Lemma do_io_received {W} `{WriteBufferLaws W} (w : W) io : received (do_io (w, io)).1.2 = received io.
Proof.
  apply (do_io_keeps (fun io' => received io' = received io)); [|done].
  split; intros; by rewrite ?write_received, ?write_vectored_received, ?flush_received.
Qed.
End Transfers.

(** ** Feeding the body of a request *)

(** The service has read [got] of the body's [data]; the channel holds what follows, all of it as
    long as the service keeps its end. *)
Definition chan_holds (got data : bytes) (c : Channel) : Prop :=
  exists rest, data = got ++ mjoin (i_items (ch c)) ++ rest /\ (reader_alive c = true -> rest = []).
Lemma feed_data_holds got data b c : chan_holds got data c -> chan_holds got (data ++ b) (feed_data b c).1.
Proof.
  intros (rest & -> & Ha). unfold feed_data, feed. destruct (reader_alive c) eqn:Er.
  - rewrite (Ha eq_refl). exists []. simpl. rewrite join_app. change (mjoin [b]) with (b ++ []). by rewrite !app_nil_r, <- !app_assoc.
  - exists (rest ++ b). simpl. rewrite Er. by rewrite <- !app_assoc.
Qed.
(** Other operations of the sender keep the items. *)
Definition same_items (c c' : Channel) : Prop := i_items (ch c') = i_items (ch c) /\ reader_alive c' = reader_alive c.
Lemma same_items_holds got data c c' : same_items c c' -> chan_holds got data c -> chan_holds got data c'.
Proof. intros [Hi Hr]. unfold chan_holds. by rewrite Hi, Hr. Qed.
Lemma feed_eof_same c : same_items c (feed_eof c).1.
Proof. unfold feed_eof, feed, same_items. by destruct (reader_alive c) eqn:E; rewrite ?E. Qed.
Lemma feed_error_same e c : same_items c (feed_error e c).1.
Proof. unfold feed_error, feed, same_items. by destruct (reader_alive c) eqn:E; rewrite ?E. Qed.
Lemma ready_with_same f t c : same_items c (ready_with f t c).1 /\ i_eof (ch (ready_with f t c).1) = i_eof (ch c).
Proof. unfold ready_with, same_items, register_io. repeat case_match; done. Qed.
Lemma drop_sender_same c : same_items c (drop_sender c).1 /\ i_eof (ch (drop_sender c).1) = i_eof (ch c).
Proof. unfold drop_sender, drop_error, same_items. destruct (reader_alive c) eqn:E, (i_eof (ch c)) eqn:E'; simpl; rewrite ?E, ?E'; done. Qed.
Lemma feed_error_eof e c : i_eof (ch (feed_error e c).1) = i_eof (ch c).
Proof. unfold feed_error, feed. by destruct (reader_alive c) eqn:E. Qed.
Lemma feed_data_eof b c : i_eof (ch (feed_data b c).1) = i_eof (ch c).
Proof. unfold feed_data, feed. by destruct (reader_alive c) eqn:E. Qed.

(** A body reader in the middle of a body; only the end of a whole body ends the channel. *)
Record reader_ok (c0 : TransferCoding) (got raw data : bytes) (br : BodyReader) : Prop := {
  ro_at : body_at c0 raw data (br_decoder br);
  ro_none : br_tx br = None -> br_decoder br = Eof /\ data = [] /\ got = [];
  ro_chan c : br_tx br = Some c -> chan_holds got data c /\ (i_eof (ch c) = true -> br_decoder br = Eof);
}.
Lemma reader_ok_new c : coding_ok c -> exists br, from_coding c = Ok br /\ br_decoder br = c /\ reader_ok c [] [] [] br /\ (br_tx br = None <-> c = Eof).
Proof.
  intros Hc. pose proof (body_at_start c Hc) as Hb.
  assert (Hnew : forall c1, Some channel_new = Some c1 -> chan_holds [] [] c1 /\ (i_eof (ch c1) = true -> c = Eof)).
  { intros c1 [= <-]. split; [by exists []|done]. }
  unfold from_coding. destruct c; try done; simpl; eexists; (split; [done|]); (split; [done|]); (split; [by split|done]).
Qed.

Lemma ready_loop_idle fuel br buf : (0 < fuel)%nat -> br_decoder br = Eof \/ br_decoder br = Corrupted -> ready_loop fuel br buf = Ok (br, buf, [], false).
Proof. destruct fuel as [|fuel]; [lia|]. intros _. destruct br as [d tx]. by intros [Hd|Hd]; simpl in Hd; subst d. Qed.

Lemma reader_corrupted c0 got raw data br c :
  reader_ok c0 got raw data br -> br_decoder br <> Eof -> br_tx br = Some c -> reader_ok c0 got raw data (set_corrupted br).
Proof.
  intros [Ha Hn Hc] He Ht. split; simpl; [by apply (body_at_corrupted _ _ _ (br_decoder br))|by rewrite Ht|].
  intros c' Hc'. destruct (Hc c' Hc') as [Hh Hi]. split; [done|]. intros Hi'. by apply Hi in Hi'.
Qed.
Lemma feed_error_ok c0 got raw data br e :
  reader_ok c0 got raw data br -> br_decoder br <> Eof ->
  exists br', reader_feed_error e br = Ok br' /\ br_decoder br' = Corrupted /\ br_tx br' <> None /\ reader_ok c0 got raw data br'.
Proof.
  intros Hok He. unfold reader_feed_error, tx_feed. destruct (br_tx br) as [c|] eqn:Ht; [|by destruct (ro_none _ _ _ _ _ Hok Ht)].
  eexists. split; [done|]. split; [done|]. split; [done|]. simpl. apply (reader_corrupted _ _ _ _ (mkReader (br_decoder br) (Some (feed_error e c).1)) (feed_error e c).1); [|done..].
  destruct Hok as [Ha Hn Hc]. split; simpl; [done|done|]. intros c' [= <-]. destruct (Hc c Ht) as [Hh Hi].
  split; [by apply (same_items_holds _ _ c); [apply feed_error_same|]|]. by rewrite feed_error_eof.
Qed.

(** What a poll of the body reader does: it takes a prefix of the buffer. *)
Definition polled (c0 : TransferCoding) (got raw data : bytes) (br : BodyReader) (buf : bytes) (o : outcome False (BodyReader * bytes * bytes * bool)) : Prop :=
  exists br' used buf' d r, o = Ok (br', buf', d, r) /\ buf = used ++ buf' /\ reader_ok c0 got (raw ++ used) (data ++ d) br' /\
    (br_tx br' = None -> br_tx br = None) /\ (r = true -> br_tx br' <> None /\ br_decoder br' <> Eof).
Lemma polled_idle c0 got raw data br br0 buf : reader_ok c0 got raw data br -> (br_tx br = None -> br_tx br0 = None) ->
  polled c0 got raw data br0 buf (Ok (br, buf, [], false)).
Proof. intros Hok Ht. exists br, [], buf, [], false. by rewrite !app_nil_r. Qed.

Lemma body_live_corrupted c0 raw data : ~ body_live c0 raw data Corrupted.
Proof. unfold body_live. by destruct c0; intros []. Qed.
Lemma body_at_more c0 raw used data c : body_at c0 raw data c -> body_at c0 (raw ++ used) data Corrupted.
Proof.
  intros (used' & c' & Hu & Hl)%body_at_corrupted. unfold body_at. exists used', c'. split; [by apply prefix_app_r|done].
Qed.
Lemma body_at_live c0 raw data c : c <> Corrupted -> body_at c0 raw data c <-> body_live c0 raw data c.
Proof. intros Hc. unfold body_at. by rewrite decide_False. Qed.
Lemma body_live_at c0 raw data c : body_live c0 raw data c -> body_at c0 raw data c.
Proof. intros Hl. apply body_at_live; [|done]. intros ->. by apply body_live_corrupted in Hl. Qed.

Lemma ready_loop_polled fuel c0 got raw data br buf :
  reader_ok c0 got raw data br -> (length buf + 2 <= fuel)%nat -> polled c0 got raw data br buf (ready_loop fuel br buf).
Proof.
  revert raw data br buf. induction fuel as [|fuel IH]; intros raw data br buf Hok Hf; [lia|].
  destruct (decide (br_decoder br = Eof \/ br_decoder br = Corrupted)) as [Hi|Hi].
  { rewrite ready_loop_idle by (done || lia). by apply polled_idle. }
  assert (Hf0 : (0 < fuel)%nat) by lia. destruct (br_tx br) as [c|] eqn:Ht; [|by destruct (ro_none _ _ _ _ _ Hok Ht); tauto].
  pose proof (ro_at _ _ _ _ _ Hok) as Ha. apply body_at_live in Ha; [|tauto].
  destruct (ro_chan _ _ _ _ _ Hok c Ht) as [Hh He]. assert (Hne : i_eof (ch c) = false) by (destruct (i_eof (ch c)); [exfalso; tauto|done]).
  destruct (body_live_decode _ _ _ _ buf Ha) as (c' & used & rest & res & Hd & -> & Hres).
  cbn [ready_loop]. rewrite Hd. cbn [unwrap mbind outcome_bind]. rewrite Ht.
  destruct res as [b|e| | | |]; [| | | |tauto|done].
  - destruct Hres as [Hu Hl]. cbn [tx_feed br_tx mbind outcome_bind br_decoder].
    destruct (IH (raw ++ used) (data ++ b) (mkReader c' (Some (feed_data b c).1)) rest) as (br' & used' & buf' & d & r & Hr & Hb & Hok' & Ht' & Hr').
    + split; cbn [br_decoder br_tx]; [by apply body_live_at|done|]. intros c1 [= <-]. rewrite feed_data_eof, Hne. split; [by apply feed_data_holds|done].
    + rewrite length_app in Hf. destruct used; [done|]. simpl in Hf. lia.
    + change (polled c0 got raw data br (used ++ rest) ('(br, buf, data, r) ← ready_loop fuel (mkReader c' (Some (feed_data b c).1)) rest; Ok (br, buf, b ++ data, r))).
      rewrite Hr. exists br', (used ++ used'), buf', (b ++ d), r. rewrite Hb, !app_assoc in *. split; [done|]. split; [done|]. split; [done|].
      split; [|done]. intros Hn. by apply Ht' in Hn.
  - destruct (feed_error_ok c0 got (raw ++ used) data (mkReader Corrupted (Some c)) (CodecError e)) as (br' & Hfe & Hdec & Htx & Hok'); [|done|].
    { split; cbn [br_decoder br_tx]; [by apply (body_at_more _ _ _ _ (br_decoder br)), body_live_at|done|]. intros c1 [= <-]. split; [done|]. by rewrite Hne. }
    cbn [reader_feed_error tx_feed br_tx mbind outcome_bind br_decoder] in Hfe |- *. injection Hfe as Hbr. unfold set_corrupted in *. cbn [br_tx] in *. rewrite Hbr.
    rewrite (ready_loop_idle fuel br' rest) by auto.
    exists br', used, rest, [], false. rewrite !app_nil_r. done.
  - destruct Hres as (-> & Hc' & Hl). pose proof (ready_with_same (fun i => negb (backpressure i)) IO_TASK c) as [Hsame Heof]. unfold ready.
    cbn [unwrap br_tx mbind outcome_bind]. destruct (ready_with _ IO_TASK c) as [c1 o]. cbn [fst] in *.
    assert (Hok1 : reader_ok c0 got (raw ++ used) data (mkReader c' (Some c1))).
    { split; cbn [br_decoder br_tx]; [by apply body_live_at|done|]. intros c2 [= <-]. rewrite Heof, Hne. split; [by apply (same_items_holds _ _ c)|done]. }
    assert (Hres : forall r, polled c0 got raw data br (used ++ []) (Ok (mkReader c' (Some c1), [], [], r))).
    { intros r. exists (mkReader c' (Some c1)), used, [], [], r. rewrite !app_nil_r. by split_and!. }
    destruct o as [[e|]|]; [|apply Hres..].
    rewrite (ready_loop_idle fuel (set_corrupted (mkReader c' (Some c1))) []) by auto.
    exists (set_corrupted (mkReader c' (Some c1))), used, [], [], false. rewrite !app_nil_r. split; [done|]. split; [done|]. split; [|done].
    by apply (reader_corrupted _ _ _ _ _ c1).
  - destruct Hres as (-> & _ & Hl). cbn [tx_feed br_tx mbind outcome_bind br_decoder].
    rewrite (ready_loop_idle fuel (mkReader Eof (Some (feed_eof c).1)) rest) by auto.
    exists (mkReader Eof (Some (feed_eof c).1)), used, rest, [], false. rewrite !app_nil_r. split; [done|]. split; [done|]. split; [|done].
    split; cbn [br_decoder br_tx]; [by apply body_live_at|done|]. intros c1 [= <-]. split; [|done]. by apply (same_items_holds _ _ c); [apply feed_eof_same|].
Qed.
Lemma body_ready_polled c0 got raw data br buf : reader_ok c0 got raw data br -> polled c0 got raw data br buf (body_ready br buf).
Proof. intros Hok. apply ready_loop_polled; [done|lia]. Qed.

(** ** The invariant of a connection *)

Section Connection.
Context `{HP : Httparse} {W Io SE BE : Type} `{!WriteBuffer W, !WriteBufferLaws W, !IoRead Io, !IoWrite Io, !IoWriteLaws Io, !IoLaws Io}.
Context (READ_BUF_LIMIT : Z) (reason : Z -> option bytes) (date : Z -> bytes).
Abbreviation Disp := (@Disp HM W Io SE BE).
Abbreviation Error := (H1Dispatch.Error SE BE).
Abbreviation Step := (M Disp Error Flow).
Implicit Types (d : Disp) (x : Exchange) (w : W) (io : Io).

(** What an exchange took from the input and put into the output. *)
Definition x_in x : bytes := x_head x ++ x_raw x.
Definition a_out (a : Answer) : bytes :=
  (if a_ended a then encode_all (E := False) (a_items a) (a_coding a, []) else encode_items (a_items a) (a_coding a, [])).1.2.
Definition x_out x : bytes :=
  (if x_continue x then CONTINUE else []) ++ match x_answer x with Some a => a_head a ++ a_out a | None => [] end.

(** The head was decoded from where it stands; the answer's head was encoded for a response. *)
Definition x_parsed x : Prop := exists c c' rest req,
  decode_head READ_BUF_LIMIT (c, x_head x ++ rest) = ((c', rest), Ok (Some (req, x_coding x))).
Definition a_encoded (a : Answer) : Prop :=
  (exists now r c c', response_head reason date now r (c, []) = ((c', a_head a), Ok (a_coding a))) /\
  (if a_ended a then encode_all (E := False) (a_items a) (a_coding a, []) else encode_items (a_items a) (a_coding a, [])).2 = Ok tt.
Record x_ok x (tx : option Channel) : Prop := {
  xo_parsed : x_parsed x;
  xo_body : exists dec, body_at (x_coding x) (x_raw x) (x_data x) dec;
  xo_none : tx = None -> x_data x = [] /\ x_got x = [];
  xo_chan c : tx = Some c -> chan_holds (x_got x) (x_data x) c /\ (i_eof (ch c) = true -> body_live (x_coding x) (x_raw x) (x_data x) Eof);
  xo_answer a : x_answer x = Some a -> a_encoded a;
}.
(** The whole body was read and the whole answer written. *)
Definition x_done x : Prop :=
  body_live (x_coding x) (x_raw x) (x_data x) Eof /\ exists a, x_answer x = Some a /\ a_ended a = true.

(** Every byte is accounted for; all requests but the last are done. *)
Record base_ok (io : Io) (buf : bytes) (w : W) (chans : list (option Channel)) (log : list Exchange) (taken error : bytes) : Prop := {
  bo_in : mjoin (x_in <$> log) ++ taken ++ buf = received io;
  bo_out : exists p, pending w p /\ accepted io ++ p = mjoin (x_out <$> log) ++ error;
  bo_ok : Forall2 x_ok log chans;
  bo_done : Forall x_done (removelast log);
  bo_error : error <> [] -> forall x a, last log = Some x -> x_answer x = Some a -> a_ended a = true;
}.
Definition base d : Prop := base_ok (d_io d) (d_read d) (d_write d) (d_chans d) (d_log d) (d_taken d) (d_error d).
Definition clean d : Prop := d_taken d = [] /\ d_error d = [].
Definition idle d : Prop := Forall x_done (d_log d) /\ clean d.

(** The request in progress, with the reader of its body. *)
Definition open_with (dec : TransferCoding) d x : Prop :=
  (exists xs, d_log d = xs ++ [x] /\ Forall x_done xs) /\ clean d /\
  reader_ok (x_coding x) (x_got x) (x_raw x) (x_data x) (mkReader dec (current d)).
Definition live (dec : TransferCoding) d : Prop := current d <> None /\ dec <> Eof.
Definition stage_ok (dec : TransferCoding) (st : Stage) d x : Prop :=
  match st with
  | AwaitPoll => (current d <> None -> dec <> Eof) /\ x_continue x = false
  | DrainContinue => want_write_io (d_write d) = true
  | AwaitRead => live dec d
  | AwaitBody => True
  end.
Definition phase_ok d : Prop :=
  match d_phase d with
  | Reading => idle d /\ t_state (d_timer d) <> Idle
  | Calling dec st => exists x, open_with dec d x /\ x_answer x = None /\ stage_ok dec st d x
  | Answering dec enc rd => exists x a out, open_with dec d x /\ x_answer x = Some a /\ a_ended a = false /\
      encode_items (a_items a) (a_coding a, []) = ((enc, out), Ok tt) /\ encoder_ok enc /\ (rd = true -> live dec d)
  | Draining => want_write_io (d_write d) = true /\ (is_connection_closed (d_ctx d) = false -> idle d)
  | ShuttingDown | Finished _ => True
  end.
Definition disp_ok d : Prop := base d /\ phase_ok d.

(** What a step leaves: a state to await in, one to go on with in [run], or an error; an error
    that is answered leaves no answer unfinished. *)
Definition answered (e : Error) : Prop := match e with KeepAliveExpire | RequestTimeout | Proto _ => True | _ => False end.
Definition quiet d : Prop := d_error d = [] /\ forall x a, last (d_log d) = Some x -> x_answer x = Some a -> a_ended a = true.
Definition post (safe : Prop) (r : Disp * outcome Error Flow) : Prop :=
  match r with
  | (d, Ok Awaits) => disp_ok d
  | (d, Ok Returned) => base d /\ (is_connection_closed (d_ctx d) = false -> idle d)
  | (d, Err e) => base d /\ (answered e -> quiet d)
  | (_, Panic) => ~ safe
  end.

Lemma on_last_snoc {A} (f : A -> A) l a : on_last f (l ++ [a]) = l ++ [f a].
Proof.
  unfold on_last. rewrite length_app. simpl. rewrite Nat.add_1_r. simpl. induction l as [|b l IH]; [done|]. simpl. f_equal. apply IH.
Qed.
Lemma chans_snoc d xs x : base d -> d_log d = xs ++ [x] -> exists cs, d_chans d = cs ++ [current d] /\ Forall2 x_ok xs cs /\ x_ok x (current d).
Proof.
  intros Hb Hl. pose proof (bo_ok _ _ _ _ _ _ _ Hb) as Hf. rewrite Hl in Hf. apply Forall2_app_inv_l in Hf as (cs & l2 & Hf1 & Hf2 & Hc).
  apply Forall2_cons_inv_l in Hf2 as (c & l3 & Hx & Hn & ->). apply Forall2_nil_inv_l in Hn as ->.
  unfold current. rewrite Hc, last_snoc. exists cs. simpl. by destruct c.
Qed.
Lemma current_snoc d cs tx : d_chans d = cs ++ [tx] -> current d = tx.
Proof. unfold current. intros ->. rewrite last_snoc. by destruct tx. Qed.
Lemma removelast_snoc {A} (l : list A) a : removelast (l ++ [a]) = l.
Proof. apply removelast_last. Qed.

(** *** Reads, writes and the last exchange *)

Lemma disp_read_spec d d' r : base d -> disp_read READ_BUF_LIMIT d = (d', r) ->
  base d' /\ settled r /\ exists io buf, d' = set_io io buf (d_write d) d.
Proof.
  intros Hb. unfold disp_read. destruct (try_read_reads READ_BUF_LIMIT (d_io d) (d_read d)) as ((b & Hbuf & Hr) & Ha & Hs).
  destruct (try_read _ _) as [[io buf] r']. simpl in *. intros [= <- <-]. split; [|split; [done|by eexists _, _]].
  destruct Hb as [Hin (p & Hp & Hout) Hok Hd He]. split; simpl; [|exists p; by rewrite Ha|done..].
  by rewrite Hbuf, Hr, <- Hin, <- !app_assoc.
Qed.
Lemma disp_write_spec d d' r : base d -> want_write_io (d_write d) = true -> disp_write d = (d', r) ->
  base d' /\ settled r /\ exists io w, d' = set_io io (d_read d) w d.
Proof.
  intros Hb Hw. unfold disp_write. destruct Hb as [Hin (p & Hp & Hout) Hok Hd He].
  destruct (do_io_law (d_write d) p (d_io d) Hp Hw) as (w' & io' & p' & r' & Hdo & Hs & Hp' & Ha & _).
  pose proof (do_io_received (d_write d) (d_io d)) as Hr. rewrite Hdo in Hr |- *. simpl in Hr. intros [= <- <-].
  split; [|split; [done|by eexists _, _]]. split; simpl; [by rewrite Hr|exists p'; by rewrite Ha|done..].
Qed.
Lemma try_io_post {A} (m : M Disp ErrorKind A) d d' r safe (k : A -> Disp -> Disp * outcome Error Flow) :
  m d = (d', r) -> base d' -> settled r -> (forall a, r = Ok a -> post safe (k a d')) -> post safe ((try_io m ≫= k) d).
Proof.
  intros Hm Hb (Hp & Hw & Hi) Hk. unfold mbind, M_bind, try_io. rewrite Hm. destruct r as [a|e|]; [by apply Hk| |done].
  destruct e; simpl; try (by split); by destruct Hw || by destruct Hi.
Qed.
Lemma error_post d e safe : base d -> (safe -> e <> WouldBlock /\ e <> Interrupted) -> post safe (d, error_from_io e).
Proof. intros Hb He. destruct e; simpl; try (by split); intros Hs; by destruct (He Hs). Qed.

(** The last exchange, and the channel of its body, are replaced. *)
Lemma base_last d xs x x' tx buf w : base d -> d_log d = xs ++ [x] -> clean d -> x_in x' ++ buf = x_in x ++ d_read d ->
  (forall p, pending (d_write d) p -> exists o, pending w (p ++ o) /\ x_out x' = x_out x ++ o) -> x_ok x' tx ->
  base (set_io (d_io d) buf w (set_log (xs ++ [x']) (d_taken d) (d_error d) (set_current tx d))).
Proof.
  intros Hb Hl [Ht He] Hin Hout Hok. destruct (chans_snoc d xs x Hb Hl) as (cs & Hc & Hf & _).
  destruct Hb as [Bi (p & Hp & Bo) _ Bd Be]. unfold base. simpl. rewrite Hc, on_last_snoc. rewrite Hl, Ht, He in *.
  rewrite removelast_snoc in Bd. split; simpl.
  - rewrite fmap_app, join_app in *. simpl in *. unfold mjoin in *. simpl in *. rewrite !app_nil_r in *. by rewrite <- app_assoc, Hin, app_assoc.
  - destruct (Hout p Hp) as (o & Hp' & Ho). exists (p ++ o). split; [done|]. rewrite app_assoc, Bo, !fmap_app, !join_app. simpl. unfold mjoin. simpl.
    by rewrite !app_nil_r, Ho, <- app_assoc.
  - apply Forall2_app; [done|]. constructor; [done|constructor].
  - by rewrite removelast_snoc.
  - done.
Qed.

(** *** The next request *)

Lemma idle_quiet d : idle d -> quiet d.
Proof.
  intros [Hd [Ht He]]. split; [done|]. intros x a Hx Ha. apply last_Some in Hx as [l Hl]. rewrite Hl in Hd.
  apply Forall_app in Hd as [_ Hd]. apply Forall_cons in Hd as [[_ (a' & Ha' & Hen)] _]. congruence.
Qed.
Lemma removelast_done (l : list Exchange) : Forall x_done l -> Forall x_done (removelast l).
Proof.
  induction l as [|x l _] using rev_ind; [done|]. rewrite removelast_snoc. by intros [? _]%Forall_app.
Qed.
Lemma next_request_post d safe : base d -> idle d -> post safe (next_request READ_BUF_LIMIT d).
Proof.
  intros Hb Hi. pose proof (idle_quiet d Hi) as Hq. destruct Hi as [Hdone [Ht He]]. unfold next_request.
  pose proof (decode_head_cases READ_BUF_LIMIT (d_ctx d) (d_read d)) as Hc.
  destruct (decode_head READ_BUF_LIMIT (d_ctx d, d_read d)) as [[c buf] [[[req dec]|]|e|]] eqn:Edh; [| | |tauto].
  - destruct Hc as [[used Hu] Hco]. destruct (reader_ok_new dec Hco) as (br & -> & Hbr & Hro & Hno).
    assert (Hhead : take (length (d_read d) - length buf) (d_read d) = used)
      by (rewrite Hu, length_app; replace (length used + length buf - length buf)%nat with (length used) by lia; apply take_app_length).
    rewrite Hhead. set (x := mkExchange used dec [] [] [] false None).
    assert (Hx : x_ok x (br_tx br)).
    { split; simpl; [exists (d_ctx d), c, buf, req; simpl; rewrite <- Hu; exact Edh|exists dec; by apply body_at_start|done| |done].
      intros c1 Hc1. destruct (ro_chan _ _ _ _ _ Hro c1 Hc1) as [Hh Heof]. split; [done|]. intros Hie. apply Heof in Hie.
      rewrite Hbr in Hie. by rewrite Hie. }
    destruct Hb as [Bi (p & Hp & Bo) Bk Bd Be]. rewrite Ht, He in *. simpl in Bi. split.
    + split; simpl.
      * rewrite fmap_app, join_app. change (mjoin (x_in <$> [x])) with ((used ++ []) ++ []). rewrite !app_nil_r, <- Bi, Hu. simpl. by rewrite <- app_assoc.
      * exists p. split; [done|]. rewrite fmap_app, join_app. change (mjoin (x_out <$> [x])) with (@nil Z). by rewrite app_nil_r, Bo.
      * apply Forall2_app; [done|]. constructor; [done|constructor].
      * by rewrite removelast_snoc.
      * done.
    + set (d' := set_phase _ _). assert (Hcur : current d' = br_tx br) by (by apply (current_snoc _ (d_chans d))).
      assert (Hbr' : mkReader (br_decoder br) (br_tx br) = br) by (by destruct br).
      exists x. split; [|split; [done|]]; unfold open_with, stage_ok; rewrite Hcur, ?Hbr'.
      * split; [by exists (d_log d)|]. done.
      * destruct (is_expect_header c); simpl; [|done]. split; [|done]. intros Hn Heof. apply Hn, Hno. congruence.
  - destruct Hc as [_ [-> ->]]. split; [by destruct Hb|]. done.
  - destruct Hc as [[used Hu] _].
    assert (Hhead : take (length (d_read d) - length buf) (d_read d) = used)
      by (rewrite Hu, length_app; replace (length used + length buf - length buf)%nat with (length used) by lia; apply take_app_length).
    rewrite Hhead, Ht. split; [|by intros _]. destruct Hb as [Bi Bo Bk Bd Be]. split; simpl; [|done..].
    rewrite <- Bi, Ht, Hu. simpl. done.
Qed.

(** *** The body of the request in progress *)

Lemma x_ok_reader x x' tx br : x_ok x tx -> x_head x' = x_head x -> x_coding x' = x_coding x ->
  (forall a, x_answer x' = Some a -> a_encoded a) -> reader_ok (x_coding x') (x_got x') (x_raw x') (x_data x') br -> x_ok x' (br_tx br).
Proof.
  intros [Hp _ _ _ _] Hh Hc Ha [Hat Hn Hch]. split; [|by eexists| | |done].
  - unfold x_parsed. by rewrite Hh, Hc.
  - intros Ht. by destruct (Hn Ht) as (_ & ? & ?).
  - intros c Ht. destruct (Hch c Ht) as [Hho He]. split; [done|]. intros Hi. apply body_at_live; [done|]. by rewrite <- (He Hi).
Qed.
Lemma open_last d d' xs x x' br : base d -> d_log d = xs ++ [x] -> Forall x_done xs ->
  d_log d' = xs ++ [x'] -> d_chans d' = on_last (fun _ => br_tx br) (d_chans d) -> clean d' ->
  reader_ok (x_coding x') (x_got x') (x_raw x') (x_data x') br -> open_with (br_decoder br) d' x' /\ current d' = br_tx br.
Proof.
  intros Hb Hl Hd Hl' Hc Hcl Hr. destruct (chans_snoc d xs x Hb Hl) as (cs & Hcs & _ & _). rewrite Hcs, on_last_snoc in Hc.
  pose proof (current_snoc d' cs _ Hc) as Hcur. split; [|done]. split; [by exists xs|]. split; [done|]. rewrite Hcur. by destruct br.
Qed.
Lemma same_current d xs x : base d -> d_log d = xs ++ [x] -> on_last (fun _ => current d) (d_chans d) = d_chans d.
Proof. intros Hb Hl. destruct (chans_snoc d xs x Hb Hl) as (cs & Hcs & _ & _). by rewrite Hcs, on_last_snoc at 1. Qed.

Lemma feed_body_post d x dec k safe : base d -> open_with dec d x ->
  (forall d' x' dec' r, open_with dec' d' x' -> x_answer x' = x_answer x -> (r = true -> live dec' d') -> d_phase d' = k dec' r -> phase_ok d') ->
  post safe (feed_body dec k d).
Proof.
  intros Hb ((xs & Hl & Hd) & Hcl & Hr) Hk. unfold feed_body.
  destruct (body_ready_polled _ _ _ _ _ (d_read d) Hr) as (br & used & buf & data & r & -> & Hu & Hr' & _ & Hlive).
  assert (Hraw : take (length (d_read d) - length buf) (d_read d) = used)
    by (rewrite Hu, length_app; replace (length used + length buf - length buf)%nat with (length used) by lia; apply take_app_length).
  rewrite Hraw. destruct (chans_snoc d xs x Hb Hl) as (_ & _ & _ & Hx). set (x' := noted_body used data x).
  assert (Hx' : x_ok x' (br_tx br)) by (by apply (x_ok_reader x x' (current d)); [..|apply (xo_answer _ _ Hx)|]).
  assert (Hb' : base (set_io (d_io d) buf (d_write d) (set_log (xs ++ [x']) (d_taken d) (d_error d) (set_current (br_tx br) d)))).
  { apply (base_last d xs x x'); [done..| | |done].
    - unfold x_in, x'. simpl. by rewrite Hu, <- !app_assoc.
    - intros p Hp. exists []. rewrite app_nil_r. by rewrite app_nil_r. }
  unfold await. set (d' := set_phase _ _). assert (Hlog : d_log d' = xs ++ [x']) by (unfold d'; simpl; by rewrite Hl, on_last_snoc).
  split; [unfold base; rewrite Hlog; exact Hb'|].
  destruct (open_last d d' xs x x' br) as [Ho Hcur]; [done..|]. apply (Hk d' x' (br_decoder br) r); [done|done| |done].
  intros Hrt. unfold live. rewrite Hcur. by apply Hlive.
Qed.
Lemma disp_feed_error_post d x dec e k safe : base d -> open_with dec d x -> dec <> Eof ->
  (forall d' dec', open_with dec' d' x -> d_phase d' = k dec' -> phase_ok d') -> post safe (disp_feed_error dec e k d).
Proof.
  intros Hb ((xs & Hl & Hd) & Hcl & Hr) He Hk. unfold disp_feed_error.
  destruct (feed_error_ok _ _ _ _ _ e Hr He) as (br & -> & _ & _ & Hr').
  destruct (chans_snoc d xs x Hb Hl) as (_ & _ & _ & Hx).
  assert (Hx' : x_ok x (br_tx br)) by (by apply (x_ok_reader x x (current d)); [..|apply (xo_answer _ _ Hx)|]).
  assert (Hb' : base (set_io (d_io d) (d_read d) (d_write d) (set_log (xs ++ [x]) (d_taken d) (d_error d) (set_current (br_tx br) d)))).
  { apply (base_last d xs x x); [done..| |done]. intros p Hp. exists []. by rewrite !app_nil_r. }
  unfold await. set (d' := set_phase _ _). split; [unfold base; simpl; rewrite Hl; exact Hb'|].
  destruct (open_last d d' xs x x br) as [Ho Hcur]; [done..|]. by apply (Hk d' (br_decoder br)).
Qed.

(** *** Reading a head, and the handler of the request body *)

Lemma read_head_post d safe : disp_ok d -> d_phase d = Reading -> post safe (read_head READ_BUF_LIMIT d).
Proof.
  intros [Hb Hph] Ep. unfold phase_ok in Hph. rewrite Ep in Hph. destruct Hph as [Hi Hts]. unfold read_head.
  destruct (disp_read READ_BUF_LIMIT d) as [d' r] eqn:Er. destruct (disp_read_spec d d' r Hb Er) as (Hb' & Hs & io & buf & ->).
  apply (try_io_post _ _ _ _ _ _ Er Hb' Hs). intros [n|] ->.
  - destruct (n =? 0); [|by apply next_request_post]. split; [exact Hb'|]. intros _. exact Hi.
  - split; [exact Hb'|]. unfold phase_ok. simpl. rewrite Ep. by split.
Qed.

Lemma calling_phase d x dec st : d_phase d = Calling dec st -> open_with dec d x -> x_answer x = None -> stage_ok dec st d x -> phase_ok d.
Proof. intros Ep Ho Ha Hst. unfold phase_ok. rewrite Ep. by exists x. Qed.
Lemma phase_calling d dec st : d_phase d = Calling dec st -> phase_ok d -> exists x, open_with dec d x /\ x_answer x = None /\ stage_ok dec st d x.
Proof. intros Ep. unfold phase_ok. by rewrite Ep. Qed.

(** [write_continue]: the only other thing written for a request. *)
Lemma write_continue_post d x dec safe (k : Step) : base d -> open_with dec d x -> x_answer x = None -> (safe -> forall w, has_room w = true) ->
  (forall d', base d' -> open_with dec d' (noted_continue x) -> post safe (k d')) -> x_continue x = false -> post safe ((write_continue ;; k) d).
Proof.
  intros Hb ((xs & Hl & Hd) & Hcl & Hr) Ha Hsafe Hk Hc. unfold mbind, M_bind, write_continue.
  destruct (bo_out _ _ _ _ _ _ _ Hb) as (p0 & Hp0 & _). pose proof (static_writes (E := Error) (d_write d) p0 CONTINUE Hp0) as [Hw Hroom].
  destruct (write_buf_static CONTINUE (d_write d)) as [w r] eqn:Ew. destruct Hw as [Hpanic|(w' & [= <- ->] & Hp')].
  { simpl in Hpanic. subst r. intros Hs. by apply Hroom; [apply Hsafe|..]. }
  destruct (chans_snoc d xs x Hb Hl) as (_ & _ & _ & Hx). set (x' := noted_continue x).
  assert (Hx' : x_ok x' (current d)) by (by apply (x_ok_reader x x' (current d) (mkReader dec (current d))); [..|apply (xo_answer _ _ Hx)|]).
  assert (Hb' : base (set_io (d_io d) (d_read d) w (set_log (xs ++ [x']) (d_taken d) (d_error d) (set_current (current d) d)))).
  { apply (base_last d xs x x'); [done..| |done]. intros p Hp. exists CONTINUE.
    pose proof (static_writes (E := Error) (d_write d) p CONTINUE Hp) as [Hw _]. rewrite Ew in Hw. destruct Hw as [?|(w2 & [= <-] & Hp2)]; [done|].
    split; [done|]. unfold x_out, x'. simpl. by rewrite Hc, Ha, !app_nil_r. }
  cbn beta iota. set (d' := note _ _). assert (Hlog : d_log d' = xs ++ [x']) by (unfold d'; simpl; by rewrite Hl, on_last_snoc). apply Hk.
  - unfold base in Hb' |- *. simpl in Hb'. rewrite (same_current d xs x Hb Hl) in Hb'. rewrite Hlog. exact Hb'.
  - split; [by exists xs|]. split; [exact Hcl|exact Hr].
Qed.

Lemma drain_or_post d x next wait safe : base d -> (forall d', d_log d' = d_log d -> d_chans d' = d_chans d -> clean d' -> d_phase d' = next \/ (d_phase d' = wait /\ want_write_io (d_write d') = true) -> phase_ok d') ->
  open_with (match next with Calling dec _ => dec | _ => Eof end) d x -> post safe (drain_or next wait d).
Proof.
  intros Hb Hk (_ & Hcl & _). unfold drain_or, await. split; [exact Hb|]. apply Hk; [done|done|exact Hcl|]. simpl. destruct (want_write_io (d_write d)) eqn:Ew; auto.
Qed.
Lemma handler_poll_post d dec st safe : disp_ok d -> d_phase d = Calling dec st -> (safe -> forall w, has_room w = true) ->
  (safe -> st = AwaitPoll -> current d <> None) -> post safe (handler_poll dec st d).
Proof.
  intros [Hb Hph] Ep Hroom Hsafe. destruct (phase_calling d dec st Ep Hph) as (x & Ho & Ha & Hst).
  destruct st; simpl; [|by split| |by split].
  - destruct Hst as [Hne Hc]. pose proof Ho as ((xs & Hl & Hd) & Hcl & Hr). unfold reader_wait_for_poll. simpl br_tx.
    destruct (current d) as [c|] eqn:Ecur; [|intros Hs; by apply (Hsafe Hs)]. cbn [unwrap mbind outcome_bind].
    pose proof (ready_with_same waiting IO_TASK c) as [Hsame Heof]. unfold wait_for_poll. destruct (ready_with waiting IO_TASK c) as [c1 o]. cbn [fst] in *.
    assert (Hr1 : reader_ok (x_coding x) (x_got x) (x_raw x) (x_data x) (mkReader dec (Some c1))).
    { destruct Hr as [Hat _ Hch]. split; simpl; [done|done|]. intros c2 [= <-]. destruct (Hch c eq_refl) as [Hh He]. rewrite Heof. split; [by apply (same_items_holds _ _ c)|done]. }
    specialize (Hne ltac:(done)). destruct (chans_snoc d xs x Hb Hl) as (_ & _ & _ & Hx).
    assert (Hd1 : forall br ph, reader_ok (x_coding x) (x_got x) (x_raw x) (x_data x) br -> let d1 := set_phase ph (set_current (br_tx br) d) in base d1 /\ open_with (br_decoder br) d1 x /\ current d1 = br_tx br).
    { intros br ph Hbr d1. assert (Hx' : x_ok x (br_tx br)) by (by apply (x_ok_reader x x (current d)); [..|apply (xo_answer _ _ Hx)|]).
      assert (Hb1 : base (set_io (d_io d) (d_read d) (d_write d) (set_log (xs ++ [x]) (d_taken d) (d_error d) (set_current (br_tx br) d)))).
      { apply (base_last d xs x x); [done..| |done]. intros p Hp. exists []. by rewrite !app_nil_r. }
      split; [unfold base, d1; simpl; rewrite Hl; exact Hb1|]. by apply (open_last d d1 xs x x br). }
    destruct o as [[e|]|].
    + destruct (Hd1 (set_corrupted (mkReader dec (Some c1))) (Calling Corrupted AwaitBody)) as (Hb1 & Ho1 & _); [by apply (reader_corrupted _ _ _ _ _ c1)|].
      split; [exact Hb1|]. by apply (calling_phase _ x Corrupted AwaitBody).
    + destruct (Hd1 (mkReader dec (Some c1)) (d_phase d) Hr1) as (Hb1 & Ho1 & _).
      apply (write_continue_post _ x dec); [exact Hb1|exact Ho1|done|done| |done]. intros d' Hb' Ho'.
      apply (drain_or_post d' (noted_continue x)); [exact Hb'| |exact Ho']. intros d2 Hl2 Hc2 Hcl2 Hp2.
      assert (Ho2 : open_with dec d2 (noted_continue x)) by (destruct Ho' as (Hx1 & Hx2 & Hx3); unfold open_with, current in *; by rewrite Hl2, Hc2).
      destruct Hp2 as [Hp2|[Hp2 Hw2]]; by eapply calling_phase.
    + destruct (Hd1 (mkReader dec (Some c1)) (Calling dec AwaitPoll) Hr1) as (Hb1 & Ho1 & _).
      split; [exact Hb1|]. by apply (calling_phase _ x dec AwaitPoll).
  - apply (feed_body_post _ x); [done|done|]. intros d' x' dec' r Ho' Ha' Hlive Ep'. rewrite Ha in Ha'.
    apply (calling_phase d' x' dec' _ Ep'); [done|done|]. destruct r; simpl; [by apply Hlive|done].
Qed.
Lemma handler_ready_post d dec st r wr safe : disp_ok d -> d_phase d = Calling dec st -> post safe (handler_ready READ_BUF_LIMIT dec st r wr d).
Proof.
  intros [Hb Hph] Ep. destruct (phase_calling d dec st Ep Hph) as (x & Ho & Ha & Hst).
  destruct st; simpl; [by split| | by split|].
  - destruct wr; [|by split]. destruct (disp_write d) as [d' o] eqn:Ew. destruct (disp_write_spec d d' o Hb Hst Ew) as (Hb' & Hs & io & w' & ->).
    apply (try_io_post _ _ _ _ _ _ Ew Hb' Hs). intros u ->. apply (drain_or_post _ x); [exact Hb'| |exact Ho]. intros d2 Hl2 Hc2 Hcl2 Hp2.
    assert (Ho2 : open_with dec d2 x) by (destruct Ho as (Hx1 & Hx2 & Hx3); unfold open_with, current in *; by rewrite Hl2, Hc2).
    destruct Hp2 as [Hp2|[Hp2 Hw2]]; by eapply calling_phase.
  - destruct r; [|by split]. destruct (disp_read READ_BUF_LIMIT d) as [d' o] eqn:Er. destruct (disp_read_spec d d' o Hb Er) as (Hb' & Hs & io & buf & ->).
    apply (try_io_post _ _ _ _ _ _ Er Hb' Hs). intros [n|] ->.
    + destruct (n =? 0).
      * apply (disp_feed_error_post _ x); [exact Hb'|exact Ho|apply Hst|]. intros d' dec' Ho' Ep'. by apply (calling_phase d' x dec' _ Ep').
      * split; [exact Hb'|]. by apply (calling_phase _ x dec AwaitBody).
    + split; [exact Hb'|]. by apply (calling_phase _ x dec AwaitRead).
Qed.

(** *** Responses *)

Lemma head_writer_appends now r c buf :
  head_writer reason date now r c buf
  = (buf ++ (response_head reason date now r (c, [])).1.2,
     match response_head reason date now r (c, []) with
     | ((c', _), Ok enc) => Ok (c', enc) | ((c', _), Err e) => Err (c', e) | (_, Panic) => Panic end).
Proof.
  unfold head_writer, response_head. rewrite encode_head_appends. by destruct (encode_head _ _ _ _ _ _ (c, [])) as [[c' out] [enc|e|]].
Qed.
Lemma response_head_ok now r c c' out enc : response_head reason date now r (c, []) = ((c', out), Ok enc) -> out <> [] /\ encoder_ok enc.
Proof.
  unfold response_head. intros Er.
  pose proof (encode_head_nonempty reason (date now) (rs_version r) (rs_status r) (rs_items r) (rs_size r) c enc) as Hne.
  pose proof (encode_head_encoder reason (date now) (rs_version r) (rs_status r) (rs_items r) (rs_size r) (c, []) enc) as He.
  rewrite Er in Hne, He. split; [by apply Hne|by apply He].
Qed.
Lemma disp_encode_head_cases d r p : pending (d_write d) p ->
  match disp_encode_head reason date r d with
  | (d', Ok enc) => exists w c', d' = set_ctx c' (set_io (d_io d) (d_read d) w d) /\ pending w (p ++ head_bytes reason date r d) /\
      response_head reason date (d_now d) r (d_ctx d, []) = ((c', head_bytes reason date r d), Ok enc)
  | (d', Err e) => (exists w c', d' = set_ctx c' (set_io (d_io d) (d_read d) w d) /\ pending w p) /\ (response_head reason date (d_now d) r (d_ctx d, [])).2 = Err e
  | (_, Panic) => has_room (d_write d) = true -> (response_head reason date (d_now d) r (d_ctx d, [])).2 = Panic
  end.
Proof.
  intros Hp. unfold disp_encode_head, head_bytes. pose proof (head_writer_appends (d_now d) r (d_ctx d)) as Hf. set (f := head_writer _ _ _ _ _) in *.
  destruct (response_head reason date (d_now d) r (d_ctx d, [])) as [[c' out] [enc|e|]] eqn:Er; cbn [fst snd] in *.
  - pose proof (head_writes (d_write d) p f out (c', enc) Hp Hf) as [[Hw|(w & -> & Hw)] Hroom]; [|by exists w, c'].
    destruct (write_buf_head f (d_write d)) as [w [?|?|]]; cbn [fst snd] in *; try done. intros Hr. exfalso.
    apply Hroom; [done|by apply (response_head_ok _ _ _ _ _ _ Er)|done].
  - destruct (write_head_error (d_write d) p f out (c', e) Hp Hf) as (w & -> & Hw). split; [by exists w, c'|done].
  - assert (Hp' : (write_buf_head f (d_write d)).2 = Panic) by (apply write_head_panic; intros buf; by rewrite Hf).
    by destruct (write_buf_head f (d_write d)) as [w [?|?|]].
Qed.

(** A write for the answer of the request in progress. *)
Lemma base_answer d xs x dec a w ctx : base d -> d_log d = xs ++ [x] -> open_with dec d x -> a_encoded a ->
  (forall p, pending (d_write d) p -> exists o, pending w (p ++ o) /\ x_out (noted_answer (fun _ => Some a) x) = x_out x ++ o) ->
  base (set_log (xs ++ [noted_answer (fun _ => Some a) x]) (d_taken d) (d_error d) (set_ctx ctx (set_io (d_io d) (d_read d) w d))).
Proof.
  intros Hb Hl (_ & Hcl & Hr) Ha Hw. destruct (chans_snoc d xs x Hb Hl) as (_ & _ & _ & Hx). set (x' := noted_answer _ x) in *.
  assert (Hx' : x_ok x' (current d)) by (apply (x_ok_reader x x' (current d) (mkReader dec (current d))); [done..| |done]; by intros a' [= <-]).
  pose proof (base_last d xs x x' (current d) (d_read d) w Hb Hl Hcl eq_refl Hw Hx') as Hb'.
  unfold base in Hb' |- *. simpl in Hb'. by rewrite (same_current d xs x Hb Hl) in Hb'.
Qed.
Lemma respond_post d dec st r safe : disp_ok d -> d_phase d = Calling dec st -> (safe -> forall w, has_room w = true) ->
  (safe -> (response_head reason date (d_now d) r (d_ctx d, [])).2 <> Panic) -> post safe (respond reason date dec r d).
Proof.
  intros [Hb Hph] Ep Hroom Hsafe. destruct (phase_calling d dec st Ep Hph) as (x & Ho & Ha & _). pose proof Ho as ((xs & Hl & Hd) & Hcl & Hr).
  destruct (bo_out _ _ _ _ _ _ _ Hb) as (p0 & Hp0 & Hout0). unfold respond. pose proof (disp_encode_head_cases d r p0 Hp0) as Hh.
  destruct (disp_encode_head reason date r d) as [d' [enc|e|]] eqn:Ee.
  - destruct Hh as (w & c' & -> & Hw & Er). set (a := mkAnswer (head_bytes reason date r d) enc [] false).
    assert (Hx : x_out (noted_answer (fun _ => Some a) x) = x_out x ++ head_bytes reason date r d) by (unfold x_out; simpl; rewrite Ha; unfold a_out; simpl; by rewrite !app_nil_r).
    assert (Hb' : base (set_log (xs ++ [noted_answer (fun _ => Some a) x]) (d_taken d) (d_error d) (set_ctx c' (set_io (d_io d) (d_read d) w d)))).
    { apply (base_answer d xs x dec); [done|done|done| |].
      - split; [|done]. by exists (d_now d), r, (d_ctx d), c'.
      - intros p Hp. exists (head_bytes reason date r d). split; [|done]. pose proof (disp_encode_head_cases d r p Hp) as Hh2.
        rewrite Ee in Hh2. destruct Hh2 as (w2 & c2 & Heq & Hw2 & _). by injection Heq as <- <-. }
    unfold await. set (d' := set_phase _ _). assert (Hlog : d_log d' = xs ++ [noted_answer (fun _ => Some a) x]) by (unfold d'; simpl; by rewrite Hl, on_last_snoc).
    split; [unfold base; rewrite Hlog; exact Hb'|]. unfold phase_ok. simpl.
    exists (noted_answer (fun _ => Some a) x), a, []. split_and!; try done.
    + split; [by exists xs|]. by split.
    + by apply (response_head_ok _ _ _ _ _ _ Er).
  - destruct Hh as [(w & c' & -> & Hw) _]. split.
    + destruct Hb as [Bi _ Bk Bd Be]. split; simpl; [done| |done..]. by exists p0.
    + intros _. split; [apply Hcl|]. intros x1 a1 Hx1 Ha1. simpl in Hx1. rewrite Hl, last_snoc in Hx1. congruence.
  - intros Hs. apply (Hsafe Hs), Hh. by apply Hroom.
Qed.

(** *** The body of the response *)

Lemma phase_answering d dec enc rd : d_phase d = Answering dec enc rd -> phase_ok d -> exists x a out, open_with dec d x /\ x_answer x = Some a /\
  a_ended a = false /\ encode_items (a_items a) (a_coding a, []) = ((enc, out), Ok tt) /\ encoder_ok enc /\ (rd = true -> live dec d).
Proof. intros Ep. unfold phase_ok. by rewrite Ep. Qed.
Lemma answering_phase d x a out dec enc rd : d_phase d = Answering dec enc rd -> open_with dec d x -> x_answer x = Some a -> a_ended a = false ->
  encode_items (a_items a) (a_coding a, []) = ((enc, out), Ok tt) -> encoder_ok enc -> (rd = true -> live dec d) -> phase_ok d.
Proof. intros Ep ????? ?. unfold phase_ok. rewrite Ep. by exists x, a, out. Qed.

(** What the items of the body allow: not more than the declared length, and not less. *)
Definition item_ok (enc : TransferCoding) (b : bytes) : Prop := b = [] \/ forall n, enc = Length n -> 0 < n.
Definition end_ok (enc : TransferCoding) : Prop := forall n, enc = Length n -> n = 0.

Lemma encode_item_post d dec enc rd b safe : disp_ok d -> d_phase d = Answering dec enc rd -> has_room (d_write d) = true ->
  (safe -> item_ok enc b) -> post safe (encode_item dec enc b d).
Proof.
  intros [Hb Hph] Ep Hroom Hsafe. destruct (phase_answering d dec enc rd Ep Hph) as (x & a & out & Ho & Ha & Hen & Hit & Hok & _).
  pose proof Ho as ((xs & Hl & Hd) & Hcl & Hr). unfold encode_item.
  destruct (chans_snoc d xs x Hb Hl) as (_ & _ & _ & Hx). destruct (xo_answer _ _ Hx a Ha) as [Hfrom _].
  destruct (encode_flat (E := Error) b enc Hok) as (enc' & o & Hok' & Hflat). set (a' := add_item b a).
  assert (Hit' : encode_items (a_items a') (a_coding a', []) = ((enc', out ++ o), Ok tt)).
  { simpl. rewrite (encode_items_snoc _ _ _ _ _ Hit). apply Hflat. }
  assert (Henc : forall p, pending (d_write d) p -> encodes (d_write d) ((enc', p ++ o), Ok tt) (encode_into (E := Error) b (enc, d_write d))).
  { intros p Hp. rewrite <- (proj1 (Hflat p)). by apply encode_into_encodes. }
  destruct (bo_out _ _ _ _ _ _ _ Hb) as (p0 & Hp0 & _). pose proof (Henc p0 Hp0) as He0.
  destruct (encode_into b (enc, d_write d)) as [[enc1 w] r] eqn:Ei. destruct He0 as [Hpan|(w' & [= -> <- ->] & _)].
  { simpl in Hpan. subst r. intros Hs. destruct (Hsafe Hs) as [->|Hlen].
    - unfold encode_into in Ei. by rewrite bool_decide_eq_true_2 in Ei.
    - apply (encode_into_panic (E := Error) enc b (d_write d) p0); [done|done| | |by rewrite (proj1 (Hflat p0))|by rewrite Ei].
      + intros ->. by specialize (Hlen 0 eq_refl).
      + intros n Hn. specialize (Hlen n Hn). lia. }
  assert (Hxn : noted_answer (fmap (add_item b)) x = noted_answer (fun _ => Some a') x) by (unfold noted_answer; by rewrite Ha).
  assert (Hb' : base (set_log (xs ++ [noted_answer (fun _ => Some a') x]) (d_taken d) (d_error d) (set_ctx (d_ctx d) (set_io (d_io d) (d_read d) w d)))).
  { apply (base_answer d xs x dec); [done|done|done| |].
    - split; [done|]. change (a_ended a') with (a_ended a). by rewrite Hen, Hit'.
    - intros p Hp. exists o. destruct (Henc p Hp) as [?|(w2 & [= <-] & Hp2)]; [done|]. split; [done|].
      unfold x_out. simpl. rewrite Ha. unfold a_out. change (a_ended a') with (a_ended a). change (a_head a') with (a_head a).
      by rewrite Hen, Hit', Hit, <- !app_assoc. }
  unfold await. set (d' := set_phase _ _).
  assert (Hlog : d_log d' = xs ++ [noted_answer (fun _ => Some a') x]) by (unfold d'; simpl; by rewrite Hl, on_last_snoc, <- Hxn).
  split; [unfold base; rewrite Hlog; exact Hb'|].
  apply (answering_phase d' (noted_answer (fun _ => Some a') x) a' (out ++ o) dec enc' false); try done.
  split; [by exists xs|]. by split.
Qed.

Lemma drop_sender_ok x tx : x_ok x tx -> x_ok x ((fun c => (drop_sender c).1) <$> tx).
Proof.
  intros [Hp Hbd Hn Hc Ha]. split; [done|done| | |done].
  - destruct tx; [done|]. intros _. by apply Hn.
  - destruct tx as [c|]; [|done]. intros c' [= <-]. destruct (Hc c eq_refl) as [Hh He]. destruct (drop_sender_same c) as [Hs Hi].
    rewrite Hi. split; [by apply (same_items_holds _ _ c)|done].
Qed.
Lemma drop_body_reader_base d : base d -> base (drop_body_reader d).
Proof.
  intros Hb. assert (Hd : base (set_current ((fun c => (drop_sender c).1) <$> current d) d)); [|unfold drop_body_reader; by destruct (d_phase d)].
  destruct (d_log d) as [|x xs _] eqn:Hl using rev_ind.
  - pose proof (bo_ok _ _ _ _ _ _ _ Hb) as Hf. rewrite Hl in Hf. apply Forall2_nil_inv_l in Hf. unfold base in *. simpl. rewrite Hf in *. by unfold on_last.
  - destruct (chans_snoc d xs x Hb Hl) as (cs & Hc & Hf & Hx). destruct Hb as [Bi Bo _ Bd Be]. split; [done|done| |done|done].
    simpl. rewrite Hl, Hc, on_last_snoc. apply Forall2_app; [done|]. constructor; [by apply drop_sender_ok|constructor].
Qed.
Lemma drop_body_reader_log d : d_log (drop_body_reader d) = d_log d /\ d_taken (drop_body_reader d) = d_taken d /\ d_error (drop_body_reader d) = d_error d.
Proof. unfold drop_body_reader. by destruct (d_phase d). Qed.

Lemma body_end_post d dec enc rd safe : disp_ok d -> d_phase d = Answering dec enc rd -> has_room (d_write d) = true ->
  (safe -> end_ok enc) -> post safe (body_end READ_BUF_LIMIT dec enc d).
Proof.
  intros [Hb Hph] Ep Hroom Hsafe. destruct (phase_answering d dec enc rd Ep Hph) as (x & a & out & Ho & Ha & Hen & Hit & Hok & _).
  pose proof Ho as ((xs & Hl & Hd) & Hcl & Hr). unfold body_end.
  destruct (chans_snoc d xs x Hb Hl) as (_ & _ & _ & Hx). destruct (xo_answer _ _ Hx a Ha) as [Hfrom _].
  destruct (bo_out _ _ _ _ _ _ _ Hb) as (p0 & Hp0 & _). pose proof (encode_eof_into_encodes (E := Error) enc (d_write d) p0 Hp0) as He0.
  assert (Hcases : (encode_eof (E := False) (enc, [])).2 = Panic \/ (encode_eof (E := False) (enc, [])).2 <> Panic) by (destruct (encode_eof (enc, [])) as [? []]; auto).
  destruct Hcases as [Hbad|Hgood].
  { assert (Hnot : ~ end_ok enc).
    { intros Hen0. destruct enc as [| |n| | |]; simpl in Hbad; try done. rewrite (Hen0 n eq_refl) in Hbad. done. }
    assert (Hp : (encode_eof_into (E := Error) (enc, d_write d)).2 = Panic) by (destruct enc as [| |n| | |]; simpl in *; try done; by destruct n).
    destruct (encode_eof_into (enc, d_write d)) as [[e1 w] [u|e|]]; simpl in Hp; try done. intros Hs. by apply Hnot, Hsafe. }
  destruct (encode_eof_flat (E := Error) enc Hgood) as (enc' & o & Hflat). set (a' := end_answer a).
  assert (Hall : encode_all (E := False) (a_items a') (a_coding a', []) = ((enc', out ++ o), Ok tt)).
  { simpl. rewrite (encode_items_all _ _ _ _ Hit). apply Hflat. }
  assert (Henc : forall p, pending (d_write d) p -> encodes (d_write d) ((enc', p ++ o), Ok tt) (encode_eof_into (E := Error) (enc, d_write d))).
  { intros p Hp. rewrite <- (proj1 (Hflat p)). by apply encode_eof_into_encodes. }
  clear He0. pose proof (Henc p0 Hp0) as He0.
  destruct (encode_eof_into (enc, d_write d)) as [[enc1 w] r] eqn:Ei. destruct He0 as [Hpan|(w' & [= -> <- ->] & _)].
  { exfalso. apply (encode_eof_into_panic (E := Error) enc (d_write d) p0); [done|done|by rewrite (proj1 (Hflat p0))|]. by rewrite Ei. }
  set (x' := noted_answer (fun _ => Some a') x).
  assert (Hxn : noted_answer (fmap end_answer) x = x') by (unfold x', noted_answer; by rewrite Ha).
  assert (Hb' : base (set_log (xs ++ [x']) (d_taken d) (d_error d) (set_ctx (d_ctx d) (set_io (d_io d) (d_read d) w d)))).
  { apply (base_answer d xs x dec); [done|done|done| |].
    - split; [done|]. by rewrite Hall.
    - intros p Hp. exists o. destruct (Henc p Hp) as [?|(w2 & [= <-] & Hp2)]; [done|]. split; [done|].
      unfold x_out. simpl. rewrite Ha. unfold a_out. change (a_head a') with (a_head a). simpl a_ended. rewrite Hen. cbn [a_items a_coding] in Hall. by rewrite Hall, Hit, <- !app_assoc. }
  set (d1 := note _ _). assert (Hlog : d_log d1 = xs ++ [x']) by (unfold d1; simpl; by rewrite Hl, on_last_snoc, <- Hxn).
  assert (Hb1 : base d1) by (unfold base; rewrite Hlog; exact Hb').
  pose proof (drop_body_reader_base d1 Hb1) as Hb2. destruct (drop_body_reader_log d1) as (L1 & L2 & L3).
  pose proof (ro_at _ _ _ _ _ Hr) as Hat. simpl in Hat. destruct (is_eof (E := Error) dec) as [e|e|] eqn:Ee.
  - destruct e; simpl.
    + destruct dec; try done. apply next_request_post; [done|]. split.
      * rewrite L1, Hlog. apply Forall_app. split; [done|]. constructor; [|done]. split; [by apply body_at_live in Hat|]. by exists a'.
      * by split; rewrite ?L2, ?L3; apply Hcl.
    + split; [exact Hb2|]. simpl. by rewrite set_close_closed.
  - by destruct dec.
  - destruct dec; try done. exfalso. unfold body_at in Hat. rewrite decide_False in Hat by done. by destruct (x_coding x).
Qed.
Lemma feed_error_awaits d x dec e enc : base d -> open_with dec d x -> dec <> Eof ->
  (forall d' dec', open_with dec' d' x -> d_phase d' = Answering dec' enc false -> phase_ok d') ->
  exists d', disp_feed_error dec (IoKind e) (fun dec => Answering dec enc false) d = (d', Ok Awaits) /\ disp_ok d' /\ d_write d' = d_write d /\
    exists dec', d_phase d' = Answering dec' enc false /\ open_with dec' d' x.
Proof.
  intros Hb Ho He Hk. assert (Hp : forall safe, post safe (disp_feed_error dec (IoKind e) (fun dec => Answering dec enc false) d))
    by (intros safe; by apply (disp_feed_error_post d x)). destruct Ho as ((xs & Hl & Hd) & Hcl & Hr).
  destruct (feed_error_ok _ _ _ _ _ (IoKind e) Hr He) as (br & Hbr & _ & _ & Hr'). unfold disp_feed_error in *. rewrite Hbr in *. unfold await in *.
  eexists. split; [done|]. split; [exact (Hp True)|]. split; [done|]. exists (br_decoder br). split; [done|].
  by apply (open_last d _ xs x x br).
Qed.
Lemma answer_ready_post d dec enc rd r wr safe : disp_ok d -> d_phase d = Answering dec enc rd -> (r = true -> rd = true) ->
  (wr = true -> want_write_io (d_write d) = true) -> post safe (answer_ready READ_BUF_LIMIT dec enc r wr d).
Proof.
  intros [Hb Hph] Ep Hrd Hwr. destruct (phase_answering d dec enc rd Ep Hph) as (x & a & out & Ho & Ha & Hen & Hit & Hok & Hlive).
  assert (Hk : forall d' dec', open_with dec' d' x -> d_phase d' = Answering dec' enc false -> phase_ok d') by (intros; by eapply answering_phase).
  set (first := (if r then answer_readable READ_BUF_LIMIT dec enc else await (Answering dec enc false)) : Step).
  assert (Hfirst : exists d', first d = (d', Ok Awaits) /\ disp_ok d' /\ d_write d' = d_write d /\ exists dec', d_phase d' = Answering dec' enc false /\ open_with dec' d' x).
  { unfold first. destruct r; [|eexists; split; [done|]; split; [split; [exact Hb|by apply (Hk _ dec)]|by split; [|exists dec]]].
    unfold answer_readable. destruct (disp_read READ_BUF_LIMIT d) as [d1 o] eqn:Er. destruct (disp_read_spec d d1 o Hb Er) as (Hb1 & Hs & io & buf & ->).
    pose proof (fun e => feed_error_awaits (set_io io buf (d_write d) d) x dec e enc Hb1 Ho (proj2 (Hlive (Hrd eq_refl))) Hk) as Hfe.
    assert (Hgo : exists d', (await (Answering dec enc false) : Step) (set_io io buf (d_write d) d) = (d', Ok Awaits) /\ disp_ok d' /\ d_write d' = d_write d /\
       exists dec', d_phase d' = Answering dec' enc false /\ open_with dec' d' x).
    { eexists. split; [done|]. split; [split; [exact Hb1|by apply (Hk _ dec)]|by split; [|exists dec]]. }
    destruct o as [[n|]|e|]; [|exact Hgo|apply Hfe|by destruct Hs]. destruct n; [apply Hfe|exact Hgo..]. }
  destruct Hfirst as (d' & Hf & Hd' & Hw' & dec' & Ep' & Ho'). unfold answer_ready. fold first. unfold mbind at 1, M_bind. rewrite Hf.
  destruct wr; [|exact Hd']. destruct Hd' as [Hb' Hph']. destruct (disp_write d') as [d2 o] eqn:Ew.
  destruct (disp_write_spec d' d2 o Hb' ltac:(rewrite Hw'; auto) Ew) as (Hb2 & Hs & io & w & ->).
  apply (try_io_post _ _ _ _ _ _ Ew Hb2 Hs). intros u ->. split; [exact Hb2|]. by apply (Hk _ dec').
Qed.

(** *** The loop around it *)

Lemma drain_start_ok d : base d -> (is_connection_closed (d_ctx d) = false -> idle d) -> disp_ok (drain_start d).
Proof.
  intros Hb Hi. unfold drain_start, after_drain. destruct (want_write_io (d_write d)) eqn:Ew; [by split; [exact Hb|]|].
  destruct (is_connection_closed (d_ctx d)) eqn:Ec; [by split; [exact Hb|]|]. split; [exact Hb|]. split; [by apply Hi|].
  simpl. unfold timer_update. by destruct (t_state (d_timer d)) eqn:Et; simpl; rewrite ?Et.
Qed.
Lemma error_head now st c : 300 <= st -> exists out enc,
  response_head reason date now (error_response st) (c, []) = ((replace_headers c hm_empty, out), Ok enc).
Proof.
  intros Hst. unfold response_head, encode_head. cbn [rs_status rs_version rs_items rs_size error_response].
  rewrite (proj2 (Z.eqb_neq st _)) by (unfold StatusCode.SWITCHING_PROTOCOLS; lia).
  rewrite (proj2 (Z.ltb_ge st 300)), (proj2 (Z.ltb_ge st 200)), !andb_false_r by lia.
  unfold encode_headers. cbn [encode_fields e_ctx e_skip_ct_te e_buf e_encoding e_skip_date fst snd]. unfold try_remove_body.
  destruct (is_head_method c); simpl; by eexists _, _.
Qed.
Definition handled (safe : Prop) (r : Disp * outcome Error unit) : Prop :=
  match r with
  | (d, Ok _) => base d /\ is_connection_closed (d_ctx d) = true
  | (d, Err _) => base d
  | (_, Panic) => ~ safe
  end.
Lemma handle_error_handled d e safe : base d -> (answered e -> quiet d) -> (safe -> forall w, has_room w = true) -> handled safe (handle_error reason date e d).
Proof.
  intros Hb Hq Hroom. set (d1 := set_ctx (set_close (d_ctx d)) d).
  assert (Hresp : answered e -> forall st, 300 <= st -> handled safe
    match disp_encode_head reason date (error_response st) d1 with
    | (d', Ok _) => (set_log (d_log d1) (d_taken d1) (head_bytes reason date (error_response st) d1) d', Ok tt)
    | (d', _) => (d', Panic)
    end).
  { intros Ha st Hst. destruct (Hq Ha) as [He Hlast]. destruct Hb as [Bi (p & Hp & Bo) Bk Bd Be].
    pose proof (disp_encode_head_cases d1 (error_response st) p Hp) as Hc. destruct (error_head (d_now d1) st (d_ctx d1) Hst) as (out & enc & Heq).
    unfold head_bytes in *. rewrite Heq in *. simpl in Hc |- *. destruct (disp_encode_head _ _ _ d1) as [d' [enc'|e'|]] eqn:Ed.
    - destruct Hc as (w & c' & -> & Hw & Hcc). injection Hcc as <- _. split; [|apply set_close_closed].
      split; simpl; [done| |done|done|]. { exists (p ++ out). split; [done|]. by rewrite app_assoc, Bo, He, app_nil_r. }
      intros _. exact Hlast.
    - by destruct Hc as [_ ?].
    - intros Hs. by discriminate (Hc (Hroom Hs _)). }
  unfold handle_error. fold d1. destruct e as [| | |e|e|e|e]; try exact Hb.
  - split; [exact Hb|apply set_close_closed].
  - by apply Hresp.
  - destruct e; by apply Hresp.
Qed.
Lemma settle_ok r safe : post safe r -> (safe -> forall w, has_room w = true) ->
  match settle reason date r with Ok d => disp_ok d | Err _ => True | Panic => ~ safe end.
Proof.
  intros Hp Hroom. destruct r as [d [[]|e|]]; simpl in *; [done| | |done].
  - destruct Hp. by apply drain_start_ok.
  - destruct Hp as [Hb Hq]. destruct (drop_body_reader_log d) as (L1 & L2 & L3).
    pose proof (handle_error_handled (drop_body_reader d) e safe (drop_body_reader_base d Hb)) as Hh.
    destruct (handle_error reason date e (drop_body_reader d)) as [d' [u|e'|]]; simpl in Hh.
    + destruct Hh as [Hb' Hc]; [|done|]. { unfold quiet in *. by rewrite L1, L3. } apply drain_start_ok; [done|]. by rewrite Hc.
    + split; [|done]. apply Hh; [|done]. unfold quiet in *. by rewrite L1, L3.
    + apply Hh; [|done]. unfold quiet in *. by rewrite L1, L3.
Qed.
Lemma run_io_ok {A} d (o : outcome Error A) (k : Disp -> Disp) safe : base d -> (o = Panic -> ~ safe) -> (forall a, o = Ok a -> disp_ok (k d)) ->
  match run_io (d, o) k with Ok d => disp_ok d | Err _ => True | Panic => ~ safe end.
Proof. intros Hb Hs Hk. destruct o as [a|e|]; simpl; [by apply (Hk a)|by split|by apply Hs]. Qed.
End Connection.
