(* ===== verification/H1Pipeline.v ===== *)
(** * HTTP/1 connections: pipelined requests, their bodies and answers

    The invariant of [H1Server] holds along every run of the dispatcher; the theorems read off
    what the peer and the service can rely on.  At the end, runs that show what goes wrong. *)

From S2P Require Import Prelude Decimal Http BoundQueue BufList H1Codec H1Head WriteBuffers H1Body H1Dispatch H1Server.

(** ** The service's end of a request body *)

Lemma poll_next_items t c :
  let '(c', _, r) := poll_next t c in
  reader_alive c' = reader_alive c /\ i_eof (ch c') = i_eof (ch c) /\
  i_items (ch c) = match r with Some (Some (inr b)) => b :: i_items (ch c') | _ => i_items (ch c') end.
Proof.
  unfold poll_next, poll_next_unpin, wake_io, register. destruct c as [[e l er it tk io] ra sa]. simpl.
  destruct it as [|b it]; [|done]. destruct er as [e0|]; [done|]. destruct e; [done|]. by destruct tk as [t0|]; simpl; repeat case_match; simplify_eq.
Qed.
Lemma drop_reader_items c : i_items (ch (drop_reader c).1) = i_items (ch c) /\ i_eof (ch (drop_reader c).1) = i_eof (ch c) /\ reader_alive (drop_reader c).1 = false.
Proof. unfold drop_reader, drop_error. destruct c as [[e l er it tk io] ra sa]; simpl. by destruct sa, e. Qed.
Lemma alter_is_insert {A} (f : A -> A) (l : list A) k a : l !! k = Some a -> alter f k l = <[k := f a]> l.
Proof. revert k. induction l as [|b l IH]; intros [|k]; simpl; try done; [by intros [= ->]|]. intros H. f_equal. by apply IH. Qed.
Lemma insert_snoc_last {A} (l : list A) a b : <[length l := b]> (l ++ [a]) = l ++ [b].
Proof. rewrite insert_app_r_alt by lia. by rewrite Nat.sub_diag. Qed.

Section Runs.
Context `{HP : Httparse} {W Io SE BE : Type} `{!WriteBuffer W, !WriteBufferLaws W, !IoRead Io, !IoWrite Io, !IoWriteLaws Io, !IoLaws Io}.
Context (READ_BUF_LIMIT : Z) (reason : Z -> option bytes) (date : Z -> bytes).
Abbreviation Disp := (@Disp HM W Io SE BE).
Abbreviation disp_ok := (disp_ok (SE := SE) (BE := BE) READ_BUF_LIMIT reason date).
Abbreviation base := (base (SE := SE) (BE := BE) READ_BUF_LIMIT reason date).
Implicit Types (d : Disp) (x : Exchange).

(** The service reads an item of the body of request [k], or gives the body up. *)
Definition with_got (g : bytes) x : Exchange := mkExchange (x_head x) (x_coding x) (x_raw x) (x_data x) g (x_continue x) (x_answer x).
Definition served (k : nat) (x : Exchange) (g : bytes) (c' : Channel) d : Disp :=
  set_log (<[k := with_got g x]> (d_log d)) (d_taken d) (d_error d) (set_chans (<[k := Some c']> (d_chans d)) d).
Lemma served_last d k x g c' xs y : d_log d !! k = Some x -> d_log d = xs ++ [y] ->
  exists xs' y', d_log (served k x g c' d) = xs' ++ [y'] /\ (Forall x_done xs -> Forall x_done xs') /\ (y' = y \/ exists g, y' = with_got g y).
Proof.
  intros Hx Hl. simpl. rewrite Hl in *. destruct (decide (k < length xs)%nat) as [Hlt|Hge].
  - rewrite lookup_app_l in Hx by done. rewrite insert_app_l by done. exists (<[k := with_got g x]> xs), y. split; [done|]. split; [|auto].
    intros Hd. apply Forall_insert; [done|]. exact (Forall_lookup_1 _ _ _ _ Hd Hx).
  - assert (k = length xs) as -> by (apply lookup_lt_Some in Hx; rewrite length_app in Hx; simpl in Hx; lia).
    rewrite lookup_app_r, Nat.sub_diag in Hx by lia. injection Hx as <-. rewrite insert_snoc_last. exists xs, (with_got g y). split; [done|]. split; [done|]. right. by exists g.
Qed.
Lemma served_open d k x c g c' dec y : base d -> d_log d !! k = Some x -> d_chans d !! k = Some (Some c) -> i_eof (ch c') = i_eof (ch c) ->
  (chan_holds (x_got x) (x_data x) c -> chan_holds g (x_data x) c') -> open_with dec d y ->
  exists y', open_with dec (served k x g c' d) y' /\ x_answer y' = x_answer y /\ x_continue y' = x_continue y /\
    (current (served k x g c' d) <> None <-> current d <> None).
Proof.
  intros Hb Hx Hc He Hh ((xs & Hl & Hd) & Hcl & Hr). destruct (chans_snoc _ _ _ d xs y Hb Hl) as (cs & Hcs & Hf & _).
  assert (Hlen : length xs = length cs) by (by eapply Forall2_length).
  unfold open_with, served. simpl. destruct (decide (k < length xs)%nat) as [Hlt|Hge].
  - assert (Hcur : current (set_chans (<[k := Some c']> (d_chans d)) d) = current d).
    { rewrite Hcs at 1. rewrite insert_app_l by lia. by apply (current_snoc _ (<[k := Some c']> cs)). }
    exists y. unfold current in *. simpl in *. rewrite Hcur, Hl in *. split; [|done]. split; [|done]. rewrite lookup_app_l in Hx by done. rewrite insert_app_l by done.
    exists (<[k := with_got g x]> xs). split; [done|]. apply Forall_insert; [done|]. exact (Forall_lookup_1 _ _ _ _ Hd Hx).
  - assert (k = length xs) as -> by (apply lookup_lt_Some in Hx; rewrite Hl, length_app in Hx; simpl in Hx; lia).
    rewrite Hl, lookup_app_r, Nat.sub_diag in Hx by lia. injection Hx as <-. rewrite Hcs, lookup_app_r, Hlen, Nat.sub_diag in Hc by lia. injection Hc as Hcu.
    assert (Hcur : current (set_chans (<[length xs := Some c']> (d_chans d)) d) = Some c').
    { apply (current_snoc _ cs). simpl. by rewrite Hcs, Hlen, insert_snoc_last. }
    exists (with_got g y). unfold current in *. simpl in *. rewrite Hcur, Hcu in *. split; [|done]. split; [exists xs; by rewrite Hl, insert_snoc_last|]. split; [done|].
    destruct Hr as [Hat _ Hch]. split; simpl; [done|done|]. intros c1 [= <-]. destruct (Hch c eq_refl) as [Hho Heo]. rewrite He. split; [by apply Hh|done].
Qed.
Lemma served_ok d k x c g c' : disp_ok d -> d_log d !! k = Some x -> d_chans d !! k = Some (Some c) ->
  i_eof (ch c') = i_eof (ch c) -> (chan_holds (x_got x) (x_data x) c -> chan_holds g (x_data x) c') -> disp_ok (served k x g c' d).
Proof.
  intros [Hb Hph] Hx Hc He Hh. pose proof (bo_ok _ _ _ _ _ _ _ _ _ _ Hb) as Hf. set (x' := with_got g x).
  assert (Hfm : forall (f : Exchange -> bytes), f x' = f x -> f <$> <[k := x']> (d_log d) = f <$> d_log d).
  { intros f Hfx. rewrite list_fmap_insert, Hfx. apply list_insert_id. by rewrite list_lookup_fmap, Hx. }
  assert (Hxo : x_ok READ_BUF_LIMIT reason date x (Some c)) by (by eapply Forall2_lookup_lr).
  assert (Hxo' : x_ok READ_BUF_LIMIT reason date x' (Some c')).
  { destruct Hxo as [Hp Hbd _ Hch Ha]. split; [done|done|done| |done]. intros c1 [= <-]. destruct (Hch c eq_refl) as [Hho Heo]. rewrite He. by split; [apply Hh|]. }
  assert (Hall : Forall x_done (d_log d) -> Forall x_done (<[k := x']> (d_log d))).
  { intros Hd. apply Forall_insert; [done|]. exact (Forall_lookup_1 _ _ _ _ Hd Hx). }
  assert (Hidle : idle d -> idle (served k x g c' d)) by (intros [Hd Hcl]; split; [by apply Hall|exact Hcl]).
  split.
  - pose proof Hb as [Bi Bo Bk Bd Be]. destruct (d_log d) as [|y xs _] eqn:Hl using rev_ind; [done|]. rewrite <- Hl in *.
    destruct (served_last d k x g c' xs y Hx Hl) as (xs' & y' & Hl' & Hd' & Hy). simpl in Hl'. split; simpl.
    + by rewrite Hfm.
    + by rewrite Hfm.
    + by apply Forall2_insert.
    + rewrite Hl in Bd. change (<[k:=with_got g x]> (d_log d)) with (d_log (served k x g c' d)). simpl. rewrite Hl'. rewrite removelast_last in *. by apply Hd'.
    + intros Hne z a. rewrite Hl', last_snoc. intros [= <-] Ha. apply (Be Hne y a); [by rewrite Hl, last_snoc|]. by destruct Hy as [->|[? ->]].
  - unfold phase_ok in *. simpl. destruct (d_phase d) as [|dec st|dec enc rd| | |]; try done.
    + destruct Hph. by split; [apply Hidle|].
    + destruct Hph as (y & Ho & Ha & Hst). destruct (served_open d k x c g c' dec y Hb Hx Hc He Hh Ho) as (y' & Ho' & Ha' & Hc' & Hcur).
      exists y'. split; [done|]. split; [by rewrite Ha'|]. unfold stage_ok, live in *. destruct st; try done; rewrite ?Hcur, ?Hc'; done.
    + destruct Hph as (y & a & out & Ho & Ha & Hen & Hit & Hok & Hlive). destruct (served_open d k x c g c' dec y Hb Hx Hc He Hh Ho) as (y' & Ho' & Ha' & Hc' & Hcur).
      exists y', a, out. rewrite Ha'. split_and!; try done. unfold live in *. by rewrite Hcur.
    + destruct Hph. split; [done|]. auto.
Qed.
Lemma service_poll_ok d k : disp_ok d -> disp_ok (service_poll k d).
Proof.
  intros Hd. unfold service_poll. destruct (d_chans d !! k) as [[c|]|] eqn:Hc; [|done..]. destruct (reader_alive c) eqn:Hra; [|done].
  pose proof (poll_next_items SERVICE_TASK c) as Hp. destruct (poll_next SERVICE_TASK c) as [[c' wk] r]. destruct Hp as (Hra' & He & Hit).
  pose proof (bo_ok _ _ _ _ _ _ _ _ _ _ (proj1 Hd)) as Hf. destruct (Forall2_lookup_r _ _ _ _ _ Hf Hc) as (x & Hx & _).
  assert (Hsame : i_items (ch c) = i_items (ch c') -> disp_ok (set_chans (<[k := Some c']> (d_chans d)) d)).
  { intros Hi. pose proof (served_ok d k x c (x_got x) c' Hd Hx Hc He) as Hs. unfold served in Hs.
    replace (with_got (x_got x) x) with x in Hs by (by destruct x). rewrite list_insert_id in Hs by done. destruct d; apply Hs. unfold chan_holds. by rewrite Hi, Hra'. }
  destruct r as [[[e|b]|]|]; [by apply Hsame| |by apply Hsame..].
  simpl. rewrite (alter_is_insert _ _ _ x Hx). apply (served_ok d k x c (x_got x ++ b) c' Hd Hx Hc He).
  intros (rest & Hdata & Hal). exists rest. rewrite Hra'. split; [|done]. rewrite Hdata, Hit. change (mjoin (b :: i_items (ch c'))) with (b ++ mjoin (i_items (ch c'))). by rewrite <- !app_assoc.
Qed.
Lemma service_drop_ok d k : disp_ok d -> disp_ok (service_drop k d).
Proof.
  intros Hd. unfold service_drop. destruct (d_chans d !! k) as [[c|]|] eqn:Hc; [|done..]. destruct (reader_alive c) eqn:Hra; [|done].
  destruct (drop_reader_items c) as (Hi & He & Hr). pose proof (bo_ok _ _ _ _ _ _ _ _ _ _ (proj1 Hd)) as Hf. destruct (Forall2_lookup_r _ _ _ _ _ Hf Hc) as (x & Hx & _).
  pose proof (served_ok d k x c (x_got x) (drop_reader c).1 Hd Hx Hc He) as Hs. unfold served in Hs.
  replace (with_got (x_got x) x) with x in Hs by (by destruct x). rewrite list_insert_id in Hs by done. destruct d; apply Hs.
  unfold chan_holds. rewrite Hi, Hr. intros (rest & Hdata & _). by exists rest.
Qed.

(** ** Steps and runs *)

(** What the dispatcher relies on: the runtime reports no error that asks to try again; a
    response's head can be encoded, and its body is as long as it declares; and the body of a
    request that expects [CONTINUE] is waited for only if there is one. *)
Definition ev_ok (ev : Event (SE := SE) (BE := BE)) d : Prop :=
  match ev, d_phase d with
  | ReadyError e, _ | Shutdown (Some e), _ => e <> WouldBlock /\ e <> Interrupted
  | Poll, Calling _ AwaitPoll => current d <> None
  | Respond r, Calling _ _ => (response_head reason date (d_now d) r (d_ctx d, [])).2 <> Panic
  | Item b, Answering _ enc _ => item_ok enc b
  | BodyEnded, Answering _ enc _ => end_ok enc
  | _, _ => True
  end.
Definition unbounded : Prop := forall w : W, has_room w = true.

Definition stepped (safe : Prop) (o : outcome False Disp) : Prop :=
  match o with Ok d => disp_ok d | Err _ => True | Panic => ~ safe end.
Lemma disp_step_ok ev d : disp_ok d -> stepped (unbounded /\ ev_ok ev d) (disp_step READ_BUF_LIMIT reason date ev d).
Proof.
  intros Hd. set (safe := unbounded /\ ev_ok ev d). assert (Hroom : safe -> forall w : W, has_room w = true) by (by intros [? _]).
  pose proof Hd as [Hb Hph].
  assert (Hset : forall r, post READ_BUF_LIMIT reason date safe r -> stepped safe (settle reason date r)) by (intros r Hr; by apply (settle_ok READ_BUF_LIMIT reason date r safe)).
  assert (Herr : forall e, (safe -> e <> WouldBlock /\ e <> Interrupted) -> stepped safe (settle reason date (d, error_from_io e))) by (intros e He; by apply Hset, error_post).
  destruct ev as [t|r wr|e|t| |r|e|b|e| |k|k|e]; cbn [disp_step].
  - destruct (d_phase d) eqn:Ep; (split; [exact Hb|]); unfold phase_ok in *; simpl; rewrite Ep in *; exact Hph.
  - destruct (d_phase d) as [|dec st|dec enc rd| | |] eqn:Ep; try exact Hd.
    + destruct r; [|exact Hd]. by apply Hset, read_head_post.
    + by apply Hset, handler_ready_post.
    + unfold interest. destruct (rd && r || want_write_io (d_write d) && wr) eqn:Ei; [|exact Hd].
      apply Hset, (answer_ready_post _ _ _ d dec enc rd); [done|done|by intros [? _]%andb_prop|by intros [? _]%andb_prop].
    + destruct wr; [|exact Hd]. unfold phase_ok in Hph. rewrite Ep in Hph. destruct Hph as [Hw Hi]. destruct (disp_write d) as [d' o] eqn:Ew.
      destruct (disp_write_spec READ_BUF_LIMIT reason date d d' o Hb Hw Ew) as (Hb' & Hs & io & w & ->). unfold try_io. rewrite Ew.
      assert (Hk : disp_ok (if want_write_io w then set_io io (d_read d) w d else after_drain (set_io io (d_read d) w d))).
      { pose proof (drain_start_ok READ_BUF_LIMIT reason date _ Hb' Hi) as Hds. unfold drain_start in Hds. simpl in Hds. destruct (want_write_io w) eqn:Eww; [|exact Hds].
        split; [exact Hb'|]. unfold phase_ok. simpl. by rewrite Ep. }
      destruct Hs as (Hs1 & Hs2 & Hs3). destruct o as [u|e|]; [exact Hk| |done]. destruct e; simpl; try done; by split.
  - destruct (d_phase d) as [|dec [| | |]|dec enc rd| | |] eqn:Ep; try exact Hd; try (apply Herr; by intros [_ ?]).
    + destruct (rd || _); [|exact Hd]. apply Herr. by intros [_ ?].
    + apply run_io_ok; [exact Hb| |by destruct e]. intros He [_ [H1 H2]]. by destruct e.
  - destruct (d_phase d) eqn:Ep; try exact Hd. unfold phase_ok in Hph. rewrite Ep in Hph. destruct Hph as [Hi Hts].
    destruct (ka_poll t _) as [ka fired]. set (tm := mkTimer _ _ _ _). assert (Hb' : base (set_timer tm d)) by exact Hb.
    destruct fired; [|split; [exact Hb|]; unfold phase_ok; simpl; by rewrite Ep]. apply Hset.
    pose proof (idle_quiet d Hi) as Hq. unfold map_to_err. simpl. destruct (t_state (d_timer d)); [done|by split|by split].
  - destruct (d_phase d) as [|dec st|dec enc rd| | |] eqn:Ep; try exact Hd.
    + apply Hset, handler_poll_post; [done|done|done|]. intros [_ Hs] ->. unfold ev_ok in Hs. by rewrite Ep in Hs.
    + destruct rd; [exact Hd|]. destruct (phase_answering d dec enc false Ep Hph) as (x & a & out & Ho & Ha & Hen & Hit & Hok & _).
      apply Hset, (feed_body_post _ _ _ d x); [done|done|]. intros d' x' dec' r Ho' Ha' Hlive Ep'.
      apply (answering_phase d' x' a out dec' enc r); try done. by rewrite Ha'.
  - destruct (d_phase d) as [|dec st|dec enc rd| | |] eqn:Ep; try exact Hd.
    apply Hset, (respond_post _ _ _ d dec st); [done|done|done|]. intros [_ Hs]. unfold ev_ok in Hs. by rewrite Ep in Hs.
  - destruct (d_phase d) as [|dec st|dec enc rd| | |] eqn:Ep; try exact Hd. by apply Hset.
  - destruct (d_phase d) as [|dec st|dec enc rd| | |] eqn:Ep; try exact Hd. destruct (want_write_buf _) eqn:Ew; [|exact Hd].
    apply Hset, (encode_item_post _ _ _ d dec enc rd); [done|done|by apply want_has_room|]. intros [_ Hs]. unfold ev_ok in Hs. by rewrite Ep in Hs.
  - destruct (d_phase d) as [|dec st|dec enc rd| | |] eqn:Ep; try exact Hd. destruct (want_write_buf _) eqn:Ew; [|exact Hd]. by apply Hset.
  - destruct (d_phase d) as [|dec st|dec enc rd| | |] eqn:Ep; try exact Hd. destruct (want_write_buf _) eqn:Ew; [|exact Hd].
    apply Hset, (body_end_post _ _ _ d dec enc rd); [done|done|by apply want_has_room|]. intros [_ Hs]. unfold ev_ok in Hs. by rewrite Ep in Hs.
  - by apply service_poll_ok.
  - by apply service_drop_ok.
  - destruct (d_phase d) as [|dec st|dec enc rd| | |] eqn:Ep; destruct e as [e|]; try exact Hd; [|by split].
    apply run_io_ok; [exact Hb| |by destruct e]. intros He [_ [H1 H2]]. by destruct e.
Qed.
Lemma disp_run_ok evs d d' : disp_ok d -> disp_run READ_BUF_LIMIT reason date evs d = Ok d' -> disp_ok d'.
Proof.
  revert d. induction evs as [|ev evs IH]; intros d Hd; [by intros [= <-]|]. cbn [disp_run]. pose proof (disp_step_ok ev d Hd) as Hs.
  destruct (disp_step READ_BUF_LIMIT reason date ev d) as [d1|e|]; [|done..]. by apply IH.
Qed.
Lemma disp_new_ok io w k ka req now : pending w [] -> received io = [] -> accepted io = [] -> disp_ok (disp_new io w k ka req now).
Proof.
  intros Hw Hr Ha. split.
  - split; simpl; [by rewrite Hr|exists []; by rewrite Ha|done..].
  - by split; [split|].
Qed.
End Runs.

(** ** Theorems *)

(** The reference reading of a body: all of [raw] is the body, and [data] what it says. *)
Definition whole_body (coding : TransferCoding) (raw data : bytes) : Prop :=
  match coding with
  | Eof => raw = [] /\ data = []
  | Length n => length_result n raw = (data, Complete, [])
  | DecodeChunked st size => run_result (st, size) raw = (data, Complete, [])
  | _ => False
  end.
Lemma body_live_whole c raw data : body_live c raw data Eof -> whole_body c raw data.
Proof.
  destruct c as [| |n|st size| |]; simpl; try done.
  - intros [<- ->]. unfold length_result. rewrite (proj2 (Z.leb_le _ _)) by lia. unfold len. by rewrite Nat2Z.id, firstn_all, drop_all.
  - intros [size' Hr]. unfold run_result. by rewrite Hr.
Qed.

Lemma done_before (log : list Exchange) n x : Forall x_done (removelast log) -> log !! n = Some x -> (S n < length log)%nat -> x_done x.
Proof.
  induction log as [|y xs _] using rev_ind; [done|]. rewrite removelast_last, length_app. simpl. intros Hd Hx Hn.
  rewrite lookup_app_l in Hx by lia. exact (Forall_lookup_1 _ _ _ _ Hd Hx).
Qed.

Section Theorems.
Context `{HP : Httparse} {W Io SE BE : Type} `{!WriteBuffer W, !WriteBufferLaws W, !IoRead Io, !IoWrite Io, !IoWriteLaws Io, !IoLaws Io}.
Context (READ_BUF_LIMIT : Z) (reason : Z -> option bytes) (date : Z -> bytes).
Context (io : Io) (w : W) (k : KeepAlive) (ka req now : Z).

(** C1: requests are cut out of the input one after the other.  After any run of a connection, the
    input is the heads and bodies of its requests in order, the head of a refused request if
    there is one, and what is still in the buffer; every head was accepted where it stands; and
    each request but the last has a body that is whole in the framing its head declares.  No byte
    of a body is ever read as a head, nor the other way round. *)
Theorem h1_pipeline_framing (evs : list (Event (SE := SE) (BE := BE))) d :
  pending w [] -> received io = [] -> accepted io = [] ->
  disp_run READ_BUF_LIMIT reason date evs (disp_new io w k ka req now) = Ok d ->
  received (d_io d) = mjoin ((fun x => x_head x ++ x_raw x) <$> d_log d) ++ d_taken d ++ d_read d /\
  Forall (fun x => exists c c' rest r, decode_head READ_BUF_LIMIT (c, x_head x ++ rest) = ((c', rest), Ok (Some (r, x_coding x)))) (d_log d) /\
  forall n x, d_log d !! n = Some x -> (S n < length (d_log d))%nat -> whole_body (x_coding x) (x_raw x) (x_data x).
Proof.
  intros Hw Hr Ha Hrun. destruct (disp_run_ok READ_BUF_LIMIT reason date evs _ d (disp_new_ok _ _ _ io w k ka req now Hw Hr Ha) Hrun) as [[Bi Bo Bk Bd Be] _].
  split; [done|]. split.
  - apply Forall_lookup. intros n x Hx. destruct (Forall2_lookup_l _ _ _ _ _ Bk Hx) as (tx & _ & Hok). exact (xo_parsed _ _ _ _ _ Hok).
  - intros n x Hx Hn. apply body_live_whole. apply (done_before _ n x Bd Hx Hn).
Qed.

(** C2: answers are written whole and in the order of the requests.  After any run, what the
    socket has taken, followed by what is in the write buffer, is, for each request in order, the
    interim response if one was sent and the answer -- the head encoded for the service's response,
    and the items its body yielded, in the coding of that head --, and last the answer to an error;
    every answer but the last is complete, and an error is not answered in the middle of one. *)
Theorem h1_answers_in_order (evs : list (Event (SE := SE) (BE := BE))) d :
  pending w [] -> received io = [] -> accepted io = [] ->
  disp_run READ_BUF_LIMIT reason date evs (disp_new io w k ka req now) = Ok d ->
  (exists p, pending (d_write d) p /\ accepted (d_io d) ++ p = mjoin (x_out <$> d_log d) ++ d_error d) /\
  (forall n x a, d_log d !! n = Some x -> x_answer x = Some a ->
     exists t r c c', response_head reason date t r (c, []) = ((c', a_head a), Ok (a_coding a))) /\
  (forall n x, d_log d !! n = Some x -> (S n < length (d_log d))%nat -> exists a, x_answer x = Some a /\
     encode_all (E := False) (a_items a) (a_coding a, []) = ((encode_all (E := False) (a_items a) (a_coding a, [])).1, Ok tt) /\
     x_out x = (if x_continue x then CONTINUE else []) ++ a_head a ++ (encode_all (E := False) (a_items a) (a_coding a, [])).1.2) /\
  (d_error d <> [] -> forall x a, last (d_log d) = Some x -> x_answer x = Some a -> a_ended a = true).
Proof.
  intros Hw Hr Ha Hrun. destruct (disp_run_ok READ_BUF_LIMIT reason date evs _ d (disp_new_ok _ _ _ io w k ka req now Hw Hr Ha) Hrun) as [[Bi Bo Bk Bd Be] _].
  assert (Henc : forall n x a, d_log d !! n = Some x -> x_answer x = Some a -> a_encoded reason date a).
  { intros n x a Hx Hxa. destruct (Forall2_lookup_l _ _ _ _ _ Bk Hx) as (tx & _ & Hok). by apply (xo_answer _ _ _ _ _ Hok). }
  split; [done|]. split; [|split; [|done]].
  - intros n x a Hx Hxa. by apply (Henc n x a Hx Hxa).
  - intros n x Hx Hn. destruct (done_before _ n x Bd Hx Hn) as [_ (a & Hxa & Hen)]. exists a. split; [done|].
    destruct (Henc n x a Hx Hxa) as [_ Hok]. rewrite Hen in Hok. split; [by rewrite <- Hok, <- surjective_pairing|].
    unfold x_out. rewrite Hxa. unfold a_out. by rewrite Hen.
Qed.

(** C5: a service reads the body of its own request and nothing else.  After any run, what the
    service has read of a request's body and what waits for it in the channel is a prefix of what
    the body decodes to, and all that has been decoded so far as long as the service keeps the
    body; the channel reports the end of the body only if it has arrived in whole.  A request
    without a channel has no body. *)
Theorem h1_request_bodies (evs : list (Event (SE := SE) (BE := BE))) d n x tx :
  pending w [] -> received io = [] -> accepted io = [] ->
  disp_run READ_BUF_LIMIT reason date evs (disp_new io w k ka req now) = Ok d ->
  d_log d !! n = Some x -> d_chans d !! n = Some tx ->
  match tx with
  | None => x_data x = [] /\ x_got x = []
  | Some c => exists rest, x_data x = x_got x ++ mjoin (i_items (ch c)) ++ rest /\ (reader_alive c = true -> rest = []) /\
      (i_eof (ch c) = true -> whole_body (x_coding x) (x_raw x) (x_data x))
  end.
Proof.
  intros Hw Hr Ha Hrun Hx Hc. destruct (disp_run_ok READ_BUF_LIMIT reason date evs _ d (disp_new_ok _ _ _ io w k ka req now Hw Hr Ha) Hrun) as [[Bi Bo Bk Bd Be] _].
  destruct (Forall2_lookup_l _ _ _ _ _ Bk Hx) as (tx' & Htx & Hok). rewrite Hc in Htx. injection Htx as <-. destruct tx as [c|].
  - destruct (xo_chan _ _ _ _ _ Hok c eq_refl) as [(rest & Hd & Hal) He]. exists rest. split; [done|]. split; [done|]. intros Hi. by apply body_live_whole, He.
  - by apply (xo_none _ _ _ _ _ Hok).
Qed.

End Theorems.

(** ** An instance to run *)

(** A socket that hands out segments ([None]: it would block) and takes what it is given. *)
Record Sock : Type := mkSock { sk_in : list (option bytes); sk_got : bytes; sk_out : Script }.
#[global] Instance sock_read : IoRead Sock := {
  io_read s :=
    match sk_in s with
    | Some b :: more => (mkSock more (sk_got s ++ b) (sk_out s), Ok b)
    | None :: more => (mkSock more (sk_got s) (sk_out s), Err WouldBlock)
    | [] => (s, Err WouldBlock)
    end }.
#[global] Instance sock_write : IoWrite Sock := {
  io_write l s := let '(o, r) := io_write l (sk_out s) in (mkSock (sk_in s) (sk_got s) o, r);
  io_write_vectored cs s := let '(o, r) := io_write_vectored cs (sk_out s) in (mkSock (sk_in s) (sk_got s) o, r);
  io_flush s := let '(o, r) := io_flush (sk_out s) in (mkSock (sk_in s) (sk_got s) o, r);
}.
#[global] Program Instance sock_write_laws : IoWriteLaws Sock := { accepted s := accepted (sk_out s); flushed s := flushed (sk_out s) }.
Next Obligation. intros l s. unfold takes. pose proof (write_takes l (sk_out s)) as Hl. unfold takes in Hl. simpl in *. by destruct (script_write l (sk_out s)) as [o []]. Qed.
Next Obligation. intros cs s. unfold takes. pose proof (write_vectored_takes cs (sk_out s)) as Hl. unfold takes in Hl. simpl in *. by destruct (script_write (concat cs) (sk_out s)) as [o []]. Qed.
Next Obligation. done. Qed.
#[global] Program Instance sock_laws : IoLaws Sock := { received := sk_got }.
Next Obligation. intros s. simpl. by destruct (sk_in s) as [|[b|] more]. Qed.
Next Obligation. intros l s. simpl. by destruct (script_write l (sk_out s)). Qed.
Next Obligation. intros cs s. simpl. by destruct (script_write (concat cs) (sk_out s)). Qed.
Next Obligation. done. Qed.

(** A tokenizer that knows four heads. *)
Definition get_head : bytes := bs "GET / HTTP/1.1" ++ CRLF ++ CRLF.
Definition post_head : bytes := bs "POST / HTTP/1.1" ++ CRLF ++ bs "content-length: 3" ++ CRLF ++ CRLF.
Definition close_head : bytes := bs "GET / HTTP/1.1" ++ CRLF ++ bs "connection: close" ++ CRLF ++ CRLF.
Definition expect_head : bytes := bs "GET / HTTP/1.1" ++ CRLF ++ bs "expect: 100-continue" ++ CRLF ++ CRLF.
Definition known : list (bytes * Parsed) :=
  [(get_head, mkParsed 18 (bs "GET") (4, 5) 1 []);
   (post_head, mkParsed 38 (bs "POST") (5, 6) 1 [mkIndex (17, 31) (33, 34)]);
   (close_head, mkParsed 37 (bs "GET") (4, 5) 1 [mkIndex (16, 26) (28, 33)]);
   (expect_head, mkParsed 40 (bs "GET") (4, 5) 1 [mkIndex (16, 22) (24, 36)])].
Definition known_head (l : bytes) (h : bytes * Parsed) : bool := bool_decide (h.1 `prefix_of` l).
Definition known_parse (l : bytes) : option Parsed := snd <$> find (known_head l) known.
Lemma known_bounds l p : known_parse l = Some p ->
  0 < p_len p <= len l /\ in_range (p_len p) (p_path p) /\ Forall (fun i => in_range (p_len p) (idx_name i) /\ in_range (p_len p) (idx_value i)) (p_headers p).
Proof.
  unfold known_parse. destruct (find (known_head l) known) as [h|] eqn:Ef; [|done]. intros [= <-]. apply find_some in Ef as [Hin Hp].
  apply bool_decide_eq_true in Hp as [r ->]. rewrite len_app. pose proof (len_nonneg r).
  destruct Hin as [<-|[<-|[<-|[<-|[]]]]];
    (split; [match goal with |- context[len ?h] => let n := eval vm_compute in (len h) in change (len h) with n end; simpl; lia|]);
    (split; [split; simpl; lia|]); repeat constructor; simpl; lia.
Qed.
Definition known_httparse : Httparse (HM := assoc_map).
Proof.
  refine {| parse_request := fun l => Ok (known_parse l);
    method_from_bytes := fun m => if decide (m = bs "POST") then Some POST else Some GET;
    Uri := bytes; uri_from := Some; header_name_from := Some; header_value_from := Some |}.
  - done.
  - intros l p [= H]. by apply known_bounds.
  - intros l p i n v _ _ _ _. split; by eexists.
Defined.

(** Connections over the flat buffer and over the list of buffers. *)
Abbreviation FlatBuf := (LimitedBuf 1000).
Definition flat_new : FlatBuf := mkLimited write_buf_new.
Section Demo.
Context {W : Type} `{WriteBuffer W} (w0 : W).
Definition demo_disp (segs : list (option bytes)) : Disp (W := W) (Io := Sock) (SE := unit) (BE := unit) :=
  disp_new (HM := assoc_map) (mkSock segs [] (mkScript [] [] [])) w0 (mkKeepAlive 5 5) 5 5 0.
Definition demo_run (evs : list Event) (segs : list (option bytes)) : outcome False (Disp (W := W) (Io := Sock) (SE := unit) (BE := unit)) :=
  disp_run (HP := known_httparse) 4096 (fun _ => None) (fun _ => bs "now") evs (demo_disp segs).
End Demo.

Definition answer (size : BodySize) : Response := mkResponse HTTP_11 200 [] size.
(** A body in two segments, then another request behind it; the service reads the body, answers
    both requests, and the buffer is drained. *)
Definition pipeline_segs : list (option bytes) := [Some (post_head ++ bs "ab"); None; Some (bs "c" ++ get_head)].
Definition pipeline_events : list (Event (SE := unit) (BE := unit)) :=
  [Ready true false; Poll; ServicePoll 0; Ready true false; Poll; ServicePoll 0; Respond (answer (BSized 2)); Item (bs "hi"); BodyEnded;
   Respond (answer BNone); BodyEnded; Ready false true].
Definition pipeline_disp : Disp (W := FlatBuf) (Io := Sock) (SE := unit) (BE := unit) :=
  match demo_run flat_new pipeline_events pipeline_segs with Ok d => d | _ => demo_disp flat_new [] end.
Lemma pipeline_run : disp_run (HP := known_httparse) (SE := unit) (BE := unit) 4096 (fun _ => None) (fun _ => bs "now") pipeline_events
  (disp_new (mkSock pipeline_segs [] (mkScript [] [] [])) flat_new (mkKeepAlive 5 5) 5 5 0) = Ok pipeline_disp.
Proof. vm_compute. reflexivity. Qed.
Lemma pipeline_state : d_phase pipeline_disp = Reading /\ length (d_log pipeline_disp) = 2%nat /\ d_read pipeline_disp = [] /\
  (x_got <$> d_log pipeline_disp) = [bs "abc"; []] /\ (x_raw <$> d_log pipeline_disp) = [bs "abc"; []].
Proof. vm_compute. done. Qed.

Lemma h1_answers_in_order_witness : exists p, pending (d_write pipeline_disp) p /\ accepted (d_io pipeline_disp) ++ p = mjoin (x_out <$> d_log pipeline_disp) ++ d_error pipeline_disp.
Proof.
  refine (proj1 (h1_answers_in_order (HP := known_httparse) 4096 (fun _ => None) (fun _ => bs "now") (mkSock pipeline_segs [] (mkScript [] [] [])) flat_new (mkKeepAlive 5 5) 5 5 0
    pipeline_events pipeline_disp _ _ _ pipeline_run)); [by split|reflexivity|reflexivity].
Defined.
Definition pipeline_x : Exchange := default (mkExchange [] Eof [] [] [] false None) (d_log pipeline_disp !! 0%nat).
Definition pipeline_c : Channel := default channel_new (mjoin (d_chans pipeline_disp !! 0%nat)).
Lemma pipeline_first : d_log pipeline_disp !! 0%nat = Some pipeline_x /\ d_chans pipeline_disp !! 0%nat = Some (Some pipeline_c) /\
  x_got pipeline_x = bs "abc" /\ i_eof (ch pipeline_c) = true.
Proof. vm_compute. done. Qed.
Lemma h1_pipeline_framing_witness :
  received (d_io pipeline_disp) = mjoin ((fun x => x_head x ++ x_raw x) <$> d_log pipeline_disp) ++ d_taken pipeline_disp ++ d_read pipeline_disp /\
  whole_body (x_coding pipeline_x) (x_raw pipeline_x) (x_data pipeline_x).
Proof.
  destruct (h1_pipeline_framing (HP := known_httparse) 4096 (fun _ => None) (fun _ => bs "now") (mkSock pipeline_segs [] (mkScript [] [] [])) flat_new (mkKeepAlive 5 5) 5 5 0
    pipeline_events pipeline_disp) as (Hr & _ & Hb); [by split|reflexivity|reflexivity|exact pipeline_run|].
  split; [exact Hr|]. apply (Hb 0%nat); [apply pipeline_first|]. destruct pipeline_state as (_ & -> & _). lia.
Defined.
Lemma h1_request_bodies_witness : exists rest, x_data pipeline_x = x_got pipeline_x ++ mjoin (i_items (ch pipeline_c)) ++ rest /\
  (reader_alive pipeline_c = true -> rest = []) /\ (i_eof (ch pipeline_c) = true -> whole_body (x_coding pipeline_x) (x_raw pipeline_x) (x_data pipeline_x)).
Proof.
  refine (h1_request_bodies (HP := known_httparse) 4096 (fun _ => None) (fun _ => bs "now") (mkSock pipeline_segs [] (mkScript [] [] [])) flat_new (mkKeepAlive 5 5) 5 5 0
    pipeline_events pipeline_disp 0%nat pipeline_x (Some pipeline_c) _ eq_refl eq_refl pipeline_run _ _); [by split|apply pipeline_first|apply pipeline_first].
Defined.

(** ** What goes wrong *)

(** A request that expects [CONTINUE] and has no body: waiting for the service to ask for the body
    panics, unless the service has returned before. *)
Lemma h1_expect_without_body : demo_run flat_new [Ready true false; Poll] [Some expect_head] = Panic /\
  exists d, demo_run flat_new [Ready true false; Respond (answer BNone)] [Some expect_head] = Ok d.
Proof. split; [vm_compute; reflexivity|eexists; vm_compute; reflexivity]. Qed.

(** A request behind one that says [connection: close] is served, and the connection stays open,
    although the first answer says that it closes. *)
Lemma h1_close_forgotten :
  match demo_run flat_new [Ready true false; Respond (answer BNone); BodyEnded; Respond (answer BNone); BodyEnded; Ready false true] [Some (close_head ++ get_head)] with
  | Ok d => d_phase d = Reading /\ length (d_log d) = 2%nat /\
      (sk_out (d_io d)).(sc_log) = bs "HTTP/1.1 200 OK" ++ CRLF ++ bs "connection: close" ++ CRLF ++ bs "date: now" ++ CRLF ++ CRLF ++ bs "HTTP/1.1 200 OK" ++ CRLF ++ bs "date: now" ++ CRLF ++ CRLF
  | _ => False
  end.
Proof. vm_compute. done. Qed.

(** Seventeen pipelined requests answered with empty streams: each answer puts two buffers into the
    list, the last of them without asking for room, and the head of the seventeenth finds the list
    full. *)
#[local] Existing Instances pair_buf pair_laws pair_chain.
Abbreviation ListBuf := (ListWriteBuf 2000 (EitherBuf bytes (EitherBuf (bytes * bytes * bytes) bytes))).
#[local] Instance pipeline_list_buffer : WriteBuffer ListBuf := list_buffer_h1 (C1 := bytes * bytes) (Eof := bytes * bytes * bytes) 2000.
Definition list_new : ListBuf := list_buf_default.
Definition empty_answer : list (Event (SE := unit) (BE := unit)) := [Respond (answer BStream); BodyEnded].
Lemma h1_list_overflow :
  demo_run list_new (Ready true false :: mjoin (replicate 17 empty_answer)) [Some (mjoin (replicate 17 get_head))] = Panic /\
  exists d, demo_run list_new (Ready true false :: mjoin (replicate 16 empty_answer)) [Some (mjoin (replicate 17 get_head))] = Ok d.
Proof. split; [vm_compute; reflexivity|eexists; vm_compute; reflexivity]. Qed.

(** A response with an informational status is answered with 400: the client is blamed. *)
Lemma h1_informational_is_bad_request :
  match demo_run flat_new [Ready true false; Respond (mkResponse HTTP_11 103 [] BNone); Ready false true] [Some get_head] with
  | Ok d => take 16 (sk_out (d_io d)).(sc_log) = bs "HTTP/1.1 400 <no" /\ d_phase d = ShuttingDown
  | _ => False
  end.
Proof. vm_compute. done. Qed.

(** The timer fires at the later of its deadline and the one its sleep was armed with, so a
    deadline that is moved forward in time is kept and one that is moved back is not. *)
Lemma ka_poll_spec now k : (ka_poll now k).2 = (Z.max (ka_timer k) (ka_deadline k) <=? now).
Proof.
  unfold ka_poll, ka_poll_loop, ka_is_expired. destruct k as [t dl]. cbn [ka_timer ka_deadline ka_reset].
  destruct (Z.ltb_spec now t); [symmetry; apply Z.leb_gt; simpl; lia|]. destruct (Z.leb_spec dl t); [symmetry; apply Z.leb_le; simpl; lia|].
  rewrite Z.leb_refl. destruct (Z.ltb_spec now dl); symmetry; [apply Z.leb_gt|apply Z.leb_le]; simpl; lia.
Qed.
Lemma h1_head_timeout_late (ka req t0 t1 now : Z) : t1 + req < t0 + ka -> t1 + req <= now < t0 + ka ->
  (ka_poll now (ka_update (t1 + req) (ka_reset (ka_update (t0 + ka) (mkKeepAlive t0 t0))))).2 = false.
Proof. intros H1 H2. rewrite ka_poll_spec. apply Z.leb_gt. simpl. lia. Qed.
