(* ===== verification/ClientPool.v ===== *)
(** * Connection pools of the client (client/src/pool/{exclusive,shared}.rs)

    [Exclusive]: connections that serve one request at a time, kept in a queue per key behind a
    semaphore.  [Shared]: one connection per key that every request uses, and a single task that
    opens it.  Each critical section of the pool's mutex is an operation; [pool_step] lets any number of
    tasks run them in any order, with the waits in between as states of their own.  [tokio]'s
    semaphore is a parameter (class [Semaphore]). *)

From S2P Require Import Prelude.

(** What the pool uses of [tokio::sync::Semaphore]: [try_acquire], which is also what a waiting
    [acquire] does when its turn comes, and the release of a permit when it is dropped. *)
Class Semaphore : Type := {
  sem : Type;
  sem_new : Z -> sem;
  sem_try : sem -> option sem;
  sem_release : sem -> sem;
  available : sem -> Z;
  available_new n : 0 <= n -> available (sem_new n) = n;
  sem_try_ok s s' : sem_try s = Some s' -> available s' = available s - 1;
  sem_try_none s : sem_try s = None <-> available s <= 0;
  available_release s : available (sem_release s) = available s + 1;
}.

Module Exclusive.
Section Pool.
Context `{SM : Semaphore} {K C : Type} `{Countable K}.

(** [ConnState], with the present instant as an argument; [elapsed] saturates. *)
Record ConnState : Type := mkState { born : Z; idle_since : Z; keep_alive_idle : Z; keep_alive_born : Z }.
Definition state_new (now idle alive : Z) : ConnState := mkState now now idle alive.
Definition update_idle (now : Z) (s : ConnState) : ConnState := mkState (born s) now (keep_alive_idle s) (keep_alive_born s).
Definition elapsed (now since : Z) : Z := saturating_sub now since.
Definition is_expired (now : Z) (s : ConnState) : bool :=
  (keep_alive_born s <? elapsed now (born s)) || (keep_alive_idle s <? elapsed now (idle_since s)).

Record PooledConn : Type := mkPooled { conn : C; state : ConnState }.

(** The pool: an entry is the index of its semaphore (an [Arc], shared with tasks that hold or
    await its permits) and its queue; the semaphores ever created. *)
Record Pool : Type := mkPool { conns : gmap K (nat * list PooledConn); sems : list sem }.
Definition pool_new : Pool := mkPool ∅ [].

(** The configuration of the pool: capacity of an entry, and both timeouts. *)
Context (cap keep_idle keep_born : Z).

(** A permit is dropped. *)
Definition release (id : nat) (p : Pool) : Pool := mkPool (conns p) (alter sem_release id (sems p)).
Definition set_queue (key : K) (id : nat) (q : list PooledConn) (p : Pool) : Pool := mkPool (<[key := (id, q)]> (conns p)) (sems p).
Definition fresh_conn (now : Z) (c : C) : PooledConn := mkPooled c (state_new now keep_idle keep_born).

Record Spawner : Type := mkSpawner { s_key : K; s_permit : nat; is_new_entry : bool; fulfilled : bool }.
Record Conn : Type := mkConn { c_key : K; c_conn : PooledConn; c_permit : nat; destroy_on_drop : bool }.
(** A task: in [acquire], awaiting a permit of a semaphore, or with what [acquire] returned. *)
Inductive PoolTask : Type := Awaiting (key : K) (id : nat) | Holding (c : Conn) | Spawning (s : Spawner).

(** [entry_new]: the reservation must not fail. *)
Definition entry_new (key : K) (p : Pool) : outcome False (Pool * nat) :=
  s ← unwrap (sem_try (sem_new cap));
  let id := length (sems p) in
  Ok (mkPool (<[key := (id, [])]> (conns p)) (sems p ++ [s]), id).

(** [acquire] up to the wait for a permit. *)
Definition acquire_start (key : K) (p : Pool) : outcome False (Pool * PoolTask) :=
  match conns p !! key with
  | Some (id, _) => Ok (p, Awaiting key id)
  | None => '(p, id) ← entry_new key p; Ok (p, Spawning (mkSpawner key id true false))
  end.
Fixpoint pop_live (now : Z) (q : list PooledConn) : option (PooledConn * list PooledConn) :=
  match q with
  | [] => None
  | c :: q => if negb (is_expired now (state c)) then Some (c, q) else pop_live now q
  end.
(** ... and from the moment it has a permit of semaphore [id]. *)
Definition acquire_resume (now : Z) (key : K) (id : nat) (p : Pool) : outcome False (Pool * PoolTask) :=
  match conns p !! key with
  | None => acquire_start key (release id p)
  | Some (entry, queue) =>
      match pop_live now queue with
      | Some (c, q) => Ok (set_queue key entry q p, Holding (mkConn key c id false))
      | None => Ok (set_queue key entry [] p, Spawning (mkSpawner key id false false))
      end
  end.

Definition try_add (now : Z) (key : K) (c : C) (p : Pool) : Pool :=
  match conns p !! key with
  | Some (id, queue) =>
      match s ← sems p !! id; sem_try s with
      | Some s =>
          (* the permit is dropped at the end of the block *)
          release id (set_queue key id (queue ++ [fresh_conn now c]) (mkPool (conns p) (<[id := s]> (sems p))))
      | None => p
      end
  | None => mkPool (<[key := (length (sems p), [fresh_conn now c])]> (conns p)) (sems p ++ [sem_new cap])
  end.

(** [Drop for Spawner], and the permit. *)
Definition spawner_drop (s : Spawner) (p : Pool) : Pool :=
  release (s_permit s) (if is_new_entry s && negb (fulfilled s) then mkPool (delete (s_key s) (conns p)) (sems p) else p).
Definition push_conn (key : K) (c : PooledConn) (p : Pool) : Pool :=
  match conns p !! key with Some (id, queue) => set_queue key id (queue ++ [c]) p | None => p end.
Definition spawned (now : Z) (s : Spawner) (c : C) (p : Pool) : Pool :=
  let s := mkSpawner (s_key s) (s_permit s) (is_new_entry s) true in
  spawner_drop s (push_conn (s_key s) (fresh_conn now c) p).

(** [Drop for Conn], and the permit; [conn_take] is the drop of a [Conn] whose connection was taken
    out by [PooledConn::from]. *)
Definition conn_drop (now : Z) (c : Conn) (p : Pool) : Pool :=
  release (c_permit c)
    (if is_expired now (state (c_conn c)) || destroy_on_drop c then p
     else push_conn (c_key c) (mkPooled (conn (c_conn c)) (update_idle now (state (c_conn c)))) p).
Definition conn_take (c : Conn) (p : Pool) : Pool := release (c_permit c) p.

(** ** Tasks *)

(** The pool, the tasks, the instant, and every connection that was ever put in, under its key. *)
Record Sys : Type := mkSys { pool : Pool; tasks : list PoolTask; now : Z; added : list (K * C) }.
Definition pool_sys : Sys := mkSys pool_new [] 0 [].

Inductive pool_step : Sys -> Sys -> Prop :=
| step_acquire p ts n ad key p' t :
    acquire_start key p = Ok (p', t) -> pool_step (mkSys p ts n ad) (mkSys p' (t :: ts) n ad)
| step_granted p l1 l2 n ad key id s s' p' t :
    sems p !! id = Some s -> sem_try s = Some s' ->
    acquire_resume n key id (mkPool (conns p) (<[id := s']> (sems p))) = Ok (p', t) ->
    pool_step (mkSys p (l1 ++ Awaiting key id :: l2) n ad) (mkSys p' (l1 ++ t :: l2) n ad)
| step_cancel p l1 l2 n ad key id :
    pool_step (mkSys p (l1 ++ Awaiting key id :: l2) n ad) (mkSys p (l1 ++ l2) n ad)
| step_try_add p ts n ad key c :
    pool_step (mkSys p ts n ad) (mkSys (try_add n key c p) ts n ((key, c) :: ad))
| step_spawned p l1 l2 n ad s c :
    pool_step (mkSys p (l1 ++ Spawning s :: l2) n ad) (mkSys (spawned n s c p) (l1 ++ l2) n ((s_key s, c) :: ad))
| step_spawner_drop p l1 l2 n ad s :
    pool_step (mkSys p (l1 ++ Spawning s :: l2) n ad) (mkSys (spawner_drop s p) (l1 ++ l2) n ad)
| step_destroy p l1 l2 n ad c :
    pool_step (mkSys p (l1 ++ Holding c :: l2) n ad) (mkSys p (l1 ++ Holding (mkConn (c_key c) (c_conn c) (c_permit c) true) :: l2) n ad)
| step_conn_drop p l1 l2 n ad c :
    pool_step (mkSys p (l1 ++ Holding c :: l2) n ad) (mkSys (conn_drop n c p) (l1 ++ l2) n ad)
| step_take p l1 l2 n ad c :
    pool_step (mkSys p (l1 ++ Holding c :: l2) n ad) (mkSys (conn_take c p) (l1 ++ l2) n ad)
| step_tick p ts n ad d : 0 <= d -> pool_step (mkSys p ts n ad) (mkSys p ts (n + d) ad).
Definition reachable (s : Sys) : Prop := rtc pool_step pool_sys s.

(** ** A connection is in one place *)

(** The connections a task holds, and those of the entries. *)
Definition task_conns (t : PoolTask) : list (K * C) := match t with Holding c => [(c_key c, conn (c_conn c))] | _ => [] end.
Definition held (ts : list PoolTask) : list (K * C) := ts ≫= task_conns.
Definition queue_conns (e : K * (nat * list PooledConn)) : list (K * C) := (fun c => (e.1, conn c)) <$> e.2.2.
Definition pooled (m : gmap K (nat * list PooledConn)) : list (K * C) := map_to_list m ≫= queue_conns.
Definition exclusive (p : Pool) (ts : list PoolTask) (ad : list (K * C)) : Prop := held ts ++ pooled (conns p) ⊆+ ad.

Lemma held_app l1 l2 : held (l1 ++ l2) = held l1 ++ held l2.
Proof. apply bind_app. Qed.
Lemma held_cons t l : held (t :: l) = task_conns t ++ held l.
Proof. done. Qed.
Lemma pooled_insert m k e : pooled (<[k := e]> m) ≡ₚ queue_conns (k, e) ++ pooled (delete k m).
Proof.
  unfold pooled. rewrite <- insert_delete_eq, map_to_list_insert by apply lookup_delete_eq. done.
Qed.
Lemma pooled_lookup m k e : m !! k = Some e -> pooled m ≡ₚ queue_conns (k, e) ++ pooled (delete k m).
Proof. intros Hm. rewrite <- (insert_id m k e Hm) at 1. apply pooled_insert. Qed.
Lemma pooled_delete m k : pooled (delete k m) ⊆+ pooled m.
Proof.
  destruct (m !! k) as [e|] eqn:Hm; [|by rewrite delete_id]. rewrite (pooled_lookup m k e Hm). apply submseteq_inserts_l. done.
Qed.

(** A skipped connection is expired, the one returned is not. *)
Lemma pop_live_spec n q c q' : pop_live n q = Some (c, q') ->
  exists pre, q = pre ++ c :: q' /\ Forall (fun c => is_expired n (state c) = true) pre /\ is_expired n (state c) = false.
Proof.
  induction q as [|d q IH]; [done|]. cbn. destruct (is_expired n (state d)) eqn:Ed; cbn.
  - intros Hq. destruct (IH Hq) as (pre & -> & Hpre & Hc). exists (d :: pre). by repeat constructor.
  - intros [= -> ->]. exists []. by repeat constructor.
Qed.

Lemma acquire_start_conns key p p' t : acquire_start key p = Ok (p', t) -> task_conns t = [] /\ pooled (conns p') ≡ₚ pooled (conns p).
Proof.
  unfold acquire_start. destruct (conns p !! key) as [[id q]|] eqn:Ek; [by intros [= <- <-]|]. unfold entry_new, unwrap. destruct (sem_try (sem_new cap)); [|done].
  intros [= <- <-]. split; [done|]. cbn. rewrite pooled_insert. cbn. by rewrite delete_id.
Qed.
Lemma acquire_resume_conns n key id p p' t : acquire_resume n key id p = Ok (p', t) -> task_conns t ++ pooled (conns p') ⊆+ pooled (conns p).
Proof.
  unfold acquire_resume. destruct (conns p !! key) as [[entry q]|] eqn:Ek.
  - destruct (pop_live n q) as [[c q']|] eqn:Eq; intros [= <- <-]; cbn; rewrite (pooled_lookup _ _ _ Ek), pooled_insert.
    + apply pop_live_spec in Eq as (pre & -> & _). cbn. rewrite fmap_app, <- app_assoc. cbn. by apply submseteq_inserts_l.
    + cbn. by apply submseteq_inserts_l.
  - intros Hs. apply acquire_start_conns in Hs as [-> ->]. done.
Qed.
Lemma push_conn_conns key c p : pooled (conns (push_conn key c p)) ⊆+ (key, conn c) :: pooled (conns p).
Proof.
  unfold push_conn. destruct (conns p !! key) as [[id q]|] eqn:Ek; [|by apply submseteq_cons]. cbn. rewrite (pooled_lookup _ _ _ Ek), pooled_insert. cbn.
  rewrite fmap_app, <- app_assoc. cbn. by rewrite Permutation_middle.
Qed.
Lemma spawner_drop_conns s p : pooled (conns (spawner_drop s p)) ⊆+ pooled (conns p).
Proof. unfold spawner_drop. destruct (_ && _); [apply pooled_delete|done]. Qed.
Lemma try_add_conns n key c p : pooled (conns (try_add n key c p)) ⊆+ (key, c) :: pooled (conns p).
Proof.
  unfold try_add. destruct (conns p !! key) as [[id q]|] eqn:Ek.
  - destruct (s ← sems p !! id; sem_try s); [|by apply submseteq_cons]. cbn. rewrite (pooled_lookup _ _ _ Ek), pooled_insert. cbn.
    rewrite fmap_app, <- app_assoc. cbn. by rewrite Permutation_middle.
  - cbn. rewrite pooled_insert. cbn. by rewrite delete_id.
Qed.
(** A task is replaced, and the connections move accordingly. *)
Lemma exclusive_move p p' l1 t l2 l ad ad' : exclusive p (l1 ++ t :: l2) ad ->
  (forall rest, task_conns t ++ rest ++ pooled (conns p) ⊆+ ad -> held l ++ rest ++ pooled (conns p') ⊆+ ad') -> exclusive p' (l1 ++ l ++ l2) ad'.
Proof.
  unfold exclusive. intros Hex Hmove. rewrite !held_app in *. rewrite held_cons in Hex. specialize (Hmove (held l1 ++ held l2)).
  rewrite <- !app_assoc in *. rewrite (Permutation_app_swap_app (held l1) (held l)). apply Hmove.
  by rewrite (Permutation_app_swap_app (task_conns t) (held l1)).
Qed.
Lemma exclusive_new : exclusive (pool pool_sys) (tasks pool_sys) (added pool_sys).
Proof. unfold exclusive, pooled. cbn. by rewrite map_to_list_empty. Qed.
Lemma exclusive_step s s' : pool_step s s' -> exclusive (pool s) (tasks s) (added s) -> exclusive (pool s') (tasks s') (added s').
Proof.
  intros Hstep. destruct Hstep as [p ts n ad key p' t Ha|p l1 l2 n ad key id sm sm' p' t Hs Ht Ha|p l1 l2 n ad key id|p ts n ad key c|p l1 l2 n ad s c
    |p l1 l2 n ad s|p l1 l2 n ad c|p l1 l2 n ad c|p l1 l2 n ad c|p ts n ad d Hd]; cbn; intros Hex.
  - apply acquire_start_conns in Ha as [Ht Hp]. unfold exclusive in *. by rewrite held_cons, Ht, Hp.
  - apply acquire_resume_conns in Ha. cbn in Ha. apply (exclusive_move p p' l1 _ l2 [t] ad ad Hex). intros rest Hr. cbn in *. rewrite app_nil_r.
    etrans; [|exact Hr]. rewrite Permutation_app_swap_app. by apply submseteq_skips_l.
  - apply (exclusive_move p p l1 _ l2 [] ad ad Hex). done.
  - unfold exclusive in *. etrans; [apply submseteq_skips_l, try_add_conns|]. rewrite <- Permutation_middle. by apply submseteq_skip.
  - apply (exclusive_move p _ l1 _ l2 [] ad _ Hex). intros rest Hr. cbn [task_conns held app] in *. unfold spawned. cbn [held mbind list_bind app].
    etrans; [apply submseteq_skips_l; etrans; [apply spawner_drop_conns|apply push_conn_conns]|]. cbn. rewrite <- Permutation_middle. by apply submseteq_skip.
  - apply (exclusive_move p _ l1 _ l2 [] ad ad Hex). intros rest Hr. etrans; [|exact Hr]. apply (submseteq_skips_l rest), spawner_drop_conns.
  - by apply (exclusive_move p p l1 _ l2 [Holding _] ad ad Hex).
  - apply (exclusive_move p _ l1 _ l2 [] ad ad Hex). intros rest Hr. cbn in *. etrans; [|exact Hr]. unfold conn_drop. cbn.
    destruct (_ || _); [by apply submseteq_cons|]. etrans; [apply submseteq_skips_l, push_conn_conns|]. cbn. by rewrite <- Permutation_middle.
  - apply (exclusive_move p _ l1 _ l2 [] ad ad Hex). intros rest Hr. cbn in *. etrans; [|exact Hr]. by apply submseteq_cons.
  - done.
Qed.

(** ** Permits *)

Definition permit_of (t : PoolTask) : option nat :=
  match t with Awaiting _ _ => None | Holding c => Some (c_permit c) | Spawning s => Some (s_permit s) end.
Definition holders (id : nat) (ts : list PoolTask) : Z := len (filter (fun t => permit_of t = Some id) ts).
(** Every permit of a semaphore is free or with a task; a semaphore that does not exist has none. *)
Definition permits (sm : list sem) (ts : list PoolTask) : Prop :=
  (forall id s, sm !! id = Some s -> available s + holders id ts = cap /\ 0 <= available s) /\
  (forall id, (length sm <= id)%nat -> holders id ts = 0).

Lemma holders_app id l1 l2 : holders id (l1 ++ l2) = holders id l1 + holders id l2.
Proof. unfold holders, len. rewrite filter_app, length_app. lia. Qed.
Lemma holders_cons id t l : holders id (t :: l) = (if decide (permit_of t = Some id) then 1 else 0) + holders id l.
Proof. unfold holders, len. rewrite filter_cons. case_decide; cbn [length]; lia. Qed.
Lemma holders_nonneg id ts : 0 <= holders id ts.
Proof. unfold holders, len. lia. Qed.
(** A task without a permit comes and goes. *)
Lemma permits_idle sm l1 t l2 : permit_of t = None -> permits sm (l1 ++ t :: l2) <-> permits sm (l1 ++ l2).
Proof.
  intros Ht. unfold permits. assert (Hh : forall id, holders id (l1 ++ t :: l2) = holders id (l1 ++ l2)).
  { intros id. rewrite !holders_app, holders_cons, Ht. rewrite decide_False by done. lia. }
  by setoid_rewrite Hh.
Qed.
Lemma permits_take sm id s s' l1 t l2 : sm !! id = Some s -> sem_try s = Some s' -> permit_of t = Some id ->
  permits sm (l1 ++ l2) -> permits (<[id := s']> sm) (l1 ++ t :: l2).
Proof.
  intros Hs Ht Hp [H1 H2]. assert (Hlt : (id < length sm)%nat) by by eapply lookup_lt_Some.
  assert (Hh : forall i, holders i (l1 ++ t :: l2) = holders i (l1 ++ l2) + if decide (i = id) then 1 else 0).
  { intros i. rewrite !holders_app, holders_cons, Hp. repeat case_decide; simplify_eq; lia || congruence. }
  split; intros i.
  - intros x Hx. rewrite Hh. destruct (decide (i = id)) as [-> |Hne].
    + rewrite list_lookup_insert_eq in Hx by done. injection Hx as <-. rewrite (sem_try_ok _ _ Ht). specialize (H1 _ _ Hs). assert (~ available s <= 0) by (rewrite <- sem_try_none; congruence). lia.
    + rewrite list_lookup_insert_ne in Hx by done. specialize (H1 _ _ Hx). lia.
  - rewrite length_insert. intros Hi. rewrite Hh, decide_False by lia. by rewrite H2.
Qed.
Lemma permits_release sm id l1 t l2 : permit_of t = Some id -> permits sm (l1 ++ t :: l2) -> permits (alter sem_release id sm) (l1 ++ l2).
Proof.
  intros Hp [H1 H2].
  assert (Hh : forall i, holders i (l1 ++ t :: l2) = holders i (l1 ++ l2) + if decide (i = id) then 1 else 0).
  { intros i. rewrite !holders_app, holders_cons, Hp. repeat case_decide; simplify_eq; lia || congruence. }
  split; intros i.
  - intros x Hx. destruct (decide (i = id)) as [-> |Hne].
    + rewrite list_lookup_alter_eq in Hx. destruct (sm !! id) as [y|] eqn:Ey; [|done]. injection Hx as <-. specialize (H1 _ _ Ey). rewrite Hh, decide_True in H1 by done.
      rewrite available_release. lia.
    + rewrite list_lookup_alter_ne in Hx by done. specialize (H1 _ _ Hx). rewrite Hh, decide_False in H1 by done. lia.
  - rewrite length_alter. intros Hi. specialize (H2 i Hi). rewrite Hh in H2. pose proof (holders_nonneg i (l1 ++ l2)). case_decide; lia.
Qed.
(** A new semaphore, with a permit for [t] if it has one. *)
Lemma permits_new sm s l1 t l2 : 0 <= available s -> available s + (if decide (permit_of t = Some (length sm)) then 1 else 0) = cap ->
  (permit_of t = None \/ permit_of t = Some (length sm)) -> permits sm (l1 ++ l2) -> permits (sm ++ [s]) (l1 ++ t :: l2).
Proof.
  intros H0 Ha Hp [H1 H2].
  assert (Hh : forall i, holders i (l1 ++ t :: l2) = holders i (l1 ++ l2) + if decide (permit_of t = Some i) then 1 else 0).
  { intros i. rewrite !holders_app, holders_cons. lia. }
  split; intros i.
  - intros x [Hx|[Hi Hx]]%lookup_app_Some; rewrite Hh.
    + rewrite decide_False by (apply lookup_lt_Some in Hx; destruct Hp as [-> | ->]; [done|intros [= E]; lia]). specialize (H1 _ _ Hx). lia.
    + apply list_lookup_singleton_Some in Hx as [Hi' <-]. replace i with (length sm) in * by lia. rewrite (H2 (length sm)) by lia. lia.
  - rewrite length_app. cbn. intros Hi. rewrite Hh, H2, decide_False by (try (destruct Hp as [-> | ->]; [done|intros [= E]]); lia). lia.
Qed.

Context (Hcap : 0 <= cap).
Lemma acquire_start_permits key p p' t l1 l2 : acquire_start key p = Ok (p', t) -> permits (sems p) (l1 ++ l2) -> permits (sems p') (l1 ++ t :: l2).
Proof.
  unfold acquire_start. destruct (conns p !! key) as [[id q]|] eqn:Ek; [intros [= <- <-] Hp; by apply permits_idle|].
  unfold entry_new, unwrap. destruct (sem_try (sem_new cap)) as [s|] eqn:Es; [|done]. intros [= <- <-]. cbn.
  assert (~ available (sem_new cap) <= 0) by (rewrite <- sem_try_none; congruence). rewrite available_new in * by done.
  apply permits_new; [rewrite (sem_try_ok _ _ Es), available_new by done; lia| |by right].
  cbn. rewrite decide_True by done. rewrite (sem_try_ok _ _ Es), available_new by done. lia.
Qed.
Lemma acquire_resume_permits n key id p p' t l1 l2 : acquire_resume n key id p = Ok (p', t) ->
  permits (sems p) (l1 ++ Spawning (mkSpawner key id false false) :: l2) -> permits (sems p') (l1 ++ t :: l2).
Proof.
  unfold acquire_resume. intros Ha Hp. destruct (conns p !! key) as [[entry q]|].
  - destruct (pop_live n q) as [[c q']|]; injection Ha as <- <-; cbn; [|done].
    unfold permits in *. assert (Hh : forall i, holders i (l1 ++ Holding (mkConn key c id false) :: l2) = holders i (l1 ++ Spawning (mkSpawner key id false false) :: l2)).
    { intros i. by rewrite !holders_app, !holders_cons. }
    by setoid_rewrite Hh.
  - apply (acquire_start_permits _ _ _ _ _ _ Ha). by apply (permits_release _ id l1 (Spawning (mkSpawner key id false false))).
Qed.
Lemma push_conn_sems key c p : sems (push_conn key c p) = sems p.
Proof. unfold push_conn. by destruct (conns p !! key) as [[id q]|]. Qed.
Lemma spawner_drop_sems s p : sems (spawner_drop s p) = alter sem_release (s_permit s) (sems p).
Proof. unfold spawner_drop. by destruct (_ && _). Qed.
Lemma try_add_permits n key c p ts : permits (sems p) ts -> permits (sems (try_add n key c p)) ts.
Proof.
  unfold try_add. intros Hp. destruct (conns p !! key) as [[id q]|].
  - destruct (sems p !! id) as [s|] eqn:Es; [|done]. cbn. destruct (sem_try s) as [s'|] eqn:Et; [|done]. cbn.
    apply (permits_release _ id [] (Spawning (mkSpawner key id false false))); [done|]. by apply (permits_take _ id s s' []).
  - cbn. apply (proj1 (permits_idle _ [] (Awaiting key 0) _ eq_refl)). apply permits_new; [by rewrite available_new| |by left|done]. cbn. rewrite available_new, decide_False by done. lia.
Qed.
Lemma permits_step s s' : pool_step s s' -> permits (sems (pool s)) (tasks s) -> permits (sems (pool s')) (tasks s').
Proof.
  intros Hstep. destruct Hstep as [p ts n ad key p' t Ha|p l1 l2 n ad key id sm sm' p' t Hs Ht Ha|p l1 l2 n ad key id|p ts n ad key c|p l1 l2 n ad s c
    |p l1 l2 n ad s|p l1 l2 n ad c|p l1 l2 n ad c|p l1 l2 n ad c|p ts n ad d Hd]; cbn [pool tasks]; intros Hp.
  - by apply (acquire_start_permits _ _ _ _ [] _ Ha).
  - apply (acquire_resume_permits _ _ _ _ _ _ _ _ Ha). cbn. apply (permits_take _ id sm sm'); [done..|]. by apply permits_idle in Hp.
  - by apply permits_idle in Hp.
  - by apply try_add_permits.
  - unfold spawned. rewrite spawner_drop_sems, push_conn_sems. by apply (permits_release _ _ _ (Spawning s)).
  - rewrite spawner_drop_sems. by apply (permits_release _ _ _ (Spawning s)).
  - assert (Hh : forall i, holders i (l1 ++ Holding (mkConn (c_key c) (c_conn c) (c_permit c) true) :: l2) = holders i (l1 ++ Holding c :: l2)).
    { intros i. by rewrite !holders_app, !holders_cons. }
    unfold permits. by setoid_rewrite Hh.
  - unfold conn_drop. cbn. replace (sems _) with (sems p) by (destruct (_ || _); [done|by rewrite push_conn_sems]). by apply (permits_release _ _ _ (Holding c)).
  - by apply (permits_release _ _ _ (Holding c)).
  - done.
Qed.
End Pool.
End Exclusive.

Module Shared.
Section Pool.
Context {K C : Type} `{Countable K}.

(** An entry: the connection, or the [Notify] (by its number) of the task that opens it. *)
Inductive PooledConnection : Type := Ready_ (c : C) | InProgress (notify : nat).
Record SharedPool : Type := mkShared { entries : gmap K PooledConnection; notifies : nat }.

(** A task: at the head of the loop of [acquire]; with the [Notify] of an entry, before it calls
    [notified]; waiting; with what [acquire] returned. *)
Inductive STask : Type :=
| Looping (key : K)
| Found (key : K) (notify : nat)
| Waiting (key : K) (notify : nat)
| Using (key : K) (c : C) (destroy_on_drop : bool)
| Opening (key : K) (notify : nat) (fulfilled : bool).

(** One turn of the loop, under the lock.  [race]: other threads may run between the release of the
    lock and the call of [notified]; on one thread nothing can. *)
Definition shared_acquire (race : bool) (key : K) (p : SharedPool) : SharedPool * STask :=
  match entries p !! key with
  | Some (Ready_ c) => (p, Using key c false)
  | Some (InProgress n) => (p, if race then Found key n else Waiting key n)
  | None => (mkShared (<[key := InProgress (notifies p)]> (entries p)) (S (notifies p)), Opening key (notifies p) false)
  end.
(** [Notify::notify_waiters]: the tasks that wait now are woken, and no other. *)
Definition wake (n : nat) (t : STask) : STask :=
  match t with Waiting key m => if decide (m = n) then Looping key else t | _ => t end.
Definition notify_waiters (n : nat) (ts : list STask) : list STask := wake n <$> ts.

(** [Spawner::spawned] up to the drop of the spawner, with whom it notifies. *)
Definition shared_spawned (key : K) (c : C) (p : SharedPool) : SharedPool * option nat :=
  (mkShared (<[key := Ready_ c]> (entries p)) (notifies p),
   match entries p !! key with Some (InProgress n) => Some n | _ => None end).
Definition shared_spawner_drop (key : K) (fulfilled : bool) (p : SharedPool) : SharedPool :=
  if negb fulfilled then mkShared (delete key (entries p)) (notifies p) else p.
Definition shared_conn_drop (key : K) (destroy : bool) (p : SharedPool) : SharedPool :=
  if destroy then
    match entries p !! key with
    | Some (Ready_ _) => mkShared (delete key (entries p)) (notifies p)
    | _ => p
    end
  else p.

Definition maybe_notify (o : option nat) (ts : list STask) : list STask := match o with Some n => notify_waiters n ts | None => ts end.
Inductive sstep (race : bool) : SharedPool * list STask -> SharedPool * list STask -> Prop :=
| sstep_start p ts key : sstep race (p, ts) (p, Looping key :: ts)
| sstep_loop p l1 l2 key p' t : shared_acquire race key p = (p', t) -> sstep race (p, l1 ++ Looping key :: l2) (p', l1 ++ t :: l2)
| sstep_notified p l1 l2 key n : sstep race (p, l1 ++ Found key n :: l2) (p, l1 ++ Waiting key n :: l2)
| sstep_cancel p l1 l2 key n t : t = Looping key \/ t = Found key n \/ t = Waiting key n -> sstep race (p, l1 ++ t :: l2) (p, l1 ++ l2)
| sstep_spawned p l1 l2 key n c p' o : shared_spawned key c p = (p', o) ->
    sstep race (p, l1 ++ Opening key n false :: l2) (p', maybe_notify o (l1 ++ Opening key n true :: l2))
| sstep_spawner_drop p l1 l2 key n f :
    sstep race (p, l1 ++ Opening key n f :: l2) (shared_spawner_drop key f p, notify_waiters n (l1 ++ l2))
| sstep_destroy p l1 l2 key c d : sstep race (p, l1 ++ Using key c d :: l2) (p, l1 ++ Using key c true :: l2)
| sstep_conn_drop p l1 l2 key c d : sstep race (p, l1 ++ Using key c d :: l2) (shared_conn_drop key d p, l1 ++ l2).
Definition shared_new : SharedPool * list STask := (mkShared ∅ 0, []).

(** ** One task opens a connection *)

(** The tasks that are opening a connection, with the number of their [Notify]. *)
Definition opening (t : STask) : list (K * nat) := match t with Opening key n false => [(key, n)] | _ => [] end.
Definition openings (ts : list STask) : list (K * nat) := ts ≫= opening.
Definition single (p : SharedPool) (ts : list STask) : Prop :=
  NoDup (openings ts).*1 /\ forall key n, (key, n) ∈ openings ts <-> entries p !! key = Some (InProgress n).
(** A task that waits is going to be woken: the spawner it waits for is there. *)
Definition attended (ts : list STask) : Prop := forall key n, Waiting key n ∈ ts -> exists key' f, Opening key' n f ∈ ts.

Lemma openings_app l1 l2 : openings (l1 ++ l2) = openings l1 ++ openings l2.
Proof. apply bind_app. Qed.
Lemma openings_cons t l : openings (t :: l) = opening t ++ openings l.
Proof. done. Qed.
Lemma openings_notify n ts : openings (notify_waiters n ts) = openings ts.
Proof.
  induction ts as [|t ts IH]; [done|]. change (opening (wake n t) ++ openings (notify_waiters n ts) = opening t ++ openings ts). rewrite IH. f_equal.
  destruct t; cbn; try done. by case_decide.
Qed.
Lemma openings_maybe o ts : openings (maybe_notify o ts) = openings ts.
Proof. destruct o; [apply openings_notify|done]. Qed.
(** A task that opens nothing comes, goes or changes. *)
Lemma single_quiet p l1 l l2 l' : openings l = [] -> openings l' = [] -> single p (l1 ++ l ++ l2) -> single p (l1 ++ l' ++ l2).
Proof. intros Hl Hl'. unfold single. by rewrite !openings_app, Hl, Hl'. Qed.
Lemma single_entries p p' ts : (forall key n, entries p !! key = Some (InProgress n) <-> entries p' !! key = Some (InProgress n)) -> single p ts -> single p' ts.
Proof. intros Hp [H1 H2]. split; [done|]. intros key n. by rewrite H2. Qed.
(** The opening of [key] ends. *)
Lemma single_close p p' l1 key n l l2 : openings l = [] -> (forall m, entries p' !! key <> Some (InProgress m)) ->
  (forall k, k <> key -> entries p' !! k = entries p !! k) -> single p (l1 ++ Opening key n false :: l2) -> single p' (l1 ++ l ++ l2).
Proof.
  unfold single. rewrite !openings_app, openings_cons. intros -> Hk Ho [Hd He]. cbn in *. rewrite !fmap_app in *. cbn in Hd.
  rewrite <- Permutation_middle in Hd. apply NoDup_cons in Hd as [Hn Hd]. split; [done|]. intros k m. destruct (decide (k = key)) as [-> |Hne].
  - split; [|by intros E%Hk]. intros Hin. exfalso. apply Hn. rewrite <- fmap_app. apply list_elem_of_fmap. by exists (key, m).
  - rewrite (Ho k Hne), <- He, !elem_of_app, elem_of_cons. split; [tauto|]. intros [?|[[= -> ->]|?]]; tauto || done.
Qed.
Lemma single_step race s s' : sstep race s s' -> single s.1 s.2 -> single s'.1 s'.2.
Proof.
  intros Hstep. destruct Hstep as [p ts key|p l1 l2 key p' t Ha|p l1 l2 key n|p l1 l2 key n t Ht|p l1 l2 key n c p' o Ha|p l1 l2 key n f|p l1 l2 key c d|p l1 l2 key c d]; cbn [fst snd]; intros Hs.
  - done.
  - unfold shared_acquire in Ha. destruct (entries p !! key) as [[c|n]|] eqn:Ek; injection Ha as <- <-.
    + by apply (single_quiet p l1 [Looping key] l2 [Using key c false]).
    + by apply (single_quiet p l1 [Looping key] l2 [if race then Found key n else Waiting key n]); [|destruct race|].
    + destruct Hs as [Hd He]. unfold single. rewrite !openings_app, openings_cons in *. cbn in *. rewrite fmap_app in *. cbn.
      assert (Hnot : key ∉ (openings l1).*1 ++ (openings l2).*1).
      { rewrite <- fmap_app. intros ([k m] & -> & Hin)%list_elem_of_fmap. apply He in Hin. cbn in Ek. congruence. }
      split; [rewrite <- Permutation_middle; by apply NoDup_cons|]. intros k m. rewrite elem_of_app, elem_of_cons. destruct (decide (k = key)) as [-> |Hne].
      * rewrite lookup_insert_eq. split; [|intros [= ->]; tauto]. intros [Hin|[[= ->]|Hin]]; [|done|];
          exfalso; apply Hnot; rewrite <- fmap_app; apply list_elem_of_fmap; exists (key, m); rewrite elem_of_app; tauto.
      * rewrite lookup_insert_ne, <- He, elem_of_app by done. split; [|tauto]. intros [?|[[= -> ->]|?]]; tauto || done.
  - by apply (single_quiet p l1 [Found key n] l2 [Waiting key n]).
  - apply (single_quiet p l1 [t] l2 []); [|done|done]. by destruct Ht as [-> |[-> | ->]].
  - injection Ha as <- <-. unfold single. rewrite openings_maybe.
    apply (single_close p _ l1 key n [Opening key n true]); [done| | |done]; cbn.
    + intros m. by rewrite lookup_insert_eq.
    + intros k Hk. by rewrite lookup_insert_ne.
  - unfold single. rewrite openings_notify. destruct f.
    + by apply (single_quiet p l1 [Opening key n true] l2 []).
    + apply (single_close p _ l1 key n []); [done| | |done]; cbn; [intros m; by rewrite lookup_delete_eq|intros k Hk; by rewrite lookup_delete_ne].
  - by apply (single_quiet p l1 [Using key c d] l2 [Using key c true]).
  - apply (single_quiet _ l1 [Using key c d] l2 []); [done..|]. eapply single_entries; [|done]. intros k m. unfold shared_conn_drop. destruct d; [|done].
    destruct (entries p !! key) as [[e|e]|] eqn:Ek; [|done|done]. cbn. destruct (decide (k = key)) as [-> |Hne]; [by rewrite Ek, lookup_delete_eq|by rewrite lookup_delete_ne].
Qed.

(** *** Waiting on one thread *)

Lemma notify_elem n t ts : t ∈ notify_waiters n ts -> (exists key, t = Looping key) \/ (t ∈ ts /\ forall key, t <> Waiting key n).
Proof.
  intros (u & -> & Hu)%list_elem_of_fmap. destruct u; cbn; try (by right; split). case_decide; [by left; eexists|right; split; [done|]]. intros k [= _ ->]. done.
Qed.
Lemma notify_keeps n key m f ts : Opening key m f ∈ ts -> Opening key m f ∈ notify_waiters n ts.
Proof. intros Hin. apply list_elem_of_fmap. by exists (Opening key m f). Qed.
Lemma attended_notify n ts : attended ts -> attended (notify_waiters n ts).
Proof.
  intros Ha key m Hin. destruct (notify_elem _ _ _ Hin) as [[? ?]|[Hin' _]]; [done|]. destruct (Ha key m Hin') as (k' & f & Hk). exists k', f. by apply notify_keeps.
Qed.
(** A task is replaced by one that is not a new waiter, and no spawner is lost. *)
Lemma attended_replace l1 t l l2 : attended (l1 ++ t :: l2) -> (forall key n f, t = Opening key n f -> exists f', Opening key n f' ∈ l) ->
  (forall key n, Waiting key n ∉ l) -> attended (l1 ++ l ++ l2).
Proof.
  intros Ha Ht Hl key n. rewrite !elem_of_app. intros Hw. destruct (Ha key n) as (k' & f & Hk).
  { rewrite elem_of_app, elem_of_cons. destruct Hw as [?|[?|?]]; [tauto|by edestruct Hl|tauto]. }
  rewrite elem_of_app, elem_of_cons in Hk. destruct Hk as [?|[E|?]]; [exists k', f; rewrite !elem_of_app; tauto| |exists k', f; rewrite !elem_of_app; tauto].
  destruct (Ht k' n f (eq_sym E)) as [f' Hf]. exists k', f'. rewrite !elem_of_app. tauto.
Qed.
Definition calm (t : STask) : Prop := match t with Found _ _ => False | _ => True end.
Lemma calm_notify n ts : Forall calm ts -> Forall calm (notify_waiters n ts).
Proof. intros Hc. apply Forall_fmap. eapply Forall_impl; [exact Hc|]. intros [] Ht; cbn; try done. by case_decide. Qed.
Lemma calm_step s s' : sstep false s s' -> Forall calm s.2 -> Forall calm s'.2.
Proof.
  intros Hstep. destruct Hstep as [p ts key|p l1 l2 key p' t Hq|p l1 l2 key n|p l1 l2 key n t Ht|p l1 l2 key n c p' o Hq|p l1 l2 key n f|p l1 l2 key c d|p l1 l2 key c d]; cbn [fst snd];
    rewrite ?Forall_app, ?Forall_cons; intros Hf; cbn [calm] in *; try tauto.
  - unfold shared_acquire in Hq. destruct (entries p !! key) as [[c|n]|]; injection Hq as <- <-; cbn [calm]; tauto.
  - assert (Hc : Forall calm (l1 ++ Opening key n true :: l2)) by (rewrite Forall_app, Forall_cons; cbn [calm]; tauto). destruct o; [by apply calm_notify|done].
  - apply calm_notify. rewrite Forall_app. tauto.
Qed.
Lemma attended_step s s' : sstep false s s' -> Forall calm s.2 -> single s.1 s.2 -> attended s.2 -> attended s'.2.
Proof.
  intros Hstep Hf Hs Ha.
  destruct Hstep as [p ts key|p l1 l2 key p' t Hq|p l1 l2 key n|p l1 l2 key n t Ht|p l1 l2 key n c p' o Hq|p l1 l2 key n f|p l1 l2 key c d|p l1 l2 key c d]; cbn [fst snd] in *.
  - intros k n [?|Hin]%elem_of_cons; [done|]. destruct (Ha k n Hin) as (k' & f & Hk). exists k', f. by apply elem_of_cons; right.
  - unfold shared_acquire in Hq. destruct (entries p !! key) as [[c|n]|] eqn:Ek; injection Hq as <- <-.
    + apply (attended_replace l1 (Looping key) [Using key c false]); [done..|]. by intros k m ?%list_elem_of_singleton.
    + intros k m. rewrite elem_of_app, elem_of_cons. intros Hw. destruct Hs as [_ He]. apply He in Ek.
      assert (Hcase : (k = key /\ m = n) \/ Waiting k m ∈ l1 ++ Looping key :: l2) by (rewrite elem_of_app, elem_of_cons; destruct Hw as [?|[[= -> ->]|?]]; tauto).
      assert (Hsrc : exists key' f, Opening key' m f ∈ l1 ++ Looping key :: l2).
      { destruct Hcase as [[-> ->]|Hw']; [|by apply (Ha k)]. apply list_elem_of_bind in Ek as (u & Hu & Hin). destruct u as [| | | |? ? []]; cbn in Hu; try (by apply not_elem_of_nil in Hu).
        apply list_elem_of_singleton in Hu as [= -> ->]. by eexists _, _. }
      destruct Hsrc as (k' & f & Hk). exists k', f. rewrite !elem_of_app, !elem_of_cons in *. destruct Hk as [?|[?|?]]; [tauto|done|tauto].
    + apply (attended_replace l1 (Looping key) [Opening key (notifies p) false]); [done..|]. by intros k m ?%list_elem_of_singleton.
  - rewrite Forall_app, Forall_cons in Hf. by destruct Hf as (_ & [] & _).
  - apply (attended_replace l1 t []); [done| |by intros ? ? ?%not_elem_of_nil]. by destruct Ht as [-> |[-> | ->]].
  - assert (Ha' : attended (l1 ++ Opening key n true :: l2)).
    { apply (attended_replace l1 (Opening key n false) [Opening key n true]); [done| |by intros ? ? ?%list_elem_of_singleton].
      intros ? ? ? [= <- <- <-]. exists true. by apply list_elem_of_singleton. }
    destruct o; [by apply attended_notify|done].
  - intros k m Hin. destruct (notify_elem _ _ _ Hin) as [[? ?]|[Hin' Hne]]; [done|].
    destruct (Ha k m) as (k' & f' & Hk); [rewrite elem_of_app, elem_of_cons; rewrite elem_of_app in Hin'; tauto|]. exists k', f'. apply notify_keeps.
    rewrite elem_of_app, elem_of_cons in Hk. rewrite elem_of_app. destruct Hk as [?|[[= -> -> ->]|?]]; [tauto| |tauto]. by destruct (Hne k).
  - apply (attended_replace l1 (Using key c d) [Using key c true]); [done..|]. by intros k m ?%list_elem_of_singleton.
  - apply (attended_replace l1 (Using key c d) []); [done..|]. by intros k m ?%not_elem_of_nil.
Qed.
End Pool.
End Shared.

(** ** Theorems *)

Lemma NoDup_submseteq_l {A} (l k : list A) : l ⊆+ k -> NoDup k -> NoDup l.
Proof. intros [k' Hk]%submseteq_Permutation. rewrite Hk. by intros [? _]%NoDup_app. Qed.

(** C20: a connection of the exclusive pool serves one request at a time, and only requests for the
    key it was opened for.  Whatever the tasks do and in whatever order, the connections that tasks
    hold and those that wait in the queues, each with its key, are among the connections that were
    put in, each no more often than it was: no connection is handed to two tasks, kept in two
    queues, or handed out while it is kept. *)
Theorem pool_connections_exclusive `{SM : Semaphore} {K C : Type} `{Countable K} cap idle life (s : Exclusive.Sys (K := K) (C := C)) :
  Exclusive.reachable cap idle life s ->
  Exclusive.held (Exclusive.tasks s) ++ Exclusive.pooled (Exclusive.conns (Exclusive.pool s)) ⊆+ Exclusive.added s /\
  (NoDup (Exclusive.added s) -> NoDup (Exclusive.held (Exclusive.tasks s) ++ Exclusive.pooled (Exclusive.conns (Exclusive.pool s)))).
Proof.
  intros Hr. assert (Hex : Exclusive.exclusive (Exclusive.pool s) (Exclusive.tasks s) (Exclusive.added s)).
  { unfold Exclusive.reachable in Hr. remember Exclusive.pool_sys as s0 eqn:E0.
    assert (H0 : Exclusive.exclusive (Exclusive.pool s0) (Exclusive.tasks s0) (Exclusive.added s0)) by (subst; apply Exclusive.exclusive_new).
    clear E0. induction Hr as [|s1 s2 s3 H12 H23 IH]; [done|]. by apply IH, (Exclusive.exclusive_step _ _ _ _ _ H12). }
  split; [exact Hex|]. intros Hn. by eapply NoDup_submseteq_l.
Qed.

(** The permits of a semaphore are never exceeded or lost.  In every reachable state, for each
    semaphore, the free permits and those with a task (a connection in use or a connection being
    opened) are together the capacity, so a permit returns however its task ends.  A key has a new
    semaphore each time its entry is created, so this does not bound the tasks that use the
    connections of a key ([pool_stale_permit]). *)
Theorem pool_permits_bounded `{SM : Semaphore} {K C : Type} `{Countable K} cap idle life (s : Exclusive.Sys (K := K) (C := C)) id sm :
  0 <= cap -> Exclusive.reachable cap idle life s -> Exclusive.sems (Exclusive.pool s) !! id = Some sm ->
  available sm + Exclusive.holders id (Exclusive.tasks s) = cap /\ 0 <= Exclusive.holders id (Exclusive.tasks s) <= cap.
Proof.
  intros Hcap Hr Hs. assert (Hp : Exclusive.permits cap (Exclusive.sems (Exclusive.pool s)) (Exclusive.tasks s)).
  { clear Hs. unfold Exclusive.reachable in Hr. remember Exclusive.pool_sys as s0 eqn:E0.
    assert (H0 : Exclusive.permits cap (Exclusive.sems (Exclusive.pool s0)) (Exclusive.tasks s0)) by (subst; by split).
    clear E0. induction Hr as [|s1 s2 s3 H12 H23 IH]; [done|]. by apply IH, (Exclusive.permits_step _ _ _ Hcap _ _ H12). }
  destruct (proj1 Hp id sm Hs). pose proof (Exclusive.holders_nonneg id (Exclusive.tasks s)). lia.
Qed.

(** C40: the shared pool opens one connection per key at a time.  However the tasks run, no two of
    them are opening a connection for the same key, and an entry is marked as being opened exactly
    as long as a task is opening it.  On one thread, moreover, every task that waits for a connection
    waits for a spawner that is still there to wake it. *)
Theorem shared_pool_single {K C : Type} `{Countable K} race (p : Shared.SharedPool (K := K) (C := C)) ts :
  rtc (Shared.sstep race) Shared.shared_new (p, ts) ->
  NoDup (Shared.openings ts).*1 /\
  (forall key n, (key, n) ∈ Shared.openings ts <-> Shared.entries p !! key = Some (Shared.InProgress n)) /\
  (race = false -> forall key n, Shared.Waiting key n ∈ ts -> exists key' f, Shared.Opening key' n f ∈ ts).
Proof.
  intros Hr. change p with (p, ts).1. set (ts' := ts). change ts' with (p, ts).2. clear ts'.
  assert (Hinv : Shared.single (p, ts).1 (p, ts).2 /\ (race = false -> Forall Shared.calm (p, ts).2 /\ Shared.attended (p, ts).2)).
  { remember Shared.shared_new as s0 eqn:E0.
    assert (H0 : Shared.single s0.1 s0.2 /\ (race = false -> Forall Shared.calm s0.2 /\ Shared.attended s0.2)).
    { subst s0. split; [split; [constructor|]|intros _; split; [constructor|]]; cbn.
      - intros key n. split; [by intros ?%not_elem_of_nil|by rewrite lookup_empty].
      - intros key n ?%not_elem_of_nil. done. }
    clear E0. induction Hr as [|s1 s2 s3 H12 H23 IH]; [done|]. apply IH. destruct H0 as [Hs Ha]. split; [by apply (Shared.single_step race _ _ H12)|].
    intros ->. destruct (Ha eq_refl) as [Hc Hat]. split; [by apply (Shared.calm_step _ _ H12)|by apply (Shared.attended_step _ _ H12)]. }
  destruct Hinv as [[Hd He] Ha]. split; [exact Hd|]. split; [exact He|]. intros Hrace. exact (proj2 (Ha Hrace)).
Qed.

(** ** Runs *)

(** A semaphore that counts. *)
#[local] Instance counting : Semaphore.
Proof.
  refine {| sem := Z; sem_new n := n; sem_try s := if 0 <? s then Some (s - 1) else None; sem_release s := s + 1; available s := s |}.
  - done.
  - intros s s'. case_match; [by intros [= <-]|done].
  - intros s. destruct (Z.ltb_spec 0 s); split; done || lia.
  - done.
Defined.
Abbreviation Sys := (Exclusive.Sys (SM := counting) (K := Z) (C := Z)).
Abbreviation reach := (Exclusive.reachable (SM := counting) (K := Z) (C := Z)).

Lemma demo_holding : exists s : Sys, reach 1 10 10 s /\ Exclusive.added s = [(7, 100)] /\ Exclusive.held (Exclusive.tasks s) = [(7, 100)] /\
  Exclusive.sems (Exclusive.pool s) !! 0%nat = Some 0.
Proof.
  eexists. split.
  - eapply rtc_l; [eapply (Exclusive.step_acquire _ _ _ _ _ _ _ 7); reflexivity|].
    eapply rtc_l; [eapply (Exclusive.step_spawned _ _ _ _ [] [] _ _ _ 100)|].
    eapply rtc_l; [eapply (Exclusive.step_acquire _ _ _ _ _ _ _ 7); reflexivity|].
    eapply rtc_l; [eapply (Exclusive.step_granted _ _ _ _ [] [] _ _ 7 0); reflexivity|].
    apply rtc_refl.
  - by vm_compute.
Qed.
Lemma pool_connections_exclusive_witness : exists s : Sys, reach 1 10 10 s /\ Exclusive.held (Exclusive.tasks s) = [(7, 100)] /\
  Exclusive.held (Exclusive.tasks s) ++ Exclusive.pooled (Exclusive.conns (Exclusive.pool s)) ⊆+ [(7, 100)].
Proof.
  destruct demo_holding as (s & Hr & Ha & Hh & _). exists s. split; [exact Hr|]. split; [exact Hh|]. rewrite <- Ha.
  exact (proj1 (pool_connections_exclusive 1 10 10 s Hr)).
Defined.
Lemma pool_permits_bounded_witness : exists s : Sys, reach 1 10 10 s /\ Exclusive.holders 0 (Exclusive.tasks s) = 1.
Proof.
  destruct demo_holding as (s & Hr & _ & _ & Hs). exists s. split; [exact Hr|].
  destruct (pool_permits_bounded 1 10 10 s 0%nat 0 ltac:(lia) Hr Hs) as [He _]. change (0 + Exclusive.holders 0 (Exclusive.tasks s) = 1) in He. lia.
Defined.

(** The capacity of an entry is said to limit the connections inside it; connections added from
    outside hold no permit, so nothing stops them. *)
Lemma pool_over_capacity : exists s : Sys, reach 1 10 10 s /\ Exclusive.pooled (Exclusive.conns (Exclusive.pool s)) = [(7, 1); (7, 2); (7, 3)].
Proof.
  eexists. split.
  - eapply rtc_l; [apply (Exclusive.step_try_add _ _ _ _ _ _ _ 7 1)|]. eapply rtc_l; [apply (Exclusive.step_try_add _ _ _ _ _ _ _ 7 2)|].
    eapply rtc_l; [apply (Exclusive.step_try_add _ _ _ _ _ _ _ 7 3)|]. apply rtc_refl.
  - by vm_compute.
Qed.
(** A permit of an entry that is gone opens its successor: with a capacity of one, a task waits for
    the entry of another; that one gives up, which removes the entry; a third creates it anew; and
    now the first, with its old permit, may open a connection beside the third. *)
Lemma pool_stale_permit : exists s : Sys, reach 1 10 10 s /\
  Exclusive.tasks s = [Exclusive.Spawning (Exclusive.mkSpawner 7 1 true false); Exclusive.Spawning (Exclusive.mkSpawner 7 0 false false)].
Proof.
  eexists. split.
  - eapply rtc_l; [eapply (Exclusive.step_acquire _ _ _ _ _ _ _ 7); reflexivity|].
    eapply rtc_l; [eapply (Exclusive.step_acquire _ _ _ _ _ _ _ 7); reflexivity|].
    eapply rtc_l; [eapply (Exclusive.step_spawner_drop _ _ _ _ [Exclusive.Awaiting 7 0] [])|].
    eapply rtc_l; [eapply (Exclusive.step_acquire _ _ _ _ _ _ _ 7); reflexivity|].
    eapply rtc_l; [eapply (Exclusive.step_granted _ _ _ _ [_] [] _ _ 7 0); reflexivity|].
    apply rtc_refl.
  - by vm_compute.
Qed.

Lemma shared_demo race : exists p ts, rtc (Shared.sstep (K := Z) (C := Z) race) Shared.shared_new (p, ts) /\
  p = Shared.mkShared {[7 := Shared.InProgress 0]} 1 /\ ts = [if race then Shared.Found 7 0 else Shared.Waiting 7 0; Shared.Opening 7 0 false].
Proof.
  eexists _, _. split.
  - eapply rtc_l; [apply (Shared.sstep_start _ _ _ 7)|]. eapply rtc_l; [eapply (Shared.sstep_loop _ _ [] []); reflexivity|].
    eapply rtc_l; [apply (Shared.sstep_start _ _ _ 7)|]. eapply rtc_l; [eapply (Shared.sstep_loop _ _ []); reflexivity|]. apply rtc_refl.
  - by split.
Qed.
Lemma shared_pool_single_witness : exists (p : Shared.SharedPool (K := Z) (C := Z)) ts, rtc (Shared.sstep false) Shared.shared_new (p, ts) /\
  Shared.Waiting 7 0 ∈ ts /\ exists key' f, Shared.Opening key' 0%nat f ∈ ts.
Proof.
  destruct (shared_demo false) as (p & ts & Hr & _ & ->). eexists p, _. split; [exact Hr|]. split; [apply elem_of_cons; by left|].
  apply (proj2 (proj2 (shared_pool_single false p _ Hr)) eq_refl 7). apply elem_of_cons. by left.
Defined.
(** With other threads a wake-up can be lost: a task that has read the entry but not yet called
    [notified] misses the notification, and then waits although the connection is there. *)
Lemma shared_lost_wakeup : exists (p : Shared.SharedPool (K := Z) (C := Z)),
  rtc (Shared.sstep true) Shared.shared_new (p, [Shared.Waiting 7 0]) /\ Shared.entries p !! 7 = Some (Shared.Ready_ 100).
Proof.
  destruct (shared_demo true) as (p & ts & Hr & -> & ->). eexists. split; [etrans; [exact Hr|]|].
  - eapply rtc_l; [eapply (Shared.sstep_spawned _ _ [_] [] 7 0 100); reflexivity|].
    eapply rtc_l; [apply (Shared.sstep_spawner_drop _ _ [Shared.Found 7 0] [])|].
    eapply rtc_l; [apply (Shared.sstep_notified _ _ [] [])|]. apply rtc_refl.
  - cbn. apply lookup_insert_eq.
Qed.
