(* ===== verification/ContentCoding.v ===== *)
(** * Negotiation of the content coding (http-encoding/src/{coding,error}.rs)

    The codings a client accepts, with their qualities ([offers], [q_parse]), and the one that is
    chosen ([from_headers]); the grammar of the header and what the choice should be. *)

From S2P Require Import Prelude Http.

(** ** Codings (http-encoding/src/{coding,error}.rs) *)

(** The features the crate is built with. *)
Record Features : Type := mkFeatures { f_br : bool; f_gz : bool; f_de : bool }.

Inductive ContentEncoding : Type := Br | Deflate | Gzip | NoOp.
#[global] Instance ContentEncoding_eq_dec : EqDecision ContentEncoding.
Proof. solve_decision. Defined.

Inductive FeatureError : Type := FeatureBr | FeatureGzip | FeatureDeflate | Unknown (s : bytes).
Inductive EncodingError : Type := MissingFeature (e : FeatureError) | ParseAcceptEncoding.

Definition try_parse (s : bytes) : outcome FeatureError ContentEncoding :=
  if eq_ignore_ascii_case s (bs "gzip") then Ok Gzip
  else if eq_ignore_ascii_case s (bs "deflate") then Ok Deflate
  else if eq_ignore_ascii_case s (bs "br") then Ok Br
  else if eq_ignore_ascii_case s (bs "identity") then Ok NoOp
  else Err (Unknown s).

(** [QValue::parse]: a quality in thousandths, as a [u16].  [Chars::next] takes off the head. *)
Fixpoint q_digits (factor value : Z) (c : bytes) : option Z :=
  match c with
  | [] => if value <=? 1000 then Some value else None
  | n :: c =>
      if (48 <=? n) && (n <=? 57) then
        if factor <? 1 then None else q_digits (factor / 10) (wrap 16 (value + factor * (n - 48))) c
      else None
  end.
Definition q_parse (s : bytes) : option Z :=
  match s with
  | q :: e :: d :: c =>
      if negb ((q =? 113) || (q =? 81)) then None
      else if negb (e =? 61) then None
      else
        value ← (if d =? 48 then Some 0 else if d =? 49 then Some 1000 else None);
        match c with
        | [] => Some value
        | p :: c => if p =? 46 then q_digits 100 value c else None
        end
  | _ => None
  end.

(** One element of the list: a coding and, after a semicolon, its quality. *)
Definition parse_offer (v : bytes) : option (ContentEncoding * Z) :=
  let '(name, param) := split_once 59 v in
  match try_parse (trim name) with
  | Ok enc => Some (enc, default 1000 (s ← param; q_parse (trim s)))
  | _ => None
  end.

(** The codings a build can produce, in the arms of [try_update]. *)
Definition supported (F : Features) (enc : ContentEncoding) : bool :=
  match enc with Br => f_br F | Deflate => f_de F | Gzip => f_gz F | NoOp => true end.
Definition try_update (F : Features) (self other : ContentEncoding * Z) : ContentEncoding * Z :=
  if self.2 <? other.2 then (if supported F other.1 then other else self) else self.

Section Negotiation.
Context `{HM : HeaderMap} (F : Features).
Definition offers (hs : hmap) : list (ContentEncoding * Z) :=
  omap parse_offer (mjoin (split_on 44 <$> omap to_str (hm_get_all Hdr.ACCEPT_ENCODING hs))).
Definition from_headers (hs : hmap) : ContentEncoding :=
  (fold_left (try_update F) (offers hs) (NoOp, 0)).1.
End Negotiation.

(** ** What a header says, by the grammar of RFC 7231 *)

Definition digit (b : Z) : Prop := 48 <= b <= 57.
Definition thousandths (ds : bytes) : Z :=
  match ds with
  | [a] => 100 * (a - 48)
  | [a; b] => 100 * (a - 48) + 10 * (b - 48)
  | [a; b; c] => 100 * (a - 48) + 10 * (b - 48) + (c - 48)
  | _ => 0
  end.
(** qvalue = ( "0" [ "." 0*3DIGIT ] ) / ( "1" [ "." 0*3("0") ] ) *)
Inductive QValue : bytes -> Z -> Prop :=
| q_zero : QValue (bs "0") 0
| q_one : QValue (bs "1") 1000
| q_fraction ds : Forall digit ds -> (length ds <= 3)%nat -> QValue (bs "0." ++ ds) (thousandths ds)
| q_one_zeros n : (n <= 3)%nat -> QValue (bs "1." ++ replicate n 48) 1000.

(** An element: a token, with optional blanks around it and an optional weight.  A token that is
    none of the four codings means nothing to the server. *)
Definition token_char (b : Z) : Prop := 33 <= b < 127 /\ b <> 44 /\ b <> 59.
Definition blanks (l : bytes) : Prop := Forall (fun b => b = 32) l.
Definition coding_of (name : bytes) : option ContentEncoding :=
  let n := to_ascii_lowercase name in
  if bool_decide (n = bs "br") then Some Br
  else if bool_decide (n = bs "deflate") then Some Deflate
  else if bool_decide (n = bs "gzip") then Some Gzip
  else if bool_decide (n = bs "identity") then Some NoOp
  else None.
Inductive Element : bytes -> option (ContentEncoding * Z) -> Prop :=
| element_plain l name r :
    blanks l -> Forall token_char name -> blanks r -> Element (l ++ name ++ r) ((., 1000) <$> coding_of name)
| element_weight l name r l' q t v r' :
    blanks l -> Forall token_char name -> blanks r -> blanks l' -> q = 113 \/ q = 81 -> QValue t v -> blanks r' ->
    Element (l ++ name ++ r ++ 59 :: l' ++ (q :: 61 :: t) ++ r') ((., v) <$> coding_of name).
(** The value of an [Accept-Encoding] header: elements separated by commas. *)
Definition AcceptEncoding (v : bytes) (es : list (option (ContentEncoding * Z))) : Prop :=
  exists texts, texts <> [] /\ Forall2 Element texts es /\ v = join 44 texts.

(** The best of a list of offers: the first one of the highest quality among those the build can
    produce, and no coding at all if there is none of a quality above zero. *)
Definition best (F : Features) (l : list (ContentEncoding * Z)) (enc : ContentEncoding) : Prop :=
  (enc = NoOp /\ forall e q, (e, q) ∈ l -> supported F e = true -> q <= 0) \/
  exists l1 q l2, l = l1 ++ (enc, q) :: l2 /\ 0 < q /\ supported F enc = true /\
    (forall e' q', (e', q') ∈ l1 -> supported F e' = true -> q' < q) /\
    (forall e' q', (e', q') ∈ l2 -> supported F e' = true -> q' <= q).

(** *** Qualities *)

#[local] Instance digit_dec b : Decision (digit b).
Proof. unfold digit. apply _. Defined.
(** The sum stays far below the width of a [u16]. *)
Lemma q_digits_cons f v n c : 1 <= f <= 100 -> 0 <= v <= 2000 ->
  q_digits f v (n :: c) = if decide (digit n) then q_digits (f / 10) (v + f * (n - 48)) c else None.
Proof.
  intros Hf Hv. cbn [q_digits]. rewrite (proj2 (Z.ltb_ge f 1)) by lia. unfold digit. case_decide as Hn.
  - rewrite (proj2 (Z.leb_le 48 n)), (proj2 (Z.leb_le n 57)) by lia. cbn. unfold wrap. by rewrite Z.mod_small by (change (2 ^ 16) with 65536; nia).
  - destruct (Z.leb_spec 48 n), (Z.leb_spec n 57); cbn; try done; lia.
Qed.
Lemma q_digits_four v n c : q_digits 0 v (n :: c) = None.
Proof. cbn. by destruct (_ && _). Qed.
Lemma thousandths_bound ds : Forall digit ds -> 0 <= thousandths ds <= 999.
Proof.
  unfold digit. intros H. destruct ds as [|a [|b [|c [|d ds]]]]; cbn [thousandths]; try lia;
    repeat (apply Forall_cons in H as [? H]); lia.
Qed.
Lemma q_digits_nil f v v' : q_digits f v [] = Some v' <-> v' = v /\ v <= 1000.
Proof. cbn. destruct (Z.leb_spec v 1000); split; [intros [= <-]; lia|by intros [-> _]|done|lia]. Qed.
Lemma q_digits_exact v0 ds v : v0 = 0 \/ v0 = 1000 ->
  q_digits 100 v0 ds = Some v <-> Forall digit ds /\ (length ds <= 3)%nat /\ v = v0 + thousandths ds /\ v <= 1000.
Proof.
  intros Hv0. assert (Hn : Forall digit [] <-> True) by (split; [done|constructor]).
  destruct ds as [|a [|b [|c [|d ds]]]]; cbn [thousandths length]; rewrite ?Forall_cons, ?Hn;
    repeat (rewrite q_digits_cons by (unfold digit in *; cbn; lia); case_decide; [|split; [done|tauto]];
            repeat match goal with |- context [?x / 10] => let y := eval vm_compute in (x / 10) in change (x / 10) with y end);
    rewrite ?q_digits_nil, ?q_digits_four; unfold digit in *; try lia.
  split; [done|lia].
Qed.
Lemma thousandths_zeros ds : Forall digit ds -> (length ds <= 3)%nat -> 1000 + thousandths ds <= 1000 -> ds = replicate (length ds) 48 /\ thousandths ds = 0.
Proof.
  unfold digit. intros H Hl. destruct ds as [|a [|b [|c [|d ds]]]]; cbn [thousandths length replicate]; intros Hv;
    repeat (apply Forall_cons in H as [? H]); cbn in Hl; try done; try lia; (split; [repeat (f_equal; try lia)|lia]).
Qed.
Lemma thousandths_replicate n : thousandths (replicate n 48) = 0.
Proof. by destruct n as [|[|[|[|n]]]]. Qed.

Lemma q_parse_exact s v : q_parse s = Some v <-> exists q t, (q = 113 \/ q = 81) /\ s = q :: 61 :: t /\ QValue t v.
Proof.
  split.
  - intros H. destruct s as [|q [|e [|d c]]]; try done. cbn in H.
    destruct (Z.eqb_spec q 113), (Z.eqb_spec q 81); try done; cbn in H; (destruct (Z.eqb_spec e 61) as [->|]; [|done]); cbn in H; exists q, (d :: c); (split; [by auto|split; [done|]]);
    (destruct (Z.eqb_spec d 48) as [->|]; [|destruct (Z.eqb_spec d 49) as [->|]; [|done]]; cbn in H;
     (destruct c as [|p c]; [injection H as <-; constructor|]; destruct (Z.eqb_spec p 46) as [->|]; [|done];
      apply q_digits_exact in H as (Hd & Hl & -> & Hv); [|by auto])).
    all: first [apply (q_fraction c); done
      | destruct (thousandths_zeros c Hd Hl Hv) as [Ec ->]; pose proof (q_one_zeros (length c) Hl) as Hc; rewrite <- Ec in Hc; exact Hc].
  - intros (q & t & Hq & -> & Ht). cbn. replace ((q =? 113) || (q =? 81)) with true by (destruct Hq as [-> | ->]; done).
    destruct Ht as [| |ds Hd Hl|n Hn]; cbn; try done.
    + apply q_digits_exact; [by auto|]. pose proof (thousandths_bound ds Hd). auto with lia.
    + apply q_digits_exact; [by auto|]. rewrite thousandths_replicate, length_replicate. split; [|lia].
      apply Forall_replicate. unfold digit. lia.
Qed.

(** *** Elements *)

Definition inkless (b : Z) : Prop := is_space b = false.
Lemma trim_start_blanks l t : blanks l -> trim_start (l ++ t) = trim_start t.
Proof. induction 1 as [|b l -> Hl IH]; [done|]. exact IH. Qed.
Lemma trim_start_solid l t : Forall inkless l -> l <> [] -> trim_start (l ++ t) = l ++ t.
Proof. intros Hl Hn. destruct Hl as [|b l Hb Hl]; [done|]. unfold inkless in Hb. cbn. by rewrite Hb. Qed.
Lemma trim_start_all l : blanks l -> trim_start l = [].
Proof. intros H. rewrite <- (app_nil_r l). by rewrite trim_start_blanks. Qed.
Lemma blanks_rev l : blanks l -> blanks (rev l).
Proof. apply List.Forall_rev. Qed.
(** What has no white space inside is what [trim] leaves of it. *)
Lemma trim_pad l m r : blanks l -> Forall inkless m -> blanks r -> trim (l ++ m ++ r) = m.
Proof.
  intros Hl Hm Hr. unfold trim. rewrite trim_start_blanks by done. destruct (decide (m = [])) as [-> |Hne].
  - change ([] ++ r) with r. rewrite (trim_start_all r Hr). reflexivity.
  - rewrite trim_start_solid by done. rewrite rev_app_distr, trim_start_blanks by by apply blanks_rev.
    rewrite <- (app_nil_r (rev m)), trim_start_solid; [by rewrite app_nil_r, rev_involutive| |].
    + by apply List.Forall_rev.
    + intros E. apply Hne. rewrite <- (rev_involutive m), E. done.
Qed.
Lemma split_once_none c l : c ∉ l -> split_once c l = (l, None).
Proof.
  induction l as [|b l IH]; intros H; [done|]. apply not_elem_of_cons in H as [Hb H]. cbn. rewrite IH by done.
  by rewrite (proj2 (Z.eqb_neq b c)).
Qed.
Lemma split_once_some c l t : c ∉ l -> split_once c (l ++ c :: t) = (l, Some t).
Proof.
  induction l as [|b l IH]; intros H; [by cbn; rewrite Z.eqb_refl|]. apply not_elem_of_cons in H as [Hb H]. cbn. rewrite IH by done.
  by rewrite (proj2 (Z.eqb_neq b c)).
Qed.

(** A byte of a header value that is neither a comma nor a semicolon. *)
Definition plain (b : Z) : Prop := 32 <= b < 127 /\ b <> 44 /\ b <> 59.
Lemma blanks_plain l : blanks l -> Forall plain l.
Proof. intros H. eapply Forall_impl; [exact H|]. unfold plain. cbn. lia. Qed.
Lemma token_plain l : Forall token_char l -> Forall plain l.
Proof. intros H. eapply Forall_impl; [exact H|]. unfold plain, token_char. lia. Qed.
Lemma token_inkless l : Forall token_char l -> Forall inkless l.
Proof. intros H. eapply Forall_impl; [exact H|]. unfold token_char, inkless, is_space. intros b Hb. zb. Qed.
Lemma QValue_token t v : QValue t v -> Forall token_char t.
Proof.
  unfold token_char. intros []; cbn [bs app]; repeat (apply Forall_cons; split; [cbn; lia|]); try constructor.
  - eapply Forall_impl; [done|]. unfold digit. lia.
  - apply Forall_replicate. lia.
Qed.
Lemma weight_token q t v : q = 113 \/ q = 81 -> QValue t v -> Forall token_char (q :: 61 :: t).
Proof. intros Hq Ht. apply Forall_cons. split; [unfold token_char; lia|]. apply Forall_cons. split; [unfold token_char; lia|]. by eapply QValue_token. Qed.
Lemma plain_absent c l : Forall plain l -> c = 44 \/ c = 59 -> c ∉ l.
Proof. intros Hl Hc Hin. rewrite Forall_forall in Hl. apply Hl in Hin. unfold plain in Hin. lia. Qed.
#[local] Hint Resolve blanks_plain token_plain token_inkless weight_token : core.

Lemma try_parse_coding name : match try_parse name with Ok e => Some e | _ => None end = coding_of name.
Proof.
  unfold try_parse, coding_of, eq_ignore_ascii_case. change (to_ascii_lowercase (bs "gzip")) with (bs "gzip").
  change (to_ascii_lowercase (bs "deflate")) with (bs "deflate"). change (to_ascii_lowercase (bs "br")) with (bs "br").
  change (to_ascii_lowercase (bs "identity")) with (bs "identity").
  repeat case_bool_decide; try done;
    match goal with H1 : ?x = bs _, H2 : ?x = bs _ |- _ => rewrite H1 in H2; vm_compute in H2; discriminate H2 end.
Qed.
Lemma parse_offer_element v e : Element v e -> parse_offer v = e.
Proof.
  intros H. assert (Hmap : forall name (v : Z), match try_parse name with Ok e => Some (e, v) | _ => None end = (., v) <$> coding_of name).
  { intros name w. rewrite <- try_parse_coding. by destruct (try_parse name). }
  unfold parse_offer. destruct H as [l name r Hl Hn Hr|l name r l' q t w r' Hl Hn Hr Hl' Hq Ht Hr'].
  - rewrite split_once_none by (apply plain_absent; [rewrite !Forall_app|]; auto). rewrite trim_pad by auto. apply Hmap.
  - rewrite (app_assoc name), (app_assoc l), split_once_some by (apply plain_absent; [rewrite !Forall_app|]; auto).
    rewrite trim_pad by auto. cbn [mbind option_bind]. rewrite trim_pad by eauto.
    rewrite (proj2 (q_parse_exact _ w)) by eauto. apply Hmap.
Qed.
Lemma element_no_comma v e : Element v e -> 44 ∉ v /\ Forall visible v.
Proof.
  intros H. assert (Hv : forall l, Forall plain l -> 44 ∉ l /\ Forall visible l).
  { intros l Hl. split; [by apply plain_absent; auto|]. eapply Forall_impl; [done|]. unfold plain, visible. lia. }
  destruct H as [l name r Hl Hn Hr|l name r l' q t w r' Hl Hn Hr Hl' Hq Ht Hr'].
  - apply Hv. rewrite !Forall_app. auto.
  - rewrite !not_elem_of_app, not_elem_of_cons, !not_elem_of_app, !Forall_app, Forall_cons, !Forall_app.
    destruct (Hv l), (Hv name), (Hv r), (Hv l'), (Hv (q :: 61 :: t)), (Hv r'); eauto 10. unfold visible at 4. repeat split; done || lia.
Qed.
Lemma join_visible texts : Forall (Forall visible) texts -> Forall visible (join 44 texts).
Proof.
  induction texts as [|t [|u ts] IH]; intros H; [constructor|by apply Forall_cons in H as [? _]|].
  apply Forall_cons in H as [Ht H]. change (Forall visible (t ++ 44 :: join 44 (u :: ts))). rewrite Forall_app, Forall_cons. split; [done|].
  split; [unfold visible; lia|by apply IH].
Qed.
Lemma accept_encoding_parse v es : AcceptEncoding v es -> Forall visible v /\ omap parse_offer (split_on 44 v) = omap id es.
Proof.
  intros (texts & Hne & Hes & ->). assert (Hc : Forall (fun t => 44 ∉ t /\ Forall visible t) texts).
  { eapply Forall2_Forall_l; [done|]. apply Forall_true. intros e t. apply element_no_comma. }
  apply Forall_and in Hc as [Hc Hv]. split; [by apply join_visible|]. rewrite split_on_join by done. clear Hne Hc Hv.
  induction Hes as [|t e texts es He Hes IH]; [done|]. cbn. rewrite (parse_offer_element _ _ He), IH. by destruct e.
Qed.

(** *** The choice *)

Definition best_so_far (F : Features) (l : list (ContentEncoding * Z)) (p : ContentEncoding * Z) : Prop :=
  (p = (NoOp, 0) /\ forall e q, (e, q) ∈ l -> supported F e = true -> q <= 0) \/
  exists l1 l2, l = l1 ++ p :: l2 /\ 0 < p.2 /\ supported F p.1 = true /\
    (forall e' q', (e', q') ∈ l1 -> supported F e' = true -> q' < p.2) /\
    (forall e' q', (e', q') ∈ l2 -> supported F e' = true -> q' <= p.2).
Lemma best_bound F l p : best_so_far F l p -> 0 <= p.2 /\ forall e q, (e, q) ∈ l -> supported F e = true -> q <= p.2.
Proof.
  intros [[-> H]|(l1 & l2 & -> & Hp & Hs & H1 & H2)]; [done|]. split; [lia|]. intros e q Hin He.
  rewrite elem_of_app, elem_of_cons in Hin. destruct Hin as [Hin|[<-|Hin]]; [specialize (H1 e q Hin He); lia|done|by apply (H2 e)].
Qed.
Lemma best_skip F l p o : best_so_far F l p -> (supported F o.1 = true -> o.2 <= p.2) -> best_so_far F (l ++ [o]) p.
Proof.
  intros [[-> H]|(l1 & l2 & -> & Hp & Hps & H1 & H2)] Ho.
  - left. split; [done|]. intros e q [Hin|E%list_elem_of_singleton]%elem_of_app; [by apply (H e)|]. by subst o.
  - right. exists l1, (l2 ++ [o]). split; [by rewrite <- app_assoc|]. do 3 (split; [done|]).
    intros e' q' [Hin|E%list_elem_of_singleton]%elem_of_app; [by apply (H2 e')|]. by subst o.
Qed.
Lemma try_update_best F l p o : best_so_far F l p -> best_so_far F (l ++ [o]) (try_update F p o).
Proof.
  intros Hp. destruct (best_bound F l p Hp) as [H0 Hle]. unfold try_update.
  destruct (Z.ltb_spec p.2 o.2) as [Hlt|Hge]; [destruct (supported F o.1) eqn:Hs; [|apply best_skip; congruence]|by apply best_skip].
  right. exists l, []. split; [done|]. split; [lia|]. split; [done|]. split; [|by intros e' q' H%not_elem_of_nil].
  intros e' q' Hin He. specialize (Hle e' q' Hin He). lia.
Qed.
Lemma fold_best F l : best_so_far F l (fold_left (try_update F) l (NoOp, 0)).
Proof.
  induction l as [|o l IH] using rev_ind; [|rewrite fold_left_app; by apply try_update_best].
  left. split; [done|]. by intros e q H%not_elem_of_nil.
Qed.
Lemma offers_parse `{HM : HeaderMap} hs ess :
  Forall2 AcceptEncoding (hm_get_all Hdr.ACCEPT_ENCODING hs) ess -> offers hs = omap id (mjoin ess).
Proof.
  unfold offers. induction 1 as [|v es vs ess Hv Hvs IH]; [done|]. destruct (accept_encoding_parse _ _ Hv) as [Hvis Hp].
  cbn [omap list_omap]. rewrite to_str_visible by done. rewrite fmap_cons.
  change (omap parse_offer (split_on 44 v ++ mjoin (split_on 44 <$> omap to_str vs)) = omap id (es ++ mjoin ess)).
  by rewrite !omap_app, Hp, IH.
Qed.

(** C35: the coding of a response is the one the client prefers.  When the values of
    [Accept-Encoding] are lists of codings with optional weights as RFC 7231 writes them, with spaces
    for its optional white space, the chosen coding is the first one of the highest weight among those the build supports, over all
    values of the header in order; a coding of weight zero is never chosen, a coding without a
    weight counts as one, unknown codings are passed over, and without any candidate the body is
    left alone. *)
Theorem accept_encoding_choice `{HM : HeaderMap} F hs ess :
  Forall2 AcceptEncoding (hm_get_all Hdr.ACCEPT_ENCODING hs) ess ->
  best F (omap id (mjoin ess)) (from_headers F hs).
Proof.
  intros H. unfold from_headers. rewrite (offers_parse hs ess H).
  destruct (fold_best F (omap id (mjoin ess))) as [[Ep Hp]|(l1 & l2 & El & Hq & Hs & H1 & H2)].
  - left. by rewrite Ep.
  - right. destruct (fold_left (try_update F) (omap id (mjoin ess)) (NoOp, 0)) as [enc q]. by exists l1, q, l2.
Qed.

Definition all_features : Features := mkFeatures true true true.
Lemma element_demo_plain s enc : Forall token_char (bs s) -> coding_of (bs s) = enc -> Element (bs s) ((., 1000) <$> enc).
Proof. intros Hs <-. rewrite <- (app_nil_r (bs s)) at 1. by apply (element_plain [] (bs s) []); try apply List.Forall_nil. Qed.
Lemma element_demo_weight s d enc :
  Forall token_char (bs s) -> coding_of (bs s) = enc -> digit d -> Element ([32] ++ bs s ++ [] ++ 59 :: [] ++ (113 :: 61 :: bs "0." ++ [d]) ++ []) ((., thousandths [d]) <$> enc).
Proof. intros Hs <- Hd. apply element_weight; try (by repeat (apply Forall_cons; split)) || apply List.Forall_nil; [by left|]. apply q_fraction; [by apply Forall_singleton|cbn; lia]. Qed.
Definition demo_accept := hm_insert Hdr.ACCEPT_ENCODING (bs "zstd, gzip;q=0.8, br;q=0.9") hm_empty.
Lemma accept_encoding_choice_witness : best all_features [(Gzip, 800); (Br, 900)] Br.
Proof.
  apply (accept_encoding_choice (HM := assoc_map) all_features demo_accept [[None; Some (Gzip, 800); Some (Br, 900)]]).
  constructor; [|constructor]. exists [bs "zstd"; bs " gzip;q=0.8"; bs " br;q=0.9"]. split; [done|]. split; [|reflexivity].
  constructor; [|constructor; [|constructor; [|constructor]]].
  - apply (element_demo_plain "zstd" None); [|reflexivity]. repeat constructor; cbn; lia.
  - apply (element_demo_weight "gzip" 56 (Some Gzip)); [|reflexivity|done]. repeat constructor; cbn; lia.
  - apply (element_demo_weight "br" 57 (Some Br)); [|reflexivity|done]. repeat constructor; cbn; lia.
Defined.
