(* ===== verification/ContentCoder.v ===== *)
(** * Coding a body (http-encoding/src/{coder,encode,decode,writer,lib}.rs, web/src/middleware/{compress,decompress,limit}.rs)

    The stream adaptor that runs a body through a coder ([poll_next] over [code] and [code_eof]),
    the response and request side that choose the coder ([encoder], [try_decoder]), and the
    middlewares on top of them.  The compressors (flate2, brotli2) are not in the repository: class
    [Backend] has what is called of them, [BackendLaws] what their documentation promises. *)

From S2P Require Import Prelude Http WriteBuffers ContentCoding.

(** ** Body streams *)

(** One [poll_next] of a body that has not ended. *)
Inductive Item (E : Type) : Type := Chunk (b : bytes) | Failed (e : E) | NotReady.
Arguments Chunk {E} b.
Arguments Failed {E} e.
Arguments NotReady {E}.
Inductive Poll (A : Type) : Type := Ready (a : A) | Pending.
Arguments Ready {A} a.
Arguments Pending {A}.

(** A body: what its polls will return, whether it has returned its end, and whether it may be
    polled after that (the contract of [Stream] lets a stream panic then), and its size hint. *)
Record Body (E : Type) : Type := mkBody { b_polls : list (Item E); b_ended : bool; b_fused : bool; b_hint : Z * option Z }.
Arguments mkBody {E} b_polls b_ended b_fused b_hint.
Arguments b_polls {E} _.
Arguments b_ended {E} _.
Arguments b_fused {E} _.
Arguments b_hint {E} _.
Definition body_poll {E} : M (Body E) E (Poll (option bytes)) := fun b =>
  match b_polls b with
  | Chunk c :: ps => (mkBody ps (b_ended b) (b_fused b) (b_hint b), Ok (Ready (Some c)))
  | Failed e :: ps => (mkBody ps (b_ended b) (b_fused b) (b_hint b), Err e)
  | NotReady :: ps => (mkBody ps (b_ended b) (b_fused b) (b_hint b), Ok Pending)
  | [] => if b_ended b && negb (b_fused b) then (b, Panic) else (mkBody [] true (b_fused b) (b_hint b), Ok (Ready None))
  end.

(** ** The compressors *)

Inductive Format : Type := FBrotli | FGzip | FDeflate.
Inductive Dir : Type := Encode | Decode.
(** What is called of a compressor over its writer: [write_all], [flush], [try_finish]/[finish]. *)
Inductive Op : Type := Write (b : bytes) | Flush | Finish.
Class Backend : Type := {
  zs : Type;
  z_new : Format -> Dir -> zs;
  (** The call, what it writes to the inner writer, and its result. *)
  z_op : Op -> zs -> zs * bytes * outcome ErrorKind unit;
}.

(** *** [BytesMutWriter] (writer.rs) *)
Definition writer_new : bytes := [].
Definition writer_take (w : bytes) : bytes * bytes := ([], w).
Definition writer_write (buf w : bytes) : bytes := w ++ buf.

(** ** Coders (coder.rs, lib.rs) *)

Section Coder.
Context `{BK : Backend} {E : Type}.

(** A compressor with its writer. *)
Record Zip : Type := mkZip { z_state : zs; z_writer : bytes }.
Definition zip_new (f : Format) (d : Dir) : Zip := mkZip (z_new f d) writer_new.
Definition zip_op (op : Op) : M Zip ErrorKind unit := fun z =>
  let '(s, b, r) := z_op op (z_state z) in (mkZip s (writer_write b (z_writer z)), r).
Definition zip_take : M Zip ErrorKind bytes := fun z =>
  let '(w, b) := writer_take (z_writer z) in (mkZip (z_state z) w, Ok b).
Definition nonempty (b : bytes) : option bytes := match b with [] => None | _ => Some b end.

(** The [code_impl!] macro, for the encoders and decoders of flate2. *)
Definition flate_code (item : bytes) : M Zip ErrorKind (option bytes) :=
  zip_op (Write item) ;; b ← zip_take; mret (nonempty b).
Definition flate_code_eof : M Zip ErrorKind (option bytes) :=
  zip_op Finish ;; b ← zip_take; mret (nonempty b).

(** [BrotliDecoder]. *)
Definition brotli_decode (item : bytes) : M Zip ErrorKind (option bytes) :=
  zip_op (Write item) ;; zip_op Flush ;; b ← zip_take; mret (nonempty b).
Definition brotli_decode_eof : M Zip ErrorKind (option bytes) :=
  zip_op Finish ;; b ← zip_take; mret (nonempty b).

(** The brotli [Encoder], whose compressor is gone once it is finished. *)
Definition brotli_encode (item : bytes) : M (option Zip) ErrorKind (option bytes) := fun self =>
  match self with
  | None => (None, Panic)
  | Some z => let '(z, r) := (zip_op (Write item) ;; zip_op Flush ;; b ← zip_take; mret (nonempty b)) z in (Some z, r)
  end.
Definition brotli_encode_eof : M (option Zip) ErrorKind (option bytes) := fun self =>
  match self with
  | None => (None, Ok None)
  | Some z =>
      match (zip_op Finish ;; zip_take) z with
      | (_, Ok b) => (None, if bool_decide (b = []) then Panic else Ok (Some b))
      | (_, Err e) => (None, Err e)
      | (_, Panic) => (None, Panic)
      end
  end.

Inductive FeaturedCode : Type :=
| NoOpCode
| DecodeBr (z : Zip) | EncodeBr (z : option Zip)
| DecodeGz (z : Zip) | EncodeGz (z : Zip)
| DecodeDe (z : Zip) | EncodeDe (z : Zip).
(** A method of the coder inside a variant. *)
Definition inside {S A} (K : S -> FeaturedCode) (m : M S ErrorKind A) (s : S) : FeaturedCode * outcome ErrorKind A :=
  let '(s, r) := m s in (K s, r).
Definition code (item : bytes) : M FeaturedCode ErrorKind (option bytes) := fun c =>
  match c with
  | NoOpCode => (NoOpCode, Ok (Some item))
  | DecodeBr z => inside DecodeBr (brotli_decode item) z
  | EncodeBr z => inside EncodeBr (brotli_encode item) z
  | DecodeGz z => inside DecodeGz (flate_code item) z
  | EncodeGz z => inside EncodeGz (flate_code item) z
  | DecodeDe z => inside DecodeDe (flate_code item) z
  | EncodeDe z => inside EncodeDe (flate_code item) z
  end.
Definition code_eof : M FeaturedCode ErrorKind (option bytes) := fun c =>
  match c with
  | NoOpCode => (NoOpCode, Ok None)
  | DecodeBr z => inside DecodeBr brotli_decode_eof z
  | EncodeBr z => inside EncodeBr brotli_encode_eof z
  | DecodeGz z => inside DecodeGz flate_code_eof z
  | EncodeGz z => inside EncodeGz flate_code_eof z
  | DecodeDe z => inside DecodeDe flate_code_eof z
  | EncodeDe z => inside EncodeDe flate_code_eof z
  end.

(** *** The stream *)

Inductive CoderError : Type := BodyFailed (e : E) | CodeFailed (e : ErrorKind).
Record Coder : Type := mkCoder { body : Body E; coder : FeaturedCode }.

Fixpoint coder_loop (fuel : nat) (c : Coder) : Coder * outcome CoderError (Poll (option bytes)) :=
  match fuel with
  | O => (c, Panic)
  | S fuel =>
      match body_poll (body c) with
      | (b, Ok Pending) => (mkCoder b (coder c), Ok Pending)
      | (b, Ok (Ready (Some item))) =>
          match code item (coder c) with
          | (k, Ok (Some out)) => (mkCoder b k, Ok (Ready (Some out)))
          | (k, Ok None) => coder_loop fuel (mkCoder b k)
          | (k, Err e) => (mkCoder b k, Err (CodeFailed e))
          | (k, Panic) => (mkCoder b k, Panic)
          end
      | (b, Ok (Ready None)) => let '(k, r) := code_eof (coder c) in (mkCoder b k, Ready <$> map_err CodeFailed r)
      | (b, Err e) => (mkCoder b (coder c), Err (BodyFailed e))
      | (b, Panic) => (mkCoder b (coder c), Panic)
      end
  end.
Definition poll_next (c : Coder) : Coder * outcome CoderError (Poll (option bytes)) :=
  coder_loop (S (length (b_polls (body c)))) c.
Definition size_hint (c : Coder) : Z * option Z :=
  match coder c with NoOpCode => b_hint (body c) | _ => (0, None) end.

(** A consumer that polls until the stream ends, and what it gets. *)
Fixpoint drain (fuel : nat) (c : Coder) : outcome CoderError (list bytes) :=
  match fuel with
  | O => Panic
  | S fuel =>
      match poll_next c with
      | (c, Ok (Ready (Some b))) => cons b <$> drain fuel c
      | (c, Ok (Ready None)) => Ok []
      | (c, Ok Pending) => drain fuel c
      | (_, Err e) => Err e
      | (_, Panic) => Panic
      end
  end.
Definition collect (c : Coder) : outcome CoderError (list bytes) := drain (length (b_polls (body c)) + 2) c.
End Coder.
Arguments Coder {BK} E.
Arguments CoderError E : clear implicits.

(** ** Choosing the coder (encode.rs, decode.rs), and the middlewares *)

Section Choose.
Context `{BK : Backend} `{HM : HeaderMap} (F : Features) {E : Type}.

Record Response (B : Type) : Type := mkResponse { r_status : Z; r_version : Version; r_headers : hmap; r_body : B }.
Arguments mkResponse {B}.
Arguments r_status {B}.
Arguments r_version {B}.
Arguments r_headers {B}.
Arguments r_body {B}.

(** [version < Version::HTTP_2]. *)
Definition before_http2 (v : Version) : bool :=
  match v with HTTP_09 | HTTP_10 | HTTP_11 => true | HTTP_2 | HTTP_3 => false end.
Definition update_header (hs : hmap) (value : bytes) (v : Version) : hmap :=
  let hs := hm_insert Hdr.CONTENT_ENCODING value hs in
  let hs := hm_remove Hdr.CONTENT_LENGTH hs in
  if before_http2 v then hm_insert Hdr.TRANSFER_ENCODING (bs "chunked") hs else hs.
Definition encoder (res : Response (Body E)) (encoding : ContentEncoding) : Response (Coder E) :=
  let encoding :=
    if bool_decide (is_Some (hm_get Hdr.CONTENT_ENCODING (r_headers res))) || (r_status res =? StatusCode.SWITCHING_PROTOCOLS)
       || (r_status res =? StatusCode.NO_CONTENT)
    then NoOp else encoding in
  let with_code hs c := mkResponse (r_status res) (r_version res) hs (mkCoder (r_body res) c) in
  match encoding with
  | Deflate =>
      if f_de F then with_code (update_header (r_headers res) (bs "deflate") (r_version res)) (EncodeDe (zip_new FDeflate Encode))
      else with_code (r_headers res) NoOpCode
  | Gzip =>
      if f_gz F then with_code (update_header (r_headers res) (bs "gzip") (r_version res)) (EncodeGz (zip_new FGzip Encode))
      else with_code (r_headers res) NoOpCode
  | Br =>
      if f_br F then with_code (update_header (r_headers res) (bs "br") (r_version res)) (EncodeBr (Some (zip_new FBrotli Encode)))
      else with_code (r_headers res) NoOpCode
  | NoOp => with_code (r_headers res) NoOpCode
  end.

Definition decoder_from_headers (hs : hmap) : outcome EncodingError FeaturedCode :=
  match hm_get Hdr.CONTENT_ENCODING hs with
  | None => Ok NoOpCode
  | Some val =>
      enc ← ok_or ParseAcceptEncoding (to_str val);
      e ← map_err MissingFeature (try_parse enc);
      match e with
      | Br => if f_br F then Ok (DecodeBr (zip_new FBrotli Decode)) else Err (MissingFeature FeatureBr)
      | Gzip => if f_gz F then Ok (DecodeGz (zip_new FGzip Decode)) else Err (MissingFeature FeatureGzip)
      | Deflate => if f_de F then Ok (DecodeDe (zip_new FDeflate Decode)) else Err (MissingFeature FeatureDeflate)
      | NoOp => Ok NoOpCode
      end
  end.
Definition try_decoder (hs : hmap) (b : Body E) : outcome EncodingError (Coder E) :=
  mkCoder b <$> decoder_from_headers hs.

(** [CompressService::call], once the inner service has answered; [NONE_BODY_HINT] is the hint of a
    body that must not be polled. *)
Definition NONE_BODY_HINT : Z * option Z := (2 ^ 64 - 1, Some 0).
Definition compress_call (req : hmap) (res : Response (Body E)) : Response (Coder E) :=
  let encoding := from_headers F req in
  let small := match b_hint (r_body res) with (low, Some up) => (low =? up) && (low <? 64) | _ => false end in
  let encoding := if small then NoOp else if bool_decide (b_hint (r_body res) = NONE_BODY_HINT) then NoOp else encoding in
  encoder res encoding.

(** [DecompressService::call]: the inner service reads the body through the decoder; when it
    fails, the body as far as it was read is put back where [ctx] had it.  [dflt] is the body
    that [take_request] leaves behind. *)
Definition decompress_call {Res Fault} (dflt : Body E) (svc : Coder E -> Coder E * outcome Fault Res) (hs : hmap) (b : Body E) :
    Body E * outcome (EncodingError + Fault) Res :=
  match try_decoder hs b with
  | Ok c =>
      match svc c with
      | (_, Ok r) => (dflt, Ok r)
      | (c, Err e) => (body c, Err (inr e))
      | (c, Panic) => (body c, Panic)
      end
  | Err e => (dflt, Err (inl e))
  | Panic => (dflt, Panic)
  end.
End Choose.
Arguments mkResponse {HM B}.
Arguments r_status {HM B}.
Arguments r_version {HM B}.
Arguments r_headers {HM B}.
Arguments r_body {HM B}.

(** ** A limit on the body (web/src/middleware/limit.rs) *)

Inductive LimitError (E : Type) : Type := BodyOverFlow (limit : Z) | Inner (e : E).
Arguments BodyOverFlow {E} limit.
Arguments Inner {E} e.
Record LimitBody (E : Type) : Type := mkLimit { l_limit : Z; l_record : Z; l_body : Body E }.
Arguments mkLimit {E} l_limit l_record l_body.
Arguments l_limit {E} _.
Arguments l_record {E} _.
Arguments l_body {E} _.
Definition limit_new {E} (b : Body E) (limit : Z) : LimitBody E := mkLimit limit 0 b.
Definition limit_poll {E} : M (LimitBody E) (LimitError E) (Poll (option bytes)) := fun this =>
  if l_limit this <=? l_record this then (this, Err (BodyOverFlow (l_limit this)))
  else
    match body_poll (l_body this) with
    | (b, Ok (Ready (Some chunk))) =>
        let t := mkLimit (l_limit this) (l_record this) b in
        match add_chk (E := LimitError E) 64 (l_record this) (len chunk) with
        | Ok n => (mkLimit (l_limit this) n b, Ok (Ready (Some chunk)))
        | Err e => (t, Err e)
        | Panic => (t, Panic)
        end
    | (b, Ok r) => (mkLimit (l_limit this) (l_record this) b, Ok r)
    | (b, Err e) => (mkLimit (l_limit this) (l_record this) b, Err (Inner e))
    | (b, Panic) => (mkLimit (l_limit this) (l_record this) b, Panic)
    end.

(** ** What the compressors promise *)

(** Calls one after the other, and all that they wrote. *)
Fixpoint z_ops `{BK : Backend} (ops : list Op) (s : zs) : zs * outcome ErrorKind bytes :=
  match ops with
  | [] => (s, Ok [])
  | op :: ops =>
      match z_op op s with
      | (s, b, Ok _) => let '(s, r) := z_ops ops s in (s, app b <$> r)
      | (s, _, Err e) => (s, Err e)
      | (s, _, Panic) => (s, Panic)
      end
  end.
Definition op_bytes (op : Op) : bytes := match op with Write b => b | _ => [] end.
Definition written (ops : list Op) : bytes := mjoin (op_bytes <$> ops).
Definition unfinished (op : Op) : Prop := op <> Finish.

Class BackendLaws `{BK : Backend} : Type := {
  (** A byte string is a coded form of another in a format. *)
  codes : Format -> bytes -> bytes -> Prop;
  (** An encoder accepts any data, in any pieces, flushed at any point; what it has written once it
      is finished is a coded form of the data.  The end of a brotli stream is written by [finish];
      flate2's [try_finish] may be called again and does nothing then. *)
  encoder_law f ops : Forall unfinished ops ->
    exists s out s' last, z_ops ops (z_new f Encode) = (s, Ok out) /\ z_op Finish s = (s', last, Ok tt) /\
      codes f (out ++ last) (written ops) /\ (f = FBrotli -> last <> []) /\
      (f <> FBrotli -> exists s'', z_op Finish s' = (s'', [], Ok tt));
  (** A decoder that is given a coded form, in any pieces, returns the data.  What a brotli decoder
      has decoded is written by [flush]. *)
  decoder_law f ops d : Forall unfinished ops -> codes f (written ops) d ->
    exists s out s' last, z_ops ops (z_new f Decode) = (s, Ok out) /\ z_op Finish s = (s', last, Ok tt) /\
      out ++ last = d /\ (f = FBrotli -> list.last ops = Some Flush -> last = []) /\
      (f <> FBrotli -> exists s'', z_op Finish s' = (s'', [], Ok tt));
}.

Definition chunks {E} (ps : list (Item E)) : list bytes := omap (fun p => match p with Chunk b => Some b | _ => None end) ps.
Definition not_failed {E} (p : Item E) : Prop := match p with Failed _ => False | _ => True end.
(** A body that yields the chunks of [ps] and ends, and may be polled again after that. *)
Definition fused_body {E} (ps : list (Item E)) (h : Z * option Z) : Body E := mkBody ps false true h.

Section Streams.
Context `{BK : Backend} {E : Type}.

(** A coder turns a list of items into some output, each item of which satisfies [P], and is done
    after its end. *)
Inductive Codes (P : bytes -> Prop) : FeaturedCode -> list bytes -> bytes -> Prop :=
| codes_end c c' c'' o : code_eof c = (c', Ok o) -> (forall x, o = Some x -> P x /\ code_eof c' = (c'', Ok None)) ->
    Codes P c [] (default [] o)
| codes_item c c' b o bs out : code b c = (c', Ok o) -> (forall x, o = Some x -> P x) -> Codes P c' bs out ->
    Codes P c (b :: bs) (default [] o ++ out).

Lemma coder_loop_fuel ps e fu h (c : FeaturedCode) n : (length ps < n)%nat ->
  coder_loop (E := E) n (mkCoder (mkBody ps e fu h) c) = poll_next (mkCoder (mkBody ps e fu h) c).
Proof.
  unfold poll_next. cbn [body b_polls]. revert c n. induction ps as [|p ps IH]; intros c [|n] Hn; try (cbn in Hn; lia); [by cbn; destruct (e && negb fu)|].
  cbn [length] in *. cbn. destruct p as [b| |]; [|done|done]. destruct (code b c) as [k [[o|]| |]]; try done. apply IH. lia.
Qed.
Lemma poll_chunk_none b ps e fu h (c c' : FeaturedCode) : code b c = (c', Ok None) ->
  poll_next (E := E) (mkCoder (mkBody (Chunk b :: ps) e fu h) c) = poll_next (mkCoder (mkBody ps e fu h) c').
Proof. intros Hc. unfold poll_next at 1. cbn [body b_polls length]. cbn -[coder_loop]. rewrite <- (coder_loop_fuel ps e fu h c' (S (length ps))) by lia. cbn. by rewrite Hc. Qed.

(** Whatever the schedule of a body, the consumer gets the output of its items. *)
Lemma drain_codes P ps h : Forall not_failed ps -> forall c e out n, Codes P c (chunks ps) out -> (length ps + 2 <= n)%nat ->
  exists l, drain (E := E) n (mkCoder (mkBody ps e true h) c) = Ok l /\ mjoin l = out /\ Forall P l.
Proof.
  induction ps as [|p ps IH]; intros Hf c e out n Hc Hn.
  - inversion Hc as [? c' c'' o He Hx|]; subst. destruct n as [|[|n]]; [cbn in Hn; lia..|].
    cbn. rewrite andb_false_r. rewrite He. destruct o as [x|]; cbn.
    + destruct (Hx x eq_refl) as [HP He']. rewrite He'. cbn. exists [x]. split; [done|]. split; [apply app_nil_r|by apply Forall_singleton].
    + exists []. split; [done|]. split; [done|constructor].
  - apply Forall_cons in Hf as [Hp Hf]. destruct n as [|n]; [cbn in Hn; lia|]. cbn [length] in Hn. destruct p as [b|x|]; [|done|].
    + inversion Hc as [|? c' ? o bs out' He Hx Hc']; subst. destruct o as [x|].
      * destruct (IH Hf c' e out' n Hc' ltac:(lia)) as (l & Hl & Hj & HP). exists (x :: l). split; [|split; [by cbn; rewrite <- Hj|by constructor; [apply Hx|]]].
        cbn. rewrite He. cbn. by rewrite Hl.
      * destruct (IH Hf c' e out' (S n) Hc' ltac:(lia)) as (l & Hl & Hj & HP). exists l. split; [|done].
        cbn [drain] in Hl |- *. by rewrite (poll_chunk_none b ps e true h c c' He).
    + destruct (IH Hf c e out n Hc ltac:(lia)) as (l & Hl & Hj & HP). exists l. split; [|done]. cbn. done.
Qed.

(** The coder that leaves items alone. *)
Lemma codes_noop bs : Codes (fun _ => True) NoOpCode bs (mjoin bs).
Proof.
  induction bs as [|b bs IH]; [by apply (codes_end _ NoOpCode NoOpCode NoOpCode None)|].
  by apply (codes_item _ NoOpCode NoOpCode b (Some b)).
Qed.

(** *** The coders over a compressor *)

Definition featured (f : Format) (d : Dir) (z : Zip) : FeaturedCode :=
  match f, d with
  | FBrotli, Decode => DecodeBr z | FBrotli, Encode => EncodeBr (Some z)
  | FGzip, Decode => DecodeGz z | FGzip, Encode => EncodeGz z
  | FDeflate, Decode => DecodeDe z | FDeflate, Encode => EncodeDe z
  end.
Definition item_ops (f : Format) (b : bytes) : list Op := match f with FBrotli => [Write b; Flush] | _ => [Write b] end.
Lemma z_ops_app ops ops' s s' out : z_ops (ops ++ ops') s = (s', Ok out) ->
  exists s1 o1 o2, z_ops ops s = (s1, Ok o1) /\ z_ops ops' s1 = (s', Ok o2) /\ out = o1 ++ o2.
Proof.
  revert s out. induction ops as [|op ops IH]; intros s out H; [by exists s, [], out|]. cbn in H |- *.
  destruct (z_op op s) as [[s1 b] [[]| |]]; try done. destruct (z_ops (ops ++ ops') s1) as [s2 [o| |]] eqn:Eo; try done.
  injection H as -> <-. destruct (IH s1 o Eo) as (s3 & o1 & o2 & E1 & E2 & ->). exists s3, (b ++ o1), o2. rewrite E1. split; [done|]. split; [done|]. by rewrite <- app_assoc.
Qed.
Lemma code_featured f d s b s' out : z_ops (item_ops f b) s = (s', Ok out) ->
  code b (featured f d (mkZip s [])) = (featured f d (mkZip s' []), Ok (nonempty out)).
Proof.
  intros H. destruct f; cbn in H.
  - destruct (z_op (Write b) s) as [[s1 b1] [[]| |]] eqn:E1; try done. destruct (z_op Flush s1) as [[s2 b2] [[]| |]] eqn:E2; try done.
    injection H as <- <-. rewrite app_nil_r.
    destruct d; cbn; unfold inside, brotli_encode, brotli_decode, mbind, M_bind, zip_op; cbn; rewrite E1; cbn; rewrite E2; done.
  - destruct (z_op (Write b) s) as [[s1 b1] [[]| |]] eqn:E1; try done. injection H as <- <-. rewrite app_nil_r.
    destruct d; cbn; unfold inside, flate_code, mbind, M_bind, zip_op; cbn; rewrite E1; done.
  - destruct (z_op (Write b) s) as [[s1 b1] [[]| |]] eqn:E1; try done. injection H as <- <-. rewrite app_nil_r.
    destruct d; cbn; unfold inside, flate_code, mbind, M_bind, zip_op; cbn; rewrite E1; done.
Qed.
(** The end of a coder: brotli's encoder has something to write, its decoder has nothing left, and
    the others may be asked again. *)
Definition end_fine (f : Format) (d : Dir) (s : zs) (last : bytes) : Prop :=
  match f, d with
  | FBrotli, Encode => last <> []
  | FBrotli, Decode => last = []
  | _, _ => exists s', z_op Finish s = (s', [], Ok tt)
  end.
Lemma eof_featured f d s s' last : z_op Finish s = (s', last, Ok tt) -> end_fine f d s' last ->
  exists c' c'', code_eof (featured f d (mkZip s [])) = (c', Ok (nonempty last)) /\
    (forall x, nonempty last = Some x -> x <> [] /\ code_eof c' = (c'', Ok None)).
Proof.
  intros H Hf. assert (Hx : forall x, nonempty last = Some x -> x <> []) by (destruct last; by intros x [= <-]).
  destruct f, d; cbn in Hf; unfold code_eof, featured, inside, brotli_encode_eof, brotli_decode_eof, flate_code_eof, mbind, M_bind, zip_op; cbn; rewrite H; cbn;
    try (destruct Hf as (s3 & Hf); eexists _, _; split; [done|]; intros x Ex; split; [by apply Hx|]; cbn; rewrite Hf; done).
  - rewrite bool_decide_false by done. exists (EncodeBr None), (EncodeBr None). split; [by destruct last|]. intros x Ex. split; [by apply Hx|done].
  - subst last. eexists _, NoOpCode. by split.
Qed.
Lemma codes_featured f d bs : forall s s1 out s2 last, z_ops (mjoin (item_ops f <$> bs)) s = (s1, Ok out) -> z_op Finish s1 = (s2, last, Ok tt) ->
  end_fine f d s2 last -> Codes (fun b => b <> []) (featured f d (mkZip s [])) bs (out ++ last).
Proof.
  assert (Hne : forall b, default [] (nonempty b) = b) by by intros [].
  induction bs as [|b bs IH]; intros s s1 out s2 last Hops Hfin Hend.
  - injection Hops as <- <-. destruct (eof_featured f d s s2 last Hfin Hend) as (c' & c'' & He & Hx).
    change ([] ++ last) with last. rewrite <- (Hne last). by apply (codes_end _ _ c' c'').
  - change (mjoin (item_ops f <$> b :: bs)) with (item_ops f b ++ mjoin (item_ops f <$> bs)) in Hops.
    apply z_ops_app in Hops as (sm & o1 & o2 & H1 & H2 & ->). rewrite <- app_assoc, <- (Hne o1).
    eapply codes_item; [by apply code_featured|destruct o1; by intros x [= <-]|by eapply IH].
Qed.
End Streams.

(** ** What is coded is read back *)

Lemma item_ops_unfinished f bs : Forall unfinished (mjoin (item_ops f <$> bs)).
Proof.
  induction bs as [|b bs IH]; [constructor|]. change (Forall unfinished (item_ops f b ++ mjoin (item_ops f <$> bs))).
  apply Forall_app. split; [|done]. destruct f; repeat (apply Forall_cons; split; [done|]); constructor.
Qed.
Lemma item_ops_written f bs : written (mjoin (item_ops f <$> bs)) = mjoin bs.
Proof.
  unfold written. induction bs as [|b bs IH]; [done|].
  change (mjoin (op_bytes <$> (item_ops f b ++ mjoin (item_ops f <$> bs))) = b ++ mjoin bs).
  rewrite fmap_app, join_app, IH. f_equal. destruct f; cbn; by rewrite ?app_nil_r.
Qed.
Lemma item_ops_last bs : bs <> [] -> list.last (mjoin (item_ops FBrotli <$> bs)) = Some Flush.
Proof.
  intros H. destruct (exists_last H) as (bs' & b & ->). rewrite fmap_app, join_app. cbn.
  change ([Write b; Flush]) with ([Write b] ++ [Flush]). by rewrite app_assoc, last_snoc.
Qed.

Section Roundtrip.
Context `{BK : Backend} `{!BackendLaws} `{HM : HeaderMap} (F : Features) {E : Type}.

Lemma codes_encoder f bs : exists z, Codes (fun b => b <> []) (featured f Encode (zip_new f Encode)) bs z /\ codes f z (mjoin bs) /\ (f = FBrotli -> z <> []).
Proof.
  destruct (encoder_law f _ (item_ops_unfinished f bs)) as (s & out & s' & last & Ho & Hl & Hc & Hb & Hg).
  rewrite item_ops_written in Hc. exists (out ++ last). split; [|split; [done|]].
  - eapply codes_featured; [done..|]. destruct f; cbn; auto.
  - intros Hf [_ Hn]%app_eq_nil. by apply (Hb Hf).
Qed.
Lemma codes_decoder f bs d : codes f (mjoin bs) d -> (f = FBrotli -> mjoin bs <> []) -> Codes (fun b => b <> []) (featured f Decode (zip_new f Decode)) bs d.
Proof.
  intros Hc Hn. rewrite <- (item_ops_written f) in Hc.
  destruct (decoder_law f _ d (item_ops_unfinished f bs) Hc) as (s & out & s' & last & Ho & Hl & <- & Hb & Hg).
  eapply codes_featured; [done..|]. destruct f; cbn; auto. apply Hb; [done|]. apply item_ops_last. intros ->. by apply Hn.
Qed.

Lemma update_header_get hs v ver : hm_get Hdr.CONTENT_ENCODING (update_header hs v ver) = Some v /\ hm_get_all Hdr.CONTENT_LENGTH (update_header hs v ver) = [].
Proof.
  unfold update_header. destruct (before_http2 ver).
  - rewrite hm_get_insert_ne, hm_get_all_insert_ne by done. by rewrite hm_get_remove_ne, hm_get_insert, hm_get_all_remove.
  - by rewrite hm_get_remove_ne, hm_get_insert, hm_get_all_remove.
Qed.
Definition decoder_for (e : ContentEncoding) : outcome EncodingError FeaturedCode :=
  match e with
  | Br => if f_br F then Ok (DecodeBr (zip_new FBrotli Decode)) else Err (MissingFeature FeatureBr)
  | Gzip => if f_gz F then Ok (DecodeGz (zip_new FGzip Decode)) else Err (MissingFeature FeatureGzip)
  | Deflate => if f_de F then Ok (DecodeDe (zip_new FDeflate Decode)) else Err (MissingFeature FeatureDeflate)
  | NoOp => Ok NoOpCode
  end.
Lemma update_header_decoder hs v e ver : forallb visibleb v = true -> try_parse v = Ok e ->
  decoder_from_headers F (update_header hs v ver) = decoder_for e /\ hm_get_all Hdr.CONTENT_LENGTH (update_header hs v ver) = [].
Proof.
  intros Hv Hp. destruct (update_header_get hs v ver) as [Hg Hl]. split; [|done]. unfold decoder_from_headers. rewrite Hg, to_str_visible.
  - cbn. by rewrite Hp.
  - apply Forall_forall. intros b Hb. rewrite forallb_forall in Hv. apply list_elem_of_In, Hv in Hb. unfold visibleb in Hb. unfold visible. lia.
Qed.
(** Either the response is left alone, or it is coded in a format that the decoder finds in its
    head. *)
Lemma encoder_cases (res : Response (Body E)) enc :
  (r_headers (encoder F res enc) = r_headers res /\ r_body (encoder F res enc) = mkCoder (r_body res) NoOpCode) \/
  exists f, hm_get Hdr.CONTENT_ENCODING (r_headers res) = None /\ r_body (encoder F res enc) = mkCoder (r_body res) (featured f Encode (zip_new f Encode)) /\
    decoder_from_headers F (r_headers (encoder F res enc)) = Ok (featured f Decode (zip_new f Decode)) /\
    hm_get_all Hdr.CONTENT_LENGTH (r_headers (encoder F res enc)) = [].
Proof.
  unfold encoder. destruct (bool_decide_reflect (is_Some (hm_get Hdr.CONTENT_ENCODING (r_headers res)))) as [|Hn]; [by left|].
  apply eq_None_not_Some in Hn. cbn. destruct (_ || _); [by left|].
  pose proof (update_header_decoder (r_headers res)) as Hd. unfold decoder_for in Hd.
  destruct enc; [destruct (f_br F)|destruct (f_de F)|destruct (f_gz F)|]; try (by left); right.
  - exists FBrotli. split; [done|]. split; [done|]. by apply (Hd (bs "br") Br).
  - exists FDeflate. split; [done|]. split; [done|]. by apply (Hd (bs "deflate") Deflate).
  - exists FGzip. split; [done|]. split; [done|]. by apply (Hd (bs "gzip") Gzip).
Qed.

(** C36: what the compression middleware sends is what its service answered.  For any request, any
    build, any compressor that keeps its contract and any response whose body yields its chunks in any
    schedule, does not fail and may be polled again after its end (the coder does poll it again;
    [coder_polls_after_end] shows a body that panics then): reading the compressed body to its end
    gives items that, taken together and cut into chunks again in any way by a body of the same kind,
    the decoder chosen from the head of the response turns back into the bytes of the body.  A
    response that is coded had no coding before, has no [Content-Length] afterwards, and none of its
    items is empty; a response that already has a coding is sent as it is. *)
Theorem content_coding_roundtrip (req : hmap) status version (hs : hmap) (ps : list (Item E)) h :
  Forall not_failed ps ->
  let res := compress_call F req (mkResponse status version hs (fused_body ps h)) in
  exists outs, collect (r_body res) = Ok outs /\
    (is_Some (hm_get Hdr.CONTENT_ENCODING hs) -> r_headers res = hs /\ mjoin outs = mjoin (chunks ps)) /\
    (hm_get Hdr.CONTENT_ENCODING hs = None ->
       (hm_get Hdr.CONTENT_ENCODING (r_headers res) <> None -> hm_get_all Hdr.CONTENT_LENGTH (r_headers res) = [] /\ Forall (fun b => b <> []) outs) /\
       forall (qs : list (Item E)) h', Forall not_failed qs -> mjoin (chunks qs) = mjoin outs ->
       exists c outs', try_decoder F (r_headers res) (fused_body qs h') = Ok c /\ collect c = Ok outs' /\ mjoin outs' = mjoin (chunks ps)).
Proof.
  intros Hps res. unfold res, compress_call. cbv zeta. match goal with |- context [encoder F _ ?e] => set (enc := e) end.
  destruct (encoder_cases (mkResponse status version hs (fused_body ps h)) enc) as [[Hh Hb]|(f & Hn & Hb & Hdec & Hlen)]; rewrite ?Hh, Hb.
  - destruct (drain_codes _ ps h Hps NoOpCode false _ _ (codes_noop _) (Nat.le_refl _)) as (outs & Ho & Hj & _).
    exists outs. split; [exact Ho|]. split; [done|]. intros Hn. cbn [r_headers] in Hn |- *. split; [by rewrite Hn|]. intros qs h' Hqs Hq.
    destruct (drain_codes _ qs h' Hqs NoOpCode false _ _ (codes_noop _) (Nat.le_refl _)) as (outs' & Ho' & Hj' & _).
    exists (mkCoder (fused_body qs h') NoOpCode), outs'. unfold try_decoder, decoder_from_headers. rewrite Hn. split; [done|]. split; [exact Ho'|congruence].
  - cbn [r_headers] in Hn. destruct (codes_encoder f (chunks ps)) as (z & Hz & Hc & Hbr).
    destruct (drain_codes _ ps h Hps _ false _ _ Hz (Nat.le_refl _)) as (outs & Ho & Hj & Hne).
    exists outs. split; [exact Ho|]. split; [rewrite Hn; by intros []|]. intros _. split; [done|]. intros qs h' Hqs Hq.
    assert (Hd : Codes (fun b => b <> []) (featured f Decode (zip_new f Decode)) (chunks qs) (mjoin (chunks ps))).
    { apply codes_decoder; rewrite Hq, Hj; done. }
    destruct (drain_codes _ qs h' Hqs _ false _ _ Hd (Nat.le_refl _)) as (outs' & Ho' & Hj' & _).
    eexists _, outs'. unfold try_decoder. rewrite Hdec. split; [done|]. split; [exact Ho'|done].
Qed.
End Roundtrip.

(** ** A body with a limit *)

Section Limit.
Context {E : Type}.

(** [n] polls one after the other, and what they return. *)
Fixpoint polls {S X} (m : M S X (Poll (option bytes))) (n : nat) (s : S) : S * list (outcome X (Poll (option bytes))) :=
  match n with
  | O => (s, [])
  | Datatypes.S n => let '(s, r) := m s in let '(s, rs) := polls m n s in (s, r :: rs)
  end.
Definition delivered {X} (rs : list (outcome X (Poll (option bytes)))) : list bytes :=
  omap (fun r => match r with Ok (Ready o) => o | _ => None end) rs.

Lemma limit_over (t : LimitBody E) : l_limit t <= l_record t -> limit_poll t = (t, Err (BodyOverFlow (l_limit t))).
Proof. intros H. unfold limit_poll. by rewrite (proj2 (Z.leb_le _ _)). Qed.
Lemma limit_overs (t : LimitBody E) n : l_limit t <= l_record t -> polls limit_poll n t = (t, replicate n (Err (BodyOverFlow (l_limit t)))).
Proof. intros H. induction n as [|n IH]; [done|]. cbn [polls]. by rewrite limit_over, IH. Qed.
Lemma delivered_replicate {X} n (e : X) : delivered (replicate n (Err e)) = [].
Proof. by induction n. Qed.
(** Below the limit a poll is a poll of the body, and the bytes are counted. *)
Lemma limit_under limit r (ps : list (Item E)) ended h : 0 <= r < limit -> r + len (mjoin (chunks ps)) < 2 ^ 64 ->
  exists res ps' ended', body_poll (mkBody ps ended true h) = (mkBody ps' ended' true h, res) /\
    (exists pre, chunks ps = pre ++ chunks ps' /\ pre = delivered [res]) /\
    limit_poll (mkLimit limit r (mkBody ps ended true h)) = (mkLimit limit (r + len (mjoin (delivered [res]))) (mkBody ps' ended' true h), map_err Inner res).
Proof.
  intros Hr Hl. unfold limit_poll. cbn [l_limit l_record l_body]. rewrite (proj2 (Z.leb_gt _ _)) by lia.
  destruct ps as [|[b|x|] ps]; cbn [body_poll b_polls b_ended b_fused b_hint].
  - rewrite andb_false_r. eexists (Ok (Ready None)), [], true. split; [done|]. split; [by exists []|]. cbn. by rewrite Z.add_0_r.
  - exists (Ok (Ready (Some b))), ps, ended. split; [done|]. split; [by exists [b]|].
    change (chunks (Chunk b :: ps)) with (b :: chunks ps) in Hl. change (mjoin (b :: chunks ps)) with (b ++ mjoin (chunks ps)) in Hl. unfold len in *. rewrite length_app in Hl.
    unfold add_chk. rewrite (proj2 (Z.ltb_lt _ _)) by lia. cbn. by rewrite app_nil_r.
  - exists (Err x), ps, ended. split; [done|]. split; [by exists []|]. cbn. by rewrite Z.add_0_r.
  - exists (Ok Pending), ps, ended. split; [done|]. split; [by exists []|]. cbn. by rewrite Z.add_0_r.
Qed.
Lemma len_mjoin_cons (b : bytes) l : len (mjoin (b :: l)) = len b + len (mjoin l).
Proof. change (mjoin (b :: l)) with (b ++ mjoin l). unfold len. rewrite length_app. lia. Qed.

Lemma limit_polls_spec limit h n : forall r (ps : list (Item E)) ended t rs, 0 <= r -> r + len (mjoin (chunks ps)) < 2 ^ 64 ->
  polls limit_poll n (mkLimit limit r (mkBody ps ended true h)) = (t, rs) ->
  (forall cs c, delivered rs = cs ++ [c] -> r + len (mjoin cs) < limit) /\ delivered rs `prefix_of` chunks ps /\
  l_limit t = limit /\ l_record t = r + len (mjoin (delivered rs)) /\
  (r + len (mjoin (delivered rs)) < limit -> rs = map_err Inner <$> (polls body_poll n (mkBody ps ended true h)).2).
Proof.
  induction n as [|n IH]; intros r ps ended t rs Hr Hl Hrun.
  - injection Hrun as <- <-. cbn. split; [by intros [|? ?] c|]. split; [apply prefix_nil|]. split; [done|]. split; [unfold len; cbn; lia|done].
  - destruct (Z.le_gt_cases limit r) as [Hover|Hunder].
    + rewrite limit_overs in Hrun by done. injection Hrun as <- <-. change (Err _ :: replicate n _) with (replicate (S n) (Err (A := Poll (option bytes)) (BodyOverFlow (E := E) limit))).
      rewrite delivered_replicate. cbn. split; [by intros [|? ?] c|]. split; [apply prefix_nil|]. split; [done|]. unfold len. cbn. split; [lia|intros; lia].
    + destruct (limit_under limit r ps ended h ltac:(lia) Hl) as (res & ps' & ended' & Hb & (pre & Hch & ->) & Hp).
      cbn [polls] in *. rewrite Hp in Hrun. rewrite Hb. destruct (polls limit_poll n _) as [t' rs'] eqn:Er. injection Hrun as -> <-.
      assert (Hsum : len (mjoin (chunks ps)) = len (mjoin (delivered [res])) + len (mjoin (chunks ps'))) by (rewrite Hch, join_app; unfold len; rewrite length_app; lia).
      assert (Hd : delivered (map_err (Inner (E := E)) res :: rs') = delivered [res] ++ delivered rs') by (by destruct res as [[[?|]|]| |]).
      destruct (IH (r + len (mjoin (delivered [res]))) ps' ended' t rs') as (H1 & H2 & H3 & H4 & H5); [unfold len; lia|lia|exact Er|]. rewrite Hd, join_app.
      assert (Hlen : len (mjoin (delivered [res]) ++ mjoin (delivered rs')) = len (mjoin (delivered [res])) + len (mjoin (delivered rs'))) by (unfold len; rewrite length_app; lia).
      rewrite Hlen. split; [|split; [|split; [done|split; [lia|]]]].
      * intros cs c Hcs. destruct (delivered rs') as [|x xs] eqn:Ex using rev_ind; [|clear IHxs].
        -- rewrite app_nil_r in Hcs. destruct res as [[[y|]|]| |]; cbn in Hcs; try (by destruct cs). destruct cs as [|? [|? ?]]; [unfold len; cbn; lia|done..].
        -- rewrite app_assoc in Hcs. apply app_inj_tail in Hcs as [<- <-]. specialize (H1 _ _ eq_refl). rewrite join_app. unfold len in *. rewrite length_app. lia.
      * rewrite Hch. by apply prefix_app.
      * intros Hlt. destruct (polls body_poll n (mkBody ps' ended' true h)) as [b' rs''] eqn:Eb. cbn. f_equal.
        by apply H5; lia.
Qed.
End Limit.

(** A limited body that may be polled after its end hands out what the body does until the limit is
    reached, and an error from then on.  However often it is polled, the chunks delivered are the
    first chunks of the body; before the last of them fewer bytes than the limit had been delivered;
    below the limit every poll returns what the body's own poll returns, and at the limit the next
    poll is refused with [BodyOverFlow] without touching the body, also when the body ends exactly
    there ([limit_exact_refused]), although the size is documented as the maximum allowed. *)
Theorem limit_body_bounded {E} limit n (ps : list (Item E)) h t rs :
  len (mjoin (chunks ps)) < 2 ^ 64 ->
  polls limit_poll n (limit_new (fused_body ps h) limit) = (t, rs) ->
  delivered rs `prefix_of` chunks ps /\
  (forall cs c, delivered rs = cs ++ [c] -> len (mjoin cs) < limit) /\
  (len (mjoin (delivered rs)) < limit -> rs = map_err Inner <$> (polls body_poll n (fused_body ps h)).2) /\
  (limit <= len (mjoin (delivered rs)) -> limit_poll t = (t, Err (BodyOverFlow limit))).
Proof.
  intros Hl Hrun. destruct (limit_polls_spec limit h n 0 ps false t rs (Z.le_refl 0) Hl Hrun) as (H1 & H2 & H3 & H4 & H5).
  split; [done|]. split; [exact H1|]. split; [exact H5|]. intros Hle. rewrite <- H3. apply limit_over. lia.
Qed.
Definition limit_demo := [Chunk (E := unit) (bs "hello"); NotReady; Chunk (bs "world"); Chunk (bs "!")].
Lemma limit_body_bounded_witness : exists t rs, polls limit_poll 4 (limit_new (fused_body limit_demo (0, None)) 8) = (t, rs) /\
  delivered rs = [bs "hello"; bs "world"] /\ limit_poll t = (t, Err (BodyOverFlow 8)).
Proof.
  eexists _, _. split; [reflexivity|]. split; [reflexivity|].
  refine (proj2 (proj2 (proj2 (limit_body_bounded 8 4 limit_demo (0, None) _ _ _ eq_refl))) _); vm_compute; congruence.
Defined.
(** A body of exactly the maximum size is delivered whole, and then refused instead of ended. *)
Lemma limit_exact_refused :
  polls limit_poll 2 (limit_new (fused_body [Chunk (E := unit) (bs "hello")] (5, Some 5)) 5) =
    (mkLimit 5 5 (fused_body [] (5, Some 5)), [Ok (Ready (Some (bs "hello"))); Err (BodyOverFlow 5)]).
Proof. reflexivity. Qed.

(** ** A compressor to run *)

(** A format that appends an end mark: the encoder writes it when it is finished, and the decoder,
    which remembers what it was given, is always one byte behind. *)
Definition emitted (w : bytes) : bytes := take (length w - 1) w.
Definition emit (w b : bytes) : bytes := drop (length w - 1) (emitted (w ++ b)).
Definition MARK : bytes := [33].
#[local] Instance marked : Backend := {
  zs := Dir * bytes * bool;
  z_new f d := (d, [], false);
  z_op op '(d, w, fin) :=
    match d, op with
    | _, Flush => ((d, w, fin), [], Ok tt)
    | Encode, Write b => ((d, w, fin), b, Ok tt)
    | Encode, Finish => ((d, w, true), if fin then [] else MARK, Ok tt)
    | Decode, Write b => ((d, w ++ b, fin), emit w b, Ok tt)
    | Decode, Finish => ((d, w, true), [], if bool_decide (list.last w = Some 33) then Ok tt else Err UnexpectedEof)
    end }.
Lemma emitted_app w b : emitted w ++ emit w b = emitted (w ++ b).
Proof.
  unfold emit, emitted. rewrite <- (take_drop (length w - 1) (take (length (w ++ b) - 1) (w ++ b))) at 2. f_equal.
  rewrite take_take, length_app. replace ((length w - 1) `min` (length w + length b - 1))%nat with (length w - 1)%nat by lia.
  rewrite take_app. replace (length w - 1 - length w)%nat with 0%nat by lia. by rewrite take_0, app_nil_r.
Qed.
Lemma marked_encode ops : Forall unfinished ops -> z_ops ops (Encode, [], false) = ((Encode, [], false), Ok (written ops)).
Proof. induction 1 as [|[b| |] ops Hop Hops IH]; [done|..|done]; cbn; rewrite IH; done. Qed.
Lemma marked_decode ops : Forall unfinished ops -> forall w, exists out, z_ops ops (Decode, w, false) = ((Decode, w ++ written ops, false), Ok out) /\ emitted w ++ out = emitted (w ++ written ops).
Proof.
  induction 1 as [|[b| |] ops Hop Hops IH]; intros w; [| | |done].
  - exists []. by rewrite !app_nil_r.
  - destruct (IH (w ++ b)) as (out & Ho & He). exists (emit w b ++ out).
    change (written (Write b :: ops)) with (b ++ written ops). rewrite (app_assoc w). split; [cbn -[emit]; by rewrite Ho|]. by rewrite app_assoc, emitted_app.
  - destruct (IH w) as (out & Ho & He). exists out. cbn. by rewrite Ho.
Qed.
#[local] Instance marked_laws : BackendLaws.
Proof.
  refine {| codes := fun _ z d => z = d ++ MARK |}.
  - intros f ops Hops. exists (Encode, [], false), (written ops), (Encode, [], true), MARK. rewrite marked_encode by done. repeat split; try done. intros _. by exists (Encode, [], true).
  - intros f ops d Hops Hz. destruct (marked_decode ops Hops []) as (out & Ho & He). rewrite Hz in *. cbn [app] in *.
    exists (Decode, d ++ MARK, false), out, (Decode, d ++ MARK, true), []. change (z_new f Decode) with (Decode, @nil Z, false). rewrite Ho. split; [done|]. unfold z_op, marked, MARK in *. rewrite last_snoc, bool_decide_true by done.
    repeat split; try done.
    + change (emitted []) with (@nil Z) in He. rewrite app_nil_r. cbn in He. rewrite He. unfold emitted. rewrite length_app. cbn. replace (length d + 1 - 1)%nat with (length d) by lia. by rewrite take_app_length.
    + intros _. by eexists.
Defined.

Definition coding_demo := [Chunk (E := unit) (bs "hello, "); NotReady; Chunk (bs "world")].
Definition accept_gzip := hm_insert Hdr.ACCEPT_ENCODING (bs "gzip") hm_empty.
Definition sized_head := hm_insert Hdr.CONTENT_LENGTH (bs "12") hm_empty.
Definition demo_answer (h : Z * option Z) := compress_call (HM := assoc_map) all_features accept_gzip (mkResponse 200 HTTP_11 sized_head (fused_body coding_demo h)).
Lemma content_coding_roundtrip_witness :
  collect (r_body (demo_answer (0, None))) = Ok [bs "hello, "; bs "world"; MARK] /\
  exists c outs, try_decoder (HM := assoc_map) all_features (r_headers (demo_answer (0, None)))
    (fused_body (E := unit) [Chunk (bs "hel"); Chunk (bs "lo, world!")] (0, None)) = Ok c /\ collect c = Ok outs /\ mjoin outs = bs "hello, world".
Proof.
  destruct (content_coding_roundtrip (HM := assoc_map) all_features accept_gzip 200 HTTP_11 sized_head coding_demo (0, None)) as (outs & Ho & _ & Hr).
  - repeat (apply Forall_cons; split; [exact I|]). apply List.Forall_nil.
  - vm_compute in Ho. injection Ho as <-. split; [vm_compute; reflexivity|].
    apply (proj2 (Hr eq_refl)); [|vm_compute; reflexivity]. repeat (apply Forall_cons; split; [exact I|]). apply List.Forall_nil.
Defined.

(** A coder polls its body again after it has ended: a body that must not be polled then (as
    [futures]' [unfold] must not) panics once the end of the coded stream has been read. *)
Lemma coder_polls_after_end :
  let c := mkCoder (mkBody [Chunk (E := unit) (bs "hi")] false false (0, None)) (EncodeGz (zip_new FGzip Encode)) in
  collect c = Panic /\ collect (mkCoder (fused_body [Chunk (E := unit) (bs "hi")] (0, None)) (EncodeGz (zip_new FGzip Encode))) = Ok [bs "hi"; MARK].
Proof. by split. Qed.
