(* ===== verification/HttpFile.v ===== *)
(** * Static files (http-file/src)

    A request's path is decoded and checked component by component ([path_check]), the file it names
    is opened, conditional and range headers are looked at ([serve]), and the body is streamed in
    chunks ([chunk_poll]).  The file system is what the traits of runtime.rs say ([FileSystem]); the
    crates that decode percent signs, parse ranges and dates and guess media types are parameters. *)

From S2P Require Import Prelude Decimal Http.

(** ** Paths (std::path on Unix) *)

Definition SEP : Z := 47.
Inductive Component : Type := RootDir | CurDir | ParentDir | Normal (s : bytes).
#[global] Instance Component_eq_dec : EqDecision Component.
Proof. solve_decision. Defined.
Definition component_of (seg : bytes) : option Component :=
  if bool_decide (seg = []) then None
  else if bool_decide (seg = bs ".") then None
  else if bool_decide (seg = bs "..") then Some ParentDir
  else Some (Normal seg).
(** [Path::components]: empty and [.] segments are left out, but a leading [.] of a relative path. *)
Definition leading (p : bytes) : list Component :=
  if bool_decide (head p = Some SEP) then [RootDir]
  else if bool_decide (head (split_on SEP p) = Some (bs ".")) then [CurDir] else [].
Definition components (p : bytes) : list Component := leading p ++ omap component_of (split_on SEP p).
(** [PathBuf::push]. *)
Definition path_push (p s : bytes) : bytes :=
  if bool_decide (head s = Some SEP) then s
  else match last p with
       | Some c => if c =? SEP then p ++ s else p ++ SEP :: s
       | None => s
       end.

(** ** Errors (error.rs) *)

Inductive IoKind : Type := NotFoundKind | PermissionDenied | OtherKind (n : Z).
Inductive ServeError : Type :=
| MethodNotAllowed | InvalidPath | NotModified | PreconditionFailed | RangeNotSatisfied (size : Z) | NotFound | Io (e : IoKind).
Definition serve_error_from (e : IoKind) : ServeError :=
  match e with NotFoundKind => NotFound | PermissionDenied => InvalidPath | e => Io e end.

Module Names.
Definition RANGE := bs "range".
Definition CONTENT_RANGE := bs "content-range".
Definition CONTENT_TYPE := bs "content-type".
Definition ACCEPT_RANGES := bs "accept-ranges".
Definition LAST_MODIFIED := bs "last-modified".
Definition IF_MODIFIED_SINCE := bs "if-modified-since".
Definition IF_UNMODIFIED_SINCE := bs "if-unmodified-since".
End Names.

(** ** The file system (runtime.rs) *)

(** [AsyncFs], [Meta] and [ChunkRead]: a read returns what it wrote to the buffer, or that the file
    has ended.  [rest] is the part of the file that has not been read. *)
Class FileSystem : Type := {
  File : Type;
  fs_is_dir : bytes -> bool;
  fs_open : bytes -> outcome IoKind File;
  f_modified : File -> option Z;
  f_len : File -> Z;
  f_seek : Z -> File -> outcome IoKind File;
  f_next : File -> outcome IoKind (option (File * bytes));
  content : File -> bytes;
  rest : File -> bytes;
  f_len_fits f : 0 <= f_len f < 2 ^ 64;
  open_rest p f : fs_open p = Ok f -> rest f = content f;
  seek_rest n f f' : 0 <= n -> f_seek n f = Ok f' -> rest f' = drop (Z.to_nat n) (content f) /\ content f' = content f;
  next_rest f f' b : f_next f = Ok (Some (f', b)) -> b <> [] /\ rest f = b ++ rest f';
  next_end f : f_next f = Ok None -> rest f = [];
  open_total p : fs_open p <> Panic;
  seek_total n f : f_seek n f <> Panic;
  next_total f : f_next f <> Panic;
}.

Section Serve.
Context `{FS : FileSystem} `{HM : HeaderMap}.
(** Percent decoding to UTF-8 text; the media type of a path; dates.  [date_from] is [HttpDate::from]
    a [SystemTime], which panics ([None]) for a time it cannot show, before 1970 or after 9999. *)
Context (decode_utf8 : bytes -> option bytes) (guess : bytes -> option bytes) (date_from : Z -> option Z) (parse_date : bytes -> option Z) (show_date : Z -> bytes).
(** [parse_range_header] and [validate] in one: the ranges of a header for a file of some size. *)
Context (validate_range : bytes -> Z -> option (option (list (Z * Z)))).

(** *** Path (lib.rs) *)

Fixpoint trim_slashes (p : bytes) : bytes :=
  match p with c :: t => if c =? SEP then trim_slashes t else p | [] => [] end.
Fixpoint push_components (path : bytes) (cs : list Component) : outcome ServeError bytes :=
  match cs with
  | [] => Ok path
  | Normal comp :: cs =>
      if existsb (fun c => match c with Normal _ => false | _ => true end) (components comp) then Err InvalidPath
      else push_components (path_push path comp) cs
  | CurDir :: cs => push_components path cs
  | RootDir :: _ | ParentDir :: _ => Err InvalidPath
  end.
Definition path_check (base path : bytes) : outcome ServeError bytes :=
  decoded ← ok_or InvalidPath (decode_utf8 (trim_slashes path));
  push_components base (components decoded).

(** *** Dates (date.rs) *)

Definition to_http_date (h : option bytes) : option Z := v ← h; parse_date v.
Definition mod_date_check (hs : hmap) (f : File) : outcome ServeError (option Z) :=
  match f_modified f with
  | None => if bool_decide (is_Some (hm_get Names.IF_UNMODIFIED_SINCE hs)) then Err PreconditionFailed else Ok None
  | Some modified =>
      mod_date ← unwrap (date_from modified);
      if match to_http_date (hm_get Names.IF_UNMODIFIED_SINCE hs) with Some d => d <? mod_date | None => false end then Err PreconditionFailed
      else if match to_http_date (hm_get Names.IF_MODIFIED_SINCE hs) with Some d => mod_date <=? d | None => false end then Err NotModified
      else Ok (Some mod_date)
  end.

(** *** The chunk reader (chunk.rs) *)

(** The read that is under way, or [None] once it has completed without another. *)
Inductive ChunkReader : Type := Empty | Reader (size : Z) (on_flight : option File).
Definition chunk_poll : M ChunkReader IoKind (option bytes) := fun r =>
  match r with
  | Empty => (Empty, Ok None)
  | Reader size on_flight =>
      if size =? 0 then (r, Ok None)
      else
        match on_flight with
        | None => (r, Panic)
        | Some f =>
            match f_next f with
            | Ok (Some (f, bytes)) =>
                let n := len bytes in
                if size <=? n then (Reader 0 None, Ok (Some (if size <? n then take (Z.to_nat size) bytes else bytes)))
                else (Reader (size - n) (Some f), Ok (Some bytes))
            | Ok None => (Reader size None, Ok None)
            | Err e => (Reader size None, Err e)
            | Panic => (Reader size None, Panic)
            end
        end
  end.
Definition chunk_size_hint (r : ChunkReader) : Z * option Z :=
  match r with Empty => (2 ^ 64 - 1, Some 0) | Reader size _ => (size, Some size) end.
(** A consumer that polls to the end. *)
Fixpoint drain_chunks (fuel : nat) (r : ChunkReader) : outcome IoKind (list bytes) :=
  match fuel with
  | O => Panic
  | S fuel =>
      match chunk_poll r with
      | (r, Ok (Some b)) => cons b <$> drain_chunks fuel r
      | (_, Ok None) => Ok []
      | (_, Err e) => Err e
      | (_, Panic) => Panic
      end
  end.

(** *** Serving (lib.rs) *)

Record FileResponse : Type := mkFileResponse { fr_status : Z; fr_headers : hmap; fr_body : ChunkReader }.
Definition io_err {A} (o : outcome IoKind A) : outcome ServeError A := map_err serve_error_from o.
Definition content_range (start end_ size : Z) : bytes := bs "bytes " ++ decimal start ++ bs "-" ++ decimal end_ ++ bs "/" ++ decimal size.
(** The range of a request: the file at its start, the status and headers of the answer, and how
    many bytes it has. *)
Definition take_range (hs : hmap) (f : File) : outcome ServeError (File * Z * hmap * Z) :=
  let size := f_len f in
  match v ← hm_get Names.RANGE hs; s ← to_str v; validate_range s size with
  | None => Ok (f, 200, hm_empty, size)
  | Some None => Err (RangeNotSatisfied size)
  | Some (Some ranges) =>
      '(start, end_) ← unwrap (list.last ranges);
      f ← io_err (f_seek start f);
      n ← sub_chk end_ start;
      n ← add_chk 64 n 1;
      Ok (f, 206, hm_insert Names.CONTENT_RANGE (content_range start end_ size) hm_empty, n)
  end.
Definition serve (base : bytes) (method : Method) (path : bytes) (hs : hmap) : outcome ServeError FileResponse :=
  if negb (bool_decide (method = HEAD) || bool_decide (method = GET)) then Err MethodNotAllowed
  else
    path ← path_check base path;
    if fs_is_dir path then Err InvalidPath
    else
      let ct := default (bs "application/octet-stream") (guess path) in
      f ← io_err (fs_open path);
      modified ← mod_date_check hs f;
      '(f, status, out, size) ← take_range hs f;
      let out := hm_insert Names.CONTENT_TYPE ct out in
      let out := hm_insert Hdr.CONTENT_LENGTH (decimal size) out in
      let out := hm_insert Names.ACCEPT_RANGES (bs "bytes") out in
      let out := match modified with Some d => hm_insert Names.LAST_MODIFIED (show_date d) out | None => out end in
      Ok (mkFileResponse status out (if bool_decide (method = HEAD) then Empty else Reader size (Some f))).

(** [ServeError::into_response]. *)
Definition into_response (e : ServeError) : Z * hmap :=
  match e with
  | MethodNotAllowed => (StatusCode.METHOD_NOT_ALLOWED, hm_insert Hdr.ALLOW (bs "GET,HEAD") hm_empty)
  | InvalidPath => (StatusCode.BAD_REQUEST, hm_empty)
  | NotModified => (StatusCode.NOT_MODIFIED, hm_empty)
  | PreconditionFailed => (412, hm_empty)
  | RangeNotSatisfied size => (416, hm_insert Names.CONTENT_RANGE (bs "bytes */" ++ decimal size) hm_empty)
  | NotFound => (404, hm_empty)
  | Io _ => (500, hm_empty)
  end.
End Serve.

(** ** Paths stay below the base *)

(** A name of a file or directory in a directory. *)
Definition plain_name (s : bytes) : Prop := s <> [] /\ SEP ∉ s /\ s <> bs "." /\ s <> bs "..".
Lemma split_on_nonempty c l : split_on c l <> [].
Proof. destruct l as [|b l]; cbn; [done|]. destruct (split_on c l); [done|]. by destruct (b =? c). Qed.
Lemma split_on_snoc c l s : c ∉ s -> split_on c (l ++ c :: s) = split_on c l ++ [s].
Proof.
  intros Hs. induction l as [|b l IH]; cbn [app split_on].
  - rewrite split_on_clean by done. by rewrite Z.eqb_refl.
  - rewrite IH. destruct (split_on c l) as [|p ps] eqn:E; [by destruct (split_on_nonempty c l)|]. cbn. by destruct (b =? c).
Qed.
Lemma split_on_pieces c l s : s ∈ split_on c l -> c ∉ s.
Proof.
  revert s. induction l as [|b l IH]; intros s; cbn; [by intros ->%list_elem_of_singleton; apply not_elem_of_nil|].
  destruct (split_on c l) as [|p ps] eqn:E; [by destruct (split_on_nonempty c l)|]. destruct (Z.eqb_spec b c) as [-> |Hb].
  - intros [-> |Hin]%elem_of_cons; [apply not_elem_of_nil|by apply IH].
  - intros [-> |Hin]%elem_of_cons; [|by apply IH; right]. rewrite not_elem_of_cons. split; [done|]. apply IH. by left.
Qed.
Lemma component_plain s : plain_name s -> component_of s = Some (Normal s).
Proof. intros (H1 & _ & H2 & H3). unfold component_of. by rewrite !bool_decide_false. Qed.
Lemma component_normal seg s : component_of seg = Some (Normal s) -> seg = s /\ s <> [] /\ s <> bs "." /\ s <> bs "..".
Proof. unfold component_of. repeat case_bool_decide; try done. by intros [= ->]. Qed.
Lemma components_normal p s : Normal s ∈ components p -> plain_name s.
Proof.
  unfold components. rewrite elem_of_app. intros [Hin|Hin].
  - exfalso. unfold leading in Hin. repeat case_bool_decide; try (by apply list_elem_of_singleton in Hin). by apply not_elem_of_nil in Hin.
  - apply list_elem_of_omap in Hin as (seg & Hs & Hc). apply component_normal in Hc as (-> & H1 & H2 & H3). split; [done|]. split; [by eapply split_on_pieces|done].
Qed.
Lemma components_single s : plain_name s -> components s = [Normal s].
Proof.
  intros Hs. unfold components, leading. destruct Hs as (H1 & H2 & H3 & H4). rewrite split_on_clean by done. cbn [head omap list_omap].
  rewrite (component_plain s) by done. rewrite bool_decide_false.
  - by rewrite bool_decide_false by congruence.
  - destruct s as [|c s]; [done|]. cbn. intros [= ->]. apply H2. by left.
Qed.
(** A name behind a separator adds one component. *)
Lemma components_join p s : p <> [] -> plain_name s -> components (p ++ SEP :: s) = components p ++ [Normal s].
Proof.
  intros Hp Hs. unfold components. rewrite split_on_snoc by apply Hs. rewrite omap_app. cbn [omap list_omap]. rewrite (component_plain s Hs), app_assoc. f_equal. f_equal.
  unfold leading. rewrite split_on_snoc by apply Hs. destruct p as [|c p]; [done|]. cbn [app head].
  destruct (split_on SEP (c :: p)) as [|q qs] eqn:E; [by destruct (split_on_nonempty SEP (c :: p))|]. done.
Qed.
Lemma components_sep p : p <> [] -> components (p ++ [SEP]) = components p.
Proof.
  intros Hp. unfold components. rewrite split_on_snoc by apply not_elem_of_nil. rewrite omap_app. cbn [omap list_omap]. rewrite app_nil_r. f_equal.
  unfold leading. rewrite split_on_snoc by apply not_elem_of_nil. destruct p as [|c p]; [done|]. cbn [app head].
  destruct (split_on SEP (c :: p)) as [|q qs] eqn:E; [by destruct (split_on_nonempty SEP (c :: p))|]. done.
Qed.
Lemma components_push p s : plain_name s -> components (path_push p s) = components p ++ [Normal s].
Proof.
  intros Hs. unfold path_push. rewrite bool_decide_false.
  2:{ destruct Hs as (H1 & H2 & _). destruct s as [|c s]; [done|]. cbn. intros [= ->]. apply H2. by left. }
  destruct p as [|c p _] using rev_ind; [by apply components_single|]. rewrite last_snoc. destruct (Z.eqb_spec c SEP) as [-> |Hc].
  - rewrite <- app_assoc. cbn [app]. destruct p as [|d p].
    + cbn [app]. unfold components at 1, leading. change (SEP :: s) with ([] ++ SEP :: s). rewrite split_on_snoc by apply Hs. cbn [split_on app omap list_omap]. by rewrite (component_plain s Hs).
    + by rewrite components_join, components_sep.
  - apply components_join; [by destruct p|done].
Qed.
Lemma push_components_spec cs : (forall s, Normal s ∈ cs -> plain_name s) -> forall p,
  match push_components p cs with
  | Ok q => RootDir ∉ cs /\ ParentDir ∉ cs /\ components q = components p ++ filter (fun c => c <> CurDir) cs
  | Err e => e = InvalidPath /\ (RootDir ∈ cs \/ ParentDir ∈ cs)
  | Panic => False
  end.
Proof.
  induction cs as [|c cs IH]; intros Hn p; cbn [push_components].
  - split; [apply not_elem_of_nil|]. split; [apply not_elem_of_nil|]. by rewrite filter_nil, app_nil_r.
  - assert (Hn' : forall s, Normal s ∈ cs -> plain_name s) by (intros s Hs; apply Hn; by right). destruct c as [| | |s].
    + split; [done|]. left. by left.
    + specialize (IH Hn' p). destruct (push_components p cs); [|destruct IH as (-> & H); split; [done|rewrite !elem_of_cons; tauto]|done].
      rewrite filter_cons_False by tauto. rewrite !not_elem_of_cons. destruct IH as (H1 & H2 & H3). done.
    + split; [done|]. right. by left.
    + assert (Hs : plain_name s) by (apply Hn; by left). rewrite (components_single s Hs). cbn [existsb orb].
      specialize (IH Hn' (path_push p s)). destruct (push_components (path_push p s) cs); [|destruct IH as (-> & H); split; [done|rewrite !elem_of_cons; tauto]|done].
      destruct IH as (H1 & H2 & H3). rewrite !not_elem_of_cons. split; [done|]. split; [done|].
      rewrite H3, components_push, filter_cons_True by done. by rewrite <- app_assoc.
Qed.

(** ** Bodies *)

Section Bodies.
Context `{FS : FileSystem}.
(** However the file is read, the reader hands out what it promised, as far as the file has it. *)
Lemma drain_reader : forall n f size, (length (rest f) < n)%nat -> 0 <= size ->
  match drain_chunks (S n) (Reader size (Some f)) with
  | Ok cs => mjoin cs = take (Z.to_nat size) (rest f) /\ Forall (fun b => b <> []) cs
  | Err _ => True
  | Panic => False
  end.
Proof.
  induction n as [|n IH]; intros f size Hn Hs; [lia|]. remember (S n) as m eqn:Em. cbn [drain_chunks]. unfold chunk_poll at 1. destruct (Z.eqb_spec size 0) as [-> |Hz]; [split; [done|constructor]|].
  destruct (f_next f) as [[[f' b]|]|e|] eqn:En; [| |done|by apply (next_total f)].
  2:{ apply next_end in En as ->. split; [by rewrite take_nil|constructor]. }
  apply next_rest in En as [Hb Hr]. rewrite Hr, length_app in Hn. assert (Hl : (0 < length b)%nat) by (destruct b; [done|cbn; lia]). destruct (Z.leb_spec size (len b)) as [Hle|Hgt].
  - subst m. cbn [drain_chunks chunk_poll Z.eqb]. cbn [fmap outcome_fmap]. unfold len in *. split.
    + cbn. rewrite app_nil_r, Hr. destruct (Z.ltb_spec size (Z.of_nat (length b))); [by rewrite take_app_le by lia|]. by rewrite take_app_length' by lia.
    + apply Forall_singleton. destruct (size <? _); [|done]. intros E%(f_equal length). rewrite length_take in E. cbn in E. lia.
  - specialize (IH f' (size - len b) ltac:(lia) ltac:(lia)). unfold len in *. destruct (drain_chunks m (Reader (size - Z.of_nat (length b)) (Some f'))) as [cs| |] eqn:Ed; [|exact I|exact IH].
    destruct IH as [Hj Hne]. cbn [fmap outcome_fmap]. split; [|by constructor]. change (mjoin (b :: cs)) with (b ++ mjoin cs). rewrite Hj, Hr. rewrite take_app. rewrite (take_ge b) by lia. f_equal. f_equal. lia.
Qed.
End Bodies.

Section Theorems.
Context `{FS : FileSystem} `{HM : HeaderMap}.
Context (decode_utf8 : bytes -> option bytes) (guess : bytes -> option bytes) (date_from : Z -> option Z) (parse_date : bytes -> option Z) (show_date : Z -> bytes).
Context (validate_range : bytes -> Z -> option (option (list (Z * Z)))).

(** C16: no request reaches a file outside the served directory.  Whatever the decoding of percent
    signs makes of a request's path, the path that is opened is the base directory followed by plain
    names -- not empty, without a separator, neither [.] nor [..] --, which are the components of the
    decoded path; and a path with a parent or a root component is refused. *)
Theorem file_path_contained base path :
  match path_check decode_utf8 base path with
  | Ok p => exists decoded names, decode_utf8 (trim_slashes path) = Some decoded /\ Forall plain_name names /\
      components p = components base ++ (Normal <$> names) /\ filter (fun c => c <> CurDir) (components decoded) = Normal <$> names
  | Err e => e = InvalidPath /\ (decode_utf8 (trim_slashes path) = None \/ exists decoded, decode_utf8 (trim_slashes path) = Some decoded /\ (RootDir ∈ components decoded \/ ParentDir ∈ components decoded))
  | Panic => False
  end.
Proof.
  unfold path_check. destruct (decode_utf8 (trim_slashes path)) as [d|]; cbn [ok_or mbind outcome_bind]; [|by split; [|left]].
  pose proof (push_components_spec (components d) (components_normal d) base) as H. destruct (push_components base (components d)) as [p|e|]; [|destruct H as [-> H]; by eauto|done].
  destruct H as (H1 & H2 & H3). assert (Hn : exists names, filter (fun c => c <> CurDir) (components d) = Normal <$> names /\ Forall plain_name names).
  { pose proof (components_normal d) as Hd. clear H3. revert H1 H2 Hd. generalize (components d). intros cs. induction cs as [|c cs IH]; intros H1 H2 Hd; [by exists []|].
    rewrite not_elem_of_cons in H1, H2. destruct IH as (names & Hf & Hp); [tauto|tauto|intros s Hs; apply Hd; by right|].
    destruct c as [| | |s]; [tauto| |tauto|]; [exists names; by rewrite filter_cons_False by tauto|].
    exists (s :: names). rewrite filter_cons_True, Hf by done. split; [done|]. constructor; [apply Hd; by left|done]. }
  destruct Hn as (names & Hf & Hp). exists d, names. by rewrite H3, Hf.
Qed.

(** What the range header parser promises: ranges that lie in the file, at least one. *)
Context (Hranges : forall s size rs, validate_range s size = Some (Some rs) -> rs <> [] /\ Forall (fun r => 0 <= r.1 /\ r.1 <= r.2 < size) rs).

Lemma path_check_total base path : path_check decode_utf8 base path = Panic -> False.
Proof.
  unfold path_check. destruct (decode_utf8 (trim_slashes path)) as [d|]; [|done]. cbn [ok_or mbind outcome_bind]. intros H.
  pose proof (push_components_spec (components d) (components_normal d) base) as Hp. by rewrite H in Hp.
Qed.
Lemma mod_date_total hs f : mod_date_check date_from parse_date hs f = Panic -> exists m, f_modified f = Some m /\ date_from m = None.
Proof.
  unfold mod_date_check. destruct (f_modified f) as [m|]; [|by case_bool_decide]. destruct (date_from m) as [d|] eqn:Ed; [|by exists m]. cbn [unwrap mbind outcome_bind].
  destruct (match to_http_date _ (hm_get Names.IF_UNMODIFIED_SINCE hs) with Some _ => _ | None => _ end); [done|]. by destruct (match to_http_date _ _ with Some _ => _ | None => _ end).
Qed.
Lemma take_range_spec hs f : rest f = content f -> match take_range validate_range hs f with
  | Ok (f', status, out, size) => exists start, rest f' = drop (Z.to_nat start) (content f) /\ 0 <= start /\ 0 <= size /\
      ((status = 200 /\ start = 0 /\ size = f_len f /\ out = hm_empty) \/
       (status = 206 /\ out = hm_insert Names.CONTENT_RANGE (content_range start (start + size - 1) (f_len f)) hm_empty /\ 0 < size /\ start + size <= f_len f))
  | Err _ => True
  | Panic => False
  end.
Proof.
  intros Hr0. unfold take_range. destruct (v ← hm_get Names.RANGE hs; s ← to_str v; validate_range s (f_len f)) as [[rs|]|] eqn:Ev; [|done|].
  - assert (Hrs : exists s, validate_range s (f_len f) = Some (Some rs)).
    { destruct (hm_get Names.RANGE hs) as [v|]; cbn in Ev; [|done]. destruct (to_str v) as [s|]; cbn in Ev; [|done]. by exists s. }
    destruct Hrs as [s Hs]. apply Hranges in Hs as [Hne Hall]. destruct rs as [|[a b] rs _] using rev_ind; [done|]. rewrite last_snoc. cbn [unwrap mbind outcome_bind].
    apply Forall_app in Hall as [_ [[H1 H2] _]%Forall_cons]. cbn [fst snd] in *. pose proof (f_len_fits f). unfold io_err. destruct (f_seek a f) as [f'|e|] eqn:Es; [|done|by apply (seek_total a f)].
    cbn [map_err mbind outcome_bind]. unfold sub_chk, add_chk. rewrite (proj2 (Z.leb_le a b)) by lia. cbn [mbind outcome_bind]. rewrite (proj2 (Z.ltb_lt _ _)) by lia. cbn [mbind outcome_bind].
    apply seek_rest in Es as [Hr _]; [|done]. exists a. split; [done|]. split; [done|]. split; [lia|]. right.
    split; [done|]. split; [|lia]. do 2 f_equal. lia.
  - exists 0. split; [by rewrite drop_0|]. split; [done|]. pose proof (f_len_fits f). split; [lia|]. left. done.
Qed.

(** C17: a file is served as its headers say.  Serving panics only for a file whose modification time
    the date crate does not take (before 1970 or after 9999); when it succeeds, the method is
    [GET] or [HEAD], the file is the one the checked path names and the conditions of the request
    allow it; the answer is the whole file, or with status 206 and its [Content-Range] a range inside
    the file; [Content-Length] is the size of that part; and reading the body to its end, however
    short the reads are, gives exactly those bytes of the file (as far as the file still has them) in
    non-empty chunks, or the error of a read, and nothing for [HEAD]. *)
Theorem file_served_exactly base method path hs :
  match serve decode_utf8 guess date_from parse_date show_date validate_range base method path hs with
  | Panic => exists p f m, path_check decode_utf8 base path = Ok p /\ fs_open p = Ok f /\ f_modified f = Some m /\ date_from m = None
  | Err _ => True
  | Ok res =>
      exists p f start size,
        path_check decode_utf8 base path = Ok p /\ fs_is_dir p = false /\ fs_open p = Ok f /\ (exists m, mod_date_check date_from parse_date hs f = Ok m) /\
        hm_get Hdr.CONTENT_LENGTH (fr_headers res) = Some (decimal size) /\ 0 <= start /\
        ((fr_status res = 200 /\ start = 0 /\ size = f_len f) \/
         (fr_status res = 206 /\ hm_get Names.CONTENT_RANGE (fr_headers res) = Some (content_range start (start + size - 1) (f_len f)) /\ 0 < size /\ start + size <= f_len f)) /\
        ((method = HEAD /\ fr_body res = Empty) \/
         (method = GET /\ forall fuel, (length (content f) + 2 <= fuel)%nat ->
            match drain_chunks fuel (fr_body res) with
            | Ok cs => mjoin cs = take (Z.to_nat size) (drop (Z.to_nat start) (content f)) /\ Forall (fun b => b <> []) cs
            | Err _ => True
            | Panic => False
            end))
  end.
Proof.
  unfold serve. destruct (bool_decide_reflect (method = HEAD)) as [Hh|Hh], (bool_decide_reflect (method = GET)) as [Hg|Hg]; cbn [negb orb]; try done; [congruence| |];
  (destruct (path_check decode_utf8 base path) as [p|e|] eqn:Ep; [|exact I|by apply path_check_total in Ep]; cbn [mbind outcome_bind];
   destruct (fs_is_dir p) eqn:Ed; [exact I|]; unfold io_err at 1; destruct (fs_open p) as [f|e|] eqn:Eo; [|exact I|by destruct (open_total p)]; cbn [map_err mbind outcome_bind];
   destruct (mod_date_check date_from parse_date hs f) as [m|e|] eqn:Em; [|exact I|apply mod_date_total in Em as (m & Hm & Hd); by exists p, f, m]; cbn [mbind outcome_bind];
   pose proof (take_range_spec hs f (open_rest _ _ Eo)) as Hr; destruct (take_range validate_range hs f) as [[[[f' status] out] size]|e|]; [|exact I|destruct Hr]; cbn [mbind outcome_bind];
   destruct Hr as (start & Hrest & Hs0 & Hz0 & Hcase); exists p, f, start, size; do 3 (split; [done|]); split; [by exists m|]; cbn [fr_headers fr_status fr_body];
   split; [destruct m; rewrite ?hm_get_insert_ne by done; by rewrite hm_get_insert|]; split; [done|]; split;
   [destruct Hcase as [(-> & -> & -> & ->)|(-> & -> & Hlt)]; [by left|right; split; [done|]; split; [destruct m; rewrite ?hm_get_insert_ne by done; by rewrite hm_get_insert|done]]|]).
  - by left.
  - right. split; [done|]. intros fuel Hfuel. destruct fuel as [|fuel]; [lia|].
    assert (Hl : (length (rest f') < fuel)%nat) by (rewrite Hrest, length_drop; lia).
    pose proof (drain_reader fuel f' size Hl Hz0) as Hd. destruct (drain_chunks (S fuel) (Reader size (Some f'))); [|done|done]. by rewrite <- Hrest.
Qed.
End Theorems.

(** ** A directory to serve *)

(** One file, read three bytes at a time. *)
Definition demo_file : bytes := bs "hello, world!".
#[local] Instance demo_fs : FileSystem.
Proof.
  refine {| File := nat; fs_is_dir p := bool_decide (p = bs "sample"); fs_open p := if bool_decide (p = bs "sample/test.txt") then Ok 0%nat else Err NotFoundKind;
    f_modified f := Some 1000; f_len f := 13; f_seek n f := Ok (Z.to_nat n);
    f_next f := if decide (drop f demo_file = []) then Ok None else Ok (Some (f + 3, take 3 (drop f demo_file))%nat);
    content f := demo_file; rest f := drop f demo_file |}.
  - intros f. lia.
  - intros p f. case_bool_decide; [by intros [= <-]|done].
  - intros n f f' Hn [= <-]. done.
  - intros f f' b. case_decide as Hd; [done|]. intros [= <- <-]. split; [by destruct (drop f demo_file)|]. by rewrite <- drop_drop, take_drop.
  - intros f. by case_decide.
  - intros p. by case_bool_decide.
  - done.
  - intros f. by case_decide.
Defined.
Definition demo_range (s : bytes) (size : Z) : option (option (list (Z * Z))) :=
  if bool_decide (s = bs "bytes=7-11") then Some (if 11 <? size then Some [(7, 11)] else None) else None.
Definition demo_serve (m : Method) (path : string) (hs : hmap) :=
  serve (FS := demo_fs) (HM := assoc_map) Some (fun _ => None) Some (fun _ => None) (fun _ => bs "then") demo_range (bs "sample") m (bs path) hs.
Definition range_head : hmap (HeaderMap := assoc_map) := hm_insert Names.RANGE (bs "bytes=7-11") hm_empty.
Lemma file_served_exactly_witness : exists res, demo_serve GET "/./test.txt" range_head = Ok res /\ fr_status res = 206 /\
  exists start size cs, hm_get Hdr.CONTENT_LENGTH (fr_headers res) = Some (decimal size) /\ drain_chunks 20 (fr_body res) = Ok cs /\ mjoin cs = take (Z.to_nat size) (drop (Z.to_nat start) demo_file).
Proof.
  eexists. split; [vm_compute; reflexivity|]. split; [reflexivity|].
  pose proof (file_served_exactly (FS := demo_fs) (HM := assoc_map) Some (fun _ => None) Some (fun _ => None) (fun _ => bs "then") demo_range) as H.
  destruct (H ltac:(unfold demo_range; intros s size rs; case_bool_decide; [|done]; destruct (Z.ltb_spec 11 size); [|done]; intros [= <-]; split; [done|]; apply Forall_singleton; cbn; lia)
    (bs "sample") GET (bs "/./test.txt") range_head) as (p & f & start & size & _ & _ & _ & _ & Hl & _ & _ & [[? _]|[_ Hb]]); [discriminate|].
  specialize (Hb 20%nat ltac:(vm_compute; lia)). exists start, size. vm_compute in Hb. eexists. split; [exact Hl|]. split; [vm_compute; reflexivity|]. exact (proj1 Hb).
Defined.
(** The whole file, the first five bytes of "world", and refused paths. *)
Lemma file_demo :
  match demo_serve GET "/test.txt" hm_empty with Ok res => drain_chunks 20 (fr_body res) = Ok [bs "hel"; bs "lo,"; bs " wo"; bs "rld"; bs "!"] | _ => False end /\
  match demo_serve GET "/test.txt" range_head with Ok res => drain_chunks 20 (fr_body res) = Ok [bs "wor"; bs "ld"] | _ => False end /\
  demo_serve GET "/../test.txt" hm_empty = Err InvalidPath /\ demo_serve POST "/test.txt" hm_empty = Err MethodNotAllowed /\
  demo_serve GET "/" hm_empty = Err InvalidPath /\ demo_serve GET "/nope" hm_empty = Err NotFound.
Proof. by vm_compute. Qed.
(** A file whose time the date crate does not take cannot be served: its modification time ends the
    request with a panic. *)
Lemma file_time_panics :
  serve (FS := demo_fs) (HM := assoc_map) Some (fun _ => None) (fun m => if 1000 <=? m then None else Some m) (fun _ => None) (fun _ => bs "then") demo_range
    (bs "sample") GET (bs "/test.txt") hm_empty = Panic.
Proof. by vm_compute. Qed.
