(* ===== verification/Multipart.v ===== *)
(** * Multipart bodies (http-multipart/src)

    The stream of fields of a multipart body: the boundary from the request head, the buffer
    between the body stream and the parser, boundary lines, field headers, and the decoder of a
    field's data, fixed-length or up to the next boundary.  The body stream is the list of the
    items it will produce; a wait for an item is its arrival.  The memchr, httparse, mime and
    http crates are classes. *)

From S2P Require Import Prelude Utf8 Decimal Http.

(** ** What the crate calls *)

(** The first position of a needle. *)
Fixpoint first_at (needle hay : bytes) : option Z :=
  if starts_with needle hay then Some 0
  else match hay with [] => None | _ :: t => Z.succ <$> first_at needle t end.

(** [memchr::memmem::find] and [memchr::memchr]. *)
Class Memchr : Type := {
  find : bytes -> bytes -> option Z;
  find_first hay needle : find hay needle = first_at needle hay;
}.

(** [httparse::Error], as far as the crate names it. *)
Inductive HttparseError : Type := TooManyHeaders | HeaderValue | OtherHttparse (n : Z).

(** [httparse::parse_headers] with sixteen slots ([Ok None] is [Status::Partial]), the http
    crate's conversions of what it found, and the top-level type of a parsed [Mime]. *)
Class MpParse `{HeaderMap} : Type := {
  httparse_headers : bytes -> outcome HttparseError (option (list (bytes * bytes)));
  name_try_from : bytes -> option bytes;
  value_try_from : bytes -> option bytes;
  mime_type : bytes -> option bytes;
}.

Inductive MultipartError (E : Type) : Type :=
| NoPostMethod
| NoContentDisposition
| NoContentType
| ParseContentType
| Boundary
| Nested
| UnexpectedEof
| BufferOverflow
| MpHeader (e : HttparseError)
| Payload (e : E).
Arguments NoPostMethod {E}.
Arguments NoContentDisposition {E}.
Arguments NoContentType {E}.
Arguments ParseContentType {E}.
Arguments Boundary {E}.
Arguments Nested {E}.
Arguments UnexpectedEof {E}.
Arguments BufferOverflow {E}.
Arguments MpHeader {E} e.
Arguments Payload {E} e.

Definition DOUBLE_HYPHEN : bytes := bs "--".
Definition LF : bytes := [10].
Definition DOUBLE_CR_LF : bytes := [13; 10; 13; 10].
Definition CONTENT_TYPE : bytes := bs "content-type".
Definition CONTENT_DISPOSITION : bytes := bs "content-disposition".

Section Multipart.
Context `{HM : HeaderMap} `{!MpParse} `{MC : Memchr} {E : Type}.
Abbreviation Err_ := (MultipartError E).

(** ** header.rs *)

Definition boundary (headers : hmap) : outcome Err_ bytes :=
  header ← ok_or NoContentType (hm_get CONTENT_TYPE headers);
  header ← ok_or ParseContentType (to_str header);
  idx ← ok_or Boundary (find header (bs "boundary="));
  let start := idx + 9 in
  rest ← unwrap (slice start (len header) header);
  let end_ := default (len header) (find rest (bs ";")) in
  unwrap (slice start end_ header).

(** The debug assertion: the headers of the field before were cleared when it was dropped. *)
Fixpoint append_headers (headers : hmap) (hdrs : list (bytes * bytes)) : outcome Err_ hmap :=
  match hdrs with
  | [] => Ok headers
  | (n, v) :: hdrs =>
      name ← unwrap (name_try_from n);
      value ← unwrap (value_try_from v);
      append_headers (hm_append name value headers) hdrs
  end.
Definition parse_headers (headers : hmap) (slice : bytes) : outcome Err_ hmap :=
  o ← map_err MpHeader (httparse_headers slice);
  match o with
  | Some hdrs => if hm_is_empty headers then append_headers headers hdrs else Panic
  | None => Err (MpHeader TooManyHeaders)
  end.

Definition check_headers (headers : hmap) : outcome Err_ unit :=
  let ct := default (bs "application")
              (hm_get CONTENT_TYPE headers ≫= fun ct => to_str ct ≫= fun ct => mime_type ct) in
  if bool_decide (ct = bs "multipart") then Err Nested else Ok tt.

Definition content_length_opt (headers : hmap) : outcome Err_ (option Z) :=
  match hm_get Hdr.CONTENT_LENGTH headers with
  | None => Ok None
  | Some v =>
      s ← ok_or (MpHeader HeaderValue) (to_str v);
      n ← ok_or (MpHeader HeaderValue) (parse_u64 s);
      Ok (Some n)
  end.

(** ** content_disposition.rs *)

Record ContentDisposition : Type := mkDisposition {
  name_indice : option (Z * Z); filename_indice : option (Z * Z) }.
Definition FORM : bytes := bs "form-data; ".
Definition NAME : bytes := bs "name=".
Definition FILE_NAME : bytes := bs "filename=".

Definition indice_from_slice (haystack needle : bytes) : outcome Err_ (option (Z * Z)) :=
  match find haystack needle with
  | None => Ok None
  | Some idx =>
      if bool_decide (needle = NAME) && (0 <? idx)
         && bool_decide (haystack !! Z.to_nat (idx - 1) = Some 101) then Ok None
      else
        let start := idx + len needle in
        remain ← unwrap (slice start (len haystack) haystack);
        let length := default (len remain) (find remain (bs ";")) in
        remain ← unwrap (slice 0 length remain);
        if starts_with [34] remain then
          let start := start + 1 in
          quoted ← unwrap (slice 1 (len remain) remain);
          let length := default length (find quoted [34]) in
          Ok (Some (start, start + length))
        else Ok (Some (start, start + length))
  end.
Definition from_slice (slice : bytes) : outcome Err_ ContentDisposition :=
  name ← indice_from_slice slice NAME;
  filename ← indice_from_slice slice FILE_NAME;
  Ok (mkDisposition name filename).
Definition try_from_header (headers : hmap) : outcome Err_ ContentDisposition :=
  header ← ok_or NoContentDisposition (hm_get CONTENT_DISPOSITION headers);
  if negb (starts_with FORM header) then Err NoContentDisposition else from_slice header.

(** A part of the header by its indices; an index out of range panics. *)
Definition indexed (i : option (Z * Z)) (header : bytes) : outcome Err_ (option bytes) :=
  match i with
  | None => Ok None
  | Some (a, b) => s ← unwrap (slice a b header); Ok (Some s)
  end.
Definition utf8_ok (o : option bytes) : option bytes := o ≫= fun s => if utf8_valid s then Some s else None.
(** [Field::name] and [Field::file_name]. *)
Definition field_name (cp : ContentDisposition) (headers : hmap) : outcome Err_ (option bytes) :=
  header ← unwrap (hm_get CONTENT_DISPOSITION headers);
  s ← indexed (name_indice cp) header;
  Ok (utf8_ok s).
Definition field_file_name (cp : ContentDisposition) (headers : hmap) : outcome Err_ (option bytes) :=
  header ← unwrap (hm_get CONTENT_DISPOSITION headers);
  s ← indexed (filename_indice cp) header;
  Ok (utf8_ok s).

(** ** The stream of fields (lib.rs) *)

(** [stream] holds the items the body stream still produces; at its end it produces [None]. *)
Record Multipart : Type := mkMultipart {
  stream : list (bytes + E);
  buf : bytes;
  mp_boundary : bytes;
  mp_headers : hmap;
  pending_field : bool;
  buf_limit : Z }.

Definition with_buf (b : bytes) (m : Multipart) : Multipart :=
  mkMultipart (stream m) b (mp_boundary m) (mp_headers m) (pending_field m) (buf_limit m).
Definition with_stream (s : list (bytes + E)) (m : Multipart) : Multipart :=
  mkMultipart s (buf m) (mp_boundary m) (mp_headers m) (pending_field m) (buf_limit m).
Definition with_headers (h : hmap) (m : Multipart) : Multipart :=
  mkMultipart (stream m) (buf m) (mp_boundary m) h (pending_field m) (buf_limit m).
Definition with_pending (p : bool) (m : Multipart) : Multipart :=
  mkMultipart (stream m) (buf m) (mp_boundary m) (mp_headers m) p (buf_limit m).
Definition modify {S F} (f : S -> S) : M S F unit := fun s => (f s, Ok tt).

Definition multipart_with_config (method : Method) (headers : hmap) (body : list (bytes + E)) (limit : Z) :
  outcome Err_ Multipart :=
  if negb (bool_decide (method = POST)) then Err NoPostMethod
  else b ← boundary headers; Ok (mkMultipart body [] b hm_empty false limit).
Definition DEFAULT_BUF_LIMIT : Z := 1024 * 1024.
Definition multipart (method : Method) (headers : hmap) (body : list (bytes + E)) : outcome Err_ Multipart :=
  multipart_with_config method headers body DEFAULT_BUF_LIMIT.

Definition try_read_stream : M Multipart Err_ bytes := fun m =>
  match stream m with
  | inl bytes :: s => (with_stream s m, Ok bytes)
  | inr e :: s => (with_stream s m, Err (Payload e))
  | [] => (m, Err UnexpectedEof)
  end.
Definition try_read_stream_to_buf : M Multipart Err_ unit :=
  bytes ← try_read_stream;
  modify (fun m => with_buf (buf m ++ bytes) m).
Definition buf_overflow (m : Multipart) : bool := buf_limit m <? len (buf m).
Definition advance_buf (n : Z) : M Multipart Err_ unit := fun m =>
  let '(b, r) := m_advance n (buf m) in (with_buf b m, r).
Definition split_buf_to (n : Z) : M Multipart Err_ bytes := fun m =>
  let '(b, r) := m_split_to n (buf m) in (with_buf b m, r).

(** ** The data of a field (field.rs) *)

Inductive FieldDecoder : Type := Fixed (n : Z) | StreamBegin | StreamPossibleEnd | StreamEnd.
Record Field : Type := mkField { decoder : FieldDecoder; cp : ContentDisposition }.

Definition field_new (length : option Z) (cp : ContentDisposition) : Field :=
  mkField (match length with Some n => Fixed n | None => StreamBegin end) cp.

(** Where to split the data: at its end, behind a false boundary, or before the boundary. *)
Definition try_find_split_idx (item boundary : bytes) : M FieldDecoder Err_ (option Z) := fun d =>
  match find item DOUBLE_HYPHEN with
  | Some idx =>
      let start := idx + len DOUBLE_HYPHEN in
      let length := Z.min (len item - start) (len boundary) in
      let end_ := start + length in
      match slice start end_ item with
      | None => (d, Panic)
      | Some part =>
          if negb (starts_with part boundary) then (d, Ok (Some end_))
          else if len part <? len boundary then (StreamPossibleEnd, Ok None)
          else (StreamEnd, if 2 <=? idx then Ok (Some (idx - 2)) else Err Boundary)
      end
  | None => (d, Ok (Some (len item)))
  end.

(** The field borrows the multipart: its methods work on both. *)
Definition F (A : Type) : Type := M (FieldDecoder * Multipart) Err_ A.
Definition on_mp {A} (m : M Multipart Err_ A) : F A := fun s => let '(mp, r) := m s.2 in ((s.1, mp), r).
Definition on_dec {A} (m : M FieldDecoder Err_ A) : F A := fun s => let '(d, r) := m s.1 in ((d, s.2), r).
Definition set_dec (d : FieldDecoder) : F unit := fun s => ((d, s.2), Ok tt).
Definition extend (item : bytes) : F unit := on_mp (modify (fun m => with_buf (buf m ++ item) m)).
Definition field_done : F (option bytes) := on_mp (modify (with_pending false)) ;; mret None.

(** [split_bytes]: the rest of the item goes to the buffer. *)
Definition split_bytes (item : bytes) (at_ : Z) : F bytes :=
  chunk ← lift (unwrap (slice 0 at_ item));
  rest ← lift (unwrap (slice at_ (len item) item));
  extend rest ;; mret chunk.

(** What is in the buffer first: [None] when there is nothing to hand out yet. *)
Definition drain_buf : F (option (option bytes)) := fun s =>
  if bool_decide (buf s.2 = []) then (s, Ok None)
  else
    match s.1 with
    | Fixed 0 | StreamEnd => (o ← field_done; mret (Some o)) s
    | Fixed n =>
        let at_ := Z.min n (len (buf s.2)) in
        (set_dec (Fixed (n - at_)) ;; chunk ← on_mp (split_buf_to at_); mret (Some (Some chunk))) s
    | StreamBegin | StreamPossibleEnd =>
        (o ← on_dec (try_find_split_idx (buf s.2) (mp_boundary s.2));
         match o with
         | Some at_ => chunk ← on_mp (split_buf_to at_); mret (Some (Some chunk))
         | None => mret None
         end) s
    end.
(** Then an item of the stream, in place where possible. *)
Definition take_item (item : bytes) : F (option (option bytes)) := fun s =>
  match s.1 with
  | Fixed 0 => (extend item ;; o ← field_done; mret (Some o)) s
  | Fixed n =>
      let at_ := Z.min n (len item) in
      (set_dec (Fixed (n - at_)) ;; chunk ← split_bytes item at_; mret (Some (Some chunk))) s
  | StreamBegin =>
      (o ← on_dec (try_find_split_idx item (mp_boundary s.2));
       match o with
       | Some at_ => chunk ← split_bytes item at_; mret (Some (Some chunk))
       | None => extend item ;; mret None
       end) s
  | StreamPossibleEnd => (extend item ;; mret None) s
  | StreamEnd => (o ← field_done; mret (Some o)) s
  end.
(** [Field::try_next]: every turn but the last reads an item. *)
Fixpoint field_loop (fuel : nat) : F (option bytes) :=
  match fuel with
  | O => panic
  | S fuel =>
      o ← drain_buf;
      match o with
      | Some r => mret r
      | None =>
          item ← on_mp try_read_stream;
          o ← take_item item;
          match o with Some r => mret r | None => field_loop fuel end
      end
  end.
Definition field_try_next : F (option bytes) := fun s => field_loop (S (length (stream s.2))) s.
(** Dropping a field clears the headers. *)
Definition field_drop : M Multipart Err_ unit := modify (with_headers hm_empty).

(** ** The fields *)

Fixpoint consume_loop (fuel : nat) : F unit :=
  match fuel with
  | O => panic
  | S fuel => fun s =>
      (o ← on_dec (try_find_split_idx (buf s.2) (mp_boundary s.2));
       match o with Some idx => on_mp (advance_buf idx) | None => mret tt end ;;
       s' ← get;
       match s'.1 with
       | StreamEnd => on_mp (modify (with_pending false))
       | _ => on_mp try_read_stream_to_buf ;; consume_loop fuel
       end) s
  end.
Definition consume_pending_field : M Multipart Err_ unit := fun m =>
  let '((_, m'), r) := consume_loop (S (length (stream m))) (StreamBegin, m) in (m', r).

(** The header block is complete: the field. *)
Definition field_of_block (block : bytes) : M Multipart Err_ Field := fun m =>
  match parse_headers (mp_headers m) block with
  | Ok h =>
      (modify (with_headers h) ;;
       advance_buf (len block) ;;
       cp ← lift (try_from_header h);
       lift (check_headers h) ;;
       length ← lift (content_length_opt h);
       modify (with_pending true) ;;
       mret (field_new length cp)) m
  | Err e => (m, Err e)
  | Panic => (m, Panic)
  end.
Fixpoint parse_field_loop (fuel : nat) : M Multipart Err_ Field :=
  match fuel with
  | O => panic
  | S fuel => fun m =>
      match find (buf m) DOUBLE_CR_LF with
      | Some idx =>
          (block ← lift (unwrap (slice 0 (idx + 4) (buf m))); field_of_block block) m
      | None =>
          if buf_overflow m then (m, Err (MpHeader TooManyHeaders))
          else (try_read_stream_to_buf ;; parse_field_loop fuel) m
      end
  end.
Definition parse_field : M Multipart Err_ Field := fun m => parse_field_loop (S (length (stream m))) m.

(** What the line before the LF at [idx] asks for. *)
Inductive Line : Type := Skip | More | FieldLine | LastLine | BadLine.
Definition read_line (boundary buf : bytes) (idx : Z) : outcome Err_ Line :=
  if idx <? 1 then Ok BadLine
  else
    line ← unwrap (slice 0 (idx - 1) buf);
    let n := len line in
    if n =? 0 then Ok Skip
    else if n <? len boundary + 2 then Ok More
    else if negb (bool_decide (take 2 line = DOUBLE_HYPHEN)) then Ok BadLine
    else if bool_decide (drop 2 line = boundary) then Ok FieldLine
    else if n =? len boundary + 4 then Ok LastLine
    else Ok BadLine.

(** Every turn removes an empty line or reads an item. *)
Fixpoint try_next_loop (fuel : nat) : M Multipart Err_ (option Field) :=
  match fuel with
  | O => panic
  | S fuel => fun m =>
      let more := (fun m => if buf_overflow m then (m, Err BufferOverflow)
                            else (try_read_stream_to_buf ;; try_next_loop fuel) m) : M Multipart Err_ (option Field) in
      match find (buf m) LF with
      | None => more m
      | Some idx =>
          (line ← lift (read_line (mp_boundary m) (buf m) idx);
           match line with
           | Skip => advance_buf (idx + 1) ;; try_next_loop fuel
           | More => more
           | FieldLine => advance_buf (idx + 1) ;; f ← parse_field; mret (Some f)
           | LastLine => mret None
           | BadLine => fail Boundary
           end) m
      end
  end.
Definition stream_size (s : list (bytes + E)) : nat :=
  sum_list ((fun i => match i with inl b => S (length b) | inr _ => 1%nat end) <$> s).
Definition try_next : M Multipart Err_ (option Field) := fun m =>
  ((if pending_field m then consume_pending_field else mret tt) ;;
   m ← get;
   try_next_loop (S (length (buf m) + stream_size (stream m)))) m.
End Multipart.
