(* ===== verification/MultipartSpec.v ===== *)
(** * What the multipart parser does

    Fields come out of a multipart body as they were put in, however the body is cut into
    stream items -- with the exceptions at the end of the file: the streaming decoder looks for
    the boundary in one item at a time, so the four bytes in front of it must not be split, and
    the data must not contain two hyphens. *)

From S2P Require Import Prelude Utf8 Decimal Http Multipart.

(** ** Instances of the parameters *)

#[global] Instance memchr_first : Memchr := {| find hay needle := first_at needle hay; find_first _ _ := eq_refl |}.

(** A header parser for plain [name: value] lines. *)
Fixpoint demo_lines (fuel : nat) (l : bytes) : outcome HttparseError (option (list (bytes * bytes))) :=
  match fuel with
  | O => Ok None
  | S fuel =>
      match first_at [13; 10] l with
      | None => Ok None
      | Some 0 => Ok (Some [])
      | Some n =>
          let line := take (Z.to_nat n) l in
          match first_at [58; 32] line with
          | None => Err HeaderValue
          | Some k =>
              o ← demo_lines fuel (drop (Z.to_nat n + 2) l);
              Ok (option_map (cons (to_ascii_lowercase (take (Z.to_nat k) line), drop (Z.to_nat k + 2) line)) o)
          end
      end
  end.
#[global] Instance demo_parse : MpParse := {
  httparse_headers l := demo_lines (length l) l;
  name_try_from := Some;
  value_try_from := Some;
  mime_type l := (fun k => take (Z.to_nat k) l) <$> first_at [47] l;
}.

(** ** Reading everything *)

Section Session.
Context `{HM : HeaderMap} `{!MpParse} `{MC : Memchr} {E : Type}.
Abbreviation Mp := (Multipart (E := E)).

(** All the chunks of a field. *)
Fixpoint collect (fuel : nat) : F (E := E) bytes :=
  match fuel with
  | O => panic
  | S fuel =>
      o ← field_try_next;
      match o with None => mret [] | Some c => rest ← collect fuel; mret (c ++ rest) end
  end.
(** A field read to its end and dropped: headers, name and data. *)
Definition read_field (fuel : nat) (f : Field) : M Mp (MultipartError E) (hmap * option bytes * bytes) := fun m =>
  match collect fuel (decoder f, m) with
  | ((_, m), Ok data) =>
      (name ← lift (field_name (cp f) (mp_headers m)); field_drop ;; mret (mp_headers m, name, data)) m
  | ((_, m), Err e) => (m, Err e)
  | ((_, m), Panic) => (m, Panic)
  end.
Fixpoint session (fuel fuel_field : nat) : M Mp (MultipartError E) (list (hmap * option bytes * bytes)) :=
  match fuel with
  | O => panic
  | S fuel =>
      o ← try_next;
      match o with
      | None => mret []
      | Some f => x ← read_field fuel_field f; rest ← session fuel fuel_field; mret (x :: rest)
      end
  end.
End Session.

(** ** Searching *)

Lemma starts_with_prefix p l : starts_with p l = true <-> p `prefix_of` l.
Proof.
  revert l. induction p as [|a p IH]; intros l; simpl.
  - split; [intros _; apply prefix_nil|done].
  - destruct l as [|b l]; [split; [done|by intros ?%prefix_nil_inv]|]. rewrite andb_true_iff, Z.eqb_eq, IH. split.
    + intros [-> H]. by apply prefix_cons.
    + intros H. split; [by apply prefix_cons_inv_1 in H|by apply prefix_cons_inv_2 in H].
Qed.
Lemma starts_with_app p l k : len p <= len l -> starts_with p (l ++ k) = starts_with p l.
Proof.
  revert l. induction p as [|a p IH]; intros l Hl; [done|]. destruct l as [|b l].
  - rewrite len_cons, len_nil in Hl. pose proof (len_nonneg p). lia.
  - rewrite !len_cons in Hl. simpl. rewrite IH by lia. done.
Qed.

Lemma first_at_bound n h i : first_at n h = Some i -> 0 <= i /\ i + len n <= len h.
Proof.
  revert i. induction h as [|b h IH]; intros i; cbn [first_at]; destruct (starts_with n _) eqn:Hs.
  - intros [= <-]. apply starts_with_prefix in Hs as [k Hk]. rewrite Hk, len_app. pose proof (len_nonneg k). lia.
  - done.
  - intros [= <-]. apply starts_with_prefix in Hs as [k Hk]. rewrite Hk, len_app. pose proof (len_nonneg k). lia.
  - destruct (first_at n h) as [j|] eqn:Hj; [|done]. intros [= <-]. rewrite len_cons. specialize (IH j eq_refl). lia.
Qed.
(** A needle found in the front is found there in the whole. *)
Lemma first_at_app n x y i : first_at n x = Some i -> first_at n (x ++ y) = Some i.
Proof.
  revert i. induction x as [|b x IH]; intros i H; pose proof (first_at_bound _ _ _ H) as Hb.
  - cbn [first_at] in H. destruct (starts_with n []) eqn:Hs; [|done]. injection H as <-.
    destruct n; [|done]. by destruct y.
  - cbn [app first_at] in *. change (b :: x ++ y) with ((b :: x) ++ y). rewrite starts_with_app by lia.
    destruct (starts_with n (b :: x)); [done|]. destruct (first_at n x) as [j|]; [|done]. by rewrite (IH j).
Qed.
Lemma first_at_short n x y i : first_at n (x ++ y) = Some i -> len x < i + len n -> first_at n x = None.
Proof.
  intros H Hl. destruct (first_at n x) as [j|] eqn:Hj; [|done]. pose proof (first_at_bound _ _ _ Hj).
  rewrite (first_at_app _ _ y j Hj) in H. injection H as <-. lia.
Qed.
Lemma first_at_front n x y : first_at n (x ++ y) = None -> first_at n x = None.
Proof. intros H. destruct (first_at n x) eqn:Hx; [|done]. by rewrite (first_at_app _ _ y _ Hx) in H. Qed.
Lemma first_at_back n x y : first_at n (x ++ y) = None -> first_at n y = None.
Proof.
  induction x as [|b x IH]; [done|]. cbn [app first_at]. destruct (starts_with n _); [done|].
  intros H. apply IH. by destruct (first_at n (x ++ y)).
Qed.

(** The LF at the end of a line, the boundary after a field's data. *)
Lemma first_LF p r : 10 ∉ p -> first_at LF (p ++ 10 :: r) = Some (len p).
Proof.
  induction p as [|b p IH]; [done|]. rewrite not_elem_of_cons. intros [Hb Hp]. cbn [app first_at].
  assert (Hs : starts_with LF (b :: p ++ 10 :: r) = false) by (unfold starts_with, LF; by rewrite (proj2 (Z.eqb_neq _ _)) by congruence).
  rewrite Hs, (IH Hp), len_cons. simpl. f_equal. lia.
Qed.
Definition DELIMITER : bytes := [13; 10; 45; 45].
Lemma first_hyphens d r : first_at DOUBLE_HYPHEN d = None -> first_at DOUBLE_HYPHEN (d ++ DELIMITER ++ r) = Some (len d + 2).
Proof.
  induction d as [|b d IH]; intros H; [done|]. cbn [app first_at] in *.
  destruct (starts_with DOUBLE_HYPHEN (b :: d)) eqn:Hs; [done|].
  assert (Hs' : starts_with DOUBLE_HYPHEN (b :: d ++ DELIMITER ++ r) = false).
  { destruct d as [|c d]; [|done]. cbn. by rewrite andb_false_r. }
  rewrite Hs', IH by (by destruct (first_at DOUBLE_HYPHEN d)). rewrite len_cons. simpl. f_equal. lia.
Qed.

(** ** Splitting a field's data *)

Section Split.
Context `{MC : Memchr} {E : Type}.
Abbreviation split := (try_find_split_idx (E := E)).

Lemma split_inside x b dec : first_at DOUBLE_HYPHEN x = None -> split x b dec = (dec, Ok (Some (len x))).
Proof. intros H. unfold try_find_split_idx. by rewrite find_first, H. Qed.
Lemma split_partial d y b dec : first_at DOUBLE_HYPHEN d = None -> y `prefix_of` b -> len y < len b ->
  split (d ++ DELIMITER ++ y) b dec = (StreamPossibleEnd, Ok None).
Proof.
  intros Hd Hy Hl. unfold try_find_split_idx. rewrite find_first, first_hyphens by done.
  change (len DOUBLE_HYPHEN) with 2. replace (d ++ DELIMITER ++ y) with ((d ++ DELIMITER) ++ y ++ []) by (by rewrite app_nil_r, app_assoc).
  rewrite (slice_app_mid (d ++ DELIMITER) y []); rewrite ?app_nil_r, ?len_app; change (len DELIMITER) with 4; [|lia|lia].
  apply starts_with_prefix in Hy. rewrite Hy. simpl. by rewrite (proj2 (Z.ltb_lt _ _)) by lia.
Qed.
Lemma split_end d z b dec : first_at DOUBLE_HYPHEN d = None ->
  split (d ++ DELIMITER ++ b ++ z) b dec = (StreamEnd, Ok (Some (len d))).
Proof.
  intros Hd. unfold try_find_split_idx. rewrite find_first, first_hyphens by done.
  change (len DOUBLE_HYPHEN) with 2. rewrite app_assoc. pose proof (len_nonneg d). pose proof (len_nonneg z).
  rewrite (slice_app_mid (d ++ DELIMITER) b z); rewrite ?len_app; change (len DELIMITER) with 4; [|lia|lia].
  assert (Hb : starts_with b b = true) by by apply starts_with_prefix. rewrite Hb. simpl.
  rewrite (proj2 (Z.ltb_ge _ _)), (proj2 (Z.leb_le _ _)) by lia. do 3 f_equal. lia.
Qed.
End Split.

(** ** Items of the stream *)

(** Where the stream is cut: the four bytes before a boundary with [r] bytes behind their start
    come in one piece. *)
Definition cut_ok (r : nat) (cs : list bytes) : Prop :=
  forall k, let n := length (concat (drop k cs)) in (r <= n \/ n + 4 <= r)%nat.
Lemma cut_ok_tail r c cs : cut_ok r (c :: cs) -> cut_ok r cs.
Proof. intros H k. exact (H (S k)). Qed.
Lemma cut_ok_suffix r cs cs' : cs' `suffix_of` cs -> cut_ok r cs -> cut_ok r cs'.
Proof. intros [p ->] H k. specialize (H (length p + k)%nat). by rewrite drop_app_add in H. Qed.

Section Pieces.
Context `{HM : HeaderMap} `{!MpParse} `{MC : Memchr} {E : Type} (bd : bytes) (lim : Z).

(** A multipart whose stream gives the items [cs] and then ends. *)
Definition mp (h : hmap) (cs : list bytes) (bf : bytes) (p : bool) : Multipart (E := E) :=
  mkMultipart (inl <$> cs) bf bd h p lim.

(** A piece of the data with what follows is inside the data, ends in the boundary, or has it all. *)
Lemma piece_cases (d rest x y : bytes) : x ++ y = d ++ DELIMITER ++ bd ++ rest ->
  (length (DELIMITER ++ bd ++ rest) <= length y \/ length y + 4 <= length (DELIMITER ++ bd ++ rest))%nat ->
  (exists d', d = x ++ d' /\ y = d' ++ DELIMITER ++ bd ++ rest)
  \/ (exists z, x = d ++ DELIMITER ++ z /\ z `prefix_of` bd /\ len z < len bd /\ y <> [])
  \/ (exists z, x = d ++ DELIMITER ++ bd ++ z /\ z ++ y = rest).
Proof.
  intros Heq Hcut. assert (Hlen : (length x + length y = length d + length (DELIMITER ++ bd ++ rest))%nat).
  { apply (f_equal length) in Heq. by rewrite !length_app in *. }
  destruct Hcut as [Hc|Hc].
  - left. destruct (app_eq_inv _ _ _ _ Heq) as [(k & -> & Hk)|(k & -> & ->)].
    + rewrite Hk, length_app in *. rewrite length_app in Hlen. assert (k = []) as -> by (destruct k; [done|simpl in *; lia]). exists [].
      by rewrite !app_nil_r in *.
    + by exists k.
  - right. rewrite app_assoc in Heq. destruct (app_eq_inv _ _ _ _ Heq) as [(k & -> & Hk)|(k & Hk & ->)].
    + destruct (app_eq_inv _ _ _ _ Hk) as [(j & Hj & ->)|(j & -> & ->)].
      * destruct (decide (j = [])) as [->|Hne].
        -- rewrite app_nil_r in Hj. subst k. right. exists []. by rewrite app_nil_r, <- app_assoc.
        -- left. exists k. rewrite <- app_assoc. split; [done|]. split; [by exists j|]. rewrite Hj, len_app. split.
           ++ destruct j; [done|]. rewrite len_cons. pose proof (len_nonneg j). lia.
           ++ by destruct j.
      * right. exists j. by rewrite <- app_assoc.
    + rewrite (length_app DELIMITER) in Hc. rewrite (length_app k) in *. change (length DELIMITER) with 4%nat in *.
      assert (k = []) as -> by (destruct k; [done|simpl in *; lia]). rewrite app_nil_r in Hk. destruct bd as [|b0 bd'] eqn:Eb.
      * right. exists []. by rewrite <- Hk, !app_nil_r.
      * left. exists []. rewrite <- Hk, app_nil_r. split; [done|]. split; [apply prefix_nil|]. split; [|done].
        rewrite len_nil, len_cons. pose proof (len_nonneg bd'). lia.
Qed.

(** *** Steps of the field decoder *)

Lemma read_item dec h c cs bf p :
  on_mp try_read_stream (dec, mp h (c :: cs) bf p) = ((dec, mp h cs bf p), Ok c).
Proof. done. Qed.
Lemma extend_item dec h cs bf p item : extend item (dec, mp h cs bf p) = ((dec, mp h cs (bf ++ item) p), Ok tt).
Proof. done. Qed.
Lemma split_buf_app dec h cs c r p : on_mp (split_buf_to (len c)) (dec, mp h cs (c ++ r) p) = ((dec, mp h cs r p), Ok c).
Proof. unfold on_mp, split_buf_to. simpl. by rewrite m_split_to_app. Qed.
Lemma split_bytes_app dec h cs bf p c r :
  split_bytes (c ++ r) (len c) (dec, mp h cs bf p) = ((dec, mp h cs (bf ++ r) p), Ok c).
Proof.
  unfold split_bytes. rewrite len_app.
  assert (H1 : slice 0 (len c) (c ++ r) = Some c) by (apply (slice_app_mid [] c r); done || lia).
  assert (H2 : slice (len c) (len c + len r) (c ++ r) = Some r).
  { pose proof (slice_app_mid c r [] (len c) (len c + len r) eq_refl eq_refl) as H2. by rewrite app_nil_r in H2. }
  unfold mbind at 1, M_bind, lift. rewrite H1. simpl. unfold mbind at 1, M_bind, lift. rewrite H2. done.
Qed.

Definition scanning (dec : FieldDecoder) : Prop := dec = StreamBegin \/ dec = StreamPossibleEnd.
Lemma drain_split dec dec' h cs c r p : scanning dec -> c ++ r <> [] ->
  try_find_split_idx (E := E) (c ++ r) bd dec = (dec', Ok (Some (len c))) ->
  drain_buf (dec, mp h cs (c ++ r) p) = ((dec', mp h cs r p), Ok (Some (Some c))).
Proof.
  intros Hd Hne Hs. unfold drain_buf. simpl buf. rewrite bool_decide_eq_false_2 by done.
  assert (Ho : on_dec (try_find_split_idx (c ++ r) bd) (dec, mp h cs (c ++ r) p) = ((dec', mp h cs (c ++ r) p), Ok (Some (len c)))).
  { unfold on_dec. simpl. by rewrite Hs. }
  destruct Hd as [-> | ->]; simpl fst; simpl mp_boundary; rewrite (bind_ok _ _ _ _ _ Ho), (bind_ok _ _ _ _ _ (split_buf_app _ _ _ _ _ _)); done.
Qed.
Lemma drain_empty dec h cs p : drain_buf (dec, mp h cs [] p) = ((dec, mp h cs [] p), Ok None).
Proof. done. Qed.
Lemma take_more h cs bf item p :
  take_item item (StreamPossibleEnd, mp h cs bf p) = ((StreamPossibleEnd, mp h cs (bf ++ item) p), Ok None).
Proof. done. Qed.
Lemma drain_wait dec dec' h cs bf p : scanning dec -> bf <> [] ->
  try_find_split_idx (E := E) bf bd dec = (dec', Ok None) ->
  drain_buf (dec, mp h cs bf p) = ((dec', mp h cs bf p), Ok None).
Proof.
  intros Hd Hne Hs. unfold drain_buf. simpl buf. rewrite bool_decide_eq_false_2 by done.
  assert (Ho : on_dec (try_find_split_idx bf bd) (dec, mp h cs bf p) = ((dec', mp h cs bf p), Ok None)).
  { unfold on_dec. simpl. by rewrite Hs. }
  destruct Hd as [-> | ->]; simpl fst; simpl mp_boundary; by rewrite (bind_ok _ _ _ _ _ Ho).
Qed.
Lemma take_split dec' h cs bf c r p :
  try_find_split_idx (E := E) (c ++ r) bd StreamBegin = (dec', Ok (Some (len c))) ->
  take_item (c ++ r) (StreamBegin, mp h cs bf p) = ((dec', mp h cs (bf ++ r) p), Ok (Some (Some c))).
Proof.
  intros Hs. unfold take_item. simpl fst. simpl mp_boundary.
  assert (Ho : on_dec (try_find_split_idx (c ++ r) bd) (StreamBegin, mp h cs bf p) = ((dec', mp h cs bf p), Ok (Some (len c)))).
  { unfold on_dec. simpl. by rewrite Hs. }
  by rewrite (bind_ok _ _ _ _ _ Ho), (bind_ok _ _ _ _ _ (split_bytes_app _ _ _ _ _ _ _)).
Qed.
Lemma take_wait dec' h cs bf item p :
  try_find_split_idx (E := E) item bd StreamBegin = (dec', Ok None) ->
  take_item item (StreamBegin, mp h cs bf p) = ((dec', mp h cs (bf ++ item) p), Ok None).
Proof.
  intros Hs. unfold take_item. simpl fst. simpl mp_boundary.
  assert (Ho : on_dec (try_find_split_idx item bd) (StreamBegin, mp h cs bf p) = ((dec', mp h cs bf p), Ok None)).
  { unfold on_dec. simpl. by rewrite Hs. }
  by rewrite (bind_ok _ _ _ _ _ Ho).
Qed.

(** *** A field up to the boundary *)

(** What a call returns while [d], then the boundary, are still to come. *)
Definition stream_step (h : hmap) (cs : list bytes) (bf : bytes) (p : bool) (d tl : bytes)
  (r : FieldDecoder * Multipart * outcome (MultipartError E) (option bytes)) : Prop :=
  exists c d' dec' cs' bf', r = ((dec', mp h cs' bf' p), Ok (Some c)) /\ d = c ++ d' /\ bf' ++ concat cs' = d' ++ tl
    /\ cs' `suffix_of` cs
    /\ ((dec' = StreamBegin /\ bf' = [] /\ (length cs' < length cs \/ length cs' = length cs /\ bf <> [])%nat)
         \/ (dec' = StreamEnd /\ d' = [] /\ bf' <> [])).

Lemma field_loop_stream fuel dec h cs bf p d rest :
  first_at DOUBLE_HYPHEN d = None -> bf ++ concat cs = d ++ DELIMITER ++ bd ++ rest ->
  cut_ok (length (DELIMITER ++ bd ++ rest)) cs ->
  (dec = StreamBegin \/ dec = StreamPossibleEnd /\ exists z, bf = d ++ DELIMITER ++ z) -> (length cs < fuel)%nat ->
  stream_step h cs bf p d (DELIMITER ++ bd ++ rest) (field_loop fuel (dec, mp h cs bf p)).
Proof.
  revert dec cs bf. induction fuel as [|fuel IH]; intros dec cs bf Hd Heq Hcut Hdec Hf; [lia|]. cbn [field_loop].
  destruct (decide (bf = [])) as [->|Hbf].
  - destruct Hdec as [-> |(_ & z & Hz)]; [|by destruct d].
    rewrite (bind_ok _ _ _ _ _ (drain_empty _ _ _ _)).
    destruct cs as [|c cs]; [by destruct d|]. rewrite (bind_ok _ _ _ _ _ (read_item _ _ _ _ _ _)).
    destruct (piece_cases d rest c (concat cs) Heq (Hcut 1%nat)) as [(d' & -> & Hy)|[(z & -> & Hz & Hzl & Hy)|(z & -> & Hy)]].
    + pose proof (first_at_front _ _ _ Hd) as Hc. pose proof (take_split StreamBegin h cs [] c [] p) as Ht. rewrite app_nil_r in Ht.
      rewrite (bind_ok _ _ _ _ _ (Ht (split_inside c bd _ Hc))). exists c, d', StreamBegin, cs, []. split_and!; try done.
      * by exists [c].
      * left. simpl. split_and!; try done. lia.
    + rewrite (bind_ok _ _ _ _ _ (take_wait _ h cs [] _ p (split_partial d z bd _ Hd Hz Hzl))). simpl app.
      destruct (IH StreamPossibleEnd cs (d ++ DELIMITER ++ z)) as (c & d' & dec' & cs' & bf' & Hr & Hd' & Hb & Hs & Hcase); try done.
      * by apply cut_ok_tail in Hcut.
      * right. split; [done|]. by exists z.
      * simpl in Hf. lia.
      * exists c, d', dec', cs', bf'. split_and!; try done; [by apply suffix_cons_r|].
        destruct Hcase as [(? & ? & Hl)|?]; [left|by right]. split_and!; try done. simpl. lia.
    + rewrite (bind_ok _ _ _ _ _ (take_split StreamEnd h cs [] d _ p (split_end d z bd _ Hd))).
      exists d, [], StreamEnd, cs, (DELIMITER ++ bd ++ z). split_and!; try done; [by rewrite app_nil_r|simpl; by rewrite <- Hy, !app_assoc| by exists [d ++ DELIMITER ++ bd ++ z]|by right].
  - assert (Hsc : scanning dec) by (destruct Hdec as [-> |[-> _]]; [by left|by right]).
    destruct (piece_cases d rest bf (concat cs) Heq (Hcut 0%nat)) as [(d' & -> & Hy)|[(z & -> & Hz & Hzl & Hy)|(z & -> & Hy)]].
    + pose proof (first_at_front _ _ _ Hd) as Hc. destruct Hdec as [-> |(_ & z & Hz)].
      * pose proof (drain_split StreamBegin StreamBegin h cs bf [] p Hsc) as Ht. rewrite app_nil_r in Ht.
        rewrite (bind_ok _ _ _ _ _ (Ht Hbf (split_inside bf bd _ Hc))). exists bf, d', StreamBegin, cs, []. split_and!; try done.
        left. split_and!; try done. by right.
      * apply (f_equal length) in Hz. rewrite !length_app in Hz. simpl in Hz. lia.
    + rewrite (bind_ok _ _ _ _ _ (drain_wait dec _ h cs _ p Hsc Hbf (split_partial d z bd _ Hd Hz Hzl))).
      destruct cs as [|c cs]; [done|]. rewrite (bind_ok _ _ _ _ _ (read_item _ _ _ _ _ _)).
      rewrite (bind_ok _ _ _ _ _ (take_more _ _ _ _ _)).
      destruct (IH StreamPossibleEnd cs ((d ++ DELIMITER ++ z) ++ c)) as (c' & d' & dec' & cs' & bf' & Hr & Hd' & Hb & Hs & Hcase); try done.
      * simpl in Heq. by rewrite <- app_assoc.
      * by apply cut_ok_tail in Hcut.
      * right. split; [done|]. exists (z ++ c). by rewrite <- !app_assoc.
      * simpl in Hf. lia.
      * exists c', d', dec', cs', bf'. split_and!; try done; [by apply suffix_cons_r|].
        destruct Hcase as [(? & ? & Hl)|?]; [left|by right]. split_and!; try done. simpl. lia.
    + rewrite (bind_ok _ _ _ _ _ (drain_split dec StreamEnd h cs d _ p Hsc Hbf (split_end d z bd _ Hd))).
      exists d, [], StreamEnd, cs, (DELIMITER ++ bd ++ z). split_and!; try done; [by rewrite app_nil_r|simpl; by rewrite <- Hy, !app_assoc|by right].
Qed.

Lemma field_try_next_loop dec h cs bf p :
  field_try_next (dec, mp h cs bf p) = field_loop (S (length cs)) (dec, mp h cs bf p).
Proof. unfold field_try_next. simpl. by rewrite length_fmap. Qed.
Lemma field_end dec h cs bf p : bf <> [] -> dec = StreamEnd \/ dec = Fixed 0 ->
  field_try_next (dec, mp h cs bf p) = ((dec, mp h cs bf false), Ok None).
Proof.
  intros Hne Hd. rewrite field_try_next_loop. cbn [field_loop].
  assert (Hdr : drain_buf (dec, mp h cs bf p) = ((dec, mp h cs bf false), Ok (Some None))).
  { unfold drain_buf. simpl buf. rewrite bool_decide_eq_false_2 by done. by destruct Hd as [-> | ->]. }
  by rewrite (bind_ok _ _ _ _ _ Hdr).
Qed.

(** The calls a field needs, at most. *)
Definition field_calls (cs : list bytes) (bf : bytes) : nat := 2 * length cs + (if decide (bf = []) then 0 else 1).

Lemma collect_stream fuel h cs bf p d rest :
  first_at DOUBLE_HYPHEN d = None -> bf ++ concat cs = d ++ DELIMITER ++ bd ++ rest ->
  cut_ok (length (DELIMITER ++ bd ++ rest)) cs -> (field_calls cs bf + 2 <= fuel)%nat ->
  exists cs' bf', collect fuel (StreamBegin, mp h cs bf p) = ((StreamEnd, mp h cs' bf' false), Ok d)
    /\ bf' ++ concat cs' = DELIMITER ++ bd ++ rest /\ cs' `suffix_of` cs.
Proof.
  revert cs bf d. induction fuel as [|fuel IH]; intros cs bf d Hd Heq Hcut Hf; [lia|]. cbn [collect].
  destruct (field_loop_stream (S (length cs)) StreamBegin h cs bf p d rest Hd Heq Hcut) as (c & d' & dec' & cs' & bf' & Hr & -> & Hb & Hs & Hcase);
    [by left|lia|]. rewrite <- field_try_next_loop in Hr. rewrite (bind_ok _ _ _ _ _ Hr).
  destruct Hcase as [(-> & -> & Hl)|(-> & -> & Hne)].
  - destruct (IH cs' [] d') as (cs2 & bf2 & Hc & Hb2 & Hs2); [by eapply first_at_back|done|by eapply cut_ok_suffix| |].
    { unfold field_calls in *. rewrite decide_True by done. destruct (decide (bf = [])) as [->|]; destruct Hl as [?|[? ?]]; done || lia. }
    rewrite (bind_ok _ _ _ _ _ Hc). exists cs2, bf2. split; [done|]. split; [done|by trans cs'].
  - destruct fuel as [|fuel]; [lia|]. cbn [collect].
    assert (Hc : (o ← field_try_next; match o with None => mret [] | Some c => rest ← collect fuel; mret (c ++ rest) end)
                   (StreamEnd, mp h cs' bf' p) = ((StreamEnd, mp h cs' bf' false), Ok [])).
    { rewrite (bind_ok _ _ _ _ _ (field_end StreamEnd h cs' bf' p Hne (or_introl eq_refl))). done. }
    rewrite (bind_ok _ _ _ _ _ Hc). by exists cs', bf'.
Qed.

(** *** A field of known length *)

Lemma fixed_step n h cs bf p d tl : 0 < n -> len d = n -> bf ++ concat cs = d ++ tl ->
  exists c d' cs' bf', field_try_next (Fixed n, mp h cs bf p) = ((Fixed (len d'), mp h cs' bf' p), Ok (Some c))
    /\ d = c ++ d' /\ bf' ++ concat cs' = d' ++ tl /\ cs' `suffix_of` cs
    /\ ((bf' = [] /\ (length cs' < length cs \/ length cs' = length cs /\ bf <> [])%nat) \/ (d' = [] /\ (length cs' <= length cs)%nat)).
Proof.
  intros Hn Hl Heq. rewrite field_try_next_loop. cbn [field_loop].
  assert (Hcut : forall x y, x ++ y = d ++ tl -> exists c r d', x = c ++ r /\ len c = Z.min n (len x) /\ d = c ++ d' /\ r ++ y = d' ++ tl /\ (r = [] \/ d' = [])).
  { intros x y Hxy. destruct (app_eq_inv _ _ _ _ Hxy) as [(k & -> & ->)|(k & -> & ->)].
    - exists d, k, []. rewrite len_app, app_nil_r. pose proof (len_nonneg k). split_and!; try done; [lia|by right].
    - exists x, [], k. rewrite app_nil_r. rewrite len_app in Hl. pose proof (len_nonneg k). split_and!; try done; [lia|by left]. }
  destruct (decide (bf = [])) as [->|Hbf].
  - rewrite (bind_ok _ _ _ _ _ (drain_empty _ _ _ _)). destruct cs as [|item cs].
    { exfalso. simpl in Heq. destruct d; [rewrite len_nil in Hl; lia|done]. }
    rewrite (bind_ok _ _ _ _ _ (read_item _ _ _ _ _ _)).
    destruct (Hcut item (concat cs) Heq) as (c & r & d' & -> & Hc & Hd & Hr & Hcase).
    assert (Ht : take_item (c ++ r) (Fixed n, mp h cs [] p) = ((Fixed (len d'), mp h cs r p), Ok (Some (Some c)))).
    { unfold take_item. simpl fst. destruct n as [|n|n]; [lia| |lia]. rewrite <- Hc. unfold mbind at 1, M_bind, set_dec. simpl snd.
      rewrite (bind_ok _ _ _ _ _ (split_bytes_app _ _ _ _ _ _ _)). simpl.
      rewrite Hd, len_app in Hl. by replace (Z.pos n - len c) with (len d') by lia. }
    rewrite (bind_ok _ _ _ _ _ Ht). exists c, d', cs, r. split_and!; try done; [by exists [c ++ r]|].
    destruct Hcase as [->|Hd']; [left|right]; (split; [done|]); simpl; lia.
  - destruct (Hcut bf (concat cs) Heq) as (c & r & d' & -> & Hc & Hd & Hr & Hcase).
    assert (Ht : drain_buf (Fixed n, mp h cs (c ++ r) p) = ((Fixed (len d'), mp h cs r p), Ok (Some (Some c)))).
    { unfold drain_buf. simpl buf. rewrite bool_decide_eq_false_2 by done. simpl fst. destruct n as [|n|n]; [lia| |lia].
      rewrite <- Hc. unfold mbind at 1, M_bind, set_dec. simpl snd. rewrite (bind_ok _ _ _ _ _ (split_buf_app _ _ _ _ _ _)). simpl.
      rewrite Hd, len_app in Hl. by replace (Z.pos n - len c) with (len d') by lia. }
    rewrite (bind_ok _ _ _ _ _ Ht). exists c, d', cs, r. split_and!; try done.
    destruct Hcase as [->|Hd']; [left|right]; (split; [done|]); [by right|lia].
Qed.

Lemma fixed_end h cs bf p tl : bf ++ concat cs = tl -> tl <> [] ->
  exists cs' bf', field_try_next (Fixed 0, mp h cs bf p) = ((Fixed 0, mp h cs' bf' false), Ok None)
    /\ bf' ++ concat cs' = tl /\ cs' `suffix_of` cs.
Proof.
  intros <- Hne. destruct (decide (bf = [])) as [->|Hbf].
  - destruct cs as [|item cs]; [done|]. exists cs, item. split_and!; [|done|by exists [item]].
    rewrite field_try_next_loop. cbn [field_loop]. rewrite (bind_ok _ _ _ _ _ (drain_empty _ _ _ _)).
    by rewrite (bind_ok _ _ _ _ _ (read_item _ _ _ _ _ _)).
  - exists cs, bf. split_and!; [|done|done]. apply field_end; [done|by right].
Qed.

Lemma collect_fixed fuel h cs bf p d tl : bf ++ concat cs = d ++ tl -> tl <> [] -> (field_calls cs bf + 2 <= fuel)%nat ->
  exists cs' bf', collect fuel (Fixed (len d), mp h cs bf p) = ((Fixed 0, mp h cs' bf' false), Ok d)
    /\ bf' ++ concat cs' = tl /\ cs' `suffix_of` cs.
Proof.
  intros Heq Hne Hf.
  assert (Hend : forall fuel cs bf, bf ++ concat cs = tl -> (0 < fuel)%nat ->
    exists cs' bf', collect fuel (Fixed 0, mp h cs bf p) = ((Fixed 0, mp h cs' bf' false), Ok []) /\ bf' ++ concat cs' = tl /\ cs' `suffix_of` cs).
  { intros [|f] cs0 bf0 H0 Hf0; [lia|]. cbn [collect]. destruct (fixed_end h cs0 bf0 p tl H0 Hne) as (cs' & bf' & Hr & Hb & Hs).
    rewrite (bind_ok _ _ _ _ _ Hr). by exists cs', bf'. }
  revert cs bf d Heq Hf. induction fuel as [|fuel IH]; intros cs bf d Heq Hf; [lia|].
  destruct (decide (d = [])) as [->|Hd]; [apply Hend; [done|lia]|]. cbn [collect].
  destruct (fixed_step (len d) h cs bf p d tl) as (c & d' & cs' & bf' & Hr & -> & Hb & Hs & Hcase); [|done|done|].
  { destruct d; [done|]. rewrite len_cons. pose proof (len_nonneg d). lia. }
  rewrite (bind_ok _ _ _ _ _ Hr).
  assert (Hc : exists cs2 bf2, collect fuel (Fixed (len d'), mp h cs' bf' p) = ((Fixed 0, mp h cs2 bf2 false), Ok d')
     /\ bf2 ++ concat cs2 = tl /\ cs2 `suffix_of` cs').
  { destruct Hcase as [(-> & Hl)|(-> & _)]; [apply IH; [done|]|apply Hend; [done|lia]].
    unfold field_calls in *. rewrite decide_True by done. destruct (decide (bf = [])) as [->|]; destruct Hl as [?|[? ?]]; done || lia. }
  destruct Hc as (cs2 & bf2 & Hc & Hb2 & Hs2). rewrite (bind_ok _ _ _ _ _ Hc). exists cs2, bf2. split; [done|]. split; [done|by trans cs'].
Qed.

(** *** Lines and header blocks *)

Definition CRLF : bytes := [13; 10].
Lemma mp_buf h cs bf p : buf (mp h cs bf p) = bf.
Proof. done. Qed.
Lemma hyphens_LF : 10 ∉ DOUBLE_HYPHEN.
Proof. apply (bool_decide_unpack _). vm_compute. exact I. Qed.
Lemma read_to_buf h c cs bf p : try_read_stream_to_buf (mp h (c :: cs) bf p) = (mp h cs (bf ++ c) p, Ok tt).
Proof. done. Qed.
Lemma no_overflow h cs bf p x : bf ++ concat cs = x -> len x <= lim -> buf_overflow (mp h cs bf p) = false.
Proof. intros <- Hl. unfold buf_overflow. simpl. rewrite len_app in Hl. pose proof (len_nonneg (concat cs)). apply Z.ltb_ge. lia. Qed.
Lemma advance_app h cs a b p : advance_buf (len a) (mp h cs (a ++ b) p) = (mp h cs b p, Ok tt).
Proof. unfold advance_buf. simpl. by rewrite m_advance_app. Qed.

(** Items are read until the whole line is in the buffer. *)
Lemma reads_line k fuel h cs bf p line x : bf ++ concat cs = line ++ CRLF ++ x -> 10 ∉ line -> len (line ++ CRLF ++ x) <= lim ->
  (length cs + k <= fuel)%nat ->
  exists cs' x' fuel', try_next_loop (E := E) fuel (mp h cs bf p) = try_next_loop fuel' (mp h cs' (line ++ CRLF ++ x') p)
    /\ x' ++ concat cs' = x /\ cs' `suffix_of` cs /\ (length cs' + k <= fuel')%nat.
Proof.
  intros Heq Hlf Hlim. revert bf fuel Heq. induction cs as [|c cs IH]; intros bf fuel Heq Hf.
  { exists [], x, fuel. simpl in Heq. rewrite app_nil_r in Heq. subst bf. by rewrite app_nil_r. }
  assert (Hfirst : first_at LF (bf ++ concat (c :: cs)) = Some (len line + 1)).
  { rewrite Heq. change (line ++ CRLF ++ x) with (line ++ [13] ++ 10 :: x). rewrite app_assoc, first_LF; [by rewrite len_app|].
    rewrite not_elem_of_app. split; [done|]. by intros ?%list_elem_of_singleton. }
  destruct (Z.lt_ge_cases (len bf) (len line + 2)) as [Hlt|Hge].
  - destruct fuel as [|fuel]; [simpl in Hf; lia|].
    assert (Hnone : find bf LF = None) by (rewrite find_first; eapply first_at_short; [exact Hfirst|]; change (len LF) with 1; lia).
    destruct (IH (bf ++ c) fuel) as (cs' & x' & fuel' & Hr & Hx & Hs & Hk); [by rewrite <- app_assoc|simpl in Hf; lia|].
    exists cs', x', fuel'. split_and!; [|done|by apply suffix_cons_r|done]. rewrite <- Hr.
    cbn [try_next_loop]. rewrite mp_buf. rewrite Hnone, (no_overflow _ _ _ _ _ Heq Hlim). by rewrite (bind_ok _ _ _ _ _ (read_to_buf _ _ _ _ _)).
  - rewrite app_assoc in Heq. destruct (app_eq_inv _ _ _ _ Heq) as [(j & -> & Hj)|(j & Hj & _)].
    + exists (c :: cs), j, fuel. rewrite <- app_assoc. by split_and!.
    + assert (Hz : len (line ++ CRLF) = len (bf ++ j)) by by rewrite Hj. rewrite !len_app in Hz. change (len CRLF) with 2 in Hz.
      assert (j = []) as -> by (apply len_zero_nil; pose proof (len_nonneg j); lia). rewrite app_nil_r in Hj. subst bf.
      exists (c :: cs), [], fuel. rewrite app_nil_r. split_and!; try done. by apply app_inv_head in Heq.
Qed.

Lemma line_read line x : 10 ∉ line ->
  find (line ++ CRLF ++ x) LF = Some (len line + 1)
  /\ read_line (E := E) bd (line ++ CRLF ++ x) (len line + 1) = read_line (E := E) bd (line ++ CRLF) (len line + 1)
  /\ slice 0 (len line) (line ++ CRLF) = Some line.
Proof.
  intros Hlf. assert (Hs : forall y, slice 0 (len line) (line ++ y) = Some line) by (intros y; apply (slice_app_mid [] line y); done || lia).
  split_and!; [|unfold read_line; replace (len line + 1 - 1) with (len line) by lia; by rewrite !Hs|apply Hs].
  rewrite find_first. change (line ++ CRLF ++ x) with (line ++ [13] ++ 10 :: x). rewrite app_assoc, first_LF; [by rewrite len_app|].
  rewrite not_elem_of_app. split; [done|]. by intros ?%list_elem_of_singleton.
Qed.

Lemma skip_line fuel h cs x p : try_next_loop (E := E) (S fuel) (mp h cs (CRLF ++ x) p) = try_next_loop fuel (mp h cs x p).
Proof.
  cbn [try_next_loop]. rewrite mp_buf. destruct (line_read [] x) as (Hf & Hr & _); [apply not_elem_of_nil|]. rewrite app_nil_l in Hf, Hr.
  rewrite Hf. unfold mbind at 1, M_bind, lift. simpl mp_boundary. rewrite Hr. simpl.
  by rewrite (bind_ok _ _ _ _ _ (advance_app h cs CRLF x p)).
Qed.
Lemma field_line fuel h cs x p : 10 ∉ bd ->
  try_next_loop (E := E) (S fuel) (mp h cs (DOUBLE_HYPHEN ++ bd ++ CRLF ++ x) p)
  = (f ← parse_field; mret (Some f)) (mp h cs x p).
Proof.
  intros Hlf. cbn [try_next_loop]. rewrite mp_buf. destruct (line_read (DOUBLE_HYPHEN ++ bd) x) as (Hf & Hr & Hs).
  { rewrite not_elem_of_app. split; [apply hyphens_LF|done]. }
  rewrite <- app_assoc in Hf, Hr. rewrite Hf. unfold mbind at 1, M_bind, lift. simpl mp_boundary. rewrite Hr.
  assert (Hl : read_line (E := E) bd ((DOUBLE_HYPHEN ++ bd) ++ CRLF) (len (DOUBLE_HYPHEN ++ bd) + 1) = Ok FieldLine).
  { unfold read_line. pose proof (len_nonneg (DOUBLE_HYPHEN ++ bd)) as Hn. rewrite (proj2 (Z.ltb_ge _ _)) by lia.
    replace (len (DOUBLE_HYPHEN ++ bd) + 1 - 1) with (len (DOUBLE_HYPHEN ++ bd)) by lia. rewrite Hs. cbn [unwrap mbind outcome_bind].
    rewrite len_app. change (len DOUBLE_HYPHEN) with 2. pose proof (len_nonneg bd). rewrite (proj2 (Z.eqb_neq _ _)), (proj2 (Z.ltb_ge _ _)) by lia.
    change (take 2 (DOUBLE_HYPHEN ++ bd)) with DOUBLE_HYPHEN. change (drop 2 (DOUBLE_HYPHEN ++ bd)) with bd. by rewrite !bool_decide_eq_true_2. }
  rewrite Hl. pose proof (advance_app h cs (DOUBLE_HYPHEN ++ bd ++ CRLF) x p) as Ha. rewrite <- !app_assoc in Ha.
  replace (len (DOUBLE_HYPHEN ++ bd) + 1 + 1) with (len (DOUBLE_HYPHEN ++ bd ++ CRLF)) by (rewrite !len_app; change (len CRLF) with 2; lia).
  by rewrite (bind_ok _ _ _ _ _ Ha).
Qed.
Lemma last_line fuel h cs x p : 10 ∉ bd ->
  try_next_loop (E := E) (S fuel) (mp h cs (DOUBLE_HYPHEN ++ bd ++ DOUBLE_HYPHEN ++ CRLF ++ x) p)
  = (mp h cs (DOUBLE_HYPHEN ++ bd ++ DOUBLE_HYPHEN ++ CRLF ++ x) p, Ok None).
Proof.
  intros Hlf. cbn [try_next_loop]. rewrite mp_buf. set (line := DOUBLE_HYPHEN ++ bd ++ DOUBLE_HYPHEN). destruct (line_read line x) as (Hf & Hr & Hs).
  { unfold line. rewrite !not_elem_of_app. pose proof hyphens_LF. done. }
  replace (DOUBLE_HYPHEN ++ bd ++ DOUBLE_HYPHEN ++ CRLF ++ x) with (line ++ CRLF ++ x) by (unfold line; by rewrite <- !app_assoc).
  rewrite Hf. unfold mbind at 1, M_bind, lift. simpl mp_boundary. rewrite Hr.
  assert (Hl : read_line (E := E) bd (line ++ CRLF) (len line + 1) = Ok LastLine).
  { unfold read_line. assert (Hn : len line = len bd + 4) by (unfold line; rewrite !len_app; change (len DOUBLE_HYPHEN) with 2; lia).
    pose proof (len_nonneg bd). rewrite (proj2 (Z.ltb_ge _ _)) by lia.
    replace (len line + 1 - 1) with (len line) by lia. rewrite Hs. cbn [unwrap mbind outcome_bind].
    rewrite Hn, (proj2 (Z.eqb_neq _ _)), (proj2 (Z.ltb_ge _ _)) by lia.
    change (take 2 line) with DOUBLE_HYPHEN. change (drop 2 line) with (bd ++ DOUBLE_HYPHEN). rewrite bool_decide_eq_true_2 by done. simpl.
    rewrite bool_decide_eq_false_2, (proj2 (Z.eqb_eq _ _)) by (done || (intros Hb%(f_equal len); rewrite len_app in Hb; change (len DOUBLE_HYPHEN) with 2 in Hb; lia)).
    done. }
  by rewrite Hl.
Qed.

Lemma reads_block fuel h cs bf p block x : bf ++ concat cs = block ++ x -> first_at DOUBLE_CR_LF block = Some (len block - 4) ->
  len (block ++ x) <= lim -> (length cs < fuel)%nat ->
  exists cs' x', parse_field_loop (E := E) fuel (mp h cs bf p) = field_of_block block (mp h cs' (block ++ x') p)
    /\ x' ++ concat cs' = x /\ cs' `suffix_of` cs.
Proof.
  intros Heq Hb Hlim. pose proof (first_at_app _ _ x _ Hb) as Hbx. pose proof (first_at_bound _ _ _ Hb) as Hbl.
  revert bf fuel Heq. induction cs as [|c cs IH]; intros bf fuel Heq Hf; (destruct fuel as [|fuel]; [lia|]);
    (destruct (Z.lt_ge_cases (len bf) (len block)) as [Hlt|Hge]).
  1: { simpl in Heq. rewrite app_nil_r in Heq. subst bf. rewrite len_app in Hlt. pose proof (len_nonneg x). lia. }
  2: { assert (Hnone : find bf DOUBLE_CR_LF = None).
       { rewrite find_first. apply (first_at_short _ _ (concat (c :: cs)) (len block - 4)); [by rewrite Heq|]. change (len DOUBLE_CR_LF) with 4. lia. }
       destruct (IH (bf ++ c) fuel) as (cs' & x' & Hr & Hx & Hs); [by rewrite <- app_assoc|simpl in Hf; lia|].
       exists cs', x'. split_and!; [|done|by apply suffix_cons_r]. rewrite <- Hr. cbn [parse_field_loop]. rewrite mp_buf, Hnone, (no_overflow _ _ _ _ _ Heq Hlim).
       by rewrite (bind_ok _ _ _ _ _ (read_to_buf _ _ _ _ _)). }
  all: destruct (app_eq_inv _ _ _ _ Heq) as [(j & -> & ->)|(j & Hj & Hy)];
    [|assert (j = []) as -> by (apply len_zero_nil; rewrite Hj, len_app in Hge; pose proof (len_nonneg j); lia);
      rewrite app_nil_r in Hj; subst bf; simpl in Hy; subst x].
  all: cbn [parse_field_loop]; rewrite mp_buf, find_first.
  - exists [], j. rewrite (first_at_app _ _ j _ Hb). unfold mbind at 1, M_bind, lift.
    rewrite (slice_app_mid [] block j) by (done || lia). done.
  - exists [], []. rewrite app_nil_r, Hb. unfold mbind at 1, M_bind, lift.
    pose proof (slice_app_mid [] block [] 0 (len block - 4 + 4) eq_refl ltac:(lia)) as Hs. rewrite app_nil_r in Hs. simpl in Hs. by rewrite Hs.
  - exists (c :: cs), j. rewrite (first_at_app _ _ j _ Hb). unfold mbind at 1, M_bind, lift.
    rewrite (slice_app_mid [] block j) by (done || lia). done.
  - exists (c :: cs), []. rewrite app_nil_r, Hb. unfold mbind at 1, M_bind, lift.
    pose proof (slice_app_mid [] block [] 0 (len block - 4 + 4) eq_refl ltac:(lia)) as Hs. rewrite app_nil_r in Hs. simpl in Hs. by rewrite Hs.
Qed.

(** *** Whole bodies *)

(** A field as its sender sees it. *)
Record Part : Type := mkPart { p_block : bytes; p_headers : hmap; p_name : option bytes; p_data : bytes }.
(** What the header parsers make of its header block; the data of a field without a length has
    no two hyphens in a row. *)
Definition part_ok (x : Part) : Prop :=
  first_at DOUBLE_CR_LF (p_block x) = Some (len (p_block x) - 4)
  /\ parse_headers (E := E) hm_empty (p_block x) = Ok (p_headers x)
  /\ check_headers (E := E) (p_headers x) = Ok tt
  /\ (exists cp, try_from_header (E := E) (p_headers x) = Ok cp /\ field_name (E := E) cp (p_headers x) = Ok (p_name x))
  /\ (content_length_opt (E := E) (p_headers x) = Ok (Some (len (p_data x)))
       \/ content_length_opt (E := E) (p_headers x) = Ok None /\ first_at DOUBLE_HYPHEN (p_data x) = None).

Fixpoint message (xs : list Part) : bytes :=
  DOUBLE_HYPHEN ++ bd ++
  match xs with
  | [] => DOUBLE_HYPHEN ++ CRLF
  | x :: xs => CRLF ++ p_block x ++ p_data x ++ CRLF ++ message xs
  end.
Definition message_tail (xs : list Part) : bytes :=
  match xs with [] => DOUBLE_HYPHEN ++ CRLF | x :: xs => CRLF ++ p_block x ++ p_data x ++ CRLF ++ message xs end.
Lemma message_unfold xs : message xs = DOUBLE_HYPHEN ++ bd ++ message_tail xs.
Proof. by destruct xs. Qed.

(** No stream item ends inside the four bytes before a boundary that ends a field without a length. *)
Fixpoint cuts_ok (xs : list Part) (cs : list bytes) : Prop :=
  match xs with
  | [] => True
  | x :: xs =>
      (content_length_opt (E := E) (p_headers x) = Ok None -> cut_ok (length (CRLF ++ message xs)) cs) /\ cuts_ok xs cs
  end.
Lemma cuts_ok_suffix xs cs cs' : cs' `suffix_of` cs -> cuts_ok xs cs -> cuts_ok xs cs'.
Proof.
  intros Hs. induction xs as [|x xs IH]; [done|]. intros [Hc Hcs]. split; [|by apply IH]. intros Hl. by apply (cut_ok_suffix _ cs), Hc.
Qed.

Lemma field_of_part x cs y : part_ok x -> exists f,
  field_of_block (p_block x) (mp hm_empty cs (p_block x ++ y) false) = (mp (p_headers x) cs y true, Ok f)
  /\ field_name (E := E) (cp f) (p_headers x) = Ok (p_name x)
  /\ (decoder f = Fixed (len (p_data x))
       \/ content_length_opt (E := E) (p_headers x) = Ok None /\ decoder f = StreamBegin /\ first_at DOUBLE_HYPHEN (p_data x) = None).
Proof.
  intros (_ & Hp & Hc & (c & Hcp & Hn) & Hl). unfold field_of_block. simpl mp_headers. rewrite Hp.
  assert (Hm : modify (F := MultipartError E) (with_headers (p_headers x)) (mp hm_empty cs (p_block x ++ y) false)
               = (mp (p_headers x) cs (p_block x ++ y) false, Ok tt)) by done.
  rewrite (bind_ok _ _ _ _ _ Hm), (bind_ok _ _ _ _ _ (advance_app _ _ _ _ _)). unfold mbind at 1, M_bind, lift. rewrite Hcp.
  unfold mbind at 1, M_bind. rewrite Hc. unfold mbind at 1, M_bind.
  destruct Hl as [Hl|[Hl Hd]]; rewrite Hl; eexists; (split; [done|]); (split; [done|]); [by left|by right].
Qed.

Lemma read_part fuel x cs bf f tl : part_ok x -> bf ++ concat cs = p_data x ++ CRLF ++ DOUBLE_HYPHEN ++ bd ++ tl ->
  field_name (E := E) (cp f) (p_headers x) = Ok (p_name x) ->
  (decoder f = Fixed (len (p_data x))
   \/ cut_ok (length (CRLF ++ DOUBLE_HYPHEN ++ bd ++ tl)) cs /\ decoder f = StreamBegin /\ first_at DOUBLE_HYPHEN (p_data x) = None) ->
  (field_calls cs bf + 2 <= fuel)%nat ->
  exists cs' bf', read_field fuel f (mp (p_headers x) cs bf true) = (mp hm_empty cs' bf' false, Ok (p_headers x, p_name x, p_data x))
    /\ bf' ++ concat cs' = CRLF ++ DOUBLE_HYPHEN ++ bd ++ tl /\ cs' `suffix_of` cs.
Proof.
  intros Hok Heq Hn Hdec Hf.
  assert (Hc : exists dec cs' bf', collect fuel (decoder f, mp (p_headers x) cs bf true) = ((dec, mp (p_headers x) cs' bf' false), Ok (p_data x))
     /\ bf' ++ concat cs' = CRLF ++ DOUBLE_HYPHEN ++ bd ++ tl /\ cs' `suffix_of` cs).
  { destruct Hdec as [-> |(Hcut & -> & Hd)].
    - exists (Fixed 0). by apply collect_fixed.
    - exists StreamEnd. by apply collect_stream. }
  destruct Hc as (dec & cs' & bf' & Hc & Hb & Hs). exists cs', bf'. split; [|done]. unfold read_field. rewrite Hc. simpl mp_headers.
  unfold mbind at 1, M_bind, lift. by rewrite Hn.
Qed.

Lemma stream_size_items (cs : list bytes) : stream_size (E := E) (inl <$> cs) = (length (concat cs) + length cs)%nat.
Proof.
  induction cs as [|c cs IH]; [done|]. change (S (length c) + stream_size (E := E) (inl <$> cs) = length (c ++ concat cs) + S (length cs))%nat.
  rewrite IH, length_app. lia.
Qed.

(** The next line, after the end of a field or at the start. *)
Lemma next_line h cs bf pre line x : pre = [] \/ pre = CRLF -> 10 ∉ line ->
  bf ++ concat cs = pre ++ line ++ CRLF ++ x -> len (pre ++ line ++ CRLF ++ x) <= lim ->
  exists cs' x' fuel, try_next (E := E) (mp h cs bf false) = try_next_loop (S fuel) (mp h cs' (line ++ CRLF ++ x') false)
    /\ x' ++ concat cs' = x /\ cs' `suffix_of` cs.
Proof.
  intros Hpre Hlf Heq Hlim.
  change (try_next (mp h cs bf false)) with
    (try_next_loop (E := E) (S (length (buf (mp h cs bf false)) + stream_size (stream (mp h cs bf false)))) (mp h cs bf false)).
  set (fuel := S (length (buf (mp h cs bf false)) + stream_size (stream (mp h cs bf false)))).
  assert (Hfuel : (length cs + 2 <= fuel)%nat).
  { unfold fuel. simpl stream. rewrite stream_size_items, mp_buf. apply (f_equal length) in Heq. rewrite !length_app in Heq.
    change (length CRLF) with 2%nat in Heq. lia. }
  clearbody fuel. destruct Hpre as [-> | ->].
  - destruct (reads_line 1 fuel h cs bf false line x Heq Hlf Hlim) as (cs' & x' & fuel' & Hr & Hx & Hs & Hk); [lia|].
    destruct fuel' as [|fuel']; [lia|]. exists cs', x', fuel'. split_and!; [exact Hr|done|done].
  - destruct (reads_line 2 fuel h cs bf false [] (line ++ CRLF ++ x) Heq) as (cs1 & x1 & fuel1 & Hr1 & Hx1 & Hs1 & Hk1); [apply not_elem_of_nil|exact Hlim|lia|].
    destruct fuel1 as [|fuel1]; [lia|]. rewrite app_nil_l in Hr1. rewrite skip_line in Hr1.
    destruct (reads_line 1 fuel1 h cs1 x1 false line x Hx1 Hlf) as (cs2 & x2 & fuel2 & Hr2 & Hx2 & Hs2 & Hk2); [|lia|].
    { rewrite len_app in Hlim. change (len CRLF) with 2 in Hlim. rewrite !len_app in *. lia. }
    destruct fuel2 as [|fuel2]; [lia|]. exists cs2, x2, fuel2. split_and!; [by rewrite Hr1|done|by trans cs1].
Qed.

Lemma session_message fuel ff xs cs bf pre : 10 ∉ bd -> Forall part_ok xs -> pre = [] \/ pre = CRLF ->
  bf ++ concat cs = pre ++ message xs -> len (pre ++ message xs) <= lim -> cuts_ok xs cs ->
  (length xs < fuel)%nat -> (2 * length cs + 3 <= ff)%nat ->
  exists m, session fuel ff (mp hm_empty cs bf false) = (m, Ok ((fun x => (p_headers x, p_name x, p_data x)) <$> xs)).
Proof.
  intros Hbd. revert fuel cs bf pre. induction xs as [|x xs IH]; intros [|fuel] cs bf pre Hok Hpre Heq Hlim Hcuts Hf Hff; [simpl in Hf; lia| |simpl in Hf; lia|]; cbn [session message] in *.
  - destruct (next_line hm_empty cs bf pre (DOUBLE_HYPHEN ++ bd ++ DOUBLE_HYPHEN) [] Hpre) as (cs' & x' & f' & Hr & Hx & Hs).
    { rewrite !not_elem_of_app. pose proof hyphens_LF. done. }
    { by rewrite <- !app_assoc, app_nil_r. }
    { by rewrite <- !app_assoc, app_nil_r. }
    rewrite <- !app_assoc, last_line in Hr by done. rewrite (bind_ok _ _ _ _ _ Hr). by eexists.
  - apply Forall_cons in Hok as [Hx Hok]. destruct Hcuts as [Hcut Hcuts].
    destruct (next_line hm_empty cs bf pre (DOUBLE_HYPHEN ++ bd) (p_block x ++ p_data x ++ CRLF ++ message xs) Hpre) as (cs1 & x1 & f1 & Hr & Hx1 & Hs1).
    { rewrite not_elem_of_app. split; [apply hyphens_LF|done]. }
    { by rewrite <- !app_assoc. }
    { by rewrite <- !app_assoc. }
    rewrite <- !app_assoc, field_line in Hr by done.
    destruct (reads_block (S (length (stream (mp hm_empty cs1 x1 false)))) hm_empty cs1 x1 false (p_block x) (p_data x ++ CRLF ++ message xs) Hx1)
      as (cs2 & x2 & Hp & Hx2 & Hs2).
    { apply Hx. }
    { rewrite !len_app in *. change (len CRLF) with 2 in *. pose proof (len_nonneg pre). pose proof (len_nonneg bd). pose proof (len_nonneg DOUBLE_HYPHEN). lia. }
    { simpl. rewrite length_fmap. lia. }
    destruct (field_of_part x cs2 x2 Hx) as (f & Hfield & Hname & Hdec). rewrite Hfield in Hp.
    change (parse_field (mp hm_empty cs1 x1 false) = (mp (p_headers x) cs2 x2 true, Ok f)) in Hp.
    rewrite (bind_ok _ _ _ _ _ Hp) in Hr. rewrite (bind_ok _ _ _ _ _ Hr). rewrite message_unfold in Hx2.
    assert (Hs12 : cs2 `suffix_of` cs) by by trans cs1. pose proof (suffix_length _ _ Hs12) as Hl2.
    destruct (read_part ff x cs2 x2 f (message_tail xs) Hx Hx2 Hname) as (cs3 & x3 & Hread & Hx3 & Hs3).
    { destruct Hdec as [?|(Hl & ? & ?)]; [by left|right]. split; [|done]. rewrite <- message_unfold. eapply cut_ok_suffix; [exact Hs12|by apply Hcut]. }
    { unfold field_calls. destruct (decide (x2 = [])); lia. }
    rewrite (bind_ok _ _ _ _ _ Hread). assert (Hs13 : cs3 `suffix_of` cs) by by trans cs2. pose proof (suffix_length _ _ Hs13).
    destruct (IH fuel cs3 x3 CRLF Hok) as (m & Hm); [by right|by rewrite message_unfold| |by eapply cuts_ok_suffix|simpl in Hf; lia|lia|].
    { rewrite !len_app in *. change (len CRLF) with 2 in *. pose proof (len_nonneg pre). pose proof (len_nonneg bd). pose proof (len_nonneg DOUBLE_HYPHEN).
      pose proof (len_nonneg (p_block x)). pose proof (len_nonneg (p_data x)). lia. }
    rewrite (bind_ok _ _ _ _ _ Hm). by eexists.
Qed.
End Pieces.

(** ** The parser always answers *)

Lemma slice_Some_iff {A} a b (l : list A) : is_Some (slice a b l) <-> 0 <= a <= b /\ b <= len l.
Proof. split; [intros [s Hs]; by apply slice_Some in Hs as (? & ? & _)|intros [? ?]; by apply slice_in_range]. Qed.
Lemma slice_ok_or {E A} a b (l : list A) : 0 <= a <= b -> b <= len l -> exists s, unwrap (E := E) (slice a b l) = Ok s.
Proof. intros H1 H2. destruct (slice_in_range l a b H1 H2) as [s Hs]. exists s. by rewrite Hs. Qed.

Section Total.
Context `{HM : HeaderMap} `{!MpParse} `{MC : Memchr} {E : Type}.
(** What the parsers promise: they do not panic, and the fields they find convert. *)
Context (Hparse : forall l, httparse_headers l <> Panic)
        (Hconv : forall l hs n v, httparse_headers l = Ok (Some hs) -> (n, v) ∈ hs -> is_Some (name_try_from n) /\ is_Some (value_try_from v)).

Definition decoder_ok (d : FieldDecoder) : Prop := match d with Fixed n => 0 <= n | _ => True end.

Lemma split_total item b d : decoder_ok d ->
  match try_find_split_idx (E := E) item b d with
  | (d', Ok (Some i)) => decoder_ok d' /\ 0 <= i <= len item
  | (d', Ok None) => decoder_ok d'
  | (_, Err _) => True
  | (_, Panic) => False
  end.
Proof.
  intros Hd. unfold try_find_split_idx. rewrite find_first. destruct (first_at DOUBLE_HYPHEN item) as [i|] eqn:Hi.
  - apply first_at_bound in Hi. change (len DOUBLE_HYPHEN) with 2 in *. pose proof (len_nonneg b).
    destruct (slice_in_range item (i + 2) (i + 2 + Z.min (len item - (i + 2)) (len b))) as [part ->]; [lia|lia|].
    destruct (starts_with part b); simpl; [|split; [done|lia]]. destruct (Z.ltb_spec (len part) (len b)); [done|].
    destruct (Z.leb_spec 2 i); [|done]. simpl. split; [done|lia].
  - split; [done|]. pose proof (len_nonneg item). lia.
Qed.

Abbreviation items s := (length (stream s.2)) (only parsing).
Definition live (n : nat) (s : FieldDecoder * Multipart (E := E)) : Prop := decoder_ok s.1 /\ items s = n.

Lemma split_triple n item b :
  triple (live n) (on_dec (try_find_split_idx (E := E) item b)) (fun o s => live n s /\ forall i, o = Some i -> 0 <= i <= len item).
Proof.
  intros [d m] [Hd Hn]. unfold on_dec. simpl in *. pose proof (split_total item b d Hd) as Hs.
  destruct (try_find_split_idx item b d) as [d' [[i|]|e|]]; [|done|done|done]. destruct Hs as [Hd' Hi]. split; [by split|]. by intros ? [= ->].
Qed.

Lemma drain_triple n : triple (live n) (drain_buf (E := E)) (fun _ => live n).
Proof.
  intros [d m] [Hd Hn]. unfold drain_buf. simpl snd. simpl fst. case_bool_decide as Hb; [done|].
  assert (Hsplit : (match (o ← on_dec (try_find_split_idx (E := E) (buf m) (mp_boundary m));
         match o with Some at_ => chunk ← on_mp (split_buf_to at_); mret (Some (Some chunk)) | None => mret None end) (d, m) with
     | (s', Ok a) => live n s' | (_, Err _) => True | (_, Panic) => False end)).
  { unfold mbind at 1, M_bind. unfold on_dec. simpl fst. simpl snd. pose proof (split_total (buf m) (mp_boundary m) d Hd) as Hs.
    destruct (try_find_split_idx (buf m) (mp_boundary m) d) as [d' [[i|]|e|]]; [|done|done|done]. destruct Hs as [Hd' Hi].
    unfold mbind, M_bind, on_mp, split_buf_to, m_split_to. simpl. rewrite (proj2 (Z.leb_le _ _)) by lia. done. }
  destruct d as [k| | |]; [|exact Hsplit|exact Hsplit|done].
  assert (Hk : forall k', 0 <= k' -> match (set_dec (Fixed (k' - Z.min k' (len (buf m)))) ;; chunk ← on_mp (split_buf_to (Z.min k' (len (buf m)))); mret (Some (Some chunk))) (Fixed k, m) with
     | (s', Ok a) => live n s' | (_, Err _) => True | (_, Panic) => False end).
  { intros k' Hk'. unfold mbind, M_bind, set_dec, on_mp, split_buf_to, m_split_to. simpl. rewrite (proj2 (Z.leb_le _ _)) by lia. split; [|done]. simpl. lia. }
  destruct k; [done|apply (Hk (Z.pos p)); lia|simpl in Hd; lia].
Qed.

Lemma split_bytes_triple n item i : 0 <= i <= len item -> triple (live n) (split_bytes (E := E) item i) (fun _ => live n).
Proof.
  intros Hi [d m] Hl. unfold split_bytes. destruct (slice_ok_or (E := MultipartError E) 0 i item) as [c Hc]; [lia|lia|].
  destruct (slice_ok_or (E := MultipartError E) i (len item) item) as [r Hr]; [lia|lia|].
  unfold mbind at 1, M_bind, lift. rewrite Hc. unfold mbind at 1, M_bind. rewrite Hr. exact Hl.
Qed.
Lemma take_triple n item : triple (live n) (take_item (E := E) item) (fun _ => live n).
Proof.
  intros [d m] Hl. pose proof Hl as [Hd Hn]. unfold take_item. simpl fst. simpl snd. simpl in Hd. destruct d as [k| | |].
  - assert (Hk : forall k', 0 <= k' -> match (set_dec (Fixed (k' - Z.min k' (len item))) ;; chunk ← split_bytes (E := E) item (Z.min k' (len item)); mret (Some (Some chunk))) (Fixed k, m) with
     | (s', Ok a) => live n s' | (_, Err _) => True | (_, Panic) => False end).
    { intros k' Hk'. unfold mbind at 1, M_bind, set_dec. cbn iota beta.
      refine (triple_bind (live n) (split_bytes (E := E) item (Z.min k' (len item))) _ (fun _ => live n) (fun _ => live n) _ _ _ _).
      - apply split_bytes_triple. pose proof (len_nonneg item). lia.
      - intros a s Hs. exact Hs.
      - split; [simpl; lia|exact Hn]. }
    destruct k; [exact Hl|apply (Hk (Z.pos p)); lia|simpl in Hd; lia].
  - refine (triple_bind (live n) _ _ _ (fun _ => live n) (split_triple n item (mp_boundary m)) _ (StreamBegin, m) Hl).
    intros [i|] s [Hs Hi]; [|exact Hs].
    refine (triple_bind (live n) _ _ _ (fun _ => live n) (split_bytes_triple n item i (Hi i eq_refl)) _ s Hs). intros a s' Hs'. exact Hs'.
  - exact Hl.
  - exact Hl.
Qed.
Lemma read_triple n : triple (live n) (on_mp (try_read_stream (E := E))) (fun _ s => exists k, n = S k /\ live k s).
Proof.
  intros [d m] [Hd Hn]. unfold on_mp, try_read_stream. simpl in *. destruct (stream m) as [|[b|e] l]; [done| |done].
  exists (length l). split; [by rewrite <- Hn|]. by split.
Qed.
Lemma field_loop_triple fuel n : (n < fuel)%nat -> triple (live n) (field_loop (E := E) fuel) (fun _ s => decoder_ok s.1).
Proof.
  revert n. induction fuel as [|fuel IH]; intros n Hn; [lia|]. cbn [field_loop]. eapply triple_bind; [apply drain_triple|].
  intros [r|]; [intros s Hs; by apply Hs|]. eapply triple_bind; [apply read_triple|]. intros item s (k & -> & Hk).
  refine (triple_bind (live k) _ _ _ _ (take_triple k item) _ s Hk). intros [r|]; [intros s' Hs'; by apply Hs'|]. apply IH. lia.
Qed.


Lemma append_headers_total (hdrs : list (bytes * bytes)) h :
  (forall n v, (n, v) ∈ hdrs -> is_Some (name_try_from n) /\ is_Some (value_try_from v)) -> append_headers (E := E) h hdrs <> Panic.
Proof.
  revert h. induction hdrs as [|[n v] hdrs IH]; intros h Hc; [done|]. cbn [append_headers].
  destruct (Hc n v) as [[n' ->] [v' ->]]; [by left|]. simpl. apply IH. intros a b Hab. apply Hc. by right.
Qed.
Lemma parse_headers_total h l : hm_is_empty h = true -> parse_headers (E := E) h l <> Panic.
Proof.
  intros Hh. unfold parse_headers. pose proof (Hparse l) as Hp. destruct (httparse_headers l) as [[hs|]|e|] eqn:Hl; [|done|done|done]. simpl. rewrite Hh.
  apply append_headers_total. intros n v. by apply (Hconv l).
Qed.
Lemma find_range hay needle : forall i, find hay needle = Some i -> 0 <= i /\ i + len needle <= len hay.
Proof. intros i. rewrite find_first. apply first_at_bound. Qed.
Lemma indice_total hay needle : indice_from_slice (E := E) hay needle <> Panic.
Proof.
  unfold indice_from_slice. destruct (find hay needle) as [i|] eqn:Hi; [|done]. apply find_range in Hi. destruct (_ && _ && _); [done|].
  pose proof (len_nonneg needle). destruct (slice_in_range hay (i + len needle) (len hay)) as [r Hr]; [lia|lia|]. rewrite Hr. cbn [unwrap mbind outcome_bind].
  pose proof (len_nonneg r). assert (Hd : 0 <= default (len r) (find r (bs ";")) <= len r).
  { destruct (find r (bs ";")) as [j|] eqn:Hj; simpl; [|lia]. apply find_range in Hj. change (len (bs ";")) with 1 in Hj. lia. }
  destruct (slice_in_range r 0 (default (len r) (find r (bs ";")))) as [q Hq]; [lia|lia|]. rewrite Hq. cbn [unwrap mbind outcome_bind].
  destruct (starts_with [34] q) eqn:Hs; [|done]. apply starts_with_prefix in Hs as [k ->].
  destruct (slice_in_range ([34] ++ k) 1 (len ([34] ++ k))) as [z Hz]; [rewrite len_app; pose proof (len_nonneg k); change (len [34]) with 1; lia|lia|].
  rewrite Hz. done.
Qed.
Lemma try_from_header_total h : try_from_header (E := E) h <> Panic.
Proof.
  unfold try_from_header. destruct (hm_get CONTENT_DISPOSITION h) as [v|]; [|done]. cbn [ok_or mbind outcome_bind].
  destruct (starts_with FORM v); [|done]. cbn [negb]. unfold from_slice.
  pose proof (indice_total v NAME). destruct (indice_from_slice v NAME); [|done|done]. cbn [mbind outcome_bind].
  pose proof (indice_total v FILE_NAME). by destruct (indice_from_slice v FILE_NAME).
Qed.
Lemma content_length_total h : match content_length_opt (E := E) h with Ok (Some n) => 0 <= n | Panic => False | _ => True end.
Proof.
  unfold content_length_opt. destruct (hm_get Hdr.CONTENT_LENGTH h) as [v|]; [|done]. destruct (to_str v) as [s|]; [|done]. simpl.
  destruct (parse_u64 s) as [n|] eqn:Hn; [|done]. by apply parse_u64_nonneg in Hn.
Qed.

(** What a returned field satisfies, and what the steps of the outer loops leave. *)
Definition field_ok (f : Field) : Prop := decoder_ok (decoder f).
Definition work (m : Multipart (E := E)) : nat := length (buf m) + stream_size (stream m).
Definition cleared (m : Multipart (E := E)) : Prop := hm_is_empty (mp_headers m) = true.
Lemma field_of_block_total m block : cleared m -> len block <= len (buf m) ->
  match field_of_block (E := E) block m with (_, Ok f) => field_ok f | (_, Err _) => True | (_, Panic) => False end.
Proof.
  intros Hcl Hl. unfold field_of_block. pose proof (parse_headers_total (mp_headers m) block Hcl) as Hp.
  destruct (parse_headers (mp_headers m) block) as [h|e|]; [|done|done]. unfold mbind at 1, M_bind, modify.
  unfold mbind at 1, M_bind, advance_buf, m_advance. simpl buf. rewrite (proj2 (Z.leb_le _ _)) by done.
  unfold mbind at 1, M_bind, lift. pose proof (try_from_header_total h). destruct (try_from_header h) as [c|e|]; [|done|done].
  unfold mbind at 1, M_bind. unfold check_headers. destruct (bool_decide _); [done|].
  unfold mbind at 1, M_bind. pose proof (content_length_total h) as Hc. destruct (content_length_opt h) as [[n|]|e|]; done.
Qed.
Lemma to_buf_spec m : match try_read_stream_to_buf (E := E) m with
  | (m', Ok _) => (work m' < work m)%nat /\ (length (stream m) = S (length (stream m')))%nat /\ mp_headers m' = mp_headers m | (_, Err _) => True | (_, Panic) => False end.
Proof.
  unfold try_read_stream_to_buf, try_read_stream, mbind, M_bind. destruct (stream m) as [|[b|e] l] eqn:Hs; [done| |done].
  unfold modify, work. simpl. rewrite Hs, length_app. change (stream_size (E := E) (inl b :: l)) with (S (length b) + stream_size l)%nat. split; [lia|]. split; [lia|done].
Qed.
Lemma parse_field_loop_total fuel m : cleared m -> (length (stream m) < fuel)%nat ->
  match parse_field_loop (E := E) fuel m with (_, Ok f) => field_ok f | (_, Err _) => True | (_, Panic) => False end.
Proof.
  revert m. induction fuel as [|fuel IH]; intros m Hcl Hf; [lia|]. cbn [parse_field_loop]. destruct (find (buf m) DOUBLE_CR_LF) as [i|] eqn:Hi.
  - apply find_range in Hi. change (len DOUBLE_CR_LF) with 4 in Hi. destruct (slice_in_range (buf m) 0 (i + 4)) as [b Hb]; [lia|lia|].
    unfold mbind at 1, M_bind, lift. rewrite Hb. simpl. apply field_of_block_total; [done|]. apply slice_Some in Hb as (_ & _ & Hl & _). lia.
  - destruct (buf_overflow m); [done|]. pose proof (to_buf_spec m) as Ht. unfold mbind at 1, M_bind.
    destruct (try_read_stream_to_buf m) as [m' [u|e|]]; [|done|done]. destruct Ht as (_ & Ht & Hh). apply IH; [unfold cleared; by rewrite Hh|lia].
Qed.
Lemma read_line_total b bf i : find bf LF = Some i ->
  exists line, read_line (E := E) b bf i = Ok line /\ 0 <= i + 1 <= len bf.
Proof.
  intros Hi. apply find_range in Hi. change (len LF) with 1 in Hi. unfold read_line. destruct (Z.ltb_spec i 1); [by eexists; split; [done|lia]|].
  destruct (slice_in_range bf 0 (i - 1)) as [l Hl]; [lia|lia|]. rewrite Hl. simpl. repeat case_match; eexists; (split; [done|lia]).
Qed.
Lemma try_next_loop_total fuel m : cleared m -> (work m < fuel)%nat ->
  match try_next_loop (E := E) fuel m with
  | (_, Ok (Some f)) => field_ok f | (m', Ok None) => cleared m' | (_, Err _) => True | (_, Panic) => False end.
Proof.
  revert m. induction fuel as [|fuel IH]; intros m Hcl Hf; [lia|]. cbn [try_next_loop].
  set (more := (fun m => if buf_overflow m then (m, Err BufferOverflow) else (try_read_stream_to_buf ;; try_next_loop (E := E) fuel) m) : M Multipart _ _).
  assert (Hmore : match more m with (_, Ok (Some f)) => field_ok f | (m', Ok None) => cleared m' | (_, Err _) => True | (_, Panic) => False end).
  { unfold more. destruct (buf_overflow m); [done|]. pose proof (to_buf_spec m) as Ht. unfold mbind, M_bind.
    destruct (try_read_stream_to_buf m) as [m' [u|e|]]; [|done|done]. destruct Ht as (Ht & _ & Hh). apply IH; [unfold cleared; by rewrite Hh|lia]. }
  destruct (find (buf m) LF) as [i|] eqn:Hi; [|exact Hmore].
  destruct (read_line_total (mp_boundary m) (buf m) i Hi) as (line & Hline & Hrange). unfold mbind at 1, M_bind, lift. rewrite Hline.
  assert (Hadv : forall (k : M Multipart (MultipartError E) (option Field)), (advance_buf (i + 1) ;; k) m = k (with_buf (drop (Z.to_nat (i + 1)) (buf m)) m)).
  { intros k. unfold mbind, M_bind, advance_buf, m_advance. by rewrite (proj2 (Z.leb_le _ _)) by lia. }
  destruct line; [rewrite Hadv|exact Hmore|rewrite Hadv|done|done].
  - apply IH; [done|]. apply find_range in Hi. change (len LF) with 1 in Hi. unfold work in *. simpl. rewrite length_drop. unfold len in *. lia.
  - unfold mbind, M_bind, parse_field. set (m1 := with_buf _ m).
    pose proof (parse_field_loop_total (S (length (stream m1))) m1 Hcl ltac:(lia)) as Hp. by destruct (parse_field_loop _ m1) as [m2 [f|e|]].
Qed.
Lemma consume_loop_total fuel n : (n < fuel)%nat -> triple (fun s => live n s /\ cleared s.2) (consume_loop (E := E) fuel) (fun _ s => cleared s.2).
Proof.
  revert n. induction fuel as [|fuel IH]; intros n Hf [d m] [Hl Hcl]; [lia|]. cbn [consume_loop]. unfold mbind at 1, M_bind, on_dec. simpl fst. simpl snd.
  destruct Hl as [Hd Hn]. simpl in Hd, Hn, Hcl. pose proof (split_total (buf m) (mp_boundary m) d Hd) as Hs.
  assert (Hrest : forall d' m', decoder_ok d' -> length (stream m') = n -> cleared m' ->
     match (s' ← get; match s'.1 with StreamEnd => on_mp (modify (with_pending false)) | _ => on_mp try_read_stream_to_buf ;; consume_loop (E := E) fuel end) (d', m') with
     | (s', Ok _) => cleared s'.2 | (_, Err _) => True | (_, Panic) => False end).
  { intros d' m' Hd' Hm' Hc'. unfold mbind at 1, M_bind, get. simpl fst.
    assert (Hread : match (on_mp try_read_stream_to_buf ;; consume_loop (E := E) fuel) (d', m') with (s', Ok _) => cleared s'.2 | (_, Err _) => True | (_, Panic) => False end).
    { unfold mbind, M_bind, on_mp. simpl snd. pose proof (to_buf_spec m') as Ht. destruct (try_read_stream_to_buf m') as [m2 [u|e|]]; [|done|done].
      destruct Ht as (_ & Ht & Hh). simpl fst. assert (Hc2 : cleared m2) by (unfold cleared; by rewrite Hh).
      pose proof (IH (length (stream m2)) ltac:(lia) (d', m2) (conj (conj Hd' eq_refl) Hc2)) as H2. by destruct (consume_loop fuel (d', m2)) as [? []]. }
    destruct d'; [exact Hread|exact Hread|exact Hread|done]. }
  destruct (try_find_split_idx (buf m) (mp_boundary m) d) as [d' [[i|]|e|]]; [| |done|done].
  - destruct Hs as [Hd' Hi]. unfold mbind at 1, M_bind, on_mp, advance_buf, m_advance. simpl snd. rewrite (proj2 (Z.leb_le _ _)) by lia. simpl fst.
    exact (Hrest d' (with_buf (drop (Z.to_nat i) (buf m)) m) Hd' Hn Hcl).
  - unfold mbind at 1, M_bind, mret, M_ret. exact (Hrest d' m Hs Hn Hcl).
Qed.
Lemma try_next_total m : cleared m ->
  match try_next (E := E) m with (_, Ok (Some f)) => field_ok f | (m', Ok None) => cleared m' | (_, Err _) => True | (_, Panic) => False end.
Proof.
  intros Hcl. unfold try_next. unfold mbind at 1, M_bind. destruct (pending_field m).
  - unfold consume_pending_field. pose proof (consume_loop_total (S (length (stream m))) (length (stream m)) ltac:(lia) (StreamBegin, m) (conj (conj I eq_refl) Hcl)) as Hc.
    destruct (consume_loop (S (length (stream m))) (StreamBegin, m)) as [[d m'] [u|e|]]; [|done|done].
    unfold mbind, M_bind, get. apply try_next_loop_total; [exact Hc|]. unfold work. lia.
  - unfold mbind, M_bind, get, mret, M_ret. apply try_next_loop_total; [done|]. unfold work. lia.
Qed.

(** A field that is being read. *)
Inductive reading (s : FieldDecoder * Multipart (E := E)) : FieldDecoder * Multipart (E := E) -> Prop :=
| reading_start : reading s s
| reading_chunk s1 s2 o : reading s s1 -> field_try_next s1 = (s2, Ok o) -> reading s s2.
Lemma field_next_total (s : FieldDecoder * Multipart (E := E)) : decoder_ok s.1 -> (field_try_next s).2 <> Panic /\ forall s' o, field_try_next s = (s', Ok o) -> decoder_ok s'.1.
Proof.
  intros Hd. unfold field_try_next. pose proof (field_loop_triple (S (length (stream s.2))) (length (stream s.2)) ltac:(lia) s (conj Hd eq_refl)) as Hf.
  destruct (field_loop _ s) as [s' [o|e|]]; [|done|done]. split; [done|]. by intros s2 o' [= <- _].
Qed.
Lemma reading_ok s s' : reading s s' -> decoder_ok s.1 -> decoder_ok s'.1.
Proof. induction 1 as [|s1 s2 o Hr IH Hs]; intros Hd; [done|]. by apply (proj2 (field_next_total s1 (IH Hd)) s2 o). Qed.
(** A parser whose search for the next field has not failed: fields are read as far as one likes,
    with or without an error, and dropped. *)
Inductive used : Multipart (E := E) -> Prop :=
| used_new items bd lim : used (mkMultipart items [] bd hm_empty false lim)
| used_end m m' : used m -> try_next m = (m', Ok None) -> used m'
| used_field m m1 f d m2 m3 : used m -> try_next m = (m1, Ok (Some f)) -> reading (decoder f, m1) (d, m2) ->
    m3 = m2 \/ (exists d' e, field_try_next (d, m2) = ((d', m3), Err e)) -> used (field_drop m3).1.
Lemma used_cleared m : used m -> cleared m.
Proof.
  induction 1 as [items bd lim|m m' _ IH Hn|m m1 f d m2 m3 _ _ _ _ _]; [apply hm_is_empty_empty| |apply hm_is_empty_empty].
  pose proof (try_next_total m IH) as Ht. by rewrite Hn in Ht.
Qed.
End Total.

(** ** The theorems *)

(** C25: Fields come out of a multipart body as they were put in.  Let the parts [xs] have header
    blocks the parsers accept, with the length of their data, or without a length and then data
    that has no two hyphens in a row; let the whole body fit in the buffer limit and the boundary
    have no line feed.  The body, cut into stream items anywhere but inside the four bytes before
    a boundary that ends a field without a length, is read as exactly these fields: headers, names
    and data, in order.  Data with hyphens and other cuts may be refused
    ([multipart_hyphens_hide_boundary], [multipart_cut_matters]). *)
Theorem multipart_roundtrip `{HM : HeaderMap} `{!MpParse} `{MC : Memchr} {E} bd lim (xs : list Part) cs :
  10 ∉ bd -> Forall (part_ok (E := E)) xs -> concat cs = message bd xs -> len (message bd xs) <= lim ->
  cuts_ok (E := E) bd xs cs ->
  exists m, session (S (length xs)) (2 * length cs + 3) (mkMultipart (E := E) (inl <$> cs) [] bd hm_empty false lim)
    = (m, Ok ((fun x => (p_headers x, p_name x, p_data x)) <$> xs)).
Proof.
  intros Hbd Hok Heq Hlim Hcuts. apply (session_message bd lim _ _ xs cs [] []); try done; try lia; try (by left).
Qed.


(** ** Examples *)

(** Concrete cuts are checked by computation. *)
Definition cut_okb (r : nat) (cs : list bytes) : bool :=
  forallb (fun k => let n := length (concat (drop k cs)) in (r <=? n) || (n + 4 <=? r))%nat (seq 0 (S (length cs))).
Lemma cut_check r cs : cut_okb r cs = true -> cut_ok r cs.
Proof.
  unfold cut_okb. rewrite forallb_forall. intros H k.
  assert (Hk : drop k cs = drop (k `min` length cs) cs).
  { destruct (Nat.le_gt_cases k (length cs)); [by rewrite Nat.min_l|]. rewrite Nat.min_r, drop_all, drop_ge by lia. done. }
  rewrite Hk. specialize (H (k `min` length cs)%nat). rewrite in_seq in H. specialize (H ltac:(lia)). cbv zeta in H.
  apply orb_prop in H as [H%Nat.leb_le|H%Nat.leb_le]; lia.
Qed.

Definition demo_block (name : bytes) (more : bytes) : bytes :=
  bs "Content-Disposition: form-data; name=" ++ name ++ CRLF ++ more ++ CRLF.
Definition demo_head (name : bytes) (more : list (bytes * bytes)) : hmap :=
  fold_left (fun h p => hm_append p.1 p.2 h) ((CONTENT_DISPOSITION, bs "form-data; name=" ++ name) :: more) hm_empty.
Definition demo_parts : list Part :=
  [mkPart (demo_block (bs "a") (bs "Content-Length: 7" ++ CRLF)) (demo_head (bs "a") [(Hdr.CONTENT_LENGTH, bs "7")]) (Some (bs "a")) (bs "one--1-");
   mkPart (demo_block (bs "b") []) (demo_head (bs "b") []) (Some (bs "b")) (bs "two-2")].
Definition demo_message : bytes := message (bs "xyz") demo_parts.
Definition demo_cs : list bytes := [take 40 demo_message; take 50 (drop 40 demo_message); drop 90 demo_message].

Lemma demo_parts_ok : Forall (part_ok (E := unit)) demo_parts.
Proof.
  apply Forall_cons. split; [|apply Forall_cons; split; [|constructor]]; (split; [|split; [|split; [|split]]]); try (vm_compute; reflexivity).
  - eexists. split; vm_compute; reflexivity.
  - left. vm_compute. reflexivity.
  - eexists. split; vm_compute; reflexivity.
  - right. split; vm_compute; reflexivity.
Qed.

Lemma multipart_roundtrip_witness :
  exists m, session 3 9 (mkMultipart (E := unit) (inl <$> demo_cs) [] (bs "xyz") hm_empty false 1000)
    = (m, Ok [(demo_head (bs "a") [(Hdr.CONTENT_LENGTH, bs "7")], Some (bs "a"), bs "one--1-"); (demo_head (bs "b") [], Some (bs "b"), bs "two-2")]).
Proof.
  apply (multipart_roundtrip (bs "xyz") 1000 demo_parts demo_cs).
  - apply (bool_decide_unpack _). vm_compute. exact I.
  - exact demo_parts_ok.
  - vm_compute. reflexivity.
  - vm_compute. discriminate.
  - split; [intros _; apply cut_check; vm_compute; reflexivity|]. split; [intros _; apply cut_check; vm_compute; reflexivity|]. exact I.
Defined.

Lemma demo_lines_total fuel l : demo_lines fuel l <> Panic.
Proof.
  revert l. induction fuel as [|fuel IH]; intros l; [done|]. cbn [demo_lines]. destruct (first_at [13; 10] l) as [n|]; [|done].
  assert (Hn : forall k : Z, match first_at [58; 32] (take (Z.to_nat k) l) with
    | None => Err HeaderValue
    | Some j => o ← demo_lines fuel (drop (Z.to_nat k + 2) l);
        Ok (option_map (cons (to_ascii_lowercase (take (Z.to_nat j) (take (Z.to_nat k) l)), drop (Z.to_nat j + 2) (take (Z.to_nat k) l))) o)
    end <> Panic).
  { intros k. destruct (first_at [58; 32] _); [|done]. pose proof (IH (drop (Z.to_nat k + 2) l)). by destruct (demo_lines fuel _). }
  destruct n; [done|apply Hn|apply Hn].
Qed.

(** ** Behaviours worth knowing *)

Definition demo_mp (cs : list bytes) : Multipart (E := unit) := mkMultipart (inl <$> cs) [] (bs "abbc") hm_empty false 1000.
Definition demo_field (name data : bytes) : bytes := bs "--abbc" ++ CRLF ++ demo_block name [] ++ data ++ CRLF.
Definition demo_end : bytes := bs "--abbc--" ++ CRLF.
Definition demo_data (cs : list bytes) : outcome (MultipartError unit) (list (option bytes * bytes)) :=
  (fun l => map (fun x => (x.1.2, x.2)) l) <$> (session 9 99 (demo_mp cs)).2.

(** A parameter after the boundary makes the request's own head panic the parser. *)
Lemma multipart_boundary_panics :
  multipart (E := unit) POST (hm_append CONTENT_TYPE (bs "multipart/form-data; boundary=abc; charset=x") hm_empty) [] = Panic.
Proof. vm_compute. reflexivity. Qed.
(** So does the name of a field whose quote is not closed. *)
Lemma multipart_open_quote_panics : demo_data [demo_field (34 :: bs "a") (bs "x") ++ demo_end] = Panic.
Proof. vm_compute. reflexivity. Qed.
(** A field without a disposition is refused, but its headers stay: the next search, which finds
    another field, fails the assertion that there are none. *)
Lemma multipart_retry_panics :
  let m := demo_mp [bs "--abbc" ++ CRLF ++ bs "X: y" ++ CRLF ++ CRLF ++ demo_field (bs "a") (bs "x") ++ demo_end] in
  (try_next m).2 = Err NoContentDisposition /\ (try_next (try_next m).1).2 = Panic.
Proof. vm_compute. done. Qed.
(** A name that follows the file name is not found. *)
Lemma multipart_name_after_filename :
  match from_slice (E := unit) (bs "form-data; filename=f; name=n") with Ok c => name_indice c = None | _ => False end.
Proof. vm_compute. reflexivity. Qed.
(** Two hyphens shortly before the boundary hide it. *)
Lemma multipart_hyphens_hide_boundary :
  demo_data [demo_field (bs "a") (bs "x--y") ++ demo_end] = Err UnexpectedEof
  /\ demo_data [demo_field (bs "a") (bs "x--yzw") ++ demo_end] = Err Boundary
  /\ demo_data [demo_field (bs "a") (bs "x--yz...........") ++ demo_end] = Ok [(Some (bs "a"), bs "x--yz...........")].
Proof. vm_compute. done. Qed.
(** The same bytes are read or refused, depending on where the stream is cut. *)
Lemma multipart_cut_matters :
  let body := demo_field (bs "a") (bs "data") ++ demo_end in
  let n := (length body - 11)%nat in
  demo_data [body] = Ok [(Some (bs "a"), bs "data")]
  /\ demo_data [take n body; drop n body] = Err Boundary
  /\ demo_data [take (S (S n)) body; drop (S (S n)) body] = Err UnexpectedEof.
Proof. vm_compute. done. Qed.
(** A dropped field with two hyphens in its data: the rest of the buffer is not searched. *)
Lemma multipart_dropped_field_lost :
  let m := demo_mp [demo_field (bs "a") (bs "x--yzwuv") ++ demo_field (bs "b") (bs "t") ++ demo_end] in
  (try_next (field_drop (try_next m).1).1).2 = Err UnexpectedEof.
Proof. vm_compute. reflexivity. Qed.
(** The close delimiter is not recognised without a line end, and its text is not compared. *)
Lemma multipart_last_line :
  demo_data [bs "--abbc--"] = Err UnexpectedEof /\ demo_data [bs "--wrong!" ++ CRLF] = Ok [].
Proof. vm_compute. done. Qed.
