(* ===== verification/PgDriver.v ===== *)
(** * The PostgreSQL connection driver (postgres/src/driver/generic.rs, driver/codec.rs)

    A client encodes its requests into a shared buffer and queues, for each, the sender of a channel
    the response will arrive on ([send]).  The driver writes the buffer to the socket ([try_write]),
    reads from it ([try_read]), cuts what it has read into backend messages ([try_from_buf]) and
    hands each run of messages to the request at the head of the queue, whose place is given up at
    the message that ends a response ([decode_loop]); messages that belong to no request are
    returned to the caller.  Client and driver run concurrently: [act] is one step of either of
    them, and [reach] every interleaving.  The message parser is the wire-format crate's, so it is a
    parameter ([Backend]). *)

From S2P Require Import Prelude Decimal WriteBuffers.

Local Open Scope nat_scope.

(** ** The wire format (the postgres-protocol crate) *)

(** What [backend::Message::parse] returns, as far as the driver and the responses tell messages
    apart.  [CommandComplete] carries what its [tag()] returns. *)
Inductive Message : Type :=
| ParseComplete | BindComplete | NoData | EmptyQueryResponse | PortalSuspended
| ParameterDescription (b : bytes) | RowDescription (b : bytes) | DataRow (b : bytes)
| CommandComplete (tag : option bytes) | ReadyForQuery (status : Z)
| ErrorResponse (fields : bytes) | OtherMessage (tag : Z) (b : bytes).

Class Backend : Type := {
  NOTICE_RESPONSE_TAG : Z;
  NOTIFICATION_RESPONSE_TAG : Z;
  PARAMETER_STATUS_TAG : Z;
  READY_FOR_QUERY_TAG : Z;
  header_parse : bytes -> outcome ErrorKind (option (Z * Z));
  message_parse : M bytes ErrorKind (option Message);
}.

(** A backend message: a tag, the length of what follows the tag, big-endian, and a body. *)
Definition is_frame (f : bytes) : Prop :=
  exists t a b c d body, f = t :: a :: b :: c :: d :: body /\ be_decode [a; b; c; d] = (4 + len body)%Z /\ (4 + len body < 2 ^ 31)%Z.
Definition frame_tag (f : bytes) : Z := default 0%Z (head f).
Class BackendLaws `{Backend} : Type := {
  (** What a whole message parses to. *)
  body_parse : bytes -> outcome ErrorKind Message;
  header_short l : length l < 5 -> header_parse l = Ok None;
  header_law t a b c d l : let n := be_decode [a; b; c; d] in
    if ((4 <=? n) && (n <? 2 ^ 31))%Z then header_parse (t :: a :: b :: c :: d :: l) = Ok (Some (t, n))
    else exists e, header_parse (t :: a :: b :: c :: d :: l) = Err e;
  message_law f l : is_frame f ->
    match body_parse f with
    | Ok m => message_parse (f ++ l) = (l, Ok (Some m))
    | Err e => exists s, message_parse (f ++ l) = (s, Err e)
    | Panic => False
    end;
  message_total l : (message_parse l).2 <> Panic;
}.

(** ** Errors *)

Inductive PgError : Type :=
| ParseError (e : ErrorKind) | Db (fields : bytes) | Unexpected | DriverDown | ClosedByDriver | EncodeError | Todo
| Io (e : ErrorKind) | DriverIo (read write : option ErrorKind).

Section Driver.
Context `{BK : Backend}.
(** The message [frontend::terminate] appends. *)
Context (terminate : bytes).

(** ** Cutting the input into messages (driver/codec.rs) *)

Definition is_async (tag : Z) : bool :=
  (tag =? NOTICE_RESPONSE_TAG)%Z || (tag =? NOTIFICATION_RESPONSE_TAG)%Z || (tag =? PARAMETER_STATUS_TAG)%Z.
Inductive ResponseMessage : Type := Normal (buf : bytes) (complete : bool) | Async (m : Message).
(** How the loop of [try_from_buf] ends: after [tail] bytes, or at a message of no request. *)
Inductive Scan : Type := Stop (tail : nat) (complete : bool) | AsyncFirst.
Fixpoint scan (fuel : nat) (buf : bytes) (tail : nat) : outcome ErrorKind Scan :=
  match fuel with
  | O => Panic
  | S fuel =>
      if length buf <? tail then Panic else
      let slice := drop tail buf in
      match header_parse slice with
      | Err e => Err e
      | Panic => Panic
      | Ok None => Ok (Stop tail false)
      | Ok (Some (tag, n)) =>
          let l := Z.to_nat n + 1 in
          if length slice <? l then Ok (Stop tail false)
          else if is_async tag then if 0 <? tail then Ok (Stop tail false) else Ok AsyncFirst
          else if (tag =? READY_FOR_QUERY_TAG)%Z then Ok (Stop (tail + l) true)
          else scan fuel buf (tail + l)
      end
  end.
(** Every turn but the last passes at least five bytes. *)
Definition try_from_buf : M bytes ErrorKind (option ResponseMessage) := fun buf =>
  match scan (S (length buf)) buf 0 with
  | Err e => (buf, Err e)
  | Panic => (buf, Panic)
  | Ok AsyncFirst =>
      match message_parse buf with
      | (buf, Ok (Some m)) => (buf, Ok (Some (Async m)))
      | (buf, Ok None) | (buf, Panic) => (buf, Panic)
      | (buf, Err e) => (buf, Err e)
      end
  | Ok (Stop tail complete) =>
      if tail =? 0 then (buf, Ok None) else (drop tail buf, Ok (Some (Normal (take tail buf) complete)))
  end.
(** [BytesMessage::parse_error]. *)
Definition parse_error (buf : bytes) : PgError :=
  match (message_parse buf).2 with
  | Err e => ParseError e
  | Ok (Some (ErrorResponse fields)) => Db fields
  | _ => Unexpected
  end.

(** ** Responses *)

(** The receiving end of a request: the runs of messages sent to it, the one it is reading, and
    whether it is still held.  [rs_log] is what it has handed to its owner. *)
Record Response : Type := mkResponse { rs_queue : list bytes; rs_buf : bytes; rs_open : bool; rs_log : list (outcome PgError Message) }.
Definition request_pair : Response := mkResponse [] [] true [].
(** [ResponseSender::send], which fails, without effect, once the receiver is gone. *)
Definition chan_send (b : bytes) (r : Response) : Response :=
  if rs_open r then mkResponse (rs_queue r ++ [b]) (rs_buf r) true (rs_log r) else r.

Inductive Poll : Type := Pending | Ready (r : outcome PgError Message).
Definition parse_message (r : Response) : Response * Poll :=
  let '(b, res) :=
    match message_parse (rs_buf r) with
    | (b, Ok None) | (b, Panic) => (b, Panic)
    | (b, Ok (Some (ErrorResponse fields))) => (b, Err (Db fields))
    | (b, Ok (Some m)) => (b, Ok m)
    | (b, Err e) => (b, Err (ParseError e))
    end in
  (mkResponse (rs_queue r) b (rs_open r) (rs_log r ++ [res]), Ready res).
(** [alive]: whether a sender of the channel exists. *)
Definition poll_recv (alive : bool) (r : Response) : Response * Poll :=
  match rs_buf r, rs_queue r with
  | [], [] => (r, if alive then Pending else Ready (Err ClosedByDriver))
  | [], b :: q => parse_message (mkResponse q b (rs_open r) (rs_log r))
  | _, _ => parse_message r
  end.

(** [body_to_affected_rows] and [try_into_row_affected_blocking], whose loop is also that of
    [poll_try_into_ready]: [msgs] are the results of its receives. *)
Definition body_to_affected_rows (tag : option bytes) : outcome PgError Z :=
  match tag with
  | None => Err Todo
  | Some r => Ok (default 0%Z (parse_u64 (default [] (last (split_on 32 r)))))
  end.
Fixpoint row_affected (rows : Z) (msgs : list (outcome PgError Message)) : option (outcome PgError Z) :=
  match msgs with
  | [] => None
  | Err e :: _ => Some (Err e)
  | Panic :: _ => Some Panic
  | Ok m :: msgs =>
      match m with
      | BindComplete | NoData | ParseComplete | ParameterDescription _ | RowDescription _ | DataRow _
      | EmptyQueryResponse | PortalSuspended => row_affected rows msgs
      | CommandComplete body =>
          match body_to_affected_rows body with
          | Ok rows => row_affected rows msgs
          | Err e => Some (Err e)
          | Panic => Some Panic
          end
      | ReadyForQuery _ => Some (Ok rows)
      | _ => Some (Err Unexpected)
      end
  end.

(** ** Handing out the input ([DriverRx::try_decode]) *)

(** The read buffer, the queue of requests that wait for a response, and the responses. *)
Record Inbox : Type := mkInbox { in_buf : bytes; in_res : list nat; in_chans : list Response }.
Fixpoint decode_loop (fuel : nat) (s : Inbox) : Inbox * outcome PgError (option Message) :=
  match fuel with
  | O => (s, Panic)
  | S fuel =>
      match try_from_buf (in_buf s) with
      | (b, Err e) => (mkInbox b (in_res s) (in_chans s), Err (ParseError e))
      | (b, Panic) => (mkInbox b (in_res s) (in_chans s), Panic)
      | (b, Ok None) => (mkInbox b (in_res s) (in_chans s), Ok None)
      | (b, Ok (Some (Async m))) => (mkInbox b (in_res s) (in_chans s), Ok (Some m))
      | (b, Ok (Some (Normal msg complete))) =>
          match in_res s with
          | [] => (mkInbox b [] (in_chans s), Err (parse_error msg))
          | i :: res => decode_loop fuel (mkInbox b (if complete then res else i :: res) (alter (chan_send msg) i (in_chans s)))
          end
      end
  end.
(** Every turn but the last shortens the buffer. *)
Definition try_decode (s : Inbox) : Inbox * outcome PgError (option Message) := decode_loop (S (length (in_buf s))) s.

(** ** The socket *)

(** [try_read]: [ans] are the reads the socket answers, an empty one at the end of the stream,
    [last] the error it answers after them.  Returns the buffer. *)
Fixpoint try_read_loop (ans : list bytes) (last : ErrorKind) (read : nat) (b : bytes) : bytes * outcome ErrorKind (option nat) :=
  match ans with
  | [] :: _ => (b, Ok (Some read))
  | d :: ans => try_read_loop ans last (read + length d) (b ++ d)
  | [] =>
      if negb (read =? 0) then (b, Ok (Some read))
      else if decide (last = WouldBlock) then (b, Ok None) else (b, Err last)
  end.
Definition try_read (ans : list bytes) (last : ErrorKind) (b : bytes) : bytes * outcome ErrorKind (option nat) := try_read_loop ans last 0 b.

Inductive WriteState : Type := Waiting | WantWrite | WantFlush | WriteClosed (e : option ErrorKind).
Inductive ReadState : Type := WantRead | ReadClosed (e : option ErrorKind).

(** The write loop: [ans] are the sizes of the writes the socket takes, none more than it was
    offered, [last] the error it answers after them.  [Ok true]: everything was written. *)
Fixpoint write_loop (ans : list nat) (last : ErrorKind) (written : nat) (b : bytes) : nat * outcome ErrorKind bool :=
  match ans with
  | n :: ans =>
      let n := n `min` (length b - written) in
      if n =? 0 then (written, Err WriteZero)
      else if written + n =? length b then (written + n, Ok true)
      else write_loop ans last (written + n) b
  | [] => (written, if decide (last = WouldBlock) then Ok false else Err last)
  end.
Record Outbox : Type := mkOutbox { o_buf : bytes; o_state : WriteState; o_wire : bytes }.
Definition flush (fl : outcome ErrorKind unit) (o : Outbox) : Outbox * outcome ErrorKind unit :=
  match fl with
  | Ok _ => (mkOutbox (o_buf o) Waiting (o_wire o), Ok tt)
  | Err e => (o, if decide (e = WouldBlock) then Ok tt else Err e)
  | Panic => (o, Panic)
  end.
Definition try_write (ans : list nat) (last : ErrorKind) (fl : outcome ErrorKind unit) (o : Outbox) : Outbox * outcome ErrorKind unit :=
  match o_state o with
  | Waiting | WriteClosed _ => (o, Panic)
  | WantFlush => flush fl o
  | WantWrite =>
      match write_loop ans last 0 (o_buf o) with
      | (_, Ok true) => flush fl (mkOutbox [] WantFlush (o_wire o ++ o_buf o))
      | (n, Ok false) => (mkOutbox (drop n (o_buf o)) WantWrite (o_wire o ++ take n (o_buf o)), Ok tt)
      | (n, Err e) => (mkOutbox (drop n (o_buf o)) WantWrite (o_wire o ++ take n (o_buf o)), Err e)
      | (_, Panic) => (o, Panic)
      end
  end.

(** ** Client and driver *)

(** Where the driver's task is: about to look at its buffer, waiting, or gone, with what
    [try_next] returned last ([None] when the driver was dropped). *)
Inductive Phase : Type := AtDecode | AtAwait | Ended (r : option (outcome PgError unit)).

(** The shared state ([closed], [buf], [res], [waker]), the driver's own, and the responses.  A
    request is named by its place in [chans].  [tx]: the client's handle exists; [woken]: the
    driver's task has been woken since it was last polled.  [wire_in], [wire_out] are what the
    socket has delivered and taken, [sent] what was appended to [buf], with the request each part
    belongs to, and [yields] the messages returned to the driver's caller. *)
Record World : Type := mkWorld {
  closed : bool; buf : bytes; res : list nat; waker : bool;
  read_buf : bytes; read_state : ReadState; write_state : WriteState;
  chans : list Response; phase : Phase; tx : bool; woken : bool;
  wire_in : bytes; wire_out : bytes; sent : list (option nat * bytes); yields : list Message;
}.
(** [GenericDriver::new], after the session was set up: [rb] is what has been read beyond it. *)
Definition start (rb : bytes) : World :=
  mkWorld false [] [] false rb WantRead Waiting [] AtDecode true false rb [] [] [].

(** [State::wake]. *)
Definition wake (w : World) : World :=
  mkWorld (closed w) (buf w) (res w) false (read_buf w) (read_state w) (write_state w) (chans w) (phase w) (tx w)
    (waker w || woken w) (wire_in w) (wire_out w) (sent w) (yields w).

(** [DriverTx::send] and [send_one_way]: [enc] is what the request encodes to, if it does; the
    buffer is cut back when it does not. *)
Definition append (id : option nat) (b : bytes) (r : list nat) (c : list Response) (w : World) : World :=
  mkWorld (closed w) (buf w ++ b) r (waker w) (read_buf w) (read_state w) (write_state w) c (phase w) (tx w) (woken w)
    (wire_in w) (wire_out w) (sent w ++ [(id, b)]) (yields w).
Definition send (enc : option bytes) (w : World) : World * outcome PgError nat :=
  if closed w then (w, Err DriverDown)
  else match enc with
       | None => (w, Err EncodeError)
       | Some b =>
           let i := length (chans w) in
           (wake (append (Some i) b (res w ++ [i]) (chans w ++ [request_pair]) w), Ok i)
       end.
Definition send_one_way (enc : option bytes) (w : World) : World * outcome PgError unit :=
  if closed w then (w, Err DriverDown)
  else match enc with
       | None => (w, Err EncodeError)
       | Some b => (wake (append None b (res w) (chans w) w), Ok tt)
       end.
Definition is_ended (p : Phase) : bool := match p with Ended _ => true | _ => false end.
(** Dropping the client's handle.  The shared state goes with the second of its owners. *)
Definition drop_tx (w : World) : World :=
  let w := wake (append None terminate (if is_ended (phase w) then [] else res w) (chans w) w) in
  mkWorld true (buf w) (res w) (waker w) (read_buf w) (read_state w) (write_state w) (chans w) (phase w) false (woken w)
    (wire_in w) (wire_out w) (sent w) (yields w).
(** [DriverTx::is_closed]. *)
Definition is_closed (w : World) : bool := is_ended (phase w).

Definition with_chans (c : list Response) (w : World) : World :=
  mkWorld (closed w) (buf w) (res w) (waker w) (read_buf w) (read_state w) (write_state w) c (phase w) (tx w) (woken w)
    (wire_in w) (wire_out w) (sent w) (yields w).
Definition recv (i : nat) (w : World) : World * option Poll :=
  match chans w !! i with
  | Some r =>
      if rs_open r then
        let '(r, p) := poll_recv (bool_decide (i ∈ res w)) r in (with_chans (<[i := r]> (chans w)) w, Some p)
      else (w, None)
  | None => (w, None)
  end.
Definition drop_rx (i : nat) (w : World) : World :=
  with_chans (alter (fun r => mkResponse [] [] false (rs_log r)) i (chans w)) w.

(** The driver's task returns [r] and is dropped ([DriverRx::drop]). *)
Definition finish (r : option (outcome PgError unit)) (w : World) : World :=
  mkWorld true (buf w) (if tx w then res w else []) (waker w) (read_buf w) (read_state w) (write_state w) (chans w) (Ended r) (tx w) (woken w)
    (wire_in w) (wire_out w) (sent w) (yields w).
(** [SharedState::wait]: what it returns when polled; otherwise the task is registered. *)
Definition wait (w : World) : option WriteState :=
  if negb (bool_decide (buf w = [])) then Some WantWrite else if closed w then Some (WriteClosed None) else None.
Definition goto (p : Phase) (ws : WriteState) (wk wn : bool) (w : World) : World :=
  mkWorld (closed w) (buf w) (res w) wk (read_buf w) (read_state w) ws (chans w) p (tx w) wn
    (wire_in w) (wire_out w) (sent w) (yields w).

(** [_try_next] from the top of its loop to its await, its return, or its error.  With both directions
    closed and no error it awaits the shutdown of the socket. *)
Definition inbox (w : World) : Inbox := mkInbox (read_buf w) (res w) (chans w).
Definition with_inbox (s : Inbox) (ms : list Message) (w : World) : World :=
  mkWorld (closed w) (buf w) (in_res s) (waker w) (in_buf s) (read_state w) (write_state w) (in_chans s) (phase w) (tx w) (woken w)
    (wire_in w) (wire_out w) (sent w) (yields w ++ ms).
Definition await (w : World) : World :=
  match read_state w, write_state w with
  | ReadClosed None, WriteClosed None => goto AtAwait (WriteClosed None) (waker w) false w
  | ReadClosed e, WriteClosed e' => finish (Some (Err (DriverIo e e'))) w
  | _, Waiting =>
      match wait w with
      | Some _ => goto AtAwait Waiting (waker w) true w
      | None => goto AtAwait Waiting true false w
      end
  | _, ws => goto AtAwait ws (waker w) false w
  end.
Definition top (w : World) : outcome unit World :=
  match try_decode (inbox w) with
  | (s, Ok None) => Ok (await (with_inbox s [] w))
  | (s, Ok (Some m)) => Ok (with_inbox s [m] w)
  | (s, Err e) => Ok (finish (Some (Err e)) (with_inbox s [] w))
  | (_, Panic) => Panic
  end.

(** What the task waits for: the socket to be readable, writable, and the client. *)
Definition interest (w : World) : bool * bool * bool :=
  match read_state w, write_state w with
  | WantRead, Waiting => (true, false, true)
  | WantRead, (WantWrite | WantFlush) => (true, true, false)
  | WantRead, WriteClosed _ => (true, false, false)
  | ReadClosed _, (WantWrite | WantFlush) => (false, true, false)
  | ReadClosed _, Waiting => (false, false, true)
  | ReadClosed _, WriteClosed _ => (false, false, false)
  end.
Definition on_read (ans : list bytes) (last : ErrorKind) (w : World) : World :=
  let '(b, r) := try_read ans last (read_buf w) in
  let rs := match r with
            | Ok (Some 0) => ReadClosed None
            | Ok _ => read_state w
            | Err e => ReadClosed (Some e)
            | Panic => read_state w
            end in
  mkWorld (closed w) (buf w) (res w) (waker w) b rs (write_state w) (chans w) (phase w) (tx w) (woken w)
    (wire_in w ++ drop (length (read_buf w)) b) (wire_out w) (sent w) (yields w).
(** [try_write], and [on_write_err] when it fails. *)
Definition on_write (ans : list nat) (last : ErrorKind) (fl : outcome ErrorKind unit) (w : World) : outcome unit World :=
  let put o c ws := mkWorld c (o_buf o) (res w) (waker w) (read_buf w) (read_state w) ws (chans w) (phase w) (tx w) (woken w)
    (wire_in w) (o_wire o) (sent w) (yields w) in
  match try_write ans last fl (mkOutbox (buf w) (write_state w) (wire_out w)) with
  | (o, Ok _) => Ok (put o (closed w) (o_state o))
  | (o, Err e) => Ok (put (mkOutbox [] (o_state o) (o_wire o)) true (WriteClosed (Some e)))
  | (_, Panic) => Panic
  end.

(** One step of the client or of the driver. *)
Inductive Action : Type :=
| Send (enc : option bytes) | SendOneWay (enc : option bytes) | DropTx | Recv (i : nat) | DropRx (i : nat)
| Top | Polled
| IoReady (rd : option (list bytes * ErrorKind)) (wr : option (list nat * ErrorKind * outcome ErrorKind unit))
| IoFailed (e : ErrorKind) | Shutdown (r : option ErrorKind) | DropDriver.
(** [Err tt]: the step is not possible.  A socket that is waited for in some direction becomes
    ready in no other, and does not panic. *)
Definition act (a : Action) (w : World) : outcome unit World :=
  match a, phase w with
  | Send enc, _ => if tx w then Ok (send enc w).1 else Err tt
  | SendOneWay enc, _ => if tx w then Ok (send_one_way enc w).1 else Err tt
  | DropTx, _ => if tx w then Ok (drop_tx w) else Err tt
  | Recv i, _ => match recv i w with (_, None) => Err tt | (_, Some (Ready Panic)) => Panic | (w, Some _) => Ok w end
  | DropRx i, _ => Ok (drop_rx i w)
  | Top, AtDecode => top w
  | Polled, AtAwait =>
      let '(_, _, client) := interest w in
      match wait w with
      | Some ws => if client then Ok (goto AtDecode ws (waker w) false w) else Err tt
      | None => Err tt
      end
  | IoReady rd wr, AtAwait =>
      let '(readable, writable, _) := interest w in
      if (readable || writable) && implb (bool_decide (is_Some rd)) readable && implb (bool_decide (is_Some wr)) writable
         && match wr with Some (_, _, Panic) => false | _ => true end then
        let w := match rd with Some (ans, last) => on_read ans last w | None => w end in
        w ← match wr with Some (ans, last, fl) => on_write ans last fl w | None => Ok w end;
        Ok (goto AtDecode (write_state w) (waker w) false w)
      else Err tt
  | IoFailed e, AtAwait => let '(readable, writable, _) := interest w in if readable || writable then Ok (finish (Some (Err (Io e))) w) else Err tt
  | Shutdown r, AtAwait =>
      match read_state w, write_state w with
      | ReadClosed None, WriteClosed None => Ok (finish (Some (match r with None => Ok tt | Some e => Err (Io e) end)) w)
      | _, _ => Err tt
      end
  | DropDriver, (AtDecode | AtAwait) => Ok (finish None w)
  | _, _ => Err tt
  end.
Inductive reach : World -> Prop :=
| reach_start rb : reach (start rb)
| reach_step a w w' : reach w -> act a w = Ok w' -> reach w'.

(** ** Frames and responses *)

Context `{BL : !BackendLaws}.

Definition f_async (f : bytes) : bool := is_async (frame_tag f).
Definition f_ready (f : bytes) : bool := negb (f_async f) && (frame_tag f =? READY_FOR_QUERY_TAG)%Z.
Definition asyncs (fs : list bytes) : list bytes := filter (fun f => f_async f = true) fs.
(** How many responses have ended, and the messages of the [i]th. *)
Fixpoint readies (fs : list bytes) : nat :=
  match fs with [] => 0 | f :: fs => (if f_ready f then 1 else 0) + readies fs end.
Fixpoint segment (i : nat) (fs : list bytes) : list bytes :=
  match fs with
  | [] => []
  | f :: fs =>
      if f_async f then segment i fs
      else match i with
           | 0 => f :: (if f_ready f then [] else segment 0 fs)
           | S k => segment (if f_ready f then k else i) fs
           end
  end.
(** No complete message. *)
Definition partial (l : bytes) : Prop :=
  length l < 5 \/ exists t a b c d body, l = t :: a :: b :: c :: d :: body /\ (4 <= be_decode [a; b; c; d])%Z /\ (len body < be_decode [a; b; c; d] - 4)%Z.
(** What the owner of a response is told of a message. *)
Definition told (f : bytes) : outcome PgError Message :=
  match body_parse f with
  | Ok (ErrorResponse fields) => Err (Db fields)
  | Ok m => Ok m
  | Err e => Err (ParseError e)
  | Panic => Panic
  end.
Definition body_ok (f : bytes) : Prop := exists m, body_parse f = Ok m.

Lemma readies_app fs gs : readies (fs ++ gs) = readies fs + readies gs.
Proof. induction fs as [|f fs IH]; simpl; lia. Qed.
Lemma segment_app i fs gs :
  segment i (fs ++ gs) = segment i fs ++ (if i <? readies fs then [] else segment (i - readies fs) gs).
Proof.
  revert i. induction fs as [|f fs IH]; intros i; simpl; [by rewrite Nat.sub_0_r|].
  destruct (f_async f) eqn:Ha.
  { rewrite IH. unfold f_ready. rewrite Ha. done. }
  destruct (f_ready f) eqn:Hr, i as [|i]; simpl; [done|by rewrite IH| |by rewrite IH].
  by rewrite IH.
Qed.
(** A run of messages of one response. *)
Record run (gs : list bytes) (complete : bool) : Prop := {
  run_frames : Forall is_frame gs;
  run_normal : Forall (fun f => f_async f = false) gs;
  run_readies : readies gs = if complete then 1 else 0;
  run_segment : segment 0 gs = gs;
}.
Lemma segment_later gs complete i : run gs complete -> segment (S i) gs = [].
Proof.
  intros [_ Hn _ Hs]. induction Hn as [|f gs Hf Hn IH]; [done|]. simpl in *. rewrite Hf in *.
  destruct (f_ready f); [|apply IH; congruence]. injection Hs as <-. done.
Qed.
Lemma asyncs_normal gs : Forall (fun f => f_async f = false) gs -> asyncs gs = [].
Proof. unfold asyncs. induction 1 as [|f gs Hf _ IH]; [done|]. by rewrite filter_cons_False by congruence. Qed.
Lemma asyncs_app fs gs : asyncs (fs ++ gs) = asyncs fs ++ asyncs gs.
Proof. apply filter_app. Qed.

Lemma frame_pos f : is_frame f -> 5 <= length f.
Proof. intros (t & a & b & c & d & body & -> & _). simpl. lia. Qed.
(** What the header of the remaining input says. *)
Inductive header_view (l : bytes) : Prop :=
| header_cut : partial l -> (header_parse l = Ok None \/ exists n, header_parse l = Ok (Some (frame_tag l, n)) /\ length l < Z.to_nat n + 1) -> header_view l
| header_bad e : header_parse l = Err e -> header_view l
| header_whole f r n : l = f ++ r -> is_frame f -> header_parse l = Ok (Some (frame_tag f, n)) -> length f = Z.to_nat n + 1 -> header_view l.
Lemma header_cases l : header_view l.
Proof.
  destruct l as [|t [|a [|b [|c [|d l]]]]]; try (apply header_cut; [left|left; apply header_short]; simpl; lia).
  pose proof (header_law t a b c d l) as Hl. cbv zeta in Hl.
  set (n := be_decode [a; b; c; d]) in *.
  destruct (Z.leb_spec 4 n) as [Hn|], (Z.ltb_spec n (2 ^ 31)); simpl in Hl; try (destruct Hl as [e ?]; by eapply header_bad).
  destruct (decide (len l < n - 4)%Z) as [Hc|Hc].
  - apply header_cut; [right; exists t, a, b, c, d, l; done|].
    right. exists n. split; [done|]. unfold len in Hc. simpl. lia.
  - apply (header_whole _ (t :: a :: b :: c :: d :: take (Z.to_nat (n - 4)) l) (drop (Z.to_nat (n - 4)) l) n).
    + simpl. by rewrite take_drop.
    + exists t, a, b, c, d, (take (Z.to_nat (n - 4)) l). rewrite len_take by lia. split; [done|]. split; [subst n; lia|lia].
    + done.
    + unfold len in Hc. simpl. rewrite length_take. lia.
Qed.

Lemma run_nil : run [] false.
Proof. by constructor. Qed.
Lemma run_snoc gs f : run gs false -> is_frame f -> f_async f = false -> run (gs ++ [f]) (f_ready f).
Proof.
  intros [Hf Hn Hr Hs] Hff Ha. constructor.
  - apply Forall_app. by split; [|constructor].
  - apply Forall_app. by split; [|constructor].
  - rewrite readies_app, Hr. simpl. by destruct (f_ready f).
  - rewrite segment_app, Hs, Hr. simpl. rewrite Ha. by destruct (f_ready f).
Qed.

Lemma scan_spec fuel gs r : run gs false -> length r < fuel ->
  match scan fuel (concat gs ++ r) (length (concat gs)) with
  | Ok (Stop tail complete) => exists hs r', concat gs ++ r = concat hs ++ r' /\ tail = length (concat hs) /\ run hs complete /\ (hs = [] -> partial r')
  | Ok AsyncFirst => gs = [] /\ exists f r', r = f ++ r' /\ is_frame f /\ f_async f = true
  | Err _ => True
  | Panic => False
  end.
Proof.
  revert gs r. induction fuel as [|fuel IH]; intros gs r Hg Hl; [lia|]. cbn [scan].
  rewrite length_app, (proj2 (Nat.ltb_ge _ _)), drop_app_length by lia.
  destruct (header_cases r) as [Hp Hh|e He|f r' n -> Hf Hh Hn].
  - assert (Hstop : exists hs r', concat gs ++ r = concat hs ++ r' /\ length (concat gs) = length (concat hs) /\ run hs false /\ (hs = [] -> partial r')) by (by exists gs, r).
    destruct Hh as [->|(n & -> & Hn)]; [done|]. by rewrite (proj2 (Nat.ltb_lt _ _)).
  - by rewrite He.
  - rewrite Hh, length_app, (proj2 (Nat.ltb_ge _ _)) by lia. fold (f_async f). destruct (f_async f) eqn:Ha.
    { destruct (Nat.ltb_spec 0 (length (concat gs))) as [Ht|Ht].
      - exists gs, (f ++ r'). split_and!; [done..|]. intros ->. simpl in Ht. lia.
      - destruct gs as [|g gs]; [by split; [|exists f, r']|]. destruct Hg as [Hg _ _ _].
        inversion_clear Hg as [|? ? Hgf _]. apply frame_pos in Hgf. simpl in Ht. rewrite length_app in Ht. lia. }
    pose proof (run_snoc gs f Hg Hf Ha) as Hrun. pose proof (frame_pos f Hf) as Hpos.
    assert (Hc : concat (gs ++ [f]) = concat gs ++ f) by (rewrite concat_app; simpl; by rewrite app_nil_r).
    rewrite <- Hn, <- length_app, <- Hc, app_assoc, <- Hc. unfold f_ready in Hrun. rewrite Ha in Hrun. simpl in Hrun.
    destruct (Z.eqb_spec (frame_tag f) READY_FOR_QUERY_TAG).
    + exists (gs ++ [f]), r'. split_and!; [done..|]. by destruct gs.
    + specialize (IH (gs ++ [f]) r' Hrun). rewrite length_app in Hl.
      destruct (scan fuel _ _) as [[]|e|]; [apply IH; lia| |done|apply IH; lia]. destruct IH as [Hnil _]; [lia|]. by destruct gs.
Qed.

Lemma try_from_buf_spec rb :
  match try_from_buf rb with
  | (b, Ok None) => b = rb /\ partial rb
  | (b, Ok (Some (Normal m c))) => exists hs, rb = concat hs ++ b /\ m = concat hs /\ run hs c /\ hs <> []
  | (b, Ok (Some (Async m))) => exists f, rb = f ++ b /\ is_frame f /\ f_async f = true /\ body_parse f = Ok m
  | (_, Err _) => True
  | (_, Panic) => False
  end.
Proof.
  unfold try_from_buf. pose proof (scan_spec (S (length rb)) [] rb run_nil ltac:(lia)) as Hs.
  change (length (concat [])) with 0 in Hs. change (concat [] ++ rb) with rb in Hs. destruct (scan _ rb 0) as [[tail c|]|e|]; [| |done..].
  - destruct Hs as (hs & r' & -> & -> & Hrun & Hp). destruct (Nat.eqb_spec (length (concat hs)) 0) as [H0|H0].
    + assert (hs = []) as ->; [|split; [done|by apply Hp]]. destruct Hrun as [Hf _ _ _].
      destruct Hf as [|f hs Hf _]; [done|]. apply frame_pos in Hf. simpl in H0. rewrite length_app in H0. lia.
    + rewrite drop_app_length, take_app_length. exists hs. split_and!; try done. by intros ->.
  - destruct Hs as (_ & f & r' & -> & Hf & Ha). pose proof (message_law f r' Hf) as Hm.
    destruct (body_parse f) as [m|e|] eqn:Hb; [rewrite Hm; by exists f|destruct Hm as [s ->]; done|done].
Qed.

(** ** Responses and the queue *)

(** A response to which the messages [fs] were sent: a part of them has been told to its owner,
    the others are buffered. *)
Definition resp_ok (fs : list bytes) (r : Response) : Prop :=
  exists k gb gss, rs_log r = told <$> take k fs /\ drop k fs = gb ++ concat gss /\ rs_buf r = concat gb
    /\ rs_queue r = (fun gs => concat gs) <$> gss /\ Forall (fun gs => gs <> []) gss.
Definition chans_ok (frames : list bytes) (cs : list Response) : Prop :=
  Forall is_frame frames /\ readies frames <= length cs /\ segment (length cs) frames = []
  /\ forall i r, cs !! i = Some r -> rs_open r = true -> Forall body_ok (segment i frames) -> resp_ok (segment i frames) r.
Definition unanswered (frames : list bytes) (cs : list Response) : list nat := seq (readies frames) (length cs - readies frames).

Lemma resp_send fs gs r : rs_open r = true -> gs <> [] -> resp_ok fs r -> resp_ok (fs ++ gs) (chan_send (concat gs) r).
Proof.
  unfold chan_send. intros -> Hg (k & gb & gss & Hl & Hd & Hb & Hq & Hne).
  assert (Hk : exists k, k <= length fs /\ rs_log r = told <$> take k fs /\ drop k fs = gb ++ concat gss).
  { destruct (Nat.le_ge_cases k (length fs)); [by exists k|]. exists (length fs).
    rewrite take_ge, drop_ge in * by lia. done. }
  clear k Hl Hd. destruct Hk as (k & Hk & Hl & Hd).
  exists k, gb, (gss ++ [gs]). rewrite take_app_le, drop_app_le by done. split_and!; [done| |done| |].
  - rewrite concat_app. simpl. rewrite app_nil_r, Hd. by rewrite app_assoc.
  - rewrite fmap_app. simpl. by rewrite Hq.
  - apply Forall_app. by split; [|constructor].
Qed.

(** Handing a run to the request at the head of the queue. *)
Lemma chans_send frames cs gs complete i res :
  chans_ok frames cs -> run gs complete -> gs <> [] -> unanswered frames cs = i :: res ->
  chans_ok (frames ++ gs) (alter (chan_send (concat gs)) i cs)
  /\ unanswered (frames ++ gs) (alter (chan_send (concat gs)) i cs) = if complete then res else i :: res.
Proof.
  unfold unanswered. intros (Hf & Hle & Hlast & Hc) Hrun Hg Hw. pose proof Hrun as [Hgf Hn Hr Hs].
  assert (Hlt : readies frames < length cs /\ i = readies frames).
  { destruct (length cs - readies frames) eqn:En; simpl in Hw; [done|]. split; [lia|congruence]. }
  destruct Hlt as [Hlt Hi].
  rewrite length_alter, readies_app, Hr. split.
  - split; [by apply Forall_app|]. rewrite length_alter, readies_app, Hr. split; [destruct complete; lia|].
    split.
    { rewrite segment_app, Hlast, (proj2 (Nat.ltb_ge _ _)) by lia.
      replace (length cs - readies frames) with (S (length cs - readies frames - 1)) by lia. by rewrite (segment_later _ _ _ Hrun). }
    intros j r Hj Ho Hb. rewrite segment_app in *. destruct (decide (j = i)) as [->|Hne].
    + rewrite list_lookup_alter_eq in Hj. apply fmap_Some in Hj as (r0 & Hr0 & ->).
      rewrite <- Hi, Nat.ltb_irrefl, Nat.sub_diag, Hs in *. apply Forall_app in Hb as [Hb _].
      assert (rs_open r0 = true) by (unfold chan_send in Ho; destruct (rs_open r0) eqn:E; simpl in Ho; congruence). apply resp_send; [done..|]. by apply Hc.
    + rewrite list_lookup_alter_ne in Hj by done. destruct (Nat.ltb_spec j (readies frames)); [by rewrite app_nil_r in *; apply Hc|].
      replace (j - readies frames) with (S (j - readies frames - 1)) in * by lia.
      rewrite (segment_later _ _ _ Hrun), app_nil_r in *. by apply Hc.
  - subst i. destruct complete.
    + replace (length cs - readies frames) with (S (length cs - (readies frames + 1))) in Hw by lia.
      simpl in Hw. rewrite Nat.add_1_r in *. congruence.
    + by rewrite !Nat.add_0_r.
Qed.
Lemma chans_async frames cs f : chans_ok frames cs -> is_frame f -> f_async f = true ->
  chans_ok (frames ++ [f]) cs /\ unanswered (frames ++ [f]) cs = unanswered frames cs.
Proof.
  intros (Hf & Hle & Hlast & Hc) Hff Ha. assert (Hr : readies (frames ++ [f]) = readies frames).
  { rewrite readies_app. simpl. unfold f_ready. rewrite Ha. simpl. lia. }
  assert (Hs : forall i, segment i (frames ++ [f]) = segment i frames).
  { intros i. rewrite segment_app. simpl. rewrite Ha. case_match; apply app_nil_r. }
  unfold unanswered, chans_ok. rewrite Hr, Hs. split_and!; [by apply Forall_app; split; [|constructor]|done|done| |done].
  intros i r. rewrite Hs. apply Hc.
Qed.

Lemma decode_loop_spec fuel frames s :
  chans_ok frames (in_chans s) -> in_res s = unanswered frames (in_chans s) -> length (in_buf s) < fuel ->
  exists gs, match decode_loop fuel s with
  | (s', Ok o) => in_buf s = concat gs ++ in_buf s' /\ Ok <$> option_list o = body_parse <$> asyncs gs /\ (o = None -> partial (in_buf s'))
  | (_, Err _) => (exists rest, in_buf s = concat gs ++ rest) /\ asyncs gs = []
  | (_, Panic) => False
  end /\ chans_ok (frames ++ gs) (in_chans (decode_loop fuel s).1) /\ in_res (decode_loop fuel s).1 = unanswered (frames ++ gs) (in_chans (decode_loop fuel s).1)
  /\ length (in_chans (decode_loop fuel s).1) = length (in_chans s).
Proof.
  revert frames s. induction fuel as [|fuel IH]; intros frames s Hc Hr Hl; [lia|]. cbn [decode_loop].
  pose proof (try_from_buf_spec (in_buf s)) as Hs. destruct (try_from_buf (in_buf s)) as [b [[[m c|m]|]|e|]]; [| | |exists []|done].
  - destruct Hs as (hs & Hb & -> & Hrun & Hne). destruct (in_res s) as [|i rs] eqn:Hrs.
    { exists []. rewrite app_nil_r. simpl. split_and!; try done. by exists (in_buf s). }
    destruct (chans_send frames (in_chans s) hs c i rs Hc Hrun Hne (eq_sym Hr)) as [Hc' Hw'].
    assert (Hlen : length b < length (in_buf s)).
    { rewrite Hb, length_app. destruct hs as [|h hs]; [done|]. destruct Hrun as [Hf _ _ _]. inversion_clear Hf as [|? ? Hf1 _].
      apply frame_pos in Hf1. simpl. rewrite length_app. lia. }
    destruct (IH (frames ++ hs) (mkInbox b (if c then rs else i :: rs) (alter (chan_send (concat hs)) i (in_chans s)))) as (gs & Hg & Hcg & Hrg & Hng);
      [done|by simpl|simpl; lia|]. simpl in Hng. rewrite length_alter in Hng. exists (hs ++ gs).
    rewrite app_assoc, asyncs_app, (asyncs_normal hs (run_normal _ _ Hrun)), concat_app. split_and!; [|done..].
    destruct (decode_loop fuel _) as [s' [o|e|]]; simpl in Hg; [|split; [|apply Hg]|done].
    + destruct Hg as (-> & Ho & Hp). by rewrite Hb, <- app_assoc.
    + destruct Hg as [[rest ->] _]. exists rest. by rewrite Hb, <- app_assoc.
  - destruct Hs as (f & Hb & Hf & Ha & Hm). destruct (chans_async frames (in_chans s) f Hc Hf Ha) as [Hc' Hw'].
    exists [f]. simpl. rewrite Hw', app_nil_r. split_and!; try done. unfold asyncs. rewrite filter_cons_True by done. simpl. by rewrite Hm.
  - destruct Hs as [-> Hp]. exists []. rewrite app_nil_r. by split_and!.
  - simpl. rewrite app_nil_r. split_and!; try done. by exists (in_buf s).
Qed.

Lemma told_ok f : body_ok f -> told f <> Panic.
Proof. intros [m Hm]. unfold told. rewrite Hm. by destruct m. Qed.
Lemma parse_message_frame r f rest : is_frame f -> body_ok f -> rs_buf r = f ++ rest ->
  parse_message r = (mkResponse (rs_queue r) rest (rs_open r) (rs_log r ++ [told f]), Ready (told f)).
Proof.
  intros Hf [m Hm] Hb. unfold parse_message, told. pose proof (message_law f rest Hf) as Hl. rewrite Hm in *. rewrite Hb, Hl.
  by destruct m.
Qed.
(** A receive tells the next message; when all have been told it waits, or reports that the
    driver has let go of the request. *)
Lemma poll_recv_spec alive fs r : Forall is_frame fs -> Forall body_ok fs -> resp_ok fs r ->
  resp_ok fs (poll_recv alive r).1 /\ rs_open (poll_recv alive r).1 = rs_open r
  /\ (rs_log r = told <$> fs /\ poll_recv alive r = (r, if alive then Pending else Ready (Err ClosedByDriver))
      \/ exists f, fs !! length (rs_log r) = Some f /\ (poll_recv alive r).2 = Ready (told f) /\ rs_log (poll_recv alive r).1 = rs_log r ++ [told f]).
Proof.
  intros Hf Hb (k & gb & gss & Hl & Hd & Hbuf & Hq & Hne).
  (* the next message, if any, is [f]: the run it is in is the one being read, or the next *)
  assert (Hnext : forall f gb' gss', drop k fs = (f :: gb') ++ concat gss' -> Forall (fun gs => gs <> []) gss' ->
    poll_recv alive r = parse_message (mkResponse ((fun gs => concat gs) <$> gss') (f ++ concat gb') (rs_open r) (rs_log r)) ->
    resp_ok fs (poll_recv alive r).1 /\ rs_open (poll_recv alive r).1 = rs_open r
    /\ (rs_log r = told <$> fs /\ poll_recv alive r = (r, if alive then Pending else Ready (Err ClosedByDriver))
      \/ exists f, fs !! length (rs_log r) = Some f /\ (poll_recv alive r).2 = Ready (told f) /\ rs_log (poll_recv alive r).1 = rs_log r ++ [told f])).
  { intros f gb' gss' Hd' Hne' ->. assert (Hk : fs !! k = Some f) by (rewrite <- (Nat.add_0_r k), <- lookup_drop, Hd'; done).
    assert (length (rs_log r) = k) as Hlen by (rewrite Hl, length_fmap, length_take; apply lookup_lt_Some in Hk; lia).
    rewrite (parse_message_frame _ f (concat gb')); [|by eapply Forall_lookup_1..|done]. simpl. split_and!; [|done|].
    - exists (S k), gb', gss'. simpl. rewrite (take_S_r _ _ _ Hk), fmap_app, <- Hl. split_and!; try done.
      replace (S k) with (k + 1) by lia. by rewrite <- drop_drop, Hd'.
    - right. exists f. by rewrite Hlen. }
  unfold poll_recv in *. destruct gb as [|f gb].
  - destruct gss as [|[|f gs] gss].
    + simpl in *. rewrite Hbuf, Hq in *. split_and!; [by exists k, [], []|done|]. left. split; [|done]. rewrite Hl.
      assert (length fs <= k) by (apply (f_equal length) in Hd; rewrite length_drop in Hd; simpl in Hd; lia). by rewrite take_ge.
    + by inversion_clear Hne.
    + simpl in Hbuf. rewrite Hbuf, Hq in *. simpl in *. apply (Hnext f gs gss); [done|by inversion_clear Hne|done].
  - apply (Hnext f gb gss); [done..|]. destruct r as [q b o lg]. simpl in *. subst q b.
    assert (is_frame f) as Hff by (eapply (Forall_lookup_1 _ fs k); [done|]; rewrite <- (Nat.add_0_r k), <- lookup_drop, Hd; done).
    apply frame_pos in Hff. destruct f; [simpl in Hff; lia|done].
Qed.

(** ** The invariant *)

(** [frames] are the messages the driver has handed out, [rest] what it has not looked at. *)
Record in_inv (frames : list bytes) (rest : bytes) (w : World) : Prop := {
  v_in : wire_in w = concat frames ++ rest;
  v_rest : is_ended (phase w) = false -> rest = read_buf w;
  v_idle : phase w = AtAwait -> partial (read_buf w);
  v_chans : chans_ok frames (chans w);
  v_res : is_ended (phase w) = false \/ tx w = true -> res w = unanswered frames (chans w);
  v_yields : Ok <$> yields w = body_parse <$> asyncs frames;
}.
Definition written (w : World) : bytes := concat (snd <$> sent w).
Record out_inv (w : World) : Prop := {
  v_ids : omap fst (sent w) = seq 0 (length (chans w));
  v_out : match write_state w with
          | WriteClosed (Some _) => exists l, written w = wire_out w ++ l
          | _ => written w = wire_out w ++ buf w
          end;
  v_write : write_state w = WantWrite -> buf w <> [];
  v_closed : is_ended (phase w) = true \/ tx w = false -> closed w = true;
}.
(** A task that waits for the client has been woken, or will be by the next thing it does. *)
Definition wake_ok (w : World) : Prop :=
  phase w = AtAwait -> write_state w = Waiting -> woken w = true \/ (waker w = true /\ buf w = [] /\ closed w = false).
Definition inv (w : World) : Prop := (exists frames rest, in_inv frames rest w) /\ out_inv w /\ wake_ok w.

Lemma chans_ok_same frames cs cs' : length cs' = length cs ->
  (forall i r, cs' !! i = Some r -> rs_open r = true -> Forall body_ok (segment i frames) ->
     cs !! i = Some r \/ resp_ok (segment i frames) r) -> chans_ok frames cs -> chans_ok frames cs'.
Proof.
  intros Hl Hi (Hf & Hr & Hs & Hc). unfold chans_ok. rewrite Hl. split_and!; try done. intros i r Hi' Ho Hb.
  destruct (Hi i r Hi' Ho Hb); [by apply Hc|done].
Qed.
Lemma segment_late frames i : readies frames < i -> segment i frames = [].
Proof.
  revert i. induction frames as [|f fs IH]; intros i Hi; [done|]. simpl in *. destruct (f_async f) eqn:Ha.
  { apply IH. lia. }
  destruct i as [|i]; [lia|]. destruct (f_ready f); apply IH; simpl in *; lia.
Qed.
Lemma chans_ok_push frames cs : chans_ok frames cs -> chans_ok frames (cs ++ [request_pair]).
Proof.
  intros (Hf & Hr & Hs & Hc). split; [done|]. rewrite length_app. split; [lia|]. split; [apply segment_late; simpl; lia|].
  intros i r Hi Ho Hb. apply lookup_app_Some in Hi as [Hi|[Hge Hi]]; [by apply Hc|].
  apply list_lookup_singleton_Some in Hi as [Hi <-]. replace i with (length cs) in * by lia. rewrite Hs. by exists 0, [], [].
Qed.
Lemma unanswered_push frames cs r : chans_ok frames cs -> unanswered frames (cs ++ [r]) = unanswered frames cs ++ [length cs].
Proof.
  intros (_ & Hr & _). unfold unanswered. rewrite length_app. simpl.
  replace (length cs + 1 - readies frames) with (length cs - readies frames + 1) by lia. rewrite seq_app. simpl.
  by replace (readies frames + (length cs - readies frames)) with (length cs) by lia.
Qed.

(** *** The client's steps *)

Lemma append_out id b c w w' : out_inv w ->
  omap fst (sent w ++ [(id, b)]) = seq 0 (length c) ->
  buf w' = buf w ++ b -> sent w' = sent w ++ [(id, b)] -> chans w' = c -> wire_out w' = wire_out w -> write_state w' = write_state w ->
  (is_ended (phase w') = true \/ tx w' = false -> closed w' = true) -> out_inv w'.
Proof.
  intros [Hi Ho Hw Hc] Hid Hb Hs Hch Hwo Hws Hcl. 
  assert (written w' = written w ++ b) as Hw' by (unfold written; rewrite Hs, fmap_app, concat_app; simpl; by rewrite app_nil_r). constructor; try done.
  - by rewrite Hs, Hch.
  - rewrite Hws, Hwo, Hb, Hw'. destruct (write_state w) as [| | |[e|]]; try (by rewrite Ho, app_assoc).
    destruct Ho as [l ->]. exists (l ++ b). by rewrite app_assoc.
  - rewrite Hws, Hb. intros H [Hn _]%app_nil. by apply Hw in H.
Qed.
Lemma omap_fst_snoc (l : list (option nat * bytes)) id b : omap fst (l ++ [(id, b)]) = omap fst l ++ option_list id.
Proof. rewrite omap_app. by destruct id. Qed.
Lemma wake_woken w : wake_ok w -> phase w = AtAwait -> write_state w = Waiting -> waker w || woken w = true.
Proof. intros H Hp Hs. destruct (H Hp Hs) as [->|(-> & _)]; [by rewrite orb_true_r|done]. Qed.

Lemma send_inv enc w : tx w = true -> inv w -> inv (send enc w).1.
Proof.
  unfold send. intros Htx Hinv. destruct (closed w) eqn:Hcl; [done|]. destruct enc as [b|]; [|done].
  destruct Hinv as ((frames & rest & []) & Ho & Hw). split_and!.
  - exists frames, rest. constructor; simpl; [done..|by apply chans_ok_push| |done].
    intros _. rewrite unanswered_push by done. by rewrite v_res0 by (by right).
  - eapply (append_out (Some (length (chans w))) b (chans w ++ [request_pair])); try done.
    + rewrite omap_fst_snoc, (v_ids _ Ho), length_app. simpl. by rewrite Nat.add_1_r, seq_S.
    + apply (v_closed _ Ho).
  - intros Hp Hs. left. exact (wake_woken w Hw Hp Hs).
Qed.
Lemma send_one_way_inv enc w : inv w -> inv (send_one_way enc w).1.
Proof.
  unfold send_one_way. intros Hinv. destruct (closed w) eqn:Hcl; [done|]. destruct enc as [b|]; [|done].
  destruct Hinv as ((frames & rest & []) & Ho & Hw). split_and!.
  - by exists frames, rest.
  - eapply (append_out None b (chans w)); try done.
    + by rewrite omap_fst_snoc, (v_ids _ Ho), app_nil_r.
    + apply (v_closed _ Ho).
  - intros Hp Hs. left. exact (wake_woken w Hw Hp Hs).
Qed.
Lemma drop_tx_inv w : inv w -> inv (drop_tx w).
Proof.
  intros ((frames & rest & []) & Ho & Hw). split_and!.
  - exists frames, rest. constructor; simpl; try done. intros [Hp|]; [|done]. rewrite Hp. apply v_res0. by left.
  - eapply (append_out None terminate (chans w)); try done.
    by rewrite omap_fst_snoc, (v_ids _ Ho), app_nil_r.
  - intros Hp Hs. left. exact (wake_woken w Hw Hp Hs).
Qed.
Lemma Forall_segment (P : bytes -> Prop) i fs : Forall P fs -> Forall P (segment i fs).
Proof.
  intros H. revert i. induction H as [|f fs Hf _ IH]; intros i; [constructor|]. simpl. destruct (f_async f), i as [|i]; try apply IH.
  constructor; [done|]. destruct (f_ready f); [constructor|apply IH].
Qed.
(** Steps that change the responses in place. *)
Lemma with_chans_inv cs w : length cs = length (chans w) ->
  (forall frames, chans_ok frames (chans w) -> chans_ok frames cs) -> inv w -> inv (with_chans cs w).
Proof.
  intros Hl Hc ((frames & rest & []) & [] & Hw). split_and!; [exists frames, rest| |done]; constructor; simpl; try done.
  - by apply Hc.
  - intros Hp. unfold unanswered. rewrite Hl. by apply v_res0.
  - by rewrite Hl.
Qed.
Lemma recv_inv i w : inv w -> inv (recv i w).1.
Proof.
  unfold recv. destruct (chans w !! i) as [r|] eqn:Hi; [|done]. destruct (rs_open r) eqn:Ho; [|done].
  destruct (poll_recv _ r) as [r' p] eqn:Hp. simpl. apply with_chans_inv; [apply length_insert|].
  intros frames Hc. pose proof Hc as (Hf & _ & _ & Hr). eapply chans_ok_same; [apply length_insert| |done].
  intros j r0 Hj Hj' Hb. destruct (decide (j = i)) as [->|Hne]; [right|left; by rewrite list_lookup_insert_ne in Hj by done].
  rewrite list_lookup_insert_eq in Hj by (by apply lookup_lt_Some in Hi). injection Hj as <-.
  pose proof (poll_recv_spec (bool_decide (i ∈ res w)) _ r (Forall_segment _ i _ Hf) Hb (Hr _ _ Hi Ho Hb)) as [H _]. by rewrite Hp in H.
Qed.
Lemma drop_rx_inv i w : inv w -> inv (drop_rx i w).
Proof.
  unfold drop_rx. apply with_chans_inv; [apply length_alter|]. intros frames. apply chans_ok_same; [apply length_alter|].
  intros j r Hj Ho _. destruct (decide (j = i)) as [->|Hne]; [|left; by rewrite list_lookup_alter_ne in Hj].
  rewrite list_lookup_alter_eq in Hj. by apply fmap_Some in Hj as (r0 & _ & ->).
Qed.

(** *** The driver's steps *)

(** [in_inv] does not look at the write side, nor [out_inv] at the read side. *)
Lemma in_inv_same frames rest w w' : in_inv frames rest w ->
  wire_in w' = wire_in w -> read_buf w' = read_buf w -> chans w' = chans w -> yields w' = yields w -> tx w' = tx w ->
  (is_ended (phase w') = false -> is_ended (phase w) = false) -> (phase w' = AtAwait -> phase w = AtAwait \/ partial (read_buf w)) ->
  (is_ended (phase w') = false \/ tx w' = true -> res w' = res w) -> in_inv frames rest w'.
Proof.
  intros [] Hwi Hrb Hc Hy Ht Hp Ha Hr. constructor; rewrite ?Hwi, ?Hrb, ?Hc, ?Hy; try done.
  - intros H. by apply v_rest0, Hp.
  - intros H. destruct (Ha H) as [H'|H']; [by apply v_idle0|done].
  - intros H. rewrite Hr by done. apply v_res0. destruct H as [H|H]; [left; by apply Hp|right; congruence].
Qed.
Lemma out_inv_same w w' : out_inv w -> sent w' = sent w -> wire_out w' = wire_out w -> length (chans w') = length (chans w) -> buf w' = buf w ->
  write_state w' = write_state w -> (is_ended (phase w') = true \/ tx w' = false -> closed w' = true) -> out_inv w'.
Proof.
  intros [] Hs Hw Hc Hb Hws Hcl. constructor; unfold written; rewrite ?Hs, ?Hw, ?Hc, ?Hb, ?Hws; done.
Qed.
Lemma finish_inv r w : inv w -> inv (finish r w).
Proof.
  intros ((frames & rest & Hi) & Ho & _). split_and!; [exists frames, rest; eapply in_inv_same; try done|by eapply out_inv_same|done].
  simpl. intros [|H]; [done|]. by rewrite H.
Qed.
Lemma await_inv w : phase w = AtDecode -> partial (read_buf w) -> inv w -> inv (await w).
Proof.
  intros Hph Hp Hinv. pose proof Hinv as ((frames & rest & Hi) & Ho & _).
  assert (Hgo : forall wk wn, (write_state w = Waiting -> wn = true \/ wk = true /\ buf w = [] /\ closed w = false) -> inv (goto AtAwait (write_state w) wk wn w)).
  { intros wk wn Hwk. split_and!; [exists frames, rest; eapply in_inv_same; try done| |by intros _].
    - simpl. by rewrite Hph.
    - intros _. by right.
    - eapply out_inv_same; try done. intros [H|H]; [done|]. apply (v_closed _ Ho). by right. }
  unfold await. destruct (write_state w) as [| | |e'] eqn:Hws.
  - assert (Hwt : inv match wait w with Some _ => goto AtAwait Waiting (waker w) true w | None => goto AtAwait Waiting true false w end).
    { unfold wait. destruct (bool_decide_reflect (buf w = [])) as [Hb|Hb]; simpl; [|apply Hgo; by left].
      destruct (closed w); apply Hgo; [by left|by right]. }
    by destruct (read_state w) as [|[|]].
  - by destruct (read_state w) as [|[|]]; apply Hgo.
  - by destruct (read_state w) as [|[|]]; apply Hgo.
  - by destruct (read_state w) as [|[e|]], e' as [e'|]; try apply Hgo; try apply finish_inv.
Qed.
Lemma top_inv w : phase w = AtDecode -> inv w -> exists w', top w = Ok w' /\ inv w'.
Proof.
  intros Hph ((frames & rest & Hi) & Ho & _). pose proof Hi as [].
  assert (is_ended (phase w) = false) as Hne by (by rewrite Hph). rewrite v_rest0 in v_in0 by done.
  destruct (decode_loop_spec (S (length (in_buf (inbox w)))) frames (inbox w) v_chans0 (v_res0 (or_introl Hne)) ltac:(lia)) as (gs & Hg & Hc & Hr & Hn).
  unfold top, try_decode. destruct (decode_loop _ (inbox w)) as [s r]. simpl in Hc, Hr, Hn.
  assert (Hin : forall rest' ms w', read_buf w = concat gs ++ rest' -> Ok <$> ms = body_parse <$> asyncs gs ->
    w' = with_inbox s ms w /\ rest' = in_buf s \/ (exists p, w' = finish p (with_inbox s ms w)) -> inv w').
  { intros rest' ms w' Hb Hm Hw'.
    assert (H1 : wire_in w = concat (frames ++ gs) ++ rest') by (by rewrite concat_app, v_in0, Hb, app_assoc).
    assert (H2 : Ok <$> (yields w ++ ms) = body_parse <$> asyncs (frames ++ gs)) by (by rewrite fmap_app, v_yields0, Hm, asyncs_app, fmap_app).
    destruct Hw' as [[-> Hrest]|[p ->]]; (split; [exists (frames ++ gs), rest'; constructor; simpl|split]); try done.
    - by rewrite Hph.
    - eapply out_inv_same; try done. apply (v_closed _ Ho).
    - intros H. simpl in H. congruence.
    - intros [|H]; [done|]. by rewrite H.
    - by eapply out_inv_same. }
  destruct r as [[m|]|e|]; [| | |done].
  - destruct Hg as (Hb & Hm & _). eexists. split; [done|]. apply (Hin (in_buf s) [m]); [done..|by left].
  - destruct Hg as (Hb & Hm & Hp). eexists. split; [done|]. apply await_inv; [done|by apply Hp|]. apply (Hin (in_buf s) []); [done..|by left].
  - destruct Hg as ([rest' Hb] & Hm). eexists. split; [done|]. apply (Hin rest' []); [done|by rewrite Hm|]. right. by eexists.
Qed.

Lemma try_read_loop_spec ans last read b : exists d, (try_read_loop ans last read b).1 = b ++ d /\ (try_read_loop ans last read b).2 <> Panic.
Proof.
  revert read b. induction ans as [|d ans IH]; intros read b; simpl.
  - exists []. rewrite app_nil_r. by repeat case_match.
  - destruct d as [|x d]; [exists []; by rewrite app_nil_r|]. destruct (IH (read + length (x :: d)) (b ++ x :: d)) as (d' & -> & Hp).
    exists ((x :: d) ++ d'). by rewrite app_assoc.
Qed.
(** Reading appends to the buffer what the socket delivers. *)
Lemma on_read_spec ans last w : exists d, on_read ans last w =
  mkWorld (closed w) (buf w) (res w) (waker w) (read_buf w ++ d) (read_state (on_read ans last w)) (write_state w) (chans w) (phase w) (tx w) (woken w)
    (wire_in w ++ d) (wire_out w) (sent w) (yields w).
Proof.
  unfold on_read, try_read. destruct (try_read_loop_spec ans last 0 (read_buf w)) as (d & Hd & _). exists d.
  destruct (try_read_loop _ _ _ _) as [b r]. simpl in *. subst b. by rewrite drop_app_length.
Qed.
Lemma write_loop_spec ans last k b : k < length b ->
  match write_loop ans last k b with
  | (n, Ok true) => True
  | (n, Ok false) | (n, Err _) => n < length b
  | (_, Panic) => False
  end.
Proof.
  revert k. induction ans as [|n ans IH]; intros k Hk; simpl; [by case_decide|].
  destruct (Nat.eqb_spec (n `min` (length b - k)) 0); [done|].
  destruct (Nat.eqb_spec (k + n `min` (length b - k)) (length b)); [done|]. apply IH. lia.
Qed.
(** What a write leaves in the buffer is what the socket has not taken. *)
Lemma try_write_spec ans last fl o : fl <> Panic -> o_state o = WantFlush \/ o_state o = WantWrite /\ o_buf o <> [] ->
  match try_write ans last fl o with
  | (o', Ok _) => o_wire o' ++ o_buf o' = o_wire o ++ o_buf o /\ (o_state o' = WantWrite -> o_buf o' <> []) /\ (forall e, o_state o' <> WriteClosed e)
  | (o', Err _) => exists l, o_wire o ++ o_buf o = o_wire o' ++ l
  | (_, Panic) => False
  end.
Proof.
  intros Hfl Hst.
  assert (Hflush : forall o1, o_state o1 = WantFlush -> o_wire o1 ++ o_buf o1 = o_wire o ++ o_buf o -> match flush fl o1 with
    | (o', Ok _) => o_wire o' ++ o_buf o' = o_wire o ++ o_buf o /\ (o_state o' = WantWrite -> o_buf o' <> []) /\ (forall e, o_state o' <> WriteClosed e)
    | (o', Err _) => exists l, o_wire o ++ o_buf o = o_wire o' ++ l
    | (_, Panic) => False
    end).
  { intros o1 Hs Hw. unfold flush. destruct fl as [|e|]; [by simpl| |done]. case_decide; [|by exists (o_buf o1)]. by rewrite Hs. }
  unfold try_write. destruct Hst as [Hs|[Hs Hb]]; rewrite Hs; [by apply Hflush|].
  pose proof (write_loop_spec ans last 0 (o_buf o)) as Hl. assert (0 < length (o_buf o)) as H0 by (destruct (o_buf o); [done|simpl; lia]).
  specialize (Hl H0). destruct (write_loop ans last 0 (o_buf o)) as [n [[]|e|]]; simpl; [| | |done].
  - apply Hflush; [done|]. simpl. by rewrite app_nil_r.
  - rewrite <- app_assoc, take_drop. split_and!; [done| |done]. intros _ Hd. apply (f_equal length) in Hd. rewrite length_drop in Hd. simpl in Hd. lia.
  - exists (drop n (o_buf o)). by rewrite <- app_assoc, take_drop.
Qed.
Lemma on_write_inv ans last fl w : fl <> Panic -> is_ended (phase w) = false -> out_inv w -> write_state w = WantFlush \/ write_state w = WantWrite ->
  exists c b ws o, let w' := mkWorld c b (res w) (waker w) (read_buf w) (read_state w) ws (chans w) (phase w) (tx w) (woken w) (wire_in w) o (sent w) (yields w) in
  on_write ans last fl w = Ok w' /\ out_inv w'.
Proof.
  intros Hfl Hph Ho Hst. pose proof Ho as [Hi Hout Hw Hc]. unfold on_write. set (o := mkOutbox _ _ _).
  assert (Hout' : written w = o_wire o ++ o_buf o) by (by destruct Hst as [Hs|Hs]; rewrite Hs in Hout).
  pose proof (try_write_spec ans last fl o Hfl) as Ht. assert (o_state o = WantFlush \/ o_state o = WantWrite /\ o_buf o <> []) as Hs
    by (destruct Hst as [|Hs]; [by left|right; split; [done|by apply Hw]]). specialize (Ht Hs).
  destruct (try_write ans last fl o) as [o' [[]|e|]]; [| |done]; (do 4 eexists; split; [done|]).
  - destruct Ht as (He & Hn & Hcl). constructor; simpl; try done. change (written _) with (written w). rewrite Hout', <- He.
    destruct (o_state o') as [| | |e]; try done. by destruct (Hcl e).
  - constructor; simpl; try done. change (written _) with (written w). by rewrite Hout'.
Qed.
(** What a readable socket changes, up to the top of the loop. *)
Lemma in_read frames rest d w w' : in_inv frames rest w -> phase w = AtAwait -> phase w' = AtDecode ->
  wire_in w' = wire_in w ++ d -> read_buf w' = read_buf w ++ d -> chans w' = chans w -> res w' = res w -> yields w' = yields w -> in_inv frames (rest ++ d) w'.
Proof.
  intros [] Hp Hp' Hi Hb Hc Hr Hy. assert (is_ended (phase w) = false) as He by (by rewrite Hp).
  constructor; rewrite ?Hi, ?Hb, ?Hc, ?Hr, ?Hy, ?Hp'; try done.
  - by rewrite v_in0, app_assoc.
  - intros _. by rewrite v_rest0.
  - intros _. apply v_res0. by left.
Qed.
Lemma io_ready_inv rd wr w : phase w = AtAwait -> inv w ->
  act (IoReady rd wr) w = Err tt \/ exists w', act (IoReady rd wr) w = Ok w' /\ inv w'.
Proof.
  intros Hp ((frames & rest & Hi) & Ho & _). cbn [act]. rewrite Hp. destruct (interest w) as [[readable writable] client] eqn:Hint.
  destruct (_ && _) eqn:Hg; [|by left]. right. apply andb_prop in Hg as [[[_ Hrd]%andb_prop Hwr]%andb_prop Hfl].
  assert (Hread : exists d rs, match rd with Some (ans, last) => on_read ans last w | None => w end =
    mkWorld (closed w) (buf w) (res w) (waker w) (read_buf w ++ d) rs (write_state w) (chans w) (phase w) (tx w) (woken w)
      (wire_in w ++ d) (wire_out w) (sent w) (yields w)).
  { destruct rd as [[ans last]|]; [destruct (on_read_spec ans last w) as [d Hd]; by do 2 eexists|].
    exists [], (read_state w). rewrite !app_nil_r. by destruct w. }
  destruct Hread as (d & rs & ->). set (w1 := mkWorld _ _ _ _ _ _ _ _ _ _ _ _ _ _ _).
  assert (Ho1 : out_inv w1) by (eapply out_inv_same; try done; apply (v_closed _ Ho)).
  assert (Hdone : forall c b ws o, let w2 := mkWorld c b (res w1) (waker w1) (read_buf w1) (read_state w1) ws (chans w1) (phase w1) (tx w1) (woken w1) (wire_in w1) o (sent w1) (yields w1) in
    out_inv w2 -> inv (goto AtDecode (write_state w2) (waker w2) false w2)).
  { intros c b ws o w2 Ho2. split_and!; [exists frames, (rest ++ d); by eapply in_read| |done].
    eapply out_inv_same; try done. intros [|H]; [done|]. apply (v_closed _ Ho2). by right. }
  destruct wr as [[[ans last] fl]|].
  - destruct (on_write_inv ans last fl w1) as (c & b & ws & o & -> & Ho2); [by intros ->|by simpl; rewrite Hp|done| |].
    { simpl. unfold interest in Hint. destruct (read_state w), (write_state w); try (by left); try (by right); injection Hint as <- <- <-; done. }
    eexists. split; [done|]. by apply Hdone.
  - eexists. split; [done|]. apply (Hdone (closed w) (buf w) (write_state w) (wire_out w)). by destruct w.
Qed.

Lemma polled_inv ws readable writable w : phase w = AtAwait -> interest w = (readable, writable, true) -> wait w = Some ws -> inv w ->
  inv (goto AtDecode ws (waker w) false w).
Proof.
  intros Hp Hint Hw ((frames & rest & Hi) & Ho & _). assert (write_state w = Waiting) as Hws by (unfold interest in Hint; by destruct (read_state w), (write_state w)).
  pose proof Ho as [Hid Hout _ Hc]. rewrite Hws in Hout. split_and!; [exists frames, rest; eapply in_inv_same; try done; by rewrite Hp| |done].
  unfold wait in Hw. destruct (bool_decide_reflect (buf w = [])) as [Hb|Hb]; simpl in Hw; [destruct (closed w) eqn:Hcl; [|done]|];
    injection Hw as <-; constructor; simpl; try done. intros [|H]; [done|]. apply Hc. by right.
Qed.

(** Every step keeps the invariant, and none panics but a receive. *)
Lemma act_inv a w : inv w -> (exists w', act a w = Ok w' /\ inv w') \/ act a w = Err tt \/ exists i, a = Recv i.
Proof.
  intros Hinv. destruct a as [enc|enc| |i|i| | |rd wr|e|r|]; cbn [act].
  - destruct (tx w) eqn:Ht; [left; eexists; split; [done|by apply send_inv]|by right; left].
  - destruct (tx w) eqn:Ht; [left; eexists; split; [done|by apply send_one_way_inv]|by right; left].
  - destruct (tx w) eqn:Ht; [left; eexists; split; [done|by apply drop_tx_inv]|by right; left].
  - right. right. by exists i.
  - left. eexists. split; [done|by apply drop_rx_inv].
  - destruct (phase w) eqn:Hp; [left; by apply top_inv|by right; left..].
  - destruct (phase w) eqn:Hp; [by right; left| |by right; left].
    destruct (interest w) as [[readable writable] client] eqn:Hint. destruct (wait w) as [ws|] eqn:Hw; [|by right; left]. destruct client eqn:Hc; [|by right; left].
    subst client. left. eexists. split; [done|]. by eapply polled_inv.
  - destruct (phase w) eqn:Hp; [by right; left| |by right; left].
    destruct (io_ready_inv rd wr w Hp Hinv) as [H|H]; cbn [act] in H; rewrite Hp in H; [by right; left|by left].
  - destruct (phase w) eqn:Hp; [by right; left| |by right; left]. destruct (interest w) as [[r wr] ?].
    destruct (r || wr); [left; eexists; split; [done|by apply finish_inv]|by right; left].
  - destruct (phase w) eqn:Hp; [by right; left| |by right; left].
    destruct (read_state w) as [|[]], (write_state w) as [| | |[]]; try (by right; left). left. eexists. split; [done|by apply finish_inv].
  - destruct (phase w) eqn:Hp; [left; eexists; split; [done|by apply finish_inv]..|by right; left].
Qed.

Lemma recv_ok i w w' : act (Recv i) w = Ok w' -> w' = (recv i w).1.
Proof. cbn [act]. destruct (recv i w) as [w1 [[|[]]|]]; simpl; congruence. Qed.
Lemma start_inv rb : inv (start rb).
Proof.
  split_and!; [exists [], rb; constructor; simpl; try done| |done].
  - constructor; simpl; try done. by intros [|].
Qed.
Lemma reach_inv w : reach w -> inv w.
Proof.
  induction 1 as [rb|a w w' Hr IH Ha]; [apply start_inv|]. destruct (act_inv a w IH) as [(w1 & H1 & H2)|[H1|[i ->]]]; [congruence..|].
  rewrite (recv_ok _ _ _ Ha). by apply recv_inv.
Qed.

Lemma concat_runs (gss : list (list bytes)) : concat ((fun gs => concat gs) <$> gss) = concat (concat gss).
Proof. induction gss as [|gs gss IH]; [done|]. rewrite fmap_cons. cbn [concat]. by rewrite IH, concat_app. Qed.

(** ** Theorems *)

(** The driver runs and no write has failed. *)
Definition serving (w : World) : Prop := is_ended (phase w) = false /\ forall e, write_state w <> WriteClosed (Some e).
Lemma unanswered_elem frames cs i r : cs !! i = Some r -> bool_decide (i ∈ unanswered frames cs) = negb (i <? readies frames).
Proof.
  intros Hi%lookup_lt_Some. unfold unanswered. destruct (Nat.ltb_spec i (readies frames)); [apply bool_decide_false|apply bool_decide_true]; rewrite elem_of_seq; lia.
Qed.

(** C37: responses go to their requests, in order.  For any parser of backend messages that keeps
    the framing of the protocol, under every interleaving of client and driver and however the socket
    cuts its stream: what has been received is the whole messages the driver has handed out, in order,
    and a rest, which has no complete message when the driver waits.  A message that belongs to no
    request is returned to the driver's caller; of the others, the [i]th response, up to the message
    that ends it, goes to the [i]th request and nothing else does.  The owner of a response it still
    holds, all of whose messages parse, is told them in order, and its next receive returns the first
    it has not been told.  As long as the driver runs and no write has failed, the queue holds the
    requests whose response has not ended, in order, and a receive that finds nothing waits if its
    response has not ended and fails if it has. *)
Theorem pg_responses_in_order w : reach w -> exists frames rest,
  wire_in w = concat frames ++ rest /\ Forall is_frame frames /\ (phase w = AtAwait -> partial rest)
  /\ Ok <$> yields w = body_parse <$> asyncs frames
  /\ (serving w -> res w = seq (readies frames) (length (chans w) - readies frames))
  /\ forall i r, chans w !! i = Some r -> rs_open r = true -> Forall body_ok (segment i frames) ->
     exists later, told <$> segment i frames = rs_log r ++ (told <$> later) /\ rs_buf r ++ concat (rs_queue r) = concat later
       /\ match later with
          | f :: _ => (recv i w).2 = Some (Ready (told f))
          | [] => serving w -> (recv i w).2 = Some (if i <? readies frames then Ready (Err ClosedByDriver) else Pending)
          end.
Proof.
  intros ((frames & rest & []) & _ & _)%reach_inv. pose proof v_chans0 as (Hf & _ & _ & Hc).
  exists frames, rest. split_and!; [done..| |done|intros [Hs _]; apply v_res0; by left|].
  - intros Hp. rewrite v_rest0 by (by rewrite Hp). by apply v_idle0.
  - intros i r Hi Ho Hb. unfold recv. rewrite Hi, Ho.
    pose proof (Hc i r Hi Ho Hb) as Hr. pose proof Hr as (k & gb & gss & Hl & Hd & Hbuf & Hq & _).
    exists (drop k (segment i frames)). rewrite Hl, <- fmap_app, take_drop. split; [done|]. split; [by rewrite Hd, Hbuf, Hq, concat_app, concat_runs|].
    destruct (poll_recv_spec (bool_decide (i ∈ res w)) _ r (Forall_segment _ i _ Hf) Hb Hr) as (_ & _ & [[Ht ->]|(f & Hk & Hp & _)]).
    + rewrite Hl in Ht. apply (f_equal length) in Ht. rewrite !length_fmap, length_take in Ht. rewrite drop_ge by lia.
      intros [Hs _]. cbn [snd]. rewrite (v_res0 (or_introl Hs)), (unanswered_elem _ _ _ _ Hi). by destruct (i <? readies frames).
    + destruct (poll_recv _ r) as [r' p]. simpl in *.
      assert (length (rs_log r) = k) as Hlen. { apply lookup_lt_Some in Hk. rewrite Hl, length_fmap, length_take in *. lia. }
      rewrite Hlen in Hk. apply drop_S in Hk as ->. by rewrite Hp.
Qed.

(** C39: requests are written in the order they were made.  In every reachable state the requests
    that expect a response are numbered in the order their bytes were appended to the buffer, and what
    the socket has taken is a prefix of all the bytes appended, nothing lost in between, repeated or
    reordered; as long as no write has failed the rest is in the buffer, and when the driver waits for
    the client and has not been woken since, nothing is left to write. *)
Theorem pg_requests_in_order w : reach w ->
  omap fst (sent w) = seq 0 (length (chans w))
  /\ exists later, concat (snd <$> sent w) = wire_out w ++ later
     /\ ((forall e, write_state w <> WriteClosed (Some e)) -> later = buf w)
     /\ (phase w = AtAwait -> write_state w = Waiting -> woken w = false -> later = []).
Proof.
  intros (_ & [Hi Ho _ _] & Hw)%reach_inv. split; [done|]. fold (written w).
  assert (Hcase : (exists e, write_state w = WriteClosed (Some e)) \/ written w = wire_out w ++ buf w).
  { destruct (write_state w) as [| | |[e|]]; [by right..|left; by eexists|by right]. }
  destruct Hcase as [[e He]|Hb].
  - rewrite He in *. destruct Ho as [l Hl]. exists l. split_and!; [done| |done]. intros H. by destruct (H e).
  - exists (buf w). split_and!; [done..|]. intros Hp Hs Hn. destruct (Hw Hp Hs) as [|(_ & H & _)]; congruence.
Qed.

(** No step of client or driver panics: no message is missing where the driver expects one, no
    write starts in a state that has nothing to write or with an empty buffer; a receive does not
    panic on well-formed messages; and no wakeup is lost: a driver that waits for the client has
    been woken if there is anything to write or the client is gone. *)
Theorem pg_driver_safe w : reach w ->
  (forall a, (forall i, a <> Recv i) -> act a w <> Panic)
  /\ (exists frames rest, wire_in w = concat frames ++ rest /\ Forall is_frame frames /\ forall i, Forall body_ok (segment i frames) -> act (Recv i) w <> Panic)
  /\ (write_state w = WantWrite -> buf w <> [])
  /\ (phase w = AtAwait -> write_state w = Waiting -> buf w <> [] \/ closed w = true -> woken w = true)
  /\ (is_ended (phase w) = true \/ tx w = false -> forall enc, (send enc w).2 = Err DriverDown).
Proof.
  intros Hinv%reach_inv. pose proof Hinv as ((frames & rest & []) & [_ _ Hw Hc] & Hwk). pose proof v_chans0 as (Hf & _ & _ & Hch). split_and!.
  - intros a Ha. destruct (act_inv a w Hinv) as [(w' & H & _)|[H|[i ->]]]; [congruence..|by destruct (Ha i)].
  - exists frames, rest. split; [done|]. split; [done|]. intros i Hb. cbn [act]. unfold recv. destruct (chans w !! i) as [r|] eqn:Hi; [|done].
    destruct (rs_open r) eqn:Ho; [|done].
    destruct (poll_recv_spec (bool_decide (i ∈ res w)) _ r (Forall_segment _ i _ Hf) Hb (Hch i r Hi Ho Hb)) as (_ & _ & [[_ ->]|(f & Hk & Hp & _)]);
      [by destruct (bool_decide (i ∈ res w))|]. destruct (poll_recv _ r) as [r' p]. simpl in Hp. subst p.
    pose proof (told_ok f (Forall_lookup_1 _ _ _ _ Hb Hk)). by destruct (told f).
  - done.
  - intros Hp Hs Hor. destruct (Hwk Hp Hs) as [|(_ & Hb & Hcl)]; [done|]. destruct Hor; congruence.
  - intros Hor enc. unfold send. by rewrite Hc.
Qed.

(** *** Row counts *)

Definition passive (m : Message) : Prop :=
  match m with
  | BindComplete | NoData | ParseComplete | ParameterDescription _ | RowDescription _ | DataRow _ | EmptyQueryResponse | PortalSuspended => True
  | _ => False
  end.
Lemma row_affected_passive rows ms l : Forall passive ms -> row_affected rows ((Ok <$> ms) ++ l) = row_affected rows l.
Proof. induction 1 as [|m ms Hm _ IH]; [done|]. by destruct m. Qed.
Lemma row_affected_commands rows ms l : Forall (fun m => passive m \/ exists t, m = CommandComplete (Some t)) ms ->
  exists rows', row_affected rows ((Ok <$> ms) ++ l) = row_affected rows' l.
Proof.
  intros H. revert rows. induction H as [|m ms [Hm|[t ->]] _ IH]; intros rows; [by exists rows| |apply IH].
  rewrite fmap_cons. change (?m :: ?k) with ([m] ++ k). destruct m; try done; apply IH.
Qed.
Lemma last_split_on c p q : c ∉ q -> last (split_on c (p ++ c :: q)) = Some q.
Proof.
  intros Hq. assert (H : forall p, exists a b, split_on c (p ++ c :: q) = a :: b ++ [q]).
  { intros p'. induction p' as [|x p' (a & b & IH)]; simpl.
    - rewrite split_on_clean by done. rewrite Z.eqb_refl. by exists [], [].
    - rewrite IH. destruct (x =? c)%Z; [by exists [], (a :: b)|by exists (x :: a), b]. }
  destruct (H p) as (a & b & ->). rewrite app_comm_cons. apply last_snoc.
Qed.
(** A response that runs to its end reports the rows of its last command, whose tag ends in their
    number. *)
Theorem pg_rows_affected pre ms verb n s : is_u64 n -> Forall passive ms ->
  Forall (fun m => passive m \/ exists t, m = CommandComplete (Some t)) pre ->
  row_affected 0 (Ok <$> (pre ++ CommandComplete (Some (verb ++ 32%Z :: decimal n)) :: ms ++ [ReadyForQuery s])) = Some (Ok n).
Proof.
  intros Hn Hms Hpre. rewrite fmap_app. destruct (row_affected_commands 0 pre (Ok <$> (CommandComplete (Some (verb ++ 32%Z :: decimal n)) :: ms ++ [ReadyForQuery s])) Hpre) as [rows ->].
  rewrite fmap_cons, fmap_app. cbn [row_affected body_to_affected_rows]. rewrite row_affected_passive by done. cbn [row_affected].
  rewrite last_split_on; [change (default [] (Some (decimal n))) with (decimal n)|apply decimal_no_byte; [apply Hn|done]]. by rewrite parse_decimal.
Qed.

(** *** What the owner of a response is not told *)

(** Once the driver has ended, the senders stay with the client's handle, whatever anyone does but
    drop it: a request that waits then waits for ever. *)
Theorem pg_driver_down_keeps_senders a w w' : reach w -> is_ended (phase w) = true -> a <> DropTx -> act a w = Ok w' ->
  res w' = res w /\ is_ended (phase w') = true.
Proof.
  intros (_ & [_ _ _ Hc] & _)%reach_inv He Ha. rewrite He in Hc. specialize (Hc (or_introl eq_refl)).
  destruct a; cbn [act]; try (unfold send, send_one_way; rewrite Hc; destruct (tx w); by intros [= <-]); try done;
    try (destruct (phase w); done).
  - intros ->%recv_ok. unfold recv. destruct (chans w !! i) as [r|]; [|done]. destruct (rs_open r); [|done]. by destruct (poll_recv _ r).
  - by intros [= <-].
Qed.
End Driver.

(** ** An instance to run *)

(** A parser that knows the messages of a simple query. *)
Definition demo_header (l : bytes) : outcome ErrorKind (option (Z * Z)) :=
  match l with
  | t :: a :: b :: c :: d :: _ =>
      let n := be_decode [a; b; c; d] in
      if ((4 <=? n) && (n <? 2 ^ 31))%Z then Ok (Some (t, n)) else Err (OtherKind 1)
  | _ => Ok None
  end.
Definition demo_body (f : bytes) : outcome ErrorKind Message :=
  let body := drop 5 f in
  let t := frame_tag f in
  if (t =? 90)%Z then Ok (ReadyForQuery 73)
  else if (t =? 67)%Z then Ok (CommandComplete (Some body))
  else if (t =? 68)%Z then Ok (DataRow body)
  else if (t =? 69)%Z then Ok (ErrorResponse body)
  else if (t =? 33)%Z then Err (OtherKind 2)
  else Ok (OtherMessage t body).
Definition demo_message (l : bytes) : bytes * outcome ErrorKind (option Message) :=
  match demo_header l with
  | Ok (Some (_, n)) =>
      let k := Z.to_nat n + 1 in
      if length l <? k then (l, Ok None) else (drop k l, Some <$> demo_body (take k l))
  | Ok None => (l, Ok None)
  | Err e => (l, Err e)
  | Panic => (l, Panic)
  end.
#[local] Instance demo_backend : Backend := {
  NOTICE_RESPONSE_TAG := 78; NOTIFICATION_RESPONSE_TAG := 65; PARAMETER_STATUS_TAG := 83; READY_FOR_QUERY_TAG := 90;
  header_parse := demo_header; message_parse := demo_message }.
Lemma demo_body_total f : demo_body f <> Panic.
Proof. unfold demo_body. by repeat case_match. Qed.
#[local] Program Instance demo_laws : BackendLaws := { body_parse := demo_body }.
Next Obligation. by intros [|? [|? [|? [|? [|? ?]]]]]; simpl; try lia. Qed.
Next Obligation. intros t a b c d l. cbv zeta. cbn [header_parse demo_backend demo_header]. case_match; [done|by eexists]. Qed.
Next Obligation.
  intros f l (t & a & b & c & d & body & Hf & Hn & Hb). assert (length f = Z.to_nat (4 + len body) + 1) as Hlen by (subst f; unfold len; simpl; lia).
  pose proof (demo_body_total f) as Ht. cbn [message_parse demo_backend]. unfold demo_message.
  assert (demo_header (f ++ l) = Ok (Some (t, 4 + len body)%Z)) as ->.
  { subst f. simpl. rewrite Hn. pose proof (len_nonneg body). by rewrite (proj2 (Z.leb_le _ _)), (proj2 (Z.ltb_lt _ _)) by lia. }
  rewrite <- Hlen, length_app, (proj2 (Nat.ltb_ge _ _)), drop_app_length, take_app_length by lia.
  destruct (demo_body f); [done|by eexists|done].
Qed.
Next Obligation.
  intros l. cbn [message_parse demo_backend]. unfold demo_message, demo_header. pose proof (demo_body_total). repeat case_match; simplify_eq; try done.
  simpl. destruct (demo_body _) eqn:E; try done. by destruct (demo_body_total _ E).
Qed.

Fixpoint run_acts (l : list Action) (w : World) : outcome unit World :=
  match l with [] => Ok w | a :: l => w ← act (bs "X") a w; run_acts l w end.
Lemma run_acts_reach l w w' : reach (bs "X") w -> run_acts l w = Ok w' -> reach (bs "X") w'.
Proof.
  revert w. induction l as [|a l IH]; intros w Hr; cbn [run_acts]; [by intros [= <-]|].
  destruct (act (bs "X") a w) as [w1|e|] eqn:Ha; [|done..]. apply IH. by eapply reach_step.
Qed.
Definition frame (t : Z) (body : bytes) : bytes := t :: be_encode 4 (4 + len body) ++ body.

(** Two requests in flight; the first response arrives in two pieces around a notice, the second
    with the end of the first. *)
Definition row (s : string) : bytes := frame 68 (bs s).
Definition ready_msg : bytes := frame 90 (bs "I").
Definition demo_stream : bytes := row "a" ++ frame 78 (bs "hi") ++ row "b" ++ ready_msg ++ row "c" ++ ready_msg.
Definition demo_acts : list Action :=
  [Top; Send (Some (bs "Q1")); Send (Some (bs "Q2")); Polled; Top;
   IoReady (Some ([take 9 demo_stream; drop 9 (take 20 demo_stream)], WouldBlock)) (Some ([3; 1], WouldBlock, Ok tt)); Top; Top;
   Recv 0; IoReady (Some ([drop 20 demo_stream], WouldBlock)) None; Top; Recv 0; Recv 0; Recv 1].
Definition demo_world : World := match run_acts demo_acts (start []) with Ok w => w | _ => start [] end.
Lemma demo_reach : reach (bs "X") demo_world.
Proof. apply (run_acts_reach demo_acts (start [])); [constructor|]. by vm_compute. Qed.
Lemma pg_responses_in_order_witness :
  rs_log <$> chans demo_world = [[Ok (DataRow (bs "a")); Ok (DataRow (bs "b")); Ok (ReadyForQuery 73)]; [Ok (DataRow (bs "c"))]]
  /\ yields demo_world = [OtherMessage 78 (bs "hi")] /\ exists frames rest, wire_in demo_world = concat frames ++ rest /\ Forall is_frame frames.
Proof.
  split; [by vm_compute|]. split; [by vm_compute|].
  destruct (pg_responses_in_order (bs "X") demo_world demo_reach) as (frames & rest & H & Hf & _). exists frames, rest. exact (conj H Hf).
Defined.
Lemma pg_requests_in_order_witness :
  wire_out demo_world = bs "Q1Q2" /\ omap fst (sent demo_world) = [0; 1].
Proof.
  split; [by vm_compute|]. destruct (pg_requests_in_order (bs "X") demo_world demo_reach) as [-> _]. by vm_compute.
Defined.
Lemma pg_driver_safe_witness : act (bs "X") Top demo_world <> Panic /\ woken demo_world = false.
Proof.
  destruct (pg_driver_safe (bs "X") demo_world demo_reach) as (H & _). split; [by apply H|by vm_compute].
Defined.

(** The driver ends while a request waits: nothing tells its owner, although the next request is
    refused. *)
Lemma pg_pending_after_driver_down :
  match run_acts [Top; Send (Some (bs "Q1")); DropDriver] (start []) with
  | Ok w => is_closed w = true /\ (recv 0 w).2 = Some Pending /\ (send (Some (bs "Q2")) w).2 = Err DriverDown
  | _ => False
  end.
Proof. by vm_compute. Qed.
(** The server closes the connection while a request waits: the driver waits for the client, takes
    its requests and never ends. *)
Lemma pg_pending_after_server_close :
  match run_acts [Top; Send (Some (bs "Q1")); Polled; Top; IoReady (Some ([[]], WouldBlock)) (Some ([2], WouldBlock, Ok tt)); Top; Send (Some (bs "Q2"));
                  Polled; Top; IoReady None (Some ([2], WouldBlock, Ok tt)); Top] (start []) with
  | Ok w => phase w = AtAwait /\ read_state w = ReadClosed None /\ interest w = (false, false, true) /\ wait w = None
            /\ wire_out w = bs "Q1Q2" /\ (recv 0 w).2 = Some Pending /\ (recv 1 w).2 = Some Pending
  | _ => False
  end.
Proof. by vm_compute. Qed.
(** A write fails: the requests that were not written lose their bytes and keep their place in the
    queue. *)
Lemma pg_pending_after_write_error :
  match run_acts [Top; Send (Some (bs "Q1")); Polled; Top; IoReady None (Some ([], ConnectionReset, Ok tt)); Top] (start []) with
  | Ok w => buf w = [] /\ wire_out w = [] /\ res w = [0] /\ (recv 0 w).2 = Some Pending /\ phase w = AtAwait
  | _ => False
  end.
Proof. by vm_compute. Qed.
(** A response nobody asked for ends the driver with the server's error. *)
Lemma pg_unasked_response :
  match run_acts [Top; IoReady (Some ([frame 69 (bs "no")], WouldBlock)) None; Top] (start []) with
  | Ok w => phase w = Ended (Some (Err (Db (bs "no"))))
  | _ => False
  end.
Proof. by vm_compute. Qed.
